(* ===== verification/_CoqProject ===== *)
-Q . S2P
Prelude.v
PyValue.v
Firestore.v
LegalHolds.v
LegalHoldProofs.v
SyncLedger.v
Redis.v
SyncJobs.v
SyncJobsProofs.v
Sha256.v
FinalizationDecision.v
FinalizationJobs.v
FinalizationRecovery.v
FinalizationProofs.v
FinalizationTheorems.v
FinalizationCounters.v
FinalizationSpec.v
SweepProofs.v
FinalizationDispatch.v
ContentionRetry.v
FinalizationService.v
ServiceProofs.v
ServiceSpec.v
FinalizationDemo.v
ServiceDemo.v
MemoryText.v
MemoryOperations.v
MemoryModels.v
MemoryAccess.v
MemoryLifecycle.v
MemoryPromotion.v
MemoryApply.v
MemoryRecords.v
MemoryReceipts.v
MemoryStore.v
MemoryPrivacy.v
MemoryReplacement.v
MemoryProofs.v
MemoryItemProofs.v
MemoryTheorems.v
MemoryAccessProofs.v
MemoryLifecycleProofs.v
MemoryStoreProofs.v
MemoryPrivacyProofs.v
MemoryReplacementProofs.v
MemoryHistory.v
MemoryRows.v
MemoryStoreTheorems.v
MemoryDeletion.v
MemoryReplacementTheorems.v
MemoryDemo.v
LifecycleDemo.v
MemoryStoreDemo.v
ReplacementDemo.v
OutboxWorker.v
OutboxWorld.v
OutboxProofs.v
OutboxInvariant.v
OutboxTheorems.v
OutboxLedger.v
OutboxDeletion.v
OutboxDemo.v
AccountCutover.v
CutoverCoordinator.v
CutoverAccess.v
CutoverProofs.v
CutoverTheorems.v
CutoverDemo.v
FrameRequests.v
FrameStore.v
FrameRows.v
FrameProofs.v
FrameCalls.v
FrameSteps.v
FrameTheorems.v
FrameStorage.v
FrameRoutes.v
FrameRouteTheorems.v
FrameDemo.v
