(* ===== verification/Prelude.v ===== *)
(** * A verification library for the omi-local backend

    The program is the Python backend under [src/backend].  This library models
    the parts of it that decide who may do a piece of background work, that
    record its outcome and recover it after a crash, and that keep the ledger of
    a user's memories:

    - the sync content ledger, [database/sync_ledger.py], in [SyncLedger.v];
    - the sync jobs and their run locks, [database/sync_jobs.py], in [SyncJobs.v]
      over the Redis world of [Redis.v], with the theorems in
      [SyncJobsProofs.v];
    - document identifiers, [database/document_ids.py], in [Sha256.v];
    - the finalization reducer and admission,
      [utils/conversations/finalization_decision.py] and two functions of
      [utils/conversations/lifecycle.py], in [FinalizationDecision.v];
    - the durable finalization jobs, [database/conversation_finalization_jobs.py],
      in [FinalizationJobs.v] (admission, claims, terminal writes, fanout, replay,
      abandonment) and [FinalizationRecovery.v] (meeting receipts, fences of
      conversations without a job, sweep cursors, bounded sweeps, summary);
    - the retry of contended transactions, [database/firestore_transaction_retry.py],
      in [ContentionRetry.v];
    - the reconcilers and the request route that call the jobs,
      [services/conversation_finalization.py] and [request_finalization] of
      [utils/conversations/lifecycle.py], in [FinalizationService.v];
    - the memory ledger: canonical texts and identities ([MemoryText.v], from
      [models/memory_contracts.py]), the journal of operations ([MemoryOperations.v],
      from [models/memory_operations.py]), items, evidence and patches
      ([MemoryModels.v], from [models/product_memory.py], [memory_domain.py],
      [memory_evidence.py], [memory_admission.py] and [memory_contracts.py]),
      promotion ([MemoryPromotion.v], from [models/memory_promotion.py]) and the
      apply transaction ([MemoryApply.v], from [models/memory_apply.py]);
    - the Firestore side of that ledger, [database/memory_apply_store.py]: the stored
      records and their strict readers ([MemoryRecords.v]), the references, receipts
      and reviews ([MemoryReceipts.v]), the apply transaction with the authorities it
      reads ([MemoryStore.v]), the privacy deletions ([MemoryPrivacy.v]) and, with
      [models/memory_source_replacement.py], the replacement of the memories of a
      conversation ([MemoryReplacement.v]);
    - the consumer of the ledger's outbox, [database/memory_outbox_worker.py], with
      [database/account_deletion_projection_fence.py] and the drain of
      [utils/memory/short_term_promotion.py], in [OutboxWorker.v]; the search and
      vector indexes and the interleavings of the workers are in [OutboxWorld.v];
    - the legal holds and the gates of destructive work, [database/legal_holds.py] and
      [database/account_deletion_policy.py], in [LegalHolds.v];
    - the cutover of a whole account to a new data plane: states, write fence and stored
      record ([AccountCutover.v], from [models/account_cutover.py],
      [config/account_cutover.py], [utils/account_cutover/state.py], [fence.py] and
      [database/account_cutover.py]), the coordinator ([CutoverCoordinator.v], from
      [utils/account_cutover/coordinator.py]) and the admission of requests
      ([CutoverAccess.v], from [control.py], [access.py] and
      [routers/account_cutover.py]);
    - the requests of the backend for a screen frame of a user's device: rows and policy
      ([FrameRequests.v], from [models/frame_request.py] and
      [utils/retrieval/frame_request_policy.py]), their store ([FrameStore.v], from
      [database/frame_requests.py]), the pixels ([FrameStorage.v], from
      [utils/retrieval/frame_request_storage.py]) and the routes ([FrameRoutes.v], from
      [routers/frame_requests.py] and [utils/retrieval/frame_request_authority.py]);
    - who may read a memory, [MemoryAccess.v] (the access policy of
      [models/product_memory.py], [utils/memory/short_term_lifecycle.py],
      [database/product_memory_items.py] and
      [utils/memory/canonical_visibility_filter.py]), and the worker that records
      lifecycle transitions, [MemoryLifecycle.v]
      ([jobs/short_term_lifecycle_worker.py]).

    ** How the parts interact

    An upload is claimed in the ledger by a job; the worker of the job holds a
    Redis run lock whose epoch it binds into the ledger, so a worker that lost
    its lock is refused by both stores.  A recorded conversation is finalized
    through one durable job per generation: admission writes the job and the
    conversation in one Firestore transaction, a worker leases the job, delivers
    its external fanout once, and closes it; the recovery sweeps own every row
    whose owner died.  A memory changes only by the apply transaction: an operation
    of the journal, planned on an observed head, is applied to the user's control
    state and yields the next head, the changed items and the outbox events that
    keep the projections in step; the store reads that state and the rows, evidence
    and authorities of the patch, and writes all of the result in one transaction.
    A privacy deletion runs under a gate that a legal hold excludes, scrubs its rows
    by the same apply and leaves a receipt that stops their return; while the gate
    is fresh, or the account is being deleted, no apply passes.  A conversation that
    is processed again replaces its memories in one transaction: its own commit
    tombstones the old rows and reactivates those they had superseded, and each new
    memory is a commit after it.  The events of a commit wait in the outbox until a
    worker leases them, brings the search and vector indexes to the state of the row
    that it then reads, checks that the state has not changed meanwhile and settles
    the events it still owns.  Reads filter the items by the access policy and
    the short-term lifecycle, whose expired items the worker hands back to
    adjudication.  While the cutover of an account runs, its coordinator moves one
    record by compare and set, and every product request and background worker looks
    at that record first.  A frame request belongs to one generation of that record: the
    backend queues it, the device claims it and uploads pixels into a bucket whose
    objects expire, and a promotion copies them into a lasting bucket and attaches them
    to their conversation; page workers prune what expired, erase its pixels, and only
    then delete its metadata.  An object whose commit is in doubt gets a receipt that
    another worker follows.

    ** State and effects

    [PyValue.v] has the values of a JSON or Firestore document and the Python
    operations on them.  Code that raises returns [res] (below).  [Firestore.v]
    has the document store ([db], a map from paths to fields) and transactions:
    a [Txn] reads first, buffers its writes and commits them atomically
    ([run_txn]); a transaction that raises commits nothing.  Firestore
    transactions are serializable, so a history of the store is a sequence of
    transactions ([ledger_run], [job_run], [MemoryHistory.history],
    [LegalHoldProofs.hold_reach]); the file also has the facts about paths and the rules on
    what a transaction reads and writes ([reads], [appends]).  Redis commands and scripts are
    atomic one by one, so a Redis client is a program ([prog]) and a history is an
    interleaving ([Redis.step]) in which messages get lost, keys expire and the
    clock moves.  The reconcilers run in a world ([FinalizationService.world]) in
    which other actors move between any two calls and a call may fail before or
    after it commits.  The apply transaction is a pure function of a control state,
    as it is in the source.  A pydantic model of the memory ledger is the document
    of its fields and its constructor runs the source's validators; pydantic's own
    typing and defaults are the parameter [ModelEnv.read_model]; the theorems that need
    it say which fields it keeps as they are ([keeps_states], [keeps_names]).  The
    secret of the deletion receipts and pydantic's JSON dump are the parameter
    [StoreEnv].  The Unicode
    tables and the texts of floats and datetimes are the parameter [TextEnv].  The
    clock, random identifiers, the environment and the decoding of transcripts
    (code outside the modelled files) are arguments; one call of the apply
    transaction reads its clock once.  An outbox worker is a program ([OutboxWorker.prog])
    whose accesses may fail and which interleaves with the other threads
    ([OutboxWorld.step]); the injected index adapters are abstracted to maps from
    memories to the item last written there.  The calls of the cutover coordinator are
    programs of the same kind over two accesses ([CutoverCoordinator.system_step]).  The
    calls of the frame store are steps of the store ([FrameCalls.exec]): a transaction, or
    one row of a page worker with the row as its page read it and whether the storage
    erased the object.  The routes run on the store and on the buckets, a map from object
    names to bytes, and each of their calls may fail before or after its effect
    ([FrameRoutes.fault]).

    ** The theorems

    - [SyncLedger]: metering happens once, completion is final, older epochs are
      refused, live claims are respected, released work is kept.
    - [SyncJobsProofs]: in every interleaving, terminal records stay and workers
      without the lock change nothing; epochs grow; what a poll may and may not
      do to a job, including the race in which it undoes a completion.
    - [FinalizationDecision]: one generation emits one fanout key.
    - [FinalizationProofs]: the step relation [store_effect] that every
      transaction of the finalization jobs implements, and rule induction over
      runs ([job_run_invariant]).
    - [FinalizationTheorems], [FinalizationCounters]: invariants of runs: terminal
      jobs are final, superseded workers are fenced, success means delivered, a
      meeting verdict is written once, and the sharded counters count the jobs.
    - [FinalizationSpec]: what the single operations promise on every branch.
    - [SweepProofs]: windows, coverage and soundness of the bounded sweeps; a cycle of
      sweeps misses less than a page of rows, and only when its last sweep is full.
    - [FinalizationDispatch]: histories of the store with the jobs that were ever
      dispatched; no job that needs user keys is among them.
    - [ServiceProofs]: a simulation of the reconcilers and the request route by these
      histories, over failing calls and other actors; what the task queue holds.
    - [ServiceSpec]: counters, the rows a reconciler may touch, the reported route.
    - [MemoryProofs]: an apply commits or changes nothing, once, and never on a head
      its planner did not see; the projection can always catch up.
    - [MemoryItemProofs], [MemoryTheorems]: what a commit may make of its items: legal
      states, superseded predecessors, an immutable long-term meaning (graph enrichment,
      explicit demotion and trigger feedback aside), promotion only with an admission,
      projection of eligible items only; the identity of operations.
    - [LegalHoldProofs]: over histories of holds and gates, a held account has no open
      gate and its gated transactions raise.
    - [MemoryStoreProofs], [MemoryPrivacyProofs], [MemoryReplacementProofs]: what a run
      of the apply, of the deletion and of a replacement read, and the kind of every
      document they write, with what each document of a result holds
      ([result_write]).
    - [MemoryHistory], [MemoryStoreTheorems]: the steps of the store and their effects;
      a stored apply implements the ledger's on the evidence and rows of the store
      ([authoritative_inputs]), commits of an account never fork, an
      operation commits once, the account's fences stop applies, records are read
      back as written.
    - [MemoryRows], [MemoryReplacementTheorems]: the rows of the store keep the names
      of their documents, and a source replacement is one line of commits or the repeat
      of an earlier call, found by its receipt ([earlier_call], [replaced]);
      the operations of one call have distinct names ([distinct_operations]) and its
      patches add rows under trimmed names ([plain_replacement]), as the planner of a
      replacement builds them.
    - [MemoryDeletion]: a deleted row stays as the deletion left it over every history
      whose applies are [planned]: the operation was computed from the patch, and a
      patch without a target adds a row it names or one under a fresh name.  Without
      the condition the store does not promise it: its receipt check covers the
      decision [add] with a name only.
    - [MemoryAccessProofs]: the canonical filter as one condition on each item, and
      what it serves is what the ledger projects.
    - [MemoryLifecycleProofs]: transitions are recorded once, fetches are bounded, and
      a changed disposition ends a run.
    - [OutboxProofs], [OutboxInvariant], [OutboxTheorems]: each worker is verified
      against its accesses, with a stage for every lease it holds, and the stages make
      an invariant of the whole pool: an index entry that is not the projection of
      its memory has an event that is not delivered, so a drained outbox means
      indexes in step.  The conditions ([fair]): reads of documents do not fail, no event
      is claimed while a worker that lives works on it, the account stays in its
      generation, and a changed row comes with events ([progress]).  Failed and lost provider calls, lost
      claims and settlements, and crashes of workers at any point are allowed.
    - [OutboxLedger]: the applies of the ledger meet the condition on changed rows
      ([apply_makes_progress]), where the names of their events are new and their rows
      read back as written.
    - [OutboxDeletion]: the events of a privacy deletion are never delivered.
      [OutboxDemo] has a run in which a failing read breaks the invariant.
    - [CutoverProofs], [CutoverTheorems]: the coordinator's calls, each a read and a
      compare and set that other calls may separate ([system_step]), are atomic because
      a written record carries the writer's token and tokens are not used twice (the
      condition of every theorem on their histories); what these can do to the record
      ([moves]); and who is admitted at each point, where enforcement is on and the path
      is not always reachable.
    - [FrameRows], [FrameProofs], [FrameCalls], [FrameSteps]: when a document is the
      row it reads as ([reads_as], [stored]), what each transaction of the frame store
      read and wrote, that every row stays readable, and the label of each step
      ([good_step]).
    - [FrameTheorems]: the calls refine the [lifecycle] of a row; one frame
      per conversation; metadata outlives pixels; quotas; a chat turn pays for one vision
      call; a row that failed too often blocks the clean-up.  The condition [timely]: a
      page worker works on a row the store still holds as its page does, before the
      thousandth failure.
    - [FrameRouteTheorems]: an upload or a promotion, whichever of its calls failed, leaves
      no object that neither a row nor a receipt that the clean-up finds
      ([awaits_cleanup]) names; the last resorts of an upload, its discard and its
      reconciliation, are asked to take effect ([takes_effect]).
    - [FinalizationDemo], [ServiceDemo], [MemoryDemo], [LifecycleDemo],
      [MemoryStoreDemo], [ReplacementDemo], [OutboxDemo], [CutoverDemo], [FrameDemo]:
      concrete runs on
      which the theorems above are applied.

    ** Bounds and fuel

    The retry loops of the sync jobs have the source's own bound of three rounds;
    the loop of a sweep takes one unit of fuel per row and one more, and each
    round drops at least one row ([SweepProofs.loop_window]).  The walk along the
    causes of an error takes one unit per error of the heap and one more
    ([ContentionRetry.contention_is_an_aborted_cause]).  Python integers
    are [Z]; floats are rationals [Q], so rounding of clock readings is not
    modelled.  Instants are microseconds.

    ** What is not modelled

    Logging and metrics; the text that [json.dumps] produces for a Redis record
    beyond equality of texts; the reason texts of a refused patch; [str()] of a float, a list or a dictionary ([Unmodelled]); time zones of
    naive instants beyond the comparisons the code makes; two queries over jobs
    (the meeting receipt reconcile query and the age of the oldest job), which are
    declared in another module; the clean-up of expired receipts in [database/memory_apply_store.py], and the services around
    it; the decoding and rewriting of images, the rollout service and the rate limits of
    the frame routes, and conversation ids with a slash, which would be several segments
    of a path; conversions between types by pydantic ([Unmodelled]); the fetch of
    urgent candidates over all users.  The rest of the backend is listed in the
    manifest. *)

From stdpp Require Export base tactics strings gmap list.
From Stdlib Require Import ZArith Lia Ascii.

(** ** Python exceptions and fallible code

    Code that can raise returns a [res]: either its value or the exception that
    leaves the call.  [Unmodelled] is not an exception of the program: it marks
    the inputs a definition of this library does not describe (for instance
    [str()] of a float), so that no theorem says anything about them. *)
Inductive exn :=
| TypeError
| ValueError
| AttributeError
| KeyError
| IndexError
| RuntimeError
| OSError
| RedisError
| OverflowError
| ZlibError
| Aborted
| FirestoreContentionExhausted
| FinalizationDispatchUnavailable
| InvalidArgument
| DocumentTooLarge
| DeliveryConflict
| ReadAfterWriteError
| NotFound
| MalformedDocError
| LegalHoldAuthorityUnavailable
| LegalHoldActive
| DestructiveOperationInProgress
| MemoryFirestoreApplyError
| MissingMemoryDocument
| CanonicalMemoryIntakePausedError
| CanonicalMemoryTombstoneConflict
| CanonicalMemoryTombstoneLimitError
| CanonicalReviewResolutionConflict (status : string)
| ConversationSourceReplacementConflict
| ConversationSourceReplacementLimitError
| AccountCutoverTransitionError (code : string)
| AccountCutoverConcurrencyError (code : string)
| AccountCutoverGenerationMismatchError
| PermissionError
| AlreadyExists
| Unmodelled.

#[global] Instance exn_eq_dec : EqDecision exn.
Proof. solve_decision. Defined.

Inductive res (A : Type) :=
| Ok (a : A)
| Raise (e : exn).
Arguments Ok {A} a.
Arguments Raise {A} e.

#[global] Instance res_ret : MRet res := fun A a => Ok a.

#[global] Instance res_bind : MBind res := fun A B f m =>
  match m with
  | Ok a => f a
  | Raise e => Raise e
  end.

Definition is_ok {A} (r : res A) : bool :=
  match r with Ok _ => true | Raise _ => false end.

Lemma ok_bind {A B} (a : A) (f : A -> res B) : (Ok a ≫= f) = f a.
Proof. done. Qed.

Lemma res_bind_Ok {A B} (m : res A) (f : A -> res B) b :
  (m ≫= f) = Ok b <-> exists a, m = Ok a /\ f a = Ok b.
Proof.
  destruct m as [a|e]; simpl; split.
  - intros H. by exists a.
  - by intros (a' & [= ->] & H).
  - done.
  - by intros (a' & [=] & _).
Qed.

(** ** Tactics

    [inv_res] takes apart every hypothesis of the form [m ≫= f = Ok _];
    [case_all] splits on every match and conditional left in a hypothesis or
    in the goal and removes the branches that contradict each other. *)
Ltac inv_res :=
  repeat match goal with
  | H : Ok _ = Ok _ |- _ => injection H; clear H; intros; subst
  | H : Raise _ = Ok _ |- _ => discriminate H
  | H : Ok _ = Raise _ |- _ => discriminate H
  | H : _ ≫= _ = Ok _ |- _ =>
      apply res_bind_Ok in H; destruct H as (? & ? & H)
  end.

Ltac case_all := repeat (case_match; simplify_eq/=; try done).

(** ** The order of texts *)

Lemma list_ascii_app a b :
  String.list_ascii_of_string (a +:+ b) = String.list_ascii_of_string a ++ String.list_ascii_of_string b.
Proof. induction a as [|ch a IH]; simpl; [done|]. by rewrite IH. Qed.
Lemma ascii_compare_lt_trans a b c :
  Ascii.compare a b = Lt -> Ascii.compare b c = Lt -> Ascii.compare a c = Lt.
Proof. unfold Ascii.compare. rewrite !N.compare_lt_iff. lia. Qed.

Lemma ascii_compare_refl a : Ascii.compare a a = Eq.
Proof. apply N.compare_refl. Qed.

Lemma string_compare_refl a : String.compare a a = Eq.
Proof. induction a as [|x a IH]; simpl; [done|]. by rewrite ascii_compare_refl. Qed.

Lemma string_compare_lt_trans a b c :
  String.compare a b = Lt -> String.compare b c = Lt -> String.compare a c = Lt.
Proof.
  revert b c. induction a as [|x a IH]; intros [|y b] [|z c] H1 H2; simpl in *; try done.
  destruct (Ascii.compare x y) eqn:Hxy; try done; destruct (Ascii.compare y z) eqn:Hyz; try done;
    try apply Ascii.compare_eq_iff in Hxy as ->; try apply Ascii.compare_eq_iff in Hyz as ->.
  - rewrite ascii_compare_refl. by eapply IH.
  - by rewrite Hyz.
  - by rewrite Hxy.
  - by rewrite (ascii_compare_lt_trans _ _ _ Hxy Hyz).
Qed.

Lemma string_compare_gt a b : String.compare a b = Gt -> String.compare b a = Lt.
Proof. intros H. by rewrite String.compare_antisym, H. Qed.

Lemma string_leb_trans a b c : String.leb a b = true -> String.leb b c = true -> String.leb a c = true.
Proof.
  unfold String.leb. destruct (String.compare a b) eqn:Hab; try done;
    destruct (String.compare b c) eqn:Hbc; try done;
    try apply String.compare_eq_iff in Hab as ->; try apply String.compare_eq_iff in Hbc as ->.
  - by rewrite string_compare_refl.
  - by rewrite Hbc.
  - by rewrite Hab.
  - by rewrite (string_compare_lt_trans _ _ _ Hab Hbc).
Qed.
