(* ===== verification/PyValue.v ===== *)
(** * Python values

    The dynamic values that Firestore documents, JSON job records and request
    headers hold, with the built-in operations the backend applies to them:
    truth value, [or], [==], [isinstance], [int()], [str()], [dict.get] and
    [dict.update].  A float is its exact rational value (no rounding, NaN or
    infinity); a datetime is a number of microseconds since the epoch with a
    flag saying whether it carries a timezone (an aware datetime is its UTC
    instant). *)

From S2P Require Import Prelude.
From Stdlib Require Import QArith_base Ascii.
From stdpp Require Import pretty.
Local Open Scope Z_scope.

Inductive value :=
| VNone
| VBool (b : bool)
| VInt (z : Z)
| VFloat (q : Q)
| VStr (s : string)
| VTime (aware : bool) (us : Z)
| VList (l : list value)
| VDict (d : list (string * value)).

#[global] Instance Q_eq_dec : EqDecision Q.
Proof. solve_decision. Defined.

#[global] Instance value_eq_dec : EqDecision value.
Proof.
  refine (fix go (x y : value) {struct x} : Decision (x = y) :=
    match x, y with
    | VNone, VNone => left eq_refl
    | VBool a, VBool b => cast_if (decide (a = b))
    | VInt a, VInt b => cast_if (decide (a = b))
    | VFloat a, VFloat b => cast_if (decide (a = b))
    | VStr a, VStr b => cast_if (decide (a = b))
    | VTime a x, VTime b y => cast_if_and (decide (a = b)) (decide (x = y))
    | VList a, VList b => cast_if (@list_eq_dec _ go a b)
    | VDict a, VDict b =>
        cast_if (@list_eq_dec _ (@prod_eq_dec _ _ _ go) a b)
    | _, _ => right _
    end); clear go; abstract congruence.
Defined.

(** ** Dictionaries

    A dictionary keeps its insertion order: assigning to a key that is present
    replaces its value in place, a new key goes to the end. *)
Abbreviation dict := (list (string * value)).

Fixpoint dict_lookup (k : string) (d : dict) : option value :=
  match d with
  | [] => None
  | (k', v) :: d' => if decide (k = k') then Some v else dict_lookup k d'
  end.

(** [d.get(k)]: the value, or [None] when the key is absent. *)
Definition dict_get (k : string) (d : dict) : value :=
  default VNone (dict_lookup k d).

Fixpoint dict_set (k : string) (v : value) (d : dict) : dict :=
  match d with
  | [] => [(k, v)]
  | (k', v') :: d' =>
      if decide (k = k') then (k', v) :: d' else (k', v') :: dict_set k v d'
  end.

(** [d.update(u)] *)
Definition dict_update (d u : dict) : dict :=
  foldl (fun acc kv => dict_set kv.1 kv.2 acc) d u.

(** ** Truth value, equality and type tests *)
Definition truthy (v : value) : bool :=
  match v with
  | VNone => false
  | VBool b => b
  | VInt z => negb (z =? 0)
  | VFloat q => negb (Qeq_bool q 0)
  | VStr s => negb (bool_decide (s = ""))
  | VTime _ _ => true
  | VList l => match l with [] => false | _ => true end
  | VDict d => match d with [] => false | _ => true end
  end.

(** [a or b] *)
Definition py_or (a b : value) : value := if truthy a then a else b.

(** The numeric value of [bool], [int] and [float], which compare with each other. *)
Definition num_of (v : value) : option Q :=
  match v with
  | VBool b => Some (if b then 1%Q else 0%Q)
  | VInt z => Some (inject_Z z)
  | VFloat q => Some q
  | _ => None
  end.

(** [a == b]: numbers compare by value across types, dictionaries compare
    without regard to order, a naive datetime never equals an aware one. *)
Fixpoint py_eq (a b : value) {struct a} : bool :=
  match a, b with
  | VNone, VNone => true
  | VStr s, VStr t => bool_decide (s = t)
  | VTime aw x, VTime aw' y => Bool.eqb aw aw' && (x =? y)
  | VList l, VList m =>
      (fix go (l m : list value) : bool :=
         match l, m with
         | [], [] => true
         | x :: l', y :: m' => py_eq x y && go l' m'
         | _, _ => false
         end) l m
  | VDict d, VDict e =>
      bool_decide (length d = length e) &&
      (fix go (d : dict) : bool :=
         match d with
         | [] => true
         | (k, x) :: d' =>
             match dict_lookup k e with
             | Some y => py_eq x y
             | None => false
             end && go d'
         end) d
  | _, _ =>
      match num_of a, num_of b with
      | Some p, Some q => Qeq_bool p q
      | _, _ => false
      end
  end.

(** [v == s] for a string literal [s]; [v in {s1, ..., sn}] for a set of them. *)
Definition v_is (v : value) (s : string) : bool :=
  match v with VStr t => bool_decide (t = s) | _ => false end.

Definition v_in (v : value) (ss : list string) : bool := existsb (v_is v) ss.

Definition is_none (v : value) : bool := match v with VNone => true | _ => false end.
Definition is_str (v : value) : bool := match v with VStr _ => true | _ => false end.
Definition is_dict (v : value) : bool := match v with VDict _ => true | _ => false end.
Definition is_list (v : value) : bool := match v with VList _ => true | _ => false end.
Definition is_time (v : value) : bool := match v with VTime _ _ => true | _ => false end.

(** [isinstance(v, int)] (true of booleans) and [type(v) is int]. *)
Definition is_int (v : value) : bool :=
  match v with VInt _ | VBool _ => true | _ => false end.
Definition is_exact_int (v : value) : bool := match v with VInt _ => true | _ => false end.
Definition is_number (v : value) : bool :=
  match v with VInt _ | VBool _ | VFloat _ => true | _ => false end.

(** ** int() *)
Definition is_space (c : ascii) : bool :=
  let n := N_of_ascii c in
  ((9 <=? n) && (n <=? 13))%N || ((28 <=? n) && (n <=? 32))%N.

Definition digit_of (c : ascii) : option Z :=
  let n := N_of_ascii c in
  if ((48 <=? n) && (n <=? 57))%N then Some (Z.of_N n - 48) else None.

Fixpoint drop_spaces (l : list ascii) : list ascii :=
  match l with
  | c :: l' => if is_space c then drop_spaces l' else l
  | [] => []
  end.

(** [s.strip()] on the characters of a string. *)
Definition strip_list (l : list ascii) : list ascii :=
  rev (drop_spaces (rev (drop_spaces l))).

Definition strip (s : string) : string :=
  String.string_of_list_ascii (strip_list (String.list_ascii_of_string s)).

(** Decimal digits, where a single underscore may stand between two digits. *)
Fixpoint parse_digits (after_digit : bool) (acc : Z) (l : list ascii) : option Z :=
  match l with
  | [] => if after_digit then Some acc else None
  | c :: l' =>
      match digit_of c with
      | Some d => parse_digits true (10 * acc + d) l'
      | None =>
          if bool_decide (c = "_"%char) && after_digit then
            match l' with
            | c' :: _ => if digit_of c' then parse_digits false acc l' else None
            | [] => None
            end
          else None
      end
  end.

Definition parse_int (s : string) : option Z :=
  match strip_list (String.list_ascii_of_string s) with
  | c :: l' =>
      if bool_decide (c = "-"%char) then Z.opp <$> parse_digits false 0 l'
      else if bool_decide (c = "+"%char) then parse_digits false 0 l'
      else parse_digits false 0 (c :: l')
  | [] => None
  end.

Definition py_int (v : value) : res Z :=
  match v with
  | VInt z => Ok z
  | VBool b => Ok (if b then 1 else 0)
  | VFloat q => Ok (Z.quot (Qnum q) (Zpos (Qden q)))
  | VStr s => match parse_int s with Some z => Ok z | None => Raise ValueError end
  | _ => Raise TypeError
  end.

(** [str(v)], for the values whose text the backend compares or stores. *)
Definition py_str (v : value) : res string :=
  match v with
  | VStr s => Ok s
  | VNone => Ok "None"
  | VBool b => Ok (if b then "True" else "False")%string
  | VInt z => Ok (pretty z)
  | _ => Raise Unmodelled
  end.

(** ** Datetimes

    [dt_gt v t] is [v > t] for a datetime [v] and an aware instant [t]: Python
    refuses to order a naive datetime against an aware one. *)
Definition dt_gt (v : value) (t : Z) : res bool :=
  match v with
  | VTime true us => Ok (t <? us)
  | _ => Raise TypeError
  end.

(** Seconds and days as microseconds, for [timedelta]. *)
Definition seconds (n : Z) : Z := n * 1000000.
Definition days (n : Z) : Z := seconds (n * 86400).

(** [timedelta(seconds=n)], bounded to 999999999 days, and the sum of an instant
    and a duration, bounded to the years 1 to 9999. *)
Definition timedelta_seconds (n : Z) : res Z :=
  if (-999999999 <=? n / 86400) && (n / 86400 <=? 999999999)
  then Ok (seconds n) else Raise OverflowError.

Definition min_instant : Z := -62135596800000000.
Definition max_instant : Z := 253402300799999999.

Definition dt_add (t d : Z) : res Z :=
  if (min_instant <=? t + d) && (t + d <=? max_instant) then Ok (t + d) else Raise OverflowError.

(** An aware instant as a value. *)
Definition instant (t : Z) : value := VTime true t.

(** ** Lemmas *)
Lemma v_is_true v s : v_is v s = true <-> v = VStr s.
Proof.
  destruct v; simpl; try (split; [done|intros [=]]).
  rewrite bool_decide_eq_true. split; congruence.
Qed.

Lemma v_is_false v s : v_is v s = false <-> v <> VStr s.
Proof. rewrite <-not_true_iff_false, v_is_true. done. Qed.

Lemma v_is_VStr s : v_is (VStr s) s = true.
Proof. by rewrite v_is_true. Qed.

Lemma v_is_ne v s s' : v = VStr s' -> s' <> s -> v_is v s = false.
Proof. intros -> ?. simpl. by rewrite bool_decide_eq_false. Qed.

Lemma is_none_true v : is_none v = true <-> v = VNone.
Proof. by destruct v. Qed.

(** [py_bools] turns the boolean tests of a branch into equations. *)
Ltac py_bools :=
  repeat match goal with
  | H : negb _ = true |- _ => apply negb_true_iff in H
  | H : negb _ = false |- _ => apply negb_false_iff in H
  | H : _ || _ = false |- _ => apply orb_false_iff in H; destruct H
  | H : _ && _ = true |- _ => apply andb_true_iff in H; destruct H
  | H : v_is _ _ = true |- _ => apply v_is_true in H
  | H : v_is _ _ = false |- _ => apply v_is_false in H
  | H : is_none _ = true |- _ => apply is_none_true in H
  | H : (_ =? _) = true |- _ => apply Z.eqb_eq in H
  | H : (_ =? _) = false |- _ => apply Z.eqb_neq in H
  | H : (_ <? _) = true |- _ => apply Z.ltb_lt in H
  | H : (_ <? _) = false |- _ => apply Z.ltb_ge in H
  | H : (_ <=? _) = true |- _ => apply Z.leb_le in H
  | H : (_ <=? _) = false |- _ => apply Z.leb_gt in H
  end.

Lemma dict_lookup_set k k' v d :
  dict_lookup k (dict_set k' v d) = if decide (k = k') then Some v else dict_lookup k d.
Proof.
  induction d as [|[k0 v0] d IH]; simpl; [done|].
  destruct (decide (k' = k0)) as [->|Hne]; simpl.
  - by destruct (decide (k = k0)).
  - rewrite IH. destruct (decide (k = k0)) as [->|]; [|done].
    by rewrite decide_False.
Qed.

Lemma dict_get_set_eq k v d : dict_get k (dict_set k v d) = v.
Proof. unfold dict_get. by rewrite dict_lookup_set, decide_True. Qed.

Lemma dict_get_set_ne k k' v d :
  k <> k' -> dict_get k (dict_set k' v d) = dict_get k d.
Proof. intros. unfold dict_get. by rewrite dict_lookup_set, decide_False. Qed.

(** A key of [u] takes the value [u] gives it last, another keeps its own. *)
Lemma dict_lookup_update k d u :
  dict_lookup k (dict_update d u) =
  match dict_lookup k (rev u) with Some v => Some v | None => dict_lookup k d end.
Proof.
  revert d. induction u as [|[k' v] u IH] using rev_ind; intros d; simpl; [done|].
  unfold dict_update. rewrite foldl_app. simpl. rewrite dict_lookup_set.
  fold (dict_update d u). rewrite rev_app_distr. simpl.
  destruct (decide (k = k')); [done|apply IH].
Qed.

Lemma py_eq_int a b : py_eq (VInt a) (VInt b) = (a =? b).
Proof.
  simpl. destruct (Z.eqb_spec a b) as [->|Hne].
  - apply Qeq_bool_iff. reflexivity.
  - apply not_true_iff_false. rewrite Qeq_bool_iff, inject_Z_injective. done.
Qed.

Lemma Qeq_bool_refl q : Qeq_bool q q = true.
Proof. apply Qeq_bool_iff. reflexivity. Qed.

(** ** Containers *)

(** [x in v]: equality with an element of a list, a substring of a string, a
    key of a dictionary. *)
Fixpoint is_prefix (p l : list ascii) : bool :=
  match p, l with
  | [], _ => true
  | a :: p', b :: l' => bool_decide (a = b) && is_prefix p' l'
  | _, [] => false
  end.

Fixpoint is_infix (p l : list ascii) : bool :=
  is_prefix p l || match l with [] => false | _ :: l' => is_infix p l' end.

Definition py_contains (x v : value) : res bool :=
  match v with
  | VList l => Ok (existsb (py_eq x) l)
  | VStr t =>
      match x with
      | VStr s => Ok (is_infix (String.list_ascii_of_string s) (String.list_ascii_of_string t))
      | _ => Raise TypeError
      end
  | VDict d =>
      match x with
      | VStr s => Ok (if dict_lookup s d is Some _ then true else false)
      | VList _ | VDict _ => Raise TypeError
      | _ => Ok false
      end
  | _ => Raise TypeError
  end.

(** [v in {s1, ..., sn}]: membership in a set hashes [v] first. *)
Definition v_in_set (v : value) (ss : list string) : res bool :=
  match v with
  | VList _ | VDict _ => Raise TypeError
  | _ => Ok (v_in v ss)
  end.

(** [for x in v] *)
Definition py_iter (v : value) : res (list value) :=
  match v with
  | VList l => Ok l
  | VStr s => Ok ((fun c => VStr (String.String c "")) <$> String.list_ascii_of_string s)
  | VDict d => Ok ((fun kv => VStr kv.1) <$> d)
  | _ => Raise TypeError
  end.

(** An optional string or integer argument as a value. *)
Definition opt_str (o : option string) : value := from_option VStr VNone o.
Definition opt_int (o : option Z) : value := from_option VInt VNone o.

(** ** The decimal text of a counter

    [str(n)] of a natural number is a non-empty list of digits whose value is
    [n]; [int()] reads it back. *)
Definition digits_value (acc : Z) (l : list ascii) : option Z :=
  foldl (fun a c => a ← a; d ← digit_of c; Some (10 * a + d)) (Some acc) l.

Definition is_digit (c : ascii) : Prop := is_Some (digit_of c).

Lemma pretty_N_char_digit x :
  (x < 10)%N -> digit_of (pretty_N_char x) = Some (Z.of_N x).
Proof.
  intros Hx. destruct x as [|p]; [done|].
  do 9 (destruct p as [p|p|]; try done; try lia).
Qed.

Lemma foldl_digits_None l :
  foldl (fun a c => a ← a; d ← digit_of c; Some (10 * a + d)) None l = None.
Proof. by induction l. Qed.

Lemma digits_value_app acc l l' :
  digits_value acc (l ++ l') = a ← digits_value acc l; digits_value a l'.
Proof.
  unfold digits_value. rewrite foldl_app.
  destruct (foldl _ (Some acc) l); [done|]. apply foldl_digits_None.
Qed.

Lemma pretty_N_go_digits x s :
  (0 < x)%N ->
  exists ds, String.list_ascii_of_string (pretty_N_go x s) = ds ++ String.list_ascii_of_string s /\
    ds <> [] /\ Forall is_digit ds /\ digits_value 0 ds = Some (Z.of_N x).
Proof.
  revert s. induction (N.lt_wf_0 x) as [x _ IH]. intros s Hx.
  rewrite pretty_N_go_step by done.
  set (c := pretty_N_char (x `mod` 10)).
  assert (Hc : digit_of c = Some (Z.of_N (x `mod` 10))).
  { apply pretty_N_char_digit. apply N.mod_lt. lia. }
  assert (Hdm := N.div_mod x 10 ltac:(lia)).
  destruct (decide (x / 10 = 0)%N) as [H0|H0].
  - rewrite H0, pretty_N_go_0. exists [c]. repeat split; [done| |].
    + constructor; [by eexists|constructor].
    + unfold digits_value. simpl. rewrite Hc. cbn [mbind option_bind]. f_equal. lia.
  - destruct (IH (x / 10)%N) with (s := String.String c s) as (ds & Hds & Hne & Hd & Hv);
      [apply N.div_lt; lia|by apply N.neq_0_lt_0|].
    exists (ds ++ [c]). repeat split.
    + rewrite Hds. simpl. by rewrite <-app_assoc.
    + by destruct ds.
    + apply Forall_app. split; [done|]. constructor; [by eexists|constructor].
    + rewrite digits_value_app, Hv. unfold digits_value. simpl. rewrite Hc. cbn [mbind option_bind].
      f_equal. lia.
Qed.

Lemma pretty_digits n :
  0 <= n ->
  exists ds, String.list_ascii_of_string (pretty n) = ds /\
    ds <> [] /\ Forall is_digit ds /\ digits_value 0 ds = Some n.
Proof.
  intros Hn. destruct n as [|p|p]; [|destruct (pretty_N_go_digits (N.pos p) "")
    as (ds & Hds & Hne & Hd & Hv); [lia|]|lia].
  - eexists. split; [reflexivity|]. repeat split; [done|].
    repeat constructor; by eexists.
  - exists ds. repeat split; [|done|done|done].
    change (pretty (Z.pos p)) with (pretty_N_go (N.pos p) "").
    rewrite Hds. apply app_nil_r.
Qed.

Lemma parse_digits_value b acc ds n :
  ds <> [] \/ b = true -> digits_value acc ds = Some n -> parse_digits b acc ds = Some n.
Proof.
  revert b acc. induction ds as [|c ds IH]; intros b acc Hb Hv.
  - destruct Hb as [Hb | ->]; done.
  - unfold digits_value in Hv. simpl in Hv. simpl.
    destruct (digit_of c) as [d|]; simpl in Hv.
    + apply IH; [by right|done].
    + by rewrite foldl_digits_None in Hv.
Qed.

Lemma digit_not_space c : is_digit c -> is_space c = false.
Proof.
  intros [d Hd]. unfold digit_of in Hd. unfold is_space.
  destruct ((48 <=? N_of_ascii c) && (N_of_ascii c <=? 57))%N eqn:E; [|done].
  apply andb_true_iff in E as [E1%N.leb_le E2%N.leb_le].
  apply orb_false_iff. split; apply andb_false_iff; rewrite !N.leb_gt; lia.
Qed.

Lemma drop_spaces_digits ds : Forall is_digit ds -> drop_spaces ds = ds.
Proof. destruct 1 as [|c ds Hc _]; [done|]. simpl. by rewrite digit_not_space. Qed.

Lemma strip_digits ds : Forall is_digit ds -> strip_list ds = ds.
Proof.
  intros Hd. unfold strip_list. rewrite (drop_spaces_digits ds) by done.
  rewrite drop_spaces_digits; [apply rev_involutive|].
  by apply Forall_rev.
Qed.

Lemma parse_int_pretty n : 0 <= n -> parse_int (pretty n) = Some n.
Proof.
  intros Hn. destruct (pretty_digits n Hn) as (ds & Hds & Hne & Hd & Hv).
  unfold parse_int. rewrite Hds, strip_digits by done.
  destruct ds as [|c ds]; [done|].
  apply Forall_cons in Hd as [[d Hc] _].
  rewrite !bool_decide_eq_false_2; [|by intros ->..].
  apply parse_digits_value; [by left|done].
Qed.
