(* ===== verification/Firestore.v ===== *)
(** * Firestore documents and transactions

    The store is a finite map from document paths to documents, a document a
    finite map from field names to values.  A transaction reads a snapshot and
    buffers its writes; the client library refuses a read once a write is
    buffered ([ReadAfterWriteError]); the commit applies the writes in order
    and as a whole, and fails with [NotFound] when one of them updates a
    document that does not exist.  Firestore transactions are serializable, so
    concurrent transactions are a sequence of [run_txn] calls.  Then the facts about paths
    and the rules for transactions that the components share. *)

From S2P Require Import Prelude PyValue.
From Stdlib Require Import QArith_base Ascii.
Local Open Scope Z_scope.

Abbreviation path := (list string).
Abbreviation fields := (gmap string value).
Abbreviation db := (gmap (list string) (gmap string value)).

(** [d.get(k)] on a document. *)
Definition doc_get (d : fields) (k : string) : value := default VNone (d !! k).

(** ** Paths as texts

    [reference.path] joins the segments of a path; [client.document(text)] splits
    them and refuses a path of a collection. *)
Definition reference_path (p : path) : string := String.concat "/" p.

Fixpoint split_slash (l : list ascii) : string * list string :=
  match l with
  | [] => ("", [])
  | c :: l' =>
      let '(w, ws) := split_slash l' in
      if bool_decide (c = "/"%char) then ("", w :: ws) else (String.String c w, ws)
  end.

Definition document_path (text : string) : res path :=
  let '(w, ws) := split_slash (String.list_ascii_of_string text) in
  if Nat.even (length (w :: ws)) then Ok (w :: ws) else Raise ValueError.

(** ** Field operations: a value or one of the sentinels *)
Inductive field_op :=
| FValue (v : value)
| FDelete
| FArrayUnion (l : list value)
| FIncrement (z : Z).

Abbreviation updates := (list (string * field_op)).

(** A merge writes the leaves of a nested map and keeps the others. *)
Fixpoint deep_merge (old : option value) (new : value) {struct new} : value :=
  match new with
  | VDict ((_ :: _) as d) =>
      let base := match old with Some (VDict e) => e | _ => [] end in
      VDict ((fix go (d : list (string * value)) :=
         match d with
         | [] => base
         | (k, x) :: d' => dict_set k (deep_merge (dict_lookup k base) x) (go d')
         end) d)
  | _ => new
  end.

Definition array_union (old : option value) (l : list value) : value :=
  let base := match old with Some (VList m) => m | _ => [] end in
  VList (foldl (fun acc x => if existsb (py_eq x) acc then acc else acc ++ [x]) base l).

Definition increment (old : option value) (z : Z) : value :=
  match old with
  | Some (VInt y) => VInt (y + z)
  | Some (VFloat q) => VFloat (q + inject_Z z)%Q
  | _ => VInt z
  end.

Definition apply_op (merge : bool) (d : fields) (kop : string * field_op) : fields :=
  let '(k, op) := kop in
  match op with
  | FValue v => <[k := if merge then deep_merge (d !! k) v else v]> d
  | FDelete => delete k d
  | FArrayUnion l => <[k := array_union (d !! k) l]> d
  | FIncrement z => <[k := increment (d !! k) z]> d
  end.

Definition apply_ops (merge : bool) (d : fields) (u : updates) : fields :=
  foldl (apply_op merge) d u.
Arguments apply_ops : simpl never.

(** ** Writes and commit *)
Inductive write :=
| WSet (r : path) (d : fields)
| WMerge (r : path) (u : updates)
| WUpdate (r : path) (u : updates)
| WDelete (r : path).

Definition apply_write (w : write) (s : db) : option db :=
  match w with
  | WSet r d => Some (<[r := d]> s)
  | WMerge r u => Some (<[r := apply_ops true (default ∅ (s !! r)) u]> s)
  | WUpdate r u =>
      match s !! r with
      | Some d => Some (<[r := apply_ops false d u]> s)
      | None => None
      end
  | WDelete r => Some (delete r s)
  end.

Fixpoint commit (ws : list write) (s : db) : option db :=
  match ws with
  | [] => Some s
  | w :: ws' => match apply_write w s with Some s' => commit ws' s' | None => None end
  end.

(** ** Transactions *)
Record txn_state := TxnState { snapshot : db; writes : list write }.

Definition Txn (A : Type) : Type := txn_state -> res (A * txn_state).

#[global] Instance txn_ret : MRet Txn := fun A a st => Ok (a, st).

#[global] Instance txn_bind : MBind Txn := fun A B f m st =>
  match m st with
  | Ok (a, st') => f a st'
  | Raise e => Raise e
  end.

(** A computation that may raise, inside a transaction. *)
Definition lift {A} (r : res A) : Txn A := fun st =>
  match r with
  | Ok a => Ok (a, st)
  | Raise e => Raise e
  end.

(** [ref.get(transaction=transaction)] *)
Definition txn_get (r : path) : Txn (option fields) := fun st =>
  match writes st with
  | [] => Ok (snapshot st !! r, st)
  | _ :: _ => Raise ReadAfterWriteError
  end.

Definition txn_write (w : write) : Txn unit := fun st =>
  Ok (tt, TxnState (snapshot st) (writes st ++ [w])).

Definition txn_set (r : path) (d : fields) : Txn unit := txn_write (WSet r d).
Definition txn_merge (r : path) (u : updates) : Txn unit := txn_write (WMerge r u).
Definition txn_update (r : path) (u : updates) : Txn unit := txn_write (WUpdate r u).
Definition txn_delete (r : path) : Txn unit := txn_write (WDelete r).

(** Whether the subcollection [name] of the document [r] holds a document. *)
Definition is_child (r : path) (name : string) (p : path) : bool :=
  bool_decide (length p = S (S (length r))) && bool_decide (take (S (length r)) p = r ++ [name]).

Definition txn_collection_nonempty (r : path) (name : string) : Txn bool := fun st =>
  match writes st with
  | [] => Ok (existsb (fun kv => is_child r name kv.1) (map_to_list (snapshot st)), st)
  | _ :: _ => Raise ReadAfterWriteError
  end.

(** [@firestore.transactional]: run, then commit. *)
Definition run_txn {A} (t : Txn A) (s : db) : res (A * db) :=
  match t (TxnState s []) with
  | Raise e => Raise e
  | Ok (a, st) =>
      match commit (writes st) s with
      | Some s' => Ok (a, s')
      | None => Raise NotFound
      end
  end.

(** ** Lemmas *)

(** The map a merge leaves in a field, key by key. *)
Lemma deep_merge_lookup old d k :
  d <> [] ->
  exists m, deep_merge old (VDict d) = VDict m /\
    let base := match old with Some (VDict e) => e | _ => [] end in
    dict_lookup k m =
      match dict_lookup k d with
      | Some x => Some (deep_merge (dict_lookup k base) x)
      | None => dict_lookup k base
      end.
Proof.
  intros Hd.
  set (base := match old with Some (VDict e) => e | _ => [] end).
  exists ((fix go (d : list (string * value)) :=
         match d with
         | [] => base
         | (k, x) :: d' => dict_set k (deep_merge (dict_lookup k base) x) (go d')
         end) d).
  split; [by destruct d|]. cbv zeta. clear Hd.
  induction d as [|[k' x] d IH]; [done|].
  rewrite dict_lookup_set. simpl.
  destruct (decide (k = k')) as [->|]; [done|]. apply IH.
Qed.

(** A value that is no map is written as it is. *)
Lemma deep_merge_leaf old v : is_dict v = false -> deep_merge old v = v.
Proof. by destruct v. Qed.

(** A field that is absent or null merges like an absent one. *)
Lemma deep_merge_null old v : default VNone old = VNone -> deep_merge old v = deep_merge None v.
Proof. destruct old as [w|]; [|done]. simpl. intros ->. by destruct v. Qed.

Lemma apply_ops_nil m d : apply_ops m d [] = d.
Proof. done. Qed.

Lemma apply_ops_cons m d x u : apply_ops m d (x :: u) = apply_ops m (apply_op m d x) u.
Proof. done. Qed.

Lemma apply_ops_app m d u1 u2 :
  apply_ops m d (u1 ++ u2) = apply_ops m (apply_ops m d u1) u2.
Proof. apply foldl_app. Qed.

Lemma apply_op_ne m d x k : k <> x.1 -> apply_op m d x !! k = d !! k.
Proof.
  destruct x as [k' []]; simpl; intros; by rewrite ?lookup_insert_ne, ?lookup_delete_ne.
Qed.

Lemma apply_ops_notin m d (u : updates) k :
  k ∉ u.*1 -> apply_ops m d u !! k = d !! k.
Proof.
  revert d. induction u as [|x u IH]; intros d Hk; [done|].
  rewrite apply_ops_cons, IH; [apply apply_op_ne|]; set_solver.
Qed.

(** What one write of an update list leaves in its field, when it is the last
    one on that field. *)
Lemma apply_ops_last m d (u1 u2 : updates) k op :
  k ∉ u2.*1 ->
  apply_ops m d (u1 ++ (k, op) :: u2) !! k = apply_op m (apply_ops m d u1) (k, op) !! k.
Proof. intros. rewrite apply_ops_app, apply_ops_cons. by apply apply_ops_notin. Qed.

Lemma doc_get_apply_notin m d (u : updates) k :
  k ∉ u.*1 -> doc_get (apply_ops m d u) k = doc_get d k.
Proof. intros. unfold doc_get. by rewrite apply_ops_notin. Qed.

Lemma doc_get_insert d k k' v :
  doc_get (<[k := v]> d) k' = if decide (k = k') then v else doc_get d k'.
Proof. unfold doc_get. rewrite lookup_insert. by case_decide. Qed.

Lemma doc_get_delete d k k' :
  doc_get (delete k d) k' = if decide (k = k') then VNone else doc_get d k'.
Proof. unfold doc_get. rewrite lookup_delete. by case_decide. Qed.

(** One field through a list of plain updates, as a function that computes. *)
Definition field_after (k : string) (u : updates) (o : option value) : option value :=
  foldl (fun o (kop : string * field_op) =>
           if decide (kop.1 = k) then
             match kop.2 with
             | FValue v => Some v
             | FDelete => None
             | FArrayUnion l => Some (array_union o l)
             | FIncrement z => Some (increment o z)
             end
           else o) o u.

Lemma field_after_notin k (u : updates) o : k ∉ u.*1 -> field_after k u o = o.
Proof.
  intros Hk. unfold field_after. induction u as [|[k' op] u IH]; [done|]. simpl in *.
  rewrite decide_False by set_solver. apply IH. set_solver.
Qed.

Lemma apply_ops_lookup d (u : updates) k :
  apply_ops false d u !! k = field_after k u (d !! k).
Proof.
  revert d. induction u as [|[k' op] u IH]; intros d; [done|].
  rewrite apply_ops_cons, IH. unfold field_after. simpl. f_equal.
  destruct op; simpl; rewrite ?lookup_insert, ?lookup_delete; by destruct (decide (k' = k)) as [->|].
Qed.

Lemma doc_get_apply d (u : updates) k :
  doc_get (apply_ops false d u) k = default VNone (field_after k u (d !! k)).
Proof. unfold doc_get. by rewrite apply_ops_lookup. Qed.

(** [ops_get] computes a field of an updated document when the update list and
    the field name are concrete. *)
Ltac ops_get :=
  rewrite ?apply_ops_cons, ?apply_ops_nil; cbn [apply_op];
  repeat first [rewrite doc_get_insert | rewrite doc_get_delete]; cbn [deep_merge]; simpl.

(** [txn_eval] unfolds the transaction monad in the goal. *)
Ltac txn_eval :=
  unfold run_txn, lift, txn_merge, txn_update, txn_set, txn_delete, txn_write, txn_get,
    mbind, txn_bind, mret, txn_ret; simpl.

(** ** Reasoning about transactions

    [runs t Q s ws]: from the snapshot [s] with the writes [ws] buffered, every
    run of [t] that does not raise returns a value and buffered writes that
    satisfy [Q]. *)
Definition runs {A} (t : Txn A) (Q : A -> list write -> Prop) (s : db) (ws : list write) : Prop :=
  forall a st, t (TxnState s ws) = Ok (a, st) -> snapshot st = s /\ Q a (writes st).

Lemma runs_ret {A} (a : A) Q s ws : Q a ws -> runs (mret a) Q s ws.
Proof. intros HQ a' st [= <- <-]. done. Qed.

Lemma runs_bind {A B} (m : Txn A) (f : A -> Txn B) Q s ws :
  runs m (fun a ws' => runs (f a) Q s ws') s ws -> runs (m ≫= f) Q s ws.
Proof.
  intros Hm b st H. unfold mbind, txn_bind in H.
  destruct (m (TxnState s ws)) as [[a [s1 ws1]]|] eqn:E; [|done].
  destruct (Hm _ _ E) as [Hs Hf]. simpl in Hs. subst s1. by apply Hf.
Qed.

Lemma runs_lift {A} (r : res A) Q s ws : (forall a, r = Ok a -> Q a ws) -> runs (lift r) Q s ws.
Proof. intros HQ a st. unfold lift. destruct r; [|done]. intros [= <- <-]. auto. Qed.

Lemma runs_get r Q s : Q (s !! r) [] -> runs (txn_get r) Q s [].
Proof. intros HQ a st [= <- <-]. done. Qed.

Lemma runs_write w (Q : unit -> list write -> Prop) s ws :
  Q tt (ws ++ [w]) -> runs (txn_write w) Q s ws.
Proof. intros HQ a st [= <- <-]. done. Qed.

Lemma runs_nonempty r n (Q : bool -> list write -> Prop) s :
  (forall b, Q b []) -> runs (txn_collection_nonempty r n) Q s [].
Proof. intros HQ a st [= <- <-]. done. Qed.

Lemma runs_weaken {A} (t : Txn A) (Q Q' : A -> list write -> Prop) s ws :
  runs t Q s ws -> (forall a ws', Q a ws' -> Q' a ws') -> runs t Q' s ws.
Proof. intros H HQ a st E. destruct (H _ _ E). auto. Qed.

Lemma run_txn_runs {A} (t : Txn A) Q s a s' :
  runs t Q s [] -> run_txn t s = Ok (a, s') -> exists ws, Q a ws /\ commit ws s = Some s'.
Proof.
  intros Ht. unfold run_txn. destruct (t (TxnState s [])) as [[b st]|] eqn:E; [|done].
  destruct (commit (writes st) s) as [s2|] eqn:Ec; [|done]. intros [= <- <-].
  destruct (Ht _ _ E) as [_ HQ]. eauto.
Qed.

(** One symbolic step of a transaction; [case_match] splits the rest. *)
Ltac runs_step :=
  lazymatch goal with
  | |- runs (mret _) _ _ _ => apply runs_ret
  | |- runs (_ ≫= _) _ _ _ => apply runs_bind
  | |- runs (lift _) _ _ _ => apply runs_lift; intros ? ?
  | |- runs (txn_get _) _ _ _ => apply runs_get
  | |- runs (txn_update _ _) _ _ _ => apply runs_write
  | |- runs (txn_set _ _) _ _ _ => apply runs_write
  | |- runs (txn_merge _ _) _ _ _ => apply runs_write
  | |- runs (txn_delete _) _ _ _ => apply runs_write
  end.

Lemma commit_app ws1 ws2 s :
  commit (ws1 ++ ws2) s = match commit ws1 s with Some s' => commit ws2 s' | None => None end.
Proof.
  revert s. induction ws1 as [|w ws1 IH]; intros s; [done|]. simpl.
  destruct (apply_write w s); [apply IH|done].
Qed.

Definition write_path (w : write) : path :=
  match w with WSet r _ | WMerge r _ | WUpdate r _ | WDelete r => r end.

(** A commit leaves the documents alone that none of its writes names. *)
Lemma commit_other ws s s' p :
  commit ws s = Some s' -> p ∉ (write_path <$> ws) -> s' !! p = s !! p.
Proof.
  revert s. induction ws as [|w ws IH]; intros s H Hp; [by simplify_eq/=|]. simpl in H.
  rewrite fmap_cons in Hp. apply not_elem_of_cons in Hp as [Hw Hws].
  destruct (apply_write w s) as [s1|] eqn:E; [|done].
  rewrite (IH _ H Hws). destruct w; simpl in E; [| |destruct (s !! r); [|done]|]; simplify_eq;
    by rewrite ?lookup_insert_ne, ?lookup_delete_ne.
Qed.

(** Running a transaction step by step. *)
Lemma txn_bind_ok {A B} (m : Txn A) (f : A -> Txn B) st a st' :
  m st = Ok (a, st') -> (m ≫= f) st = f a st'.
Proof. unfold mbind, txn_bind. by intros ->. Qed.

Lemma txn_get_ok r s : txn_get r (TxnState s []) = Ok (s !! r, TxnState s []).
Proof. done. Qed.

Lemma lift_ok {A} (r : res A) a st : r = Ok a -> lift r st = Ok (a, st).
Proof. unfold lift. by intros ->. Qed.

Lemma mret_ok {A} (a : A) st : (mret a : Txn A) st = Ok (a, st).
Proof. done. Qed.

Lemma txn_write_ok w s ws : txn_write w (TxnState s ws) = Ok (tt, TxnState s (ws ++ [w])).
Proof. done. Qed.

(** [ev H] runs the first step of a transaction by the equation [H]. *)
Tactic Notation "ev" open_constr(H) := erewrite (txn_bind_ok _ _ _ _ _ H).

(** ** Document paths and the documents of records

    [client.document(text)] splits a text at its slashes, so texts that differ
    name different documents, and documents of different collections differ.  A
    stored record is read back by looking its keys up in the list it was written
    from. *)

(** A run that is known to return. *)
Lemma is_ok_Ok {A} (r : res A) : is_ok r = true -> exists a, r = Ok a.
Proof. destruct r as [a|]; [by exists a|done]. Qed.

(** ** Splitting *)
Definition join (w : string) (ws : list string) : list ascii :=
  String.list_ascii_of_string w ++ (ws ≫= fun v => "/"%char :: String.list_ascii_of_string v).

Lemma split_slash_join l w ws : split_slash l = (w, ws) -> join w ws = l.
Proof.
  revert w ws. induction l as [|c l IH]; intros w ws H; simpl in H; [by simplify_eq|].
  destruct (split_slash l) as [w' ws']. specialize (IH w' ws' eq_refl).
  destruct (decide (c = "/"%char)) as [->|Hc].
  - rewrite bool_decide_true in H by done. injection H as <- <-. unfold join in *. simpl. f_equal. exact IH.
  - rewrite bool_decide_false in H by done. injection H as <- <-. unfold join in *. simpl. f_equal. exact IH.
Qed.

Lemma document_path_Ok t p :
  document_path t = Ok p -> exists w ws, p = w :: ws /\ join w ws = String.list_ascii_of_string t.
Proof.
  unfold document_path. destruct (split_slash _) as [w ws] eqn:E. destruct (Nat.even _); [|done].
  intros [= <-]. exists w, ws. split; [done|]. by apply split_slash_join.
Qed.

Lemma document_path_inj t1 t2 p : document_path t1 = Ok p -> document_path t2 = Ok p -> t1 = t2.
Proof.
  intros (w & ws & -> & H1)%document_path_Ok (w2 & ws2 & [= <- <-] & H2)%document_path_Ok.
  rewrite <-(String.string_of_list_ascii_of_string t1), <-(String.string_of_list_ascii_of_string t2). congruence.
Qed.

Definition no_slash (s : string) : Prop := "/"%char ∉ String.list_ascii_of_string s.
#[global] Instance no_slash_dec s : Decision (no_slash s).
Proof. unfold no_slash. apply _. Defined.

Lemma split_slash_segment s l :
  no_slash s ->
  split_slash (String.list_ascii_of_string s ++ "/"%char :: l) = (s, (split_slash l).1 :: (split_slash l).2).
Proof.
  unfold no_slash. induction s as [|c s IH]; simpl; intros Hs.
  - by destruct (split_slash l).
  - apply not_elem_of_cons in Hs as [Hc Hs]. rewrite (IH Hs). by rewrite bool_decide_false.
Qed.

Lemma split_slash_last s : no_slash s -> split_slash (String.list_ascii_of_string s) = (s, []).
Proof.
  unfold no_slash. induction s as [|c s IH]; simpl; intros Hs; [done|].
  apply not_elem_of_cons in Hs as [Hc Hs]. rewrite (IH Hs). by rewrite bool_decide_false.
Qed.

(** A document of a collection: the path starts with the collection's name. *)
Lemma document_path_head c u p :
  no_slash c -> document_path (c +:+ "/" +:+ u) = Ok p -> exists (w : string) (ws : list string), p = c :: w :: ws.
Proof.
  intros Hc. unfold document_path. rewrite list_ascii_app. simpl.
  rewrite split_slash_segment by done. case_match; [|done]. intros [= <-]. eauto.
Qed.

(** ** Documents as lists of fields *)
Lemma list_to_map_get (l : dict) k : (list_to_map l : fields) !! k = dict_lookup k l.
Proof.
  induction l as [|[k' v] l IH]; simpl; [apply lookup_empty|].
  rewrite lookup_insert. case_decide; case_decide; congruence.
Qed.

Lemma doc_get_list (l : dict) k : doc_get (list_to_map l) k = dict_get k l.
Proof. unfold doc_get, dict_get. by rewrite list_to_map_get. Qed.

(** ** Rules for long transactions

    A transaction reads first and writes last, so it is verified in two kinds of
    pieces: [reads] says what a piece without writes returns from the snapshot,
    [appends] which writes a piece without reads adds to the buffer.  The commit
    lemmas say what a buffer leaves in one document. *)

Definition reads {A} (m : Txn A) (P : db -> A -> Prop) : Prop :=
  forall s, runs m (fun a ws => ws = [] /\ P s a) s [].

Definition appends {A} (m : Txn A) (P : A -> list write -> Prop) : Prop :=
  forall s ws, runs m (fun a ws' => exists ws2, ws' = ws ++ ws2 /\ P a ws2) s ws.

(** ** Reading *)
Lemma reads_ret {A} (a : A) (P : db -> A -> Prop) : (forall s, P s a) -> reads (mret a) P.
Proof. intros HP s. by apply runs_ret. Qed.

Lemma reads_lift {A} (r : res A) (P : db -> A -> Prop) : (forall s a, r = Ok a -> P s a) -> reads (lift r) P.
Proof. intros HP s. apply runs_lift. auto. Qed.

Lemma reads_get (r : path) (P : db -> option fields -> Prop) : (forall s : db, P s (s !! r)) -> reads (txn_get r) P.
Proof. intros HP s. by apply runs_get. Qed.

Lemma reads_bind {A B} (m : Txn A) (f : A -> Txn B) (P : db -> A -> Prop) (Q : db -> B -> Prop) :
  reads m P -> (forall a, reads (f a) (fun s b => P s a -> Q s b)) -> reads (m ≫= f) Q.
Proof.
  intros Hm Hf s. apply runs_bind. eapply runs_weaken; [apply Hm|]. intros a ws [-> HP].
  eapply runs_weaken; [apply (Hf a s)|]. intros b ws [-> HQ]. auto.
Qed.

Lemma reads_weaken {A} (m : Txn A) (P Q : db -> A -> Prop) :
  reads m P -> (forall s a, P s a -> Q s a) -> reads m Q.
Proof. intros Hm H s. eapply runs_weaken; [apply Hm|]. intros a ws [-> HP]. auto. Qed.

(** After a piece that reads, the rest starts with an empty buffer. *)
Lemma runs_reads {A B : Type} (m : Txn A) (P : db -> A -> Prop) (f : A -> Txn B) (Q : B -> list write -> Prop) (s : db) :
  reads m P -> (forall a, P s a -> runs (f a) Q s []) -> runs (m ≫= f) Q s [].
Proof. intros Hm Hf. apply runs_bind. eapply runs_weaken; [apply Hm|]. intros a ws [-> HP]. auto. Qed.

(** ** Writing *)
Lemma appends_ret {A : Type} (a : A) (P : A -> list write -> Prop) : P a [] -> appends (mret a) P.
Proof. intros HP s ws. apply runs_ret. exists []. by rewrite app_nil_r. Qed.

Lemma appends_lift {A} (r : res A) (P : A -> list write -> Prop) : (forall a, r = Ok a -> P a []) -> appends (lift r) P.
Proof. intros HP s ws. apply runs_lift. intros a Ha. exists []. rewrite app_nil_r. auto. Qed.

Lemma appends_write w (P : unit -> list write -> Prop) : P tt [w] -> appends (txn_write w) P.
Proof. intros HP s ws. apply runs_write. by exists [w]. Qed.

Lemma appends_bind {A B} (m : Txn A) (f : A -> Txn B) (P : A -> list write -> Prop) (Q : B -> list write -> Prop) :
  appends m P -> (forall a ws1, P a ws1 -> appends (f a) (fun b ws2 => Q b (ws1 ++ ws2))) -> appends (m ≫= f) Q.
Proof.
  intros Hm Hf s ws. apply runs_bind. eapply runs_weaken; [apply Hm|]. intros a ws' (ws1 & -> & HP).
  eapply runs_weaken; [apply (Hf a ws1 HP s)|]. intros b ws' (ws2 & -> & HQ).
  exists (ws1 ++ ws2). by rewrite app_assoc.
Qed.

Lemma appends_weaken {A} (m : Txn A) (P Q : A -> list write -> Prop) :
  appends m P -> (forall a ws, P a ws -> Q a ws) -> appends m Q.
Proof.
  intros Hm H s ws. eapply runs_weaken; [apply Hm|]. intros a ws' (ws2 & -> & HP). eauto.
Qed.

(** ** What a commit leaves *)
Definition leaves (w : write) (s' : db) : Prop :=
  match w with
  | WSet p d => s' !! p = Some d
  | WDelete p => s' !! p = None
  | _ => True
  end.

(** A document is as its last write left it. *)
Lemma commit_last ws s s' p :
  commit ws s = Some s' ->
  (s' !! p = s !! p /\ p ∉ write_path <$> ws) \/ exists w, w ∈ ws /\ write_path w = p /\ leaves w s'.
Proof.
  revert s'. induction ws as [|w ws IH] using rev_ind; intros s' H.
  - simpl in H. injection H as <-. left. split; [done|]. apply not_elem_of_nil.
  - rewrite commit_app in H. destruct (commit ws s) as [s1|] eqn:E; [|done]. simpl in H.
    destruct (apply_write w s1) as [s2|] eqn:Ew; [|done]. injection H as <-.
    destruct (decide (write_path w = p)) as [<-|Hne].
    + right. exists w. split_and!; [set_solver|done|].
      destruct w; simpl in *; simplify_eq; rewrite ?lookup_insert_eq, ?lookup_delete_eq; done.
    + assert (Hp : s2 !! p = s1 !! p).
      { destruct w; simpl in *; repeat case_match; simplify_eq;
          rewrite ?lookup_insert_ne, ?lookup_delete_ne by done; done. }
      destruct (IH s1 eq_refl) as [[Hs Hn]|(v & Hv & Hvp & Hl)].
      * left. rewrite Hp, fmap_app. split; [done|]. set_solver.
      * right. exists v. split_and!; [set_solver|done|].
        destruct v; simpl in *; subst; congruence.
Qed.

(** A document that all writes to it set to the same value. *)
Lemma commit_value ws s s' p d :
  commit ws s = Some s' -> WSet p d ∈ ws -> (forall w, w ∈ ws -> write_path w = p -> w = WSet p d) ->
  s' !! p = Some d.
Proof.
  intros Hc Hin Hw. destruct (commit_last _ _ _ p Hc) as [[_ Hn]|(w & Hin' & Hp & Hl)].
  - exfalso. apply Hn. by apply (list_elem_of_fmap_2 write_path) in Hin.
  - by rewrite (Hw w Hin' Hp) in Hl.
Qed.
