(* ===== verification/LegalHolds.v ===== *)
(** * Legal holds and destructive operations
    (backend/database/legal_holds.py, database/account_deletion_policy.py)

    Per account, one document says whether a legal hold is active and another is
    the gate of the destructive operation that runs.  Every path that destroys
    data reads both in its own transaction; every canonical write reads the gate.
    The clock is an argument; the token of a gate is the caller's. *)

From S2P Require Import Prelude PyValue Firestore.
From Stdlib Require Import QArith_base Ascii.
Local Open Scope Z_scope.

(** ** Account deletion *)
Definition ACCOUNT_DELETION_ACCESS_ALLOWED_STATUSES : list string := ["cancelled"; "billing_failed"].
Definition ACCOUNT_DELETION_INVALID_STATUS : string := "__invalid_account_deletion_status__".

Definition normalize_account_deletion_status (marker_exists : bool) (raw_status : value) : option string :=
  if negb marker_exists then None
  else match raw_status with
       | VStr s => if bool_decide (strip s = "") then Some ACCOUNT_DELETION_INVALID_STATUS else Some (strip s)
       | _ => Some ACCOUNT_DELETION_INVALID_STATUS
       end.

Definition account_deletion_blocks_access (status : option string) : bool :=
  match status with
  | None => false
  | Some s => bool_decide (s ∉ ACCOUNT_DELETION_ACCESS_ALLOWED_STATUSES)
  end.

(** The status of the marker that a read of [account_deletions/{uid}] returns. *)
Definition account_status (marker : option fields) : option string :=
  match marker with
  | None => normalize_account_deletion_status false VNone
  | Some payload => normalize_account_deletion_status true (doc_get payload "wipe_status")
  end.

(** ** Documents *)
Definition LEGAL_HOLDS_COLLECTION : string := "legal_holds".
Definition LEGAL_HOLD_DELETION_GATES_COLLECTION : string := "legal_hold_deletion_gates".
Definition LEGAL_HOLD_SCHEMA_VERSION : string := "legal_hold.v1".
Definition LEGAL_HOLD_DELETION_GATE_SCHEMA_VERSION : string := "legal_hold_deletion_gate.v1".
Definition _AUTHORIZED_ISSUERS : list string := ["admin"; "legal_hold_service"].
Definition _GATE_STATES : list string := ["running"; "failed"; "completed"].
Definition GATE_STALE_AFTER_SECONDS : Z := 6 * 60 * 60.
Definition _OBSOLETE_WRITER_GATE_KIND : string := "external_data_write".

(** [client.document(f"{collection}/{uid}")] *)
Definition _document (collection uid : string) : res path := document_path (collection +:+ "/" +:+ uid).
Definition hold_ref (uid : string) : res path := _document LEGAL_HOLDS_COLLECTION uid.
Definition gate_ref (uid : string) : res path := _document LEGAL_HOLD_DELETION_GATES_COLLECTION uid.
Definition account_ref (uid : string) : res path := _document "account_deletions" uid.

Definition unavailable {A} : res A := Raise LegalHoldAuthorityUnavailable.

Definition _validated_hold (snapshot : option fields) : res (option fields) :=
  match snapshot with
  | None => Ok None
  | Some payload =>
      if negb (v_is (doc_get payload "schema_version") LEGAL_HOLD_SCHEMA_VERSION) then unavailable
      else
        trusted ← v_in_set (doc_get payload "issuer") _AUTHORIZED_ISSUERS;
        if negb trusted then unavailable
        else match doc_get payload "active" with VBool _ => Ok (Some payload) | _ => unavailable end
  end.

Definition nonblank_field (d : fields) (k : string) : bool :=
  match doc_get d k with VStr s => negb (bool_decide (strip s = "")) | _ => false end.

Definition _validated_gate (snapshot : option fields) : res (option fields) :=
  match snapshot with
  | None => Ok None
  | Some payload =>
      if negb (v_is (doc_get payload "schema_version") LEGAL_HOLD_DELETION_GATE_SCHEMA_VERSION) then unavailable
      else
        known ← v_in_set (doc_get payload "state") _GATE_STATES;
        if negb known then unavailable
        else if negb (forallb (nonblank_field payload) ["uid"; "kind"; "token"]) then unavailable
        else match doc_get payload "started_at" with
             | VTime true _ => Ok (Some payload)
             | _ => unavailable
             end
  end.

(** A gate that a read validated, and whose operation may still be running. *)
Definition _gate_blocks (gate : option fields) (now : Z) : bool :=
  match gate with
  | None => false
  | Some g =>
      v_is (doc_get g "state") "running" && negb (v_is (doc_get g "kind") _OBSOLETE_WRITER_GATE_KIND)
      && match doc_get g "started_at" with
         | VTime _ started => now - started <? seconds GATE_STALE_AFTER_SECONDS
         | _ => false
         end
  end.

Definition _assert_hold_inactive (snapshot : option fields) : res unit :=
  hold ← _validated_hold snapshot;
  match hold with
  | Some h => if bool_decide (doc_get h "active" = VBool true) then Raise LegalHoldActive else Ok tt
  | None => Ok tt
  end.

(** The preflight outside any transaction; every other failure of its read is
    an unavailable authority. *)
Definition assert_account_deletion_permitted (uid : string) (s : db) : res unit :=
  if bool_decide (uid = "") then unavailable
  else match (r ← hold_ref uid; _assert_hold_inactive (s !! r)) with
       | Ok _ => Ok tt
       | Raise LegalHoldActive => Raise LegalHoldActive
       | Raise _ => unavailable
       end.

(** ** Placing a hold *)
Definition _place_legal_hold_transaction (uid issuer : string) (active : bool) (now : Z) : Txn unit :=
  hold ← lift (hold_ref uid);
  gate ← lift (gate_ref uid);
  account ← lift (account_ref uid);
  snapshot ← txn_get gate;
  g ← lift (_validated_gate snapshot);
  marker ← txn_get account;
  let wiping := match marker with Some a => v_is (doc_get a "wipe_status") "running" | None => false end in
  if active && (_gate_blocks g now || wiping) then lift (Raise DestructiveOperationInProgress)
  else
    txn_merge hold [("schema_version", FValue (VStr LEGAL_HOLD_SCHEMA_VERSION)); ("issuer", FValue (VStr issuer));
                    ("active", FValue (VBool active)); ("updated_at", FValue (instant now))].

Definition place_legal_hold (uid issuer : string) (active : bool) (now : Z) (s : db) : res (unit * db) :=
  if bool_decide (uid = "") || bool_decide (issuer ∉ _AUTHORIZED_ISSUERS) then unavailable
  else run_txn (_place_legal_hold_transaction uid issuer active now) s.

(** ** The gate *)
Definition gate_is (g : fields) (uid kind token : string) : bool :=
  v_is (doc_get g "uid") uid && v_is (doc_get g "kind") kind && v_is (doc_get g "token") token.

Definition new_gate (uid kind token : string) (now : Z) : fields :=
  list_to_map
    [("schema_version", VStr LEGAL_HOLD_DELETION_GATE_SCHEMA_VERSION); ("uid", VStr uid); ("kind", VStr kind);
     ("token", VStr token); ("state", VStr "running"); ("started_at", instant now); ("finished_at", VNone)].

Definition _acquire_destructive_operation_transaction (uid kind token : string) (now : Z) : Txn unit :=
  hold ← lift (hold_ref uid);
  gate ← lift (gate_ref uid);
  (if bool_decide (kind = _OBSOLETE_WRITER_GATE_KIND) then
     account ← lift (account_ref uid);
     marker ← txn_get account;
     if account_deletion_blocks_access (account_status marker) then lift (Raise DestructiveOperationInProgress)
     else mret tt
   else
     snapshot ← txn_get hold;
     lift (_assert_hold_inactive snapshot));;
  snapshot ← txn_get gate;
  found ← lift (_validated_gate snapshot);
  match found with
  | Some g =>
      if v_is (doc_get g "state") "running" && gate_is g uid kind token then mret tt
      else if v_is (doc_get g "state") "running" && _gate_blocks found now
      then lift (Raise DestructiveOperationInProgress)
      else txn_set gate (new_gate uid kind token now)
  | None => txn_set gate (new_gate uid kind token now)
  end.

Definition acquire_destructive_operation (uid kind token : string) (now : Z) (s : db) : res (unit * db) :=
  if bool_decide (uid = "") || bool_decide (strip kind = "") || bool_decide (strip token = "") then unavailable
  else run_txn (_acquire_destructive_operation_transaction uid kind token now) s.

Definition _finish_destructive_operation_transaction (uid kind token outcome : string) (now : Z) : Txn unit :=
  gate ← lift (gate_ref uid);
  snapshot ← txn_get gate;
  found ← lift (_validated_gate snapshot);
  match found with
  | Some g =>
      if negb (gate_is g uid kind token) then lift unavailable
      else if negb (v_is (doc_get g "state") "running")
      then if v_is (doc_get g "state") outcome then mret tt else lift unavailable
      else txn_set gate (<["state" := VStr outcome]> (<["finished_at" := instant now]> g))
  | None => lift unavailable
  end.

Definition finish_destructive_operation (uid kind token outcome : string) (now : Z) (s : db) : res (unit * db) :=
  if bool_decide (outcome ∉ ["failed"; "completed"]) then Raise ValueError
  else run_txn (_finish_destructive_operation_transaction uid kind token outcome now) s.

(** ** Fences *)
Definition assert_destructive_operation_transaction (uid kind token : string) : Txn unit :=
  hold ← lift (hold_ref uid);
  gate ← lift (gate_ref uid);
  h ← txn_get hold;
  lift (_assert_hold_inactive h);;
  snapshot ← txn_get gate;
  found ← lift (_validated_gate snapshot);
  match found with
  | Some g => if v_is (doc_get g "state") "running" && gate_is g uid kind token then mret tt else lift unavailable
  | None => lift unavailable
  end.

Definition assert_no_destructive_operation_transaction (uid : string) (now : Z) : Txn unit :=
  gate ← lift (gate_ref uid);
  snapshot ← txn_get gate;
  found ← lift (_validated_gate snapshot);
  if _gate_blocks found now then lift (Raise DestructiveOperationInProgress) else mret tt.

(** The fence of a provider write: two plain reads, [s1] then [s2]. *)
Definition external_write_fence (uid : string) (now : Z) (s1 s2 : db) : res unit :=
  if bool_decide (uid = "") then unavailable
  else
    account ← account_ref uid;
    if account_deletion_blocks_access (account_status (s1 !! account)) then Raise DestructiveOperationInProgress
    else
      gate ← gate_ref uid;
      found ← _validated_gate (s2 !! gate);
      if _gate_blocks found now then Raise DestructiveOperationInProgress else Ok tt.

(** ** The gate as a context

    [active] is the gate of the enclosing context; the body runs with the gate it
    is under, returns or raises, and leaves a store.  [now] are the clocks of the
    acquisition and of the end. *)
Definition gate_context : Type := option (string * string * string).

Definition destructive_operation_gate {A} (active : gate_context) (uid kind token : string) (now : Z * Z)
    (body : string -> gate_context -> db -> res A * db) (s : db) : res A * db :=
  match active with
  | Some (active_uid, active_kind, active_token) =>
      if bool_decide (active_uid = uid) && bool_decide (active_kind = kind) then body active_token active s
      else (Raise DestructiveOperationInProgress, s)
  | None =>
      match acquire_destructive_operation uid kind token now.1 s with
      | Raise e => (Raise e, s)
      | Ok (_, s1) =>
          let '(r, s2) := body token (Some (uid, kind, token)) s1 in
          let finish outcome := finish_destructive_operation uid kind token outcome now.2 s2 in
          match r with
          | Raise e => (Raise e, match finish "failed" with Ok (_, s3) => s3 | Raise _ => s2 end)
          | Ok a => match finish "completed" with Ok (_, s3) => (Ok a, s3) | Raise e => (Raise e, s2) end
          end
      end
  end.

Definition current_destructive_operation_token (active : gate_context) (uid kind : string) : res string :=
  match active with
  | Some (active_uid, active_kind, token) =>
      if bool_decide (active_uid = uid) && bool_decide (active_kind = kind) then Ok token else unavailable
  | None => unavailable
  end.
