(* ===== verification/LegalHoldProofs.v ===== *)
(** * Holds and destructive operations exclude each other

    Histories of one clock: holds are placed and lifted, gates are acquired,
    taken over and finished, by any callers, while the rest of the backend writes
    other documents. *)

From S2P Require Import Prelude PyValue Firestore LegalHolds.
From Stdlib Require Import QArith_base Ascii.
Local Open Scope Z_scope.

(** ** Paths *)
Lemma hold_is_no_gate uid uid' p : hold_ref uid = Ok p -> gate_ref uid' <> Ok p.
Proof.
  intros H H'. apply document_path_head in H as (w & ws & ->); [|by vm_compute; set_solver].
  apply document_path_head in H' as (? & ? & [=]). vm_compute. set_solver.
Qed.

Lemma hold_ref_inj uid uid' p : hold_ref uid = Ok p -> hold_ref uid' = Ok p -> uid = uid'.
Proof. intros H H'. pose proof (document_path_inj _ _ _ H H') as E. by simplify_eq/=. Qed.

Lemma gate_ref_inj uid uid' p : gate_ref uid = Ok p -> gate_ref uid' = Ok p -> uid = uid'.
Proof. intros H H'. pose proof (document_path_inj _ _ _ H H') as E. by simplify_eq/=. Qed.

(** ** Histories *)
Inductive hold_event :=
| Place (uid issuer : string) (active : bool)
| Acquire (uid kind token : string)
| Finish (uid kind token outcome : string).

Definition hold_step (e : hold_event) (now : Z) (s : db) : res (unit * db) :=
  match e with
  | Place uid issuer active => place_legal_hold uid issuer active now s
  | Acquire uid kind token => acquire_destructive_operation uid kind token now s
  | Finish uid kind token outcome => finish_destructive_operation uid kind token outcome now s
  end.

(** Writes of the rest of the backend, which touch no hold and no gate. *)
Definition elsewhere (s s' : db) : Prop :=
  forall uid p, hold_ref uid = Ok p \/ gate_ref uid = Ok p -> s' !! p = s !! p.

Inductive hold_reach : Z -> db -> Prop :=
| reach_start t s : (forall uid p, hold_ref uid = Ok p -> s !! p = None) -> hold_reach t s
| reach_wait t t' s : hold_reach t s -> t <= t' -> hold_reach t' s
| reach_event t e s s' : hold_reach t s -> hold_step e t s = Ok (tt, s') -> hold_reach t s'
| reach_elsewhere t s s' : hold_reach t s -> elsewhere s s' -> hold_reach t s'.

Definition held (uid : string) (s : db) : Prop :=
  exists p h, hold_ref uid = Ok p /\ s !! p = Some h /\ doc_get h "active" = VBool true.

Definition open_gate (uid : string) (t : Z) (s : db) : Prop :=
  exists p, gate_ref uid = Ok p /\ _gate_blocks (s !! p) t = true.

Definition excluded (t : Z) (s : db) : Prop := forall uid, held uid s -> ~ open_gate uid t s.

Lemma gate_closes g t t' : t <= t' -> _gate_blocks g t' = true -> _gate_blocks g t = true.
Proof.
  unfold _gate_blocks. destruct g as [g|]; [|done]. intros Ht [-> H]%andb_true_iff. simpl.
  destruct (doc_get g "started_at"); try done. py_bools. apply Z.ltb_lt. lia.
Qed.

Lemma validated_gate_Ok s g : _validated_gate s = Ok g -> g = s.
Proof. unfold _validated_gate. intros. case_all; inv_res; case_all; by simplify_eq. Qed.

Lemma validated_hold_Ok s h : _validated_hold s = Ok h -> h = s.
Proof. unfold _validated_hold. intros. case_all; inv_res; case_all; by simplify_eq. Qed.

(** A held account passes no check of its hold. *)
Lemma hold_refuses h : doc_get h "active" = VBool true -> _assert_hold_inactive (Some h) <> Ok tt.
Proof.
  intros Ha H. unfold _assert_hold_inactive in H. apply res_bind_Ok in H as (h' & Hv & H).
  apply validated_hold_Ok in Hv as ->. by rewrite bool_decide_true in H.
Qed.

(** What each event writes. *)
Lemma place_effect uid issuer active t s s' :
  place_legal_hold uid issuer active t s = Ok (tt, s') ->
  exists p h, hold_ref uid = Ok p /\ s' = <[p := h]> s /\ doc_get h "active" = VBool active /\
    (doc_get h "active" = VBool true -> ~ open_gate uid t s).
Proof.
  unfold place_legal_hold. destruct (_ || _); [done|]. intros H.
  eapply (run_txn_runs _ (fun _ ws => exists p h, hold_ref uid = Ok p /\
     commit ws s = Some (<[p := h]> s) /\ doc_get h "active" = VBool active /\ (doc_get h "active" = VBool true -> ~ open_gate uid t s))) in H
    as (ws & (p & h & Hp & Hc & Hv & Ha) & Hc'); [exists p, h; split_and!; [done|congruence|done|done]|].
  unfold _place_legal_hold_transaction. repeat runs_step.
  destruct (_ && _) eqn:Eb; [by apply runs_lift|]. apply runs_write. simpl.
  eexists _, _. split_and!; [done..| |].
  - rewrite !apply_ops_cons, apply_ops_nil. cbn [apply_op]. rewrite !doc_get_insert. done.
  - rewrite !apply_ops_cons, apply_ops_nil. cbn [apply_op].
  rewrite !doc_get_insert. simpl. intros [= ->] (p & Hp & Hg). simpl in Eb.
  assert (p = a0) as -> by congruence.
  match goal with H : _validated_gate _ = Ok _ |- _ => apply validated_gate_Ok in H as -> end.
  by rewrite Hg in Eb.
Qed.

(** A write to the gate of [uid] leaves a gate that is not open at [t]. *)
Definition gate_write (uid : string) (t : Z) (s s' : db) (harmless : fields -> Prop) : Prop :=
  s' = s \/ exists p g, gate_ref uid = Ok p /\ s' = <[p := g]> s /\ harmless g.

Lemma acquire_effect uid kind token t s s' :
  acquire_destructive_operation uid kind token t s = Ok (tt, s') ->
  gate_write uid t s s' (fun g => ~ held uid s \/ doc_get g "kind" = VStr _OBSOLETE_WRITER_GATE_KIND).
Proof.
  unfold acquire_destructive_operation. destruct (_ || _); [done|]. intros H.
  set (harmless := fun g => ~ held uid s \/ doc_get g "kind" = VStr _OBSOLETE_WRITER_GATE_KIND).
  eapply (run_txn_runs _ (fun _ ws => ws = [] \/ exists p, gate_ref uid = Ok p /\
     ws = [WSet p (new_gate uid kind token t)] /\ harmless (new_gate uid kind token t))) in H
    as (ws & [->|(p & Hp & -> & Hh)] & Hc); [left; simpl in Hc; congruence| |].
  { right. exists p, (new_gate uid kind token t). simpl in Hc. split_and!; [done|congruence|done]. }
  unfold _acquire_destructive_operation_transaction. repeat runs_step.
  assert (Hfinal : harmless (new_gate uid kind token t) -> forall found : option fields,
    runs (match found with
      | Some g =>
          if v_is (doc_get g "state") "running" && gate_is g uid kind token then mret tt
          else if v_is (doc_get g "state") "running" && _gate_blocks found t
          then lift (Raise DestructiveOperationInProgress)
          else txn_set a0 (new_gate uid kind token t)
      | None => txn_set a0 (new_gate uid kind token t)
      end)
      (fun _ ws => ws = [] \/ exists p, gate_ref uid = Ok p /\
         ws = [WSet p (new_gate uid kind token t)] /\ harmless (new_gate uid kind token t)) s []).
  { intros Hh found. repeat case_match; repeat runs_step; try done; try (by left);
      right; exists a0; split_and!; auto. }
  case_bool_decide as Hk.
  - repeat runs_step. case_match; repeat runs_step; [done|]. apply Hfinal.
    right. unfold new_gate. rewrite doc_get_list. cbn. by rewrite Hk.
  - repeat runs_step. apply Hfinal. left.
    intros (p & h & Hp & Hh & Ha). assert (p = a) as -> by congruence.
    rewrite Hh in *. destruct a1. by destruct (hold_refuses h).
Qed.

Lemma finish_effect uid kind token outcome t s s' :
  finish_destructive_operation uid kind token outcome t s = Ok (tt, s') ->
  gate_write uid t s s' (fun g => doc_get g "state" = VStr outcome /\ outcome <> "running").
Proof.
  unfold finish_destructive_operation. case_bool_decide as Ho; [done|]. intros H.
  assert (Hne : outcome <> "running") by (intros ->; set_solver).
  eapply (run_txn_runs _ (fun _ ws => ws = [] \/ exists p g, gate_ref uid = Ok p /\ ws = [WSet p g] /\
     doc_get g "state" = VStr outcome)) in H
    as (ws & [->|(p & g & Hp & -> & Hg)] & Hc); [left; simpl in Hc; congruence| |].
  { right. exists p, g. simpl in Hc. split_and!; [done|congruence|done|done]. }
  unfold _finish_destructive_operation_transaction. repeat runs_step.
  repeat case_match; repeat runs_step; try done; try (by left).
  right. eexists _, _. split_and!; [done..|]. by rewrite doc_get_insert, decide_True.
Qed.

(** ** Exclusion *)
Lemma held_insert_gate uid uid' p g s : gate_ref uid' = Ok p -> held uid (<[p := g]> s) -> held uid s.
Proof.
  intros Hp (q & h & Hq & Hh & Ha). exists q, h. split_and!; [done| |done].
  rewrite lookup_insert_ne in Hh; [done|]. intros <-. exact (hold_is_no_gate _ _ _ Hq Hp).
Qed.

Lemma open_insert_gate uid uid' p g t s :
  gate_ref uid' = Ok p -> open_gate uid t (<[p := g]> s) ->
  (uid = uid' /\ _gate_blocks (Some g) t = true) \/ open_gate uid t s.
Proof.
  intros Hp (q & Hq & Hb). destruct (decide (p = q)) as [<-|Hne].
  - left. rewrite lookup_insert_eq in Hb. split; [by eapply gate_ref_inj|done].
  - right. exists q. rewrite lookup_insert_ne in Hb by done. done.
Qed.

(** A gate write leaves the account excluded when the gate it writes is shut. *)
Lemma gate_write_excluded uid t s s' harmless :
  (forall g, held uid s -> harmless g -> _gate_blocks (Some g) t = false) ->
  gate_write uid t s s' harmless -> excluded t s -> excluded t s'.
Proof.
  intros Hh [->|(p & g & Hp & -> & Hg)] Hs; [done|]. intros u Hheld Hopen.
  apply (held_insert_gate _ _ _ _ _ Hp) in Hheld.
  destruct (open_insert_gate _ _ _ _ _ _ Hp Hopen) as [[-> Hb]|Ho]; [|by eapply Hs].
  by rewrite Hh in Hb.
Qed.

Lemma place_excluded uid issuer active t s s' :
  place_legal_hold uid issuer active t s = Ok (tt, s') -> excluded t s -> excluded t s'.
Proof.
  intros (p & h & Hp & -> & _ & Ha)%place_effect Hs u (q & h' & Hq & Hh & Hact) (q' & Hq' & Hb).
  rewrite lookup_insert_ne in Hb by (intros <-; exact (hold_is_no_gate _ _ _ Hp Hq')).
  destruct (decide (p = q)) as [<-|Hne].
  - assert (u = uid) as -> by (by eapply hold_ref_inj). rewrite lookup_insert_eq in Hh.
    injection Hh as <-. apply Ha; [done|]. by exists q'.
  - rewrite lookup_insert_ne in Hh by done. apply (Hs u); [by exists q, h'|by exists q'].
Qed.

Lemma hold_reach_excluded t s : hold_reach t s -> excluded t s.
Proof.
  induction 1 as [t s Hs|t t' s _ IH Ht|t e s s' _ IH He|t s s' _ IH He].
  - intros uid (p & h & Hp & Hh & _). by rewrite (Hs _ _ Hp) in Hh.
  - intros uid Hh (p & Hp & Hb). apply (IH uid Hh). exists p. split; [done|]. by eapply gate_closes.
  - destruct e; simpl in He; [by eapply place_excluded| |].
    + apply acquire_effect in He. eapply gate_write_excluded; [|exact He|exact IH].
      intros g Hh [Hn|Hk]; [done|]. unfold _gate_blocks. rewrite Hk, v_is_VStr. by destruct (v_is _ _).
    + apply finish_effect in He. eapply gate_write_excluded; [|exact He|exact IH].
      intros g _ [Hst Hne]. unfold _gate_blocks. rewrite Hst. simpl. by rewrite bool_decide_false.
  - intros uid (p & h & Hp & Hh & Ha) (q & Hq & Hb). rewrite (He uid) in Hh by auto.
    rewrite (He uid) in Hb by auto. apply (IH uid); [by exists p, h|by exists q].
Qed.

(** A transaction that asserts the gate of a held account raises. *)
Lemma held_refuses_destruction {A} uid kind token (k : unit -> Txn A) s :
  held uid s -> is_ok (run_txn (assert_destructive_operation_transaction uid kind token ≫= k) s) = false.
Proof.
  intros (p & h & Hp & Hh & Ha). destruct (run_txn _ s) as [[a s']|] eqn:E; [exfalso|done].
  eapply (run_txn_runs _ (fun _ _ => False)) in E as (? & [] & _).
  unfold assert_destructive_operation_transaction. repeat runs_step.
  assert (p = a0) as <- by congruence. rewrite Hh in *. destruct a2. by destruct (hold_refuses h Ha).
Qed.

(** An open gate stops every canonical write of its account. *)
Lemma open_gate_refuses_writes {A} uid t (k : unit -> Txn A) s :
  open_gate uid t s -> is_ok (run_txn (assert_no_destructive_operation_transaction uid t ≫= k) s) = false.
Proof.
  intros (p & Hp & Hb). destruct (run_txn _ s) as [[a s']|] eqn:E; [exfalso|done].
  eapply (run_txn_runs _ (fun _ _ => False)) in E as (? & [] & _).
  unfold assert_no_destructive_operation_transaction. repeat runs_step.
  assert (p = a0) as <- by congruence.
  match goal with H : _validated_gate _ = Ok _ |- _ => apply validated_gate_Ok in H as -> end.
  rewrite Hb. by apply runs_lift.
Qed.

(** C12: A legal hold and a destructive operation exclude each other.  In every history of
    hold placements, gate acquisitions, takeovers and ends, with any other writes
    in between and one clock, an account whose hold is active has no open gate,
    every transaction that asserts a gate of it raises, and no gate can be
    acquired for it except the obsolete writer kind, which never blocks. *)
Theorem active_hold_excludes_destruction uid t s kind token :
  hold_reach t s -> held uid s ->
  ~ open_gate uid t s /\
  is_ok (run_txn (assert_destructive_operation_transaction uid kind token) s) = false /\
  (kind <> _OBSOLETE_WRITER_GATE_KIND ->
   forall s', acquire_destructive_operation uid kind token t s = Ok (tt, s') -> s' = s).
Proof.
  intros Hr Hh. split_and!; [by apply (hold_reach_excluded t s Hr)| |].
  - destruct (run_txn _ s) as [[[] s']|] eqn:E; [|done].
    pose proof (held_refuses_destruction uid kind token mret s Hh) as H.
    unfold run_txn, mbind, txn_bind, mret, txn_ret in *.
    destruct (assert_destructive_operation_transaction _ _ _ _) as [[[] st]|]; [|done].
    by destruct (commit _ s).
  - intros Hk s' H. pose proof H as Ha. apply acquire_effect in H as [->|(p & g & Hp & -> & [Hn|Hg])]; [done..|].
    exfalso. unfold acquire_destructive_operation in Ha. destruct (_ || _); [done|].
    eapply (run_txn_runs _ (fun _ _ => False)) in Ha as (? & [] & _).
    unfold _acquire_destructive_operation_transaction. repeat runs_step.
    rewrite bool_decide_false by done. repeat runs_step.
    destruct Hh as (q & h & Hq & Hh & Hact). assert (q = a) as -> by congruence.
    rewrite Hh in *. destruct a1. by destruct (hold_refuses h).
Qed.

(** A hold placed on an account of an empty store. *)
Lemma active_hold_excludes_destruction_witness :
  exists s, held "u" s /\ hold_reach 0 s /\
    is_ok (run_txn (assert_destructive_operation_transaction "u" "explicit_memory_deletion" "t") s) = false.
Proof.
  destruct (is_ok_Ok (place_legal_hold "u" "admin" true 0 ∅)) as [[[] s] E]; [vm_compute; reflexivity|].
  exists s. assert (Hr : hold_reach 0 s).
  { apply (reach_event 0 (Place "u" "admin" true) ∅); [|exact E].
    apply reach_start. intros uid p _. apply lookup_empty. }
  apply place_effect in E as (p & h & Hp & -> & Ha & _).
  assert (Hh : held "u" (<[p := h]> ∅)) by (exists p, h; by rewrite lookup_insert_eq).
  split_and!; [exact Hh|exact Hr|].
  by destruct (active_hold_excludes_destruction "u" 0 _ "explicit_memory_deletion" "t" Hr Hh) as (_ & H & _).
Defined.
