(* ===== verification/SyncLedger.v ===== *)
(** * The sync content ledger (backend/database/sync_ledger.py)

    One Firestore document per uploaded piece of content decides which job may
    process it, fences a worker whose lease was taken over, and makes metering
    happen once.  [ledger_op] lists the operations of the module, [ledger_step]
    runs one of them as its transaction, and [ledger_effect] is the step
    relation the transactions implement ([ledger_step_spec]). *)

From S2P Require Import Prelude PyValue Firestore.
Local Open Scope Z_scope.

Definition LEDGER_RETENTION_DAYS : Z := 45.
Definition CLAIM_STALE_SECONDS : Z := 2 * 24 * 60 * 60.

(** The two result types of the module. *)
Inductive SyncContentRunBindingOutcome := BOUND | COMPLETED | LOST.

Record SyncContentRunBinding := RunBinding {
  binding_outcome : SyncContentRunBindingOutcome;
  binding_result : option value
}.

(** The dictionary [{'outcome': ..., 'result': ...}] a claim returns. *)
Inductive claim_result :=
| claim_completed (result : value)
| claim_owned
| claim_busy.

Definition _ledger_ref (uid content_id : string) : path :=
  ["users"; uid; "sync_content_ledger"; content_id].

Definition _ledger_owner_matches (existing : fields) (job_id : string)
    (run_token : option string) (run_epoch : option Z) : bool :=
  if negb (v_is (doc_get existing "status") "processing")
     || negb (v_is (doc_get existing "job_id") job_id) then false
  else
    let bound_token := doc_get existing "ledger_run_token" in
    let bound_epoch := doc_get existing "ledger_run_epoch" in
    match run_token with
    | None => is_none bound_token && is_none bound_epoch
    | Some t => py_eq bound_token (VStr t) && py_eq bound_epoch (opt_int run_epoch)
    end.

Definition is_valid_completed_sync_content_result (result : value) : res bool :=
  match result with
  | VDict d =>
      match dict_get "failed_segments" d, dict_get "total_segments" d, dict_get "errors" d with
      | VInt failed_segments, VInt total_segments, VList errors =>
          if (failed_segments =? 0) && (0 <=? total_segments)
             && (failed_segments <=? total_segments)
             && match errors with [] => true | _ => false end
          then
            let outcome := dict_get "outcome" d in
            if is_none outcome then Ok (0 <? total_segments)
            else v_in_set outcome ["success"; "expected_silence"]
          else Ok false
      | _, _, _ => Ok false
      end
  | _ => Ok false
  end.

(** [DELETE_FIELD] for each of [ks] that the document has. *)
Definition delete_present (existing : fields) (ks : list string) : updates :=
  (fun k => (k, FDelete)) <$> filter (fun k => is_Some (existing !! k)) ks.

Definition _processing_claim_updates (job_id lane : string) (now : Z)
    (existing : fields) (clear_invalid_completion : bool) : updates :=
  [("status", FValue (VStr "processing"));
   ("job_id", FValue (VStr job_id));
   ("lane", FValue (VStr lane));
   ("updated_at", FValue (VTime true now));
   ("expires_at", FValue (VTime true (now + days LEDGER_RETENTION_DAYS)))]
  ++ delete_present existing ["ledger_run_token"; "ledger_run_epoch"]
  ++ (if clear_invalid_completion
      then delete_present existing ["result"; "partial_result"; "processed_segment_ids"]
      else []).

(** A claim younger than the stale bound is busy; without a datetime in
    [updated_at] there is no age to compare. *)
Definition claim_is_fresh (existing : fields) (now : Z) : bool :=
  match doc_get existing "updated_at" with
  | VTime _ us => now - us <? seconds CLAIM_STALE_SECONDS
  | _ => false
  end.

Definition _claim_transaction (ref : path) (job_id lane : string) (now : Z) : Txn claim_result :=
  snap ← txn_get ref;
  let existing := default ∅ snap in
  if v_is (doc_get existing "status") "completed" then
    let result := doc_get existing "result" in
    valid ← lift (is_valid_completed_sync_content_result result);
    if (valid : bool) then mret (claim_completed result)
    else
      txn_merge ref (_processing_claim_updates job_id lane now existing true);;
      mret claim_owned
  else if v_is (doc_get existing "job_id") job_id then mret claim_owned
  else if v_is (doc_get existing "status") "retryable" then
    txn_merge ref (_processing_claim_updates job_id lane now existing false);;
    mret claim_owned
  else if claim_is_fresh existing now then mret claim_busy
  else
    txn_merge ref (_processing_claim_updates job_id lane now existing false);;
    mret claim_owned.

Definition claim_sync_content (uid content_id job_id lane : string) (now : Z) (s : db) :=
  run_txn (_claim_transaction (_ledger_ref uid content_id) job_id lane now) s.

(** The decision on the stored epoch of a processing claim: [Some o] returns
    [o] without writing, [None] goes on to write the binding. *)
Definition bind_epoch_decision (stored_epoch stored_token : value) (run_token : string) (run_epoch : Z)
    : option SyncContentRunBindingOutcome :=
  match stored_epoch with
  | VNone => None
  | VInt e =>
      if run_epoch <? e then Some LOST
      else if e =? run_epoch then
        if py_eq stored_token (VStr run_token) then Some BOUND else Some LOST
      else None
  | _ => Some LOST
  end.

Definition _bind_run_token_transaction (ref : path) (job_id run_token : string) (run_epoch now : Z)
    : Txn SyncContentRunBinding :=
  snap ← txn_get ref;
  let existing := default ∅ snap in
  if v_is (doc_get existing "status") "completed" then
    let result := doc_get existing "result" in
    valid ← lift (is_valid_completed_sync_content_result result);
    if (valid : bool) then mret (RunBinding COMPLETED (Some result))
    else if negb (v_is (doc_get existing "job_id") job_id) then mret (RunBinding LOST None)
    else
      lane ← lift (py_str (py_or (doc_get existing "lane") (VStr "legacy")));
      txn_merge ref (_processing_claim_updates job_id lane now existing true
                     ++ [("ledger_run_token", FValue (VStr run_token));
                         ("ledger_run_epoch", FValue (VInt run_epoch))]);;
      mret (RunBinding BOUND None)
  else if negb (v_is (doc_get existing "status") "processing")
          || negb (v_is (doc_get existing "job_id") job_id) then mret (RunBinding LOST None)
  else
    match bind_epoch_decision (doc_get existing "ledger_run_epoch")
            (doc_get existing "ledger_run_token") run_token run_epoch with
    | Some o => mret (RunBinding o None)
    | None =>
        txn_merge ref [("ledger_run_token", FValue (VStr run_token));
                       ("ledger_run_epoch", FValue (VInt run_epoch));
                       ("updated_at", FValue (VTime true now))];;
        mret (RunBinding BOUND None)
    end.

Definition bind_sync_content_run_token (uid content_id job_id run_token : string) (run_epoch now : Z)
    (s : db) :=
  run_txn (_bind_run_token_transaction (_ledger_ref uid content_id) job_id run_token run_epoch now) s.

(** The fields that record one metering side effect each. *)
Inductive side_effect_tag := speech_ms | usage | dg_ms.

Definition tag_name (tag : side_effect_tag) : string :=
  match tag with speech_ms => "speech_ms" | usage => "usage" | dg_ms => "dg_ms" end.

Definition _SIDE_EFFECT_FIELDS (tag : side_effect_tag) : string :=
  match tag with
  | speech_ms => "metered_at"
  | usage => "usage_recorded_at"
  | dg_ms => "dg_recorded_at"
  end.

Definition parse_tag (s : string) : option side_effect_tag :=
  if decide (s = "speech_ms") then Some speech_ms
  else if decide (s = "usage") then Some usage
  else if decide (s = "dg_ms") then Some dg_ms
  else None.

Definition _side_effect_transaction (ref : path) (job_id : string) (tag : side_effect_tag)
    (value now : Z) (run_token : option string) (run_epoch : option Z) : Txn bool :=
  snap ← txn_get ref;
  let existing := default ∅ snap in
  let timestamp_field := _SIDE_EFFECT_FIELDS tag in
  if negb (is_none (doc_get existing timestamp_field)) then mret false
  else if negb (_ledger_owner_matches existing job_id run_token run_epoch) then mret false
  else
    txn_merge ref [(timestamp_field, FValue (VTime true now));
                   (tag_name tag +:+ "_value", FValue (VInt value));
                   ("updated_at", FValue (VTime true now))];;
    mret true.

Definition try_mark_sync_content_side_effect (uid content_id job_id tag : string) (value : Z)
    (run_token : option string) (run_epoch : option Z) (now : Z) (s : db) : res (bool * db) :=
  match parse_tag tag with
  | None => Raise ValueError
  | Some t =>
      run_txn (_side_effect_transaction (_ledger_ref uid content_id) job_id t value now
                 run_token run_epoch) s
  end.

Definition try_mark_sync_content_metered (uid content_id job_id : string) (speech : Z)
    (run_token : option string) (run_epoch : option Z) (now : Z) (s : db) : res (bool * db) :=
  try_mark_sync_content_side_effect uid content_id job_id "speech_ms" speech
    run_token run_epoch now s.

(** Plain reads. *)
Definition get_processed_sync_segment_ids (uid content_id : string) (s : db) : res (list string) :=
  let existing := default ∅ (s !! _ledger_ref uid content_id) in
  match py_iter (py_or (doc_get existing "processed_segment_ids") (VList [])) with
  | Ok values => Ok (omap (fun v => match v with VStr t => Some t | _ => None end) values)
  | Raise e => Raise e
  end.

Definition get_sync_content_partial_result (uid content_id : string) (s : db) : value :=
  let existing := default ∅ (s !! _ledger_ref uid content_id) in
  let partial := doc_get existing "partial_result" in
  if is_dict partial then partial else VDict [].

Definition _checkpoint_partial_result_transaction (ref : path) (job_id : string)
    (partial_result : value) (now : Z) (run_token : option string) (run_epoch : option Z) : Txn bool :=
  snap ← txn_get ref;
  let existing := default ∅ snap in
  if negb (_ledger_owner_matches existing job_id run_token run_epoch) then mret false
  else
    txn_merge ref [("partial_result", FValue partial_result);
                   ("updated_at", FValue (VTime true now))];;
    mret true.

Definition checkpoint_sync_content_partial_result (uid content_id job_id : string)
    (partial_result : value) (run_token : option string) (run_epoch : option Z) (now : Z) (s : db) :=
  run_txn (_checkpoint_partial_result_transaction (_ledger_ref uid content_id) job_id
             partial_result now run_token run_epoch) s.

Definition _processed_segment_transaction (ref : path) (job_id segment_id : string) (now : Z)
    (run_token : option string) (run_epoch : option Z) : Txn bool :=
  snap ← txn_get ref;
  let existing := default ∅ snap in
  let processed := py_or (doc_get existing "processed_segment_ids") (VList []) in
  present ← lift (py_contains (VStr segment_id) processed);
  if (present : bool) then mret false
  else if negb (_ledger_owner_matches existing job_id run_token run_epoch) then mret false
  else
    txn_merge ref [("processed_segment_ids", FArrayUnion [VStr segment_id]);
                   ("updated_at", FValue (VTime true now))];;
    mret true.

Definition add_processed_sync_segment_id (uid content_id job_id segment_id : string)
    (run_token : option string) (run_epoch : option Z) (now : Z) (s : db) :=
  run_txn (_processed_segment_transaction (_ledger_ref uid content_id) job_id segment_id now
             run_token run_epoch) s.

Definition _mark_completed_transaction (ref : path) (job_id : string) (result : value) (now : Z)
    (run_token : option string) (run_epoch : option Z) : Txn bool :=
  valid ← lift (is_valid_completed_sync_content_result result);
  if negb valid then mret false
  else
    snap ← txn_get ref;
    let existing := default ∅ snap in
    if negb (_ledger_owner_matches existing job_id run_token run_epoch) then mret false
    else
      txn_merge ref [("status", FValue (VStr "completed"));
                     ("result", FValue result);
                     ("updated_at", FValue (VTime true now));
                     ("expires_at", FValue (VTime true (now + days LEDGER_RETENTION_DAYS)))];;
      mret true.

Definition mark_sync_content_completed (uid content_id job_id : string) (result : value)
    (run_token : option string) (run_epoch : option Z) (now : Z) (s : db) :=
  run_txn (_mark_completed_transaction (_ledger_ref uid content_id) job_id result now
             run_token run_epoch) s.

Definition retryable_updates (now : Z) : updates :=
  [("status", FValue (VStr "retryable"));
   ("job_id", FDelete);
   ("ledger_run_token", FDelete);
   ("ledger_run_epoch", FDelete);
   ("updated_at", FValue (VTime true now));
   ("expires_at", FValue (VTime true (now + days LEDGER_RETENTION_DAYS)))].

Definition _release_claim_transaction (ref : path) (job_id : string) (now : Z)
    (run_token : option string) (run_epoch : option Z) : Txn bool :=
  snap ← txn_get ref;
  let existing := default ∅ snap in
  if v_is (doc_get existing "status") "completed"
     || negb (_ledger_owner_matches existing job_id run_token run_epoch) then mret false
  else txn_merge ref (retryable_updates now);; mret true.

Definition release_sync_content_claim (uid content_id job_id : string)
    (run_token : option string) (run_epoch : option Z) (now : Z) (s : db) :=
  run_txn (_release_claim_transaction (_ledger_ref uid content_id) job_id now run_token run_epoch) s.

Definition _release_claim_after_job_retired_transaction (ref : path) (job_id : string) (now : Z)
    : Txn bool :=
  snap ← txn_get ref;
  let existing := default ∅ snap in
  if negb (v_is (doc_get existing "status") "processing")
     || negb (v_is (doc_get existing "job_id") job_id) then mret false
  else txn_merge ref (retryable_updates now);; mret true.

Definition release_sync_content_claim_after_job_retired (uid content_id job_id : string)
    (now : Z) (s : db) :=
  run_txn (_release_claim_after_job_retired_transaction (_ledger_ref uid content_id) job_id now) s.

(** ** Operations and traces *)
Inductive ledger_op :=
| OpClaim (job_id lane : string)
| OpBind (job_id run_token : string) (run_epoch : Z)
| OpSideEffect (job_id : string) (tag : side_effect_tag) (v : Z)
    (run_token : option string) (run_epoch : option Z)
| OpCheckpoint (job_id : string) (partial_result : value)
    (run_token : option string) (run_epoch : option Z)
| OpSegment (job_id segment_id : string) (run_token : option string) (run_epoch : option Z)
| OpComplete (job_id : string) (result : value)
    (run_token : option string) (run_epoch : option Z)
| OpRelease (job_id : string) (run_token : option string) (run_epoch : option Z)
| OpReleaseRetired (job_id : string).

Inductive ledger_outcome :=
| OutClaim (c : claim_result)
| OutBind (b : SyncContentRunBinding)
| OutBool (b : bool).

Definition ledger_step (ref : path) (op : ledger_op) (now : Z) : Txn ledger_outcome :=
  match op with
  | OpClaim j lane => c ← _claim_transaction ref j lane now; mret (OutClaim c)
  | OpBind j t e => b ← _bind_run_token_transaction ref j t e now; mret (OutBind b)
  | OpSideEffect j tag v t e =>
      b ← _side_effect_transaction ref j tag v now t e; mret (OutBool b)
  | OpCheckpoint j p t e =>
      b ← _checkpoint_partial_result_transaction ref j p now t e; mret (OutBool b)
  | OpSegment j seg t e => b ← _processed_segment_transaction ref j seg now t e; mret (OutBool b)
  | OpComplete j r t e => b ← _mark_completed_transaction ref j r now t e; mret (OutBool b)
  | OpRelease j t e => b ← _release_claim_transaction ref j now t e; mret (OutBool b)
  | OpReleaseRetired j =>
      b ← _release_claim_after_job_retired_transaction ref j now; mret (OutBool b)
  end.

(** A schedule of operations on one ledger entry, each with its clock reading;
    an operation that raises leaves the store as it was. *)
Fixpoint ledger_run (ref : path) (ops : list (ledger_op * Z)) (s : db)
    : list (res ledger_outcome) * db :=
  match ops with
  | [] => ([], s)
  | (op, now) :: ops' =>
      match run_txn (ledger_step ref op now) s with
      | Ok (o, s') => let '(os, s'') := ledger_run ref ops' s' in (Ok o :: os, s'')
      | Raise e => let '(os, s'') := ledger_run ref ops' s in (Raise e :: os, s'')
      end
  end.

(** ** The step relation: every branch that writes *)
Inductive ledger_effect (e : fields) (now : Z) : ledger_op -> ledger_outcome -> updates -> Prop :=
| LClaimRepair j lane :
    doc_get e "status" = VStr "completed" ->
    is_valid_completed_sync_content_result (doc_get e "result") = Ok false ->
    ledger_effect e now (OpClaim j lane) (OutClaim claim_owned)
      (_processing_claim_updates j lane now e true)
| LClaimTake j lane :
    doc_get e "status" <> VStr "completed" ->
    doc_get e "job_id" <> VStr j ->
    doc_get e "status" = VStr "retryable" \/ claim_is_fresh e now = false ->
    ledger_effect e now (OpClaim j lane) (OutClaim claim_owned)
      (_processing_claim_updates j lane now e false)
| LBindRepair j t ep lane :
    doc_get e "status" = VStr "completed" ->
    is_valid_completed_sync_content_result (doc_get e "result") = Ok false ->
    doc_get e "job_id" = VStr j ->
    ledger_effect e now (OpBind j t ep) (OutBind (RunBinding BOUND None))
      (_processing_claim_updates j lane now e true
       ++ [("ledger_run_token", FValue (VStr t)); ("ledger_run_epoch", FValue (VInt ep))])
| LBind j t ep :
    doc_get e "status" = VStr "processing" ->
    doc_get e "job_id" = VStr j ->
    bind_epoch_decision (doc_get e "ledger_run_epoch") (doc_get e "ledger_run_token") t ep = None ->
    ledger_effect e now (OpBind j t ep) (OutBind (RunBinding BOUND None))
      [("ledger_run_token", FValue (VStr t)); ("ledger_run_epoch", FValue (VInt ep));
       ("updated_at", FValue (VTime true now))]
| LSideEffect j tag v t ep :
    doc_get e (_SIDE_EFFECT_FIELDS tag) = VNone ->
    _ledger_owner_matches e j t ep = true ->
    ledger_effect e now (OpSideEffect j tag v t ep) (OutBool true)
      [(_SIDE_EFFECT_FIELDS tag, FValue (VTime true now));
       (tag_name tag +:+ "_value", FValue (VInt v)); ("updated_at", FValue (VTime true now))]
| LCheckpoint j p t ep :
    _ledger_owner_matches e j t ep = true ->
    ledger_effect e now (OpCheckpoint j p t ep) (OutBool true)
      [("partial_result", FValue p); ("updated_at", FValue (VTime true now))]
| LSegment j seg t ep :
    py_contains (VStr seg) (py_or (doc_get e "processed_segment_ids") (VList [])) = Ok false ->
    _ledger_owner_matches e j t ep = true ->
    ledger_effect e now (OpSegment j seg t ep) (OutBool true)
      [("processed_segment_ids", FArrayUnion [VStr seg]); ("updated_at", FValue (VTime true now))]
| LComplete j r t ep :
    is_valid_completed_sync_content_result r = Ok true ->
    _ledger_owner_matches e j t ep = true ->
    ledger_effect e now (OpComplete j r t ep) (OutBool true)
      [("status", FValue (VStr "completed")); ("result", FValue r);
       ("updated_at", FValue (VTime true now));
       ("expires_at", FValue (VTime true (now + days LEDGER_RETENTION_DAYS)))]
| LRelease j t ep :
    _ledger_owner_matches e j t ep = true ->
    ledger_effect e now (OpRelease j t ep) (OutBool true) (retryable_updates now)
| LReleaseRetired j :
    doc_get e "status" = VStr "processing" ->
    doc_get e "job_id" = VStr j ->
    ledger_effect e now (OpReleaseRetired j) (OutBool true) (retryable_updates now).

Arguments _processing_claim_updates : simpl never.
Arguments retryable_updates : simpl never.
Arguments _ledger_owner_matches : simpl never.
Arguments is_valid_completed_sync_content_result : simpl never.

(** A mutation that reports [true] is one that wrote. *)
Definition mutates (o : ledger_outcome) : bool :=
  match o with OutBool b => b | _ => false end.

Lemma commit_merge (ref : path) (u : updates) (s : db) :
  commit [WMerge ref u] s = Some (<[ref := apply_ops true (default ∅ (s !! ref)) u]> s).
Proof. done. Qed.

(** The transactions implement the step relation: an operation either leaves
    the store alone, and then reports no mutation, or performs one effect. *)
Lemma ledger_step_inv ref op now s o s' :
  run_txn (ledger_step ref op now) s = Ok (o, s') ->
  (s' = s /\ mutates o = false) \/
  (exists u, ledger_effect (default ∅ (s !! ref)) now op o u /\
     s' = <[ref := apply_ops true (default ∅ (s !! ref)) u]> s).
Proof.
  unfold run_txn. set (e := default ∅ (s !! ref)).
  destruct op; simpl;
  unfold _claim_transaction, _bind_run_token_transaction, _side_effect_transaction,
    _checkpoint_partial_result_transaction, _processed_segment_transaction,
    _mark_completed_transaction, _release_claim_transaction,
    _release_claim_after_job_retired_transaction, lift, txn_merge, txn_write, txn_get;
  unfold mbind, txn_bind, mret, txn_ret; simpl; fold e;
  intros H; case_all; eauto;
  py_bools; subst; right; eexists; (split; [|reflexivity]); econstructor;
  solve [eauto].
Qed.

Definition is_bind (op : ledger_op) : bool := match op with OpBind _ _ _ => true | _ => false end.

Lemma ledger_step_not_bind ref op now s o s' b :
  run_txn (ledger_step ref op now) s = Ok (o, s') -> is_bind op = false -> o <> OutBind b.
Proof.
  unfold run_txn. intros H Hb ->.
  destruct op; try done; simpl in H; unfold mbind, txn_bind, mret, txn_ret in H; case_all.
Qed.

(** ** Fields after an effect *)
Lemma delete_present_lookup m (e d : fields) ks k :
  apply_ops m d (delete_present e ks) !! k =
  if decide (k ∈ ks /\ is_Some (e !! k)) then None else d !! k.
Proof.
  unfold delete_present. revert d. induction ks as [|k' ks IH]; intros d.
  - case_decide as Hc; [|done]. destruct Hc. set_solver.
  - rewrite filter_cons. destruct (decide (is_Some (e !! k'))) as [Hs|Hs].
    + rewrite fmap_cons, apply_ops_cons, IH. cbn [apply_op].
      rewrite lookup_delete. repeat case_decide; naive_solver set_solver.
    + rewrite IH. repeat case_decide; naive_solver set_solver.
Qed.

Lemma delete_present_other m (e d : fields) ks k :
  k ∉ ks -> apply_ops m d (delete_present e ks) !! k = d !! k.
Proof. intros. rewrite delete_present_lookup. by rewrite decide_False by tauto. Qed.

Lemma delete_present_same m (e d : fields) ks k :
  d !! k = e !! k ->
  apply_ops m d (delete_present e ks) !! k = if decide (k ∈ ks) then None else e !! k.
Proof.
  intros Hd. rewrite delete_present_lookup, Hd.
  destruct (decide (k ∈ ks)) as [Hk|Hk].
  - case_decide as H; [done|]. destruct (e !! k) eqn:E; [|done].
    destruct H. split; [done|]. by eexists.
  - by rewrite decide_False by tauto.
Qed.

Definition claim_fields (j lane : string) (now : Z) : updates :=
  [("status", FValue (VStr "processing"));
   ("job_id", FValue (VStr j));
   ("lane", FValue (VStr lane));
   ("updated_at", FValue (VTime true now));
   ("expires_at", FValue (VTime true (now + days LEDGER_RETENTION_DAYS)))].

(** A claim writes its own fields, drops the fence and, when it repairs an
    invalid completion, the old checkpoints; every other field stays. *)
Lemma claim_updates_get e j lane now c k :
  doc_get (apply_ops true e (_processing_claim_updates j lane now e c)) k =
  if decide (k ∈ (claim_fields j lane now).*1)
  then doc_get (apply_ops true e (claim_fields j lane now)) k
  else if decide (k ∈ ["ledger_run_token"; "ledger_run_epoch"]) then VNone
  else if decide (c = true /\ k ∈ ["result"; "partial_result"; "processed_segment_ids"]) then VNone
  else doc_get e k.
Proof.
  unfold _processing_claim_updates. fold (claim_fields j lane now). unfold doc_get.
  rewrite !apply_ops_app.
  set (d := apply_ops true e (claim_fields j lane now)).
  set (d1 := apply_ops true d _).
  case_decide as H1.
  - f_equal. assert (Hd1 : d1 !! k = d !! k).
    { apply delete_present_other. clear -H1. simpl in H1. set_solver. }
    destruct c; [rewrite delete_present_other; [done|] | done].
    clear -H1. simpl in H1. set_solver.
  - assert (Hd : d !! k = e !! k) by (by apply apply_ops_notin).
    assert (Hd1 : d1 !! k = if decide (k ∈ ["ledger_run_token"; "ledger_run_epoch"])
                            then None else e !! k) by (by apply delete_present_same).
    case_decide as H2.
    + destruct c; [|by rewrite apply_ops_nil, Hd1].
      rewrite delete_present_other; [by rewrite Hd1|]. clear -H2. set_solver.
    + destruct c.
      * rewrite delete_present_same by done.
        case_decide as H3; [by rewrite decide_True|by rewrite decide_False by tauto].
      * rewrite apply_ops_nil, Hd1. by rewrite decide_False by (by intros []).
Qed.

Ltac claim_get :=
  rewrite claim_updates_get;
  repeat match goal with
  | |- context [decide (?P)] =>
      first [ rewrite (decide_True (P := P)) by (simpl; set_solver)
            | rewrite (decide_False (P := P)) by (simpl; set_solver) ]
  end.

Section ClaimFields.
Context (e : fields) (j lane : string) (now : Z) (c : bool).
Local Abbreviation e' := (apply_ops true e (_processing_claim_updates j lane now e c)).

Lemma claim_get_status : doc_get e' "status" = VStr "processing".
Proof. claim_get. unfold claim_fields. by ops_get. Qed.
Lemma claim_get_job : doc_get e' "job_id" = VStr j.
Proof. claim_get. unfold claim_fields. by ops_get. Qed.
Lemma claim_get_token : doc_get e' "ledger_run_token" = VNone.
Proof. by claim_get. Qed.
Lemma claim_get_epoch : doc_get e' "ledger_run_epoch" = VNone.
Proof. by claim_get. Qed.

(** A claim that takes a released or stale entry keeps the rest of it. *)
Lemma claim_get_kept k :
  c = false ->
  k ∉ ["status"; "job_id"; "lane"; "updated_at"; "expires_at"; "ledger_run_token";
       "ledger_run_epoch"] ->
  doc_get e' k = doc_get e k.
Proof.
  intros -> Hk. rewrite claim_updates_get.
  rewrite decide_False by (cbn; set_solver). rewrite decide_False by set_solver.
  by rewrite decide_False by (by intros []).
Qed.

Lemma claim_get_metering tag :
  doc_get e' (_SIDE_EFFECT_FIELDS tag) = doc_get e (_SIDE_EFFECT_FIELDS tag).
Proof. destruct tag; by claim_get. Qed.
End ClaimFields.

Lemma owner_matches_inv e j t ep :
  _ledger_owner_matches e j t ep = true ->
  doc_get e "status" = VStr "processing" /\ doc_get e "job_id" = VStr j.
Proof. unfold _ledger_owner_matches. case_match; [done|]. py_bools. done. Qed.

Lemma owner_matches_token e j t ep :
  _ledger_owner_matches e j (Some t) (Some ep) = true ->
  py_eq (doc_get e "ledger_run_token") (VStr t) = true /\
  py_eq (doc_get e "ledger_run_epoch") (VInt ep) = true.
Proof. unfold _ledger_owner_matches. case_match; [done|]. intros. by py_bools. Qed.

Create HintDb ledger.
Create Rewrite HintDb ledger.
#[export] Hint Resolve owner_matches_inv : ledger.

(** ** Well-formed entries

    A completed entry holds a valid result, and only a completed one holds a
    result at all. *)
Definition entry (s : db) (ref : path) : fields := default ∅ (s !! ref).

Lemma entry_insert (s : db) ref d : entry (<[ref := d]> s) ref = d.
Proof. unfold entry. by rewrite lookup_insert_eq. Qed.

Definition ledger_wf (e : fields) : Prop :=
  (doc_get e "status" <> VStr "completed" -> doc_get e "result" = VNone) /\
  (doc_get e "status" = VStr "completed" ->
   is_valid_completed_sync_content_result (doc_get e "result") = Ok true).

Lemma ledger_wf_empty : ledger_wf ∅.
Proof. split; [done|]. intros [=]. Qed.

(** A valid result written into an empty field is stored as a valid result. *)
Lemma valid_merge r :
  is_valid_completed_sync_content_result r = Ok true ->
  is_valid_completed_sync_content_result (deep_merge None r) = Ok true.
Proof.
  unfold is_valid_completed_sync_content_result.
  destruct r as [| | | | | | |d]; try done.
  destruct d as [|kv d]; [done|].
  pose proof (fun k => deep_merge_lookup None (kv :: d) k ltac:(done)) as Hm.
  destruct (deep_merge None (VDict (kv :: d))) as [| | | | | | |m] eqn:E;
    try (destruct (Hm "") as (? & [=] & _)).
  assert (Hg : forall k, is_dict (dict_get k (kv :: d)) = false ->
                         dict_get k m = dict_get k (kv :: d)).
  { intros k Hk. destruct (Hm k) as (m' & [= <-] & Hl). cbv zeta in Hl.
    unfold dict_get in *. rewrite Hl.
    destruct (dict_lookup k (kv :: d)); simpl in *; [|done].
    by apply deep_merge_leaf. }
  revert Hg. generalize (kv :: d). clear. intros d Hg H.
  destruct (dict_get "failed_segments" d) eqn:E1; try done.
  destruct (dict_get "total_segments" d) eqn:E2; try done.
  destruct (dict_get "errors" d) eqn:E3; try done.
  rewrite (Hg "failed_segments"), E1, (Hg "total_segments"), E2, (Hg "errors"), E3
    by (by rewrite ?E1, ?E2, ?E3).
  destruct (dict_get "outcome" d) eqn:E4;
    try (rewrite (Hg "outcome"), E4 by (by rewrite E4); done).
  revert H. simpl. by case_match.
Qed.

#[export] Hint Rewrite claim_get_status claim_get_job claim_get_token claim_get_epoch
  claim_get_metering : ledger.

(** [field_get] computes a named field of an entry after an effect. *)
Ltac field_get :=
  unfold retryable_updates; rewrite ?apply_ops_app; autorewrite with ledger;
  ops_get; autorewrite with ledger.

Lemma effect_wf e now op o u :
  ledger_wf e -> ledger_effect e now op o u -> ledger_wf (apply_ops true e u).
Proof.
  intros [Hn Hc] He. destruct He;
    repeat match goal with H : _ = true |- _ => apply owner_matches_inv in H as [? ?] end;
    try (by rewrite Hc in * by done).
  - split; field_get; [|done]. intros _. rewrite claim_get_kept; auto. set_solver.
  - split; field_get; [|by rewrite H]. auto.
  - split; destruct tag; field_get; try congruence; intros; apply Hn; congruence.
  - split; field_get; [intros; apply Hn|]; congruence.
  - split; field_get; [intros; apply Hn|]; congruence.
  - split; field_get; [done|]. intros _. simplify_map_eq.
    rewrite deep_merge_null by (apply Hn; congruence). by apply valid_merge.
  - split; field_get; [|done]. intros; apply Hn; congruence.
  - split; field_get; [|done]. intros; apply Hn; congruence.
Qed.

(** ** Invariants of schedules *)
Lemma ledger_run_inv (P : fields -> Prop) (Q : ledger_op -> Prop) ref ops s :
  (forall e now op o u, P e -> Q op -> ledger_effect e now op o u -> P (apply_ops true e u)) ->
  Forall (fun on => Q on.1) ops ->
  P (entry s ref) -> P (entry (ledger_run ref ops s).2 ref).
Proof.
  intros Hstep. revert s. induction ops as [|[op now] ops IH]; intros s HQ HP; [done|].
  apply Forall_cons in HQ as [HQ1 HQ2]. simpl.
  destruct (run_txn (ledger_step ref op now) s) as [[o s']|] eqn:E.
  - specialize (IH s' HQ2). destruct (ledger_run ref ops s') eqn:Er. apply IH.
    apply ledger_step_inv in E as [[-> _]|(u & He & ->)]; [done|].
    rewrite entry_insert. eapply Hstep; eauto.
  - specialize (IH s HQ2). destruct (ledger_run ref ops s). by apply IH.
Qed.

Lemma ledger_run_wf ref ops s :
  ledger_wf (entry s ref) -> ledger_wf (entry (ledger_run ref ops s).2 ref).
Proof.
  intros H. eapply (ledger_run_inv ledger_wf (fun _ => True)); [|by apply Forall_true|done].
  intros. by eapply effect_wf.
Qed.

(** The number of operations of a schedule that [P] selects and that reported a
    mutation. *)
Fixpoint successes (P : ledger_op -> bool) (ops : list (ledger_op * Z))
    (os : list (res ledger_outcome)) : nat :=
  match ops, os with
  | (op, _) :: ops', o :: os' =>
      (if P op then match o with Ok o => if mutates o then 1 else 0 | Raise _ => 0 end else 0)
      + successes P ops' os'
  | _, _ => 0
  end%nat.

(** An operation kind that first closes its own gate, which nothing reopens,
    succeeds at most once. *)
Lemma successes_gate (P : ledger_op -> bool) (closed : fields -> Prop) ref :
  (forall e now op o u, closed e -> ledger_wf e -> ledger_effect e now op o u ->
     closed (apply_ops true e u) /\ P op = false) ->
  (forall e now op o u, P op = true -> ledger_effect e now op o u -> closed (apply_ops true e u)) ->
  forall ops s, ledger_wf (entry s ref) ->
    (successes P ops (ledger_run ref ops s).1 <= 1)%nat /\
    (closed (entry s ref) -> successes P ops (ledger_run ref ops s).1 = 0%nat).
Proof.
  intros Hclosed Hclose. induction ops as [|[op now] ops IH]; intros s Hwf;
    [split; simpl; lia|]. simpl.
  destruct (run_txn (ledger_step ref op now) s) as [[o s']|] eqn:E.
  - apply ledger_step_inv in E as [[-> Hm]|(u & He & ->)].
    + specialize (IH s Hwf). destruct (ledger_run ref ops s). simpl in *. rewrite Hm.
      by destruct (P op).
    + set (s' := <[ref := _]> s).
      assert (Hs' : entry s' ref = apply_ops true (entry s ref) u)
        by apply entry_insert.
      assert (Hwf' : ledger_wf (entry s' ref)) by (rewrite Hs'; by eapply effect_wf).
      specialize (IH s' Hwf') as [IH1 IH2]. rewrite Hs' in IH2.
      destruct (ledger_run ref ops s'). simpl in *.
      destruct (P op) eqn:HP.
      * rewrite (IH2 ltac:(by eapply Hclose)). split; [case_match; lia|].
        intros Hcl. by destruct (Hclosed _ _ _ _ _ Hcl Hwf He) as [_ ?]; congruence.
      * split; [done|]. intros Hcl. apply IH2. by eapply Hclosed.
  - specialize (IH s Hwf). destruct (ledger_run ref ops s). simpl in *. by destruct (P op).
Qed.

Definition is_side_effect (tag : side_effect_tag) (op : ledger_op) : bool :=
  match op with
  | OpSideEffect _ tag' _ _ _ =>
      match tag, tag' with
      | speech_ms, speech_ms | usage, usage | dg_ms, dg_ms => true
      | _, _ => false
      end
  | _ => false
  end.

Lemma metering_kept e now op o u tag :
  doc_get e (_SIDE_EFFECT_FIELDS tag) <> VNone -> ledger_effect e now op o u ->
  doc_get (apply_ops true e u) (_SIDE_EFFECT_FIELDS tag) <> VNone /\ is_side_effect tag op = false.
Proof.
  intros Hm He. destruct He; field_get; try (split; [|done]).
  all: try (by destruct tag; field_get).
  by destruct tag, tag0.
Qed.

(** C1: For every ledger entry in any well-formed state, every metering tag and
    every schedule of ledger operations by any number of workers, at most one
    operation of the schedule succeeds in marking that side effect: speech time,
    usage and provider time of one piece of content are never counted twice. *)
Theorem side_effect_at_most_once ref ops s tag :
  ledger_wf (entry s ref) ->
  (successes (is_side_effect tag) ops (ledger_run ref ops s).1 <= 1)%nat.
Proof.
  intros Hwf. apply (successes_gate (is_side_effect tag)
    (fun e => doc_get e (_SIDE_EFFECT_FIELDS tag) <> VNone)); [..|done].
  - intros. by eapply metering_kept.
  - intros e now op o u HP He. destruct He; try done.
    by destruct tag, tag0; try done; field_get.
Qed.

Lemma side_effect_at_most_once_witness :
  let ops := [(OpSideEffect "j" usage 3 None None, 0); (OpSideEffect "j" usage 3 None None, 1)] in
  let s : db := {[ ["x"] := {["status" := VStr "processing"; "job_id" := VStr "j"]} ]} in
  (successes (is_side_effect usage) ops (ledger_run ["x"] ops s).1 <= 1)%nat.
Proof.
  intros ops s. apply side_effect_at_most_once. split; [done|]. intros [=].
Defined.

(** Completion is final.  Once an entry is completed with a valid result, no
    schedule of ledger operations, by whatever job, token or epoch, changes the
    store. *)
Theorem completed_entry_is_final ref ops s :
  doc_get (entry s ref) "status" = VStr "completed" ->
  is_valid_completed_sync_content_result (doc_get (entry s ref) "result") = Ok true ->
  (ledger_run ref ops s).2 = s.
Proof.
  intros Hst Hv. induction ops as [|[op now] ops IH]; [done|]. simpl.
  destruct (run_txn (ledger_step ref op now) s) as [[o s']|] eqn:E.
  - apply ledger_step_inv in E as [[-> _]|(u & He & ->)]; [by destruct (ledger_run ref ops s)|].
    exfalso. fold (entry s ref) in He.
    destruct He; try congruence; apply owner_matches_inv in H as [? ?] || apply owner_matches_inv in H0 as [? ?]; congruence.
  - by destruct (ledger_run ref ops s).
Qed.

Definition ok_result : value :=
  VDict [("failed_segments", VInt 0); ("total_segments", VInt 2); ("errors", VList [])].

Lemma completed_entry_is_final_witness :
  let s : db := {[ ["x"] := {["status" := VStr "completed"; "result" := ok_result]} ]} in
  (ledger_run ["x"] [(OpClaim "k" "fresh", 0); (OpRelease "j" None None, 9)] s).2 = s.
Proof. apply completed_entry_is_final; reflexivity. Defined.

(** ** Fencing *)

(** The operations of a worker that runs job [j] under run token [t] and epoch [ep]. *)
Definition worker_op (j t : string) (ep : Z) (op : ledger_op) : Prop :=
  match op with
  | OpBind j' t' ep' => j' = j /\ t' = t /\ ep' = ep
  | OpSideEffect j' _ _ t' ep' | OpCheckpoint j' _ t' ep' | OpSegment j' _ t' ep'
  | OpComplete j' _ t' ep' | OpRelease j' t' ep' => j' = j /\ t' = Some t /\ ep' = Some ep
  | _ => False
  end.

(** Job [j] is not being processed under an epoch below [ep]. *)
Definition fenced (j : string) (ep : Z) (e : fields) : Prop :=
  doc_get e "status" = VStr "processing" -> doc_get e "job_id" = VStr j ->
  exists ep', doc_get e "ledger_run_epoch" = VInt ep' /\ ep <= ep'.

Lemma bind_decision_epoch stored tok t ep ep' :
  bind_epoch_decision (VInt stored) tok t ep = None -> ep' <= stored -> ep' <= ep.
Proof. simpl. intros H ?. case_all. py_bools. lia. Qed.

Lemma fenced_effect j ep e now op o u :
  ledger_wf e /\ fenced j ep e -> (forall lane, op <> OpClaim j lane) ->
  ledger_effect e now op o u ->
  ledger_wf (apply_ops true e u) /\ fenced j ep (apply_ops true e u).
Proof.
  intros [Hwf Hf] Hop He. split; [by eapply effect_wf|]. destruct Hwf as [_ Hc].
  unfold fenced in *.
  destruct He;
    repeat match goal with
    | H : _ledger_owner_matches _ _ _ _ = true |- _ => apply owner_matches_inv in H as [? ?] end;
    try (rewrite Hc in * by done; discriminate).
  - field_get. intros _ [= ->]. by destruct (Hop lane).
  - field_get. intros _ Hj. destruct (Hf H Hj) as (ep' & Hep & Hle). rewrite Hep in H1.
    exists ep0. split; [done|]. by eapply bind_decision_epoch.
  - destruct tag; field_get; auto.
  - by field_get.
  - by field_get.
  - field_get. intros [=].
  - field_get. intros [=].
  - field_get. intros [=].
Qed.

Lemma fenced_owner j ep e t' ep' :
  fenced j ep e -> ep' < ep -> _ledger_owner_matches e j (Some t') (Some ep') = false.
Proof.
  intros Hf Hlt. apply not_true_iff_false. intros Ho.
  destruct (owner_matches_inv _ _ _ _ Ho) as [Hst Hj].
  destruct (owner_matches_token _ _ _ _ Ho) as [_ Hep].
  destruct (Hf Hst Hj) as (ep0 & E & ?). rewrite E, py_eq_int in Hep. py_bools. lia.
Qed.

Lemma fenced_bind ref j ep t' ep' now s o s' :
  ledger_wf (entry s ref) -> fenced j ep (entry s ref) -> ep' < ep ->
  run_txn (_bind_run_token_transaction ref j t' ep' now) s = Ok (o, s') ->
  s' = s /\ o <> RunBinding BOUND None.
Proof.
  intros [_ Hc] Hf Hlt. unfold run_txn, _bind_run_token_transaction, lift, txn_merge, txn_write, txn_get.
  unfold mbind, txn_bind, mret, txn_ret. simpl. fold (entry s ref).
  destruct (v_is (doc_get (entry s ref) "status") "completed") eqn:E; py_bools.
  { rewrite Hc by done. intros; by simplify_eq/=. }
  destruct (negb _ || negb _) eqn:E2; [intros; by simplify_eq/=|]. py_bools.
  destruct (Hf ltac:(done) ltac:(done)) as (ep0 & Hep & ?). rewrite Hep. simpl.
  replace (ep' <? ep0) with true by (symmetry; apply Z.ltb_lt; lia).
  intros; by simplify_eq/=.
Qed.

(** Fencing.  After a worker of job [j] is bound at epoch [ep], and until
    [j] is admitted again, no schedule of operations lets a worker of [j] with
    a smaller epoch change the entry or bind it: each of its operations
    reports failure and leaves the store as it is. *)
Theorem stale_worker_is_fenced ref ops s j t ep t' ep' op now o s' :
  ledger_wf (entry s ref) ->
  doc_get (entry s ref) "job_id" = VStr j ->
  doc_get (entry s ref) "status" = VStr "processing" ->
  doc_get (entry s ref) "ledger_run_token" = VStr t ->
  doc_get (entry s ref) "ledger_run_epoch" = VInt ep ->
  Forall (fun on => forall lane, on.1 <> OpClaim j lane) ops ->
  ep' < ep -> worker_op j t' ep' op ->
  run_txn (ledger_step ref op now) (ledger_run ref ops s).2 = Ok (o, s') ->
  s' = (ledger_run ref ops s).2 /\ mutates o = false /\ o <> OutBind (RunBinding BOUND None).
Proof.
  intros Hwf Hj Hst _ Hep Hops Hlt Hw Hrun.
  assert (ledger_wf (entry (ledger_run ref ops s).2 ref) /\
          fenced j ep (entry (ledger_run ref ops s).2 ref)) as [Hwf1 Hf].
  { eapply (ledger_run_inv (fun e => ledger_wf e /\ fenced j ep e)
      (fun op => forall lane, op <> OpClaim j lane)); [|done|].
    - intros. by eapply fenced_effect.
    - split; [done|]. intros _ _. exists ep. split; [done|lia]. }
  clear -Hwf1 Hf Hlt Hw Hrun. set (s1 := (ledger_run ref ops s).2) in *. clearbody s1.
  destruct op; simpl in Hw; try done; destruct_and?; simplify_eq.
  { unfold run_txn in Hrun. simpl in Hrun. unfold mbind, txn_bind, mret, txn_ret in Hrun.
    destruct (_bind_run_token_transaction ref j t' ep' now _) as [[b st]|] eqn:E; [|done].
    destruct (commit (writes st) s1) as [s2|] eqn:E2; simplify_eq.
    destruct (fenced_bind ref j ep t' ep' now s1 b s') as [-> ?]; auto.
    - unfold run_txn. by rewrite E, E2.
    - repeat split; [done..|]. congruence. }
  all: assert (o <> OutBind (RunBinding BOUND None)) by (by eapply ledger_step_not_bind);
    apply ledger_step_inv in Hrun as [[-> ?]|(u & He & _)]; [done|].
  all: fold (entry s1 ref) in He; inversion He; subst;
    by rewrite (fenced_owner j ep) in *.
Qed.

Lemma stale_worker_is_fenced_witness :
  let s : db := {[ ["x"] := {["status" := VStr "processing"; "job_id" := VStr "j";
                     "ledger_run_token" := VStr "2:b"; "ledger_run_epoch" := VInt 2]} ]} in
  let s1 := (ledger_run ["x"] [(OpClaim "k" "fresh", 4)] s).2 in
  s1 = s1 /\ mutates (OutBool false) = false /\ OutBool false <> OutBind (RunBinding BOUND None).
Proof.
  intros s s1.
  apply (stale_worker_is_fenced ["x"] [(OpClaim "k" "fresh", 4)] s "j" "2:b" 2 "1:a" 1
    (OpComplete "j" ok_result (Some "1:a") (Some 1)) 5);
  [split; [done|intros [=]] | reflexivity | reflexivity | reflexivity | reflexivity
  | constructor; [intros lane [=]|constructor] | reflexivity | repeat split | reflexivity].
Defined.

(** ** Hand-over of an entry *)

(** Exclusion.  A claim of an entry that another job is processing is
    granted only when the entry's last write is at least two days old (or it
    has no timestamp at all); until then the claimant is told that the content
    is busy and nothing is written. *)
Theorem claim_respects_owner ref s j k lane now us :
  doc_get (entry s ref) "status" = VStr "processing" ->
  doc_get (entry s ref) "job_id" = VStr k -> j <> k ->
  doc_get (entry s ref) "updated_at" = VTime true us ->
  exists s', run_txn (_claim_transaction ref j lane now) s =
    Ok (if now - us <? seconds CLAIM_STALE_SECONDS then claim_busy else claim_owned, s') /\
  (now - us < seconds CLAIM_STALE_SECONDS -> s' = s) /\
  (seconds CLAIM_STALE_SECONDS <= now - us ->
   doc_get (entry s' ref) "job_id" = VStr j /\ doc_get (entry s' ref) "ledger_run_token" = VNone).
Proof.
  intros Hst Hj Hne Hus. unfold _claim_transaction. txn_eval. fold (entry s ref).
  unfold claim_is_fresh. rewrite Hst, Hj, Hus. simpl. rewrite bool_decide_false by congruence.
  destruct (Z.ltb_spec (now - us) (seconds CLAIM_STALE_SECONDS)) as [?|?]; simpl; eexists;
    (split; [reflexivity|]); (split; [try done; lia|]); [lia|].
  intros _. rewrite !entry_insert. fold (entry s ref).
  by rewrite claim_get_job, claim_get_token.
Qed.

Lemma claim_respects_owner_witness :
  let s : db := {[ ["x"] := {["status" := VStr "processing"; "job_id" := VStr "k";
                                "updated_at" := VTime true 0]} ]} in
  exists s', run_txn (_claim_transaction ["x"] "j" "fresh" 7) s =
    Ok (if 7 - 0 <? seconds CLAIM_STALE_SECONDS then claim_busy else claim_owned, s') /\
  (7 - 0 < seconds CLAIM_STALE_SECONDS -> s' = s) /\
  (seconds CLAIM_STALE_SECONDS <= 7 - 0 ->
   doc_get (entry s' ["x"]) "job_id" = VStr "j" /\
   doc_get (entry s' ["x"]) "ledger_run_token" = VNone).
Proof.
  intros s. apply (claim_respects_owner ["x"] s "j" "k" "fresh" 7 0);
    [reflexivity|reflexivity|done|reflexivity].
Defined.

(** Retry keeps the work done.  When the current owner releases its claim,
    any other job can claim the entry at once, and finds the partial result,
    the processed segments and the metering marks the first owner left. *)
Theorem release_then_claim ref s j t ep now j' lane now' :
  _ledger_owner_matches (entry s ref) j t ep = true ->
  exists s1 s2,
    run_txn (_release_claim_transaction ref j now t ep) s = Ok (true, s1) /\
    run_txn (_claim_transaction ref j' lane now') s1 = Ok (claim_owned, s2) /\
    doc_get (entry s2 ref) "job_id" = VStr j' /\
    (forall k, k ∈ ["partial_result"; "processed_segment_ids"; "metered_at";
                    "usage_recorded_at"; "dg_recorded_at"] ->
       doc_get (entry s2 ref) k = doc_get (entry s ref) k).
Proof.
  intros Ho. destruct (owner_matches_inv _ _ _ _ Ho) as [Hst Hj].
  unfold _release_claim_transaction, _claim_transaction. txn_eval. fold (entry s ref).
  rewrite Ho, Hst. simpl. fold (entry s ref). eexists _, _. split; [reflexivity|].
  set (e1 := apply_ops true (entry s ref) (retryable_updates now)).
  assert (Hs1 : doc_get e1 "status" = VStr "retryable") by (unfold e1; by field_get).
  assert (Hj1 : doc_get e1 "job_id" = VNone) by (unfold e1; by field_get).
  simpl. rewrite lookup_insert_eq. simpl. fold e1.
  rewrite Hs1, Hj1. simpl. split; [reflexivity|].
  rewrite !entry_insert, lookup_insert_eq. simpl. fold e1.
  split; [apply claim_get_job|]. intros k Hk.
  rewrite claim_get_kept; [|done|set_solver].
  unfold e1. apply doc_get_apply_notin. simpl. set_solver.
Qed.

Lemma release_then_claim_witness :
  let s : db := {[ ["x"] := {["status" := VStr "processing"; "job_id" := VStr "j";
                                "metered_at" := VTime true 3]} ]} in
  exists s1 s2,
    run_txn (_release_claim_transaction ["x"] "j" 5 None None) s = Ok (true, s1) /\
    run_txn (_claim_transaction ["x"] "k" "fresh" 6) s1 = Ok (claim_owned, s2) /\
    doc_get (entry s2 ["x"]) "job_id" = VStr "k" /\
    (forall k, k ∈ ["partial_result"; "processed_segment_ids"; "metered_at";
                    "usage_recorded_at"; "dg_recorded_at"] ->
       doc_get (entry s2 ["x"]) k = doc_get (entry s ["x"]) k).
Proof. intros s. apply (release_then_claim ["x"] s "j" None None 5 "k" "fresh" 6). reflexivity. Defined.

(** A completed result is returned, not recomputed.  When the owner of a
    well-formed entry publishes a valid result, the publication succeeds, and
    every later claim, by any job, is answered with the stored result, which
    is valid and agrees with the published one on every key that holds no
    nested map. *)
Theorem complete_then_claim ref s j t ep result now :
  ledger_wf (entry s ref) ->
  _ledger_owner_matches (entry s ref) j t ep = true ->
  is_valid_completed_sync_content_result result = Ok true ->
  exists s1 stored,
    run_txn (_mark_completed_transaction ref j result now t ep) s = Ok (true, s1) /\
    is_valid_completed_sync_content_result stored = Ok true /\
    (forall j' lane now', run_txn (_claim_transaction ref j' lane now') s1 =
       Ok (claim_completed stored, s1)) /\
    (exists d m, result = VDict d /\ stored = VDict m /\
       forall k, is_dict (dict_get k d) = false -> dict_get k m = dict_get k d).
Proof.
  intros [Hn _] Ho Hv. destruct (owner_matches_inv _ _ _ _ Ho) as [Hst Hj].
  unfold _mark_completed_transaction, _claim_transaction. txn_eval. rewrite Hv. simpl.
  fold (entry s ref). rewrite Ho. simpl. fold (entry s ref).
  eexists _, (deep_merge None result). split; [reflexivity|].
  pose proof (valid_merge _ Hv) as Hv'. split; [done|]. split.
  - intros j' lane now'. rewrite lookup_insert_eq. simpl.
    field_get. simplify_map_eq.
    rewrite deep_merge_null by (apply Hn; congruence). by rewrite Hv'.
  - destruct result as [| | | | | | |d]; try done. destruct d as [|kv d]; [done|].
    destruct (deep_merge_lookup None (kv :: d) "" ltac:(done)) as (m & Hm & _).
    exists (kv :: d), m. split; [done|]. split; [done|]. intros k Hk.
    destruct (deep_merge_lookup None (kv :: d) k ltac:(done)) as (m' & Hm' & Hl).
    assert (m' = m) as -> by congruence. cbv zeta in Hl. unfold dict_get in *. rewrite Hl.
    destruct (dict_lookup k (kv :: d)); [|done]. by apply deep_merge_leaf.
Qed.

Lemma complete_then_claim_witness :
  let s : db := {[ ["x"] := {["status" := VStr "processing"; "job_id" := VStr "j"]} ]} in
  exists s1 stored,
    run_txn (_mark_completed_transaction ["x"] "j" ok_result 4 None None) s = Ok (true, s1) /\
    is_valid_completed_sync_content_result stored = Ok true /\
    (forall j' lane now', run_txn (_claim_transaction ["x"] j' lane now') s1 =
       Ok (claim_completed stored, s1)) /\
    (exists d m, ok_result = VDict d /\ stored = VDict m /\
       forall k, is_dict (dict_get k d) = false -> dict_get k m = dict_get k d).
Proof.
  intros s. apply (complete_then_claim ["x"] s "j" None None ok_result 4);
    [split; [done|intros [=]] | reflexivity | reflexivity].
Defined.
