(* ===== verification/Redis.v ===== *)
(** * The Redis store and programs over it

    A program is a finite tree of commands ([prog]); each command, and each Lua
    script, runs atomically on the world, and the commands of concurrent
    programs interleave in any order ([step]).  A key that was given a time to
    live may expire at any moment; the clock only moves forward; the source of
    random identifiers is arbitrary; the connection may fail at any command,
    before or after the server executed it. *)

From S2P Require Import Prelude PyValue.
From Stdlib Require Import QArith_base.
From stdpp Require Import pretty.
Local Open Scope Z_scope.

(** ** Stored strings

    [JsonText compact v] is the text [json.dumps] gives for [v], with the
    default or with the compact separators; [RawText s] is a text that is not
    JSON.  Two texts are the same bytes when they are equal here (the texts of
    the empty containers and of scalars do not depend on the separators; a job
    record is a dictionary with keys). *)
Inductive blob :=
| JsonText (compact : bool) (v : value)
| RawText (s : string).

#[global] Instance blob_eq_dec : EqDecision blob.
Proof. solve_decision. Defined.

(** [json.loads]; a text that is not JSON raises. *)
Definition json_loads (b : blob) : option value :=
  match b with JsonText _ v => Some v | RawText _ => None end.

(** A datetime inside a value goes through [default=str]; the modelled records
    hold none. *)
Fixpoint has_time (v : value) : bool :=
  match v with
  | VTime _ _ => true
  | VList l => existsb has_time l
  | VDict d =>
      (fix go (d : list (string * value)) : bool :=
         match d with [] => false | (_, x) :: d' => has_time x || go d' end) d
  | _ => false
  end.

Definition json_dumps (compact : bool) (v : value) : res blob :=
  if has_time v then Raise Unmodelled else Ok (JsonText compact v).

(** The empty text is false; every JSON text is not empty. *)
Definition blob_truthy (b : blob) : bool :=
  match b with RawText s => negb (bool_decide (s = "")) | JsonText _ _ => true end.

(** ** The world *)
Record world := World {
  strs : gmap string blob;
  sets : gmap string (gset string);
  ttls : gmap string Z;
  clock : Q;
  entropy : string
}.

Definition set_str (k : string) (b : blob) (ex : option Z) (w : world) : world :=
  World (<[k := b]> (strs w)) (sets w)
    (match ex with Some t => <[k := t]> (ttls w) | None => delete k (ttls w) end)
    (clock w) (entropy w).

Definition del_key (k : string) (w : world) : world :=
  World (delete k (strs w)) (delete k (sets w)) (delete k (ttls w)) (clock w) (entropy w).

(** ** Commands

    The scripts are the Lua texts of backend/database/sync_jobs.py. *)
Inductive script :=
| LegacyJobMutation (job_key : string) (current next : blob) (ttl : Z)
| FencedJobMutation (lock_key job_key : string) (token current next : blob) (ttl : Z)
| AcquireLockWithEpoch (lock_key epoch_key : string) (suffix : string) (ttl : Z)
| ReleaseLock (lock_key : string) (token : blob)
| RenewLock (lock_key : string) (token : blob) (ttl : Z)
| FencedAddProcessedSegment (lock_key segments_key : string) (token : blob)
    (segment : string) (ttl : Z).

Inductive cmd :=
| CTime
| CUuid
| CGet (k : string)
| CSet (k : string) (b : blob) (nx : bool) (ex : option Z)
| CDelete (k : string)
| CSadd (k : string) (m : string)
| CExpire (k : string) (ttl : Z)
| CSmembers (k : string)
| CEval (s : script).

Inductive reply :=
| ReplyNone
| ReplyTime (t : Q)
| ReplyText (b : blob)
| ReplyBool (b : bool)
| ReplyList (l : list blob)
| ReplySet (s : gset string)
| ReplyError.

Definition text (s : string) : blob := RawText s.

(** [tostring] of a counter and the counter's reading of its text. *)
Definition counter_text (n : Z) : blob := RawText (pretty n).

Definition counter_value (b : option blob) : Z :=
  match b with
  | Some (RawText s) => default 0 (parse_int s)
  | _ => 0
  end.

Definition exec_script (s : script) (w : world) : reply * world :=
  match s with
  | LegacyJobMutation job_key current next ttl =>
      match strs w !! job_key with
      | None => (ReplyList [text "missing_job"], w)
      | Some raw_job =>
          if decide (raw_job = current)
          then (ReplyList [text "applied"; next], set_str job_key next (Some ttl) w)
          else (ReplyList [text "conflict"; raw_job], w)
      end
  | FencedJobMutation lock_key job_key token current next ttl =>
      match strs w !! lock_key with
      | None => (ReplyList [text "missing_owner"], w)
      | Some owner =>
          if decide (owner = token) then
            match strs w !! job_key with
            | None => (ReplyList [text "missing_job"], w)
            | Some raw_job =>
                if decide (raw_job = current)
                then (ReplyList [text "applied"; next], set_str job_key next (Some ttl) w)
                else (ReplyList [text "conflict"; raw_job], w)
            end
          else (ReplyList [text "stale_owner"], w)
      end
  | AcquireLockWithEpoch lock_key epoch_key suffix ttl =>
      match strs w !! lock_key with
      | Some _ => (ReplyList [text "0"], w)
      | None =>
          let epoch := counter_value (strs w !! epoch_key) + 1 in
          let w1 := World (<[epoch_key := counter_text epoch]> (strs w)) (sets w) (ttls w)
                      (clock w) (entropy w) in
          let token := pretty epoch +:+ ":" +:+ suffix in
          (ReplyList [text "1"; text token; counter_text epoch],
           set_str lock_key (text token) (Some ttl) w1)
      end
  | ReleaseLock lock_key token =>
      if decide (strs w !! lock_key = Some token)
      then (ReplyBool true, del_key lock_key w)
      else (ReplyBool false, w)
  | RenewLock lock_key token ttl =>
      if decide (strs w !! lock_key = Some token)
      then (ReplyBool true,
            World (strs w) (sets w) (<[lock_key := ttl]> (ttls w)) (clock w) (entropy w))
      else (ReplyBool false, w)
  | FencedAddProcessedSegment lock_key segments_key token segment ttl =>
      match strs w !! lock_key with
      | None => (ReplyList [text "missing_owner"], w)
      | Some owner =>
          if decide (owner = token)
          then (ReplyList [text "applied"],
                World (strs w)
                  (<[segments_key := {[segment]} ∪ default ∅ (sets w !! segments_key)]> (sets w))
                  (<[segments_key := ttl]> (ttls w)) (clock w) (entropy w))
          else (ReplyList [text "stale_owner"], w)
      end
  end.

Definition exec (c : cmd) (w : world) : reply * world :=
  match c with
  | CTime => (ReplyTime (clock w), w)
  | CUuid => (ReplyText (text (entropy w)), w)
  | CGet k => (match strs w !! k with Some b => ReplyText b | None => ReplyNone end, w)
  | CSet k b nx ex =>
      if nx && match strs w !! k with Some _ => true | None => false end
      then (ReplyNone, w)
      else (ReplyBool true, set_str k b ex w)
  | CDelete k => (ReplyNone, del_key k w)
  | CSadd k m =>
      (ReplyNone,
       World (strs w) (<[k := {[m]} ∪ default ∅ (sets w !! k)]> (sets w)) (ttls w)
         (clock w) (entropy w))
  | CExpire k ttl =>
      (ReplyNone, World (strs w) (sets w) (<[k := ttl]> (ttls w)) (clock w) (entropy w))
  | CSmembers k => (ReplySet (default ∅ (sets w !! k)), w)
  | CEval s => exec_script s w
  end.

(** ** Programs *)
Inductive prog (A : Type) : Type :=
| Ret (a : A)
| Throw (e : exn)
| Do (c : cmd) (k : reply -> prog A).
Arguments Ret {A} a.
Arguments Throw {A} e.
Arguments Do {A} c k.

#[global] Instance prog_ret : MRet prog := fun A a => Ret a.

#[global] Instance prog_bind : MBind prog := fun A B f =>
  fix go (p : prog A) : prog B :=
    match p with
    | Ret a => f a
    | Throw e => Throw e
    | Do c k => Do c (fun r => go (k r))
    end.

(** A command of the client library: a lost connection raises. *)
Definition call (c : cmd) : prog reply :=
  Do c (fun r => match r with ReplyError => Throw RedisError | _ => Ret r end).

(** [try: p except Exception: h] *)
Fixpoint try_except {A} (p h : prog A) : prog A :=
  match p with
  | Ret a => Ret a
  | Throw _ => h
  | Do c k => Do c (fun r => try_except (k r) h)
  end.

Definition raise {A} (r : res A) : prog A :=
  match r with Ok a => Ret a | Raise e => Throw e end.

(** [time.time()] and [str(uuid.uuid4())] *)
Definition time_time : prog Q :=
  Do CTime (fun r => match r with ReplyTime t => Ret t | _ => Throw RuntimeError end).

Definition uuid4 : prog string :=
  Do CUuid (fun r => match r with ReplyText (RawText s) => Ret s | _ => Throw RuntimeError end).

(** [r.get(k)] *)
Definition redis_get (k : string) : prog (option blob) :=
  r ← call (CGet k); mret (match r with ReplyText b => Some b | _ => None end).

(** A run without interference. *)
Fixpoint run {A} (p : prog A) (w : world) : res A * world :=
  match p with
  | Ret a => (Ok a, w)
  | Throw e => (Raise e, w)
  | Do c k => let '(r, w') := exec c w in run (k r) w'
  end.

(** ** Concurrent runs *)
Definition thread : Type := prog unit.

Definition forget {A} (p : prog A) : thread := p ≫= fun _ => mret tt.

Inductive step : world * list thread -> world * list thread -> Prop :=
| step_thread w ts1 c k ts2 :
    step (w, ts1 ++ Do c k :: ts2) ((exec c w).2, ts1 ++ k (exec c w).1 :: ts2)
| step_lost_request w ts1 c k ts2 :
    step (w, ts1 ++ Do c k :: ts2) (w, ts1 ++ k ReplyError :: ts2)
| step_lost_reply w ts1 c k ts2 :
    step (w, ts1 ++ Do c k :: ts2) ((exec c w).2, ts1 ++ k ReplyError :: ts2)
| step_expire w ts k :
    is_Some (ttls w !! k) -> step (w, ts) (del_key k w, ts)
| step_clock w ts t :
    (clock w <= t)%Q ->
    step (w, ts) (World (strs w) (sets w) (ttls w) t (entropy w), ts)
| step_entropy w ts s :
    step (w, ts) (World (strs w) (sets w) (ttls w) (clock w) s, ts).

(** ** Programs whose commands all satisfy a predicate *)
Fixpoint all_cmds {A} (P : cmd -> Prop) (p : prog A) : Prop :=
  match p with
  | Ret _ | Throw _ => True
  | Do c k => P c /\ forall r, all_cmds P (k r)
  end.

Lemma all_cmds_bind {A B} (P : cmd -> Prop) (p : prog A) (f : A -> prog B) :
  all_cmds P p -> (forall a, all_cmds P (f a)) -> all_cmds P (p ≫= f).
Proof.
  intros Hp Hf. induction p as [a|e|c k IH]; [apply Hf|done|].
  destruct Hp as [Hc Hk]. split; [done|]. intros r. by apply IH.
Qed.

(** Every value a program may return, whatever the replies, satisfies [Q]. *)
Fixpoint all_rets {A} (Q : A -> Prop) (p : prog A) : Prop :=
  match p with
  | Ret a => Q a
  | Throw _ => True
  | Do _ k => forall r, all_rets Q (k r)
  end.

Lemma all_cmds_bind_rets {A B} (P : cmd -> Prop) (Q : A -> Prop) (p : prog A) (f : A -> prog B) :
  all_cmds P p -> all_rets Q p -> (forall a, Q a -> all_cmds P (f a)) -> all_cmds P (p ≫= f).
Proof.
  intros Hp HQ Hf. induction p as [a|e|c k IH]; [by apply Hf|done|].
  destruct Hp as [Hc Hk]. split; [done|]. intros r. by apply IH.
Qed.

Lemma all_cmds_weaken {A} (P Q : cmd -> Prop) (p : prog A) :
  (forall c, P c -> Q c) -> all_cmds P p -> all_cmds Q p.
Proof. intros HPQ. induction p; simpl; naive_solver. Qed.

Lemma all_cmds_try {A} (P : cmd -> Prop) (p h : prog A) :
  all_cmds P p -> all_cmds P h -> all_cmds P (try_except p h).
Proof. intros Hp Hh. induction p as [| |c k IH]; [done|done|]. destruct Hp; split; auto. Qed.

Lemma all_cmds_call (P : cmd -> Prop) (c : cmd) : P c -> all_cmds P (call c).
Proof. intros Hc. split; [done|]. by intros []. Qed.

Create HintDb cmds.
#[export] Hint Resolve all_cmds_bind all_cmds_try all_cmds_call : cmds.

Lemma all_cmds_raise {A} (P : cmd -> Prop) (r : res A) : all_cmds P (raise r).
Proof. by destruct r. Qed.
#[export] Hint Resolve all_cmds_raise : cmds.

Lemma run_bind {A B} (p : prog A) (f : A -> prog B) w :
  run (p ≫= f) w = match run p w with
                   | (Ok a, w') => run (f a) w'
                   | (Raise e, w') => (Raise e, w')
                   end.
Proof.
  revert w. induction p as [a|e|c k IH]; intros w; [done|done|].
  simpl. destruct (exec c w) as [r w']. apply IH.
Qed.

(** The thread that takes a step satisfies the predicate and goes on doing so. *)
Lemma all_cmds_head (P : cmd -> Prop) (ts1 ts2 : list thread) c k :
  Forall (all_cmds P) (ts1 ++ Do c k :: ts2) -> P c.
Proof. by intros [_ [[Hc _] _]%Forall_cons]%Forall_app. Qed.

Lemma all_cmds_advance (P : cmd -> Prop) (ts1 ts2 : list thread) c k r :
  Forall (all_cmds P) (ts1 ++ Do c k :: ts2) -> Forall (all_cmds P) (ts1 ++ k r :: ts2).
Proof.
  intros [H1 [[_ Hk] H2]%Forall_cons]%Forall_app. apply Forall_app. split; [done|].
  by constructor.
Qed.

(** Invariants of concurrent runs: when every command of every thread keeps
    [I], and so does the environment, [I] holds in every reachable world. *)
Lemma steps_invariant (I : world -> Prop) (P : cmd -> Prop) :
  (forall c w, I w -> P c -> I (exec c w).2) ->
  (forall k w, I w -> is_Some (ttls w !! k) -> I (del_key k w)) ->
  (forall w t s, I w -> I (World (strs w) (sets w) (ttls w) t s)) ->
  forall w ts w' ts',
    rtc step (w, ts) (w', ts') -> Forall (all_cmds P) ts -> I w ->
    I w' /\ Forall (all_cmds P) ts'.
Proof.
  intros Hcmd Hexp Henv w ts w' ts' Hs.
  remember (w, ts) as x eqn:Hx. remember (w', ts') as y eqn:Hy.
  revert w ts Hx. induction Hs as [x|x z y Hxz _ IH]; intros w ts -> HP HI; [by simplify_eq|].
  inversion Hxz; subst; (eapply IH; [done|reflexivity|..]); try done; auto;
    first [by eapply all_cmds_advance | apply Hcmd; [done|by eapply all_cmds_head]].
Qed.

(** ** Schedules

    An interleaving given as the list of the threads that move; running it is a
    derivation of [step]. *)
Fixpoint advance (i : nat) (w : world) (ts : list thread) : option (world * list thread) :=
  match ts, i with
  | Do c k :: ts', O => Some ((exec c w).2, k (exec c w).1 :: ts')
  | t :: ts', S i' =>
      match advance i' w ts' with Some (w', ts2) => Some (w', t :: ts2) | None => None end
  | _, _ => None
  end.

Fixpoint schedule (l : list nat) (x : world * list thread) : option (world * list thread) :=
  match l with
  | [] => Some x
  | i :: l' => match advance i x.1 x.2 with Some y => schedule l' y | None => None end
  end.

Lemma advance_split i w ts w' ts2 :
  advance i w ts = Some (w', ts2) ->
  exists ts1 c k ts3, ts = ts1 ++ Do c k :: ts3 /\ w' = (exec c w).2 /\
    ts2 = ts1 ++ k (exec c w).1 :: ts3.
Proof.
  revert i ts2. induction ts as [|t ts IH]; intros i ts2 H; [by destruct i|].
  destruct i as [|i].
  - destruct t as [| |c k]; try done. simpl in H. simplify_eq. by exists [], c, k, ts.
  - simpl in H. assert (exists ts2', advance i w ts = Some (w', ts2') /\ ts2 = t :: ts2')
      as (ts2' & Ha & ->) by (destruct t, (advance i w ts) as [[]|]; naive_solver).
    destruct (IH _ _ Ha) as (ts1 & c & k & ts3 & -> & -> & ->).
    by exists (t :: ts1), c, k, ts3.
Qed.

Lemma schedule_rtc l x y : schedule l x = Some y -> rtc step x y.
Proof.
  revert x. induction l as [|i l IH]; intros [w ts] H; simpl in H; [by simplify_eq|].
  destruct (advance i w ts) as [[w' ts2]|] eqn:Ha; [|done].
  destruct (advance_split _ _ _ _ _ Ha) as (ts1 & c & k & ts3 & -> & -> & ->).
  eapply rtc_l; [apply step_thread|by apply IH].
Qed.
