(* ===== verification/SyncJobs.v ===== *)
(** * Sync jobs and their run locks (backend/database/sync_jobs.py)

    A job is a JSON record under [sync_job:<id>]; a run lock under
    [sync_job_lock:<id>] names the one worker that may change it, with an epoch
    drawn from a counter that never expires.  Every function of the module is a
    program over Redis; logging is left out. *)

From S2P Require Import Prelude PyValue Redis.
From Stdlib Require Import QArith_base Ascii.
From stdpp Require Import pretty.
Local Open Scope Z_scope.

Definition JOB_KEY_PREFIX : string := "sync_job:".
Definition JOB_TTL_SECONDS : Z := 86400.
Definition STALE_THRESHOLD_SECONDS : Z := 600.
Definition QUEUED_DISPATCH_STALE_SECONDS : Z := 1800.
Definition TERMINAL_STATUSES : list string := ["completed"; "partial_failure"; "failed"].
Definition _SYNC_DISPATCH_MODES : list string := ["inline"; "cloud_tasks"].
Definition RUN_LOCK_KEY_PREFIX : string := "sync_job_lock:".
Definition RUN_LOCK_EPOCH_KEY_PREFIX : string := "sync_job_lock_epoch:".
Definition RUN_LOCK_TTL_SECONDS : Z := 1800.
Definition PROCESSED_SEGMENTS_KEY_PREFIX : string := "sync_job_segments:".
Definition ONCE_KEY_PREFIX : string := "sync_job_once:".

Definition job_key (job_id : string) : string := JOB_KEY_PREFIX +:+ job_id.
Definition lock_key (job_id : string) : string := RUN_LOCK_KEY_PREFIX +:+ job_id.
Definition epoch_key (job_id : string) : string := RUN_LOCK_EPOCH_KEY_PREFIX +:+ job_id.
Definition once_key (job_id tag : string) : string :=
  ONCE_KEY_PREFIX +:+ job_id +:+ ":" +:+ tag.
Definition segments_key (job_id : string) : string := PROCESSED_SEGMENTS_KEY_PREFIX +:+ job_id.

Inductive FencedSyncJobMutationOutcome :=
| APPLIED | CONFLICT | MISSING_OWNER | STALE_OWNER | MISSING_JOB | INVALID_JOB | INVALID_STATE.

#[global] Instance outcome_eq_dec : EqDecision FencedSyncJobMutationOutcome.
Proof. solve_decision. Defined.

Definition parse_outcome (s : string) : option FencedSyncJobMutationOutcome :=
  if decide (s = "applied") then Some APPLIED
  else if decide (s = "conflict") then Some CONFLICT
  else if decide (s = "missing_owner") then Some MISSING_OWNER
  else if decide (s = "stale_owner") then Some STALE_OWNER
  else if decide (s = "missing_job") then Some MISSING_JOB
  else if decide (s = "invalid_job") then Some INVALID_JOB
  else if decide (s = "invalid_state") then Some INVALID_STATE
  else None.

Inductive SyncLedgerFenceMode := LEGACY | STANDBY | ACTIVE.

Definition ascii_lower (c : ascii) : ascii :=
  let n := N_of_ascii c in
  if ((65 <=? n) && (n <=? 90))%N then ascii_of_N (n + 32) else c.

Definition lower (s : string) : string :=
  String.string_of_list_ascii (ascii_lower <$> String.list_ascii_of_string s).

(** [raw] is the value of SYNC_LEDGER_FENCE_MODE in the environment. *)
Definition get_sync_ledger_fence_mode (raw : option string) : SyncLedgerFenceMode :=
  let raw := lower (strip (default "legacy" raw)) in
  if decide (raw = "legacy") then LEGACY
  else if decide (raw = "standby") then STANDBY
  else if decide (raw = "active") then ACTIVE
  else STANDBY.

Definition sync_job_uses_ledger_fence (job : dict) : bool :=
  v_is (dict_get "ledger_fence_mode" job) "active".

Record FencedSyncJobMutation := Mutation {
  outcome : FencedSyncJobMutationOutcome;
  mutated_job : option dict;
  raw_job : option blob
}.

Definition applied (m : FencedSyncJobMutation) : bool :=
  bool_decide (outcome m = APPLIED).

Definition create_sync_job (uid : string) (total_files total_segments : Z)
    (job_id : option string) (lane capture_time_trust : string)
    (recording_age_seconds : option Z) (content_id : option string)
    (dispatch_mode ledger_fence_mode : string) : prog dict :=
  job_id ← match job_id with None => uuid4 | Some j => mret j end;
  now ← time_time;
  let job : dict :=
    [("job_id", VStr job_id); ("uid", VStr uid); ("status", VStr "queued");
     ("created_at", VFloat now); ("started_at", VNone); ("updated_at", VFloat now);
     ("completed_at", VNone); ("total_files", VInt total_files);
     ("total_segments", VInt total_segments); ("processed_segments", VInt 0);
     ("successful_segments", VInt 0); ("failed_segments", VInt 0); ("result", VNone);
     ("error", VNone); ("reason_code", VNone); ("retry_after", VNone); ("lane", VStr lane);
     ("capture_time_trust", VStr capture_time_trust);
     ("recording_age_seconds", opt_int recording_age_seconds);
     ("content_id", opt_str content_id);
     ("dispatch_mode",
      VStr (if v_in (VStr dispatch_mode) _SYNC_DISPATCH_MODES then dispatch_mode else "inline"));
     ("ledger_fence_mode",
      VStr (if decide (ledger_fence_mode = "active") then "active" else "legacy"))] in
  raw ← raise (json_dumps false (VDict job));
  call (CSet (job_key job_id) raw false (Some JOB_TTL_SECONDS));;
  mret job.

Definition delete_sync_job (job_id : string) : prog unit :=
  call (CDelete (job_key job_id));; mret tt.

(** The stale bound that applies to a job, if any. *)
Definition stale_threshold (job : dict) : option Z :=
  let status := dict_get "status" job in
  if v_is status "processing" then Some STALE_THRESHOLD_SECONDS
  else if v_is status "queued" && v_is (dict_get "dispatch_mode" job) "cloud_tasks"
          && is_none (dict_get "started_at" job) && is_none (dict_get "attempt" job)
  then Some QUEUED_DISPATCH_STALE_SECONDS
  else None.

Definition is_sync_job_stale (job : dict) (now : Q) : bool :=
  match stale_threshold job with
  | None => false
  | Some threshold =>
      match num_of (py_or (dict_get "updated_at" job) (dict_get "created_at" job)) with
      | Some updated_at => negb (Qle_bool (now - updated_at) (inject_Z threshold))
      | None => false
      end
  end.

Definition get_sync_job (job_id : string) : prog (option dict) :=
  let key := job_key job_id in
  data ← redis_get key;
  match data with
  | None => mret None
  | Some data =>
      if negb (blob_truthy data) then mret None
      else
        match json_loads data with
        | None => mret None
        | Some raw =>
            let job := match raw with VDict d => d | _ => [] end in
            now ← time_time;
            if is_sync_job_stale job now then
              completed_at ← time_time;
              let job := dict_update job
                [("status", VStr "failed");
                 ("error", VStr "Job timed out (background worker likely died)");
                 ("completed_at", VFloat completed_at)] in
              next ← raise (json_dumps false (VDict job));
              call (CSet key next false (Some JOB_TTL_SECONDS));;
              mret (Some job)
            else mret (Some job)
        end
  end.

(** ** Compare-and-set mutations *)

(** The decoding both script families share: an applied or conflicting reply
    carries the job's text. *)
Definition decode_mutation (response : reply) : prog FencedSyncJobMutation :=
  match response with
  | ReplyList (RawText tag :: rest) =>
      match parse_outcome tag with
      | None => Throw RuntimeError
      | Some o =>
          if negb (bool_decide (o = APPLIED) || bool_decide (o = CONFLICT))
          then mret (Mutation o None None)
          else
            match rest with
            | [] => mret (Mutation INVALID_JOB None None)
            | raw_text :: _ =>
                match json_loads raw_text with
                | Some (VDict d) => mret (Mutation o (Some d) (Some raw_text))
                | _ => mret (Mutation INVALID_JOB None None)
                end
            end
      end
  | _ => Throw RuntimeError
  end.

Definition _decode_legacy_job_mutation := decode_mutation.
Definition _decode_fenced_mutation := decode_mutation.

Definition _decode_fence_only_mutation (response : reply) : prog FencedSyncJobMutation :=
  match response with
  | ReplyList (RawText tag :: _) =>
      match parse_outcome tag with
      | None => Throw RuntimeError
      | Some o => mret (Mutation o None None)
      end
  | _ => Throw RuntimeError
  end.

Definition is_terminal (job : dict) : bool := v_in (dict_get "status" job) TERMINAL_STATUSES.

Definition _LEGACY_JOB_MUTATION_MAX_RETRIES : nat := 3.

Fixpoint update_loop (fuel : nat) (key : string) (payload : dict) (current_raw : blob)
    (current_job : dict) : prog (option dict) :=
  match fuel with
  | O => mret None
  | S fuel' =>
      if is_terminal current_job then mret None
      else
        next_raw ← raise (json_dumps true (VDict (dict_update current_job payload)));
        response ← call (CEval (LegacyJobMutation key current_raw next_raw JOB_TTL_SECONDS));
        mutation ← _decode_legacy_job_mutation response;
        match outcome mutation with
        | APPLIED => mret (mutated_job mutation)
        | CONFLICT =>
            match raw_job mutation, mutated_job mutation with
            | Some raw, Some job => update_loop fuel' key payload raw job
            | _, _ => mret None
            end
        | _ => mret None
        end
  end.

Definition update_sync_job (job_id : string) (updates : dict) : prog (option dict) :=
  let key := job_key job_id in
  data ← redis_get key;
  match data with
  | None => mret None
  | Some current_raw =>
      if negb (blob_truthy current_raw) then mret None
      else
        match json_loads current_raw with
        | Some (VDict current_job) =>
            now ← time_time;
            let payload := dict_update updates [("updated_at", VFloat now)] in
            update_loop _LEGACY_JOB_MUTATION_MAX_RETRIES key payload current_raw current_job
        | _ => mret None
        end
  end.

Definition _FENCED_JOB_MUTATION_MAX_RETRIES : nat := 3.

(** Whether the guard before the compare-and-set stops a job: its status is
    terminal, or outside the set of allowed ones. *)
Definition refused (allowed : option (list string)) (job : dict) : res bool :=
  if is_terminal job then Ok true
  else
    match allowed with
    | None => Ok false
    | Some ss => b ← v_in_set (dict_get "status" job) ss; mret (negb b)
    end.

Fixpoint fenced_loop (fuel : nat) (lock key : string) (token : blob) (payload : dict)
    (allowed_current_statuses : option (list string)) (current_raw : blob) (current_job : dict)
    (mutation : FencedSyncJobMutation) : prog FencedSyncJobMutation :=
  match fuel with
  | O => mret mutation
  | S fuel' =>
      stop ← raise (refused allowed_current_statuses current_job);
      if (stop : bool) then mret (Mutation INVALID_STATE (Some current_job) (Some current_raw))
      else
        next_raw ← raise (json_dumps true (VDict (dict_update current_job payload)));
        response ← call (CEval (FencedJobMutation lock key token current_raw next_raw
                                  JOB_TTL_SECONDS));
        mutation ← _decode_fenced_mutation response;
        if negb (bool_decide (outcome mutation = CONFLICT)) then mret mutation
        else
          match raw_job mutation, mutated_job mutation with
          | Some raw, Some job =>
              fenced_loop fuel' lock key token payload allowed_current_statuses raw job mutation
          | _, _ => mret (Mutation INVALID_JOB None None)
          end
  end.

(** [now] is the optional clock argument. *)
Definition clock_or (now : option Q) : prog Q :=
  match now with Some t => mret t | None => time_time end.

Definition fenced_update_sync_job (job_id run_lock_token : string) (updates : dict)
    (now : option Q) (allowed_current_statuses : option (list string))
    : prog FencedSyncJobMutation :=
  t ← clock_or now;
  let payload := dict_update updates [("updated_at", VFloat t)] in
  let lock := lock_key job_id in
  let key := job_key job_id in
  let token := text run_lock_token in
  let conflict := Mutation CONFLICT None None in
  raw_value ← redis_get key;
  match raw_value with
  | None =>
      response ← call (CEval (FencedJobMutation lock key token (text "") (text "")
                                JOB_TTL_SECONDS));
      initial ← _decode_fenced_mutation response;
      if negb (bool_decide (outcome initial = CONFLICT)) then mret initial
      else
        match raw_job initial, mutated_job initial with
        | Some raw, Some job =>
            fenced_loop _FENCED_JOB_MUTATION_MAX_RETRIES lock key token payload
              allowed_current_statuses raw job conflict
        | _, _ => mret (Mutation INVALID_JOB None None)
        end
  | Some current_raw =>
      match json_loads current_raw with
      | Some (VDict current_job) =>
          fenced_loop _FENCED_JOB_MUTATION_MAX_RETRIES lock key token payload
            allowed_current_statuses current_raw current_job conflict
      | _ => mret (Mutation INVALID_JOB None None)
      end
  end.

Definition fenced_mark_job_processing (job_id run_lock_token : string) (now : option Q)
    : prog FencedSyncJobMutation :=
  started_at ← clock_or now;
  fenced_update_sync_job job_id run_lock_token
    [("status", VStr "processing"); ("started_at", VFloat started_at)]
    (Some started_at) (Some ["queued"; "processing"]).

Definition mark_job_processing (job_id : string) : prog (option dict) :=
  started_at ← time_time;
  update_sync_job job_id [("status", VStr "processing"); ("started_at", VFloat started_at)].

(** ** Finalization *)

(** [d.get(k, default)] *)
Definition dict_get_default (k : string) (v : value) (d : dict) : value :=
  default v (dict_lookup k d).

(** An integer operand of a comparison or subtraction (a boolean counts). *)
Definition int_operand (v : value) : res Z :=
  match v with
  | VInt z => Ok z
  | VBool b => Ok (if b then 1 else 0)
  | VFloat _ => Raise Unmodelled
  | _ => Raise TypeError
  end.

(** [errors[0]] *)
Definition first_error (errors : value) : res string :=
  match errors with
  | VList (e :: _) => py_str e
  | VStr (String.String c _) => Ok (String.String c "")
  | VDict _ => Raise KeyError
  | _ => Raise TypeError
  end.

Definition finalization_status (total failed : Z) : string :=
  if (0 <? total) && (total <=? failed) then "failed"
  else if 0 <? failed then "partial_failure"
  else "completed".

Definition _sync_job_finalization_updates (result : dict) (completed_at : Q)
    : res (string * value * value * dict) :=
  let failed_v := dict_get_default "failed_segments" (VInt 0) result in
  let total_v := dict_get_default "total_segments" (VInt 0) result in
  total ← int_operand total_v;
  failed ← int_operand failed_v;
  let status := finalization_status total failed in
  error ← (if decide (status = "failed") then
             let errors := dict_get_default "errors" (VList []) result in
             total_text ← py_str total_v;
             if truthy errors then
               e ← first_error errors;
               mret (VStr ("All " +:+ total_text +:+ " segments failed. First error: " +:+ e))
             else mret (VStr ("All " +:+ total_text +:+ " segments failed processing"))
           else mret VNone);
  mret (status, total_v, failed_v,
    [("status", VStr status);
     ("completed_at", VFloat completed_at);
     ("result", VDict result);
     ("successful_segments", VInt (Z.max 0 (total - failed)));
     ("failed_segments", failed_v);
     ("processed_segments", total_v);
     ("error", error)]).

Definition finalize_sync_job (job_id : string) (result : dict) : prog (option dict) :=
  completed_at ← time_time;
  u ← raise (_sync_job_finalization_updates result completed_at);
  let '(_, _, _, updates) := u in
  update_sync_job job_id updates.

Definition _fenced_finalize_sync_job (job_id run_lock_token : string) (result : dict)
    (now : option Q) (allowed_current_statuses : list string) : prog FencedSyncJobMutation :=
  completed_at ← clock_or now;
  u ← raise (_sync_job_finalization_updates result completed_at);
  let '(_, _, _, updates) := u in
  fenced_update_sync_job job_id run_lock_token updates (Some completed_at)
    (Some allowed_current_statuses).

Definition fenced_finalize_sync_job (job_id run_lock_token : string) (result : dict)
    (now : option Q) : prog FencedSyncJobMutation :=
  _fenced_finalize_sync_job job_id run_lock_token result now ["processing"].

Definition fenced_finalize_sync_job_from_durable_ledger (job_id run_lock_token : string)
    (result : dict) (now : option Q) : prog FencedSyncJobMutation :=
  _fenced_finalize_sync_job job_id run_lock_token result now ["queued"; "processing"].

Definition mark_job_completed (job_id : string) (result : dict) : prog (option dict) :=
  finalize_sync_job job_id result.

Definition mark_job_failed (job_id error : string) (reason_code : option string)
    (retry_after : option Z) : prog (option dict) :=
  completed_at ← time_time;
  update_sync_job job_id
    [("status", VStr "failed"); ("completed_at", VFloat completed_at); ("error", VStr error);
     ("reason_code", opt_str reason_code); ("retry_after", opt_int retry_after)].

Definition fenced_mark_job_failed (job_id run_lock_token error : string)
    (reason_code : option string) (retry_after : option Z) (now : option Q)
    : prog FencedSyncJobMutation :=
  completed_at ← clock_or now;
  fenced_update_sync_job job_id run_lock_token
    [("status", VStr "failed"); ("completed_at", VFloat completed_at); ("error", VStr error);
     ("reason_code", opt_str reason_code); ("retry_after", opt_int retry_after)]
    (Some completed_at) (Some ["queued"; "processing"]).

Definition mark_job_queued_for_retry (job_id : string) (attempt : Z) (error : string)
    : prog (option dict) :=
  update_sync_job job_id
    [("status", VStr "queued"); ("attempt", VInt attempt); ("last_error", VStr error)].

Definition fenced_mark_job_queued_for_retry (job_id run_lock_token : string) (attempt : Z)
    (error : string) (now : option Q) : prog FencedSyncJobMutation :=
  fenced_update_sync_job job_id run_lock_token
    [("status", VStr "queued"); ("attempt", VInt attempt); ("last_error", VStr error)]
    now (Some ["queued"; "processing"]).

(** ** Run locks *)

(** [token.partition(':')]: the text before the first colon, and whether there is one. *)
Fixpoint partition_colon (l : list ascii) : list ascii * bool :=
  match l with
  | [] => ([], false)
  | c :: l' =>
      if bool_decide (c = ":"%char) then ([], true)
      else let '(p, b) := partition_colon l' in (c :: p, b)
  end.

Definition get_sync_job_run_lock_epoch (token : string) : Z :=
  let '(epoch_text, separator) := partition_colon (String.list_ascii_of_string token) in
  if negb separator then 0
  else
    match parse_int (String.string_of_list_ascii epoch_text) with
    | None => 0
    | Some epoch => if 0 <? epoch then epoch else 0
    end.

Definition try_acquire_job_run_lock (job_id : string) : prog (option string) :=
  token ← uuid4;
  acquired ← call (CSet (lock_key job_id) (text token) true (Some RUN_LOCK_TTL_SECONDS));
  mret (match acquired with ReplyBool true => Some token | _ => None end).

Definition try_acquire_sync_job_run_lock (job_id : string) : prog (option string) :=
  suffix ← uuid4;
  response ← call (CEval (AcquireLockWithEpoch (lock_key job_id) (epoch_key job_id) suffix
                            RUN_LOCK_TTL_SECONDS));
  match response with
  | ReplyList (RawText acquired :: rest) =>
      if negb (bool_decide (acquired = "1")) then mret None
      else
        match rest with
        | RawText token :: _ =>
            if get_sync_job_run_lock_epoch token <=? 0 then Throw RuntimeError
            else mret (Some token)
        | _ => Throw RuntimeError
        end
  | _ => Throw RuntimeError
  end.

Definition delete_sync_job_run_lock_epoch (job_id : string) : prog unit :=
  try_except (call (CDelete (epoch_key job_id));; mret tt) (mret tt).

Definition renew_job_run_lock (job_id token : string) : prog bool :=
  r ← call (CEval (RenewLock (lock_key job_id) (text token) RUN_LOCK_TTL_SECONDS));
  mret (match r with ReplyBool b => b | _ => false end).

Definition release_job_run_lock (job_id token : string) : prog unit :=
  try_except (call (CEval (ReleaseLock (lock_key job_id) (text token)));; mret tt) (mret tt).

(** ** Processed segments and once-only marks *)
Definition add_processed_segment (job_id segment_path : string) : prog unit :=
  let key := segments_key job_id in
  try_except
    (call (CSadd key segment_path);;
     call (CExpire key JOB_TTL_SECONDS);;
     mret tt)
    (mret tt).

Definition add_processed_segment_if_run_owner (job_id run_lock_token segment_path : string)
    : prog FencedSyncJobMutation :=
  response ← call (CEval (FencedAddProcessedSegment (lock_key job_id) (segments_key job_id)
                            (text run_lock_token) segment_path JOB_TTL_SECONDS));
  _decode_fence_only_mutation response.

Definition get_processed_segments (job_id : string) : prog (gset string) :=
  try_except
    (r ← call (CSmembers (segments_key job_id));
     mret (match r with ReplySet s => s | _ => ∅ end))
    (mret ∅).

Definition try_mark_once (job_id tag : string) : prog bool :=
  try_except
    (r ← call (CSet (once_key job_id tag) (text "1") true (Some JOB_TTL_SECONDS));
     mret (match r with ReplyBool b => b | _ => false end))
    (mret true).
