(* ===== verification/SyncJobsProofs.v ===== *)
(** * Correctness of the sync jobs and their run locks

    What the programs of [SyncJobs] guarantee, alone and interleaved with each
    other: terminal jobs stay as they are, a lost lease is never regained and
    its holder changes nothing, acquisitions draw fresh epochs, finalization
    publishes a truthful status. *)

From S2P Require Import Prelude PyValue Redis SyncJobs.
From Stdlib Require Import QArith_base Ascii.
From stdpp Require Import pretty.
Local Open Scope Z_scope.

(** ** Tokens *)
Lemma partition_digits ds rest :
  Forall is_digit ds -> partition_colon (ds ++ ":"%char :: rest) = (ds, true).
Proof.
  induction 1 as [|c ds [d Hc] _ IH]; [done|]. simpl.
  rewrite bool_decide_eq_false_2 by (by intros ->). by rewrite IH.
Qed.

(** The epoch a worker reads from its token is the one the script drew. *)
Lemma epoch_of_token n suffix :
  0 < n -> get_sync_job_run_lock_epoch (pretty n +:+ ":" +:+ suffix) = n.
Proof.
  intros Hn. destruct (pretty_digits n) as (ds & Hds & _ & Hd & _); [lia|].
  unfold get_sync_job_run_lock_epoch.
  rewrite list_ascii_app, Hds. simpl. rewrite partition_digits by done. simpl.
  rewrite <-Hds, String.string_of_list_ascii_of_string, parse_int_pretty by lia.
  by rewrite (proj2 (Z.ltb_lt 0 n)).
Qed.

(** ** The commands of the module's programs

    The programs that change a job, a lock or a segment set, as a data type;
    creating, deleting and reading a job are apart, because the reader writes
    without comparing. *)
Inductive fenced_call :=
| FUpdate (u : dict) (now : option Q) (allowed : option (list string))
| FProcessing (now : option Q)
| FFinalize (result : dict) (now : option Q)
| FFinalizeLedger (result : dict) (now : option Q)
| FFailed (error : string) (reason_code : option string) (retry_after : option Z) (now : option Q)
| FRetry (attempt : Z) (error : string) (now : option Q)
| FSegment (s : string).

Definition fenced_prog (j t : string) (c : fenced_call) : prog FencedSyncJobMutation :=
  match c with
  | FUpdate u now al => fenced_update_sync_job j t u now al
  | FProcessing now => fenced_mark_job_processing j t now
  | FFinalize r now => fenced_finalize_sync_job j t r now
  | FFinalizeLedger r now => fenced_finalize_sync_job_from_durable_ledger j t r now
  | FFailed e rc ra now => fenced_mark_job_failed j t e rc ra now
  | FRetry a e now => fenced_mark_job_queued_for_retry j t a e now
  | FSegment s => add_processed_segment_if_run_owner j t s
  end.

Inductive mutator :=
| MUpdate (j : string) (u : dict)
| MProcessing (j : string)
| MFinalize (j : string) (result : dict)
| MFailed (j error : string) (reason_code : option string) (retry_after : option Z)
| MRetry (j : string) (attempt : Z) (error : string)
| MFenced (j t : string) (c : fenced_call)
| MAcquire (j : string)
| MRenew (j t : string)
| MRelease (j t : string)
| MSegment (j s : string)
| MOnce (j tag : string).

Definition mutator_prog (m : mutator) : thread :=
  match m with
  | MUpdate j u => forget (update_sync_job j u)
  | MProcessing j => forget (mark_job_processing j)
  | MFinalize j r => forget (finalize_sync_job j r)
  | MFailed j e rc ra => forget (mark_job_failed j e rc ra)
  | MRetry j a e => forget (mark_job_queued_for_retry j a e)
  | MFenced j t c => forget (fenced_prog j t c)
  | MAcquire j => forget (try_acquire_sync_job_run_lock j)
  | MRenew j t => forget (renew_job_run_lock j t)
  | MRelease j t => forget (release_job_run_lock j t)
  | MSegment j s => forget (add_processed_segment j s)
  | MOnce j tag => forget (try_mark_once j tag)
  end.

Definition blob_terminal (b : blob) : bool :=
  match json_loads b with Some (VDict d) => is_terminal d | _ => false end.

(** What a mutator may send: no blind write to a job, no deletion, and a
    compare-and-set only against a text that is not terminal. *)
Definition tame (c : cmd) : Prop :=
  match c with
  | CSet k _ _ _ => exists j tag, k = once_key j tag
  | CDelete _ => False
  | CEval (LegacyJobMutation k current _ _) =>
      (exists j, k = job_key j) /\ blob_terminal current = false
  | CEval (FencedJobMutation l k _ current _ _) =>
      (exists j, l = lock_key j /\ k = job_key j) /\ blob_terminal current = false
  | CEval (AcquireLockWithEpoch l e _ _) => exists j, l = lock_key j /\ e = epoch_key j
  | CEval (ReleaseLock l _) => exists j, l = lock_key j
  | CEval (RenewLock l _ _) => exists j, l = lock_key j
  | CEval (FencedAddProcessedSegment l s _ _ _) => exists j, l = lock_key j /\ s = segments_key j
  | CSadd k _ => exists j, k = segments_key j
  | CExpire k _ => exists j, k = segments_key j
  | _ => True
  end.

Lemma decode_mutation_cmds P r : all_cmds P (decode_mutation r).
Proof. unfold decode_mutation. by repeat case_match. Qed.

Lemma fence_only_cmds P r : all_cmds P (_decode_fence_only_mutation r).
Proof. unfold _decode_fence_only_mutation. by repeat case_match. Qed.

(** A decoded conflict carries a text and the job it parses to. *)
Definition decoded (m : FencedSyncJobMutation) : Prop :=
  forall b, raw_job m = Some b -> exists d, mutated_job m = Some d /\ json_loads b = Some (VDict d).

Lemma decode_mutation_rets r : all_rets decoded (decode_mutation r).
Proof.
  unfold decode_mutation, decoded. repeat case_match; simpl; try done; naive_solver.
Qed.

Lemma json_terminal b d : json_loads b = Some (VDict d) -> blob_terminal b = is_terminal d.
Proof. unfold blob_terminal. by intros ->. Qed.

Lemma refused_terminal al d : refused al d = Ok false -> is_terminal d = false.
Proof. unfold refused. by destruct (is_terminal d). Qed.

Lemma update_loop_cmds fuel j payload raw d :
  json_loads raw = Some (VDict d) -> all_cmds tame (update_loop fuel (job_key j) payload raw d).
Proof.
  revert raw d. induction fuel as [|fuel IH]; intros raw d Hraw; [done|]. cbn [update_loop].
  destruct (is_terminal d) eqn:Ht; [done|].
  apply all_cmds_bind; [apply all_cmds_raise|]. intros next.
  apply all_cmds_bind; [apply all_cmds_call|].
  { split; [by eexists|]. by rewrite (json_terminal _ _ Hraw). }
  intros r. eapply all_cmds_bind_rets; [apply decode_mutation_cmds|apply decode_mutation_rets|].
  intros m Hm. destruct (outcome m); try done.
  destruct (raw_job m) as [b|] eqn:Hb; [|done].
  destruct (Hm b Hb) as (d' & -> & Hd'). by apply IH.
Qed.

Lemma fenced_loop_cmds fuel j t payload al raw d m :
  json_loads raw = Some (VDict d) ->
  all_cmds tame (fenced_loop fuel (lock_key j) (job_key j) t payload al raw d m).
Proof.
  revert raw d m. induction fuel as [|fuel IH]; intros raw d m Hraw; [done|]. cbn [fenced_loop].
  destruct (refused al d) as [[]|e] eqn:Hr; [done| |done].
  change (raise (Ok false)) with (Ret false : prog bool). cbn [mbind prog_bind].
  apply all_cmds_bind; [apply all_cmds_raise|]. intros next.
  apply all_cmds_bind; [apply all_cmds_call|].
  { split; [by eexists|]. rewrite (json_terminal _ _ Hraw). by eapply refused_terminal. }
  intros r. eapply all_cmds_bind_rets; [apply decode_mutation_cmds|apply decode_mutation_rets|].
  intros m' Hm. destruct (negb _); [done|].
  destruct (raw_job m') as [b|] eqn:Hb; [|done].
  destruct (Hm b Hb) as (d' & -> & Hd'). by apply IH.
Qed.

Lemma redis_get_cmds (P : cmd -> Prop) k : P (CGet k) -> all_cmds P (redis_get k).
Proof. intros. apply all_cmds_bind; [by apply all_cmds_call|done]. Qed.

Lemma time_cmds (P : cmd -> Prop) : P CTime -> all_cmds P time_time.
Proof. intros. split; [done|]. by intros []. Qed.

Lemma uuid_cmds (P : cmd -> Prop) : P CUuid -> all_cmds P uuid4.
Proof. intros. split; [done|]. intros []; try done. by destruct b. Qed.

Lemma clock_or_cmds (P : cmd -> Prop) now : P CTime -> all_cmds P (clock_or now).
Proof. destruct now; [done|]. apply time_cmds. Qed.

Lemma update_sync_job_cmds j u : all_cmds tame (update_sync_job j u).
Proof.
  apply all_cmds_bind; [by apply redis_get_cmds|]. intros [raw|]; [|done].
  destruct (negb _); [done|].
  destruct (json_loads raw) as [[]|] eqn:Hraw; try done.
  apply all_cmds_bind; [by apply time_cmds|]. intros now. by apply update_loop_cmds.
Qed.

Lemma fenced_update_sync_job_cmds j t u now al :
  all_cmds tame (fenced_update_sync_job j t u now al).
Proof.
  apply all_cmds_bind; [by apply clock_or_cmds|]. intros ts.
  apply all_cmds_bind; [by apply redis_get_cmds|]. intros [raw|].
  - destruct (json_loads raw) as [[]|] eqn:Hraw; try done. by apply fenced_loop_cmds.
  - apply all_cmds_bind; [apply all_cmds_call; simpl; eauto|].
    intros r. eapply all_cmds_bind_rets; [apply decode_mutation_cmds|apply decode_mutation_rets|].
    intros m Hm. destruct (negb _); [done|].
    destruct (raw_job m) as [b|] eqn:Hb; [|done].
    destruct (Hm b Hb) as (d' & -> & Hd'). by apply fenced_loop_cmds.
Qed.

#[export] Hint Resolve update_sync_job_cmds fenced_update_sync_job_cmds fence_only_cmds : cmds.
#[export] Hint Extern 1 (all_cmds _ time_time) => apply time_cmds : cmds.
#[export] Hint Extern 1 (all_cmds _ uuid4) => apply uuid_cmds : cmds.
#[export] Hint Extern 1 (all_cmds _ (clock_or _)) => apply clock_or_cmds : cmds.
#[export] Hint Extern 1 (tame _) => simpl; eauto : cmds.

(** [cmds] walks through the binds of a program. *)
Ltac cmds :=
  repeat first
    [ done
    | solve [auto with cmds]
    | progress (try match goal with x : prod _ _ |- _ => destruct x end)
    | apply all_cmds_try
    | apply all_cmds_bind; [|intros ?]
    | case_match ].

Lemma forget_cmds {A} (P : cmd -> Prop) (p : prog A) : all_cmds P p -> all_cmds P (forget p).
Proof. intros. by apply all_cmds_bind. Qed.

Lemma finalize_cmds j t r now al : all_cmds tame (_fenced_finalize_sync_job j t r now al).
Proof. unfold _fenced_finalize_sync_job. cmds. Qed.
#[export] Hint Resolve finalize_cmds : cmds.

Lemma fenced_cmds j t c : all_cmds tame (fenced_prog j t c).
Proof.
  destruct c; cbn [fenced_prog]; auto with cmds.
  - unfold fenced_mark_job_processing. cmds.
  - unfold fenced_finalize_sync_job. cmds.
  - unfold fenced_finalize_sync_job_from_durable_ledger. cmds.
  - unfold fenced_mark_job_failed. cmds.
  - unfold fenced_mark_job_queued_for_retry. cmds.
  - unfold add_processed_segment_if_run_owner. cmds.
Qed.
#[export] Hint Resolve fenced_cmds : cmds.

Lemma mutator_cmds m : all_cmds tame (mutator_prog m).
Proof.
  destruct m; cbn [mutator_prog]; apply forget_cmds; auto with cmds.
  - unfold mark_job_processing. cmds.
  - unfold finalize_sync_job. cmds.
  - unfold mark_job_failed. cmds.
  - unfold mark_job_queued_for_retry. cmds.
  - unfold try_acquire_sync_job_run_lock. cmds.
  - unfold renew_job_run_lock. cmds.
  - unfold release_job_run_lock. cmds.
  - unfold add_processed_segment. cmds.
  - unfold try_mark_once. cmds.
Qed.

(** ** Keys of different kinds are different *)
Lemma job_lock_ne j j' : job_key j <> lock_key j'.
Proof. discriminate. Qed.
Lemma job_epoch_ne j j' : job_key j <> epoch_key j'.
Proof. discriminate. Qed.
Lemma job_segments_ne j j' : job_key j <> segments_key j'.
Proof. discriminate. Qed.
Lemma job_once_ne j j' tag : job_key j <> once_key j' tag.
Proof. discriminate. Qed.
Lemma lock_epoch_ne j j' : lock_key j <> epoch_key j'.
Proof. discriminate. Qed.
Lemma lock_once_ne j j' tag : lock_key j <> once_key j' tag.
Proof. discriminate. Qed.
Lemma epoch_once_ne j j' tag : epoch_key j <> once_key j' tag.
Proof. discriminate. Qed.
Lemma epoch_segments_ne j j' : epoch_key j <> segments_key j'.
Proof. discriminate. Qed.

Create HintDb keys.
#[export] Hint Resolve job_lock_ne job_epoch_ne job_segments_ne job_once_ne lock_epoch_ne
  lock_once_ne epoch_once_ne epoch_segments_ne : keys.

Ltac keys := repeat first
  [ rewrite lookup_insert_ne by (auto with keys)
  | rewrite lookup_delete_ne by (auto with keys)
  | rewrite lookup_insert_ne by (apply not_eq_sym; auto with keys)
  | rewrite lookup_delete_ne by (apply not_eq_sym; auto with keys) ].

Lemma strs_set_str k k' b ex w :
  strs (set_str k b ex w) !! k' = if decide (k = k') then Some b else strs w !! k'.
Proof. simpl. rewrite lookup_insert. by case_decide. Qed.

Lemma strs_del_key k k' w :
  strs (del_key k w) !! k' = if decide (k = k') then None else strs w !! k'.
Proof. simpl. rewrite lookup_delete. by case_decide. Qed.

(** ** Terminal jobs

    A tame command leaves a terminal job as it is; only expiry removes it. *)
Lemma tame_keeps_terminal j b c w :
  blob_terminal b = true ->
  strs w !! job_key j = Some b \/ strs w !! job_key j = None ->
  tame c ->
  strs (exec c w).2 !! job_key j = Some b \/ strs (exec c w).2 !! job_key j = None.
Proof.
  intros Hb Hw Hc.
  destruct c as [| |k|k b' nx ex|k|k m|k ttl|k|s]; simpl in Hc |- *; try done.
  - destruct Hc as (j' & tag & ->). destruct nx; simpl; repeat case_match; simpl; by keys.
  - destruct s; simpl in Hc |- *.
    + destruct Hc as [[j' ->] Hcur]. repeat case_match; simplify_eq/=; try done.
      destruct (decide (job_key j' = job_key j)) as [E|]; [rewrite E in *; destruct Hw; congruence|].
      by rewrite lookup_insert_ne.
    + destruct Hc as [(j' & -> & ->) Hcur]. repeat case_match; simplify_eq/=; try done.
      destruct (decide (job_key j' = job_key j)) as [E|]; [rewrite E in *; destruct Hw; congruence|].
      by rewrite lookup_insert_ne.
    + destruct Hc as (j' & -> & ->). case_match; simpl; by keys.
    + destruct Hc as (j' & ->). case_match; simpl; by keys.
    + destruct Hc as (j' & ->). case_match; simpl; by keys.
    + destruct Hc as (j' & -> & ->). repeat case_match; simpl; by keys.
Qed.

(** No mutation resurrects a finished job: whatever workers run, in any
    interleaving of their commands, with lost connections and expiring keys, a
    job that has reached completed, partial_failure or failed keeps its record
    byte for byte until its key expires. *)
Theorem terminal_job_is_final j b ms w w' ts' :
  strs w !! job_key j = Some b -> blob_terminal b = true ->
  rtc step (w, mutator_prog <$> ms) (w', ts') ->
  strs w' !! job_key j = Some b \/ strs w' !! job_key j = None.
Proof.
  intros Hw Hb Hs.
  refine (proj1 (steps_invariant
    (fun w => strs w !! job_key j = Some b \/ strs w !! job_key j = None) tame
    _ _ _ _ _ _ _ Hs _ (or_introl Hw))).
  - intros c w0 HI Hc. by apply tame_keeps_terminal.
  - intros k w0 HI _. rewrite strs_del_key. case_decide; auto.
  - done.
  - apply Forall_fmap, Forall_true. intros m. apply mutator_cmds.
Qed.

(** ** Leases

    A worker's token is lost for job [j] when it does not hold the lock and the
    counter, which never expires, has reached its epoch. *)
Definition epoch_counter (j : string) (w : world) : Z := counter_value (strs w !! epoch_key j).

Definition lease_lost (j t : string) (w : world) : Prop :=
  strs w !! lock_key j <> Some (text t) /\
  0 <= epoch_counter j w /\
  get_sync_job_run_lock_epoch t <= epoch_counter j w /\
  ttls w !! epoch_key j = None.

Lemma lock_key_inj j j' : lock_key j = lock_key j' -> j = j'.
Proof. by intros [=]. Qed.
Lemma epoch_key_inj j j' : epoch_key j = epoch_key j' -> j = j'.
Proof. by intros [=]. Qed.

Lemma counter_value_text n : 0 <= n -> counter_value (Some (counter_text n)) = n.
Proof. intros. simpl. by rewrite parse_int_pretty. Qed.

(** A command that touches neither the lock nor the counter keeps a loss. *)
Lemma lease_lost_frame j t w w' :
  lease_lost j t w ->
  strs w' !! lock_key j = strs w !! lock_key j \/ strs w' !! lock_key j = None ->
  strs w' !! epoch_key j = strs w !! epoch_key j ->
  ttls w' !! epoch_key j = None ->
  lease_lost j t w'.
Proof.
  intros (Hl & H0 & He & Ht) Hlock Hep Httl. unfold lease_lost, epoch_counter. rewrite Hep.
  destruct Hlock as [-> | ->]; auto.
Qed.

(** The next acquisition draws a greater epoch, so its token is another one. *)
Lemma acquire_keeps_lost j t s ttl w :
  lease_lost j t w ->
  lease_lost j t (exec_script (AcquireLockWithEpoch (lock_key j) (epoch_key j) s ttl) w).2.
Proof.
  intros HL. pose proof HL as (Hl & H0 & He & Ht). simpl.
  destruct (strs w !! lock_key j) eqn:E; [by rewrite <-E in Hl|].
  fold (epoch_counter j w). set (w' := set_str _ _ _ _).
  assert (Hc : epoch_counter j w' = epoch_counter j w + 1).
  { unfold epoch_counter at 1, w'. simpl. keys.
    rewrite lookup_insert_eq. apply counter_value_text. lia. }
  cbn [snd]. repeat split; rewrite ?Hc; [|lia|lia|by simpl; keys].
  simpl. rewrite lookup_insert_eq. intros [= Heq].
  rewrite <-Heq, epoch_of_token in He; lia.
Qed.

Lemma tame_keeps_lost j t c w : tame c -> lease_lost j t w -> lease_lost j t (exec c w).2.
Proof.
  intros Hc HL. pose proof HL as (_ & _ & _ & Ht).
  destruct c as [| |k|k b' nx ex|k|k m|k ttl|k|s]; simpl in Hc |- *; try done.
  - destruct Hc as (j' & tag & ->). destruct (nx && _); [done|].
    apply (lease_lost_frame _ _ _ _ HL); simpl; [left|..]; [by keys..|].
    destruct ex; by keys.
  - destruct Hc as (j' & ->). apply (lease_lost_frame _ _ _ _ HL); simpl; [left|..]; by keys.
  - destruct s; simpl in Hc; cbn [exec_script].
    + destruct Hc as [[j' ->] _]. repeat case_match; try done.
      apply (lease_lost_frame _ _ _ _ HL); simpl; [left|..]; by keys.
    + destruct Hc as [(j' & -> & ->) _]. repeat case_match; try done.
      apply (lease_lost_frame _ _ _ _ HL); simpl; [left|..]; by keys.
    + destruct Hc as (j' & -> & ->). destruct (decide (j' = j)) as [->|Hne].
      { by apply acquire_keeps_lost. }
      assert (lock_key j' <> lock_key j) by (by intros ?%lock_key_inj).
      assert (epoch_key j' <> epoch_key j) by (by intros ?%epoch_key_inj).
      case_match; [done|].
      apply (lease_lost_frame _ _ _ _ HL); simpl; [left|..];
        repeat (rewrite lookup_insert_ne by auto with keys); by keys.
    + destruct Hc as (j' & ->). case_match; [|done].
      apply (lease_lost_frame _ _ _ _ HL); simpl; [|by keys..].
      rewrite !lookup_delete. destruct (decide (lock_key j' = lock_key j)); auto.
    + destruct Hc as (j' & ->). case_match; [|done].
      apply (lease_lost_frame _ _ _ _ HL); simpl; [by left|by keys..].
    + destruct Hc as (j' & -> & ->). repeat case_match; try done.
      apply (lease_lost_frame _ _ _ _ HL); simpl; [by left|by keys..].
Qed.

(** ** A call whose token does not hold the lock *)
Definition no_effect (w : world) (p : prog FencedSyncJobMutation) : Prop :=
  (run p w).2 = w /\ forall m, (run p w).1 = Ok m -> applied m = false.

Lemma no_effect_ret w m : applied m = false -> no_effect w (mret m).
Proof. intros Hm. split; [done|]. by intros ? [= <-]. Qed.

Lemma no_effect_bind {A} (p : prog A) f w :
  (run p w).2 = w -> (forall a, (run p w).1 = Ok a -> no_effect w (f a)) -> no_effect w (p ≫= f).
Proof.
  intros Hw Hf. unfold no_effect. rewrite run_bind.
  destruct (run p w) as [[a|e] w'] eqn:E; simpl in *; subst; [by apply Hf|done].
Qed.

Lemma raise_run {A} (r : res A) w : run (raise r) w = (r, w).
Proof. by destruct r. Qed.

Lemma clock_or_run now w : run (clock_or now) w = (Ok (default (clock w) now), w).
Proof. by destruct now. Qed.

Lemma redis_get_run k w : run (redis_get k) w = (Ok (strs w !! k), w).
Proof. unfold redis_get. rewrite run_bind. simpl. by destruct (strs w !! k). Qed.

(** What the fenced script answers to a token that does not hold the lock. *)
Lemma fenced_refused j t cur next ttl w :
  strs w !! lock_key j <> Some (text t) ->
  exists m, run (call (CEval (FencedJobMutation (lock_key j) (job_key j) (text t) cur next ttl))
                 ≫= _decode_fenced_mutation) w = (Ok m, w) /\
    (outcome m = MISSING_OWNER \/ outcome m = STALE_OWNER).
Proof.
  intros Hl. rewrite run_bind. simpl.
  destruct (strs w !! lock_key j) as [o|]; [|eexists; split; [reflexivity|by left]].
  rewrite decide_False by congruence. eexists. split; [reflexivity|by right].
Qed.

(** Nesting of binds does not matter to a run. *)
Lemma run_bind_assoc {A B C} (p : prog A) (f : A -> prog B) (g : B -> prog C) w :
  run (x ← p; y ← f x; g y) w = run (y ← (p ≫= f); g y) w.
Proof. rewrite !run_bind. destruct (run p w) as [[a|e] w']; [apply run_bind|done]. Qed.

Lemma no_effect_ext w p q : run p w = run q w -> no_effect w p -> no_effect w q.
Proof. unfold no_effect. by intros ->. Qed.

Section Stale.
Context (j t : string) (w : world).
Hypothesis Hstale : strs w !! lock_key j <> Some (text t).

(** The script call and whatever follows it on the two refusals. *)
Lemma stale_call_no_effect cur next ttl (k : FencedSyncJobMutation -> prog FencedSyncJobMutation) :
  (forall m, outcome m = MISSING_OWNER \/ outcome m = STALE_OWNER -> no_effect w (k m)) ->
  no_effect w
    (response ← call (CEval (FencedJobMutation (lock_key j) (job_key j) (text t) cur next ttl));
     mutation ← _decode_fenced_mutation response; k mutation).
Proof.
  intros Hk. eapply no_effect_ext; [symmetry; apply run_bind_assoc|].
  destruct (fenced_refused j t cur next ttl w Hstale) as (m & Hrun & Hm).
  apply no_effect_bind; rewrite Hrun; [done|]. intros a [= <-]. by apply Hk.
Qed.

Lemma refusal_no_effect m :
  outcome m = MISSING_OWNER \/ outcome m = STALE_OWNER -> applied m = false.
Proof. unfold applied. by intros [-> | ->]. Qed.

Lemma stale_loop_no_effect fuel payload al raw d m :
  applied m = false ->
  no_effect w (fenced_loop fuel (lock_key j) (job_key j) (text t) payload al raw d m).
Proof.
  intros Hm. destruct fuel as [|fuel]; [by apply no_effect_ret|]. cbn [fenced_loop].
  apply no_effect_bind; rewrite raise_run; [done|]. intros [] _; [by apply no_effect_ret|].
  apply no_effect_bind; rewrite raise_run; [done|]. intros next _.
  apply stale_call_no_effect. intros m' Hm'.
  assert (negb (bool_decide (outcome m' = CONFLICT)) = true) as ->
    by (by destruct Hm' as [-> | ->]).
  apply no_effect_ret. by apply refusal_no_effect.
Qed.

Lemma stale_update_no_effect u now al : no_effect w (fenced_update_sync_job j t u now al).
Proof.
  apply no_effect_bind; rewrite clock_or_run; [done|]. intros ts _.
  apply no_effect_bind; rewrite redis_get_run; [done|]. intros [raw|] _.
  - destruct (json_loads raw) as [[]|]; try by apply no_effect_ret.
    by apply stale_loop_no_effect.
  - apply stale_call_no_effect. intros m' Hm'.
    assert (negb (bool_decide (outcome m' = CONFLICT)) = true) as ->
      by (by destruct Hm' as [-> | ->]).
    apply no_effect_ret. by apply refusal_no_effect.
Qed.

Lemma stale_finalize_no_effect r now al : no_effect w (_fenced_finalize_sync_job j t r now al).
Proof.
  apply no_effect_bind; rewrite clock_or_run; [done|]. intros ts _.
  apply no_effect_bind; rewrite raise_run; [done|]. intros [[[??]?]?] _.
  apply stale_update_no_effect.
Qed.

Lemma stale_segment_no_effect s : no_effect w (add_processed_segment_if_run_owner j t s).
Proof.
  unfold add_processed_segment_if_run_owner, no_effect. rewrite run_bind. simpl.
  destruct (strs w !! lock_key j) as [o|]; [rewrite decide_False by congruence|];
    (split; [done|by intros m [= <-]]).
Qed.

Lemma stale_call_has_no_effect c : no_effect w (fenced_prog j t c).
Proof.
  destruct c; cbn [fenced_prog].
  - apply stale_update_no_effect.
  - apply no_effect_bind; rewrite clock_or_run; [done|]. intros ts _.
    apply stale_update_no_effect.
  - apply stale_finalize_no_effect.
  - apply stale_finalize_no_effect.
  - apply no_effect_bind; rewrite clock_or_run; [done|]. intros ts _.
    apply stale_update_no_effect.
  - apply stale_update_no_effect.
  - apply stale_segment_no_effect.
Qed.
End Stale.

Lemma lost_lease_persists j t ms w w' ts' :
  lease_lost j t w -> rtc step (w, mutator_prog <$> ms) (w', ts') -> lease_lost j t w'.
Proof.
  intros HL Hs.
  refine (proj1 (steps_invariant (lease_lost j t) tame _ _ _ _ _ _ _ Hs _ HL)).
  - intros c w0 HI Hc. by apply tame_keeps_lost.
  - intros k w0 HI Hk. pose proof HI as (_ & _ & _ & Ht).
    assert (k <> epoch_key j) by (intros ->; rewrite Ht in Hk; by destruct Hk).
    apply (lease_lost_frame _ _ _ _ HI); simpl; rewrite ?lookup_delete_ne by done; [|done|done].
    rewrite !lookup_delete. case_decide; auto.
  - done.
  - apply Forall_fmap, Forall_true. intros m. apply mutator_cmds.
Qed.

(** C33: A worker that lost its lease is fenced for good.  Once its token does
    not hold the run lock and the epoch counter has reached its epoch, no
    interleaving of acquisitions, renewals, releases and job mutations (by it
    or by others) gives the lock back to that token, and from then on every
    fenced call it makes (updates, processing, finalization, failure, requeue,
    processed segments) leaves the whole store unchanged and is not reported
    as applied. *)
Theorem lost_lease_is_fenced j t ms w w' ts' :
  lease_lost j t w -> rtc step (w, mutator_prog <$> ms) (w', ts') ->
  strs w' !! lock_key j <> Some (text t) /\
  forall c, (run (fenced_prog j t c) w').2 = w' /\
    forall m, (run (fenced_prog j t c) w').1 = Ok m -> applied m = false.
Proof.
  intros HL Hs. destruct (lost_lease_persists _ _ _ _ _ _ HL Hs) as (Hl & _).
  split; [done|]. intros c. by apply stale_call_has_no_effect.
Qed.

(** ** Acquisition *)
Definition counter_at_least (j : string) (n : Z) (w : world) : Prop :=
  0 <= n <= epoch_counter j w /\ ttls w !! epoch_key j = None.

Lemma counter_frame j n w w' :
  counter_at_least j n w ->
  strs w' !! epoch_key j = strs w !! epoch_key j -> ttls w' !! epoch_key j = None ->
  counter_at_least j n w'.
Proof. intros [Hn _] Hs Ht. split; [|done]. unfold epoch_counter. by rewrite Hs. Qed.

Lemma acquire_counter j s ttl w :
  strs w !! lock_key j = None -> 0 <= epoch_counter j w ->
  epoch_counter j (exec_script (AcquireLockWithEpoch (lock_key j) (epoch_key j) s ttl) w).2 =
  epoch_counter j w + 1.
Proof.
  intros Hl H0. simpl. rewrite Hl. fold (epoch_counter j w). unfold epoch_counter at 1. simpl.
  keys. rewrite lookup_insert_eq. apply counter_value_text. lia.
Qed.

Lemma tame_counter j n c w : tame c -> counter_at_least j n w -> counter_at_least j n (exec c w).2.
Proof.
  intros Hc HL. pose proof HL as [Hn Ht].
  destruct c as [| |k|k b' nx ex|k|k m|k ttl|k|s]; simpl in Hc |- *; try done.
  - destruct Hc as (j' & tag & ->). destruct (nx && _); [done|].
    apply (counter_frame _ _ _ _ HL); simpl; [by keys|]. destruct ex; by keys.
  - destruct Hc as (j' & ->). apply (counter_frame _ _ _ _ HL); simpl; by keys.
  - destruct s as [| |lk ek sfx ttl| | |]; simpl in Hc; cbn [exec_script].
    + destruct Hc as [[j' ->] _]. repeat case_match; try done.
      apply (counter_frame _ _ _ _ HL); simpl; by keys.
    + destruct Hc as [(j' & -> & ->) _]. repeat case_match; try done.
      apply (counter_frame _ _ _ _ HL); simpl; by keys.
    + destruct Hc as (j' & -> & ->). case_match eqn:Hl; [done|].
      destruct (decide (j' = j)) as [->|Hne].
      { pose proof (acquire_counter j sfx ttl w Hl ltac:(lia)) as Hq.
        simpl in Hq. rewrite Hl in Hq. split; [|by simpl; keys]. simpl in Hq |- *. lia. }
      assert (epoch_key j' <> epoch_key j) by (by intros ?%epoch_key_inj).
      apply (counter_frame _ _ _ _ HL); simpl; keys;
        rewrite ?lookup_insert_ne by done; by keys.
    + destruct Hc as (j' & ->). case_match; [|done].
      apply (counter_frame _ _ _ _ HL); simpl; by keys.
    + destruct Hc as (j' & ->). case_match; [|done].
      apply (counter_frame _ _ _ _ HL); simpl; by keys.
    + destruct Hc as (j' & -> & ->). repeat case_match; try done.
      apply (counter_frame _ _ _ _ HL); simpl; by keys.
Qed.

Lemma counter_persists j n ms w w' ts' :
  counter_at_least j n w -> rtc step (w, mutator_prog <$> ms) (w', ts') ->
  counter_at_least j n w'.
Proof.
  intros HL Hs.
  refine (proj1 (steps_invariant (counter_at_least j n) tame _ _ _ _ _ _ _ Hs _ HL)).
  - intros c w0 HI Hc. by apply tame_counter.
  - intros k w0 HI Hk. pose proof HI as [_ Ht].
    assert (k <> epoch_key j) by (intros ->; rewrite Ht in Hk; by destruct Hk).
    apply (counter_frame _ _ _ _ HI); simpl; by rewrite lookup_delete_ne.
  - done.
  - apply Forall_fmap, Forall_true. intros m. apply mutator_cmds.
Qed.

(** A held lock is refused without effect; a free one goes to a token whose
    epoch is the next value of the counter. *)
Lemma acquire_held j w b :
  strs w !! lock_key j = Some b -> run (try_acquire_sync_job_run_lock j) w = (Ok None, w).
Proof. intros Hl. simpl. by rewrite Hl. Qed.

Lemma acquire_free j w :
  strs w !! lock_key j = None -> 0 <= epoch_counter j w ->
  exists t w', run (try_acquire_sync_job_run_lock j) w = (Ok (Some t), w') /\
    get_sync_job_run_lock_epoch t = epoch_counter j w + 1 /\
    epoch_counter j w' = epoch_counter j w + 1 /\
    strs w' !! lock_key j = Some (text t) /\
    ttls w' !! lock_key j = Some RUN_LOCK_TTL_SECONDS /\
    ttls w' !! epoch_key j = ttls w !! epoch_key j.
Proof.
  intros Hl H0.
  pose proof (acquire_counter j (entropy w) RUN_LOCK_TTL_SECONDS w Hl H0) as Hc.
  pose proof (epoch_of_token (epoch_counter j w + 1) (entropy w)) as Ht.
  assert (Hrun : run (try_acquire_sync_job_run_lock j) w =
    (Ok (Some (pretty (epoch_counter j w + 1) +:+ ":" +:+ entropy w)),
     (exec_script (AcquireLockWithEpoch (lock_key j) (epoch_key j) (entropy w)
        RUN_LOCK_TTL_SECONDS) w).2)).
  { simpl. rewrite Hl. cbn -[get_sync_job_run_lock_epoch pretty].
    fold (epoch_counter j w). rewrite Ht by lia.
    by rewrite (proj2 (Z.leb_gt _ _)) by lia. }
  eexists _, _. split; [exact Hrun|]. split; [apply Ht; lia|]. split; [exact Hc|].
  simpl. rewrite Hl. cbn [snd]. fold (epoch_counter j w). simpl. rewrite !lookup_insert_eq.
  repeat split; by keys.
Qed.

(** Run-lock epochs only grow: of two workers that acquire the lock of the
    same job one after the other, with any interleaving of the module's other
    calls (renewals, releases, mutations, failed acquisitions) and any expiry
    in between, the later one reads a strictly greater epoch from its token. *)
Theorem later_lease_has_greater_epoch j t1 t2 ms w w1 w2 w3 ts :
  0 <= epoch_counter j w -> ttls w !! epoch_key j = None ->
  run (try_acquire_sync_job_run_lock j) w = (Ok (Some t1), w1) ->
  rtc step (w1, mutator_prog <$> ms) (w2, ts) ->
  run (try_acquire_sync_job_run_lock j) w2 = (Ok (Some t2), w3) ->
  get_sync_job_run_lock_epoch t1 < get_sync_job_run_lock_epoch t2.
Proof.
  intros H0 Httl Hr1 Hs Hr2.
  destruct (strs w !! lock_key j) eqn:Hl1; [by erewrite acquire_held in Hr1|].
  destruct (strs w2 !! lock_key j) eqn:Hl2; [by erewrite acquire_held in Hr2|].
  destruct (acquire_free j w Hl1 H0) as (t & w' & E & He & Hc & _ & _ & Ht).
  rewrite E in Hr1. simplify_eq.
  assert (counter_at_least j (epoch_counter j w1) w2) as [Hn _].
  { eapply counter_persists; [|done]. split; [lia|congruence]. }
  destruct (acquire_free j w2 Hl2) as (t & w' & E' & He' & _); [lia|].
  rewrite E' in Hr2. simplify_eq. lia.
Qed.

(** ** Functional behaviour of the updates *)
Lemma has_time_dict d : has_time (VDict d) = existsb (fun kv => has_time kv.2) d.
Proof. simpl. induction d as [|[k v] d IH]; [done|]. simpl. by rewrite IH. Qed.

Lemma has_time_set k v d :
  has_time v = false -> has_time (VDict d) = false -> has_time (VDict (dict_set k v d)) = false.
Proof.
  rewrite !has_time_dict. intros Hv. induction d as [|[k' v'] d IH]; simpl; [by rewrite Hv|].
  intros [Hv' Hd]%orb_false_iff. destruct (decide (k = k')); simpl.
  - by rewrite Hv.
  - by rewrite Hv', IH.
Qed.

Lemma has_time_update d u :
  has_time (VDict d) = false -> has_time (VDict u) = false ->
  has_time (VDict (dict_update d u)) = false.
Proof.
  rewrite (has_time_dict u). revert d. induction u as [|[k v] u IH]; intros d Hd Hu; [done|].
  simpl in Hu. apply orb_false_iff in Hu as [Hv Hu]. apply IH; [|done]. by apply has_time_set.
Qed.

Lemma json_truthy raw v : json_loads raw = Some v -> blob_truthy raw = true.
Proof. by destruct raw. Qed.

(** What an update of a job at a time writes. *)
Definition updated (d u : dict) (now : Q) : dict :=
  dict_update d (dict_update u [("updated_at", VFloat now)]).

Lemma has_time_updated d u now :
  has_time (VDict d) = false -> has_time (VDict u) = false ->
  has_time (VDict (updated d u now)) = false.
Proof. intros. by apply has_time_update; [|apply has_time_update]. Qed.

Lemma time_run w : run time_time w = (Ok (clock w), w).
Proof. done. Qed.

Section Job.
Context (j : string) (w : world) (raw : blob) (d : dict).
Hypothesis Hraw : strs w !! job_key j = Some raw.
Hypothesis Hd : json_loads raw = Some (VDict d).

Lemma update_reads u :
  run (update_sync_job j u) w =
  run (update_loop _LEGACY_JOB_MUTATION_MAX_RETRIES (job_key j)
         (dict_update u [("updated_at", VFloat (clock w))]) raw d) w.
Proof.
  unfold update_sync_job. rewrite run_bind, redis_get_run, Hraw.
  rewrite (json_truthy _ _ Hd). cbn [negb]. rewrite Hd. by rewrite run_bind, time_run.
Qed.

Lemma update_live u :
  is_terminal d = false -> has_time (VDict d) = false -> has_time (VDict u) = false ->
  run (update_sync_job j u) w =
  (Ok (Some (updated d u (clock w))),
   set_str (job_key j) (JsonText true (VDict (updated d u (clock w)))) (Some JOB_TTL_SECONDS) w).
Proof.
  intros Ht Htd Htu. rewrite update_reads.
  unfold _LEGACY_JOB_MUTATION_MAX_RETRIES. cbn [update_loop]. rewrite Ht.
  fold (updated d u (clock w)). unfold json_dumps. rewrite has_time_updated by done.
  simpl. rewrite Hraw. by rewrite decide_True.
Qed.

Lemma update_terminal u : is_terminal d = true -> run (update_sync_job j u) w = (Ok None, w).
Proof.
  intros Ht. rewrite update_reads. unfold _LEGACY_JOB_MUTATION_MAX_RETRIES.
  cbn [update_loop]. by rewrite Ht.
Qed.

Lemma fenced_update_live t u now al :
  strs w !! lock_key j = Some (text t) -> refused al d = Ok false ->
  has_time (VDict d) = false -> has_time (VDict u) = false ->
  let next := updated d u (default (clock w) now) in
  run (fenced_update_sync_job j t u now al) w =
  (Ok (Mutation APPLIED (Some next) (Some (JsonText true (VDict next)))),
   set_str (job_key j) (JsonText true (VDict next)) (Some JOB_TTL_SECONDS) w).
Proof.
  intros Hl Hr Htd Htu next. unfold fenced_update_sync_job.
  rewrite run_bind, clock_or_run, run_bind, redis_get_run, Hraw, Hd.
  unfold _FENCED_JOB_MUTATION_MAX_RETRIES. cbn [fenced_loop].
  rewrite run_bind, raise_run, Hr.
  fold (updated d u (default (clock w) now)). fold next. unfold json_dumps.
  unfold next at 1. rewrite has_time_updated by done. simpl.
  rewrite Hl, decide_True, Hraw, decide_True by done. done.
Qed.

Lemma fenced_update_refused t u now al :
  refused al d = Ok true ->
  run (fenced_update_sync_job j t u now al) w =
  (Ok (Mutation INVALID_STATE (Some d) (Some raw)), w).
Proof.
  intros Hr. unfold fenced_update_sync_job.
  rewrite run_bind, clock_or_run, run_bind, redis_get_run, Hraw, Hd.
  unfold _FENCED_JOB_MUTATION_MAX_RETRIES. cbn [fenced_loop].
  by rewrite run_bind, raise_run, Hr.
Qed.
End Job.

(** ** Finalization *)

(** The counts and the errors of a worker's result. *)
Record result_counts (result : dict) (total failed : Z) (errs : list string) : Prop := {
  rc_total : dict_get_default "total_segments" (VInt 0) result = VInt total;
  rc_failed : dict_get_default "failed_segments" (VInt 0) result = VInt failed;
  rc_errors : dict_get_default "errors" (VList []) result = VList (VStr <$> errs);
  rc_range : 0 <= failed <= total;
  rc_plain : has_time (VDict result) = false
}.

(** The error text of a job whose every segment failed. *)
Definition failure_error (total : Z) (errs : list string) : string :=
  match errs with
  | [] => "All " +:+ pretty total +:+ " segments failed processing"
  | e :: _ => "All " +:+ pretty total +:+ " segments failed. First error: " +:+ e
  end.

Lemma finalization_updates_ok result total failed errs now :
  result_counts result total failed errs ->
  _sync_job_finalization_updates result now =
  let status := finalization_status total failed in
  Ok (status, VInt total, VInt failed,
    [("status", VStr status); ("completed_at", VFloat now); ("result", VDict result);
     ("successful_segments", VInt (total - failed)); ("failed_segments", VInt failed);
     ("processed_segments", VInt total);
     ("error", if decide (status = "failed") then VStr (failure_error total errs) else VNone)]).
Proof.
  intros [Ht Hf He Hr _]. unfold _sync_job_finalization_updates. rewrite Ht, Hf, He.
  cbn -[finalization_status pretty]. rewrite Z.max_r by lia.
  destruct (decide (finalization_status total failed = "failed")); [|done].
  by destruct errs.
Qed.

Lemma updated_get k d u now v :
  dict_lookup k (rev (dict_update u [("updated_at", VFloat now)])) = Some v ->
  dict_get k (updated d u now) = v.
Proof. intros Hk. unfold updated, dict_get. by rewrite dict_lookup_update, Hk. Qed.

Lemma updated_get_other k d u now :
  dict_lookup k (rev (dict_update u [("updated_at", VFloat now)])) = None ->
  dict_get k (updated d u now) = dict_get k d.
Proof. intros Hk. unfold updated, dict_get. by rewrite dict_lookup_update, Hk. Qed.

Lemma finalization_status_cases total failed :
  0 <= failed <= total ->
  (finalization_status total failed = "completed" <-> failed = 0) /\
  (finalization_status total failed = "partial_failure" <-> 0 < failed < total) /\
  (finalization_status total failed = "failed" <-> 0 < failed /\ failed = total) /\
  v_in (VStr (finalization_status total failed)) TERMINAL_STATUSES = true.
Proof.
  intros Hr. unfold finalization_status.
  destruct ((0 <? total) && (total <=? failed)) eqn:E1;
    [apply andb_true_iff in E1|apply andb_false_iff in E1; destruct (0 <? failed) eqn:E2];
    rewrite ?Z.ltb_lt, ?Z.ltb_ge, ?Z.leb_le, ?Z.leb_gt in *;
    (split_and!; [split; intros; (done || lia)..|done]).
Qed.

(** The record a finalization leaves. *)
Record finalized_truthfully (job result : dict) (total failed : Z) (errs : list string) : Prop := {
  ft_terminal : is_terminal job = true;
  ft_completed : dict_get "status" job = VStr "completed" <-> failed = 0;
  ft_partial : dict_get "status" job = VStr "partial_failure" <-> 0 < failed < total;
  ft_failed : dict_get "status" job = VStr "failed" <-> 0 < failed /\ failed = total;
  ft_result : dict_get "result" job = VDict result;
  ft_counts : dict_get "processed_segments" job = VInt total /\
              dict_get "failed_segments" job = VInt failed /\
              dict_get "successful_segments" job = VInt (total - failed);
  ft_error : dict_get "error" job =
    if decide (0 < failed /\ failed = total) then VStr (failure_error total errs) else VNone
}.

Lemma finalization_truthful d result total failed errs now u s x y :
  result_counts result total failed errs ->
  _sync_job_finalization_updates result now = Ok (s, x, y, u) ->
  finalized_truthfully (updated d u now) result total failed errs /\ has_time (VDict u) = false.
Proof.
  intros Hc Hu. rewrite (finalization_updates_ok _ _ _ _ _ Hc) in Hu. injection Hu as <- <- <- <-.
  pose proof (finalization_status_cases total failed (rc_range _ _ _ _ Hc))
    as (H1 & H2 & H3 & H4).
  set (st := finalization_status total failed) in *.
  assert (Hst : dict_get "status" (updated d [("status", VStr st); ("completed_at", VFloat now);
    ("result", VDict result); ("successful_segments", VInt (total - failed));
    ("failed_segments", VInt failed); ("processed_segments", VInt total);
    ("error", if decide (st = "failed") then VStr (failure_error total errs) else VNone)] now)
    = VStr st) by (by apply updated_get).
  split.
  - assert (Hiff : forall s (P : Prop), (st = s <-> P) -> (VStr st = VStr s <-> P)).
    { intros s P <-. split; [by intros [= ?]|by intros ->]. }
    split; rewrite ?Hst; [unfold is_terminal; by rewrite Hst|by apply Hiff..| | |].
    { by apply updated_get. }
    { split_and!; by apply updated_get. }
    erewrite updated_get by reflexivity.
    destruct (decide (st = "failed")) as [E|E]; [rewrite decide_True by tauto|
      rewrite decide_False by tauto]; done.
  - rewrite has_time_dict. cbn [existsb snd]. rewrite (rc_plain _ _ _ _ Hc). simpl.
    by case_decide.
Qed.

(** Finalization is truthful.  Of a live job and a worker's result with
    [failed] of [total] segments failed, both the plain and the fenced
    finalization (by the lock's owner, from the processing state) store a
    terminal record that says completed exactly when no segment failed,
    partial_failure exactly when some but not all did, failed exactly when all
    of at least one did (with an error text naming the first error), keeps the
    worker's result and has successful + failed = processed. *)
Theorem finalization_is_truthful j t raw d result total failed errs w :
  strs w !! job_key j = Some raw -> json_loads raw = Some (VDict d) ->
  strs w !! lock_key j = Some (text t) ->
  dict_get "status" d = VStr "processing" -> has_time (VDict d) = false ->
  result_counts result total failed errs ->
  exists job,
    finalized_truthfully job result total failed errs /\
    let w' := set_str (job_key j) (JsonText true (VDict job)) (Some JOB_TTL_SECONDS) w in
    run (finalize_sync_job j result) w = (Ok (Some job), w') /\
    run (fenced_finalize_sync_job j t result None) w =
      (Ok (Mutation APPLIED (Some job) (Some (JsonText true (VDict job)))), w').
Proof.
  intros Hraw Hd Hl Hst Htd Hc.
  pose proof (finalization_updates_ok _ _ _ _ (clock w) Hc) as Hu. cbv zeta in Hu.
  destruct (finalization_truthful d _ _ _ _ (clock w) _ _ _ _ Hc Hu) as [Hf Htu].
  eexists. split; [exact Hf|]. cbv zeta. split.
  - unfold finalize_sync_job. rewrite run_bind, time_run. cbv beta iota.
    rewrite run_bind, raise_run, Hu.
    apply (update_live j w raw d Hraw Hd); [|done|done].
    unfold is_terminal. by rewrite Hst.
  - unfold fenced_finalize_sync_job, _fenced_finalize_sync_job.
    rewrite run_bind, clock_or_run. cbn [default from_option].
    rewrite run_bind, raise_run, Hu.
    apply (fenced_update_live j w raw d Hraw Hd); [done| |done|done].
    unfold refused, is_terminal. by rewrite Hst.
Qed.

(** ** Reading a job *)
Definition at_time (t : Q) (w : world) : world :=
  World (strs w) (sets w) (ttls w) t (entropy w).

Lemma get_live j w raw d :
  strs w !! job_key j = Some raw -> json_loads raw = Some (VDict d) ->
  is_sync_job_stale d (clock w) = false -> run (get_sync_job j) w = (Ok (Some d), w).
Proof.
  intros Hraw Hd Hs. unfold get_sync_job.
  rewrite run_bind, redis_get_run, Hraw, (json_truthy _ _ Hd). cbn [negb]. rewrite Hd.
  rewrite run_bind, time_run. cbv beta iota. by rewrite Hs.
Qed.

(** A pending retry survives every poll.  After a live job was put back in
    the queue for its next attempt, a status read at any later time returns it
    still queued, with its attempt number, and writes nothing: polling cannot
    turn a retry that waits for its backoff into a failure. *)
Theorem requeued_job_survives_polling j attempt error raw d w w' t :
  strs w !! job_key j = Some raw -> json_loads raw = Some (VDict d) ->
  is_terminal d = false -> has_time (VDict d) = false ->
  (run (mark_job_queued_for_retry j attempt error) w).2 = w' ->
  exists job, run (get_sync_job j) (at_time t w') = (Ok (Some job), at_time t w') /\
    dict_get "status" job = VStr "queued" /\ dict_get "attempt" job = VInt attempt /\
    dict_get "last_error" job = VStr error.
Proof.
  intros Hraw Hd Ht Htd Hw. unfold mark_job_queued_for_retry in Hw.
  rewrite (update_live j w raw d Hraw Hd) in Hw by done. simpl in Hw. subst w'.
  eexists. split.
  - eapply get_live; [apply lookup_insert_eq|reflexivity|].
    unfold is_sync_job_stale, stale_threshold.
    rewrite !(updated_get "status" _ _ _ (VStr "queued")) by reflexivity.
    rewrite (updated_get "attempt" _ _ _ (VInt attempt)) by reflexivity.
    by rewrite andb_false_r.
  - split_and!; by apply updated_get.
Qed.

Lemma queued_not_stale d now mode t :
  dict_get "status" d = VStr "queued" -> dict_get "dispatch_mode" d = mode ->
  dict_get "updated_at" d = VFloat now -> dict_get "created_at" d = VFloat now ->
  mode <> VStr "cloud_tasks" \/ (t - now <= inject_Z QUEUED_DISPATCH_STALE_SECONDS)%Q ->
  is_sync_job_stale d t = false.
Proof.
  intros Hst Hm Hu Hc Hor. unfold is_sync_job_stale, stale_threshold. rewrite Hst, Hm, Hu, Hc.
  unfold py_or. change (v_is (VStr "queued") "processing") with false. cbv iota.
  destruct (v_is (VStr "queued") "queued" && v_is mode "cloud_tasks" && _ && _) eqn:E; [|done].
  apply andb_true_iff in E as [[[_ E%v_is_true]%andb_true_iff _]%andb_true_iff _].
  destruct Hor as [|Hle]; [done|].
  destruct (truthy (VFloat now)); cbn [num_of]; apply negb_false_iff; by apply Qle_bool_iff.
Qed.

(** A job that was just created is readable: a status read returns exactly
    the record the creation returned and writes nothing, at any later time for
    an inline job and within the dispatch bound of thirty minutes for one
    handed to Cloud Tasks. *)
Theorem created_job_is_readable uid files segs j lane trust age content mode fence w t :
  mode <> "cloud_tasks" \/ (t - clock w <= inject_Z QUEUED_DISPATCH_STALE_SECONDS)%Q ->
  exists job w',
    run (create_sync_job uid files segs (Some j) lane trust age content mode fence) w =
      (Ok job, w') /\
    run (get_sync_job j) (at_time t w') = (Ok (Some job), at_time t w') /\
    ttls w' !! job_key j = Some JOB_TTL_SECONDS /\
    dict_get "uid" job = VStr uid /\ dict_get "status" job = VStr "queued".
Proof.
  intros Hmode. eexists _, _. split.
  { unfold create_sync_job. rewrite run_bind. cbn [run mret prog_ret].
    rewrite run_bind, time_run. cbv beta iota. rewrite run_bind, raise_run.
    unfold json_dumps. rewrite has_time_dict. destruct age, content; reflexivity. }
  split; [|split; [apply lookup_insert_eq|done]].
  eapply get_live; [apply lookup_insert_eq|reflexivity|].
  eapply queued_not_stale; [reflexivity..|].
  destruct Hmode as [Hm|]; [left|by right]. intros [= E].
  by destruct (bool_decide (mode = "inline") || _).
Qed.

(** ** Concrete runs *)

(** A job as [create_sync_job] and [mark_job_processing] leave it. *)
Definition sample_job (status mode : string) (started : value) : dict :=
  [("job_id", VStr "j"); ("uid", VStr "u"); ("status", VStr status); ("created_at", VFloat 0);
   ("started_at", started); ("updated_at", VFloat 0); ("dispatch_mode", VStr mode)].

Definition sample_world (job : dict) (lock : option string) (counter : Z) (now : Q) : world :=
  World ({[job_key "j" := JsonText true (VDict job); epoch_key "j" := counter_text counter]}
         ∪ match lock with Some t => {[lock_key "j" := text t]} | None => ∅ end)
    ∅ ∅ now "uuid".

Definition processing_job : dict := sample_job "processing" "cloud_tasks" (VFloat 0).

Definition sample_result (failed : Z) : dict :=
  [("total_segments", VInt 4); ("failed_segments", VInt failed);
   ("errors", VList [VStr "upstream"])].

Definition status_of (j : string) (w : world) : value :=
  match strs w !! job_key j with
  | Some raw => match json_loads raw with Some (VDict d) => dict_get "status" d | _ => VNone end
  | None => VNone
  end.

Lemma terminal_job_is_final_witness :
  let w := sample_world (sample_job "completed" "inline" VNone) (Some "2:uuid") 2 700 in
  let ts := mutator_prog <$> [MFailed "j" "late" None None;
              MFenced "j" "2:uuid" (FFinalize (sample_result 4) None); MAcquire "j"] in
  match schedule [0; 1; 1; 2; 0; 2]%nat (w, ts) with
  | Some (w', _) =>
      strs w' !! job_key "j" = strs w !! job_key "j" \/ strs w' !! job_key "j" = None
  | None => False
  end.
Proof.
  intros w ts. destruct (schedule [0; 1; 1; 2; 0; 2]%nat (w, ts)) as [[w' ts']|] eqn:E;
    [|vm_compute in E; discriminate E].
  apply (terminal_job_is_final "j" (JsonText true (VDict (sample_job "completed" "inline" VNone)))
    [MFailed "j" "late" None None; MFenced "j" "2:uuid" (FFinalize (sample_result 4) None);
     MAcquire "j"] w w' ts' eq_refl eq_refl).
  exact (schedule_rtc _ _ _ E).
Defined.

Lemma lost_lease_is_fenced_witness :
  let w := sample_world processing_job None 2 700 in
  let ts := mutator_prog <$> [MAcquire "j"] in
  match schedule [0; 0]%nat (w, ts) with
  | Some (w', _) =>
      strs w' !! lock_key "j" = Some (text "3:uuid") /\
      (run (fenced_finalize_sync_job "j" "2:uuid" (sample_result 0) None) w').2 = w'
  | None => False
  end.
Proof.
  intros w ts. destruct (schedule [0; 0]%nat (w, ts)) as [[w' ts']|] eqn:E;
    [|vm_compute in E; discriminate E].
  split; [vm_compute in E; injection E as <- _; reflexivity|].
  apply (proj1 (proj2 (lost_lease_is_fenced "j" "2:uuid" [MAcquire "j"] w w' ts'
    ltac:(repeat split; vm_compute; congruence) (schedule_rtc _ _ _ E))
    (FFinalize (sample_result 0) None))).
Defined.

Lemma later_lease_has_greater_epoch_witness :
  get_sync_job_run_lock_epoch "3:uuid" < get_sync_job_run_lock_epoch "4:uuid".
Proof.
  set (w := sample_world processing_job None 2 700).
  set (w1 := (run (try_acquire_sync_job_run_lock "j") w).2).
  set (ts := mutator_prog <$> [MRelease "j" "3:uuid"]).
  destruct (schedule [0]%nat (w1, ts)) as [[w2 ts2]|] eqn:E; [|vm_compute in E; discriminate E].
  apply (later_lease_has_greater_epoch "j" "3:uuid" "4:uuid" [MRelease "j" "3:uuid"] w w1 w2
    (run (try_acquire_sync_job_run_lock "j") w2).2 ts2).
  - vm_compute. discriminate.
  - reflexivity.
  - vm_compute. reflexivity.
  - exact (schedule_rtc _ _ _ E).
  - vm_compute in E. injection E as <- _. vm_compute. reflexivity.
Defined.

Lemma finalization_is_truthful_witness :
  exists job, finalized_truthfully job (sample_result 1) 4 1 ["upstream"].
Proof.
  destruct (finalization_is_truthful "j" "2:uuid"
    (JsonText true (VDict processing_job)) processing_job (sample_result 1) 4 1 ["upstream"]
    (sample_world processing_job (Some "2:uuid") 2 700)) as (job & Hjob & _);
    [reflexivity..| |by exists job].
  split; [reflexivity..|lia|reflexivity].
Defined.

Lemma requeued_job_survives_polling_witness :
  exists job, dict_get "status" job = VStr "queued" /\ dict_get "attempt" job = VInt 2.
Proof.
  destruct (requeued_job_survives_polling "j" 2 "timeout"
    (JsonText true (VDict processing_job)) processing_job
    (sample_world processing_job None 2 100) _ 90000 eq_refl eq_refl eq_refl eq_refl eq_refl)
    as (job & _ & Hs & Ha & _). by exists job.
Defined.

Lemma created_job_is_readable_witness :
  exists job, dict_get "uid" job = VStr "u" /\ dict_get "status" job = VStr "queued".
Proof.
  destruct (created_job_is_readable "u" 1 4 "j" "fresh" "legacy" None None "cloud_tasks" "legacy"
    (sample_world [] None 0 100) 1000) as (job & w' & _ & _ & _ & Hu & Hs);
    [right; vm_compute; discriminate|by exists job].
Defined.

(** ** What a status read can do to a finished job

    The read that finds a silent job writes the failure without comparing, so
    it overwrites what a worker published between its read and its write. *)

(** A poll can undo a completion.  There is an interleaving of a status
    read and a worker's finalization in which the job is first recorded as
    completed and then, by the read alone, as failed. *)
Theorem stale_read_overwrites_completion :
  exists w1 ts1 w2 ts2,
    rtc step
      (sample_world processing_job None 2 700,
       [forget (get_sync_job "j"); forget (finalize_sync_job "j" (sample_result 0))])
      (w1, ts1) /\
    status_of "j" w1 = VStr "completed" /\
    rtc step (w1, ts1) (w2, ts2) /\
    status_of "j" w2 = VStr "failed".
Proof.
  set (x := (sample_world processing_job None 2 700,
    [forget (get_sync_job "j"); forget (finalize_sync_job "j" (sample_result 0))])).
  destruct (schedule [0; 0; 0; 1; 1; 1; 1]%nat x) as [[w1 ts1]|] eqn:E1;
    [|vm_compute in E1; discriminate E1].
  destruct (schedule [0]%nat (w1, ts1)) as [[w2 ts2]|] eqn:E2.
  - exists w1, ts1, w2, ts2. split; [exact (schedule_rtc _ _ _ E1)|].
    vm_compute in E1. injection E1 as <- <-. split; [reflexivity|].
    split; [exact (schedule_rtc _ _ _ E2)|]. vm_compute in E2. injection E2 as <- <-. reflexivity.
  - vm_compute in E1. injection E1 as <- <-. vm_compute in E2. discriminate E2.
Qed.

(** The jobs a read fails: silent for more than ten minutes while processing,
    or for more than thirty while queued at Cloud Tasks with no attempt begun. *)
Lemma stale_jobs d now at_ :
  dict_get "updated_at" d = VFloat at_ -> ~ (at_ == 0)%Q ->
  is_sync_job_stale d now = true <->
  (dict_get "status" d = VStr "processing" /\ (inject_Z 600 < now - at_)%Q) \/
  (dict_get "status" d = VStr "queued" /\ dict_get "dispatch_mode" d = VStr "cloud_tasks" /\
   dict_get "started_at" d = VNone /\ dict_get "attempt" d = VNone /\
   (inject_Z 1800 < now - at_)%Q).
Proof.
  intros Hu Hne. unfold is_sync_job_stale, stale_threshold. rewrite Hu.
  assert (Ht : truthy (VFloat at_) = true).
  { simpl. apply negb_true_iff, not_true_iff_false. by rewrite Qeq_bool_iff. }
  unfold py_or. rewrite Ht. cbn [num_of].
  assert (Hlt : forall z, negb (Qle_bool (now - at_) (inject_Z z)) = true <->
                          (inject_Z z < now - at_)%Q).
  { intros z. rewrite negb_true_iff, <-not_true_iff_false, Qle_bool_iff. split; [apply Qnot_le_lt|apply Qlt_not_le]. }
  destruct (v_is (dict_get "status" d) "processing") eqn:Ep.
  - apply v_is_true in Ep. rewrite Ep, Hlt. unfold STALE_THRESHOLD_SECONDS.
    split; [auto|intros [[_ ?]|[? _]]; [done|discriminate]].
  - apply v_is_false in Ep.
    destruct (_ && _ && _ && _) eqn:Eq.
    + rewrite !andb_true_iff, !v_is_true, !is_none_true in Eq. rewrite Hlt.
      unfold QUEUED_DISPATCH_STALE_SECONDS. naive_solver.
    + split; [done|]. intros [[? _]|(H1 & H2 & H3 & H4 & _)]; [done|].
      by rewrite H1, H2, H3, H4 in Eq.
Qed.

(** A status read finishes a dead job: one that is processing and silent
    for more than ten minutes, or that waits at Cloud Tasks unstarted for more
    than thirty, is stored and returned as failed with a timeout error, its
    other fields kept; every other readable job is returned as it is and
    nothing is written. *)
Theorem read_fails_exactly_the_dead_jobs j raw d at_ w :
  strs w !! job_key j = Some raw -> json_loads raw = Some (VDict d) ->
  has_time (VDict d) = false ->
  dict_get "updated_at" d = VFloat at_ -> ~ (at_ == 0)%Q ->
  let dead := (dict_get "status" d = VStr "processing" /\ (inject_Z 600 < clock w - at_)%Q) \/
    (dict_get "status" d = VStr "queued" /\ dict_get "dispatch_mode" d = VStr "cloud_tasks" /\
     dict_get "started_at" d = VNone /\ dict_get "attempt" d = VNone /\
     (inject_Z 1800 < clock w - at_)%Q) in
  (dead -> exists job,
     run (get_sync_job j) w =
       (Ok (Some job),
        set_str (job_key j) (JsonText false (VDict job)) (Some JOB_TTL_SECONDS) w) /\
     dict_get "status" job = VStr "failed" /\ is_terminal job = true /\
     forall k, k ∉ ["status"; "error"; "completed_at"] -> dict_get k job = dict_get k d) /\
  (~ dead -> run (get_sync_job j) w = (Ok (Some d), w)).
Proof.
  intros Hraw Hd Ht Hu Hne dead. pose proof (stale_jobs d (clock w) at_ Hu Hne) as Hiff.
  fold dead in Hiff. split; intros Hdead.
  - apply Hiff in Hdead.
    set (job := dict_update d [("status", VStr "failed");
      ("error", VStr "Job timed out (background worker likely died)");
      ("completed_at", VFloat (clock w))]).
    assert (Hjt : has_time (VDict job) = false) by (by apply has_time_update).
    assert (Hst : dict_get "status" job = VStr "failed").
    { unfold job, dict_get. by rewrite dict_lookup_update. }
    exists job. split_and!; [|done|unfold is_terminal; by rewrite Hst|].
    + unfold get_sync_job. rewrite run_bind, redis_get_run, Hraw, (json_truthy _ _ Hd).
      cbn [negb]. rewrite Hd, run_bind, time_run. cbv beta iota. rewrite Hdead.
      rewrite run_bind, time_run. cbv beta iota. fold job.
      rewrite run_bind, raise_run. unfold json_dumps. by rewrite Hjt.
    + intros k Hk. unfold job, dict_get. rewrite dict_lookup_update. simpl.
      rewrite !decide_False; [done|set_solver..].
  - apply (get_live _ _ raw); [done|done|]. apply not_true_is_false. by rewrite Hiff.
Qed.

Definition waiting_job : dict :=
  dict_set "updated_at" (VFloat 100) (sample_job "queued" "cloud_tasks" VNone).

Lemma read_fails_exactly_the_dead_jobs_witness :
  exists job, dict_get "status" waiting_job = VStr "queued" /\
    dict_get "status" job = VStr "failed" /\
    strs (run (get_sync_job "j") (sample_world waiting_job None 0 2000)).2 !! job_key "j" =
      Some (JsonText false (VDict job)).
Proof.
  destruct (read_fails_exactly_the_dead_jobs "j" (JsonText true (VDict waiting_job)) waiting_job
    100 (sample_world waiting_job None 0 2000)) as [H _]; [reflexivity..|by vm_compute|].
  destruct H as (job & Hrun & Hs & _); [right; split_and!; [reflexivity..|by vm_compute]|].
  exists job. split; [reflexivity|]. split; [exact Hs|]. rewrite Hrun. apply lookup_insert_eq.
Defined.
