(* ===== verification/Sha256.v ===== *)
(** * hashlib.sha256 and the identifiers derived from it

    FIPS 180-4 over lists of byte values, and the two uses the backend makes of
    a digest: a UUIDv4-shaped document identifier
    (backend/database/document_ids.py) and a hexadecimal text.  Strings are
    their UTF-8 bytes. *)

From S2P Require Import Prelude PyValue.
From Stdlib Require Import Ascii.
Local Open Scope Z_scope.

Definition mask32 : Z := 4294967295.
Definition add32 (a b : Z) : Z := Z.land (a + b) mask32.
Definition rotr (n x : Z) : Z :=
  Z.land (Z.lor (Z.shiftr x n) (Z.shiftl x (32 - n))) mask32.

(** The constants of the standard, computed from its definition of them: the
    first 32 bits of the fractional parts of the cube roots of the first 64
    primes, and of the square roots of the first 8. *)
Definition primes : list Z :=
  filter (fun p => Is_true (forallb (fun d => negb (p mod d =? 0)) (seqZ 2 (p - 2)))) (seqZ 2 310).

(** The greatest [r] below [2 ^ bits] with [r * r * r <= n]. *)
Fixpoint cube_root (bits : nat) (r n : Z) : Z :=
  match bits with
  | O => r
  | S b =>
      let r' := r + 2 ^ Z.of_nat b in
      cube_root b (if r' * r' * r' <=? n then r' else r) n
  end.

Definition sha_k : list Z := Eval vm_compute in
  (fun p => cube_root 36 0 (p * 2 ^ 96) mod 2 ^ 32) <$> primes.

Definition sha_init : list Z := Eval vm_compute in
  (fun p => Z.sqrt (p * 2 ^ 64) mod 2 ^ 32) <$> take 8 primes.

Definition be_bytes (n : nat) (x : Z) : list Z :=
  (fun i => Z.land (Z.shiftr x (8 * Z.of_nat i)) 255) <$> rev (seq 0 n).

(** [int.from_bytes(l, 'big')] *)
Definition from_be (l : list Z) : Z := foldl (fun a b => 256 * a + b) 0 l.

Definition sha_pad (msg : list Z) : list Z :=
  let len := Z.of_nat (length msg) in
  msg ++ [128] ++ repeat 0 (Z.to_nat ((55 - len) mod 64)) ++ be_bytes 8 (8 * len).

(** The message schedule, the newest word first. *)
Definition sha_next (w : list Z) : Z :=
  let s0 x := Z.lxor (Z.lxor (rotr 7 x) (rotr 18 x)) (Z.shiftr x 3) in
  let s1 x := Z.lxor (Z.lxor (rotr 17 x) (rotr 19 x)) (Z.shiftr x 10) in
  add32 (add32 (nth 15 w 0) (s0 (nth 14 w 0))) (add32 (nth 6 w 0) (s1 (nth 1 w 0))).

Definition sha_schedule (block : list Z) : list Z :=
  rev (Nat.iter 48 (fun w => sha_next w :: w) (rev block)).

Definition sha_round (st : list Z) (kw : Z * Z) : list Z :=
  match st with
  | [a; b; c; d; e; f; g; h] =>
      let s1 := Z.lxor (Z.lxor (rotr 6 e) (rotr 11 e)) (rotr 25 e) in
      let ch := Z.lxor (Z.land e f) (Z.land (Z.lxor e mask32) g) in
      let t1 := add32 (add32 h s1) (add32 ch (add32 kw.1 kw.2)) in
      let s0 := Z.lxor (Z.lxor (rotr 2 a) (rotr 13 a)) (rotr 22 a) in
      let maj := Z.lxor (Z.lxor (Z.land a b) (Z.land a c)) (Z.land b c) in
      [add32 t1 (add32 s0 maj); a; b; c; add32 d t1; e; f; g]
  | _ => st
  end.

Definition sha_block (st : list Z) (block : list Z) : list Z :=
  zip_with add32 st (foldl sha_round st (zip sha_k (sha_schedule block))).

Fixpoint chunks (fuel n : nat) (l : list Z) : list (list Z) :=
  match fuel, l with
  | S fuel', _ :: _ => take n l :: chunks fuel' n (drop n l)
  | _, _ => []
  end.

Definition sha256 (msg : list Z) : list Z :=
  let padded := sha_pad msg in
  let words := from_be <$> chunks (length padded) 4 padded in
  mbind (be_bytes 4) (foldl sha_block sha_init (chunks (length words) 16 words)).

(** ** Texts *)

(** [s.encode('utf-8')] *)
Definition encode (s : string) : list Z :=
  (fun c => Z.of_N (N_of_ascii c)) <$> String.list_ascii_of_string s.

Definition hex_digit (n : Z) : ascii :=
  ascii_of_N (Z.to_N (if n <? 10 then 48 + n else 87 + n)).

Definition hex_byte (b : Z) : list ascii := [hex_digit (b / 16); hex_digit (b mod 16)].

(** [.hexdigest()] *)
Definition hexdigest (l : list Z) : string :=
  String.string_of_list_ascii (mbind hex_byte l).

(** [str(uuid.UUID(bytes=l, version=4))] for sixteen bytes: byte 6 takes the
    version, byte 8 the RFC 4122 variant. *)
Definition uuid_text (l : list Z) : string :=
  let l := (fun '(i, b) =>
              if (i =? 6)%nat then Z.lor 64 (Z.land b 15)
              else if (i =? 8)%nat then Z.lor 128 (Z.land b 63)
              else b) <$> zip (seq 0 16) l in
  let part a n := hexdigest (take n (drop a l)) in
  part 0%nat 4%nat +:+ "-" +:+ part 4%nat 2%nat +:+ "-" +:+ part 6%nat 2%nat +:+ "-"
  +:+ part 8%nat 2%nat +:+ "-" +:+ part 10%nat 6%nat.

(** backend/database/document_ids.py *)
Definition document_id_from_seed (seed : string) : string :=
  uuid_text (take 16 (sha256 (encode seed))).

Definition system_folder_doc_id (uid category_mapping : string) : string :=
  document_id_from_seed ("user:" +:+ uid +:+ ":system_folder:" +:+ category_mapping).

Definition calendar_meeting_doc_id (uid calendar_source calendar_event_id : string) : string :=
  document_id_from_seed
    ("user:" +:+ uid +:+ ":calendar_meeting:" +:+ calendar_source +:+ ":" +:+ calendar_event_id).

Example sha256_abc :
  hexdigest (sha256 (encode "abc")) =
  "ba7816bf8f01cfea414140de5dae2223b00361a396177a9cb410ff61f20015ad"%string.
Proof. vm_compute. reflexivity. Qed.

Example sha256_two_blocks :
  hexdigest (sha256 (encode "abcdbcdecdefdefgefghfghighijhijkijkljklmklmnlmnomnopnopq")) =
  "248d6a61d20638b8e5c026930c3e6039a33ce45964ff2167f6ecedd419db06c1"%string.
Proof. vm_compute. reflexivity. Qed.
