(* ===== verification/FinalizationDecision.v ===== *)
(** * The finalization reducer
    (backend/utils/conversations/finalization_decision.py) and its admission
    decision (backend/utils/conversations/lifecycle.py)

    The reducer moves one lifecycle generation through its phases; the
    admission runs it on the conversation document that a transaction read. *)

From S2P Require Import Prelude PyValue Firestore.
From stdpp Require Import pretty.
Local Open Scope Z_scope.

Inductive LifecyclePhase :=
| IN_PROGRESS | PROCESSING | MERGING | COMPLETED | FAILED | DISCARDED.

Inductive FinalizationEvent :=
| DISCONNECT | FINALIZE | REPROCESS | MERGE | MERGE_COMPLETED | PROCESSING_COMPLETED
| DISCARD | RESTART.

#[global] Instance phase_eq_dec : EqDecision LifecyclePhase.
Proof. solve_decision. Defined.
#[global] Instance event_eq_dec : EqDecision FinalizationEvent.
Proof. solve_decision. Defined.

Definition TERMINAL_PHASES : list LifecyclePhase := [COMPLETED; FAILED; DISCARDED].

Record FinalizationDecisionState := DecisionState {
  phase : LifecyclePhase;
  terminal_outcome : option LifecyclePhase;
  emitted_fanout_keys : gset string
}.

Definition is_terminal (s : FinalizationDecisionState) : bool :=
  bool_decide (phase s ∈ TERMINAL_PHASES).

Record FinalizationDecision := Decision_ {
  state : FinalizationDecisionState;
  fanout_key : option string;
  reason : string
}.

Definition _terminal (s : FinalizationDecisionState) (p : LifecyclePhase)
    : FinalizationDecisionState :=
  match terminal_outcome s with
  | Some _ => s
  | None => DecisionState p (Some p) (emitted_fanout_keys s)
  end.

(** [key or default] for an optional string. *)
Definition str_or (o : option string) (d : string) : string :=
  match o with
  | Some k => if decide (k = "") then d else k
  | None => d
  end.

Definition _admit_finalization (s : FinalizationDecisionState) (conversation_id : string)
    (fk : option string) : FinalizationDecision :=
  let key := str_or fk ("conversation:" +:+ conversation_id +:+ ":finalization") in
  if decide (key ∈ emitted_fanout_keys s)
  then Decision_ s None "duplicate_finalization"
  else Decision_ (DecisionState PROCESSING None (emitted_fanout_keys s ∪ ({[key]} : gset string)))
         (Some key) "accepted".

Definition decide_finalization (s : FinalizationDecisionState) (event : FinalizationEvent)
    (conversation_id : string) (fk : option string) : FinalizationDecision :=
  if is_terminal s then Decision_ s None "terminal"
  else if bool_decide (event ∈ [DISCONNECT; FINALIZE]) then
    if decide (phase s = IN_PROGRESS) then _admit_finalization s conversation_id fk
    else Decision_ s None "already_finalizing"
  else if bool_decide (event = PROCESSING_COMPLETED /\ phase s = PROCESSING) then
    Decision_ (_terminal s COMPLETED) None "accepted"
  else if bool_decide (event = DISCARD /\ phase s ∈ [IN_PROGRESS; PROCESSING; MERGING]) then
    Decision_ (_terminal s DISCARDED) None "accepted"
  else if bool_decide (event = MERGE /\ phase s = IN_PROGRESS) then
    Decision_ (DecisionState MERGING None (emitted_fanout_keys s)) None "accepted"
  else if bool_decide (event = MERGE_COMPLETED /\ phase s = MERGING) then
    Decision_ (_terminal s COMPLETED) None "accepted"
  else if decide (event = RESTART) then Decision_ s None "restart_replays_state"
  else if decide (event = REPROCESS) then Decision_ s None "reprocess_requires_new_generation"
  else Decision_ s None "invalid_transition".

(** ** Admission on a conversation document *)
Record FinalizationAdmission := Admission {
  accepted : bool;
  terminal : bool;
  admission_reason : string;
  admission_fanout_key : option string
}.

(** [int(d.get(k) or 0)] *)
Definition get_int (d : fields) (k : string) (dflt : Z) : res Z :=
  py_int (py_or (doc_get d k) (VInt dflt)).

Definition generation_fanout_key (conversation_id : string) (revision : Z) : string :=
  "conversation:" +:+ conversation_id +:+ ":finalization:" +:+ pretty revision.

Definition fresh_state : FinalizationDecisionState := DecisionState IN_PROGRESS None ∅.

Definition _finalization_decision_state (conversation : fields) (conversation_id : string)
    : res FinalizationDecisionState :=
  if truthy (doc_get conversation "discarded")
  then Ok (DecisionState DISCARDED (Some DISCARDED) ∅)
  else
    status ← py_str (py_or (doc_get conversation "status") (VStr "in_progress"));
    r ← get_int conversation "finalization_revision" 0;
    let fk := generation_fanout_key conversation_id (r + 1) in
    if decide (status = "completed") then Ok (DecisionState COMPLETED (Some COMPLETED) ∅)
    else if decide (status = "failed") then Ok (DecisionState FAILED (Some FAILED) ∅)
    else if decide (status = "processing") then Ok (DecisionState PROCESSING None {[fk]})
    else Ok fresh_state.

Definition _finalization_admission (conversation : fields) (conversation_id : string)
    : res FinalizationAdmission :=
  r ← get_int conversation "finalization_revision" 0;
  let fk := generation_fanout_key conversation_id (r + 1) in
  s ← _finalization_decision_state conversation conversation_id;
  let decision := decide_finalization s FINALIZE conversation_id (Some fk) in
  Ok (Admission (if fanout_key decision is Some _ then true else false)
        (bool_decide (reason decision = "terminal")) (reason decision) (fanout_key decision)).

(** ** Runs of the reducer *)
Definition decide_step (conversation_id : string) (fk : option string)
    (x : FinalizationDecisionState * list string) (event : FinalizationEvent)
    : FinalizationDecisionState * list string :=
  let d := decide_finalization x.1 event conversation_id fk in
  (state d, x.2 ++ match fanout_key d with Some k => [k] | None => [] end).

Definition decide_run (conversation_id : string) (fk : option string)
    (s : FinalizationDecisionState) (events : list FinalizationEvent)
    : FinalizationDecisionState * list string :=
  foldl (decide_step conversation_id fk) (s, []) events.

(** The states of one generation: the terminal outcome is the phase of a
    terminal state, and absent otherwise. *)
Definition decision_wf (s : FinalizationDecisionState) : Prop :=
  terminal_outcome s = if is_terminal s then Some (phase s) else None.

(** The transitions, phase by phase. *)
Lemma decide_cases s e c fk :
  decision_wf s ->
  let d := decide_finalization s e c fk in
  (fanout_key d = None /\ emitted_fanout_keys (state d) = emitted_fanout_keys s /\
    (is_terminal s = true -> state d = s) /\ decision_wf (state d) /\
    (phase s <> IN_PROGRESS -> phase (state d) <> IN_PROGRESS)) \/
  (phase s = IN_PROGRESS /\
    exists k, fanout_key d = Some k /\ (k ∉ emitted_fanout_keys s) /\
      state d = DecisionState PROCESSING None (emitted_fanout_keys s ∪ ({[k]} : gset string))).
Proof.
  intros Hs. destruct s as [p o ks]. unfold decision_wf in Hs. simpl in Hs.
  destruct p; vm_compute in Hs; subst o; destruct e;
    cbn -[union singleton elem_of decide _admit_finalization is_terminal];
    try (left; split_and!; done);
    unfold decide_finalization; simpl; unfold _admit_finalization; simpl;
    (destruct (decide (_ ∈ ks)); [left; split_and!; done|right; split; [done|]; by eexists]).
Qed.

Lemma decide_run_snoc c fk s es e :
  decide_run c fk s (es ++ [e]) = decide_step c fk (decide_run c fk s es) e.
Proof. unfold decide_run. by rewrite foldl_app. Qed.

(** One generation, one fanout.  Whatever lifecycle events arrive, in any
    order and number (duplicate finalizations, reclaimed workers, restarts,
    late disconnects), a generation emits at most one fanout key; the key is
    new and is remembered in the state; and once a generation is completed,
    failed or discarded no event changes its state or emits a key. *)
Theorem generation_emits_one_fanout_key c fk s es :
  decision_wf s ->
  let '(s', keys) := decide_run c fk s es in
  decision_wf s' /\
  (length keys <= 1)%nat /\
  (forall k, k ∈ keys -> (k ∉ emitted_fanout_keys s) /\ phase s = IN_PROGRESS) /\
  emitted_fanout_keys s' = emitted_fanout_keys s ∪ list_to_set keys /\
  (is_terminal s = true -> s' = s /\ keys = []).
Proof.
  intros Hs.
  assert (let x := decide_run c fk s es in
    decision_wf x.1 /\ (phase x.1 = IN_PROGRESS -> x.2 = []) /\
    (phase s <> IN_PROGRESS -> x.2 = [] /\ phase x.1 <> IN_PROGRESS) /\
    (length x.2 <= 1)%nat /\ (forall k, k ∈ x.2 -> k ∉ emitted_fanout_keys s) /\
    emitted_fanout_keys x.1 = emitted_fanout_keys s ∪ list_to_set x.2 /\
    (is_terminal s = true -> x = (s, []))) as H.
  { induction es as [|e es IH] using rev_ind.
    { unfold decide_run. simpl. split_and!; [done|done|done|lia|set_solver|set_solver|done]. }
    rewrite decide_run_snoc. cbv zeta in IH |- *.
    destruct (decide_run c fk s es) as [s1 keys]. cbn [fst snd] in IH.
    destruct IH as (Hw & Hp & Hpp & Hl & Hk & He & Ht). unfold decide_step. cbn [fst snd].
    destruct (decide_cases s1 e c fk Hw) as [(Hf & Hem & Hter & Hw' & Hph)|
      (Hip & k & Hf & Hnew & Hst)].
    - rewrite Hf, app_nil_r, Hem. split_and!; auto.
      + intros HP. apply Hp. destruct (decide (phase s1 = IN_PROGRESS)); naive_solver.
      + intros HP. destruct (Hpp HP). auto.
      + intros Hterm. specialize (Ht Hterm). simplify_eq. by rewrite Hter.
    - rewrite Hf, Hst, (Hp Hip). rewrite (Hp Hip) in He. simpl in He |- *.
      split_and!;
        [done|done|intros HP; by destruct (Hpp HP)|lia|set_solver|set_solver|].
      intros Hterm. specialize (Ht Hterm). simplify_eq. unfold is_terminal in Hterm.
      by rewrite Hip in Hterm. }
  destruct (decide_run c fk s es) as [s' keys]. cbn in H.
  destruct H as (Hw & _ & Hpp & Hl & Hk & He & Ht). split_and!; [done|done| |done|].
  - intros k Hin. split; [by apply Hk|]. destruct (decide (phase s = IN_PROGRESS)) as [|HP];
      [done|]. destruct (Hpp HP) as [-> _]. by apply not_elem_of_nil in Hin.
  - intros Hterm. specialize (Ht Hterm). by simplify_eq.
Qed.

Lemma generation_emits_one_fanout_key_witness :
  let '(s', keys) := decide_run "c" None fresh_state
    [DISCONNECT; FINALIZE; RESTART; PROCESSING_COMPLETED; FINALIZE] in
  keys = ["conversation:c:finalization"] /\ phase s' = COMPLETED /\
  (length keys <= 1)%nat.
Proof.
  split; [reflexivity|]. split; [reflexivity|].
  exact (proj1 (proj2 (generation_emits_one_fanout_key "c" None fresh_state
    [DISCONNECT; FINALIZE; RESTART; PROCESSING_COMPLETED; FINALIZE] eq_refl))).
Defined.

Lemma admit_fresh c k :
  k <> "" ->
  _admit_finalization fresh_state c (Some k) =
  Decision_ (DecisionState PROCESSING None (∅ ∪ {[k]})) (Some k) "accepted".
Proof.
  intros Hk. unfold _admit_finalization, str_or. rewrite decide_False by done.
  cbn [emitted_fanout_keys fresh_state]. rewrite decide_False by set_solver. done.
Qed.

(** Finalization admission of a conversation document: it is accepted, with
    the fanout key of the next revision, exactly when the conversation is not
    discarded and its status is none of completed, failed and processing; a
    processing one is refused as already finalizing and a discarded, completed
    or failed one is refused as terminal. *)
Theorem finalization_admission_spec conversation c status revision :
  doc_get conversation "status" = VStr status -> status <> "" ->
  get_int conversation "finalization_revision" 0 = Ok revision ->
  let key := generation_fanout_key c (revision + 1) in
  let discarded := truthy (doc_get conversation "discarded") in
  _finalization_admission conversation c =
    if discarded || bool_decide (status = "completed") || bool_decide (status = "failed")
    then Ok (Admission false true "terminal" None)
    else if bool_decide (status = "processing")
    then Ok (Admission false false "already_finalizing" None)
    else Ok (Admission true false "accepted" (Some key)).
Proof.
  intros Hst Hne Hr key discarded. unfold _finalization_admission, _finalization_decision_state.
  rewrite Hr. cbn [mbind res_bind]. fold discarded. fold key.
  destruct discarded; [reflexivity|]. rewrite Hst. unfold py_or. cbn [truthy].
  rewrite bool_decide_eq_false_2 by done. cbn [negb py_str mbind res_bind].
  fold key.
  destruct (decide (status = "completed")) as [-> |N1]; [reflexivity|].
  destruct (decide (status = "failed")) as [-> |N2]; [reflexivity|].
  destruct (decide (status = "processing")) as [-> |N3]; [reflexivity|].
  rewrite !bool_decide_eq_false_2 by done. cbn [mbind res_bind orb].
  change (decide_finalization fresh_state FINALIZE c (Some key))
    with (_admit_finalization fresh_state c (Some key)).
  by rewrite admit_fresh.
Qed.

Lemma finalization_admission_spec_witness :
  _finalization_admission {["status" := VStr "merging"; "finalization_revision" := VInt 2]} "c" =
  Ok (Admission true false "accepted" (Some "conversation:c:finalization:3")).
Proof.
  rewrite (finalization_admission_spec _ "c" "merging" 2); [reflexivity|reflexivity|done|reflexivity].
Defined.

(** The reducer refuses to finalize a merging generation, but the document of a
    merging conversation is admitted: its status is not one of those the
    decision state recognises. *)
Lemma merging_conversation_is_admitted c :
  reason (decide_finalization (DecisionState MERGING None ∅) FINALIZE c None)
    = "already_finalizing" /\
  exists a, _finalization_admission {["status" := VStr "merging"]} c = Ok a /\
    accepted a = true.
Proof.
  split; [reflexivity|]. eexists. split; [|].
  - rewrite (finalization_admission_spec _ c "merging" 0); [simpl; reflexivity|reflexivity|done|
      reflexivity].
  - reflexivity.
Qed.
