(* ===== verification/FinalizationJobs.v ===== *)
(** * Durable conversation finalization
    (backend/database/conversation_finalization_jobs.py)

    One job document per (user, conversation, revision) is the durable source
    of truth of a finalization; the transactions of this file admit it, lease
    it, deliver its fanout and end it, and keep one counter document per shard
    in step.  The process environment and the decoder of stored transcripts
    (zlib and the user's encryption) are parameters. *)

From S2P Require Import Prelude PyValue Firestore Sha256 FinalizationDecision.
From stdpp Require Import pretty.
Local Open Scope Z_scope.

Class FinalizationEnv := {
  getenv : string -> option string;
  _decode_transcript_segments_strict : string -> value -> bool -> res value
}.

Definition CONVERSATIONS_COLLECTION : string := "conversations".
Definition FINALIZATION_JOBS_COLLECTION : string := "conversation_finalization_jobs".
Definition FINALIZATION_PROJECTION_COLLECTION : string :=
  "conversation_finalization_projection_shards".
Definition FINALIZATION_PROJECTION_GENERATION : string := "terminal-outcomes-v1".
Definition FINALIZATION_PROJECTION_SHARD_COUNT : Z := 16.
Definition TERMINAL_JOB_STATUSES : list string := ["completed"; "dead_letter"].
Definition DEFAULT_LEASE_SECONDS : Z := 1500.
Definition DEFAULT_RECONCILE_STALE_SECONDS : Z := 300.
Definition DEFAULT_ORPHAN_RECONCILE_STALE_SECONDS : Z := 900.
Definition DEFAULT_BYOK_ABANDONED_AFTER_SECONDS : Z := 14 * 86400.
Definition BYOK_ABANDONED_FAILURE_CODE : string := "byok_session_abandoned".
Definition MEETING_RECEIPT_SCHEMA_VERSION : Z := 1.
Definition MEETING_RECEIPT_RECONCILE_AFTER : Z := seconds 600.

(** ** Results *)
Record FinalizationIntent := Intent {
  intent_job_id : option string;
  intent_status : string;
  intent_dispatch_generation : option Z;
  intent_requires_byok : bool;
  intent_fanout_key : option string;
  intent_created : bool
}.

Record FinalizationFanoutClaim := FanoutClaim {
  fanout_claim_status : string;
  fanout_claim_key : option string
}.

Record ByokAbandonment := Abandonment {
  abandonment_status : string;
  conversation_outcome : string
}.

Record FinalizationClaim := Claim {
  claim_status : string;
  claim_lease_epoch : option Z;
  claim_attempt_count : Z;
  claim_created_at : value
}.

(** ** Durations from the environment *)
Definition env_seconds `{!FinalizationEnv} (name : string) (dflt : Z) : Z :=
  match getenv name with
  | None => dflt
  | Some s => default dflt (parse_int s)
  end.

Definition get_finalization_reconcile_stale_after `{!FinalizationEnv} : res Z :=
  timedelta_seconds
    (Z.max 30 (env_seconds "LISTEN_FINALIZATION_RECONCILE_STALE_SECONDS"
                 DEFAULT_RECONCILE_STALE_SECONDS)).

Definition get_stale_processing_orphan_after `{!FinalizationEnv} : res Z :=
  timedelta_seconds
    (Z.min 86400 (Z.max 300 (env_seconds "LISTEN_FINALIZATION_ORPHAN_STALE_SECONDS"
                               DEFAULT_ORPHAN_RECONCILE_STALE_SECONDS))).

Definition get_byok_abandoned_after `{!FinalizationEnv} : res Z :=
  timedelta_seconds
    (Z.min (90 * 86400) (Z.max 86400 (env_seconds "LISTEN_FINALIZATION_BYOK_ABANDONED_SECONDS"
                                        DEFAULT_BYOK_ABANDONED_AFTER_SECONDS))).

(** ** References and identifiers *)
Definition _conversation_ref (uid conversation_id : string) : path :=
  ["users"; uid; CONVERSATIONS_COLLECTION; conversation_id].

Definition _uid_from_conversation_path (p : path) : option string :=
  match p with
  | [a; uid; b; _] =>
      if bool_decide (a = "users") && bool_decide (b = CONVERSATIONS_COLLECTION)
      then Some uid else None
  | _ => None
  end.

Definition _job_ref (job_id : string) : path := [FINALIZATION_JOBS_COLLECTION; job_id].

Definition _projection_shard (job_id : string) : Z :=
  from_be (take 4 (sha256 (encode job_id))) mod FINALIZATION_PROJECTION_SHARD_COUNT.

(** [f'{generation}-{shard:02d}'] for a shard of at most two digits. *)
Definition _projection_shard_id (generation : string) (shard : Z) : string :=
  generation +:+ "-" +:+ (if shard <? 10 then "0" else "") +:+ pretty shard.

Definition _projection_ref (shard : Z) : path :=
  [FINALIZATION_PROJECTION_COLLECTION;
   _projection_shard_id FINALIZATION_PROJECTION_GENERATION shard].

(** The shard of a job of the current generation ([isinstance(shard, int)] is
    true of booleans, whose numeric value is used). *)
Definition job_shard (job : fields) : option Z :=
  match doc_get job "projection_generation", doc_get job "projection_shard" with
  | VStr generation, (VInt _ | VBool _) as sv =>
      let shard := match sv with VInt z => z | VBool true => 1 | _ => 0 end in
      if bool_decide (generation = FINALIZATION_PROJECTION_GENERATION)
         && (0 <=? shard) && (shard <? FINALIZATION_PROJECTION_SHARD_COUNT)
      then Some shard else None
  | _, _ => None
  end.

Definition _projection_ref_for_job (job : fields) : option path := _projection_ref <$> job_shard job.

(** [record] says whether the caller passed the projection collection. *)
Definition _record_projection_delta (record : bool) (job : fields) (deltas : list (string * Z))
    : Txn unit :=
  if negb record then mret tt
  else
    match job_shard job with
    | None => mret tt
    | Some shard =>
        let incs := filter (fun kd : string * Z => kd.2 <> 0) deltas in
        match incs with
        | [] => mret tt
        | _ =>
            txn_merge (_projection_ref shard)
              ([("generation", FValue (VStr FINALIZATION_PROJECTION_GENERATION));
                ("shard", FValue (VInt shard))]
               ++ ((fun kd => (kd.1, FIncrement kd.2)) <$> incs))
        end
    end.

Definition _job_id (uid conversation_id : string) (revision : Z) : string :=
  document_id_from_seed
    ("listen-finalization:" +:+ uid +:+ ":" +:+ conversation_id +:+ ":" +:+ pretty revision).

(** [str(d.get(k) or default)] *)
Definition get_str (d : fields) (k : string) (dflt : string) : res string :=
  py_str (py_or (doc_get d k) (VStr dflt)).

Definition as_str (v : value) : option string := match v with VStr s => Some s | _ => None end.

(** A string that is not empty. *)
Definition as_id (v : value) : option string :=
  match v with VStr s => if decide (s = "") then None else Some s | _ => None end.

Definition _intent_from_job (job_id : string) (data : fields) (created : bool)
    : res FinalizationIntent :=
  status ← get_str data "status" "queued";
  generation ← get_int data "dispatch_generation" 1;
  mret (Intent (Some job_id) status (Some generation) (truthy (doc_get data "requires_byok"))
          (as_str (doc_get data "fanout_key")) created).

Definition _no_finalization_intent (status : string) : FinalizationIntent :=
  Intent None status None false None false.

Definition _claim_result (status : string) : FinalizationClaim := Claim status None 0 VNone.

Definition _is_current_lease (job : fields) (dispatch_generation lease_epoch : Z) : res bool :=
  if negb (v_is (doc_get job "status") "leased") then Ok false
  else
    g ← get_int job "dispatch_generation" 1;
    if negb (g =? dispatch_generation) then Ok false
    else e ← get_int job "lease_epoch" 0; Ok (e =? lease_epoch).

(** A lease or a request whose instant is a datetime after [t]. *)
Definition later_than (v : value) (t : Z) : res bool := if is_time v then dt_gt v t else Ok false.

(** ** Admission *)

(** backend/database/conversations.py: undecodable segments count as content. *)
Definition raw_conversation_has_content `{!FinalizationEnv} (uid : string) (conversation : fields)
    : res bool :=
  if truthy (doc_get conversation "has_content") || truthy (doc_get conversation "photos")
  then Ok true
  else
    let raw_segments := doc_get conversation "transcript_segments" in
    if negb (truthy raw_segments) then Ok false
    else
      match _decode_transcript_segments_strict uid raw_segments
              (truthy (doc_get conversation "transcript_segments_compressed")) with
      | Ok segments => Ok (truthy segments)
      | Raise TypeError | Raise ZlibError | Raise ValueError => Ok true
      | Raise e => Raise e
      end.

Definition _conversation_has_finalization_content `{!FinalizationEnv} (uid : string)
    (conversation : fields) (conversation_ref : path) : Txn bool :=
  b ← lift (raw_conversation_has_content uid conversation);
  if (b : bool) then mret true else txn_collection_nonempty conversation_ref "photos".

(** A document that a transaction creates, from its field list. *)
Definition doc (l : list (string * value)) : fields := list_to_map (rev l).

Definition fvalues (d : dict) : updates := (fun kv => (kv.1, FValue kv.2)) <$> d.

Definition new_job (uid conversation_id : string) (revision : Z) (status : string)
    (requires_byok force_process : bool) (client_platform : value) (fanout_key job_id : string)
    (reconcile_after : option Z) (now : Z) : fields :=
  doc ([("schema_version", VInt 1); ("uid", VStr uid); ("conversation_id", VStr conversation_id);
        ("finalization_revision", VInt revision); ("status", VStr status);
        ("requires_byok", VBool requires_byok); ("client_platform", client_platform);
        ("force_process", VBool force_process); ("fanout_key", VStr fanout_key);
        ("fanout_status", VStr "pending"); ("dispatch_generation", VInt 1);
        ("attempt_count", VInt 0); ("task_retry_count", VInt 0);
        ("projection_generation", VStr FINALIZATION_PROJECTION_GENERATION);
        ("projection_shard", VInt (_projection_shard job_id)); ("created_at", instant now);
        ("updated_at", instant now); ("dispatch_requested_at", instant now)]
       ++ match reconcile_after with
          | Some t => [("reconcile_after_at", instant t)]
          | None => []
          end).

Definition _create_or_get_finalization_intent_txn `{!FinalizationEnv} (conversation_ref : path)
    (uid conversation_id : string) (requires_byok : bool)
    (finalization_admission : fields -> res FinalizationAdmission) (now : Z)
    (record force_process : bool) (extra_updates : dict) : Txn FinalizationIntent :=
  snapshot ← txn_get conversation_ref;
  match snapshot with
  | None => mret (_no_finalization_intent "missing")
  | Some conversation =>
      if truthy (doc_get conversation "deferred") then mret (_no_finalization_intent "deferred")
      else
        has_content ← _conversation_has_finalization_content uid conversation conversation_ref;
        if negb has_content then mret (_no_finalization_intent "no_content")
        else
          admission ← lift (finalization_admission conversation);
          if terminal admission
          then mret (_no_finalization_intent (admission_reason admission))
          else
            existing ← match as_id (doc_get conversation "finalization_job_id") with
                       | None => mret None
                       | Some existing_job_id =>
                           job ← txn_get (_job_ref existing_job_id);
                           mret ((fun j => (existing_job_id, j)) <$> job)
                       end;
            match existing with
            | Some (existing_job_id, job) => lift (_intent_from_job existing_job_id job false)
            | None =>
                let key := match admission_fanout_key admission with Some k => k | None => "" end in
                if negb (accepted admission) || bool_decide (key = "")
                then mret (_no_finalization_intent (admission_reason admission))
                else
                  r ← lift (get_int conversation "finalization_revision" 0);
                  let revision := r + 1 in
                  let job_id := _job_id uid conversation_id revision in
                  job_snapshot ← txn_get (_job_ref job_id);
                  match job_snapshot with
                  | Some job =>
                      txn_update conversation_ref
                        [("status", FValue (VStr "processing"));
                         ("finalization_job_id", FValue (VStr job_id));
                         ("finalization_revision", FValue (VInt revision));
                         ("finalization_status",
                          FValue (match job !! "status" with Some v => v | None => VStr "queued" end))];;
                      lift (_intent_from_job job_id job false)
                  | None =>
                      let status := if requires_byok then "blocked_byok" else "queued" in
                      reconcile_after ←
                        (if requires_byok then mret None
                         else
                           d ← lift get_finalization_reconcile_stale_after;
                           t ← lift (dt_add now d);
                           mret (Some t));
                      let job := new_job uid conversation_id revision status requires_byok
                                   force_process (doc_get conversation "client_platform") key
                                   job_id reconcile_after now in
                      txn_set (_job_ref job_id) job;;
                      _record_projection_delta record job
                        [("accepted", 1); (status, 1)];;
                      txn_update conversation_ref
                        (fvalues (dict_update extra_updates
                           [("status", VStr "processing"); ("finalization_job_id", VStr job_id);
                            ("finalization_revision", VInt revision);
                            ("finalization_status", VStr status)]));;
                      lift (_intent_from_job job_id job true)
                  end
            end
  end.

Definition create_or_get_finalization_intent `{!FinalizationEnv} (uid conversation_id : string)
    (requires_byok : bool) (finalization_admission : fields -> res FinalizationAdmission)
    (force_process : bool) (extra_updates : dict) (now : Z) : db -> res (FinalizationIntent * db) :=
  run_txn (_create_or_get_finalization_intent_txn (_conversation_ref uid conversation_id) uid
             conversation_id requires_byok finalization_admission now true force_process
             extra_updates).

(** ** Leases *)
Definition _resume_blocked_byok_job_txn (job_id : string) (now : Z) (record : bool)
    : Txn FinalizationIntent :=
  snapshot ← txn_get (_job_ref job_id);
  match snapshot with
  | None => mret (_no_finalization_intent "missing")
  | Some job =>
      if v_is (doc_get job "status") "blocked_byok" && truthy (doc_get job "requires_byok") then
        txn_update (_job_ref job_id)
          [("status", FValue (VStr "queued")); ("updated_at", FValue (instant now));
           ("last_byok_resume_at", FValue (instant now)); ("reconcile_after_at", FDelete)];;
        _record_projection_delta record job [("blocked_byok", -1); ("queued", 1)];;
        lift (_intent_from_job job_id (<["status" := VStr "queued"]> job) false)
      else lift (_intent_from_job job_id job false)
  end.

Definition resume_blocked_byok_job_for_live_session (job_id : string) (now : Z)
    : db -> res (FinalizationIntent * db) :=
  run_txn (_resume_blocked_byok_job_txn job_id now true).

Definition is_member (s : string) (ss : list string) : bool := bool_decide (s ∈ ss).

(** An optional expected identity that the job's field does not equal. *)
Definition mismatch (expected : option string) (v : value) : bool :=
  match expected with Some s => negb (v_is v s) | None => false end.

Definition _claim_finalization_job_txn (job_id : string) (dispatch_generation : Z)
    (allow_byok : bool) (lease_seconds now : Z)
    (expected_uid expected_conversation_id : option string) (record : bool)
    : Txn FinalizationClaim :=
  snapshot ← txn_get (_job_ref job_id);
  match snapshot with
  | None => mret (_claim_result "missing")
  | Some job =>
      status ← lift (get_str job "status" "");
      if mismatch expected_uid (doc_get job "uid")
      then mret (_claim_result "identity_mismatch")
      else if mismatch expected_conversation_id (doc_get job "conversation_id")
      then mret (_claim_result "identity_mismatch")
      else if bool_decide (status = "completed")
              && v_is (doc_get job "finalization_outcome") "fenced"
      then mret (_claim_result "fenced")
      else if is_member status TERMINAL_JOB_STATUSES then mret (_claim_result status)
      else if truthy (doc_get job "requires_byok") && negb allow_byok
      then mret (_claim_result "blocked_byok")
      else if bool_decide (status = "blocked_byok") then mret (_claim_result "blocked_byok")
      else
        g ← lift (get_int job "dispatch_generation" 1);
        if negb (g =? dispatch_generation) then mret (_claim_result "stale_generation")
        else
          live ← (if bool_decide (status = "leased")
                  then lift (later_than (doc_get job "lease_expires_at") now)
                  else mret false);
          if (live : bool) then mret (_claim_result "leased")
          else if negb (is_member status ["queued"; "leased"])
          then mret (_claim_result "not_actionable")
          else
            e ← lift (get_int job "lease_epoch" 0);
            let lease_epoch := e + 1 in
            d ← lift (timedelta_seconds lease_seconds);
            lease_expires_at ← lift (dt_add now d);
            a ← lift (get_int job "attempt_count" 0);
            let attempt_count := a + 1 in
            txn_update (_job_ref job_id)
              [("status", FValue (VStr "leased")); ("leased_at", FValue (instant now));
               ("lease_expires_at", FValue (instant lease_expires_at));
               ("lease_epoch", FValue (VInt lease_epoch));
               ("reconcile_after_at",
                if truthy (doc_get job "requires_byok") then FDelete
                else FValue (instant lease_expires_at));
               ("updated_at", FValue (instant now));
               ("attempt_count", FValue (VInt attempt_count))];;
            (if bool_decide (status = "queued")
             then _record_projection_delta record job [("queued", -1); ("leased", 1)]
             else mret tt);;
            let created_at := doc_get job "created_at" in
            mret (Claim "claimed" (Some lease_epoch) attempt_count
                    (if is_time created_at then created_at else VNone))
  end.

Definition claim_finalization_job (job_id : string) (dispatch_generation : Z) (allow_byok : bool)
    (lease_seconds : Z) (expected_uid expected_conversation_id : option string) (now : Z)
    : db -> res (FinalizationClaim * db) :=
  run_txn (_claim_finalization_job_txn job_id dispatch_generation allow_byok lease_seconds now
             expected_uid expected_conversation_id true).

(** ** Terminal writes and the fanout *)
Definition _mark_finalization_completed_txn (job_id : string) (dispatch_generation lease_epoch : Z)
    (now : Z) (record : bool) : Txn bool :=
  snapshot ← txn_get (_job_ref job_id);
  match snapshot with
  | None => mret false
  | Some job =>
      if v_is (doc_get job "status") "completed" then
        e ← lift (get_int job "lease_epoch" 0); mret (e =? lease_epoch)
      else
        current ← lift (_is_current_lease job dispatch_generation lease_epoch);
        if negb current then mret false
        else if negb (v_is (doc_get job "fanout_status") "completed") then mret false
        else
          txn_update (_job_ref job_id)
            [("status", FValue (VStr "completed")); ("completed_at", FValue (instant now));
             ("terminal_outcome", FValue (VStr "success")); ("updated_at", FValue (instant now));
             ("lease_expires_at", FValue (instant now)); ("reconcile_after_at", FDelete);
             ("last_failure_code", FValue VNone)];;
          _record_projection_delta record job [("leased", -1); ("completed", 1); ("success", 1)];;
          mret true
  end.

Definition mark_finalization_completed (job_id : string) (dispatch_generation lease_epoch now : Z)
    : db -> res (bool * db) :=
  run_txn (_mark_finalization_completed_txn job_id dispatch_generation lease_epoch now true).

Definition _fenced_finalization_update (now : Z) : updates :=
  [("status", FValue (VStr "completed")); ("completed_at", FValue (instant now));
   ("updated_at", FValue (instant now)); ("lease_expires_at", FValue (instant now));
   ("reconcile_after_at", FDelete); ("last_failure_code", FValue VNone);
   ("finalization_outcome", FValue (VStr "fenced")); ("terminal_outcome", FValue (VStr "stale"));
   ("fanout_status", FValue (VStr "fenced")); ("fanout_fenced_at", FValue (instant now))].

(** The write shared by the fencing boundaries. *)
Definition fence_job (job_id : string) (job : fields) (now : Z) (record : bool) : Txn unit :=
  txn_update (_job_ref job_id) (_fenced_finalization_update now);;
  _record_projection_delta record job [("leased", -1); ("completed", 1); ("stale", 1)].

Definition _mark_finalization_fenced_txn (job_id : string) (dispatch_generation lease_epoch : Z)
    (now : Z) (record : bool) : Txn bool :=
  snapshot ← txn_get (_job_ref job_id);
  match snapshot with
  | None => mret false
  | Some job =>
      if v_is (doc_get job "status") "completed" then
        if negb (v_is (doc_get job "finalization_outcome") "fenced") then mret false
        else e ← lift (get_int job "lease_epoch" 0); mret (e =? lease_epoch)
      else
        current ← lift (_is_current_lease job dispatch_generation lease_epoch);
        if negb current then mret false
        else if negb (is_none (doc_get job "fanout_status")
                      || v_is (doc_get job "fanout_status") "pending") then mret false
        else fence_job job_id job now record;; mret true
  end.

Definition mark_finalization_fenced (job_id : string) (dispatch_generation lease_epoch now : Z)
    : db -> res (bool * db) :=
  run_txn (_mark_finalization_fenced_txn job_id dispatch_generation lease_epoch now true).

Definition _fanout_key (job : fields) : res string :=
  match as_id (doc_get job "fanout_key") with
  | Some key => Ok key
  | None =>
      c ← py_str (match job !! "conversation_id" with Some v => v | None => VStr "" end);
      r ← get_int job "finalization_revision" 1;
      Ok (generation_fanout_key c r)
  end.

Definition _conversation_admits_fanout (conversation job : fields) (job_id : string) : res bool :=
  if truthy (doc_get conversation "discarded")
     || negb (v_is (doc_get conversation "status") "completed") then Ok false
  else if negb (v_is (doc_get conversation "finalization_job_id") job_id) then Ok false
  else
    match get_int conversation "finalization_revision" 0 with
    | Raise TypeError | Raise ValueError => Ok false
    | Raise e => Raise e
    | Ok a =>
        match get_int job "finalization_revision" 0 with
        | Raise TypeError | Raise ValueError => Ok false
        | Raise e => Raise e
        | Ok b => Ok (a =? b)
        end
    end.

Definition _claim_finalization_fanout_txn (job_id : string) (dispatch_generation lease_epoch : Z)
    (now : Z) (conversation_ref_for_job : string -> string -> path) (record : bool)
    : Txn FinalizationFanoutClaim :=
  snapshot ← txn_get (_job_ref job_id);
  match snapshot with
  | None => mret (FanoutClaim "missing" None)
  | Some job =>
      key ← lift (_fanout_key job);
      if v_is (doc_get job "fanout_status") "completed"
      then mret (FanoutClaim "completed" (Some key))
      else
        current ← lift (_is_current_lease job dispatch_generation lease_epoch);
        if negb current then mret (FanoutClaim "lease_conflict" (Some key))
        else
          match as_id (doc_get job "uid"), as_id (doc_get job "conversation_id") with
          | Some uid, Some conversation_id =>
              conversation_snapshot ← txn_get (conversation_ref_for_job uid conversation_id);
              admits ← match conversation_snapshot with
                       | None => mret false
                       | Some conversation =>
                           lift (_conversation_admits_fanout conversation job job_id)
                       end;
              if negb admits then
                fence_job job_id job now record;; mret (FanoutClaim "fenced" (Some key))
              else
                txn_update (_job_ref job_id)
                  [("fanout_key", FValue (VStr key)); ("fanout_status", FValue (VStr "leased"));
                   ("fanout_lease_epoch", FValue (VInt lease_epoch));
                   ("fanout_started_at", FValue (instant now));
                   ("updated_at", FValue (instant now))];;
                mret (FanoutClaim "claimed" (Some key))
          | _, _ => fence_job job_id job now record;; mret (FanoutClaim "fenced" (Some key))
          end
  end.

Definition claim_finalization_fanout (job_id : string) (dispatch_generation lease_epoch now : Z)
    : db -> res (FinalizationFanoutClaim * db) :=
  run_txn (_claim_finalization_fanout_txn job_id dispatch_generation lease_epoch now
             _conversation_ref true).

Definition _mark_finalization_fanout_completed_txn (job_id : string)
    (dispatch_generation lease_epoch now : Z) : Txn bool :=
  snapshot ← txn_get (_job_ref job_id);
  match snapshot with
  | None => mret false
  | Some job =>
      if v_is (doc_get job "fanout_status") "completed" then
        e ← lift (get_int job "fanout_lease_epoch" 0); mret (e =? lease_epoch)
      else
        current ← lift (_is_current_lease job dispatch_generation lease_epoch);
        if negb current then mret false
        else
          txn_update (_job_ref job_id)
            [("fanout_status", FValue (VStr "completed"));
             ("fanout_completed_at", FValue (instant now)); ("updated_at", FValue (instant now))];;
          mret true
  end.

Definition mark_finalization_fanout_completed (job_id : string)
    (dispatch_generation lease_epoch now : Z) : db -> res (bool * db) :=
  run_txn (_mark_finalization_fanout_completed_txn job_id dispatch_generation lease_epoch now).

Definition _mark_finalization_retryable_txn `{!FinalizationEnv} (job_id : string)
    (dispatch_generation lease_epoch : Z) (failure_code : string) (now : Z) (record : bool)
    : Txn bool :=
  snapshot ← txn_get (_job_ref job_id);
  match snapshot with
  | None => mret false
  | Some job =>
      current ← lift (_is_current_lease job dispatch_generation lease_epoch);
      if negb current then mret false
      else
        reconcile ← (if truthy (doc_get job "requires_byok") then mret FDelete
                     else
                       d ← lift get_finalization_reconcile_stale_after;
                       t ← lift (dt_add now d);
                       mret (FValue (instant t)));
        txn_update (_job_ref job_id)
          [("status", FValue (VStr "queued")); ("updated_at", FValue (instant now));
           ("lease_expires_at", FValue (instant now)); ("reconcile_after_at", reconcile);
           ("last_failure_code", FValue (VStr failure_code))];;
        _record_projection_delta record job [("leased", -1); ("queued", 1)];;
        mret true
  end.

Definition mark_finalization_retryable `{!FinalizationEnv} (job_id : string)
    (dispatch_generation lease_epoch : Z) (failure_code : string) (now : Z)
    : db -> res (bool * db) :=
  run_txn (_mark_finalization_retryable_txn job_id dispatch_generation lease_epoch failure_code
             now true).

(** The conversation a job names, read before the first write. *)
Definition read_bound_conversation (conversation_ref_for_job : string -> string -> path)
    (job : fields) : Txn (option (path * fields)) :=
  match as_id (doc_get job "uid"), as_id (doc_get job "conversation_id") with
  | Some uid, Some conversation_id =>
      let r := conversation_ref_for_job uid conversation_id in
      s ← txn_get r; mret ((fun c => (r, c)) <$> s)
  | _, _ => mret None
  end.

(** Whether a conversation is still bound to this job and revision. *)
Definition bound_to (conversation job : fields) (job_id : string) : bool :=
  v_is (doc_get conversation "finalization_job_id") job_id
  && py_eq (doc_get conversation "finalization_revision") (doc_get job "finalization_revision").

Definition _mark_finalization_dead_letter_txn (job_id : string)
    (dispatch_generation lease_epoch retry_count now : Z)
    (conversation_ref_for_job : string -> string -> path) (record : bool) : Txn bool :=
  snapshot ← txn_get (_job_ref job_id);
  match snapshot with
  | None => mret false
  | Some job =>
      current ← lift (_is_current_lease job dispatch_generation lease_epoch);
      if negb current then mret false
      else
        bound ← read_bound_conversation conversation_ref_for_job job;
        txn_update (_job_ref job_id)
          [("status", FValue (VStr "dead_letter")); ("updated_at", FValue (instant now));
           ("terminal_at", FValue (instant now)); ("terminal_outcome", FValue (VStr "failure"));
           ("lease_expires_at", FValue (instant now)); ("reconcile_after_at", FDelete);
           ("task_retry_count", FValue (VInt retry_count));
           ("last_failure_code", FValue (VStr "final_attempt_failed"))];;
        _record_projection_delta record job [("leased", -1); ("dead_letter", 1); ("failure", 1)];;
        match bound with
        | Some (conversation_ref, conversation) =>
            if v_is (doc_get conversation "status") "processing"
               && negb (truthy (doc_get conversation "discarded"))
               && bound_to conversation job job_id
            then
              txn_update conversation_ref
                [("status", FValue (VStr "failed")); ("discarded", FValue (VBool true));
                 ("finalization_status", FValue (VStr "dead_letter"))];;
              mret true
            else mret true
        | None => mret true
        end
  end.

Definition mark_finalization_dead_letter (job_id : string)
    (dispatch_generation lease_epoch retry_count now : Z) : db -> res (bool * db) :=
  run_txn (_mark_finalization_dead_letter_txn job_id dispatch_generation lease_epoch retry_count
             now _conversation_ref true).

Definition get_finalization_job (job_id : string) (s : db) : option fields := s !! _job_ref job_id.

(** ** Replay *)
Definition _claim_finalization_replay_txn (job_id : string) (stale_after now : Z) (record : bool)
    : Txn FinalizationIntent :=
  snapshot ← txn_get (_job_ref job_id);
  match snapshot with
  | None => mret (_no_finalization_intent "missing")
  | Some job =>
      status ← lift (get_str job "status" "");
      if bool_decide (status = "blocked_byok") || is_member status TERMINAL_JOB_STATUSES
      then lift (_intent_from_job job_id job false)
      else
        leased ← (if bool_decide (status = "leased")
                  then lift (later_than (doc_get job "lease_expires_at") now) else mret false);
        if (leased : bool) then lift (_intent_from_job job_id job false)
        else
          requested ← (if bool_decide (status = "queued")
                          && is_time (doc_get job "dispatch_requested_at")
                       then
                         t ← lift (dt_add now (- stale_after));
                         lift (dt_gt (doc_get job "dispatch_requested_at") t)
                       else mret false);
          if (requested : bool) then lift (_intent_from_job job_id job false)
          else if negb (is_member status ["queued"; "leased"])
          then lift (_intent_from_job job_id job false)
          else
            g ← lift (get_int job "dispatch_generation" 1);
            let generation := g + 1 in
            t ← lift (dt_add now stale_after);
            txn_update (_job_ref job_id)
              [("status", FValue (VStr "queued"));
               ("dispatch_generation", FValue (VInt generation));
               ("dispatch_requested_at", FValue (instant now));
               ("updated_at", FValue (instant now)); ("lease_expires_at", FValue (instant now));
               ("reconcile_after_at", FValue (instant t))];;
            (if bool_decide (status = "leased")
             then _record_projection_delta record job [("leased", -1); ("queued", 1)]
             else mret tt);;
            lift (_intent_from_job job_id
                    (<["dispatch_generation" := VInt generation]> (<["status" := VStr "queued"]> job))
                    false)
  end.

Definition claim_finalization_replay (job_id : string) (stale_after now : Z)
    : db -> res (FinalizationIntent * db) :=
  run_txn (_claim_finalization_replay_txn job_id stale_after now true).

(** ** BYOK abandonment *)
Definition _job_last_activity_at (job : fields) : option value :=
  if is_time (doc_get job "updated_at") then Some (doc_get job "updated_at")
  else if is_time (doc_get job "created_at") then Some (doc_get job "created_at")
  else None.

Definition _abandon_byok_finalization_job_txn (job_id expected_status : string)
    (expected_dispatch_generation expected_lease_epoch cutoff now : Z)
    (conversation_ref_for_job : string -> string -> path) (record : bool) : Txn ByokAbandonment :=
  snapshot ← txn_get (_job_ref job_id);
  match snapshot with
  | None => mret (Abandonment "missing" "none")
  | Some job =>
      status ← lift (get_str job "status" "");
      if negb (truthy (doc_get job "requires_byok")) then mret (Abandonment "fenced" "none")
      else if negb (is_member status ["queued"; "leased"])
              || negb (bool_decide (status = expected_status))
      then mret (Abandonment "fenced" "none")
      else
        g ← lift (get_int job "dispatch_generation" 1);
        if negb (g =? expected_dispatch_generation) then mret (Abandonment "fenced" "none")
        else
          e ← lift (get_int job "lease_epoch" 0);
          if negb (e =? expected_lease_epoch) then mret (Abandonment "fenced" "none")
          else
            live ← (if bool_decide (status = "leased")
                    then lift (later_than (doc_get job "lease_expires_at") now) else mret false);
            if (live : bool) then mret (Abandonment "fenced" "none")
            else
              recent ← match _job_last_activity_at job with
                       | None => mret true
                       | Some v => lift (dt_gt v cutoff)
                       end;
              if (recent : bool) then mret (Abandonment "fenced" "none")
              else
                bound ← read_bound_conversation conversation_ref_for_job job;
                txn_update (_job_ref job_id)
                  [("status", FValue (VStr "dead_letter")); ("updated_at", FValue (instant now));
                   ("terminal_at", FValue (instant now));
                   ("terminal_outcome", FValue (VStr "failure"));
                   ("finalization_outcome", FValue (VStr BYOK_ABANDONED_FAILURE_CODE));
                   ("lease_expires_at", FValue (instant now)); ("reconcile_after_at", FDelete);
                   ("fanout_status", FValue (VStr "fenced"));
                   ("fanout_fenced_at", FValue (instant now));
                   ("last_failure_code", FValue (VStr BYOK_ABANDONED_FAILURE_CODE))];;
                _record_projection_delta record job
                  [("queued", if bool_decide (status = "queued") then -1 else 0);
                   ("leased", if bool_decide (status = "leased") then -1 else 0);
                   ("dead_letter", 1); ("failure", 1)];;
                match bound with
                | None => mret (Abandonment "abandoned" "missing")
                | Some (conversation_ref, conversation) =>
                    if negb (bound_to conversation job job_id)
                    then mret (Abandonment "abandoned" "unbound")
                    else if negb (v_is (doc_get conversation "status") "processing")
                            || truthy (doc_get conversation "discarded")
                    then mret (Abandonment "abandoned" "already_terminal")
                    else if truthy (doc_get conversation "deferred")
                    then mret (Abandonment "abandoned" "deferred")
                    else
                      txn_update conversation_ref
                        [("status", FValue (VStr "completed"));
                         ("finalization_status", FValue (VStr "dead_letter"))];;
                      mret (Abandonment "abandoned" "closed")
                end
  end.

Definition abandon_byok_finalization_job (job_id expected_status : string)
    (expected_dispatch_generation expected_lease_epoch abandoned_after now : Z) (s : db)
    : res (ByokAbandonment * db) :=
  cutoff ← dt_add now (- abandoned_after);
  run_txn (_abandon_byok_finalization_job_txn job_id expected_status expected_dispatch_generation
             expected_lease_epoch cutoff now _conversation_ref true) s.
