(* ===== verification/FinalizationRecovery.v ===== *)
(** * Recovery around finalization jobs
    (backend/database/conversation_finalization_jobs.py)

    Meeting receipts on finalized jobs, the conversation lifecycle fences used
    when no job exists (admission stamps, orphans, deferred rows), the sweep
    cursors with their compare-and-set generation, the bounded sweeps that
    select candidates, and the summary of the projection shards. *)

From S2P Require Import Prelude PyValue Firestore FinalizationDecision FinalizationJobs.
From Stdlib Require Import QArith_base.
From stdpp Require Import sorting pretty.
Local Open Scope Z_scope.

(** ** Meeting receipts *)
Definition receipt_keys : list string :=
  ["meeting_receipt_schema_version"; "meeting_treatment_eligible"; "meeting_treatment_reason";
   "meeting_duration_s"; "meeting_dedup_speech_s"; "meeting_receipt_created_at";
   "meeting_receipt_updated_at"; "meeting_receipt_reconcile_after_at";
   "meeting_receipt_intent_id"; "meeting_receipt_intent_persisted_at";
   "meeting_receipt_materialized_at"].

Definition new_receipt (eligible : bool) (reason : string) (duration_s dedup_speech_s : Q)
    (now reconcile_after : Z) : dict :=
  [("meeting_receipt_schema_version", VInt MEETING_RECEIPT_SCHEMA_VERSION);
   ("meeting_treatment_eligible", VBool eligible); ("meeting_treatment_reason", VStr reason);
   ("meeting_duration_s", VFloat duration_s); ("meeting_dedup_speech_s", VFloat dedup_speech_s);
   ("meeting_receipt_created_at", instant now); ("meeting_receipt_updated_at", instant now);
   ("meeting_receipt_reconcile_after_at", instant reconcile_after);
   ("meeting_receipt_intent_id", VNone); ("meeting_receipt_intent_persisted_at", VNone);
   ("meeting_receipt_materialized_at", VNone)].

(** The receipt fields a job already carries. *)
Definition stored_receipt (job : fields) : dict :=
  omap (fun k => (fun v => (k, v)) <$> job !! k) receipt_keys.

(** [d[k]] *)
Definition dict_index (k : string) (d : dict) : res value :=
  match dict_lookup k d with Some v => Ok v | None => Raise KeyError end.

Definition receipt_job (uid conversation_id : string) (revision now : Z) (receipt : dict) : fields :=
  doc ([("schema_version", VInt 1); ("uid", VStr uid); ("conversation_id", VStr conversation_id);
        ("finalization_revision", VInt revision); ("status", VStr "completed");
        ("requires_byok", VBool false); ("force_process", VBool false);
        ("fanout_key", VStr ("conversation:" +:+ conversation_id +:+ ":finalization"));
        ("fanout_status", VStr "completed"); ("fanout_completed_at", instant now);
        ("finalization_outcome", VStr "success"); ("terminal_outcome", VStr "success");
        ("terminal_at", instant now); ("dispatch_generation", VInt 1); ("attempt_count", VInt 1);
        ("task_retry_count", VInt 0); ("created_at", instant now); ("updated_at", instant now)]
       ++ receipt).

(** The recorded job identifier and receipt, or the refusal. *)
Inductive receipt_result :=
| ReceiptRefused (status : string)
| ReceiptRecorded (job_id : string) (receipt : dict).

Definition is_empty (d : fields) : bool := bool_decide (d = ∅).

Definition _record_meeting_receipt_txn (conversation_ref : path) (uid conversation_id : string)
    (finalization_job_id : option string) (eligible : bool) (reason : string)
    (duration_s dedup_speech_s : Q) (now : Z) : Txn receipt_result :=
  snapshot ← txn_get conversation_ref;
  match snapshot with
  | None => mret (ReceiptRefused "missing")
  | Some conversation =>
      let existing_job_id := doc_get conversation "finalization_job_id" in
      job_id ← match from_option (fun s => as_id (VStr s)) None finalization_job_id,
                     as_id existing_job_id with
               | Some j, _ => mret j
               | None, Some j => mret j
               | None, None =>
                   r ← lift (get_int conversation "finalization_revision" 0);
                   mret (_job_id uid conversation_id (r + 1))
               end;
      job_snapshot ← txn_get (_job_ref job_id);
      let job := default ∅ job_snapshot in
      if negb (is_empty job)
         && (negb (v_is (doc_get job "uid") uid)
             || negb (v_is (doc_get job "conversation_id") conversation_id))
      then mret (ReceiptRefused "identity_mismatch")
      else
        reconcile_after ← lift (dt_add now MEETING_RECEIPT_RECONCILE_AFTER);
        let fresh := new_receipt eligible reason duration_s dedup_speech_s now reconcile_after in
        receipt ←
          (if py_eq (doc_get job "meeting_receipt_schema_version")
                (VInt MEETING_RECEIPT_SCHEMA_VERSION)
           then mret (stored_receipt job)
           else if negb (is_empty job) then
             txn_update (_job_ref job_id) (fvalues fresh);; mret fresh
           else
             r ← lift (get_int conversation "finalization_revision" 0);
             txn_set (_job_ref job_id) (receipt_job uid conversation_id (r + 1) now fresh);;
             mret fresh);
        eligible_v ← lift (dict_index "meeting_treatment_eligible" receipt);
        reason_v ← lift (dict_index "meeting_treatment_reason" receipt);
        duration_v ← lift (dict_index "meeting_duration_s" receipt);
        speech_v ← lift (dict_index "meeting_dedup_speech_s" receipt);
        extra ← (if truthy existing_job_id then mret []
                 else
                   r ← lift (get_int conversation "finalization_revision" 0);
                   mret [("finalization_revision", VInt (r + 1));
                         ("finalization_status", VStr "completed")]);
        txn_update conversation_ref
          (fvalues ([("finalization_job_id", VStr job_id);
                     ("meeting_treatment_eligible", VBool (truthy eligible_v));
                     ("meeting_treatment_reason", reason_v);
                     ("meeting_duration_s", duration_v);
                     ("meeting_dedup_speech_s", speech_v)] ++ extra));;
        mret (ReceiptRecorded job_id receipt)
  end.

Definition record_meeting_receipt (uid conversation_id : string)
    (finalization_job_id : option string) (eligible : bool) (reason : string)
    (duration_s dedup_speech_s : Q) (now : Z) : db -> res (receipt_result * db) :=
  run_txn (_record_meeting_receipt_txn (_conversation_ref uid conversation_id) uid conversation_id
             finalization_job_id eligible reason duration_s dedup_speech_s now).

Definition mark_meeting_receipt_intent_persisted (job_id intent_id : string) (now : Z)
    : db -> res (bool * db) :=
  run_txn (
    snapshot ← txn_get (_job_ref job_id);
    match snapshot with
    | None => mret false
    | Some job =>
        match doc_get job "meeting_receipt_intent_id" with
        | VStr existing => mret (bool_decide (existing = intent_id))
        | _ =>
            txn_update (_job_ref job_id)
              [("meeting_receipt_intent_id", FValue (VStr intent_id));
               ("meeting_receipt_intent_persisted_at", FValue (instant now));
               ("meeting_receipt_updated_at", FValue (instant now))];;
            mret true
        end
    end).

Definition mark_meeting_receipt_materialized (uid conversation_id intent_id : string)
    (materialized_at : Z) : db -> res (bool * db) :=
  run_txn (
    conversation_snapshot ← txn_get (_conversation_ref uid conversation_id);
    match conversation_snapshot with
    | None => mret false
    | Some conversation =>
        match as_id (doc_get conversation "finalization_job_id") with
        | None => mret false
        | Some job_id =>
            job_snapshot ← txn_get (_job_ref job_id);
            match job_snapshot with
            | None => mret false
            | Some job =>
                if negb (v_is (doc_get job "meeting_receipt_intent_id") intent_id) then mret false
                else if is_none (doc_get job "meeting_receipt_materialized_at") then
                  txn_update (_job_ref job_id)
                    [("meeting_receipt_materialized_at", FValue (instant materialized_at));
                     ("meeting_receipt_updated_at", FValue (instant materialized_at))];;
                  mret true
                else mret true
            end
        end
    end).

(** ** Lifecycle fences of a conversation without a job *)

(** A transaction that writes one update when a test on the document passes. *)
Definition guarded_update (r : path) (test : fields -> res bool) (u : updates) : Txn bool :=
  snapshot ← txn_get r;
  match snapshot with
  | None => mret false
  | Some data =>
      ok ← lift (test data);
      if (ok : bool) then txn_update r u;; mret true else mret false
  end.

Definition _stamp_processing_admission_if_absent_txn (conversation_ref : path) (now : Z) : Txn bool :=
  guarded_update conversation_ref
    (fun data => Ok (v_is (doc_get data "status") "processing"
                     && negb (is_time (doc_get data "processing_admitted_at"))))
    [("processing_admitted_at", FValue (instant now))].

Definition stamp_processing_admission_if_absent (uid conversation_id : string) (now : Z)
    : db -> res (bool * db) :=
  run_txn (_stamp_processing_admission_if_absent_txn (_conversation_ref uid conversation_id) now).

(** A bare processing row: nobody but the sweep owns it. *)
Definition unowned_processing (data : fields) : bool :=
  v_is (doc_get data "status") "processing"
  && negb (truthy (doc_get data "discarded") || truthy (doc_get data "deferred")
           || truthy (doc_get data "finalization_job_id")).

(** [update_time] is the snapshot's server-owned instant of the last write. *)
Definition _complete_unstampable_orphan_conversation_txn (conversation_ref : path)
    (update_time : value) (stale_before : Z) : Txn bool :=
  guarded_update conversation_ref
    (fun data =>
       if negb (unowned_processing data) then Ok false
       else if is_time (doc_get data "processing_admitted_at") then Ok false
       else if negb (is_time update_time) then Ok false
       else b ← dt_gt update_time stale_before; Ok (negb b))
    [("status", FValue (VStr "completed"))].

Definition complete_unstampable_orphan_conversation (uid conversation_id : string)
    (update_time : value) (stale_after now : Z) (s : db) : res (bool * db) :=
  stale_before ← dt_add now (- stale_after);
  run_txn (_complete_unstampable_orphan_conversation_txn (_conversation_ref uid conversation_id)
             update_time stale_before) s.

Definition _complete_orphan_conversation_txn (conversation_ref : path)
    (expected_admitted_at : value) : Txn bool :=
  guarded_update conversation_ref
    (fun data =>
       let admitted_at := doc_get data "processing_admitted_at" in
       Ok (unowned_processing data && is_time admitted_at
           && py_eq admitted_at expected_admitted_at))
    [("status", FValue (VStr "completed"))].

Definition complete_orphan_conversation (uid conversation_id : string)
    (expected_admitted_at : value) : db -> res (bool * db) :=
  run_txn (_complete_orphan_conversation_txn (_conversation_ref uid conversation_id)
             expected_admitted_at).

Definition _renew_processing_lease_txn (conversation_ref : path) (now : Z) : Txn bool :=
  guarded_update conversation_ref
    (fun data => Ok (v_is (doc_get data "status") "processing"
                     && negb (truthy (doc_get data "discarded"))))
    [("processing_admitted_at", FValue (instant now))].

Definition renew_processing_lease (uid conversation_id : string) (now : Z)
    : db -> res (bool * db) :=
  run_txn (_renew_processing_lease_txn (_conversation_ref uid conversation_id) now).

(** A row that is processing or completed, not discarded, with the given
    deferral flag (compared by identity). *)
Definition deferral_is (flag : bool) (data : fields) : res bool :=
  known ← v_in_set (doc_get data "status") ["processing"; "completed"];
  Ok (known && negb (truthy (doc_get data "discarded"))
      && bool_decide (doc_get data "deferred" = VBool flag)).

Definition _reacquire_deferred_processing_txn (conversation_ref : path) (now : Z) : Txn bool :=
  guarded_update conversation_ref (deferral_is true)
    [("status", FValue (VStr "processing")); ("deferred", FValue (VBool false));
     ("processing_admitted_at", FValue (instant now))].

Definition reacquire_deferred_processing (uid conversation_id : string) (now : Z)
    : db -> res (bool * db) :=
  run_txn (_reacquire_deferred_processing_txn (_conversation_ref uid conversation_id) now).

Definition _recover_deferred_processing_failure_txn (conversation_ref : path) : Txn bool :=
  guarded_update conversation_ref (deferral_is false)
    [("status", FValue (VStr "completed")); ("deferred", FValue (VBool true))].

Definition recover_deferred_processing_failure (uid conversation_id : string)
    : db -> res (bool * db) :=
  run_txn (_recover_deferred_processing_failure_txn (_conversation_ref uid conversation_id)).

(** ** Sweep cursors *)
Definition STALE_PROCESSING_SWEEP_STATE_COLLECTION : string := "conversation_recovery_state".
Definition STALE_PROCESSING_SWEEP_STATE_DOC : string := "stale_processing_sweep".
Definition MEETING_RECEIPT_SWEEP_STATE_DOC : string := "meeting_receipt_backfill_sweep".
Definition BYOK_ABANDONMENT_SWEEP_STATE_DOC : string := "byok_abandonment_sweep".

Definition cursor_ref (name : string) : path := [STALE_PROCESSING_SWEEP_STATE_COLLECTION; name].

Record sweep_cursor := Cursor { cursor_resume_after_path : option string; cursor_generation : Z }.

Definition stored_generation (data : fields) : res Z :=
  py_int (match data !! "generation" with Some v => v | None => VInt 0 end).

Definition get_cursor (name : string) (s : db) : res sweep_cursor :=
  match s !! cursor_ref name with
  | None => Ok (Cursor None 0)
  | Some data =>
      g ← stored_generation data;
      Ok (Cursor (as_str (doc_get data "resume_after_path")) g)
  end.

Definition get_stale_processing_sweep_cursor : db -> res sweep_cursor :=
  get_cursor STALE_PROCESSING_SWEEP_STATE_DOC.
Definition get_meeting_receipt_backfill_cursor : db -> res sweep_cursor :=
  get_cursor MEETING_RECEIPT_SWEEP_STATE_DOC.
Definition get_byok_abandonment_sweep_cursor : db -> res sweep_cursor :=
  get_cursor BYOK_ABANDONMENT_SWEEP_STATE_DOC.

Definition _advance_stale_processing_sweep_cursor_txn (doc_ref : path) (expected_generation : Z)
    (new_resume_after_path : option string) (now : Z) : Txn bool :=
  snapshot ← txn_get doc_ref;
  current_generation ← lift (match snapshot with
                             | None => Ok 0
                             | Some data => stored_generation data
                             end);
  if negb (current_generation =? expected_generation) then mret false
  else
    txn_set doc_ref (doc [("resume_after_path", opt_str new_resume_after_path);
                          ("generation", VInt (current_generation + 1));
                          ("updated_at", instant now)]);;
    mret true.

Definition advance_cursor (name : string) (expected_generation : Z)
    (new_resume_after_path : option string) (now : Z) : db -> res (bool * db) :=
  run_txn (_advance_stale_processing_sweep_cursor_txn (cursor_ref name) expected_generation
             new_resume_after_path now).

Definition advance_stale_processing_sweep_cursor :=
  advance_cursor STALE_PROCESSING_SWEEP_STATE_DOC.
Definition advance_meeting_receipt_backfill_cursor :=
  advance_cursor MEETING_RECEIPT_SWEEP_STATE_DOC.
Definition advance_byok_abandonment_sweep_cursor :=
  advance_cursor BYOK_ABANDONMENT_SWEEP_STATE_DOC.

(** ** Bounded sweeps

    The three sweeps share one loop: pages of an equality query in path order,
    at most [max_scan] rows examined, at most [limit] candidates kept. *)
Definition row : Type := path * fields.

Fixpoint path_leb (p q : path) : bool :=
  match p, q with
  | [], _ => true
  | _ :: _, [] => false
  | a :: p', b :: q' =>
      match String.compare a b with Lt => true | Gt => false | Eq => path_leb p' q' end
  end.

Definition row_le (x y : row) : Prop := Is_true (path_leb x.1 y.1).
#[global] Instance row_le_dec : RelDecision row_le.
Proof. intros x y. apply _. Defined.

(** The rows of a query that filters by [matches], in path order, after a cursor. *)
Definition query (matches : path -> fields -> bool) (s : db) : list row :=
  merge_sort row_le (filter (fun r : row => Is_true (matches r.1 r.2)) (map_to_list s)).

Definition start_after (cursor : option path) (rows : list row) : list row :=
  match cursor with
  | None => rows
  | Some c => filter (fun r : row => Is_true (negb (path_leb r.1 c))) rows
  end.

Record sweep (A : Type) := Sweep {
  candidates : list A;
  resume_after_path : option path;
  exhausted : bool
}.
Arguments Sweep {A} _ _ _.
Arguments candidates {A} _.
Arguments resume_after_path {A} _.
Arguments exhausted {A} _.

Section Scan.
Context {A : Type} (select : path -> fields -> res (option A)) (limit max_scan : Z).

Record scan_state := ScanState { collected : list A; scanned : Z; last_path : option path }.

(** The loop over one page. *)
Fixpoint scan_page (page : list row) (st : scan_state) : res scan_state :=
  match page with
  | [] => Ok st
  | (p, d) :: page' =>
      let n := scanned st + 1 in
      if max_scan <? n then Ok (ScanState (collected st) n (last_path st))
      else
        c ← select p d;
        match c with
        | None => scan_page page' (ScanState (collected st) n (Some p))
        | Some x =>
            let st' := ScanState (collected st ++ [x]) n (Some p) in
            if limit <=? Z.of_nat (length (collected st')) then Ok st' else scan_page page' st'
        end
  end.

Definition page_size : nat := Z.to_nat (Z.max 1 (Z.min limit 100)).

(** [while len(collected) < limit and scanned < max_scan] over the rows after
    the cursor; the result is the state and whether the tail was reached. *)
Fixpoint scan_loop (fuel : nat) (rows : list row) (st : scan_state) : res (scan_state * bool) :=
  match fuel with
  | O => Ok (st, false)
  | S fuel' =>
      if (Z.of_nat (length (collected st)) <? limit) && (scanned st <? max_scan) then
        let page := take page_size rows in
        match page with
        | [] => Ok (st, true)
        | _ =>
            st' ← scan_page page st;
            if max_scan <? scanned st' then Ok (st', false)
            else if (length page <? page_size)%nat then Ok (st', true)
            else scan_loop fuel' (drop page_size rows) st'
        end
      else Ok (st, false)
  end.

Definition run_sweep (rows : list row) : res (sweep A) :=
  '(st, ex) ← scan_loop (S (length rows)) rows (ScanState [] 0 None);
  Ok (Sweep (collected st) (if (ex : bool) then None else last_path st) ex).
End Scan.

(** The cursor document, when it still exists; a vanished one restarts the sweep. *)
Definition live_cursor (resume : option path) (s : db) : option path :=
  match resume with
  | Some p => match s !! p with Some _ => Some p | None => None end
  | None => None
  end.

Definition in_collection_group (p : path) : bool :=
  match rev p with _ :: c :: _ => bool_decide (c = CONVERSATIONS_COLLECTION) | _ => false end.

Definition conversations_with_status (status : string) (p : path) (d : fields) : bool :=
  in_collection_group p && v_is (doc_get d "status") status.

Record orphan := Orphan {
  orphan_uid : string;
  orphan_conversation_id : string;
  orphan_admitted_at : value;
  orphan_legacy : bool
}.

Definition last_segment (p : path) : string := default "" (last p).

Definition select_orphan (cutoff : Z) (p : path) (data : fields) : res (option orphan) :=
  match _uid_from_conversation_path p with
  | None => Ok None
  | Some uid =>
      if truthy (doc_get data "deferred") || truthy (doc_get data "finalization_job_id")
      then Ok None
      else
        let admitted_at := doc_get data "processing_admitted_at" in
        if is_time admitted_at then
          fresh ← dt_gt admitted_at cutoff;
          if (fresh : bool) then Ok None
          else Ok (Some (Orphan uid (last_segment p) admitted_at false))
        else Ok (Some (Orphan uid (last_segment p) VNone true))
  end.

Definition get_stale_processing_orphan_candidates (stale_after limit max_scan : Z)
    (resume : option path) (now : Z) (s : db) : res (sweep orphan) :=
  cutoff ← dt_add now (- stale_after);
  run_sweep (select_orphan cutoff) limit max_scan
    (start_after (live_cursor resume s) (query (conversations_with_status "processing") s)).

Definition is_mapping (v : value) : bool := is_dict v.

(** [data.get('external_data') or {}], its role, and the source (a stored
    string). *)
Definition select_backfill (p : path) (data : fields) : res (option (string * string * fields)) :=
  match _uid_from_conversation_path p with
  | None => Ok None
  | Some uid =>
      let external_data := py_or (doc_get data "external_data") (VDict []) in
      let role := match external_data with
                  | VDict d => dict_get "conversation_role" d
                  | _ => VNone
                  end in
      if negb (v_is (doc_get data "source") "desktop") || negb (is_mapping external_data)
         || negb (v_is role "meeting") || truthy (doc_get data "meeting_treatment_reason")
      then Ok None
      else Ok (Some (uid, last_segment p, <["id" := VStr (last_segment p)]> data))
  end.

Definition get_meeting_receipt_backfill_candidates (limit max_scan : Z) (resume : option path)
    (s : db) : res (sweep (string * string * fields)) :=
  run_sweep select_backfill limit max_scan
    (start_after (live_cursor resume s) (query (conversations_with_status "completed") s)).

Definition is_job_path (p : path) : bool :=
  match p with [c; _] => bool_decide (c = FINALIZATION_JOBS_COLLECTION) | _ => false end.

Definition byok_jobs (p : path) (d : fields) : bool :=
  is_job_path p && bool_decide (doc_get d "requires_byok" = VBool true).

Definition select_abandoned_byok (now cutoff : Z) (p : path) (job : fields)
    : res (option (string * fields)) :=
  status ← get_str job "status" "";
  if negb (is_member status ["queued"; "leased"]) then Ok None
  else
    live ← (if bool_decide (status = "leased") then later_than (doc_get job "lease_expires_at") now
            else Ok false);
    if (live : bool) then Ok None
    else
      match _job_last_activity_at job with
      | None => Ok None
      | Some v =>
          recent ← dt_gt v cutoff;
          if (recent : bool) then Ok None
          else Ok (Some (last_segment p, job))
      end.

Definition get_abandoned_byok_job_candidates (abandoned_after limit max_scan : Z)
    (resume : option path) (now : Z) (s : db) : res (sweep (string * fields)) :=
  cutoff ← dt_add now (- abandoned_after);
  run_sweep (select_abandoned_byok now cutoff) limit max_scan
    (start_after (live_cursor resume s) (query byok_jobs s)).

(** [.where('reconcile_after_at', '<=', now)] orders by the field; equal
    instants by path. *)
Definition due_le (x y : row) : Prop :=
  match doc_get x.2 "reconcile_after_at", doc_get y.2 "reconcile_after_at" with
  | VTime _ a, VTime _ b => (a < b) \/ (a = b /\ row_le x y)
  | _, _ => False
  end.
#[global] Instance due_le_dec : RelDecision due_le.
Proof. intros x y. unfold due_le. repeat case_match; apply _. Defined.

Definition due (now : Z) (p : path) (d : fields) : bool :=
  is_job_path p && match doc_get d "reconcile_after_at" with
                   | VTime _ t => t <=? now
                   | _ => false
                   end.

Definition get_finalization_replay_candidates (limit now : Z) (s : db)
    : res (list (string * fields)) :=
  let rows := merge_sort due_le
                (filter (fun r : row => Is_true (due now r.1 r.2)) (map_to_list s)) in
  foldr (fun (r : row) acc =>
           acc ← acc;
           keep ← v_in_set (doc_get r.2 "status") ["queued"; "leased"];
           Ok (if (keep : bool) then (last_segment r.1, r.2) :: acc else acc))
    (Ok []) (take (Z.to_nat (Z.max 1 (Z.min limit 100))) rows).

(** ** Summary of the projection *)
Definition projection_names : list string :=
  ["accepted"; "queued"; "leased"; "blocked_byok"; "completed"; "dead_letter"; "success";
   "failure"; "stale"].

(** A counter of a shard document that belongs to this generation and shard. *)
Definition shard_value (s : db) (shard : nat) (name : string) : Z :=
  match s !! _projection_ref (Z.of_nat shard) with
  | None => 0
  | Some data =>
      if negb (v_is (doc_get data "generation") FINALIZATION_PROJECTION_GENERATION)
         || negb (py_eq (doc_get data "shard") (VInt (Z.of_nat shard)))
      then 0
      else
        match match data !! name with Some v => v | None => VInt 0 end with
        | VInt z => z
        | VBool b => if b then 1 else 0
        | VFloat q => Z.quot (Qnum q) (Zpos (Qden q))
        | _ => 0
        end
  end.

Definition projection_total (s : db) (name : string) : Z :=
  foldl (fun acc shard => acc + shard_value s shard name) 0
    (seq 0 (Z.to_nat FINALIZATION_PROJECTION_SHARD_COUNT)).

(** The integer gauges of the summary. *)
Definition get_finalization_job_summary (s : db) : list (string * Z) :=
  let total := projection_total s in
  [("accepted", total "accepted"); ("success", total "success"); ("failure", total "failure");
   ("stale", total "stale"); ("nonterminal", total "queued" + total "leased");
   ("queued", total "queued"); ("leased", total "leased");
   ("blocked_byok", total "blocked_byok"); ("completed", total "completed");
   ("dead_letter", total "dead_letter"); ("terminal_unknown", 0)].
