(* ===== verification/FinalizationProofs.v ===== *)
(** * Correctness of the finalization jobs

    Every operation on a job either leaves the store alone or commits one
    [job_transition] with the counter deltas of its shard; the theorems below
    are about arbitrary sequences of operations: terminal jobs stay terminal,
    leases are fenced by epochs that only grow, the fanout precedes success,
    and the projection counters are the number of jobs in each state. *)

From S2P Require Import Prelude PyValue Firestore Sha256 FinalizationDecision FinalizationJobs.
From S2P Require Import FinalizationRecovery.
From Stdlib Require Import QArith_base Ascii.
From stdpp Require Import pretty.
Local Open Scope Z_scope.

(** ** Statuses *)
Definition job_statuses : list string :=
  ["queued"; "leased"; "blocked_byok"; "completed"; "dead_letter"].

Lemma pretty_not_status (z : Z) st : st ∈ job_statuses -> pretty z <> st.
Proof.
  intros Hst Heq.
  assert (Hd : exists c s, st = String.String c s /\ digit_of c = None /\ c <> "-"%char).
  { unfold job_statuses in Hst. set_unfold in Hst.
    destruct Hst as [-> |[-> |[-> |[-> |[-> |[]]]]]]; by eexists _, _. }
  destruct Hd as (c & s & -> & Hc & Hm). destruct z as [|p|p].
  - injection Heq as <- _. done.
  - destruct (pretty_digits (Z.pos p)) as (ds & Hds & _ & Hall & _); [lia|].
    rewrite Heq in Hds. simpl in Hds. rewrite <-Hds in Hall.
    apply Forall_cons in Hall as [[d Hd] _]. congruence.
  - unfold pretty, pretty_Z in Heq. injection Heq as <- _. done.
Qed.

(** A status read as text is the stored string when it names a state. *)
Lemma get_str_status d k st :
  get_str d k "" = Ok st -> st ∈ job_statuses -> doc_get d k = VStr st.
Proof.
  unfold get_str, py_or. intros H Hst.
  assert (Hne : st <> "" /\ st <> "None" /\ st <> "True" /\ st <> "False").
  { unfold job_statuses in Hst. set_unfold in Hst. naive_solver. }
  destruct (doc_get d k) as [|b|z|q|s|aw us|l|m]; simpl in H.
  - naive_solver.
  - destruct b; simpl in H; naive_solver.
  - destruct (negb (z =? 0)); simpl in H; [|naive_solver].
    injection H as H. by apply pretty_not_status in H.
  - destruct (negb (Qeq_bool q 0)); simpl in H; naive_solver.
  - destruct (negb (bool_decide (s = ""))); simpl in H; naive_solver.
  - done.
  - destruct l; simpl in H; naive_solver.
  - destruct m; simpl in H; naive_solver.
Qed.

(** The fields of a receipt that carry its verdict. *)
Definition verdict_keys : list string :=
  ["meeting_receipt_schema_version"; "meeting_treatment_eligible"; "meeting_treatment_reason";
   "meeting_duration_s"; "meeting_dedup_speech_s"; "meeting_receipt_created_at"].

(** Membership of a concrete field in a concrete list of fields. *)
Ltac decide_key := refine (bool_decide_unpack _ _); vm_compute; exact I.

(** Which jobs a replay may touch: any job, unless a statement says otherwise. *)
Class ReplayPolicy := replay_ok : fields -> Prop.
#[global] Instance any_job : ReplayPolicy | 10 := fun _ => True.

(** ** Transitions of a job document

    What one operation writes to a job, with the deltas it records. *)
Inductive job_transition {P : ReplayPolicy} (job : fields) : updates -> list (string * Z) -> Prop :=
| TResume now :
    doc_get job "status" = VStr "blocked_byok" -> truthy (doc_get job "requires_byok") = true ->
    job_transition job
      [("status", FValue (VStr "queued")); ("updated_at", FValue (instant now));
       ("last_byok_resume_at", FValue (instant now)); ("reconcile_after_at", FDelete)]
      [("blocked_byok", -1); ("queued", 1)]
| TClaim now status epoch attempts expires reconcile :
    doc_get job "status" = VStr status -> status ∈ ["queued"; "leased"] ->
    get_int job "lease_epoch" 0 = Ok epoch ->
    (truthy (doc_get job "requires_byok") = true -> reconcile = FDelete) ->
    job_transition job
      [("status", FValue (VStr "leased")); ("leased_at", FValue (instant now));
       ("lease_expires_at", FValue (instant expires));
       ("lease_epoch", FValue (VInt (epoch + 1)));
       ("reconcile_after_at", reconcile); ("updated_at", FValue (instant now));
       ("attempt_count", FValue (VInt attempts))]
      (if bool_decide (status = "queued") then [("queued", -1); ("leased", 1)] else [])
| TComplete now :
    doc_get job "status" = VStr "leased" -> doc_get job "fanout_status" = VStr "completed" ->
    job_transition job
      [("status", FValue (VStr "completed")); ("completed_at", FValue (instant now));
       ("terminal_outcome", FValue (VStr "success")); ("updated_at", FValue (instant now));
       ("lease_expires_at", FValue (instant now)); ("reconcile_after_at", FDelete);
       ("last_failure_code", FValue VNone)]
      [("leased", -1); ("completed", 1); ("success", 1)]
| TFence now :
    doc_get job "status" = VStr "leased" -> doc_get job "fanout_status" <> VStr "completed" ->
    job_transition job (_fenced_finalization_update now)
      [("leased", -1); ("completed", 1); ("stale", 1)]
| TFanoutClaim now key epoch :
    doc_get job "status" = VStr "leased" -> doc_get job "fanout_status" <> VStr "completed" ->
    job_transition job
      [("fanout_key", FValue (VStr key)); ("fanout_status", FValue (VStr "leased"));
       ("fanout_lease_epoch", FValue (VInt epoch)); ("fanout_started_at", FValue (instant now));
       ("updated_at", FValue (instant now))] []
| TFanoutDone now :
    doc_get job "status" = VStr "leased" ->
    job_transition job
      [("fanout_status", FValue (VStr "completed")); ("fanout_completed_at", FValue (instant now));
       ("updated_at", FValue (instant now))] []
| TRetry now code reconcile :
    doc_get job "status" = VStr "leased" ->
    (truthy (doc_get job "requires_byok") = true -> reconcile = FDelete) ->
    job_transition job
      [("status", FValue (VStr "queued")); ("updated_at", FValue (instant now));
       ("lease_expires_at", FValue (instant now)); ("reconcile_after_at", reconcile);
       ("last_failure_code", FValue (VStr code))] [("leased", -1); ("queued", 1)]
| TDead now retries :
    doc_get job "status" = VStr "leased" ->
    job_transition job
      [("status", FValue (VStr "dead_letter")); ("updated_at", FValue (instant now));
       ("terminal_at", FValue (instant now)); ("terminal_outcome", FValue (VStr "failure"));
       ("lease_expires_at", FValue (instant now)); ("reconcile_after_at", FDelete);
       ("task_retry_count", FValue (VInt retries));
       ("last_failure_code", FValue (VStr "final_attempt_failed"))]
      [("leased", -1); ("dead_letter", 1); ("failure", 1)]
| TReplay now status generation t :
    doc_get job "status" = VStr status -> status ∈ ["queued"; "leased"] -> replay_ok job ->
    job_transition job
      [("status", FValue (VStr "queued")); ("dispatch_generation", FValue (VInt generation));
       ("dispatch_requested_at", FValue (instant now)); ("updated_at", FValue (instant now));
       ("lease_expires_at", FValue (instant now)); ("reconcile_after_at", FValue (instant t))]
      (if bool_decide (status = "leased") then [("leased", -1); ("queued", 1)] else [])
| TAbandon now status :
    doc_get job "status" = VStr status -> status ∈ ["queued"; "leased"] ->
    job_transition job
      [("status", FValue (VStr "dead_letter")); ("updated_at", FValue (instant now));
       ("terminal_at", FValue (instant now)); ("terminal_outcome", FValue (VStr "failure"));
       ("finalization_outcome", FValue (VStr BYOK_ABANDONED_FAILURE_CODE));
       ("lease_expires_at", FValue (instant now)); ("reconcile_after_at", FDelete);
       ("fanout_status", FValue (VStr "fenced")); ("fanout_fenced_at", FValue (instant now));
       ("last_failure_code", FValue (VStr BYOK_ABANDONED_FAILURE_CODE))]
      [("queued", if bool_decide (status = "queued") then -1 else 0);
       ("leased", if bool_decide (status = "leased") then -1 else 0);
       ("dead_letter", 1); ("failure", 1)]
| TReceipt u :
    (forall k, k ∈ u.*1 -> k ∈ receipt_keys) ->
    (py_eq (doc_get job "meeting_receipt_schema_version") (VInt MEETING_RECEIPT_SCHEMA_VERSION)
       = true -> forall k, k ∈ u.*1 -> k ∉ verdict_keys) ->
    job_transition job u [].

(** The write of the deltas to the shard document of a job. *)
Definition delta_writes (job : fields) (deltas : list (string * Z)) : list write :=
  match job_shard job, filter (fun kd : string * Z => kd.2 <> 0) deltas with
  | Some shard, (_ :: _) as incs =>
      [WMerge (_projection_ref shard)
         ([("generation", FValue (VStr FINALIZATION_PROJECTION_GENERATION));
           ("shard", FValue (VInt shard))] ++ ((fun kd => (kd.1, FIncrement kd.2)) <$> incs))]
  | _, _ => []
  end.

Lemma runs_delta job ds (Q : unit -> list write -> Prop) s ws :
  Q tt (ws ++ delta_writes job ds) -> runs (_record_projection_delta true job ds) Q s ws.
Proof.
  intros HQ. unfold _record_projection_delta, delta_writes in *. cbn [negb].
  destruct (job_shard job) as [sh|]; [|apply runs_ret; by rewrite app_nil_r in HQ].
  destruct (filter _ ds) as [|x xs] eqn:E; [apply runs_ret; by rewrite app_nil_r in HQ|].
  by apply runs_write.
Qed.

Lemma record_delta_ok job ds s ws :
  _record_projection_delta true job ds (TxnState s ws) =
  Ok (tt, TxnState s (ws ++ delta_writes job ds)).
Proof.
  unfold _record_projection_delta, delta_writes. cbn [negb].
  destruct (job_shard job); [|by rewrite app_nil_r].
  destruct (filter _ ds); [by rewrite app_nil_r|]. done.
Qed.

(** The deltas always commit, and write their shard document only. *)
Lemma commit_delta job ds s :
  exists s', commit (delta_writes job ds) s = Some s' /\
    forall p, (forall sh, p <> _projection_ref sh) -> s' !! p = s !! p.
Proof.
  unfold delta_writes. destruct (job_shard job) as [sh|]; [|by exists s].
  destruct (filter _ ds) as [|x xs]; [by exists s|]. eexists. split; [reflexivity|].
  intros p Hp. by rewrite lookup_insert_ne.
Qed.

(** Writes outside the job and the projection collections. *)
Definition conversation_or_cursor (p : path) : Prop :=
  (exists uid c, p = _conversation_ref uid c) \/ (exists name, p = cursor_ref name).

Definition aside (ws : list write) : Prop :=
  Forall (fun w => conversation_or_cursor (write_path w)) ws.

(** A job document as it is created: by an admission, or by a receipt for a
    conversation that had no job. *)
Inductive new_job_doc : fields -> list (string * Z) -> Prop :=
| NewAdmitted uid c revision (byok : bool) force platform key j rec now :
    let status := if byok then "blocked_byok" else "queued" in
    (byok = true -> rec = None) ->
    new_job_doc (new_job uid c revision status byok force platform key j rec now)
      [("accepted", 1); (status, 1)]
| NewReceipt uid c revision now receipt :
    receipt.*1 = receipt_keys -> new_job_doc (receipt_job uid c revision now receipt) [].

(** The writes one operation commits. *)
Inductive store_effect {P : ReplayPolicy} (s : db) : list write -> Prop :=
| EffAside ws : aside ws -> store_effect s ws
| EffJob j job u ds ws :
    s !! _job_ref j = Some job -> job_transition job u ds -> aside ws ->
    store_effect s (WUpdate (_job_ref j) u :: delta_writes job ds ++ ws)
| EffNew j job ds ws :
    default ∅ (s !! _job_ref j) = ∅ -> new_job_doc job ds -> aside ws ->
    store_effect s (WSet (_job_ref j) job :: delta_writes job ds ++ ws).

Lemma aside_nil : aside [].
Proof. constructor. Qed.
Lemma aside_conversation uid c u : aside [WUpdate (_conversation_ref uid c) u].
Proof. constructor; [left; eauto|constructor]. Qed.
Create HintDb jobs.
#[export] Hint Resolve aside_nil aside_conversation : jobs.

Lemma effect_none {P : ReplayPolicy} s : store_effect s [].
Proof. apply EffAside, aside_nil. Qed.
#[export] Hint Resolve effect_none : jobs.

Lemma effect_job {P : ReplayPolicy} s j job u ds :
  s !! _job_ref j = Some job -> job_transition job u ds ->
  store_effect s (WUpdate (_job_ref j) u :: delta_writes job ds).
Proof. intros. rewrite <-(app_nil_r (delta_writes _ _)). eapply EffJob; eauto with jobs. Qed.

Lemma effect_job_alone {P : ReplayPolicy} s j job u :
  s !! _job_ref j = Some job -> job_transition job u [] ->
  store_effect s [WUpdate (_job_ref j) u].
Proof.
  intros Hj Ht. pose proof (effect_job s j job u [] Hj Ht) as H.
  unfold delta_writes in H. by destruct (job_shard job).
Qed.
#[export] Hint Resolve effect_job effect_job_alone : jobs.

Lemma current_lease_status job g e :
  _is_current_lease job g e = Ok true -> doc_get job "status" = VStr "leased".
Proof.
  unfold _is_current_lease. destruct (v_is _ _) eqn:E; [|done]. intros _. by apply v_is_true.
Qed.

(** ** The operations implement the transitions

    [effects] runs a transaction symbolically; what is left are the branches
    that write. *)
Definition implements {P : ReplayPolicy} {A} (t : Txn A) : Prop :=
  forall s, runs t (fun _ ws => store_effect s ws) s [].

Ltac effects :=
  repeat first
    [ runs_step
    | apply runs_delta
    | progress cbn [app]
    | match goal with
      | |- store_effect _ _ => solve [eauto with jobs]
      | |- runs (if ?b then _ else _) _ _ _ => destruct b eqn:?
      | |- runs (match ?o with Some _ => _ | None => _ end) _ _ _ => destruct o eqn:?
      | |- runs (let _ := _ in _) _ _ _ => cbv zeta
      | |- runs (match ?p with (_, _) => _ end) _ _ _ => destruct p
      end
    | progress intros ].

Lemma resume_implements {P : ReplayPolicy} j now : implements (_resume_blocked_byok_job_txn j now true).
Proof.
  intros s. unfold _resume_blocked_byok_job_txn. effects.
  py_bools. eauto using effect_job, job_transition.
Qed.

Lemma transition_eq {P : ReplayPolicy} job u ds ds' : job_transition job u ds' -> ds = ds' -> job_transition job u ds.
Proof. by intros ? ->. Qed.

Lemma active_status job st :
  get_str job "status" "" = Ok st -> negb (is_member st ["queued"; "leased"]) = false ->
  doc_get job "status" = VStr st /\ st ∈ ["queued"; "leased"].
Proof.
  intros H Hm. apply negb_false_iff, bool_decide_eq_true in Hm. split; [|done].
  apply get_str_status; [done|]. unfold job_statuses. set_solver.
Qed.

Ltac active := match goal with
  | H : get_str _ "status" "" = Ok ?st, Hm : negb (is_member ?st _) = false |- _ =>
      destruct (active_status _ _ H Hm)
  end.

(** [by_transition T] closes a branch whose writes are those of [T]. *)
Ltac by_transition T :=
  first [eapply effect_job | eapply effect_job_alone]; [eassumption|];
  eapply transition_eq;
    [eapply T; first [eassumption | let Hb := fresh in intros Hb; first [by rewrite Hb | congruence]]|];
  repeat match goal with H : bool_decide _ = _ |- _ => rewrite H; clear H end; reflexivity.

Lemma claim_implements {P : ReplayPolicy} j g byok ls now eu ec :
  implements (_claim_finalization_job_txn j g byok ls now eu ec true).
Proof.
  intros s. unfold _claim_finalization_job_txn. effects; active; by_transition TClaim.
Qed.

Lemma replay_implements {P : ReplayPolicy} j sa now s :
  (forall job, s !! _job_ref j = Some job -> replay_ok job) ->
  runs (_claim_finalization_replay_txn j sa now true) (fun _ ws => store_effect s ws) s [].
Proof.
  intros Hok. unfold _claim_finalization_replay_txn.
  effects; active; pose proof (Hok _ eq_refl); by_transition TReplay.
Qed.

Ltac leased := py_bools; subst; match goal with
  | H : _is_current_lease _ _ _ = Ok true |- _ => pose proof (current_lease_status _ _ _ H)
  end.

Lemma completed_implements {P : ReplayPolicy} j g e now : implements (_mark_finalization_completed_txn j g e now true).
Proof.
  intros s. unfold _mark_finalization_completed_txn. effects; leased; by_transition TComplete.
Qed.

Lemma fenced_implements {P : ReplayPolicy} j g e now : implements (_mark_finalization_fenced_txn j g e now true).
Proof.
  intros s. unfold _mark_finalization_fenced_txn, fence_job. effects.
  assert (doc_get g0 "fanout_status" <> VStr "completed").
  { intros E. rewrite E in *. by destruct (negb _) eqn:? in *. }
  leased; by_transition TFence.
Qed.

Lemma fanout_claim_implements {P : ReplayPolicy} j g e now :
  implements (_claim_finalization_fanout_txn j g e now _conversation_ref true).
Proof.
  intros s. unfold _claim_finalization_fanout_txn, fence_job. effects; leased;
    (by_transition TFence || by_transition TFanoutClaim).
Qed.

Lemma fanout_done_implements {P : ReplayPolicy} j g e now :
  implements (_mark_finalization_fanout_completed_txn j g e now).
Proof.
  intros s. unfold _mark_finalization_fanout_completed_txn. effects; leased;
    by_transition TFanoutDone.
Qed.

Lemma retryable_implements {P : ReplayPolicy} `{!FinalizationEnv} j g e code now :
  implements (_mark_finalization_retryable_txn j g e code now true).
Proof.
  intros s. unfold _mark_finalization_retryable_txn. effects; leased; by_transition TRetry.
Qed.

(** A bound conversation is at a conversation path. *)
Lemma runs_bound job (Q : option (path * fields) -> list write -> Prop) s :
  Q None [] ->
  (forall uid c d, s !! _conversation_ref uid c = Some d -> Q (Some (_conversation_ref uid c, d)) []) ->
  runs (read_bound_conversation _conversation_ref job) Q s [].
Proof.
  intros HN HS. unfold read_bound_conversation.
  destruct (as_id (doc_get job "uid")) as [uid|]; [|by apply runs_ret].
  destruct (as_id (doc_get job "conversation_id")) as [c|]; [|by apply runs_ret].
  apply runs_bind, runs_get, runs_ret.
  destruct (s !! _conversation_ref uid c) eqn:E; simpl; auto.
Qed.

Lemma dead_letter_implements {P : ReplayPolicy} j g e rc now :
  implements (_mark_finalization_dead_letter_txn j g e rc now _conversation_ref true).
Proof.
  intros s. unfold _mark_finalization_dead_letter_txn. effects.
  apply runs_bound; [|intros uid c conv _]; effects; leased.
  - by_transition TDead.
  - eapply EffJob; [eassumption|by apply TDead|auto with jobs].
  - by_transition TDead.
Qed.

Lemma abandon_implements {P : ReplayPolicy} j st g e cutoff now :
  implements (_abandon_byok_finalization_job_txn j st g e cutoff now _conversation_ref true).
Proof.
  intros s. unfold _abandon_byok_finalization_job_txn. effects.
  all: apply runs_bound; [|intros uid c conv _]; effects.
  all: match goal with
       | H : negb (is_member ?a _) || _ = false |- _ => apply orb_false_iff in H as [? ?]
       end; active.
  all: first [by_transition TAbandon
             | eapply EffJob; [eassumption| |auto with jobs];
               eapply transition_eq; [by apply (TAbandon _ now _ ltac:(eassumption))|];
               repeat match goal with H : bool_decide _ = _ |- _ => rewrite H; clear H end;
               reflexivity].
Qed.

Lemma effect_aside {P : ReplayPolicy} s ws : aside ws -> store_effect s ws.
Proof. apply EffAside. Qed.
#[export] Hint Resolve effect_aside : jobs.

#[local] Opaque _projection_shard _job_id.

Lemma create_implements {P : ReplayPolicy} `{!FinalizationEnv} uid c byok admission now force extra :
  implements (_create_or_get_finalization_intent_txn (_conversation_ref uid c) uid c byok admission
                now true force extra).
Proof.
  intros s. unfold _create_or_get_finalization_intent_txn, _conversation_has_finalization_content.
  effects.
  all: try (apply runs_nonempty; intros ?; effects).
  all: eapply EffNew; [by match goal with H : _ = None |- _ => rewrite H end| |auto with jobs].
  all: match goal with
       | |- new_job_doc (new_job _ _ _ _ ?b _ _ _ _ _ _) _ => apply (NewAdmitted uid c _ b)
       end; congruence.
Qed.

Lemma delta_writes_nil job : delta_writes job [] = [].
Proof. unfold delta_writes. by destruct (job_shard job). Qed.

Lemma effect_receipt_update {P : ReplayPolicy} s j u ws :
  is_empty (default ∅ (s !! _job_ref j)) = false ->
  py_eq (doc_get (default ∅ (s !! _job_ref j)) "meeting_receipt_schema_version")
    (VInt MEETING_RECEIPT_SCHEMA_VERSION) = false ->
  (fvalues u).*1 = receipt_keys -> aside ws ->
  store_effect s (WUpdate (_job_ref j) (fvalues u) :: ws).
Proof.
  intros Hne Hv Hu Hws. destruct (s !! _job_ref j) as [job|] eqn:E; [|done]. simpl in Hv.
  rewrite <-(app_nil_l ws), <-(delta_writes_nil job). eapply EffJob; [done| |done].
  apply TReceipt; [intros k Hk; by rewrite <-Hu|congruence].
Qed.

Lemma effect_receipt_new {P : ReplayPolicy} s j uid c revision now receipt ws :
  is_empty (default ∅ (s !! _job_ref j)) = true -> receipt.*1 = receipt_keys -> aside ws ->
  store_effect s (WSet (_job_ref j) (receipt_job uid c revision now receipt) :: ws).
Proof.
  intros He Hr Hws. apply bool_decide_eq_true in He.
  rewrite <-(app_nil_l ws), <-(delta_writes_nil (receipt_job uid c revision now receipt)).
  eapply EffNew; [done|by apply NewReceipt|done].
Qed.

Lemma receipt_implements {P : ReplayPolicy} uid c fj el reason dur sp now :
  implements (_record_meeting_receipt_txn (_conversation_ref uid c) uid c fj el reason dur sp now).
Proof.
  intros s. unfold _record_meeting_receipt_txn. effects.
  all: py_bools.
  all: first [apply effect_receipt_update | apply effect_receipt_new];
    first [done|reflexivity|solve [auto with jobs]].
Qed.

Lemma intent_keys k i now :
  k ∈ ([("meeting_receipt_intent_id", FValue (VStr i));
        ("meeting_receipt_intent_persisted_at", FValue (instant now));
        ("meeting_receipt_updated_at", FValue (instant now))] : updates).*1 ->
  k ∈ receipt_keys /\ k ∉ verdict_keys.
Proof.
  simpl. intros Hk. repeat (apply elem_of_cons in Hk as [-> |Hk]; [split; decide_key|]).
  by apply not_elem_of_nil in Hk.
Qed.

Lemma materialized_keys k now :
  k ∈ ([("meeting_receipt_materialized_at", FValue (instant now));
        ("meeting_receipt_updated_at", FValue (instant now))] : updates).*1 ->
  k ∈ receipt_keys /\ k ∉ verdict_keys.
Proof.
  simpl. intros Hk. repeat (apply elem_of_cons in Hk as [-> |Hk]; [split; decide_key|]).
  by apply not_elem_of_nil in Hk.
Qed.

Lemma persisted_implements {P : ReplayPolicy} j i now s s' b :
  mark_meeting_receipt_intent_persisted j i now s = Ok (b, s') ->
  exists ws, store_effect s ws /\ commit ws s = Some s'.
Proof.
  intros H. eapply (run_txn_runs _ (fun _ ws => store_effect s ws)); [|exact H]. effects.
  all: destruct (doc_get _ "meeting_receipt_intent_id"); effects.
  all: eapply effect_job_alone; [eassumption|].
  all: apply TReceipt; [|intros _]; intros k; apply intent_keys.
Qed.

Lemma materialized_implements {P : ReplayPolicy} uid c i now s s' b :
  mark_meeting_receipt_materialized uid c i now s = Ok (b, s') ->
  exists ws, store_effect s ws /\ commit ws s = Some s'.
Proof.
  intros H. eapply (run_txn_runs _ (fun _ ws => store_effect s ws)); [|exact H]. effects.
  eapply effect_job_alone; [eassumption|].
  apply TReceipt; [|intros _]; intros k; apply materialized_keys.
Qed.

Lemma guarded_implements {P : ReplayPolicy} uid c test u : implements (guarded_update (_conversation_ref uid c) test u).
Proof. intros s. unfold guarded_update. effects. Qed.

Lemma advance_implements {P : ReplayPolicy} name g p now :
  implements (_advance_stale_processing_sweep_cursor_txn (cursor_ref name) g p now).
Proof.
  intros s. unfold _advance_stale_processing_sweep_cursor_txn. effects.
  apply EffAside. constructor; [right; by eexists|constructor].
Qed.

(** ** Sequences of operations *)
Section Ops.
Context {Env : FinalizationEnv}.

Inductive job_op :=
| OpCreate (uid c : string) (byok : bool) (admission : fields -> res FinalizationAdmission)
    (force : bool) (extra : dict) (now : Z)
| OpResume (j : string) (now : Z)
| OpClaim (j : string) (g : Z) (byok : bool) (lease_seconds : Z) (uid c : option string) (now : Z)
| OpComplete (j : string) (g e now : Z)
| OpFenced (j : string) (g e now : Z)
| OpFanoutClaim (j : string) (g e now : Z)
| OpFanoutDone (j : string) (g e now : Z)
| OpRetry (j : string) (g e : Z) (code : string) (now : Z)
| OpDead (j : string) (g e retries now : Z)
| OpReplay (j : string) (stale_after now : Z)
| OpAbandon (j st : string) (g e abandoned_after now : Z)
| OpReceipt (uid c : string) (job : option string) (eligible : bool) (reason : string)
    (duration speech : Q) (now : Z)
| OpReceiptIntent (j i : string) (now : Z)
| OpReceiptMaterialized (uid c i : string) (now : Z)
| OpStamp (uid c : string) (now : Z)
| OpUnstampable (uid c : string) (update_time : value) (stale_after now : Z)
| OpOrphan (uid c : string) (admitted_at : value)
| OpRenew (uid c : string) (now : Z)
| OpReacquire (uid c : string) (now : Z)
| OpRecover (uid c : string)
| OpAdvance (name : string) (g : Z) (p : option string) (now : Z).

(** The store after an operation (its result is dropped). *)
Definition store_of {A} (r : res (A * db)) : res db := '(_, s) ← r; mret s.

Definition job_step (op : job_op) (s : db) : res db :=
  match op with
  | OpCreate uid c byok adm force extra now =>
      store_of (create_or_get_finalization_intent uid c byok adm force extra now s)
  | OpResume j now => store_of (resume_blocked_byok_job_for_live_session j now s)
  | OpClaim j g byok ls uid c now => store_of (claim_finalization_job j g byok ls uid c now s)
  | OpComplete j g e now => store_of (mark_finalization_completed j g e now s)
  | OpFenced j g e now => store_of (mark_finalization_fenced j g e now s)
  | OpFanoutClaim j g e now => store_of (claim_finalization_fanout j g e now s)
  | OpFanoutDone j g e now => store_of (mark_finalization_fanout_completed j g e now s)
  | OpRetry j g e code now => store_of (mark_finalization_retryable j g e code now s)
  | OpDead j g e rc now => store_of (mark_finalization_dead_letter j g e rc now s)
  | OpReplay j sa now => store_of (claim_finalization_replay j sa now s)
  | OpAbandon j st g e after now => store_of (abandon_byok_finalization_job j st g e after now s)
  | OpReceipt uid c job el reason dur sp now =>
      store_of (record_meeting_receipt uid c job el reason dur sp now s)
  | OpReceiptIntent j i now => store_of (mark_meeting_receipt_intent_persisted j i now s)
  | OpReceiptMaterialized uid c i now =>
      store_of (mark_meeting_receipt_materialized uid c i now s)
  | OpStamp uid c now => store_of (stamp_processing_admission_if_absent uid c now s)
  | OpUnstampable uid c ut sa now =>
      store_of (complete_unstampable_orphan_conversation uid c ut sa now s)
  | OpOrphan uid c v => store_of (complete_orphan_conversation uid c v s)
  | OpRenew uid c now => store_of (renew_processing_lease uid c now s)
  | OpReacquire uid c now => store_of (reacquire_deferred_processing uid c now s)
  | OpRecover uid c => store_of (recover_deferred_processing_failure uid c s)
  | OpAdvance name g p now => store_of (advance_cursor name g p now s)
  end.

(** An operation that raises commits nothing. *)
Definition job_run (ops : list job_op) (s : db) : db :=
  foldl (fun s op => match job_step op s with Ok s' => s' | Raise _ => s end) s ops.

Lemma store_of_Ok {A} (r : res (A * db)) s' : store_of r = Ok s' -> exists a, r = Ok (a, s').
Proof. destruct r as [[a s]|]; [|done]. intros [= <-]. by exists a. Qed.

Lemma implements_effect {P : ReplayPolicy} {A} (t : Txn A) s s' :
  implements t -> store_of (run_txn t s) = Ok s' ->
  exists ws, store_effect s ws /\ commit ws s = Some s'.
Proof.
  intros Ht [a Ha]%store_of_Ok. exact (run_txn_runs _ (fun _ => store_effect s) _ _ _ (Ht s) Ha).
Qed.

(** The replays of an operation are of jobs the policy allows. *)
Definition replays_ok {P : ReplayPolicy} (op : job_op) (s : db) : Prop :=
  match op with
  | OpReplay j _ _ => forall job, s !! _job_ref j = Some job -> replay_ok job
  | _ => True
  end.

Lemma job_step_effect {P : ReplayPolicy} op s s' :
  replays_ok op s -> job_step op s = Ok s' ->
  exists ws, store_effect s ws /\ commit ws s = Some s'.
Proof.
  destruct op; unfold job_step; intros Hok H.
  - eapply implements_effect; [|exact H]. apply create_implements.
  - eapply implements_effect; [|exact H]. apply resume_implements.
  - eapply implements_effect; [|exact H]. apply claim_implements.
  - eapply implements_effect; [|exact H]. apply completed_implements.
  - eapply implements_effect; [|exact H]. apply fenced_implements.
  - eapply implements_effect; [|exact H]. apply fanout_claim_implements.
  - eapply implements_effect; [|exact H]. apply fanout_done_implements.
  - eapply implements_effect; [|exact H]. apply retryable_implements.
  - eapply implements_effect; [|exact H]. apply dead_letter_implements.
  - apply store_of_Ok in H as [b H].
    exact (run_txn_runs _ (fun _ => store_effect s) _ _ _ (replay_implements j stale_after now s Hok) H).
  - unfold abandon_byok_finalization_job in H. destruct (dt_add now (- abandoned_after)); [|done].
    eapply implements_effect; [|exact H]. apply abandon_implements.
  - eapply implements_effect; [|exact H]. apply receipt_implements.
  - apply store_of_Ok in H as [b H]. by eapply persisted_implements.
  - apply store_of_Ok in H as [b H]. by eapply materialized_implements.
  - eapply implements_effect; [|exact H]. apply guarded_implements.
  - unfold complete_unstampable_orphan_conversation in H.
    destruct (dt_add now (- stale_after)); [|done].
    eapply implements_effect; [|exact H]. apply guarded_implements.
  - eapply implements_effect; [|exact H]. apply guarded_implements.
  - eapply implements_effect; [|exact H]. apply guarded_implements.
  - eapply implements_effect; [|exact H]. apply guarded_implements.
  - eapply implements_effect; [|exact H]. apply guarded_implements.
  - eapply implements_effect; [|exact H]. apply advance_implements.
Qed.

Lemma job_run_invariant (P : db -> Prop) ops s :
  (forall s ws s', P s -> store_effect s ws -> commit ws s = Some s' -> P s') ->
  P s -> P (job_run ops s).
Proof.
  intros Hstep. revert s. induction ops as [|op ops IH]; intros s HP; [done|].
  unfold job_run. simpl. apply IH. destruct (job_step op s) as [s'|] eqn:E; [|done].
  apply job_step_effect in E as (ws & He & Hc); [eauto|by destruct op].
Qed.
End Ops.

(** ** What one effect does to a job *)
Lemma aside_job j ws : aside ws -> _job_ref j ∉ (write_path <$> ws).
Proof.
  intros Ha Hin. apply list_elem_of_fmap in Hin as (w & Hp & Hw).
  destruct (proj1 (Forall_forall _ _) Ha w Hw) as [(uid & c & E)|(name & E)];
    rewrite E in Hp; discriminate.
Qed.

Lemma aside_projection sh ws : aside ws -> _projection_ref sh ∉ (write_path <$> ws).
Proof.
  intros Ha Hin. apply list_elem_of_fmap in Hin as (w & Hp & Hw).
  destruct (proj1 (Forall_forall _ _) Ha w Hw) as [(uid & c & E)|(name & E)];
    rewrite E in Hp; discriminate.
Qed.

Lemma delta_job j job ds : _job_ref j ∉ (write_path <$> delta_writes job ds).
Proof.
  unfold delta_writes. destruct (job_shard job); [|set_solver].
  destruct (filter _ ds); [set_solver|]. rewrite list_elem_of_fmap. intros (w & Hp & Hw).
  apply list_elem_of_singleton in Hw as ->. discriminate.
Qed.

Lemma job_ref_inj j j' : _job_ref j = _job_ref j' -> j = j'.
Proof. by intros [=]. Qed.

(** A job after an effect: untouched, moved by a transition, or created. *)
Lemma effect_on_job {P : ReplayPolicy} s ws s' j :
  store_effect s ws -> commit ws s = Some s' ->
  s' !! _job_ref j = s !! _job_ref j \/
  (exists job u ds, s !! _job_ref j = Some job /\ job_transition job u ds /\
     s' !! _job_ref j = Some (apply_ops false job u)) \/
  (default ∅ (s !! _job_ref j) = ∅ /\ exists job ds, new_job_doc job ds /\ s' !! _job_ref j = Some job).
Proof.
  intros He Hc. destruct He as [ws Ha|j' job u ds ws Hj Ht Ha|j' job ds ws Hj Hn Ha].
  - left. eapply commit_other; [done|]. by apply aside_job.
  - simpl in Hc. rewrite Hj in Hc.
    assert (Hrest : s' !! _job_ref j = <[_job_ref j' := apply_ops false job u]> s !! _job_ref j).
    { eapply commit_other; [exact Hc|]. rewrite fmap_app, not_elem_of_app.
      split; [apply delta_job|by apply aside_job]. }
    rewrite lookup_insert in Hrest. destruct (decide (_job_ref j' = _job_ref j)) as [E|]; [|by left].
    rewrite E in Hj. right. left. eauto 10.
  - simpl in Hc.
    assert (Hrest : s' !! _job_ref j = <[_job_ref j' := job]> s !! _job_ref j).
    { eapply commit_other; [exact Hc|]. rewrite fmap_app, not_elem_of_app.
      split; [apply delta_job|by apply aside_job]. }
    rewrite lookup_insert in Hrest. destruct (decide (_job_ref j' = _job_ref j)) as [E|]; [|by left].
    rewrite E in Hj. right. right. eauto 10.
Qed.

(** ** Fields of the created documents *)
Lemma doc_app_notin l1 l2 k : k ∉ l2.*1 -> doc (l1 ++ l2) !! k = doc l1 !! k.
Proof.
  intros Hk. unfold doc. rewrite rev_app_distr, list_to_map_app, lookup_union_r; [done|].
  apply not_elem_of_list_to_map_1. intros Hin. apply Hk.
  apply list_elem_of_fmap in Hin as (x & -> & Hx). apply list_elem_of_fmap. exists x.
  split; [done|]. by apply list_elem_of_In, in_rev, list_elem_of_In in Hx.
Qed.

Lemma receipt_job_get uid c revision now receipt k :
  receipt.*1 = receipt_keys -> k ∉ receipt_keys ->
  receipt_job uid c revision now receipt !! k = receipt_job uid c revision now [] !! k.
Proof.
  intros Hr Hk. unfold receipt_job. rewrite app_nil_r. apply doc_app_notin. by rewrite Hr.
Qed.
