(* ===== verification/FinalizationTheorems.v ===== *)
(** * Theorems on sequences of finalization operations *)

From S2P Require Import Prelude PyValue Firestore Sha256 FinalizationDecision FinalizationJobs.
From S2P Require Import FinalizationRecovery FinalizationProofs.
From Stdlib Require Import QArith_base.
Local Open Scope Z_scope.

#[local] Opaque _projection_shard _job_id.

Lemma new_job_nonempty job ds : new_job_doc job ds -> job <> ∅.
Proof.
  intros Hn He. assert (H : job !! "schema_version" = Some (VInt 1)); [|by rewrite He in H].
  destruct Hn; [destruct rec; reflexivity|].
  rewrite receipt_job_get; [reflexivity|done|]. unfold receipt_keys. set_solver.
Qed.

Lemma receipt_get m job (u : updates) k :
  (forall k, k ∈ u.*1 -> k ∈ receipt_keys) -> k ∉ receipt_keys ->
  doc_get (apply_ops m job u) k = doc_get job k.
Proof. intros Hu Hk. apply doc_get_apply_notin. auto. Qed.

Lemma doc_present job k v : doc_get job k = v -> v <> VNone -> job !! k = Some v.
Proof. unfold doc_get. destruct (job !! k); simpl; congruence. Qed.

Ltac other := decide_key.

(** ** The shape of a job

    A completed job either delivered its fanout (success) or fenced it (stale);
    a dead-lettered one failed; an unfinished one has no outcome yet. *)
Record job_wf (job : fields) : Prop := {
  wf_completed : doc_get job "status" = VStr "completed" ->
    (doc_get job "terminal_outcome" = VStr "success" /\
     doc_get job "fanout_status" = VStr "completed") \/
    (doc_get job "terminal_outcome" = VStr "stale" /\ doc_get job "fanout_status" = VStr "fenced");
  wf_dead : doc_get job "status" = VStr "dead_letter" ->
    doc_get job "terminal_outcome" = VStr "failure";
  wf_active : doc_get job "status" <> VStr "completed" ->
    doc_get job "status" <> VStr "dead_letter" ->
    doc_get job "terminal_outcome" <> VStr "success" /\
    doc_get job "terminal_outcome" <> VStr "stale" /\
    doc_get job "terminal_outcome" <> VStr "failure"
}.

Lemma transition_wf job u ds :
  job_wf job -> job_transition job u ds -> job_wf (apply_ops false job u).
Proof.
  intros [Hc Hd Ha] Ht.
  assert (Hact : forall st, doc_get job "status" = VStr st -> st <> "completed" ->
    st <> "dead_letter" -> doc_get job "terminal_outcome" <> VStr "success" /\
    doc_get job "terminal_outcome" <> VStr "stale" /\
    doc_get job "terminal_outcome" <> VStr "failure").
  { intros st Hst ? ?. apply Ha; congruence. }
  assert (Hin : forall st, st ∈ ["queued"; "leased"] -> st <> "completed" /\ st <> "dead_letter").
  { intros st. set_unfold. naive_solver. }
  destruct Ht; try match goal with H : _ ∈ ["queued"; "leased"] |- _ => apply Hin in H as [? ?] end;
    try (match goal with H : doc_get job "status" = VStr _ |- _ =>
           pose proof (Hact _ H ltac:(done) ltac:(done)) as (? & ? & ?) end;
         clear Hc Hd Ha Hact Hin; split; rewrite !doc_get_apply; simpl; unfold doc_get in *; try done; intros; auto; congruence).
  split; rewrite !(receipt_get false job u) by (done || other); auto.
Qed.

Lemma new_job_wf job ds : new_job_doc job ds -> job_wf job.
Proof.
  intros Hn. destruct Hn as [uid c revision byok force platform key j rec now status|].
  - assert (doc_get (new_job uid c revision status byok force platform key j rec now) "status"
      = VStr status) as Hst by (by destruct rec).
    assert (doc_get (new_job uid c revision status byok force platform key j rec now)
      "terminal_outcome" = VNone) as Ho by (by destruct rec).
    split; rewrite Hst, ?Ho; destruct byok; done.
  - assert (Hget : forall k, k ∉ receipt_keys ->
      doc_get (receipt_job uid c revision now receipt) k =
      doc_get (receipt_job uid c revision now []) k).
    { intros k Hk. unfold doc_get. by rewrite receipt_job_get. }
    pose proof (Hget "status" ltac:(other)) as Hst.
    pose proof (Hget "terminal_outcome" ltac:(other)) as Ho.
    pose proof (Hget "fanout_status" ltac:(other)) as Hf.
    split; rewrite Hst, ?Ho, ?Hf.
    + intros _. left. split; reflexivity.
    + intros E. discriminate E.
    + intros E. by destruct E.
Qed.

Definition store_wf (s : db) : Prop := forall j job, s !! _job_ref j = Some job -> job_wf job.

Lemma effect_wf_store s ws s' :
  store_wf s -> store_effect s ws -> commit ws s = Some s' -> store_wf s'.
Proof.
  intros Hs He Hc j job' Hj'.
  destruct (effect_on_job _ _ _ j He Hc) as
    [Heq|[(job & u & ds & Hj & Ht & Hs')|(_ & nj & ds & Hn & Hs')]].
  - apply (Hs j). congruence.
  - rewrite Hj' in Hs'. injection Hs' as ->. eapply transition_wf; [by apply (Hs j)|done].
  - rewrite Hj' in Hs'. injection Hs' as ->. by eapply new_job_wf.
Qed.

Section Sequences.
Context {Env : FinalizationEnv}.

(** C2: Terminal jobs are final.  Once a finalization job is completed or
    dead-lettered, no sequence of operations (claims, replays, retries,
    completions, abandonments, sweeps, by any worker) removes it or changes any
    of its fields other than those of its meeting receipt. *)
Theorem terminal_job_is_absorbing j job st ops s :
  s !! _job_ref j = Some job -> doc_get job "status" = VStr st -> st ∈ TERMINAL_JOB_STATUSES ->
  exists job', job_run ops s !! _job_ref j = Some job' /\
    forall k, k ∉ receipt_keys -> job' !! k = job !! k.
Proof.
  intros Hj Hst Hterm.
  apply (job_run_invariant (fun s => exists job', s !! _job_ref j = Some job' /\
    forall k, k ∉ receipt_keys -> job' !! k = job !! k)); [|by exists job].
  clear s Hj. intros s ws s' (job' & Hj & Hk) He Hc.
  assert (Hst' : doc_get job' "status" = VStr st).
  { unfold doc_get. rewrite Hk by other. done. }
  destruct (effect_on_job _ _ _ j He Hc) as [Heq|[(job2 & u & ds & Hj2 & Ht & Hs')|(Hd & _)]].
  - exists job'. by rewrite Heq.
  - rewrite Hj in Hj2. injection Hj2 as <-. unfold TERMINAL_JOB_STATUSES in Hterm.
    destruct Ht; try (rewrite Hst' in *; simplify_eq; set_solver).
    eexists. split; [exact Hs'|]. intros k Hkr. rewrite apply_ops_notin; auto.
  - rewrite Hj in Hd. simpl in Hd. subst job'. discriminate Hst'.
Qed.

(** ** Lease epochs *)
Definition epoch_at_least (j : string) (e : Z) (s : db) : Prop :=
  exists job e', s !! _job_ref j = Some job /\ get_int job "lease_epoch" 0 = Ok e' /\ e <= e'.

Lemma get_int_same d d' k n : doc_get d' k = doc_get d k -> get_int d' k n = get_int d k n.
Proof. unfold get_int. by intros ->. Qed.

Lemma get_int_set d k z : doc_get d k = VInt z -> get_int d k 0 = Ok z.
Proof.
  unfold get_int, py_or. intros ->. simpl. destruct (Z.eqb_spec z 0) as [->|]; done.
Qed.

Lemma transition_epoch job u ds :
  job_transition job u ds ->
  doc_get (apply_ops false job u) "lease_epoch" = doc_get job "lease_epoch" \/
  exists e, get_int job "lease_epoch" 0 = Ok e /\
    doc_get (apply_ops false job u) "lease_epoch" = VInt (e + 1).
Proof.
  destruct 1; try (left; unfold _fenced_finalization_update; ops_get; done).
  - right. exists epoch. split; [done|]. destruct reconcile; ops_get; done.
  - left. destruct reconcile; ops_get; done.
  - left. apply receipt_get; [done|other].
Qed.

Lemma epoch_monotone j e ops s : epoch_at_least j e s -> epoch_at_least j e (job_run ops s).
Proof.
  apply (job_run_invariant (epoch_at_least j e)).
  clear s. intros s ws s' (job & e' & Hj & He' & Hle) He Hc.
  destruct (effect_on_job _ _ _ j He Hc) as [Heq|[(job2 & u & ds & Hj2 & Ht & Hs')|(Hd & nj & ds & Hn & Hs')]].
  - exists job, e'. by rewrite Heq.
  - rewrite Hj in Hj2. injection Hj2 as <-. exists (apply_ops false job u).
    destruct (transition_epoch _ _ _ Ht) as [H|(e1 & He1 & H)].
    + exists e'. split; [done|]. split; [|done]. by rewrite (get_int_same _ _ _ _ H).
    + exists (e1 + 1). split; [done|]. split; [by apply get_int_set|].
      rewrite He' in He1. simplify_eq. lia.
  - rewrite Hj in Hd. simpl in Hd. subst job. injection He' as <-.
    exists nj. eexists. split; [done|]. split; [|exact Hle].
    unfold get_int, doc_get. destruct Hn; [by destruct rec|].
    rewrite receipt_job_get; [reflexivity|done|other].
Qed.

(** The calls a worker makes with the epoch of its lease, and whether each took
    effect. *)
Inductive lease_call :=
| CallComplete | CallFence | CallRetry (code : string) | CallDead (retries : Z)
| CallFanoutClaim | CallFanoutDone.

Definition lease_call_run (c : lease_call) (j : string) (g e now : Z) (s : db) : res (bool * db) :=
  match c with
  | CallComplete => mark_finalization_completed j g e now s
  | CallFence => mark_finalization_fenced j g e now s
  | CallRetry code => mark_finalization_retryable j g e code now s
  | CallDead retries => mark_finalization_dead_letter j g e retries now s
  | CallFanoutClaim =>
      '(r, s') ← claim_finalization_fanout j g e now s;
      mret (bool_decide (fanout_claim_status r = "claimed" \/ fanout_claim_status r = "fenced"), s')
  | CallFanoutDone => mark_finalization_fanout_completed j g e now s
  end.

Lemma not_current job g e e0 :
  get_int job "lease_epoch" 0 = Ok e0 -> e0 <> e -> _is_current_lease job g e <> Ok true.
Proof.
  intros He Hne. unfold _is_current_lease. destruct (negb _); [done|].
  destruct (get_int job "dispatch_generation" 1) as [g'|]; [|done]. simpl.
  destruct (negb _); [done|]. rewrite He. simpl. intros [= H]. by apply Z.eqb_eq in H.
Qed.

(** A transaction that buffers no write leaves the store alone. *)
Lemma runs_quiet {A} (t : Txn A) (P : A -> Prop) s a s' :
  runs t (fun a ws => P a /\ ws = []) s [] -> run_txn t s = Ok (a, s') -> P a /\ s' = s.
Proof.
  intros Ht H. destruct (run_txn_runs _ _ _ _ _ Ht H) as (ws & [HP ->] & Hc).
  split; [done|]. by injection Hc.
Qed.

Ltac quiet :=
  repeat first
    [ runs_step
    | match goal with
      | |- runs (if ?b then _ else _) _ _ _ => destruct b eqn:?
      | |- runs (match ?o with Some _ => _ | None => _ end) _ _ _ => destruct o eqn:?
      end
    | progress intros ].

Lemma wrong_epoch_fanout j g e e0 now s job r s' :
  s !! _job_ref j = Some job -> get_int job "lease_epoch" 0 = Ok e0 -> e0 <> e ->
  claim_finalization_fanout j g e now s = Ok (r, s') ->
  ~ (fanout_claim_status r = "claimed" \/ fanout_claim_status r = "fenced") /\ s' = s.
Proof.
  intros Hj He Hne H. pose proof (not_current job g e e0 He Hne) as Hcur.
  apply (runs_quiet _ (fun r =>
    ~ (fanout_claim_status r = "claimed" \/ fanout_claim_status r = "fenced")) _ _ _) in H; [done|].
  unfold _claim_finalization_fanout_txn. apply runs_bind, runs_get. rewrite Hj. quiet;
    py_bools; subst; try done; (split; [intros [?|?]; discriminate|done]).
Qed.

Lemma wrong_epoch_has_no_effect c j g e e0 now s job b s' :
  s !! _job_ref j = Some job -> get_int job "lease_epoch" 0 = Ok e0 -> e0 <> e ->
  lease_call_run c j g e now s = Ok (b, s') -> (c <> CallFanoutDone -> b = false) /\ s' = s.
Proof.
  intros Hj He Hne. pose proof (not_current job g e e0 He Hne) as Hcur.
  destruct c; cbn [lease_call_run]; intros H.
  1-4,6: match goal with |- (?c <> _ -> _) /\ _ =>
      eapply (runs_quiet _ (fun b => c <> CallFanoutDone -> b = false)); [|exact H]
    end;
    cbv beta delta [_mark_finalization_completed_txn _mark_finalization_fenced_txn
      _mark_finalization_retryable_txn _mark_finalization_dead_letter_txn
      _mark_finalization_fanout_completed_txn];
    apply runs_bind, runs_get; rewrite Hj; quiet;
    try (py_bools; subst; done);
    try (split; [intros _|done]; apply Z.eqb_neq; congruence).
  destruct (claim_finalization_fanout j g e now s) as [[r s2]|] eqn:E; [|done].
  injection H as <- <-. destruct (wrong_epoch_fanout _ _ _ _ _ _ _ _ _ Hj He Hne E).
  split; [intros _; by apply bool_decide_eq_false|done].
Qed.

(** C3: A superseded worker is fenced.  Once a job carries a greater lease
    epoch than a worker's, then after any further sequence of operations no
    call that worker makes with its own epoch (completing, fencing, retrying or
    dead-lettering the job, claiming or completing its fanout) changes the
    store or claims to have taken effect, whatever generation it presents. *)
Theorem superseded_worker_is_fenced c j g e e0 now ops s job b s' :
  s !! _job_ref j = Some job -> get_int job "lease_epoch" 0 = Ok e0 -> e < e0 ->
  lease_call_run c j g e now (job_run ops s) = Ok (b, s') ->
  (c <> CallFanoutDone -> b = false) /\ s' = job_run ops s.
Proof.
  intros Hj He Hlt H.
  destruct (epoch_monotone j e0 ops s) as (job' & e' & Hj' & He' & Hle);
    [exists job, e0; split_and!; [done|done|lia]|].
  refine (wrong_epoch_has_no_effect c j g e e' now _ _ b s' Hj' He' _ H). lia.
Qed.

(** C32: Success means delivered.  Whatever operations run on a well-formed
    store (an empty one is), a completed job with outcome success has had its
    fanout completed, one with outcome stale had it fenced, a dead-lettered job
    carries the outcome failure, and no unfinished job carries an outcome. *)
Theorem completed_jobs_delivered_their_fanout ops s :
  store_wf s -> store_wf (job_run ops s).
Proof. apply job_run_invariant. intros s0 ws s'. apply effect_wf_store. Qed.

(** A meeting verdict is written once.  A job that carries a receipt keeps
    its verdict (eligibility, reason, duration, speech, creation time) through
    every sequence of operations, later receipts for the same conversation with
    another verdict included. *)
Theorem meeting_verdict_is_write_once j job ops s :
  s !! _job_ref j = Some job ->
  doc_get job "meeting_receipt_schema_version" = VInt MEETING_RECEIPT_SCHEMA_VERSION ->
  exists job', job_run ops s !! _job_ref j = Some job' /\
    forall k, k ∈ verdict_keys -> job' !! k = job !! k.
Proof.
  intros Hj Hv.
  apply (job_run_invariant (fun s => exists job', s !! _job_ref j = Some job' /\
    forall k, k ∈ verdict_keys -> job' !! k = job !! k)); [|by exists job].
  clear s Hj. intros s ws s' (job' & Hj & Hk) He Hc.
  assert (Hv' : doc_get job' "meeting_receipt_schema_version" = VInt MEETING_RECEIPT_SCHEMA_VERSION).
  { unfold doc_get. rewrite Hk by decide_key. exact Hv. }
  destruct (effect_on_job _ _ _ j He Hc) as [Heq|[(job2 & u & ds & Hj2 & Ht & Hs')|(Hd & _)]].
  - exists job'. by rewrite Heq.
  - rewrite Hj in Hj2. injection Hj2 as <-. eexists. split; [exact Hs'|].
    intros k Hkv. rewrite apply_ops_notin; [by apply Hk|].
    unfold verdict_keys in Hkv. set_unfold in Hkv.
    destruct Ht; try (destruct Hkv as [-> |[-> |[-> |[-> |[-> |[-> |[]]]]]]]; decide_key).
    intros Hr. eapply H0; [by rewrite Hv'|exact Hr|]. unfold verdict_keys. set_unfold. naive_solver.
  - rewrite Hj in Hd. simpl in Hd. subst job'. discriminate Hv'.
Qed.

End Sequences.
