(* ===== verification/FinalizationCounters.v ===== *)
(** * The projection counters are the number of jobs in each state

    The backlog metrics never scan the job collection: they read sixteen shard
    documents that the transactions increment.  The theorem of this file says
    that the summary they give is exact. *)

From S2P Require Import Prelude PyValue Firestore Sha256 FinalizationDecision FinalizationJobs.
From S2P Require Import FinalizationRecovery FinalizationProofs FinalizationTheorems.
From Stdlib Require Import QArith_base.
Local Open Scope Z_scope.

#[local] Opaque _projection_shard _job_id.

(** ** Counting the documents of a store *)
Definition sum_rows (P : path -> fields -> bool) (l : list (path * fields)) : Z :=
  foldr (fun kv acc => Z.b2z (P kv.1 kv.2) + acc) 0 l.

Definition count (P : path -> fields -> bool) (s : db) : Z := sum_rows P (map_to_list s).

Lemma sum_rows_perm P l l' : l ≡ₚ l' -> sum_rows P l = sum_rows P l'.
Proof. induction 1; simpl; lia. Qed.

Lemma sum_rows_ext P Q l : (forall k d, P k d = Q k d) -> sum_rows P l = sum_rows Q l.
Proof. intros H. induction l as [|[k d] l IH]; simpl; [done|]. by rewrite H, IH. Qed.

(** A count that a sum of counts makes up. *)
Lemma sum_rows_sum {A} (Q : A -> path -> fields -> bool) (P : path -> fields -> bool) (xs : list A) l :
  (forall k d, Z.b2z (P k d) = foldr (fun x acc => Z.b2z (Q x k d) + acc) 0 xs) ->
  sum_rows P l = foldr (fun x acc => sum_rows (Q x) l + acc) 0 xs.
Proof.
  intros H. induction l as [|[k d] l IH]; simpl.
  - clear H. induction xs; simpl; lia.
  - rewrite IH, H. clear. unfold sum_rows. simpl. induction xs as [|x xs IHx]; simpl; lia.
Qed.

Lemma count_insert P k v s :
  count P (<[k := v]> s) =
  count P s - match s !! k with Some o => Z.b2z (P k o) | None => 0 end + Z.b2z (P k v).
Proof.
  unfold count. rewrite <-insert_delete_eq.
  rewrite (sum_rows_perm P _ _ (map_to_list_insert _ k v (lookup_delete_eq s k))). simpl.
  destruct (s !! k) as [o|] eqn:E.
  - rewrite <-(sum_rows_perm P _ _ (map_to_list_delete s k o E)). simpl. lia.
  - rewrite delete_id by done. lia.
Qed.

Lemma count_delete P k s :
  count P (delete k s) = count P s - match s !! k with Some o => Z.b2z (P k o) | None => 0 end.
Proof.
  unfold count. destruct (s !! k) as [o|] eqn:E.
  - rewrite <-(sum_rows_perm P _ _ (map_to_list_delete s k o E)). simpl. lia.
  - rewrite delete_id by done. lia.
Qed.

Lemma count_commit_other P ws s s' :
  commit ws s = Some s' -> Forall (fun w => forall d, P (write_path w) d = false) ws ->
  count P s' = count P s.
Proof.
  revert s. induction ws as [|w ws IH]; intros s Hc Hw; [by simplify_eq/=|].
  apply Forall_cons in Hw as [Hw Hws]. simpl in Hc.
  destruct (apply_write w s) as [s1|] eqn:E; [|done]. rewrite (IH _ Hc Hws).
  assert ((exists v, s1 = <[write_path w := v]> s) \/ s1 = delete (write_path w) s) as [[v ->]| ->].
  { destruct w; simpl in E; [| |destruct (s !! r); [|done]|]; simplify_eq; eauto. }
  - rewrite count_insert, Hw. destruct (s !! write_path w); rewrite ?Hw; simpl; lia.
  - rewrite count_delete. destruct (s !! write_path w); rewrite ?Hw; simpl; lia.
Qed.

(** ** What a counter counts *)
Definition counted (name : string) (job : fields) : bool :=
  if decide (name = "accepted") then true
  else if decide (name ∈ ["success"; "failure"; "stale"])
  then v_is (doc_get job "terminal_outcome") name
  else v_is (doc_get job "status") name.

Definition shard_counted (name : string) (sh : Z) (p : path) (job : fields) : bool :=
  is_job_path p && bool_decide (job_shard job = Some sh) && counted name job.

(** The sum of the deltas recorded for a counter. *)
Definition delta_of (name : string) (ds : list (string * Z)) : Z :=
  foldr (fun kd acc => (if decide (kd.1 = name) then kd.2 else 0) + acc) 0 ds.

Lemma delta_of_filter name ds :
  delta_of name (filter (fun kd : string * Z => kd.2 <> 0) ds) = delta_of name ds.
Proof.
  induction ds as [|[k d] ds IH]; [done|]. rewrite filter_cons. simpl.
  destruct (decide (d <> 0)) as [Hd|Hd]; simpl; rewrite IH; [done|].
  assert (d = 0) as -> by lia. by destruct (decide (k = name)).
Qed.

Lemma shard_same job job' :
  doc_get job' "projection_generation" = doc_get job "projection_generation" ->
  doc_get job' "projection_shard" = doc_get job "projection_shard" ->
  job_shard job' = job_shard job.
Proof. unfold job_shard. by intros -> ->. Qed.

Lemma transition_shard job u ds :
  job_transition job u ds -> job_shard (apply_ops false job u) = job_shard job.
Proof.
  intros Ht.
  assert (forall k, k ∈ ["projection_generation"; "projection_shard"] ->
    doc_get (apply_ops false job u) k = doc_get job k) as H.
  { intros k Hk. apply doc_get_apply_notin. set_unfold in Hk.
    destruct Hk as [-> |[-> |[]]]; (destruct Ht; try decide_key;
      intros Hr; apply H in Hr; revert Hr; decide_key). }
  apply shard_same; apply H; set_solver.
Qed.

(** The moves of a job's status and outcome, with their deltas. *)
Inductive moves : value * value -> value * value -> list (string * Z) -> Prop :=
| MoveSame so : moves so so []
| MoveResume o :
    moves (VStr "blocked_byok", o) (VStr "queued", o) [("blocked_byok", -1); ("queued", 1)]
| MoveClaim o : moves (VStr "queued", o) (VStr "leased", o) [("queued", -1); ("leased", 1)]
| MoveRetry o : moves (VStr "leased", o) (VStr "queued", o) [("leased", -1); ("queued", 1)]
| MoveSuccess o :
    moves (VStr "leased", o) (VStr "completed", VStr "success")
      [("leased", -1); ("completed", 1); ("success", 1)]
| MoveStale o :
    moves (VStr "leased", o) (VStr "completed", VStr "stale")
      [("leased", -1); ("completed", 1); ("stale", 1)]
| MoveDead o :
    moves (VStr "leased", o) (VStr "dead_letter", VStr "failure")
      [("leased", -1); ("dead_letter", 1); ("failure", 1)]
| MoveAbandonQueued o :
    moves (VStr "queued", o) (VStr "dead_letter", VStr "failure")
      [("queued", -1); ("leased", 0); ("dead_letter", 1); ("failure", 1)]
| MoveAbandonLeased o :
    moves (VStr "leased", o) (VStr "dead_letter", VStr "failure")
      [("queued", 0); ("leased", -1); ("dead_letter", 1); ("failure", 1)].

Definition observed (job : fields) : value * value :=
  (doc_get job "status", doc_get job "terminal_outcome").

Lemma transition_moves job u ds :
  job_transition job u ds -> moves (observed job) (observed (apply_ops false job u)) ds.
Proof.
  assert (Hin : forall st, st ∈ ["queued"; "leased"] -> st = "queued" \/ st = "leased")
    by (intros st; set_unfold; naive_solver).
  unfold observed. intros Ht. rewrite !doc_get_apply. unfold doc_get at 1 2.
  destruct Ht;
    try match goal with H : _ ∈ ["queued"; "leased"] |- _ => apply Hin in H as [-> | ->] end;
    try match goal with H : doc_get job "status" = VStr _ |- _ => unfold doc_get in H; rewrite H end;
    try (constructor; done).
  - simpl. rewrite H. constructor.
  - simpl. rewrite H. constructor.
  - rewrite !field_after_notin by (intros Hk; apply H in Hk; revert Hk; other). constructor.
Qed.

Lemma moves_delta job job' ds name :
  job_wf job -> moves (observed job) (observed job') ds -> name ∈ projection_names ->
  Z.b2z (counted name job') = Z.b2z (counted name job) + delta_of name ds.
Proof.
  intros [_ _ Ha] Hm Hn. unfold observed in Hm.
  assert (Hact : forall st, doc_get job "status" = VStr st -> st <> "completed" ->
    st <> "dead_letter" -> v_is (doc_get job "terminal_outcome") "success" = false /\
    v_is (doc_get job "terminal_outcome") "stale" = false /\
    v_is (doc_get job "terminal_outcome") "failure" = false).
  { intros st Hst ? ?. rewrite !v_is_false. apply Ha; congruence. }
  unfold counted. inversion Hm; subst; [simpl; lia|..];
    unfold projection_names in Hn; set_unfold in Hn;
    match goal with H : VStr _ = doc_get job "status" |- _ =>
      destruct (Hact _ (eq_sym H) ltac:(done) ltac:(done)) as (Ho1 & Ho2 & Ho3)
    end;
    destruct Hn as [-> |[-> |[-> |[-> |[-> |[-> |[-> |[-> |[-> |[]]]]]]]]]]; simpl;
    rewrite ?Ho1, ?Ho2, ?Ho3; reflexivity.
Qed.

Lemma transition_delta job u ds name :
  job_wf job -> job_transition job u ds -> name ∈ projection_names ->
  Z.b2z (counted name (apply_ops false job u)) = Z.b2z (counted name job) + delta_of name ds.
Proof. intros Hw Ht. apply moves_delta; [done|]. by apply transition_moves. Qed.

(** ** Shard documents *)
Definition shards : list Z := Z.of_nat <$> seq 0 16.

Lemma shards_spec sh : sh ∈ shards <-> 0 <= sh < 16.
Proof.
  unfold shards. rewrite list_elem_of_fmap. split.
  - intros (n & -> & Hn). apply elem_of_seq in Hn. lia.
  - intros Hr. exists (Z.to_nat sh). rewrite elem_of_seq. lia.
Qed.

Lemma projection_ref_inj a b :
  a ∈ shards -> b ∈ shards -> _projection_ref a = _projection_ref b -> a = b.
Proof.
  assert (H : forallb (fun a => forallb (fun b =>
    bool_decide (_projection_ref a = _projection_ref b -> a = b)) shards) shards = true)
    by (vm_compute; reflexivity).
  rewrite forallb_forall in H. intros Ha Hb. apply list_elem_of_In in Ha, Hb.
  specialize (H a Ha). rewrite forallb_forall in H. specialize (H b Hb).
  by apply bool_decide_eq_true in H.
Qed.

Lemma job_shard_range job sh : job_shard job = Some sh -> sh ∈ shards.
Proof.
  rewrite shards_spec. unfold job_shard, FINALIZATION_PROJECTION_SHARD_COUNT.
  intros H. repeat case_match; simplify_eq; py_bools; lia.
Qed.

(** The value of a counter in a shard document that may be absent. *)
Definition counter (s : db) (sh : Z) (name : string) : value :=
  default (VInt 0) (default ∅ (s !! _projection_ref sh) !! name).

Lemma increments_value d name (ds : list (string * Z)) z :
  default (VInt 0) (d !! name) = VInt z ->
  default (VInt 0) (apply_ops true d ((fun kd => (kd.1, FIncrement kd.2)) <$> ds) !! name) =
  VInt (z + delta_of name ds).
Proof.
  revert d z. induction ds as [|[k n] ds IH]; intros d z Hz.
  { cbn. rewrite apply_ops_nil, Hz. f_equal. lia. }
  rewrite fmap_cons, apply_ops_cons. simpl.
  destruct (decide (k = name)) as [->|Hne].
  - rewrite (IH _ (z + n)); [f_equal; lia|]. rewrite lookup_insert_eq. simpl.
    destruct (d !! name); simpl in *; simplify_eq; done.
  - rewrite (IH _ z); [f_equal; lia|]. by rewrite lookup_insert_ne.
Qed.

Lemma projection_names_other name :
  name ∈ projection_names -> name <> "generation" /\ name <> "shard".
Proof. unfold projection_names. set_unfold. naive_solver. Qed.

(** The deltas of a job land in its shard, and only there. *)
Lemma delta_writes_counter job ds s s' sh name z :
  commit (delta_writes job ds) s = Some s' -> sh ∈ shards -> name ∈ projection_names ->
  counter s sh name = VInt z ->
  counter s' sh name = VInt (z + if decide (job_shard job = Some sh) then delta_of name ds else 0).
Proof.
  unfold delta_writes. intros Hc Hsh Hn Hz.
  rewrite <-(delta_of_filter name ds).
  destruct (job_shard job) as [sh'|] eqn:Hj.
  2: { rewrite decide_False by done. simplify_eq/=. by rewrite Z.add_0_r. }
  destruct (filter _ ds) as [|x xs] eqn:Hf.
  { simplify_eq/=. rewrite Hz. f_equal. case_decide; simpl; lia. }
  remember (x :: xs) as incs eqn:Hincs. clear Hf Hincs.
  cbn [commit apply_write] in Hc. injection Hc as <-. unfold counter in *.
  destruct (decide (Some sh' = Some sh)) as [[= ->]|Hne].
  - rewrite lookup_insert_eq. unfold default, from_option, id. rewrite !apply_ops_cons.
    apply increments_value. apply projection_names_other in Hn as [? ?].
    simpl. by rewrite !lookup_insert_ne.
  - rewrite lookup_insert_ne; [rewrite Hz; f_equal; lia|].
    intros E. apply projection_ref_inj in E; [congruence|by eapply job_shard_range|done].
Qed.

(** The header of a shard document, which the summary checks. *)
Definition header_ok (s : db) (sh : Z) : Prop :=
  forall d, s !! _projection_ref sh = Some d ->
    doc_get d "generation" = VStr FINALIZATION_PROJECTION_GENERATION /\
    doc_get d "shard" = VInt sh.

Lemma increments_other d k (ds : list (string * Z)) m :
  k ∉ ds.*1 -> apply_ops m d ((fun kd => (kd.1, FIncrement kd.2)) <$> ds) !! k = d !! k.
Proof.
  intros Hk. apply apply_ops_notin. by rewrite <-list_fmap_compose.
Qed.

Lemma delta_writes_header job ds s s' sh :
  commit (delta_writes job ds) s = Some s' -> (forall k, k ∈ ds.*1 -> k ∈ projection_names) ->
  header_ok s sh -> sh ∈ shards -> header_ok s' sh.
Proof.
  unfold delta_writes. intros Hc Hds Hh Hsh.
  destruct (job_shard job) as [sh'|] eqn:Hj; [|by simplify_eq/=].
  destruct (filter _ ds) as [|x xs] eqn:Hf; [by simplify_eq/=|].
  assert (Hkeys : forall k, k ∈ (x :: xs).*1 -> k ∈ projection_names).
  { intros k Hk. apply Hds. rewrite <-Hf in Hk. apply list_elem_of_fmap in Hk as (y & -> & Hy).
    apply list_elem_of_filter in Hy as [_ Hy]. by apply list_elem_of_fmap_2. }
  remember (x :: xs) as incs eqn:Hincs. clear Hf Hincs.
  cbn [commit apply_write] in Hc. injection Hc as <-. intros d Hd.
  destruct (decide (sh' = sh)) as [->|Hne].
  - rewrite lookup_insert_eq in Hd. injection Hd as <-. unfold doc_get.
    rewrite !apply_ops_cons, !increments_other by
      (intros Hk; apply Hkeys, projection_names_other in Hk; naive_solver).
    simpl. rewrite lookup_insert_ne, !lookup_insert_eq by done. done.
  - rewrite lookup_insert_ne in Hd; [by apply Hh|].
    intros E. apply projection_ref_inj in E; [done|by eapply job_shard_range|done].
Qed.

(** ** The invariant *)
Record projection_ok (s : db) : Prop := {
  po_wf : store_wf s;
  po_header : forall sh, sh ∈ shards -> header_ok s sh;
  po_counter : forall sh name, sh ∈ shards -> name ∈ projection_names ->
    counter s sh name = VInt (count (shard_counted name sh) s)
}.

Lemma aside_count ws name sh :
  aside ws -> Forall (fun w => forall d, shard_counted name sh (write_path w) d = false) ws.
Proof.
  intros Ha. eapply Forall_impl; [exact Ha|].
  intros w [(uid & c & ->)|(n & ->)] d; reflexivity.
Qed.

Lemma delta_count job ds name sh :
  Forall (fun w => forall d, shard_counted name sh (write_path w) d = false) (delta_writes job ds).
Proof.
  unfold delta_writes. destruct (job_shard job); [|constructor].
  destruct (filter _ ds); [constructor|]. constructor; [|constructor]. reflexivity.
Qed.

Lemma transition_names job u ds :
  job_transition job u ds -> forall k, k ∈ ds.*1 -> k ∈ projection_names.
Proof.
  intros Ht k. destruct Ht; try case_bool_decide; unfold projection_names; set_unfold; naive_solver.
Qed.

Lemma new_job_names job ds : new_job_doc job ds -> forall k, k ∈ ds.*1 -> k ∈ projection_names.
Proof.
  intros Hn k. destruct Hn as [uid c revision byok force platform key j rec now status|];
    [|set_solver].
  destruct byok; unfold projection_names; set_unfold; naive_solver.
Qed.

(** What a created document adds to a count is its delta, in its own shard. *)
Lemma new_job_delta job ds name sh :
  new_job_doc job ds -> name ∈ projection_names ->
  Z.b2z (bool_decide (job_shard job = Some sh) && counted name job) =
  if decide (job_shard job = Some sh) then delta_of name ds else 0.
Proof.
  intros Hn Hname. destruct (decide (job_shard job = Some sh)) as [Hsh|Hsh];
    [rewrite bool_decide_eq_true_2 by done|by rewrite bool_decide_eq_false_2].
  simpl. destruct Hn as [uid c revision byok force platform key j rec now status|
                         uid c revision now receipt Hr].
  - unfold counted.
    assert (doc_get (new_job uid c revision status byok force platform key j rec now) "status"
      = VStr status) as -> by (by destruct rec).
    assert (doc_get (new_job uid c revision status byok force platform key j rec now)
      "terminal_outcome" = VNone) as -> by (by destruct rec).
    unfold projection_names in Hname. set_unfold in Hname.
    subst status. destruct byok;
      destruct Hname as [-> |[-> |[-> |[-> |[-> |[-> |[-> |[-> |[-> |[]]]]]]]]]]; reflexivity.
  - assert (Hg : doc_get (receipt_job uid c revision now receipt) "projection_generation" = VNone).
    { unfold doc_get. rewrite receipt_job_get; [reflexivity|done|other]. }
    unfold job_shard in Hsh. rewrite Hg in Hsh. discriminate Hsh.
Qed.

(** The rest of an operation's writes, after the job was written. *)
Lemma finish_counts job ds ws s s' :
  commit (delta_writes job ds ++ ws) s = Some s' -> aside ws ->
  (forall k, k ∈ ds.*1 -> k ∈ projection_names) ->
  (forall sh, sh ∈ shards -> header_ok s sh -> header_ok s' sh) /\
  (forall sh name, sh ∈ shards -> name ∈ projection_names ->
    count (shard_counted name sh) s' = count (shard_counted name sh) s /\
    forall z, counter s sh name = VInt z -> counter s' sh name =
      VInt (z + if decide (job_shard job = Some sh) then delta_of name ds else 0)).
Proof.
  intros Hc Ha Hds. rewrite commit_app in Hc.
  destruct (commit (delta_writes job ds) s) as [s1|] eqn:E1; [|done].
  assert (Hp : forall sh, s' !! _projection_ref sh = s1 !! _projection_ref sh)
    by (intros sh; eapply commit_other; [done|by apply aside_projection]).
  split.
  - intros sh Hsh Hh d Hd. rewrite Hp in Hd.
    exact (delta_writes_header job ds s s1 sh E1 Hds Hh Hsh d Hd).
  - intros sh name Hsh Hn. split.
    + rewrite (count_commit_other _ _ _ _ Hc (aside_count _ _ _ Ha)).
      by rewrite (count_commit_other _ _ _ _ E1 (delta_count _ _ _ _)).
    + intros z Hz. unfold counter. rewrite Hp. by apply (delta_writes_counter job ds s s1).
Qed.

Lemma job_projection_ne j sh : _job_ref j <> _projection_ref sh.
Proof. discriminate. Qed.

Lemma shard_counted_job name sh j d :
  shard_counted name sh (_job_ref j) d = bool_decide (job_shard d = Some sh) && counted name d.
Proof. done. Qed.

Lemma effect_projection s ws s' :
  projection_ok s -> store_effect s ws -> commit ws s = Some s' -> projection_ok s'.
Proof.
  intros [Hw Hh Hc] He Hcom. split; [by eapply effect_wf_store|..].
  - intros sh Hsh. destruct He as [ws Ha|j job u ds ws Hj Ht Ha|j job ds ws Hj Hn Ha].
    + intros d Hd. apply (Hh sh Hsh). rewrite <-Hd. symmetry.
      eapply commit_other; [done|by apply aside_projection].
    + cbn [commit apply_write] in Hcom. rewrite Hj in Hcom.
      destruct (finish_counts _ _ _ _ _ Hcom Ha (transition_names _ _ _ Ht)) as [Hhd _].
      apply Hhd; [done|]. intros d Hd.
      rewrite lookup_insert_ne in Hd by apply job_projection_ne. by apply (Hh sh Hsh).
    + cbn [commit apply_write] in Hcom.
      destruct (finish_counts _ _ _ _ _ Hcom Ha (new_job_names _ _ Hn)) as [Hhd _].
      apply Hhd; [done|]. intros d Hd.
      rewrite lookup_insert_ne in Hd by apply job_projection_ne. by apply (Hh sh Hsh).
  - intros sh name Hsh Hname. specialize (Hc sh name Hsh Hname).
    destruct He as [ws Ha|j job u ds ws Hj Ht Ha|j job ds ws Hj Hn Ha].
    + rewrite (count_commit_other _ _ _ _ Hcom (aside_count _ _ _ Ha)), <-Hc.
      unfold counter. rewrite (commit_other _ _ _ _ Hcom); [done|by apply aside_projection].
    + cbn [commit apply_write] in Hcom. rewrite Hj in Hcom.
      destruct (finish_counts _ _ _ _ _ Hcom Ha (transition_names _ _ _ Ht)) as [_ Hfin].
      destruct (Hfin sh name Hsh Hname) as [-> Hcnt]. rewrite (Hcnt (count (shard_counted name sh) s)).
      2: { rewrite <-Hc. unfold counter. by rewrite lookup_insert_ne by apply job_projection_ne. }
      f_equal. rewrite count_insert, Hj, !shard_counted_job, (transition_shard _ _ _ Ht).
      pose proof (transition_delta job u ds name (Hw _ _ Hj) Ht Hname).
      destruct (decide (job_shard job = Some sh)).
      * rewrite bool_decide_eq_true_2 by done. simpl. lia.
      * rewrite bool_decide_eq_false_2 by done. simpl. lia.
    + cbn [commit apply_write] in Hcom.
      destruct (finish_counts _ _ _ _ _ Hcom Ha (new_job_names _ _ Hn)) as [_ Hfin].
      destruct (Hfin sh name Hsh Hname) as [-> Hcnt]. rewrite (Hcnt (count (shard_counted name sh) s)).
      2: { rewrite <-Hc. unfold counter. by rewrite lookup_insert_ne by apply job_projection_ne. }
      f_equal. rewrite count_insert, !shard_counted_job, (new_job_delta _ _ _ _ Hn Hname).
      destruct (s !! _job_ref j) as [old|]; [simpl in Hj; subst old|by rewrite Z.sub_0_r].
      change (shard_counted name sh (_job_ref j) ∅) with false. simpl. by rewrite Z.sub_0_r.
Qed.

(** ** The summary *)

(** The jobs of the current generation that a counter counts. *)
Definition admitted_in (name : string) (p : path) (job : fields) : bool :=
  is_job_path p && (if job_shard job is Some _ then true else false) && counted name job.

Lemma count_shards name s :
  count (admitted_in name) s =
  foldr (fun sh acc => count (shard_counted name sh) s + acc) 0 shards.
Proof.
  unfold count. apply sum_rows_sum. intros p d. unfold admitted_in, shard_counted.
  destruct (is_job_path p); [|reflexivity]. destruct (counted name d).
  2: { rewrite andb_false_r. generalize shards. intros l. induction l as [|x l IH]; [done|].
       simpl. rewrite andb_false_r. simpl. exact IH. }
  destruct (job_shard d) as [sh|] eqn:E; [|by vm_compute].
  apply job_shard_range in E. unfold shards in E. simpl in E. set_unfold in E.
  repeat (destruct E as [-> |E]; [by vm_compute|]). done.
Qed.

Lemma shard_value_count s n name :
  projection_ok s -> Z.of_nat n ∈ shards -> name ∈ projection_names ->
  shard_value s n name = count (shard_counted name (Z.of_nat n)) s.
Proof.
  intros [_ Hh Hc] Hn Hname. specialize (Hc _ _ Hn Hname). unfold counter in Hc.
  unfold shard_value. destruct (s !! _projection_ref (Z.of_nat n)) as [d|] eqn:Hd.
  - destruct (Hh _ Hn d Hd) as [-> ->]. rewrite v_is_VStr, py_eq_int, Z.eqb_refl. simpl in Hc |- *.
    destruct (d !! name); simpl in Hc; by simplify_eq.
  - simpl in Hc. rewrite lookup_empty in Hc. simpl in Hc. congruence.
Qed.

Lemma projection_total_count s name :
  projection_ok s -> name ∈ projection_names ->
  projection_total s name = count (admitted_in name) s.
Proof.
  intros Hs Hname. rewrite count_shards. unfold projection_total, shards.
  assert (H : forall l acc, (forall n, n ∈ l -> Z.of_nat n ∈ shards) ->
    foldl (fun acc shard => acc + shard_value s shard name) acc l =
    acc + foldr (fun sh acc => count (shard_counted name sh) s + acc) 0 (Z.of_nat <$> l)).
  { induction l as [|n l IH]; intros acc Hl; [simpl; lia|].
    rewrite fmap_cons. cbn [foldl foldr]. rewrite IH by (intros m Hm; apply Hl; set_solver).
    rewrite (shard_value_count s n name Hs); [lia|apply Hl; set_solver|done]. }
  apply (H _ 0). intros n Hn. apply elem_of_seq in Hn. apply shards_spec.
  unfold FINALIZATION_PROJECTION_SHARD_COUNT in Hn. lia.
Qed.

Section Summary.
Context {Env : FinalizationEnv}.

(** C31: The backlog summary is exact.  Starting from a store whose shard
    counters agree with its jobs (an empty one does), after any sequence of
    operations each number that the summary reads from the sixteen shard
    documents (accepted, queued, leased, blocked, completed, dead-lettered,
    success, failure, stale) is the number of admitted job documents in that
    state, without any scan of the jobs. *)
Theorem summary_counts_the_jobs ops s name :
  projection_ok s -> name ∈ projection_names ->
  projection_total (job_run ops s) name = count (admitted_in name) (job_run ops s).
Proof.
  intros Hs Hname. apply projection_total_count; [|done].
  apply job_run_invariant; [|done]. intros s0 ws s'. apply effect_projection.
Qed.
End Summary.

Lemma projection_ok_empty : projection_ok ∅.
Proof.
  split.
  - intros j job H. by rewrite lookup_empty in H.
  - intros sh _ d H. by rewrite lookup_empty in H.
  - intros sh name _ _. unfold counter. rewrite lookup_empty. simpl. by rewrite lookup_empty.
Qed.

(** The counters do not depend on the conversations. *)
Lemma projection_ok_conversation s uid c d :
  projection_ok s -> projection_ok (<[_conversation_ref uid c := d]> s).
Proof.
  intros [Hw Hh Hc]. split.
  - intros j job. rewrite lookup_insert_ne by done. apply Hw.
  - intros sh Hsh d0. rewrite lookup_insert_ne by done. by apply Hh.
  - intros sh name Hsh Hname. unfold counter. rewrite lookup_insert_ne by done.
    fold (counter s sh name). rewrite (Hc sh name Hsh Hname), count_insert.
    assert (Hf : forall d, shard_counted name sh (_conversation_ref uid c) d = false) by done.
    f_equal. rewrite Hf. destruct (s !! _); rewrite ?Hf; simpl; lia.
Qed.
