(* ===== verification/FinalizationSpec.v ===== *)
(** * What the finalization operations promise

    Functional theorems: admission is idempotent, a dead letter closes the
    conversation with it, the fanout is handed out only for the completed
    conversation still bound to the job, the fences of conversations without a
    job are compare-and-set, and concrete runs of the whole life cycle. *)

From S2P Require Import Prelude PyValue Firestore Sha256 FinalizationDecision FinalizationJobs.
From S2P Require Import FinalizationRecovery FinalizationProofs FinalizationTheorems FinalizationCounters.
From Stdlib Require Import QArith_base.
Local Open Scope Z_scope.

(** An environment with no variable set, and stored transcripts in clear. *)
Definition plain_env : FinalizationEnv := {|
  getenv := fun _ => None;
  _decode_transcript_segments_strict := fun _ v _ => Ok v
|}.

Lemma append_cons_nonempty a c b : a +:+ String.String c b <> "".
Proof. by destruct a. Qed.

Lemma job_id_nonempty uid c r : _job_id uid c r <> "".
Proof. apply append_cons_nonempty. Qed.

Lemma projection_shard_range j : 0 <= _projection_shard j < 16.
Proof. apply Z.mod_pos_bound. reflexivity. Qed.

#[local] Opaque _projection_shard _job_id.

Lemma new_job_shard uid c r st byok force pl key j rec now :
  job_shard (new_job uid c r st byok force pl key j rec now) = Some (_projection_shard j).
Proof.
  unfold job_shard.
  assert (doc_get (new_job uid c r st byok force pl key j rec now) "projection_generation"
    = VStr FINALIZATION_PROJECTION_GENERATION) as -> by (by destruct rec).
  assert (doc_get (new_job uid c r st byok force pl key j rec now) "projection_shard"
    = VInt (_projection_shard j)) as -> by (by destruct rec).
  pose proof (projection_shard_range j) as [H1 H2].
  rewrite bool_decide_eq_true_2, (proj2 (Z.leb_le _ _) H1) by done.
  unfold FINALIZATION_PROJECTION_SHARD_COUNT. by rewrite (proj2 (Z.ltb_lt _ _) H2).
Qed.

Lemma as_id_str s : s <> "" -> as_id (VStr s) = Some s.
Proof. intros H. unfold as_id. by rewrite decide_False. Qed.

Lemma conversation_job_ne uid c j : _conversation_ref uid c <> _job_ref j.
Proof. discriminate. Qed.
Lemma conversation_projection_ne uid c sh : _conversation_ref uid c <> _projection_ref sh.
Proof. discriminate. Qed.

(** ** Admission *)

(** A conversation that can be finalized: recorded content, in progress, owned
    by no job. *)
Record admissible (conv : fields) (r : Z) : Prop := {
  ad_deferred : truthy (doc_get conv "deferred") = false;
  ad_content : truthy (doc_get conv "has_content") = true;
  ad_discarded : truthy (doc_get conv "discarded") = false;
  ad_status : doc_get conv "status" = VStr "in_progress";
  ad_job : as_id (doc_get conv "finalization_job_id") = None;
  ad_revision : get_int conv "finalization_revision" 0 = Ok r
}.

Definition lifecycle_keys : list string := ["deferred"; "has_content"; "discarded"].

Section Admission.
Context {Env : FinalizationEnv}.

Definition reconcile_at (byok : bool) (now : Z) : res (option Z) :=
  if byok then Ok None
  else d ← get_finalization_reconcile_stale_after; t ← dt_add now d; Ok (Some t).

Lemma content_of_flag uid conv r :
  truthy (doc_get conv "has_content") = true ->
  _conversation_has_finalization_content uid conv r = mret true.
Proof.
  intros H. unfold _conversation_has_finalization_content, raw_conversation_has_content.
  by rewrite H.
Qed.

Lemma admission_accepts conv c r :
  admissible conv r ->
  _finalization_admission conv c =
  Ok (Admission true false "accepted" (Some (generation_fanout_key c (r + 1)))).
Proof.
  intros []. rewrite (finalization_admission_spec _ c "in_progress" r) by done.
  by rewrite ad_discarded0.
Qed.

Definition admitted_job (uid c : string) (conv : fields) (r : Z) (byok force : bool)
    (rec : option Z) (now : Z) : fields :=
  new_job uid c (r + 1) (if byok then "blocked_byok" else "queued") byok force
    (doc_get conv "client_platform") (generation_fanout_key c (r + 1)) (_job_id uid c (r + 1))
    rec now.

Lemma fanout_key_nonempty c r : generation_fanout_key c r <> "".
Proof. discriminate. Qed.

Lemma intent_of_admitted uid c conv r byok force rec now created :
  _intent_from_job (_job_id uid c (r + 1)) (admitted_job uid c conv r byok force rec now) created =
  Ok (Intent (Some (_job_id uid c (r + 1))) (if byok then "blocked_byok" else "queued") (Some 1)
        byok (Some (generation_fanout_key c (r + 1))) created).
Proof. unfold admitted_job. destruct byok, rec; reflexivity. Qed.

(** The first request creates the job, and binds the conversation to it. *)
Lemma create_new uid c conv r byok force extra rec now s :
  s !! _conversation_ref uid c = Some conv -> admissible conv r ->
  s !! _job_ref (_job_id uid c (r + 1)) = None ->
  reconcile_at byok now = Ok rec ->
  exists s1,
    create_or_get_finalization_intent uid c byok (fun d => _finalization_admission d c) force extra
      now s =
    Ok (Intent (Some (_job_id uid c (r + 1))) (if byok then "blocked_byok" else "queued") (Some 1)
          byok (Some (generation_fanout_key c (r + 1))) true, s1) /\
    s1 !! _job_ref (_job_id uid c (r + 1)) = Some (admitted_job uid c conv r byok force rec now) /\
    s1 !! _conversation_ref uid c =
      Some (apply_ops false conv (fvalues (dict_update extra
        [("status", VStr "processing"); ("finalization_job_id", VStr (_job_id uid c (r + 1)));
         ("finalization_revision", VInt (r + 1));
         ("finalization_status", VStr (if byok then "blocked_byok" else "queued"))]))).
Proof.
  intros Hconv Had Hjob Hrec. pose proof Had as [Hdef Hcont Hdisc Hst Hid Hrev].
  unfold create_or_get_finalization_intent, _create_or_get_finalization_intent_txn, run_txn.
  ev (txn_get_ok (_conversation_ref uid c) s). rewrite Hconv, Hdef, (content_of_flag uid conv _ Hcont).
  ev (mret_ok true (TxnState s [])). cbn [negb].
  ev (lift_ok _ _ (TxnState s []) (admission_accepts conv c r Had)).
  cbn [terminal accepted admission_fanout_key]. rewrite Hid.
  ev (mret_ok (None : option (string * fields)) (TxnState s [])). cbn [negb orb].
  rewrite (bool_decide_eq_false_2 _ (fanout_key_nonempty c (r + 1))).
  ev (lift_ok _ _ (TxnState s []) Hrev).
  ev (txn_get_ok (_job_ref (_job_id uid c (r + 1))) s). rewrite Hjob.
  assert (Hr : (if byok then mret None else
      d ← lift get_finalization_reconcile_stale_after; t ← lift (dt_add now d); mret (Some t))
      (TxnState s []) = Ok (rec, TxnState s [])).
  { unfold reconcile_at in Hrec. destruct byok; [by simplify_eq|]. unfold lift, mbind, txn_bind.
    destruct get_finalization_reconcile_stale_after as [d|]; [|done]. simpl in Hrec |- *.
    destruct (dt_add now d); [|done]. simpl in Hrec |- *. by simplify_eq. }
  ev Hr. fold (admitted_job uid c conv r byok force rec now).
  ev (txn_write_ok (WSet (_job_ref (_job_id uid c (r + 1)))
        (admitted_job uid c conv r byok force rec now)) s []).
  ev (record_delta_ok (admitted_job uid c conv r byok force rec now)
        [("accepted", 1); (if byok then "blocked_byok" else "queued", 1)] s _).
  set (ws := _ ++ delta_writes _ _).
  set (u := fvalues _).
  ev (txn_write_ok (WUpdate (_conversation_ref uid c) u) s ws).
  rewrite (lift_ok _ _ _ (intent_of_admitted uid c conv r byok force rec now true)).
  unfold ws. rewrite <-app_assoc. cbn [writes app commit apply_write]. rewrite commit_app.
  destruct (commit_delta (admitted_job uid c conv r byok force rec now)
    [("accepted", 1); (if byok then "blocked_byok" else "queued", 1)]
    (<[_job_ref (_job_id uid c (r + 1)) := admitted_job uid c conv r byok force rec now]> s))
    as (s2 & -> & Hs2).
  cbn [commit apply_write]. rewrite (Hs2 (_conversation_ref uid c)) by done.
  rewrite lookup_insert_ne, Hconv by done.
  eexists. split; [reflexivity|]. split.
  - rewrite lookup_insert_ne, Hs2 by done. apply lookup_insert_eq.
  - apply lookup_insert_eq.
Qed.

(** A field that the update of an admission does not name keeps its value; the
    lifecycle fields take theirs whatever the caller's extra updates say. *)
Lemma fvalues_get conv (u : dict) k :
  apply_ops false conv (fvalues u) !! k =
  match dict_lookup k (rev u) with Some v => Some v | None => conv !! k end.
Proof.
  rewrite apply_ops_lookup. generalize (conv !! k). intros o. revert o.
  induction u as [|[k' v] u IH] using rev_ind; intros o; [done|].
  unfold fvalues in *. rewrite fmap_app. unfold field_after in *. rewrite foldl_app, IH.
  rewrite rev_app_distr. simpl. destruct (decide (k' = k)) as [->|Hne].
  - by rewrite decide_True.
  - by rewrite decide_False.
Qed.

Lemma dict_lookup_rev_nodup k d : NoDup d.*1 -> dict_lookup k (rev d) = dict_lookup k d.
Proof.
  induction d as [|[k' v] d IH]; [done|]. rewrite fmap_cons, NoDup_cons. simpl.
  intros [Hk Hd].
  assert (forall l v0, dict_lookup k (l ++ [(k', v0)]) =
    match dict_lookup k l with Some x => Some x | None => if decide (k = k') then Some v0 else None end)
    as Happ.
  { induction l as [|[k2 v2] l IHl]; intros v0; [done|]. simpl.
    destruct (decide (k = k2)); [done|apply IHl]. }
  rewrite Happ, (IH Hd). destruct (decide (k = k')) as [->|]; [|by destruct (dict_lookup k d)].
  assert (dict_lookup k' d = None) as ->; [|done].
  clear -Hk. induction d as [|[k2 v2] d IHd]; [done|].
  rewrite fmap_cons in Hk. apply not_elem_of_cons in Hk as [Hne Hk]. simpl in *.
  rewrite decide_False by done. auto.
Qed.

Lemma dict_set_keys k v d : NoDup d.*1 -> NoDup (dict_set k v d).*1 /\
  forall k', k' ∈ (dict_set k v d).*1 <-> k' = k \/ k' ∈ d.*1.
Proof.
  induction d as [|[k2 v2] d IH].
  - intros _. split; [apply NoDup_singleton|set_solver].
  - rewrite fmap_cons, NoDup_cons. cbn [dict_set fst]. intros [Hk Hd]. destruct (IH Hd) as [IH1 IH2].
    destruct (decide (k = k2)) as [->|]; rewrite !fmap_cons; cbn [fst].
    + split; [by constructor|]. intros k'. rewrite !elem_of_cons. naive_solver.
    + split; [constructor; [rewrite IH2; naive_solver|done]|].
      intros k'. rewrite !elem_of_cons, IH2. naive_solver.
Qed.

Lemma dict_update_nodup d u : NoDup d.*1 -> NoDup (dict_update d u).*1.
Proof.
  unfold dict_update. revert d. induction u as [|[k v] u IH]; intros d Hd; [done|]. simpl.
  apply IH. by apply dict_set_keys.
Qed.

(** The conversation after an admission. *)
Lemma admitted_conversation conv extra jid rv st k :
  NoDup extra.*1 ->
  apply_ops false conv (fvalues (dict_update extra
    [("status", VStr "processing"); ("finalization_job_id", VStr jid);
     ("finalization_revision", VInt rv); ("finalization_status", VStr st)])) !! k =
  match dict_lookup k [("finalization_status", VStr st); ("finalization_revision", VInt rv);
                       ("finalization_job_id", VStr jid); ("status", VStr "processing")] with
  | Some v => Some v
  | None => match dict_lookup k extra with Some v => Some v | None => conv !! k end
  end.
Proof.
  intros Hn. rewrite fvalues_get, dict_lookup_rev_nodup by (by apply dict_update_nodup).
  rewrite dict_lookup_update. simpl. repeat (case_decide; [done|]). by destruct (dict_lookup k extra).
Qed.

(** C24: Finalization requests are idempotent.  For an in-progress conversation
    with content and no job, the first request creates one job (queued, or
    blocked when it needs the user's own keys), binds the conversation to it as
    processing in the same transaction, and reports it as created; every later
    request, at any time and with any options, returns the same job and fanout
    key, reports nothing created and leaves the store unchanged.  The caller's
    extra updates cannot override the lifecycle fields. *)
Theorem finalization_request_is_idempotent uid c conv r byok force extra rec now s :
  s !! _conversation_ref uid c = Some conv -> admissible conv r ->
  s !! _job_ref (_job_id uid c (r + 1)) = None ->
  reconcile_at byok now = Ok rec ->
  NoDup extra.*1 -> Forall (fun k => dict_lookup k extra = None) lifecycle_keys ->
  let jid := _job_id uid c (r + 1) in
  let key := generation_fanout_key c (r + 1) in
  let st := if byok then "blocked_byok" else "queued" in
  let request := fun byok force extra now =>
    create_or_get_finalization_intent uid c byok (fun d => _finalization_admission d c) force
      extra now in
  exists s1 conv1,
    request byok force extra now s = Ok (Intent (Some jid) st (Some 1) byok (Some key) true, s1) /\
    s1 !! _job_ref jid = Some (admitted_job uid c conv r byok force rec now) /\
    s1 !! _conversation_ref uid c = Some conv1 /\
    doc_get conv1 "status" = VStr "processing" /\
    doc_get conv1 "finalization_job_id" = VStr jid /\
    doc_get conv1 "finalization_revision" = VInt (r + 1) /\
    forall byok' force' extra' now',
      request byok' force' extra' now' s1 =
        Ok (Intent (Some jid) st (Some 1) byok (Some key) false, s1).
Proof.
  intros Hconv Had Hjob Hrec Hnd Hlk jid key st request.
  destruct (create_new uid c conv r byok force extra rec now s Hconv Had Hjob Hrec)
    as (s1 & Hreq & Hj1 & Hc1). fold jid in Hj1.
  set (conv1 := apply_ops false conv _) in Hc1.
  assert (Hget : forall k, conv1 !! k = match dict_lookup k
      [("finalization_status", VStr st); ("finalization_revision", VInt (r + 1));
       ("finalization_job_id", VStr jid); ("status", VStr "processing")] with
    | Some v => Some v
    | None => match dict_lookup k extra with Some v => Some v | None => conv !! k end
    end) by (intros k; by apply admitted_conversation).
  unfold lifecycle_keys in Hlk. rewrite !Forall_cons in Hlk. destruct Hlk as (Hl1 & Hl2 & Hl3 & _).
  destruct Had as [Hdef Hcont Hdisc Hst Hid Hrev].
  exists s1, conv1. split_and!; [exact Hreq|exact Hj1|exact Hc1|by unfold doc_get; rewrite Hget..|].
  intros byok' force' extra' now'.
  assert (Hdef1 : truthy (doc_get conv1 "deferred") = false)
    by (unfold doc_get; rewrite Hget; simpl; by rewrite Hl1).
  assert (Hcont1 : truthy (doc_get conv1 "has_content") = true)
    by (unfold doc_get; rewrite Hget; simpl; by rewrite Hl2).
  assert (Hdisc1 : truthy (doc_get conv1 "discarded") = false)
    by (unfold doc_get; rewrite Hget; simpl; by rewrite Hl3).
  assert (Hst1 : doc_get conv1 "status" = VStr "processing") by (unfold doc_get; by rewrite Hget).
  assert (Hid1 : doc_get conv1 "finalization_job_id" = VStr jid)
    by (unfold doc_get; by rewrite Hget).
  assert (Hrev1 : doc_get conv1 "finalization_revision" = VInt (r + 1))
    by (unfold doc_get; by rewrite Hget).
  assert (Hadm : _finalization_admission conv1 c = Ok (Admission false false "already_finalizing" None)).
  { rewrite (finalization_admission_spec _ c "processing" (r + 1)); [by rewrite Hdisc1|done|done|].
    by apply get_int_set. }
  unfold request, create_or_get_finalization_intent, _create_or_get_finalization_intent_txn, run_txn.
  ev (txn_get_ok (_conversation_ref uid c) s1).
  rewrite Hc1, Hdef1, (content_of_flag uid conv1 _ Hcont1).
  ev (mret_ok true (TxnState s1 [])). cbn [negb].
  ev (lift_ok _ _ (TxnState s1 []) Hadm). cbn [terminal accepted admission_fanout_key].
  rewrite Hid1, as_id_str by apply job_id_nonempty.
  assert (Hex : (job ← txn_get (_job_ref jid); mret ((fun j => (jid, j)) <$> job)) (TxnState s1 []) =
    Ok (Some (jid, admitted_job uid c conv r byok force rec now), TxnState s1 [])).
  { ev (txn_get_ok (_job_ref jid) s1). by rewrite Hj1. }
  ev Hex.
  by rewrite (lift_ok _ _ _ (intent_of_admitted uid c conv r byok force rec now false)).
Qed.
End Admission.

(** ** Closing a conversation with its job *)
Lemma run_txn_ok {A} (t : Txn A) s a ws s' :
  t (TxnState s []) = Ok (a, TxnState s ws) -> commit ws s = Some s' -> run_txn t s = Ok (a, s').
Proof. unfold run_txn. intros -> H. simpl. by rewrite H. Qed.

Lemma bound_read job uid c s :
  as_id (doc_get job "uid") = Some uid -> as_id (doc_get job "conversation_id") = Some c ->
  read_bound_conversation _conversation_ref job (TxnState s []) =
  Ok ((fun d => (_conversation_ref uid c, d)) <$> s !! _conversation_ref uid c, TxnState s []).
Proof.
  intros Hu Hc. unfold read_bound_conversation. rewrite Hu, Hc.
  by ev (txn_get_ok (_conversation_ref uid c) s).
Qed.

(** A job's update, its deltas, and possibly its conversation's update. *)
Lemma commit_job_and_conversation s j job u ds uid c conv cu :
  s !! _job_ref j = Some job -> s !! _conversation_ref uid c = Some conv ->
  exists s', commit ((WUpdate (_job_ref j) u :: delta_writes job ds) ++
                     match cu with Some v => [WUpdate (_conversation_ref uid c) v] | None => [] end) s
             = Some s' /\
    s' !! _job_ref j = Some (apply_ops false job u) /\
    s' !! _conversation_ref uid c =
      Some (match cu with Some v => apply_ops false conv v | None => conv end).
Proof.
  intros Hj Hconv. rewrite commit_app. cbn [commit apply_write]. rewrite Hj.
  destruct (commit_delta job ds (<[_job_ref j := apply_ops false job u]> s)) as (s2 & -> & Hs2).
  destruct cu as [v|]; cbn [commit apply_write].
  - rewrite (Hs2 (_conversation_ref uid c)), lookup_insert_ne, Hconv by done.
    eexists. split; [reflexivity|]. rewrite lookup_insert_ne, Hs2, !lookup_insert_eq by done. done.
  - eexists. split; [reflexivity|]. rewrite !Hs2, lookup_insert_eq, lookup_insert_ne by done. done.
Qed.

(** A dead letter closes its conversation with it.  When the worker that
    holds the lease reports its final failure, one commit moves the job to
    dead_letter and, if the conversation it names is still processing, not
    discarded and bound to this job and revision, moves it to failed and
    discarded; a conversation that moved on is left exactly as it is. *)
Theorem dead_letter_closes_its_conversation j g e rc now job uid c conv s :
  s !! _job_ref j = Some job -> _is_current_lease job g e = Ok true ->
  as_id (doc_get job "uid") = Some uid -> as_id (doc_get job "conversation_id") = Some c ->
  s !! _conversation_ref uid c = Some conv ->
  let owned := v_is (doc_get conv "status") "processing"
               && negb (truthy (doc_get conv "discarded")) && bound_to conv job j in
  exists s' job' conv',
    mark_finalization_dead_letter j g e rc now s = Ok (true, s') /\
    s' !! _job_ref j = Some job' /\ doc_get job' "status" = VStr "dead_letter" /\
    doc_get job' "terminal_outcome" = VStr "failure" /\
    s' !! _conversation_ref uid c = Some conv' /\
    (owned = false -> conv' = conv) /\
    (owned = true -> doc_get conv' "status" = VStr "failed" /\
       doc_get conv' "discarded" = VBool true /\
       doc_get conv' "finalization_status" = VStr "dead_letter").
Proof.
  intros Hj Hcur Hu Hc Hconv owned.
  set (u := [("status", FValue (VStr "dead_letter")); ("updated_at", FValue (instant now));
    ("terminal_at", FValue (instant now)); ("terminal_outcome", FValue (VStr "failure"));
    ("lease_expires_at", FValue (instant now)); ("reconcile_after_at", FDelete);
    ("task_retry_count", FValue (VInt rc));
    ("last_failure_code", FValue (VStr "final_attempt_failed"))]).
  set (cu := if owned then Some [("status", FValue (VStr "failed"));
    ("discarded", FValue (VBool true)); ("finalization_status", FValue (VStr "dead_letter"))]
    else None).
  destruct (commit_job_and_conversation s j job u
    [("leased", -1); ("dead_letter", 1); ("failure", 1)] uid c conv cu Hj Hconv)
    as (s' & Hcom & Hj' & Hc').
  exists s', (apply_ops false job u). eexists. split.
  { eapply run_txn_ok; [|exact Hcom]. unfold _mark_finalization_dead_letter_txn.
    ev (txn_get_ok (_job_ref j) s). rewrite Hj. ev (lift_ok _ _ _ Hcur). cbn [negb].
    ev (bound_read job uid c s Hu Hc). rewrite Hconv.
    ev (txn_write_ok (WUpdate (_job_ref j) u) s []). ev (record_delta_ok job _ s _).
    cbn [fmap option_fmap option_map]. fold owned. unfold cu. destruct owned.
    - unfold txn_update. by ev (txn_write_ok (WUpdate (_conversation_ref uid c) _) s _).
    - by rewrite app_nil_r. }
  split; [exact Hj'|]. split; [by rewrite doc_get_apply|]. split; [by rewrite doc_get_apply|].
  split; [exact Hc'|]. unfold cu. destruct owned; split; intros; try done.
  rewrite !doc_get_apply. done.
Qed.

(** ** The fanout *)
Definition fanout_post (s : db) (j : string) (g e now : Z) (r : FinalizationFanoutClaim)
    (ws : list write) : Prop :=
  match fanout_claim_status r with
  | "claimed"%string => exists job uid c conv key,
      s !! _job_ref j = Some job /\ _is_current_lease job g e = Ok true /\
      doc_get job "fanout_status" <> VStr "completed" /\
      doc_get job "uid" = VStr uid /\ doc_get job "conversation_id" = VStr c /\
      s !! _conversation_ref uid c = Some conv /\
      _conversation_admits_fanout conv job j = Ok true /\
      fanout_claim_key r = Some key /\ ws = [WUpdate (_job_ref j)
        [("fanout_key", FValue (VStr key)); ("fanout_status", FValue (VStr "leased"));
         ("fanout_lease_epoch", FValue (VInt e)); ("fanout_started_at", FValue (instant now));
         ("updated_at", FValue (instant now))]]
  | "fenced"%string => exists job,
      s !! _job_ref j = Some job /\ _is_current_lease job g e = Ok true /\
      ws = WUpdate (_job_ref j) (_fenced_finalization_update now)
           :: delta_writes job [("leased", -1); ("completed", 1); ("stale", 1)]
  | _ => ws = []
  end.

Lemma as_id_Some v x : as_id v = Some x -> v = VStr x.
Proof. destruct v; try done. simpl. by destruct (decide (s = "")); intros [= ->]. Qed.

Lemma fanout_runs j g e now s :
  runs (_claim_finalization_fanout_txn j g e now _conversation_ref true)
    (fanout_post s j g e now) s [].
Proof.
  unfold _claim_finalization_fanout_txn, fence_job.
  repeat first [runs_step | apply runs_delta
    | match goal with
      | |- runs (if ?b then _ else _) _ _ _ => destruct b eqn:?
      | |- runs (match ?o with Some _ => _ | None => _ end) _ _ _ => destruct o eqn:?
      end
    | progress intros]; unfold fanout_post; cbn [fanout_claim_status fanout_claim_key]; try done.
  all: py_bools; subst.
  all: repeat match goal with H : as_id _ = Some _ |- _ => apply as_id_Some in H end.
  all: try (eexists; split_and!; [done|done|reflexivity]).
  by eexists _, _, _, _, _.
Qed.

Lemma admits_fanout_inv conv job j :
  _conversation_admits_fanout conv job j = Ok true ->
  doc_get conv "status" = VStr "completed" /\ truthy (doc_get conv "discarded") = false /\
  doc_get conv "finalization_job_id" = VStr j /\
  get_int conv "finalization_revision" 0 = get_int job "finalization_revision" 0.
Proof.
  unfold _conversation_admits_fanout. intros H.
  destruct (truthy (doc_get conv "discarded")); [done|]. simpl in H.
  destruct (v_is (doc_get conv "status") "completed") eqn:E1; [|done]. simpl in H.
  destruct (v_is (doc_get conv "finalization_job_id") j) eqn:E2; [|done]. simpl in H.
  apply v_is_true in E1, E2.
  destruct (get_int conv "finalization_revision" 0) as [a|ex]; [|by destruct ex].
  destruct (get_int job "finalization_revision" 0) as [b|ex]; [|by destruct ex].
  injection H as H. apply Z.eqb_eq in H. by subst.
Qed.

(** The fanout has one legitimate owner.  A fanout claim is granted only to
    the holder of the job's current lease, only while the fanout is not yet
    delivered, and only if in the same snapshot the conversation the job names
    is completed, not discarded, and bound to exactly this job and revision;
    the grant records the claimant's epoch.  If the conversation is not in that
    state the job ends at once as completed with outcome stale, its fanout
    fenced; every other answer changes nothing. *)
Theorem fanout_needs_the_bound_conversation j g e now s r s' :
  claim_finalization_fanout j g e now s = Ok (r, s') ->
  (fanout_claim_status r = "claimed" ->
     exists job job' uid c conv, s !! _job_ref j = Some job /\
       _is_current_lease job g e = Ok true /\ doc_get job "fanout_status" <> VStr "completed" /\
       doc_get job "uid" = VStr uid /\ doc_get job "conversation_id" = VStr c /\
       s !! _conversation_ref uid c = Some conv /\
       doc_get conv "status" = VStr "completed" /\ truthy (doc_get conv "discarded") = false /\
       doc_get conv "finalization_job_id" = VStr j /\
       get_int conv "finalization_revision" 0 = get_int job "finalization_revision" 0 /\
       s' !! _job_ref j = Some job' /\ doc_get job' "fanout_status" = VStr "leased" /\
       doc_get job' "fanout_lease_epoch" = VInt e) /\
  (fanout_claim_status r = "fenced" ->
     exists job', s' !! _job_ref j = Some job' /\ doc_get job' "status" = VStr "completed" /\
       doc_get job' "terminal_outcome" = VStr "stale" /\
       doc_get job' "fanout_status" = VStr "fenced") /\
  (fanout_claim_status r <> "claimed" -> fanout_claim_status r <> "fenced" -> s' = s).
Proof.
  intros H. destruct (run_txn_runs _ _ _ _ _ (fanout_runs j g e now s) H) as (ws & Hp & Hc).
  unfold fanout_post in Hp. split_and!.
  - intros Hr. rewrite Hr in Hp. destruct Hp as (job & uid & c & conv & key & Hj & Hl & Hf & Hu &
      Hci & Hconv & Had & _ & ->). apply admits_fanout_inv in Had as (? & ? & ? & ?).
    cbn [commit apply_write] in Hc. rewrite Hj in Hc. injection Hc as <-.
    eexists job, _, uid, c, conv. split_and!; try done; [apply lookup_insert_eq|..];
      by rewrite doc_get_apply.
  - intros Hr. rewrite Hr in Hp. destruct Hp as (job & Hj & _ & ->).
    cbn [commit apply_write] in Hc. rewrite Hj in Hc.
    destruct (commit_delta job [("leased", -1); ("completed", 1); ("stale", 1)]
      (<[_job_ref j := apply_ops false job (_fenced_finalization_update now)]> s))
      as (s2 & E & Hs2). rewrite E in Hc. injection Hc as ->.
    eexists. rewrite Hs2 by done. split; [apply lookup_insert_eq|].
    by rewrite !doc_get_apply.
  - intros H1 H2. assert (ws = []) as ->; [|by injection Hc].
    revert Hp. repeat (case_match; try done; try congruence).
Qed.

(** ** Conversations without a job *)
Lemma guarded_update_spec r test u s :
  run_txn (guarded_update r test u) s =
  match s !! r with
  | None => Ok (false, s)
  | Some d =>
      match test d with
      | Ok true => Ok (true, <[r := apply_ops false d u]> s)
      | Ok false => Ok (false, s)
      | Raise e => Raise e
      end
  end.
Proof.
  unfold guarded_update, run_txn. ev (txn_get_ok r s). destruct (s !! r) as [d|] eqn:Hd; [|done].
  destruct (test d) as [b|ex] eqn:Ht.
  - ev (lift_ok (Ok b) b (TxnState s []) eq_refl). destruct b; [|done].
    unfold txn_update. ev (txn_write_ok (WUpdate r u) s []). simpl. by rewrite Hd.
  - done.
Qed.

Lemma unowned_inv d :
  unowned_processing d = true ->
  doc_get d "status" = VStr "processing" /\ truthy (doc_get d "discarded") = false /\
  truthy (doc_get d "deferred") = false /\ truthy (doc_get d "finalization_job_id") = false.
Proof.
  unfold unowned_processing. intros H. apply andb_true_iff in H as [H1 H2].
  apply v_is_true in H1. apply negb_true_iff in H2.
  apply orb_false_iff in H2 as [H2 H4]. apply orb_false_iff in H2 as [H2 H3]. auto.
Qed.

(** Orphan recovery spares live work.  Closing an orphan succeeds only on a
    row that is processing, not discarded, not deferred, owned by no job and
    still stamped with exactly the scanned admission instant, and then changes
    its status to completed and nothing else; it fails, changing nothing, after
    the row's processor has renewed its lease at another instant, and it never
    succeeds twice in a row. *)
Theorem orphan_recovery_spares_live_work uid c stamp s s' b :
  complete_orphan_conversation uid c (instant stamp) s = Ok (b, s') ->
  (b = false -> s' = s) /\
  (b = true -> exists d d', s !! _conversation_ref uid c = Some d /\
     doc_get d "status" = VStr "processing" /\ truthy (doc_get d "discarded") = false /\
     truthy (doc_get d "deferred") = false /\ truthy (doc_get d "finalization_job_id") = false /\
     doc_get d "processing_admitted_at" = instant stamp /\
     s' = <[_conversation_ref uid c := d']> s /\ doc_get d' "status" = VStr "completed" /\
     (forall k, k <> "status" -> d' !! k = d !! k) /\
     complete_orphan_conversation uid c (instant stamp) s' = Ok (false, s')) /\
  (forall now s1, renew_processing_lease uid c now s = Ok (true, s1) -> now <> stamp ->
     complete_orphan_conversation uid c (instant stamp) s1 = Ok (false, s1)).
Proof.
  unfold complete_orphan_conversation, renew_processing_lease, _complete_orphan_conversation_txn,
    _renew_processing_lease_txn. rewrite !guarded_update_spec.
  intros H. split_and!.
  - intros ->. destruct (s !! _conversation_ref uid c) as [d|]; [|by simplify_eq].
    destruct (_ && _ && _); by simplify_eq.
  - intros ->. destruct (s !! _conversation_ref uid c) as [d|] eqn:Hd; [|done].
    destruct (unowned_processing d && is_time (doc_get d "processing_admitted_at")
      && py_eq (doc_get d "processing_admitted_at") (instant stamp)) eqn:E; [|done].
    apply andb_true_iff in E as [E E3]. apply andb_true_iff in E as [E1 E2].
    apply unowned_inv in E1 as (? & ? & ? & ?).
    assert (doc_get d "processing_admitted_at" = instant stamp).
    { destruct (doc_get d "processing_admitted_at") as [| | | | |aw us| |]; try done.
      simpl in E3. destruct aw; [|done]. apply Z.eqb_eq in E3. by subst. }
    injection H as <-. eexists d, _. split_and!; try done.
    + by rewrite doc_get_apply.
    + intros k Hk. by rewrite apply_ops_notin by set_solver.
    + rewrite lookup_insert_eq. unfold unowned_processing. by rewrite doc_get_apply.
  - intros now s1. rewrite guarded_update_spec.
    destruct (s !! _conversation_ref uid c) as [d|] eqn:Hd; [|done].
    destruct (_ && negb _); [|done]. intros [= <-] Hne.
    rewrite guarded_update_spec, lookup_insert_eq, (doc_get_apply d _ "processing_admitted_at").
    simpl. rewrite (proj2 (Z.eqb_neq _ _) Hne), andb_false_r. done.
Qed.

(** The operations other than the recovery of a failed enrichment that may run
    on a conversation without a job. *)
Definition keeps_claim {Env : FinalizationEnv} (op : job_op) : Prop :=
  match op with
  | OpRenew _ _ _ | OpStamp _ _ _ | OpReacquire _ _ _ | OpOrphan _ _ _
  | OpUnstampable _ _ _ _ _ => True
  | _ => False
  end.

Definition claimed_row (uid c : string) (s : db) : Prop :=
  exists d, s !! _conversation_ref uid c = Some d /\ doc_get d "deferred" = VBool false /\
    is_str (doc_get d "status") = true.

Lemma guarded_keeps_claim uid c r test u s b s' :
  run_txn (guarded_update r test u) s = Ok (b, s') -> claimed_row uid c s ->
  ("deferred" ∉ u.*1 \/ forall d, doc_get d "deferred" = VBool false -> test d <> Ok true) ->
  (forall d, is_str (doc_get d "status") = true ->
     is_str (doc_get (apply_ops false d u) "status") = true) ->
  claimed_row uid c s'.
Proof.
  rewrite guarded_update_spec. intros H (d & Hd & Hdef & Hst) Hu Hstr.
  destruct (s !! r) as [d0|] eqn:Hr; [|simplify_eq; by exists d].
  destruct (test d0) as [[]|] eqn:Ht; simplify_eq; [|by exists d].
  destruct (decide (r = _conversation_ref uid c)) as [->|Hne].
  - rewrite Hd in Hr. injection Hr as <-. destruct Hu as [Hu|Hu]; [|by apply Hu in Ht].
    eexists. split; [apply lookup_insert_eq|]. split; [by rewrite doc_get_apply_notin|auto].
  - exists d. by rewrite lookup_insert_ne.
Qed.

Lemma deferral_other d b : doc_get d "deferred" = VBool (negb b) -> deferral_is b d <> Ok true.
Proof.
  unfold deferral_is. intros ->. destruct (v_in_set _ _) as [k|]; [|done]. simpl.
  rewrite bool_decide_eq_false_2 by (by destruct b). by rewrite andb_false_r.
Qed.

Ltac status_str := intros d Hd; rewrite doc_get_apply; simpl; exact Hd || done.

Lemma keeps_claim_step {Env : FinalizationEnv} uid c op s s' :
  keeps_claim op -> claimed_row uid c s -> job_step op s = Ok s' -> claimed_row uid c s'.
Proof.
  intros Hop Hs H. destruct op; try done; simpl in H.
  - apply store_of_Ok in H as [b H]. eapply guarded_keeps_claim; [exact H|done|left; decide_key|status_str].
  - unfold complete_unstampable_orphan_conversation in H.
    destruct (dt_add now (- stale_after)); [|done].
    apply store_of_Ok in H as [b H]. eapply guarded_keeps_claim; [exact H|done|left; decide_key|status_str].
  - apply store_of_Ok in H as [b H]. eapply guarded_keeps_claim; [exact H|done|left; decide_key|status_str].
  - apply store_of_Ok in H as [b H]. eapply guarded_keeps_claim; [exact H|done|left; decide_key|status_str].
  - apply store_of_Ok in H as [b H]. eapply guarded_keeps_claim; [exact H|done|right|status_str].
    intros d Hd. by apply deferral_other.
Qed.

(** A deferred conversation is enriched by one opener.  After one caller
    has claimed a deferred row, no later claim succeeds, through any sequence of
    lease renewals, stamps, orphan recoveries and further claims on any
    conversation, until a failed enrichment re-arms the row. *)
Theorem deferred_row_has_one_opener {Env : FinalizationEnv} uid c now now' ops s s1 :
  reacquire_deferred_processing uid c now s = Ok (true, s1) -> Forall keeps_claim ops ->
  reacquire_deferred_processing uid c now' (job_run ops s1) = Ok (false, job_run ops s1).
Proof.
  unfold reacquire_deferred_processing at 1, _reacquire_deferred_processing_txn.
  rewrite guarded_update_spec.
  destruct (s !! _conversation_ref uid c) as [d|] eqn:Hd; [|done].
  destruct (deferral_is true d) as [[]|] eqn:Ht; try done. intros [= <-] Hops.
  assert (Hcl : claimed_row uid c (job_run ops (<[_conversation_ref uid c := apply_ops false d
    [("status", FValue (VStr "processing")); ("deferred", FValue (VBool false));
     ("processing_admitted_at", FValue (instant now))]]> s))).
  { assert (H0 : claimed_row uid c (<[_conversation_ref uid c := apply_ops false d
      [("status", FValue (VStr "processing")); ("deferred", FValue (VBool false));
       ("processing_admitted_at", FValue (instant now))]]> s)).
    { eexists. split; [apply lookup_insert_eq|]. by rewrite !doc_get_apply. }
    revert H0. generalize (<[_conversation_ref uid c := apply_ops false d
      [("status", FValue (VStr "processing")); ("deferred", FValue (VBool false));
       ("processing_admitted_at", FValue (instant now))]]> s).
    clear -Hops. induction Hops as [|op ops Hop _ IH]; intros s2 H0; [done|].
    unfold job_run. simpl. apply IH. destruct (job_step op s2) eqn:E; [|done].
    by eapply keeps_claim_step. }
  destruct Hcl as (d2 & Hd2 & Hdef & Hst).
  unfold reacquire_deferred_processing, _reacquire_deferred_processing_txn.
  rewrite guarded_update_spec, Hd2. pose proof (deferral_other d2 true Hdef) as Hne.
  destruct (deferral_is true d2) as [[]|ex] eqn:Ed; [done|done|].
  unfold deferral_is in Ed. by destruct (doc_get d2 "status").
Qed.

(** ** Cursors *)

(** A sweep cursor advances once per generation.  An advance succeeds only
    when the stored generation is the one its caller read; it stores the new
    position under the next generation; and every other advance from the same
    generation fails and changes nothing, so a delayed sweep cannot rewind the
    progress of another pod. *)
Theorem cursor_advances_once_per_generation name g p now s s1 :
  advance_cursor name g p now s = Ok (true, s1) ->
  (exists p0, get_cursor name s = Ok (Cursor p0 g)) /\
  get_cursor name s1 = Ok (Cursor p (g + 1)) /\
  (forall q, q <> cursor_ref name -> s1 !! q = s !! q) /\
  forall p' now', advance_cursor name g p' now' s1 = Ok (false, s1).
Proof.
  unfold advance_cursor, _advance_stale_processing_sweep_cursor_txn, run_txn.
  ev (txn_get_ok (cursor_ref name) s). intros H.
  set (cur := match s !! cursor_ref name with None => Ok 0 | Some d => stored_generation d end) in H.
  destruct cur as [g0|ex] eqn:Hcur; [|done]. unfold cur in Hcur.
  rewrite (txn_bind_ok _ _ _ _ _ (lift_ok _ _ (TxnState s []) eq_refl)) in H.
  destruct (negb (g0 =? g)) eqn:Eg; [simpl in H; by destruct s|].
  apply negb_false_iff, Z.eqb_eq in Eg. subst g0. injection H as <-.
  set (nd := doc _).
  assert (Hgen : stored_generation nd = Ok (g + 1)) by (destruct p; reflexivity).
  split_and!.
  - unfold get_cursor. destruct (s !! cursor_ref name) as [d|].
    + rewrite Hcur. simpl. by eexists.
    + injection Hcur as <-. by eexists.
  - unfold get_cursor. rewrite lookup_insert_eq, Hgen. by destruct p.
  - intros q Hq. by rewrite lookup_insert_ne.
  - intros p' now'. set (s1 := <[cursor_ref name := nd]> s).
    ev (txn_get_ok (cursor_ref name) s1). unfold s1 at 1. rewrite lookup_insert_eq.
    ev (lift_ok _ _ (TxnState s1 []) Hgen).
    by rewrite (proj2 (Z.eqb_neq (g + 1) g)) by lia.
Qed.

(** ** Recovery windows *)
Lemma timedelta_small n : 0 <= n <= 86400 * 90 -> timedelta_seconds n = Ok (seconds n).
Proof.
  intros Hn. unfold timedelta_seconds.
  assert (0 <= n / 86400 <= 90).
  { split; [by apply Z.div_pos; lia|]. apply Z.div_le_upper_bound; lia. }
  by rewrite !(proj2 (Z.leb_le _ _)) by lia.
Qed.

(** Misconfiguration cannot disable recovery.  Whatever the environment
    holds (unset, text that is no number, negative or huge numbers), the orphan
    window lies between five minutes and one day and the abandonment window
    between one and ninety days, the replay delay is at least thirty seconds
    when it is defined, and with nothing set they are fifteen minutes, fourteen
    days and five minutes. *)
Theorem recovery_windows_are_bounded (Env : FinalizationEnv) :
  (exists n, get_stale_processing_orphan_after = Ok (seconds n) /\ 300 <= n <= 86400) /\
  (exists n, get_byok_abandoned_after = Ok (seconds n) /\ 86400 <= n <= 90 * 86400) /\
  (forall d, get_finalization_reconcile_stale_after = Ok d -> seconds 30 <= d) /\
  ((forall name, getenv name = None) ->
   get_stale_processing_orphan_after = Ok (seconds 900) /\
   get_byok_abandoned_after = Ok (seconds (14 * 86400)) /\
   get_finalization_reconcile_stale_after = Ok (seconds 300)).
Proof.
  unfold get_stale_processing_orphan_after, get_byok_abandoned_after,
    get_finalization_reconcile_stale_after.
  split_and!.
  - eexists. split; [apply timedelta_small|]; lia.
  - eexists. split; [apply timedelta_small|]; lia.
  - intros d. unfold timedelta_seconds. case_match; [|done]. intros [= <-]. unfold seconds. lia.
  - intros Hn. unfold env_seconds. by rewrite !Hn.
Qed.

(** The default window is fourteen days, where the comment beside it says
    seven; the default orphan window is not the floor its comment promises. *)
Lemma default_windows_differ_from_their_comments :
  @get_byok_abandoned_after plain_env = Ok (seconds (14 * 86400)) /\
  @get_byok_abandoned_after plain_env <> Ok (seconds (7 * 86400)) /\
  @get_stale_processing_orphan_after plain_env = Ok (seconds 900) /\
  @get_stale_processing_orphan_after plain_env <> Ok (seconds 300).
Proof. by vm_compute. Qed.

