(* ===== verification/SweepProofs.v ===== *)
(** * What the bounded sweeps find

    A sweep examines a window of the rows after its cursor: it keeps the
    candidates of the window in order, within its limits, and its next cursor is
    the last row of the window ([sweep_examines_a_window]).  Sweeps that follow
    one another's cursor examine consecutive windows, so a cycle of them covers the
    query, but for less than a page of rows when the last sweep is full
    ([sweep_cycle_covers], [sweep_can_end_early]). *)

From S2P Require Import Prelude PyValue Firestore FinalizationDecision FinalizationJobs.
From S2P Require Import FinalizationRecovery.
From S2P Require Import FinalizationSpec.
From stdpp Require Import sorting.
Local Open Scope Z_scope.

Section Window.
Context {A : Type} (select : path -> fields -> res (option A)).

(** The candidates of a list of rows, in order. *)
Fixpoint found (rows : list row) : res (list A) :=
  match rows with
  | [] => Ok []
  | (p, d) :: rows' =>
      c ← select p d;
      xs ← found rows';
      Ok (match c with Some x => x :: xs | None => xs end)
  end.

Lemma found_app a b :
  found (a ++ b) = (xs ← found a; ys ← found b; Ok (xs ++ ys)).
Proof.
  induction a as [|[p d] a IH]; simpl; [by destruct (found b)|].
  destruct (select p d) as [c|e]; simpl; [|done]. rewrite IH.
  destruct (found a) as [xs|e]; simpl; [|done].
  destruct (found b) as [ys|e]; simpl; [|done]. by destruct c.
Qed.

Lemma found_app_Ok a b xs ys :
  found a = Ok xs -> found b = Ok ys -> found (a ++ b) = Ok (xs ++ ys).
Proof. intros Ha Hb. by rewrite found_app, Ha, Hb. Qed.

Lemma found_length a xs : found a = Ok xs -> (length xs <= length a)%nat.
Proof.
  revert xs. induction a as [|[p d] a IH]; intros xs H; simpl in H; inv_res; [done|].
  simpl. destruct x; subst; simpl; specialize (IH _ ltac:(done)); lia.
Qed.

(** The path of the last of the first [n] rows, if any. *)
Definition window_end (n : nat) (rows : list row) (dflt : option path) : option path :=
  match n with O => dflt | S i => fst <$> rows !! i end.

Variables limit max_scan : Z.

Definition len (l : list A) : Z := Z.of_nat (length l).

(** How the loop over a page ends after [n] of its rows: at the end of the page,
    at the scan bound, or at the candidate limit. *)
Definition page_stop (page : list row) (n : nat) (st st' : scan_state (A:=A)) : Prop :=
  (n = length page /\ scanned st' = scanned st + Z.of_nat n /\ len (collected st') < limit) \/
  (scanned st' = max_scan + 1 /\ scanned st + Z.of_nat n = max_scan /\ len (collected st') < limit) \/
  (len (collected st') = limit /\ scanned st' = scanned st + Z.of_nat n /\ (0 < n)%nat).

Lemma scan_page_window page st st' :
  scan_page select limit max_scan page st = Ok st' ->
  len (collected st) < limit -> scanned st <= max_scan ->
  exists n xs, (n <= length page)%nat /\ found (take n page) = Ok xs /\
    collected st' = collected st ++ xs /\ last_path st' = window_end n page (last_path st) /\
    scanned st + Z.of_nat n <= max_scan /\ page_stop page n st st'.
Proof.
  revert st. induction page as [|[p d] page IH]; intros st H Hl Hs; simpl in H.
  - injection H as <-. exists 0%nat, []. rewrite app_nil_r. simpl.
    split_and!; try done; [lia|]. left. simpl. lia.
  - destruct (Z.ltb_spec max_scan (scanned st + 1)) as [Hm|Hm].
    { injection H as <-. exists 0%nat, []. rewrite app_nil_r. simpl.
      split_and!; try done; [lia|lia|]. right; left. simpl. lia. }
    apply res_bind_Ok in H as (c & Hc & H).
    destruct c as [x|]; [destruct (Z.leb_spec limit (Z.of_nat (length (collected st ++ [x]))))
      as [Hlim|Hlim]|].
    + injection H as <-. exists 1%nat, [x]. unfold len in *. simpl. rewrite Hc. simpl.
      rewrite length_app in *. simpl in *. split_and!; try done; [lia|].
      right; right. unfold len. simpl. rewrite length_app. simpl. lia.
    + apply IH in H as (n & xs & Hn & Hf & Hcol & Hlp & Hsc & Hst);
        unfold len in *; simpl in *; rewrite ?length_app in *; simpl in *; [|lia|lia].
      exists (S n), (x :: xs). simpl. rewrite Hc. simpl. rewrite Hf. simpl.
      split_and!; [lia|done|by rewrite Hcol, <-app_assoc| |lia|].
      * rewrite Hlp. by destruct n.
      * unfold page_stop, len in *. simpl in *. naive_solver lia.
    + apply IH in H as (n & xs & Hn & Hf & Hcol & Hlp & Hsc & Hst);
        unfold len in *; simpl in *; [|lia|lia].
      exists (S n), xs. simpl. rewrite Hc. simpl. rewrite Hf. simpl.
      split_and!; [lia|done|done| |lia|].
      * rewrite Hlp. by destruct n.
      * unfold page_stop, len in *. simpl in *. naive_solver lia.
Qed.

Lemma window_end_app n m a b dflt :
  n = length a -> window_end (n + m) (a ++ b) dflt = window_end m b (window_end n a dflt).
Proof.
  unfold row in *. intros ->. destruct m as [|m].
  - rewrite Nat.add_0_r. destruct (length a) as [|i] eqn:Ha; [done|]. simpl.
    by rewrite lookup_app_l by lia.
  - rewrite Nat.add_succ_r. simpl. rewrite lookup_app_r by lia.
    by replace (length a + m - length a)%nat with m by lia.
Qed.

Lemma window_end_take n k rows dflt :
  (n <= length (take k rows))%nat -> window_end n (take k rows) dflt = window_end n rows dflt.
Proof.
  unfold row in *. destruct n as [|i]; [done|]. simpl. rewrite length_take. intros H.
  rewrite lookup_take_lt by lia. done.
Qed.

Lemma page_size_pos : (0 < page_size limit)%nat.
Proof. unfold page_size. lia. Qed.

(** The first [n] rows are all of them, or the candidate limit was reached among them
    within a page of the last row. *)
Definition window_reaches_end (rows : list row) (n : nat) (cs : list A) : Prop :=
  n = length rows \/ (len cs = limit /\ (length rows < n + page_size limit)%nat).

(** The window of the whole loop, and why it ended. *)
Definition loop_window (rows : list row) (st st' : scan_state (A:=A)) (ex : bool) : Prop :=
  exists n xs, (n <= length rows)%nat /\ found (take n rows) = Ok xs /\
    collected st' = collected st ++ xs /\ last_path st' = window_end n rows (last_path st) /\
    scanned st + Z.of_nat n <= max_scan /\ len (collected st') <= limit /\
    (ex = true -> window_reaches_end rows n (collected st')) /\
    (ex = false -> len (collected st') = limit \/ scanned st + Z.of_nat n = max_scan).

Lemma loop_window_stop rows st ex :
  len (collected st) <= limit -> scanned st <= max_scan ->
  (ex = true -> rows = []) ->
  (ex = false -> len (collected st) = limit \/ scanned st = max_scan) ->
  loop_window rows st st ex.
Proof.
  intros Hl Hs Ht Hf. exists 0%nat, []. rewrite app_nil_r. simpl.
  split_and!; try done; try lia.
  - intros ->. left. by rewrite Ht.
  - intros ->. destruct (Hf eq_refl); [by left|right; lia].
Qed.

Lemma scan_loop_stops fuel rows st :
  ((Z.of_nat (length (collected st)) <? limit) && (scanned st <? max_scan)) = false ->
  scan_loop select limit max_scan fuel rows st = Ok (st, false).
Proof. intros H. destruct fuel; simpl; [done|]. by rewrite H. Qed.

Lemma scan_loop_window fuel rows st st' ex :
  scan_loop select limit max_scan fuel rows st = Ok (st', ex) -> (length rows < fuel)%nat ->
  len (collected st) <= limit -> scanned st <= max_scan ->
  loop_window rows st st' ex.
Proof.
  revert rows st. induction fuel as [|fuel IH]; intros rows st H Hfuel Hl Hs; [lia|].
  simpl in H. destruct (andb _ _) eqn:Hgo.
  2:{ injection H as <- <-. apply loop_window_stop; try done. intros _. unfold len in *.
      apply andb_false_iff in Hgo as [Hg|Hg]; apply Z.ltb_ge in Hg; [left|right]; lia. }
  apply andb_true_iff in Hgo as [Hg1 Hg2]. apply Z.ltb_lt in Hg1, Hg2.
  pose proof page_size_pos as Hps.
  destruct (take (page_size limit) rows) as [|r page'] eqn:Hpage.
  { injection H as <- <-. apply loop_window_stop; try done. intros _.
    destruct rows; [done|]. destruct (page_size limit); [lia|done]. }
  rewrite <- Hpage in H. set (page := take (page_size limit) rows) in *.
  apply res_bind_Ok in H as (st1 & Hp & H).
  destruct (scan_page_window page st st1 Hp ltac:(unfold len; lia) Hs)
    as (n & xs & Hn & Hf & Hcol & Hlp & Hsc & Hst).
  assert (Hnr : (n <= length rows)%nat) by (unfold page in Hn; rewrite length_take in Hn; lia).
  assert (Htn : take n page = take n rows).
  { unfold page in *. rewrite length_take in Hn. rewrite take_take. f_equal. lia. }
  assert (Hlp' : last_path st1 = window_end n rows (last_path st)).
  { rewrite Hlp. by apply window_end_take. }
  rewrite Htn in Hf.
  assert (Hone : forall ex0, len (collected st1) <= limit ->
    (ex0 = true -> window_reaches_end rows n (collected st1)) ->
    (ex0 = false -> len (collected st1) = limit \/ scanned st + Z.of_nat n = max_scan) ->
    loop_window rows st st1 ex0) by (intros; by exists n, xs).
  destruct Hst as [(Hn1 & Hsc1 & Hlen1)|[(Hsc1 & Hsn & Hlen1)|(Hlen1 & Hsc1 & Hpos)]].
  - destruct (Z.ltb_spec max_scan (scanned st1)); [lia|].
    destruct (Nat.ltb_spec (length page) (page_size limit)) as [Hshort|Hfull].
    + injection H as <- <-. apply Hone; [lia| |done]. intros _. left.
      unfold page in *. rewrite length_take in *. lia.
    + apply IH in H as (m & ys & Hm & Hf2 & Hcol2 & Hlp2 & Hsc2 & Hl2 & Ht2 & Hfa2);
        [|rewrite length_drop; lia|lia|lia].
      assert (Hlen : length page = page_size limit)
        by (unfold page in *; rewrite length_take in *; lia).
      assert (Hrows : rows = page ++ drop (page_size limit) rows)
        by (unfold page; by rewrite take_drop).
      exists (n + m)%nat, (xs ++ ys). rewrite length_drop in Hm.
      split_and!; [unfold page in *; rewrite length_take in *; lia| | | |lia|lia| |].
      * rewrite Hrows, take_app_add' by lia. rewrite <- Htn, firstn_all2 in Hf by lia.
        by apply found_app_Ok.
      * by rewrite Hcol2, Hcol, <- app_assoc.
      * rewrite Hlp2, Hlp, <- (window_end_app _ _ page) by done. by rewrite <- Hrows.
      * intros He. unfold window_reaches_end in *. destruct (Ht2 He) as [?|[? ?]]; [left|right];
          unfold page in *; rewrite ?length_take, ?length_drop in *; [lia|split; [done|lia]].
      * intros He. destruct (Hfa2 He); [by left|right; lia].
  - destruct (Z.ltb_spec max_scan (scanned st1)); [|lia]. injection H as <- <-.
    apply Hone; [lia|done|]. intros _. by right.
  - destruct (Z.ltb_spec max_scan (scanned st1)); [lia|].
    destruct (Nat.ltb_spec (length page) (page_size limit)) as [Hshort|Hfull].
    + injection H as <- <-. apply Hone; [lia| |done]. intros _. right. split; [done|].
      unfold page in *. rewrite length_take in *. lia.
    + rewrite scan_loop_stops in H.
      * injection H as <- <-. apply Hone; [lia|done|by left].
      * apply andb_false_iff. left. apply Z.ltb_ge. unfold len in *. lia.
Qed.
End Window.

(** ** The order of a query *)
Lemma path_leb_refl p : path_leb p p = true.
Proof. induction p as [|a p IH]; simpl; [done|]. by rewrite string_compare_refl. Qed.

Lemma path_leb_total p q : path_leb p q = false -> path_leb q p = true.
Proof.
  revert q. induction p as [|a p IH]; intros [|b q]; simpl; try done.
  rewrite (String.compare_antisym a b). destruct (String.compare b a); simpl; auto.
Qed.

Lemma path_leb_trans p q r : path_leb p q = true -> path_leb q r = true -> path_leb p r = true.
Proof.
  revert q r. induction p as [|a p IH]; intros [|b q] [|c r]; simpl; try done.
  destruct (String.compare a b) eqn:Hab; try done; destruct (String.compare b c) eqn:Hbc; try done;
    try apply String.compare_eq_iff in Hab as ->; try apply String.compare_eq_iff in Hbc as ->;
    intros H1 H2.
  - rewrite string_compare_refl. by eapply IH.
  - by rewrite Hbc.
  - by rewrite Hab.
  - by rewrite (string_compare_lt_trans _ _ _ Hab Hbc).
Qed.

Lemma path_leb_antisym p q : path_leb p q = true -> path_leb q p = true -> p = q.
Proof.
  revert q. induction p as [|a p IH]; intros [|b q]; simpl; try done.
  rewrite (String.compare_antisym a b). destruct (String.compare b a) eqn:Hab; simpl; try done.
  apply String.compare_eq_iff in Hab as ->. intros H1 H2. f_equal. by apply IH.
Qed.

#[global] Instance row_le_trans : Transitive row_le.
Proof. intros x y z. unfold row_le. rewrite !Is_true_true. apply path_leb_trans. Qed.
#[global] Instance row_le_total : Total row_le.
Proof.
  intros x y. unfold row_le. destruct (path_leb x.1 y.1) eqn:E; [by left|].
  right. by rewrite path_leb_total.
Qed.

Lemma filter_all {B} (P : B -> Prop) `{!forall x, Decision (P x)} l :
  Forall P l -> filter P l = l.
Proof. induction 1; [done|]. rewrite filter_cons_True by done. by f_equal. Qed.

Lemma start_after_sorted rows i p d :
  StronglySorted row_le rows -> NoDup rows.*1 -> rows !! i = Some (p, d) ->
  start_after (Some p) rows = drop (S i) rows.
Proof.
  intros Hs Hnd. revert i. induction Hs as [|[p0 d0] rows Hs IH Hall]; intros i Hi; [done|].
  apply NoDup_cons in Hnd as [Hnotin Hnd]. unfold start_after. destruct i as [|i]; simpl in Hi |- *.
  - injection Hi as -> ->. rewrite filter_cons_False by (simpl; rewrite path_leb_refl; intros []).
    apply filter_all. rewrite Forall_forall in *. intros [q e] Hq. specialize (Hall _ Hq).
    unfold row_le in Hall. simpl in *. rewrite Is_true_true in *.
    destruct (path_leb q p) eqn:E; [|done]. exfalso.
    rewrite (path_leb_antisym q p E Hall) in Hq. destruct Hnotin.
    apply list_elem_of_fmap. by exists (p, e).
  - rewrite filter_cons_False; [by apply IH|]. simpl.
    assert (H : row_le (p0, d0) (p, d))
      by (rewrite Forall_forall in Hall; eapply Hall, list_elem_of_lookup_2, Hi).
    unfold row_le in H. simpl in H. rewrite Is_true_true in H. rewrite H. intros [].
Qed.

Lemma query_sorted m s : StronglySorted row_le (query m s).
Proof. apply StronglySorted_merge_sort; apply _. Qed.

Lemma elem_of_query m s p d : (p, d) ∈ query m s <-> s !! p = Some d /\ m p d = true.
Proof.
  unfold query. rewrite merge_sort_Permutation, list_elem_of_filter, elem_of_map_to_list.
  simpl. rewrite Is_true_true. tauto.
Qed.

Lemma query_NoDup m s : NoDup (query m s).*1.
Proof.
  apply NoDup_fmap_fst.
  - intros p d1 d2 [H1 _]%elem_of_query [H2 _]%elem_of_query. congruence.
  - unfold query. rewrite merge_sort_Permutation. apply NoDup_filter, NoDup_map_to_list.
Qed.

Lemma start_after_query m s i p d :
  query m s !! i = Some (p, d) -> start_after (live_cursor (Some p) s) (query m s) = drop (S i) (query m s).
Proof.
  intros Hi. assert (Hp : s !! p = Some d).
  { apply list_elem_of_lookup_2, elem_of_query in Hi. tauto. }
  unfold live_cursor. rewrite Hp.
  eapply start_after_sorted; [apply query_sorted|apply query_NoDup|done].
Qed.

(** ** One sweep *)

(** A sweep examines one window.  It looks at the first [n] rows after its
    cursor, at most [max_scan] of them; its candidates are exactly the
    candidates of these rows, in order, at most [limit].  When it does not report
    the end, it stopped at one of the two limits and its next cursor is the last
    row it looked at; when it does, it saw every row, or stopped at the candidate
    limit inside the last page. *)
Theorem sweep_examines_a_window {A} (select : path -> fields -> res (option A)) limit max_scan rows sw :
  run_sweep select limit max_scan rows = Ok sw -> 1 <= limit -> 1 <= max_scan ->
  exists n, (n <= length rows)%nat /\ Z.of_nat n <= max_scan /\
    found select (take n rows) = Ok (candidates sw) /\ len (candidates sw) <= limit /\
    (exhausted sw = false -> (0 < n)%nat /\ resume_after_path sw = fst <$> rows !! (n - 1)%nat /\
       (len (candidates sw) = limit \/ Z.of_nat n = max_scan)) /\
    (exhausted sw = true -> resume_after_path sw = None /\ window_reaches_end limit rows n (candidates sw)).
Proof.
  unfold run_sweep. intros H Hl Hm. apply res_bind_Ok in H as ([st ex] & H & [= <-]).
  apply scan_loop_window in H as (n & xs & Hn & Hf & Hcol & Hlp & Hsc & Hlen & Ht & Hfa);
    [|lia|unfold len; simpl; lia|simpl; lia].
  simpl in *. subst xs. exists n.
  pose proof (found_length _ _ _ Hf) as Hfl. rewrite length_take in Hfl. unfold len in *.
  split_and!; try done; destruct ex; try done; intros _.
  - destruct n as [|n].
    + destruct (Hfa eq_refl); simpl in *; lia.
    + simpl. rewrite Nat.sub_0_r. split_and!; [lia|done|]. destruct (Hfa eq_refl); lia.
  - split; [done|]. by apply Ht.
Qed.

(** ** A cycle of sweeps *)
Section Cycle.
Context {A : Type} (select : path -> fields -> res (option A)) (limit max_scan : Z).
Context (matches : path -> fields -> bool) (s : db).

Definition sweep_from (cursor : option path) : res (sweep A) :=
  run_sweep select limit max_scan (start_after (live_cursor cursor s) (query matches s)).

(** Sweeps that each start at the cursor of the one before, up to the first
    that reports the end. *)
Fixpoint sweep_cycle (fuel : nat) (cursor : option path) : res (list (sweep A)) :=
  match fuel with
  | O => Ok []
  | S fuel' =>
      sw ← sweep_from cursor;
      if exhausted sw then Ok [sw]
      else sws ← sweep_cycle fuel' (resume_after_path sw); Ok (sw :: sws)
  end.

Lemma scan_page_total page xs st :
  found select page = Ok xs -> exists st', scan_page select limit max_scan page st = Ok st'.
Proof.
  revert xs st. induction page as [|[p d] page IH]; intros xs st H; simpl in *; [by eexists|].
  apply res_bind_Ok in H as (c & Hc & H). apply res_bind_Ok in H as (ys & Hy & _).
  rewrite Hc. simpl. repeat case_match; eauto.
Qed.

Lemma found_split n rows xs :
  found select rows = Ok xs ->
  exists ys zs, found select (take n rows) = Ok ys /\ found select (drop n rows) = Ok zs /\ xs = ys ++ zs.
Proof.
  rewrite <- (take_drop n rows) at 1. rewrite found_app. intros H.
  apply res_bind_Ok in H as (ys & Hy & H). apply res_bind_Ok in H as (zs & Hz & [= <-]). eauto.
Qed.

Lemma scan_loop_total fuel rows xs st :
  found select rows = Ok xs -> exists r, scan_loop select limit max_scan fuel rows st = Ok r.
Proof.
  revert rows xs st. induction fuel as [|fuel IH]; intros rows xs st H; simpl; [by eexists|].
  case_match; [|by eexists].
  destruct (found_split (page_size limit) rows xs H) as (ys & zs & Hy & Hz & _).
  destruct (take (page_size limit) rows) as [|r page] eqn:Hp; [by eexists|]. rewrite <- Hp in *.
  destruct (scan_page_total _ _ st Hy) as [st' ->]. simpl.
  repeat case_match; eauto.
Qed.

Lemma run_sweep_total rows xs :
  found select rows = Ok xs -> exists sw, run_sweep select limit max_scan rows = Ok sw.
Proof.
  intros H. unfold run_sweep.
  destruct (scan_loop_total (S (length rows)) rows xs (ScanState [] 0 None) H) as [[st ex] ->].
  by eexists.
Qed.

Definition at_row (i : nat) (cursor : option path) : Prop :=
  start_after (live_cursor cursor s) (query matches s) = drop i (query matches s).

(** The sweeps [sws], of which [sw] is the last, return the candidates of the first [n]
    of the rows, in order, and these reach the end. *)
Definition covers (rows : list row) (sws : list (sweep A)) (sw : sweep A) : Prop :=
  exists n, (n <= length rows)%nat /\ found select (take n rows) = Ok (concat (candidates <$> sws)) /\
    window_reaches_end limit rows n (candidates sw).

Lemma covers_cons n rows sw sws swl :
  (n <= length rows)%nat -> found select (take n rows) = Ok (candidates sw) ->
  covers (drop n rows) sws swl -> covers rows (sw :: sws) swl.
Proof.
  intros Hn Hf (m & Hm & Hg & He). rewrite length_drop in Hm. exists (n + m)%nat. split_and!; [lia| |].
  - rewrite <- (take_drop n rows) at 1. rewrite take_app_add' by (rewrite length_take; lia).
    simpl. by apply found_app_Ok.
  - unfold window_reaches_end in *. rewrite length_drop in He. destruct He as [He|[? He]]; [left|right]; lia.
Qed.

Lemma sweep_cycle_from fuel i cursor xs :
  1 <= limit -> 1 <= max_scan -> at_row i cursor ->
  found select (drop i (query matches s)) = Ok xs ->
  (length (drop i (query matches s)) < fuel)%nat ->
  exists sws sw, sweep_cycle fuel cursor = Ok sws /\ last sws = Some sw /\ exhausted sw = true /\
    covers (drop i (query matches s)) sws sw.
Proof.
  intros Hl Hm. revert i cursor xs. induction fuel as [|fuel IH]; intros i cursor xs Hat Hx Hfuel;
    [lia|].
  simpl. unfold sweep_from. rewrite Hat. set (rows := drop i (query matches s)) in *.
  destruct (run_sweep_total rows xs Hx) as [sw Hsw]. rewrite Hsw. simpl.
  destruct (sweep_examines_a_window select limit max_scan rows sw Hsw Hl Hm)
    as (n & Hn & _ & Hf & _ & Hgo & Hend).
  destruct (exhausted sw) eqn:Hex.
  - exists [sw], sw. split_and!; try done. exists n. simpl. rewrite app_nil_r.
    split_and!; [done..|]. by apply Hend.
  - destruct (Hgo eq_refl) as (Hpos & Hres & _).
    destruct (rows !! (n - 1)%nat) as [[p d]|] eqn:Hr;
      [|apply lookup_ge_None in Hr; unfold row in *; lia].
    assert (Hq : query matches s !! (i + (n - 1))%nat = Some (p, d)) by (by rewrite <- lookup_drop).
    assert (Hdrop : drop n rows = drop (i + n) (query matches s))
      by (unfold rows; by rewrite drop_drop).
    assert (Hat2 : at_row (i + n) (resume_after_path sw)).
    { unfold at_row. rewrite Hres. change (fst <$> Some (p, d)) with (Some p).
      rewrite (start_after_query _ _ _ _ _ Hq).
      f_equal. lia. }
    destruct (found_split n rows xs Hx) as (ys & zs & Hy & Hz & ->). rewrite Hdrop in Hz.
    destruct (IH _ _ _ Hat2 Hz) as (sws & swl & Hc & Hlast & Hexl & Hcov).
    { rewrite <- Hdrop, length_drop. lia. }
    rewrite Hc. exists (sw :: sws), swl. simpl.
    split_and!; [done|by destruct sws|done|]. rewrite <- Hdrop in Hcov. by eapply covers_cons.
Qed.
End Cycle.

(** C40: How far a cycle of sweeps gets.  On a store at rest, sweeps that each resume at
    the cursor of the one before come to one that reports the end after finitely many
    rounds, however long the stretches of rows that are no candidates.  Together they return the candidates of the first [n] rows of the query, in order and
    each once, where [n] is all the rows unless the last sweep returned [limit]
    candidates; then fewer than a page of rows were never examined.  (In that case the
    code reports the end too early: [sweep_can_end_early].) *)
Theorem sweep_cycle_covers {A} (select : path -> fields -> res (option A)) limit max_scan matches s all :
  1 <= limit -> 1 <= max_scan -> found select (query matches s) = Ok all ->
  exists sws sw, sweep_cycle select limit max_scan matches s (S (length (query matches s))) None = Ok sws /\
    last sws = Some sw /\ exhausted sw = true /\
    covers select limit (query matches s) sws sw /\
    (len (candidates sw) < limit -> concat (candidates <$> sws) = all).
Proof.
  intros Hl Hm Hall.
  destruct (sweep_cycle_from select limit max_scan matches s (S (length (query matches s))) 0 None all)
    as (sws & sw & Hc & Hlast & Hex & Hcov); [done..|apply Nat.lt_succ_diag_r|].
  exists sws, sw. split_and!; [done..|]. destruct Hcov as (n & Hn & Hf & [->|[? _]]); [|lia].
  intros _. rewrite drop_0, firstn_all in Hf. congruence.
Qed.

(** ** What the candidates are *)
Lemma found_elem {A} (select : path -> fields -> res (option A)) rows xs x :
  found select rows = Ok xs -> x ∈ xs ->
  exists p d, (p, d) ∈ rows /\ select p d = Ok (Some x).
Proof.
  revert xs. induction rows as [|[p d] rows IH]; intros xs H Hx; simpl in H.
  - injection H as <-. by apply not_elem_of_nil in Hx.
  - apply res_bind_Ok in H as (c & Hc & H). apply res_bind_Ok in H as (ys & Hy & [= <-]).
    assert (Hx' : c = Some x \/ x ∈ ys).
    { destruct c as [y|]; [|by right]. apply elem_of_cons in Hx as [->|Hx]; auto. }
    destruct Hx' as [->|Hx']; [exists p, d; split; [apply elem_of_cons; by left|done]|].
    destruct (IH _ Hy Hx') as (p' & d' & Hr & Hs). exists p', d'.
    split; [apply elem_of_cons; by right|done].
Qed.

Lemma sweep_candidate {A} (select : path -> fields -> res (option A)) limit max_scan matches s cursor sw x :
  run_sweep select limit max_scan (start_after cursor (query matches s)) = Ok sw ->
  1 <= limit -> 1 <= max_scan -> x ∈ candidates sw ->
  exists p d, s !! p = Some d /\ matches p d = true /\ select p d = Ok (Some x).
Proof.
  intros H Hl Hm Hx.
  destruct (sweep_examines_a_window _ _ _ _ _ H Hl Hm) as (n & _ & _ & Hf & _).
  destruct (found_elem _ _ _ _ Hf Hx) as (p & d & Hr & Hs). exists p, d.
  apply elem_of_take in Hr as (i & Hr & _). apply list_elem_of_lookup_2 in Hr.
  assert (Hq : (p, d) ∈ query matches s).
  { unfold start_after in Hr. destruct cursor; [|done]. by apply list_elem_of_filter in Hr as [_ Hr]. }
  apply elem_of_query in Hq. tauto.
Qed.

Lemma uid_of_path p uid :
  _uid_from_conversation_path p = Some uid -> p = _conversation_ref uid (last_segment p).
Proof.
  destruct p as [|a [|u [|b [|c [|]]]]]; try done. simpl.
  destruct (bool_decide (a = "users") && bool_decide (b = CONVERSATIONS_COLLECTION)) eqn:E; [|done].
  intros [= <-]. apply andb_true_iff in E as [->%bool_decide_eq_true ->%bool_decide_eq_true]. done.
Qed.

(** The conversation of an orphan candidate. *)
Definition orphan_ref (o : orphan) : path := _conversation_ref (orphan_uid o) (orphan_conversation_id o).

(** Orphan candidates are actionable.  Every candidate of the sweep of bare
    processing rows names a stored conversation that is processing, not deferred
    and not owned by a job.  A candidate that is not legacy was admitted no later
    than [stale_after] ago, and closing it at once succeeds unless it is
    discarded; a legacy one has no admission instant, and stamping it at once
    succeeds.  In both cases the sweep's own write is the only change. *)
Theorem orphan_candidates_are_actionable stale_after limit max_scan resume now s sw o :
  get_stale_processing_orphan_candidates stale_after limit max_scan resume now s = Ok sw ->
  1 <= limit -> 1 <= max_scan -> o ∈ candidates sw ->
  exists d, s !! orphan_ref o = Some d /\ doc_get d "status" = VStr "processing" /\
    truthy (doc_get d "deferred") = false /\ truthy (doc_get d "finalization_job_id") = false /\
    (orphan_legacy o = false ->
       (exists t, orphan_admitted_at o = instant t /\ t <= now - stale_after) /\
       (truthy (doc_get d "discarded") = false ->
          complete_orphan_conversation (orphan_uid o) (orphan_conversation_id o) (orphan_admitted_at o) s =
            Ok (true, <[orphan_ref o := <["status" := VStr "completed"]> d]> s))) /\
    (orphan_legacy o = true -> forall t,
       stamp_processing_admission_if_absent (orphan_uid o) (orphan_conversation_id o) t s =
         Ok (true, <[orphan_ref o := <["processing_admitted_at" := instant t]> d]> s)).
Proof.
  unfold get_stale_processing_orphan_candidates. intros H Hl Hm Ho.
  apply res_bind_Ok in H as (cutoff & Hcut & H).
  assert (Hc : cutoff = now - stale_after) by (unfold dt_add in Hcut; case_all; lia).
  destruct (sweep_candidate _ _ _ _ _ _ _ _ H Hl Hm Ho) as (p & d & Hp & Hmt & Hsel).
  apply andb_true_iff in Hmt as [_ Hst]. apply v_is_true in Hst.
  unfold select_orphan in Hsel. destruct (_uid_from_conversation_path p) as [uid|] eqn:Hu; [|done].
  apply uid_of_path in Hu.
  destruct (truthy (doc_get d "deferred") || truthy (doc_get d "finalization_job_id")) eqn:E; [done|].
  apply orb_false_iff in E as [Hdef Hjob].
  unfold complete_orphan_conversation, stamp_processing_admission_if_absent,
    _complete_orphan_conversation_txn, _stamp_processing_admission_if_absent_txn, orphan_ref.
  setoid_rewrite guarded_update_spec.
  destruct (is_time (doc_get d "processing_admitted_at")) eqn:Ht.
  - apply res_bind_Ok in Hsel as (fresh & Hf & Hsel). destruct fresh; [done|]. injection Hsel as <-.
    simpl. rewrite <- Hu, Hp. exists d. split_and!; try done. intros _.
    destruct (doc_get d "processing_admitted_at") as [| | | | |[] us| |] eqn:Ha; try done.
    simpl in Hf. injection Hf as Hf. apply Z.ltb_ge in Hf. split; [exists us; split; [done|lia]|].
    intros Hdis. unfold unowned_processing. rewrite Hst, Hdis, Hdef, Hjob. simpl.
    rewrite Z.eqb_refl. done.
  - injection Hsel as <-. simpl. rewrite <- Hu, Hp. exists d. split_and!; try done. intros _ t.
    rewrite Hst, Ht. done.
Qed.

(** ** Concrete sweeps *)
Definition waiting_since (t : Z) : fields :=
  {["status" := VStr "processing"; "processing_admitted_at" := instant t]}.

(** Five processing conversations: the first was admitted just now, the other
    four long ago. *)
Definition stuck_rows : db :=
  {[ _conversation_ref "u" "a" := waiting_since (days 9); _conversation_ref "u" "b" := waiting_since 0;
     _conversation_ref "u" "c" := waiting_since 0; _conversation_ref "u" "d" := waiting_since 0;
     _conversation_ref "u" "e" := waiting_since 0 ]}.

Definition stuck_orphan (c : string) : orphan := Orphan "u" c (instant 0) false.

Definition stuck_sweep (limit max_scan : Z) (resume : option path) : res (sweep orphan) :=
  get_stale_processing_orphan_candidates (seconds 900) limit max_scan resume (days 9) stuck_rows.

(** A sweep can report the end too early.  When the candidate limit is
    reached inside the last, partial page, the sweep says that it is exhausted
    and clears its cursor although a later row of that page was never looked
    at; on an unchanged store the next sweep starts at the top and returns the
    same candidates, so that row is not recovered while those before it stay. *)
Theorem sweep_can_end_early :
  stuck_sweep 3 2000 None =
    Ok (Sweep [stuck_orphan "b"; stuck_orphan "c"; stuck_orphan "d"] None true) /\
  stuck_sweep 4 2000 None =
    Ok (Sweep [stuck_orphan "b"; stuck_orphan "c"; stuck_orphan "d"; stuck_orphan "e"] None true).
Proof. vm_compute. done. Qed.

Definition stuck_query : list row := query (conversations_with_status "processing") stuck_rows.
Definition stuck_select := select_orphan (days 9 - seconds 900).

Lemma sweep_examines_a_window_witness :
  let sw := Sweep [stuck_orphan "b"] (Some (_conversation_ref "u" "b")) false in
  exists n, Z.of_nat n <= 2 /\ found stuck_select (take n stuck_query) = Ok (candidates sw) /\
    resume_after_path sw = fst <$> stuck_query !! (n - 1)%nat.
Proof.
  intros sw.
  assert (H1 : run_sweep stuck_select 3 2 stuck_query = Ok sw) by (vm_compute; reflexivity).
  assert (H2 : 1 <= 3) by lia. assert (H3 : 1 <= 2) by lia.
  destruct (sweep_examines_a_window stuck_select 3 2 stuck_query sw H1 H2 H3)
    as (n & _ & Hn & Hf & _ & Hgo & _).
  destruct (Hgo eq_refl) as (_ & Hr & _).
  exact (ex_intro _ n (conj Hn (conj Hf Hr))).
Defined.

(** Three sweeps of two rows: they return one candidate, two, and the last one. *)
Lemma sweep_cycle_covers_witness :
  exists sws, sweep_cycle stuck_select 3 2 (conversations_with_status "processing") stuck_rows
      (S (length stuck_query)) None = Ok sws /\
    concat (candidates <$> sws) = [stuck_orphan "b"; stuck_orphan "c"; stuck_orphan "d"; stuck_orphan "e"].
Proof.
  assert (H1 : 1 <= 3) by lia. assert (H2 : 1 <= 2) by lia.
  assert (H3 : found stuck_select (query (conversations_with_status "processing") stuck_rows) =
    Ok [stuck_orphan "b"; stuck_orphan "c"; stuck_orphan "d"; stuck_orphan "e"])
    by (vm_compute; reflexivity).
  destruct (sweep_cycle_covers stuck_select 3 2 _ stuck_rows _ H1 H2 H3)
    as (sws & sw & Hc & Hlast & _ & _ & Hall).
  exists sws. split; [exact Hc|]. apply Hall. revert Hc.
  intros Hc. assert (Hlen : match sweep_cycle stuck_select 3 2 (conversations_with_status "processing") stuck_rows
      (S (length stuck_query)) None with Ok sws => match last sws with Some sw => len (candidates sw) <? 3 | None => false end
      | Raise _ => false end = true) by (vm_compute; reflexivity).
  unfold stuck_query in Hlen. rewrite Hc, Hlast in Hlen. by apply Z.ltb_lt.
Defined.

Lemma orphan_candidates_are_actionable_witness :
  exists d, stuck_rows !! _conversation_ref "u" "c" = Some d /\ doc_get d "status" = VStr "processing".
Proof.
  assert (H1 : stuck_sweep 3 2000 None =
    Ok (Sweep [stuck_orphan "b"; stuck_orphan "c"; stuck_orphan "d"] None true))
    by (vm_compute; reflexivity).
  assert (H2 : 1 <= 3) by lia. assert (H3 : 1 <= 2000) by lia.
  assert (H4 : stuck_orphan "c" ∈ [stuck_orphan "b"; stuck_orphan "c"; stuck_orphan "d"])
    by (apply elem_of_cons; right; apply elem_of_cons; by left).
  destruct (orphan_candidates_are_actionable _ _ _ _ _ _ _ (stuck_orphan "c") H1 H2 H3 H4)
    as (d & Hd & Hst & _).
  exact (ex_intro _ d (conj Hd Hst)).
Defined.
