(* ===== verification/FinalizationDispatch.v ===== *)
(** * Who dispatches a job

    A job that needs its user's own keys must never be woken by the
    credential-free reconciler.  The reconciler replays only jobs it found by
    their [reconcile_after_at]; this file shows that no job with user keys ever
    carries that field, through any history of the store in which replays follow
    from such finds ([dispatch_reach]). *)

From S2P Require Import Prelude PyValue Firestore Sha256 FinalizationDecision FinalizationJobs.
From S2P Require Import FinalizationRecovery FinalizationProofs FinalizationTheorems FinalizationSpec.
From S2P Require Import SweepProofs.
From stdpp Require Import sorting.
Local Open Scope Z_scope.

#[local] Opaque _projection_shard _job_id.

Definition needs_keys (job : fields) : bool := truthy (doc_get job "requires_byok").

Definition is_replay (op : job_op) : bool := match op with OpReplay _ _ _ => true | _ => false end.

(** Histories of the store, with the jobs that some read of the replay
    candidates returned or some request was told to need no keys.  The rest of the backend writes what it likes outside
    the jobs collection. *)
Inductive dispatch_reach {Env : FinalizationEnv} : db -> gset string -> Prop :=
| reach_start : dispatch_reach ∅ ∅
| reach_elsewhere s c s' :
    dispatch_reach s c -> (forall j, s' !! _job_ref j = s !! _job_ref j) -> dispatch_reach s' c
| reach_op op s c s' :
    dispatch_reach s c -> is_replay op = false -> job_step op s = Ok s' -> dispatch_reach s' c
| reach_read limit now l s c :
    dispatch_reach s c -> get_finalization_replay_candidates limit now s = Ok l ->
    dispatch_reach s (c ∪ list_to_set l.*1)
| reach_intent uid conv byok adm force extra now i j s c s' :
    dispatch_reach s c ->
    create_or_get_finalization_intent uid conv byok adm force extra now s = Ok (i, s') ->
    intent_job_id i = Some j -> intent_requires_byok i = false ->
    dispatch_reach s' ({[j]} ∪ c)
| reach_replay j stale_after now s c s' :
    dispatch_reach s c -> j ∈ c -> job_step (OpReplay j stale_after now) s = Ok s' ->
    dispatch_reach s' c.

(** No job with user keys is waiting for a replay, every job has a status, and
    every known job exists and needs no keys. *)
Record dispatch_ok (s : db) (c : gset string) : Prop := {
  keys_hidden j job : s !! _job_ref j = Some job -> needs_keys job = true ->
    doc_get job "reconcile_after_at" = VNone;
  has_status j job : s !! _job_ref j = Some job -> doc_get job "status" <> VNone;
  found_keyless j : j ∈ c -> exists job, s !! _job_ref j = Some job /\ needs_keys job = false
}.

#[local] Instance keyless : ReplayPolicy | 0 := fun job => needs_keys job = false.

(** A transition keeps the keys of a job and hides a job that has them. *)
Lemma transition_keys (job : fields) u ds :
  @job_transition keyless job u ds ->
  needs_keys (apply_ops false job u) = needs_keys job /\
  (needs_keys job = true -> doc_get job "reconcile_after_at" = VNone ->
   doc_get (apply_ops false job u) "reconcile_after_at" = VNone) /\
  (doc_get job "status" <> VNone -> doc_get (apply_ops false job u) "status" <> VNone).
Proof.
  intros Ht.
  assert (Hk : "requires_byok" ∉ u.*1).
  { destruct Ht as [| | | | | | | | | |u Hu _]; try decide_key.
    intros Hin. apply Hu in Hin. revert Hin. decide_key. }
  split_and!.
  - unfold needs_keys. by rewrite doc_get_apply_notin.
  - intros Hb Hn. destruct Ht as [| ? ? ? ? ? ? ? ? ? Hr| | | | |? ? ? ? Hr| |? ? ? ? ? ? Hok| |u Hu _];
      rewrite ?doc_get_apply_notin by (first [decide_key | intros Hin; apply Hu in Hin; revert Hin; decide_key]);
      try done; rewrite doc_get_apply; try done.
    + by rewrite (Hr Hb).
    + by rewrite (Hr Hb).
    + unfold replay_ok, keyless in Hok. congruence.
  - intros Hs. destruct Ht; rewrite doc_get_apply; try done; simpl; try exact Hs.
    rewrite field_after_notin; [exact Hs|]. intros Hin. apply H in Hin. revert Hin. decide_key.
Qed.

Lemma new_job_keys job ds :
  new_job_doc job ds ->
  (needs_keys job = true -> doc_get job "reconcile_after_at" = VNone) /\
  doc_get job "status" <> VNone.
Proof.
  intros [uid c revision byok force platform key j rec now st Hrec|uid c revision now receipt Hr].
  - destruct byok; [rewrite (Hrec eq_refl)|]; by destruct rec.
  - unfold needs_keys, doc_get.
    by rewrite !(receipt_job_get _ _ _ _ _ _ Hr) by decide_key.
Qed.

Lemma effect_keys s c ws s' :
  dispatch_ok s c -> @store_effect keyless s ws -> commit ws s = Some s' -> dispatch_ok s' c.
Proof.
  intros [Hh Hs Hf] He Hc. split.
  - intros j job' Hj' Hb.
    destruct (effect_on_job s ws s' j He Hc)
      as [Heq|[(job & u & ds & Hj & Ht & Hs')|(_ & nj & ds & Hn & Hs')]].
    + rewrite Heq in Hj'. by apply (Hh j).
    + rewrite Hs' in Hj'. injection Hj' as <-. apply transition_keys in Ht as (Hk & Hr & _).
      rewrite Hk in Hb. apply Hr; [done|]. by apply (Hh j).
    + rewrite Hs' in Hj'. injection Hj' as <-. apply new_job_keys in Hn as [Hn _]. auto.
  - intros j job' Hj'.
    destruct (effect_on_job s ws s' j He Hc)
      as [Heq|[(job & u & ds & Hj & Ht & Hs')|(_ & nj & ds & Hn & Hs')]].
    + rewrite Heq in Hj'. by apply (Hs j).
    + rewrite Hs' in Hj'. injection Hj' as <-. apply transition_keys in Ht as (_ & _ & Hst). eauto.
    + rewrite Hs' in Hj'. injection Hj' as <-. by apply new_job_keys in Hn as [_ Hn].
  - intros j Hj. destruct (Hf j Hj) as (job0 & Hj0 & Hb). pose proof (Hs _ _ Hj0) as Hst.
    destruct (effect_on_job s ws s' j He Hc)
      as [Heq|[(job & u & ds & Hj1 & Ht & Hs')|(He1 & nj & ds & Hn & Hs')]].
    + exists job0. by rewrite Heq.
    + rewrite Hj0 in Hj1. injection Hj1 as <-. apply transition_keys in Ht as (Hk & _ & _).
      eexists. split; [exact Hs'|]. by rewrite Hk.
    + rewrite Hj0 in He1. simpl in He1. subst job0. by destruct Hst.
Qed.

Lemma candidate_job limit now s l j d :
  get_finalization_replay_candidates limit now s = Ok l -> (j, d) ∈ l ->
  s !! _job_ref j = Some d /\ doc_get d "reconcile_after_at" <> VNone /\
  doc_get d "status" <> VNone.
Proof.
  unfold get_finalization_replay_candidates.
  set (rows := merge_sort due_le _). generalize (Z.to_nat (Z.max 1 (Z.min limit 100))). intros n.
  assert (Hrows : forall r, r ∈ take n rows -> s !! r.1 = Some r.2 /\ due now r.1 r.2 = true).
  { intros [p e] Hr. apply elem_of_take in Hr as (i & Hr & _). apply list_elem_of_lookup_2 in Hr.
    unfold rows in Hr. rewrite merge_sort_Permutation, list_elem_of_filter, elem_of_map_to_list in Hr.
    rewrite Is_true_true in Hr. simpl in *. tauto. }
  revert l. induction (take n rows) as [|[p e] rest IH]; intros l H Hin; simpl in H.
  - injection H as <-. by apply not_elem_of_nil in Hin.
  - apply res_bind_Ok in H as (acc & Hacc & H). apply res_bind_Ok in H as (keep & Hk & H).
    injection H as <-.
    assert (Hrest : (j, d) ∈ acc -> s !! _job_ref j = Some d /\
      doc_get d "reconcile_after_at" <> VNone /\ doc_get d "status" <> VNone).
    { apply IH; [|done]. intros r Hr. apply Hrows, elem_of_cons. by right. }
    destruct keep; [|by apply Hrest]. apply elem_of_cons in Hin as [[= -> ->]|Hin]; [|by apply Hrest].
    destruct (Hrows (p, e)) as [Hp Hd]; [apply elem_of_cons; by left|]. simpl in Hp, Hd.
    unfold due in Hd. apply andb_true_iff in Hd as [Hp2 Hd].
    assert (p = _job_ref (last_segment p)) as <-.
    { destruct p as [|a [|b [|]]]; try done. simpl in Hp2. by apply bool_decide_eq_true in Hp2 as ->. }
    split_and!; [done| |].
    + intros E. by rewrite E in Hd.
    + intros E. by rewrite E in Hk.
Qed.

(** The intent a request returns describes a stored job. *)
Definition intent_stored (s : db) (i : FinalizationIntent) (ws : list write) : Prop :=
  forall j s', intent_job_id i = Some j -> commit ws s = Some s' ->
    exists job, s' !! _job_ref j = Some job /\ intent_requires_byok i = needs_keys job.

Lemma intent_from_job s j job b i ws :
  _intent_from_job j job b = Ok i ->
  (forall s', commit ws s = Some s' -> s' !! _job_ref j = Some job) -> intent_stored s i ws.
Proof.
  unfold _intent_from_job. intros H Hs. inv_res. injection H as <-.
  intros j' s' [= <-] Hc. exists job. auto.
Qed.

Lemma no_intent_stored s st ws : intent_stored s (_no_finalization_intent st) ws.
Proof. by intros j s'. Qed.

Lemma other_ref j uid conv u : _job_ref j ∉ (write_path <$> [WUpdate (_conversation_ref uid conv) u]).
Proof. intros [=]%list_elem_of_singleton. Qed.

(** A created job is what the commit leaves at its reference. *)
Lemma created_job j job ds uid conv u s s' :
  commit (WSet (_job_ref j) job :: delta_writes job ds ++ [WUpdate (_conversation_ref uid conv) u]) s
    = Some s' -> s' !! _job_ref j = Some job.
Proof.
  simpl. intros Hc. rewrite (commit_other _ _ _ (_job_ref j) Hc); [apply lookup_insert_eq|].
  rewrite fmap_app, not_elem_of_app. split; [apply delta_job|apply other_ref].
Qed.

Lemma intent_runs {Env : FinalizationEnv} uid conv byok adm now force extra s :
  runs (_create_or_get_finalization_intent_txn (_conversation_ref uid conv) uid conv byok adm now
          true force extra) (intent_stored s) s [].
Proof.
  unfold _create_or_get_finalization_intent_txn, _conversation_has_finalization_content.
  effects.
  all: try (apply runs_nonempty; intros ?; effects).
  all: first [apply no_intent_stored | eapply intent_from_job; [eassumption|]].
  all: intros s' Hc; try (apply (commit_other _ _ _ (_job_ref (_job_id uid conv (a1 + 1)))) in Hc;
    [congruence|apply other_ref]).
  all: try match type of Hc with commit [] _ = _ => injection Hc as <- end.
  all: first [exact (created_job _ _ _ _ _ _ _ _ Hc) | idtac].
  all: match goal with H : _ <$> _ = Some _ |- _ =>
         apply fmap_Some in H as (? & ? & [= -> ->]) end; done.
Qed.

Lemma dispatch_reach_ok {Env : FinalizationEnv} s c : dispatch_reach s c -> dispatch_ok s c.
Proof.
  intros H.
  induction H as [|s c s' _ IH Hsame|op s c s' _ IH Hr Hs|limit now l s c _ IH Hl
                 |uid conv byok adm force extra now i j s c s' _ IH Hi Hj Hb|j sa now s c s' _ IH Hj Hs].
  - split; [intros j job Hj; by rewrite lookup_empty in Hj..|intros j Hj; set_solver].
  - destruct IH as [Hh Hst Hf]. split; intros j; rewrite Hsame; [apply Hh|apply Hst|apply Hf].
  - apply (job_step_effect (P := keyless)) in Hs as (ws & He & Hc);
      [by eapply effect_keys|by destruct op].
  - destruct IH as [Hh Hst Hf]. split; [done..|]. intros j [Hj|Hj]%elem_of_union; [by apply Hf|].
    apply elem_of_list_to_set, list_elem_of_fmap in Hj as ([j' d] & -> & Hin). simpl.
    destruct (candidate_job _ _ _ _ _ _ Hl Hin) as (Hd & Hrec & _).
    exists d. split; [done|]. destruct (needs_keys d) eqn:Hb; [|done]. by destruct Hrec; apply (Hh j').
  - assert (Hok : dispatch_ok s' c).
    { assert (Hs : job_step (OpCreate uid conv byok adm force extra now) s = Ok s')
        by (simpl; by rewrite Hi).
      apply (job_step_effect (P := keyless)) in Hs as (ws & He & Hc); [by eapply effect_keys|done]. }
    destruct Hok as [Hh Hst Hf]. split; [done..|].
    intros j' [->%elem_of_singleton|Hj']%elem_of_union; [|by apply Hf].
    apply (run_txn_runs _ _ _ _ _ (intent_runs _ _ _ _ _ _ _ _)) in Hi as (ws & Hi & Hc).
    destruct (Hi j s' Hj Hc) as (job & Hjob & Heq). exists job. by rewrite <-Heq.
  - apply (job_step_effect (P := keyless)) in Hs as (ws & He & Hc); [by eapply effect_keys|].
    intros job Hjob. destruct (found_keyless _ _ IH j Hj) as (job' & Hj' & Hb).
    rewrite Hjob in Hj'. by injection Hj' as ->.
Qed.

(** Jobs with user keys are never dispatched without them.  In every history
    of the store, whatever operations ran and whenever the replay candidates
    were read, no job that needs its user's keys carries the field the
    reconciler selects by, and every job a read of the candidates ever returned
    or a request reported as needing no keys exists and needs none; so neither the candidates nor the replays that
    follow from them ever concern a job with user keys. *)
Theorem keyed_jobs_are_never_replayed {Env : FinalizationEnv} s c :
  dispatch_reach s c ->
  (forall j job, s !! _job_ref j = Some job -> needs_keys job = true ->
     doc_get job "reconcile_after_at" = VNone) /\
  (forall j, j ∈ c -> exists job, s !! _job_ref j = Some job /\ needs_keys job = false).
Proof.
  intros H%dispatch_reach_ok. split; [apply (keys_hidden _ _ H)|apply (found_keyless _ _ H)].
Qed.
