(* ===== verification/ContentionRetry.v ===== *)
(** * Retries of contended transactions
    (backend/database/firestore_transaction_retry.py)

    A transaction aborted by contention is replayed a bounded number of times
    with jittered delays; any other failure leaves at once.  Whether a failure is
    contention is decided on the chain of its causes, which Python does not keep
    from being circular. *)

From S2P Require Import Prelude PyValue.
From Stdlib Require Import QArith_base QArith Qpower Lqa.
Local Open Scope Z_scope.

Definition DEFAULT_MAX_ATTEMPTS : Z := 5.
Definition _INITIAL_MAX_DELAY_SECONDS : Q := 2 # 10.
Definition _MAX_DELAY_SECONDS : Q := 1.

(** ** Contention

    The exceptions of a process: the class of each and its [__cause__]. *)
Record exception := Exception { kind : exn; cause : option nat }.

Abbreviation heap := (gmap nat exception).

(** The walk along the causes, with the identities seen so far. *)
Fixpoint walk (fuel : nat) (h : heap) (current : option nat) (seen : gset nat) : bool :=
  match fuel, current with
  | S fuel', Some i =>
      if decide (i ∈ seen) then false
      else
        match h !! i with
        | None => false
        | Some e =>
            if decide (kind e = Aborted) then true
            else walk fuel' h (cause e) ({[i]} ∪ seen)
        end
  | _, _ => false
  end.

Definition _is_transaction_contention (h : heap) (error : nat) : bool :=
  walk (S (size h)) h (Some error) ∅.

(** The causes of an exception, itself included. *)
Inductive caused_by (h : heap) : nat -> nat -> Prop :=
| caused_self i : caused_by h i i
| caused_next i e k j : h !! i = Some e -> cause e = Some k -> caused_by h k j -> caused_by h i j.

(** ** Retries *)
Definition Qmin_ (a b : Q) : Q := if Qle_bool a b then a else b.
Definition Qmax_ (a b : Q) : Q := if Qle_bool a b then b else a.

(** The delay after the given failed attempt, for a value of [random_value()]. *)
Definition high_delay (attempt : nat) : Q :=
  Qmin_ (_INITIAL_MAX_DELAY_SECONDS * (2 ^ Z.of_nat (attempt - 1))) _MAX_DELAY_SECONDS.

Definition retry_delay (attempt : nat) (random : Q) : Q :=
  let low := (high_delay attempt / 2)%Q in
  let jitter := Qmin_ (Qmax_ random 0) 1 in
  (low + (high_delay attempt - low) * jitter)%Q.

Section Retry.
Context {W E A : Type}.
Variables (is_contention : E -> bool) (exhausted : E) (bad_max : E).

(** An operation on the world [W], a source of random numbers and the delays
    slept so far. *)
Variables (operation : W -> (A + E) * W) (random_value : W -> Q * W).

Fixpoint attempts (left : nat) (attempt : nat) (w : W) (slept : list Q) : (A + E) * W * list Q :=
  match left with
  | O => (inr exhausted, w, slept)
  | S left' =>
      match operation w with
      | (inl a, w') => (inl a, w', slept)
      | (inr e, w') =>
          if negb (is_contention e) then (inr e, w', slept)
          else if Nat.eqb left' 0 then (inr exhausted, w', slept)
          else
            let '(r, w2) := random_value w' in
            attempts left' (S attempt) w2 (slept ++ [retry_delay attempt r])
      end
  end.

Definition run_with_transaction_contention_retry (max_attempts : Z) (w : W)
    : (A + E) * W * list Q :=
  if max_attempts <? 1 then (inr bad_max, w, [])
  else attempts (Z.to_nat max_attempts) 1 w [].
End Retry.

(** ** The walk decides contention *)
Section Walk.
Context (h : heap).

Definition aborts (i : nat) : Prop :=
  exists j e, caused_by h i j /\ h !! j = Some e /\ kind e = Aborted.

Lemma aborts_next i e k :
  h !! i = Some e -> cause e = k -> kind e <> Aborted ->
  aborts i <-> exists j, k = Some j /\ aborts j.
Proof.
  intros Hi Hk Hne. split.
  - intros (j & e' & Hc & Hj & Ha). destruct Hc as [j|i e0 k0 j Hi0 Hk0 Hc].
    + rewrite Hi in Hj. by injection Hj as ->.
    + rewrite Hi in Hi0. injection Hi0 as <-. exists k0. split; [congruence|]. by exists j, e'.
  - intros (j & -> & j' & e' & Hc & Hj & Ha). exists j', e'. split; [|done]. by eapply caused_next.
Qed.

(** The identities seen so far: none is an abort, and each leads to another of
    them or to the current one. *)
Definition path_to (seen : gset nat) (current : option nat) : Prop :=
  forall x, x ∈ seen -> exists e, h !! x = Some e /\ kind e <> Aborted /\
    (forall y, cause e = Some y -> y ∈ seen \/ current = Some y).

Lemma closed_no_abort seen i : i ∈ seen -> path_to seen (Some i) -> ~ aborts i.
Proof.
  intros Hi Hp (j & e & Hc & Hj & Ha). revert Hi Hp. intros Hi Hp.
  assert (Hin : forall x y, caused_by h x y -> x ∈ seen -> y ∈ seen).
  { intros x y Hxy. induction Hxy as [x|x ex k y Hx Hk _ IH]; [done|]. intros Hxs. apply IH.
    destruct (Hp x Hxs) as (e' & He' & _ & Hn). rewrite Hx in He'. injection He' as <-.
    destruct (Hn _ Hk) as [|[= ->]]; done. }
  destruct (Hp j (Hin _ _ Hc Hi)) as (e' & He' & Hne & _). rewrite Hj in He'. by injection He' as <-.
Qed.

Lemma walk_spec fuel i seen :
  path_to seen (Some i) -> (size h < fuel + size seen)%nat ->
  walk fuel h (Some i) seen = true <-> aborts i.
Proof.
  revert i seen. induction fuel as [|fuel IH]; intros i seen Hp Hf.
  { exfalso. assert (seen ⊆ dom h) as Hs%subseteq_size.
    { intros x Hx. destruct (Hp x Hx) as (e & He & _). by apply elem_of_dom_2 in He. }
    rewrite size_dom in Hs. lia. }
  simpl. destruct (decide (i ∈ seen)) as [Hi|Hi].
  { split; [done|]. intros Ha. by destruct (closed_no_abort seen i Hi Hp). }
  destruct (h !! i) as [e|] eqn:He.
  2:{ split; [done|]. intros (j & e & Hc & Hj & _). destruct Hc; congruence. }
  destruct (decide (kind e = Aborted)) as [Ha|Ha].
  { split; [|done]. intros _. exists i, e. split; [constructor|done]. }
  rewrite (aborts_next i e (cause e) He eq_refl Ha).
  destruct (cause e) as [k|] eqn:Hk.
  2:{ split; [by destruct fuel|]. by intros (j & ? & _). }
  rewrite IH.
  - split; [by exists k|]. by intros (j & [= ->] & ?).
  - intros x [->%elem_of_singleton|Hx]%elem_of_union.
    + exists e. split_and!; [done..|]. intros y Hy. right. congruence.
    + destruct (Hp x Hx) as (e' & He' & Hne & Hn). exists e'. split_and!; [done..|].
      intros y Hy. left. destruct (Hn y Hy) as [Hys|[= ->]]; set_solver.
  - rewrite size_union, size_singleton by set_solver. lia.
Qed.
End Walk.

(** Contention is found in the causes, circular or not.  The walk along
    [__cause__] always ends, and finds contention exactly when the failure or one
    of its causes, however deep and even in a circular chain, is an abort of the
    transaction. *)
Theorem contention_is_an_aborted_cause (h : heap) (error : nat) :
  _is_transaction_contention h error = true <->
  exists j e, caused_by h error j /\ h !! j = Some e /\ kind e = Aborted.
Proof. apply walk_spec; [intros x Hx; set_solver|rewrite size_empty; lia]. Qed.

(** ** What the retries do *)
Lemma high_delay_bounds n : (2 # 10 <= high_delay n <= 1)%Q.
Proof.
  unfold high_delay, Qmin_, _INITIAL_MAX_DELAY_SECONDS, _MAX_DELAY_SECONDS.
  destruct (Qle_bool _ 1) eqn:E; [|by split; unfold Qle; simpl; lia].
  apply Qle_bool_iff in E. split; [|done].
  assert (H : (1 <= 2 ^ Z.of_nat (n - 1))%Q) by (apply Qpower_1_le; [lra|lia]). lra.
Qed.

Lemma jitter_bounds r : (0 <= Qmin_ (Qmax_ r 0) 1 <= 1)%Q.
Proof.
  unfold Qmin_, Qmax_. destruct (Qle_bool r 0) eqn:E1.
  - simpl. by split.
  - assert (H : (0 <= r)%Q).
    { apply Qnot_lt_le. intros Hlt. apply Qlt_le_weak, Qle_bool_iff in Hlt. congruence. }
    destruct (Qle_bool r 1) eqn:E2; [by apply Qle_bool_iff in E2|by split].
Qed.

Lemma retry_delay_bounds n r : (1 # 10 <= retry_delay n r <= 1)%Q.
Proof.
  unfold retry_delay. pose proof (high_delay_bounds n) as [H1 H2].
  pose proof (jitter_bounds r) as [H3 H4].
  set (hd := high_delay n) in *. set (j := Qmin_ (Qmax_ r 0) 1) in *.
  change (hd / 2)%Q with (hd * (1 # 2))%Q.
  assert (Hm : (0 <= (hd - hd * (1 # 2)) * j)%Q) by (apply Qmult_le_0_compat; lra).
  assert (Hm2 : (0 <= (hd - hd * (1 # 2)) * (1 - j))%Q) by (apply Qmult_le_0_compat; lra).
  split; lra.
Qed.

Section Bounded.
Context {W E A : Type} (is_contention : E -> bool) (exhausted bad_max : E).
Context (operation : W -> (A + E) * W) (random_value : W -> Q * W).

(** The world, and the delays slept, after [n] contended invocations in a row. *)
Inductive contended (w : W) : nat -> W -> list Q -> Prop :=
| contended_none : contended w 0 w []
| contended_again n w1 e w2 r w3 ds :
    contended w n w1 ds -> operation w1 = (inr e, w2) -> is_contention e = true ->
    random_value w2 = (r, w3) -> contended w (S n) w3 (ds ++ [retry_delay (S n) r]).

Lemma attempts_spec w left n w1 ds :
  contended w n w1 ds -> (0 < left)%nat ->
  let '(r, w', ds') := attempts is_contention exhausted operation random_value left (S n) w1 ds in
  exists m w2, contended w m w2 ds' /\ (m < n + left)%nat /\
    ((exists a, operation w2 = (inl a, w') /\ r = inl a) \/
     (exists e, operation w2 = (inr e, w') /\ is_contention e = false /\ r = inr e) \/
     (exists e, operation w2 = (inr e, w') /\ is_contention e = true /\ S m = (n + left)%nat /\
        r = inr exhausted)).
Proof.
  revert n w1 ds. induction left as [|left IH]; intros n w1 ds Hc Hl; [lia|]. simpl.
  destruct (operation w1) as [[a|e] w2] eqn:Ho.
  - exists n, w1. split_and!; [done|lia|]. left. by exists a.
  - destruct (is_contention e) eqn:He; simpl.
    + destruct left as [|left]; simpl.
      { exists n, w1. split_and!; [done|lia|]. right; right. exists e. split_and!; done || lia. }
      destruct (random_value w2) as [rv w3] eqn:Hr.
      specialize (IH (S n) w3 (ds ++ [retry_delay (S n) rv])).
      destruct (attempts _ _ _ _ (S left) (S (S n)) w3 _) as [[r w'] ds'] eqn:Ha.
      simpl in Ha. rewrite Ha.
      destruct IH as (m & w4 & H1 & H2 & H3); [by eapply contended_again|lia|].
      exists m, w4. split_and!; [done|lia|].
      destruct H3 as [H3|[H3|(e' & H4 & H5 & H6 & H7)]]; [by left|by right; left|].
      right; right. exists e'. split_and!; done || lia.
    + exists n, w1. split_and!; [done|lia|]. right; left. by exists e.
Qed.

Lemma contended_delays w n w1 ds :
  contended w n w1 ds -> length ds = n /\ Forall (fun d => (1 # 10 <= d <= 1)%Q) ds.
Proof.
  induction 1 as [|n w1 e w2 r w3 ds _ [IH1 IH2] _ _ _]; [by split|].
  rewrite length_app, Forall_app, IH1. simpl. split_and!; [lia|done|].
  constructor; [apply retry_delay_bounds|constructor].
Qed.

(** Retries are bounded and replay contention only.  A run invokes the
    operation at most [max_attempts] times; every invocation before the last one
    failed by contention; the result is the last invocation's value, its failure
    when that is no contention, or exhaustion exactly when all attempts were
    contended.  It slept once between two invocations, between a tenth of a second
    and a second each time. *)
Theorem retries_are_bounded max_attempts w r w' ds :
  run_with_transaction_contention_retry is_contention exhausted bad_max operation random_value
    max_attempts w = (r, w', ds) ->
  1 <= max_attempts ->
  Z.of_nat (length ds) < max_attempts /\ Forall (fun d => (1 # 10 <= d <= 1)%Q) ds /\
  exists w1, contended w (length ds) w1 ds /\
    ((exists a, operation w1 = (inl a, w') /\ r = inl a) \/
     (exists e, operation w1 = (inr e, w') /\ is_contention e = false /\ r = inr e) \/
     (exists e, operation w1 = (inr e, w') /\ is_contention e = true /\
        Z.of_nat (length ds) = max_attempts - 1 /\ r = inr exhausted)).
Proof.
  unfold run_with_transaction_contention_retry. intros H Hm.
  rewrite (proj2 (Z.ltb_ge _ _)) in H by lia.
  pose proof (attempts_spec w (Z.to_nat max_attempts) 0 w [] (contended_none w) ltac:(lia)) as Hs.
  rewrite H in Hs. destruct Hs as (m & w2 & Hc & Hlt & Hr).
  destruct (contended_delays _ _ _ _ Hc) as [Hlen Hd]. subst m.
  split_and!; [lia|done|]. exists w2. split; [done|].
  destruct Hr as [Hr|[Hr|(e & H1 & H2 & H3 & H4)]]; [by left|by right; left|].
  right; right. exists e. split_and!; done || lia.
Qed.
End Bounded.

(** ** Concrete retries *)

(** An operation that is contended twice and then succeeds. *)
Definition third_time (w : nat) : (string + exn) * nat :=
  (match w with 0%nat | 1%nat => inr Aborted | _ => inl "committed" end, S w).
Definition no_jitter (w : nat) : Q * nat := (0%Q, w).
Definition is_abort (e : exn) : bool := bool_decide (e = Aborted).

Lemma retries_are_bounded_witness :
  let ds := map (fun n => retry_delay n 0) [1; 2]%nat in
  Z.of_nat (length ds) < 5 /\ Forall (fun d => (1 # 10 <= d <= 1)%Q) ds.
Proof.
  assert (H1 : run_with_transaction_contention_retry is_abort FirestoreContentionExhausted ValueError
    third_time no_jitter 5 0%nat = (inl "committed", 3%nat, map (fun n => retry_delay n 0) [1; 2]%nat))
    by reflexivity.
  assert (H2 : 1 <= 5) by lia.
  destruct (retries_are_bounded _ _ _ _ _ _ _ _ _ _ H1 H2) as (Hn & Hd & _).
  exact (conj Hn Hd).
Defined.
