(* ===== verification/FinalizationService.v ===== *)
(** * Reconcilers and the request route
    (backend/services/conversation_finalization.py, and [request_finalization]
    of backend/utils/conversations/lifecycle.py)

    The clients of the finalization jobs.  Between any two calls other actors
    run any operations on jobs and write anything else; a call may fail before or after its transaction
    committed; the clock and the server's write times are the environment's.
    Metrics and logs are left out.  A page scan is read in one step. *)

From S2P Require Import Prelude PyValue Firestore FinalizationDecision FinalizationJobs.
From S2P Require Import FinalizationRecovery FinalizationProofs ContentionRetry.
From Stdlib Require Import QArith_base Ascii.
Local Open Scope Z_scope.

(** ** Cursor texts *)

(** [if resume_after_path: client.document(resume_after_path)] *)
Definition resume_path (text : option string) : res (option path) :=
  match text with
  | None => Ok None
  | Some t => if decide (t = "") then Ok None else p ← document_path t; Ok (Some p)
  end.

(** ** Calls *)
Record event := Event {
  others : list job_op;
  elsewhere : db -> db;
  clock : Z;
  write_time : value;
  failure : option (bool * exn)
}.

Record world := World {
  events : nat -> event;
  tick : nat;
  store : db;
  tasks : list (string * Z)
}.

Definition M (A : Type) : Type := world -> res A * world.

#[global] Instance M_ret : MRet M := fun A a w => (Ok a, w).
#[global] Instance M_bind : MBind M := fun A B f m w =>
  match m w with
  | (Ok a, w') => f a w'
  | (Raise e, w') => (Raise e, w')
  end.

Definition lift_res {A} (r : res A) : M A := fun w => (r, w).

(** [try: m except Exception as e: h e] *)
Definition try_catch {A} (m : M A) (h : exn -> M A) : M A := fun w =>
  match m w with
  | (Raise e, w') => h e w'
  | ok => ok
  end.

Section Service.
Context {Env : FinalizationEnv}.

(** What happens before a call: operations on jobs, and other writes of the
    backend. *)
Definition meanwhile (e : event) (s : db) : db := elsewhere e (job_run (others e) s).

(** One call of a transaction: others move first, then it runs, unless the call
    fails; a failure after the commit leaves its effect in the store. *)
Definition transact {A} (op : event -> db -> res (A * db)) : M A := fun w =>
  let e := events w (tick w) in
  let s := meanwhile e (store w) in
  let world_with s' := World (events w) (S (tick w)) s' (tasks w) in
  match failure e, op e s with
  | Some (false, x), _ => (Raise x, world_with s)
  | Some (true, x), Ok (_, s') => (Raise x, world_with s')
  | None, Ok (a, s') => (Ok a, world_with s')
  | _, Raise x => (Raise x, world_with s)
  end.

Definition read_store {A} (f : event -> db -> res A) : M A :=
  transact (fun e s => a ← f e s; Ok (a, s)).

(** A call to the task queue. *)
Definition enqueue_listen_finalization_job (job_id : string) (dispatch_generation : Z) : M unit :=
  fun w =>
  let e := events w (tick w) in
  let s := meanwhile e (store w) in
  let queued := (job_id, dispatch_generation) in
  match failure e with
  | Some (false, x) => (Raise x, World (events w) (S (tick w)) s (tasks w))
  | Some (true, x) => (Raise x, World (events w) (S (tick w)) s (tasks w ++ [queued]))
  | None => (Ok tt, World (events w) (S (tick w)) s (tasks w ++ [queued]))
  end.

(** [for x in l: r = body(r, x)] *)
Fixpoint for_each {A B} (l : list A) (body : B -> A -> M B) (r : B) : M B :=
  match l with
  | [] => mret r
  | x :: l' => r' ← body r x; for_each l' body r'
  end.

(** ** The replay reconciler *)
Record replay_result := ReplayResult {
  requeued : Z; replay_skipped : Z; enqueue_failed : Z; replay_error : Z
}.

Definition reconcile_one_job (stale_after : Z) (r : replay_result) (candidate : string * fields)
    : M replay_result :=
  let job_id := candidate.1 in
  let skipped := ReplayResult (requeued r) (replay_skipped r + 1) (enqueue_failed r) (replay_error r) in
  if decide (job_id = "") then mret skipped
  else
    claimed ← try_catch
      (i ← transact (fun e => claim_finalization_replay job_id stale_after (clock e)); mret (Some i))
      (fun _ => mret None);
    match claimed with
    | None => mret skipped
    | Some claimed =>
        match intent_dispatch_generation claimed with
        | Some g =>
            if negb (bool_decide (intent_status claimed = "queued")) then mret skipped
            else
              try_catch
                (enqueue_listen_finalization_job job_id g;;
                 mret (ReplayResult (requeued r + 1) (replay_skipped r) (enqueue_failed r)
                         (replay_error r)))
                (fun _ => mret (ReplayResult (requeued r) (replay_skipped r) (enqueue_failed r + 1)
                                  (replay_error r)))
        | None => mret skipped
        end
    end.

(** [dispatch_enabled] is [is_listen_finalization_dispatch_enabled()]. *)
Definition reconcile_listen_finalization_jobs (dispatch_enabled : bool) (limit : Z) : M replay_result :=
  if negb dispatch_enabled then mret (ReplayResult 0 0 0 0)
  else
    stale_after ← lift_res get_finalization_reconcile_stale_after;
    found ← try_catch
      (l ← read_store (fun e => get_finalization_replay_candidates limit (clock e)); mret (Some l))
      (fun _ => mret None);
    match found with
    | None => mret (ReplayResult 0 0 0 1)
    | Some candidates => for_each candidates (reconcile_one_job stale_after) (ReplayResult 0 0 0 0)
    end.

(** ** The reconciler of bare processing rows *)
Record stale_result := StaleResult { completed : Z; migrated : Z; stale_skipped : Z; stale_error : Z }.

Definition count_completed (r : stale_result) : stale_result :=
  StaleResult (completed r + 1) (migrated r) (stale_skipped r) (stale_error r).
Definition count_migrated (r : stale_result) : stale_result :=
  StaleResult (completed r) (migrated r + 1) (stale_skipped r) (stale_error r).
Definition count_skipped (r : stale_result) : stale_result :=
  StaleResult (completed r) (migrated r) (stale_skipped r + 1) (stale_error r).
Definition count_error (r : stale_result) : stale_result :=
  StaleResult (completed r) (migrated r) (stale_skipped r) (stale_error r + 1).

Definition count_if (done : bool) (yes no : stale_result -> stale_result) (r : stale_result) : stale_result :=
  if done then yes r else no r.

(** A legacy row is stamped; one too large for the stamp is closed instead. *)
Definition migrate_orphan (stale_after : Z) (o : orphan) (r : stale_result) : M stale_result :=
  let uid := orphan_uid o in
  let conversation_id := orphan_conversation_id o in
  stamped ← try_catch
    (b ← transact (fun e => stamp_processing_admission_if_absent uid conversation_id (clock e));
     mret (Some b))
    (fun x => if decide (x = DocumentTooLarge) then mret None else lift_res (Raise x));
  match stamped with
  | Some b => mret (count_if b count_migrated count_skipped r)
  | None =>
      b ← transact (fun e => complete_unstampable_orphan_conversation uid conversation_id
                               (write_time e) stale_after (clock e));
      mret (count_if b count_completed count_skipped r)
  end.

Definition reconcile_one_orphan (stale_after : Z) (r : stale_result) (o : orphan) : M stale_result :=
  try_catch
    (if orphan_legacy o then migrate_orphan stale_after o r
     else
       b ← transact (fun _ => complete_orphan_conversation (orphan_uid o) (orphan_conversation_id o)
                                (orphan_admitted_at o));
       mret (count_if b count_completed count_skipped r))
    (fun _ => mret (count_error r)).

Definition DEFAULT_MAX_SCAN : Z := 2000.

Definition read_cursor (get : db -> res sweep_cursor) : M sweep_cursor :=
  try_catch (read_store (fun _ => get)) (fun _ => mret (Cursor None 0)).

(** The advance of a sweep's cursor; a failure is only logged. *)
Definition advance_quietly {A : Type} (advance : Z -> option string -> Z -> db -> res (bool * db))
    (cursor : sweep_cursor) (sw : sweep A) : M unit :=
  let next_cursor := if exhausted sw then None else reference_path <$> resume_after_path sw in
  try_catch
    (transact (fun e => advance (cursor_generation cursor) next_cursor (clock e));; mret tt)
    (fun _ => mret tt).

Definition reconcile_stale_processing_conversations (limit : Z) : M stale_result :=
  stale_after ← lift_res get_stale_processing_orphan_after;
  cursor ← read_cursor get_stale_processing_sweep_cursor;
  found ← try_catch
    (sw ← read_store (fun e s =>
       resume ← resume_path (cursor_resume_after_path cursor);
       get_stale_processing_orphan_candidates stale_after limit DEFAULT_MAX_SCAN resume (clock e) s);
     mret (Some sw))
    (fun _ => mret None);
  match found with
  | None => mret (StaleResult 0 0 0 1)
  | Some sw =>
      advance_quietly advance_stale_processing_sweep_cursor cursor sw;;
      for_each (candidates sw) (reconcile_one_orphan stale_after) (StaleResult 0 0 0 0)
  end.

(** ** The reconciler of abandoned jobs *)
Record abandon_result := AbandonResult {
  abandoned : Z; conversations_closed : Z; abandon_skipped : Z; abandon_error : Z
}.

Definition reconcile_one_abandoned (abandoned_after : Z) (r : abandon_result)
    (candidate : string * fields) : M abandon_result :=
  let '(job_id, job) := candidate in
  let skipped := AbandonResult (abandoned r) (conversations_closed r) (abandon_skipped r + 1) (abandon_error r) in
  if decide (job_id = "") then mret skipped
  else
    disposition ← try_catch
      (status ← lift_res (get_str job "status" "");
       g ← lift_res (get_int job "dispatch_generation" 1);
       epoch ← lift_res (get_int job "lease_epoch" 0);
       d ← transact (fun e => abandon_byok_finalization_job job_id status g epoch abandoned_after (clock e));
       mret (Some d))
      (fun _ => mret None);
    match disposition with
    | None => mret (AbandonResult (abandoned r) (conversations_closed r) (abandon_skipped r)
                      (abandon_error r + 1))
    | Some d =>
        if negb (bool_decide (abandonment_status d = "abandoned")) then mret skipped
        else mret (AbandonResult (abandoned r + 1)
                     (if decide (conversation_outcome d = "closed") then conversations_closed r + 1
                      else conversations_closed r)
                     (abandon_skipped r) (abandon_error r))
    end.

(** [enabled] is [is_byok_abandonment_sweep_enabled()]. *)
Definition reconcile_abandoned_byok_finalization_jobs (enabled : bool) (limit : Z) : M abandon_result :=
  if negb enabled then mret (AbandonResult 0 0 0 0)
  else
    abandoned_after ← lift_res get_byok_abandoned_after;
    cursor ← read_cursor get_byok_abandonment_sweep_cursor;
    found ← try_catch
      (sw ← read_store (fun e s =>
         resume ← resume_path (cursor_resume_after_path cursor);
         get_abandoned_byok_job_candidates abandoned_after limit DEFAULT_MAX_SCAN resume (clock e) s);
       mret (Some sw))
      (fun _ => mret None);
    match found with
    | None => mret (AbandonResult 0 0 0 1)
    | Some sw =>
        advance_quietly advance_byok_abandonment_sweep_cursor cursor sw;;
        for_each (candidates sw) (reconcile_one_abandoned abandoned_after) (AbandonResult 0 0 0 0)
    end.

Definition final_attempt_failed (job_id : string) (dispatch_generation lease_epoch retry_count : Z)
    : M bool :=
  transact (fun e => mark_finalization_dead_letter job_id dispatch_generation lease_epoch retry_count
                       (clock e)).

(** ** The request route *)
Inductive route := noop | blocked_byok | pusher | queued | cloud_tasks.

Definition is_abort (e : exn) : bool := bool_decide (e = Aborted).

(** The admission with its bounded retries; the delays are not observable. *)
Definition create_or_get_with_retry (uid conversation_id : string) (has_byok_keys force_process : bool)
    (extra_updates : dict) (random : Q) : M FinalizationIntent := fun w =>
  let once w :=
    match transact (fun e => create_or_get_finalization_intent uid conversation_id has_byok_keys
                      (fun conversation => _finalization_admission conversation conversation_id)
                      force_process extra_updates (clock e)) w with
    | (Ok i, w') => (inl i, w')
    | (Raise x, w') => (inr x, w')
    end in
  match run_with_transaction_contention_retry is_abort FirestoreContentionExhausted ValueError once
          (fun w => (random, w)) DEFAULT_MAX_ATTEMPTS w with
  | (inl i, w', _) => (Ok i, w')
  | (inr x, w', _) => (Raise x, w')
  end.

(** [dispatch_configured] and [dispatch_enabled] are the two tests of the task
    queue's configuration. *)
Definition request_finalization (dispatch_configured dispatch_enabled : bool) (random : Q)
    (uid conversation_id : string) (has_byok_keys force_process : bool) (extra_updates : dict)
    (require_cloud_tasks : bool) : M (FinalizationIntent * route) :=
  if require_cloud_tasks && negb dispatch_configured
  then lift_res (Raise FinalizationDispatchUnavailable)
  else
    intent ← try_catch
      (create_or_get_with_retry uid conversation_id has_byok_keys force_process extra_updates random)
      (fun x => lift_res (Raise (if decide (x = FirestoreContentionExhausted)
                                 then FinalizationDispatchUnavailable else x)));
    match intent_job_id intent with
    | None => mret (intent, noop)
    | Some job_id =>
        if is_member (intent_status intent) ["missing"; "no_content"; "deferred"; "completed"; "dead_letter"]
        then mret (intent, noop)
        else if intent_requires_byok intent then
          if negb has_byok_keys then mret (intent, blocked_byok)
          else
            resumed ← transact (fun e => resume_blocked_byok_job_for_live_session job_id (clock e));
            mret (resumed, pusher)
        else if negb dispatch_enabled then mret (intent, pusher)
        else
          try_catch
            (enqueue_listen_finalization_job job_id
               (match intent_dispatch_generation intent with Some g => if g =? 0 then 1 else g | None => 1 end);;
             mret (intent, cloud_tasks))
            (fun _ => mret (intent, queued))
    end.
End Service.
