(* ===== verification/ServiceProofs.v ===== *)
(** * Correctness of the reconcilers and of the request route

    Rules for the programs of [FinalizationService]: each is simulated by the
    histories of [FinalizationDispatch], whatever other actors do in between
    and whichever calls fail, so what holds of every history holds of the
    programs; then what each program reports and what it may touch. *)

From S2P Require Import Prelude PyValue Firestore Sha256 FinalizationDecision FinalizationJobs.
From S2P Require Import FinalizationRecovery FinalizationProofs FinalizationSpec SweepProofs FinalizationDispatch ContentionRetry FinalizationService.
From Stdlib Require Import QArith_base Ascii.
Local Open Scope Z_scope.

#[local] Opaque _projection_shard _job_id.

(** ** Simulation *)
Section Simulation.
Context {Env : FinalizationEnv}.

(** The other actors follow the same rule: they replay only known jobs, and
    their other writes do not touch jobs. *)
Definition polite (c : gset string) (op : job_op) : Prop :=
  match op with OpReplay j _ _ => j ∈ c | _ => True end.

Definition friendly (c : gset string) (evs : nat -> event) : Prop :=
  forall n, Forall (polite c) (others (evs n)) /\
    forall s j, elsewhere (evs n) s !! _job_ref j = s !! _job_ref j.

(** A world whose store has a history in which the jobs [c] became known, with
    tasks for known jobs only. *)
Record simulates (w : world) (c : gset string) : Prop := {
  sim_store : dispatch_reach (store w) c;
  sim_tasks : forall t, t ∈ tasks w -> t.1 ∈ c;
  sim_events : friendly c (events w)
}.

(** From worlds that simulate a history with known jobs [c], [m] ends in a world
    that simulates a longer one, and what it returns satisfies [Q]. *)
Definition sim {A} (c : gset string) (m : M A) (Q : A -> gset string -> Prop) : Prop :=
  forall w, simulates w c ->
    exists c', c ⊆ c' /\ simulates (m w).2 c' /\ forall a, (m w).1 = Ok a -> Q a c'.

(** No promise on the result. *)
Definition any_result {A} : A -> gset string -> Prop := fun _ _ => True.

Lemma friendly_mono (c c' : gset string) evs : c ⊆ c' -> friendly c evs -> friendly c' evs.
Proof.
  intros Hc H n. destruct (H n) as [Ho He]. split; [|exact He].
  eapply Forall_impl; [exact Ho|]. intros []; simpl; auto.
Qed.

Lemma sim_ret {A} (c : gset string) (a : A) (Q : A -> gset string -> Prop) : Q a c -> sim c (mret a) Q.
Proof. intros HQ w Hw. exists c. split_and!; [done|exact Hw|]. by intros a' [= <-]. Qed.

Lemma sim_lift {A} (c : gset string) (r : res A) (Q : A -> gset string -> Prop) :
  (forall a, r = Ok a -> Q a c) -> sim c (lift_res r) Q.
Proof. intros HQ w Hw. exists c. split_and!; [done|exact Hw|exact HQ]. Qed.

Lemma sim_bind {A B} (c : gset string) (m : M A) (f : A -> M B) Q R :
  sim c m Q -> (forall a c', c ⊆ c' -> Q a c' -> sim c' (f a) R) -> sim c (m ≫= f) R.
Proof.
  intros Hm Hf w Hw. destruct (Hm w Hw) as (c1 & Hc1 & Hw1 & HQ).
  unfold mbind, M_bind. destruct (m w) as [[a|e] w1] eqn:E; simpl in *.
  - destruct (Hf a c1 Hc1 (HQ a eq_refl) w1 Hw1) as (c2 & Hc2 & Hw2 & HR).
    exists c2. split_and!; [set_solver|done..].
  - exists c1. done.
Qed.

Lemma sim_try {A} (c : gset string) (m : M A) (h : exn -> M A) Q :
  sim c m Q -> (forall e c', c ⊆ c' -> sim c' (h e) Q) -> sim c (try_catch m h) Q.
Proof.
  intros Hm Hh w Hw. destruct (Hm w Hw) as (c1 & Hc1 & Hw1 & HQ).
  unfold try_catch. destruct (m w) as [[a|e] w1] eqn:E; simpl in *; [by exists c1|].
  destruct (Hh e c1 Hc1 w1 Hw1) as (c2 & Hc2 & Hw2 & HR).
  exists c2. split_and!; [set_solver|done..].
Qed.

Lemma sim_weaken {A} (c : gset string) (m : M A) (Q R : A -> gset string -> Prop) :
  sim c m Q -> (forall a c', c ⊆ c' -> Q a c' -> R a c') -> sim c m R.
Proof. intros Hm HQ w Hw. destruct (Hm w Hw) as (c1 & ? & ? & ?). exists c1. eauto. Qed.

Lemma sim_for_each {A B} (c : gset string) (l : list A) (body : B -> A -> M B) r :
  (forall x r' c', x ∈ l -> c ⊆ c' -> sim c' (body r' x) any_result) ->
  sim c (for_each l body r) any_result.
Proof.
  revert c r. induction l as [|x l IH]; intros c r Hb; simpl; [by apply sim_ret|].
  eapply (sim_bind _ _ _ any_result); [apply Hb; [apply elem_of_cons; by left|done]|].
  intros r' c' Hc _. apply IH. intros y r2 c2 Hy Hc2. apply Hb; [apply elem_of_cons; by right|].
  set_solver.
Qed.

(** The moves of the others extend the history. *)
Lemma reach_any op s (c : gset string) s' :
  dispatch_reach s c -> polite c op -> job_step op s = Ok s' -> dispatch_reach s' c.
Proof.
  intros Hs Hp H. destruct (is_replay op) eqn:E; [|by eapply reach_op].
  destruct op; try done. by eapply reach_replay.
Qed.

Lemma reach_run ops s (c : gset string) : dispatch_reach s c -> Forall (polite c) ops -> dispatch_reach (job_run ops s) c.
Proof.
  intros Hs Hops. revert s Hs. induction Hops as [|op ops Hop _ IH]; intros s Hs; [done|].
  unfold job_run. simpl. apply IH. destruct (job_step op s) eqn:E; [|done]. by eapply reach_any.
Qed.

Lemma reach_meanwhile (c : gset string) w :
  simulates w c -> dispatch_reach (meanwhile (events w (tick w)) (store w)) c.
Proof.
  intros [Hs _ Hf]. destruct (Hf (tick w)) as [Ho He].
  eapply reach_elsewhere; [by apply reach_run|]. intros j. apply He.
Qed.

Lemma simulates_store w (c c' : gset string) s' n :
  simulates w c -> c ⊆ c' -> dispatch_reach s' c' ->
  simulates (World (events w) n s' (tasks w)) c'.
Proof.
  intros [_ Ht Hf] Hc Hr. split; simpl; [done| |by eapply friendly_mono].
  intros t Hin. apply Hc. by apply Ht.
Qed.

Lemma sim_transact {A} (c : gset string) (op : event -> db -> res (A * db)) (Q : A -> gset string -> Prop) :
  (forall e s a s', dispatch_reach s c -> op e s = Ok (a, s') ->
     exists c', c ⊆ c' /\ dispatch_reach s' c' /\ Q a c') ->
  sim c (transact op) Q.
Proof.
  intros Hop w Hw. unfold transact.
  pose proof (reach_meanwhile c w Hw) as Hr.
  set (s := meanwhile _ _) in *. set (e := events w (tick w)) in *.
  assert (Hstay : forall n, simulates (World (events w) n s (tasks w)) c)
    by (intros; by apply (simulates_store w c)).
  destruct (failure e) as [[[] x]|]; destruct (op e s) as [[a s']|y] eqn:E; simpl;
    try (exists c; by split_and!).
  all: destruct (Hop _ _ _ _ Hr E) as (c' & Hc & Hr' & HQ); exists c'; split_and!; [done| |];
    [by apply (simulates_store w c)|by intros a' [= <-]].
Qed.

Lemma sim_read {A} (c : gset string) (f : event -> db -> res A) (Q : A -> gset string -> Prop) :
  (forall e s a, dispatch_reach s c -> f e s = Ok a ->
     exists c', c ⊆ c' /\ dispatch_reach s c' /\ Q a c') ->
  sim c (read_store f) Q.
Proof.
  intros Hf. apply sim_transact. intros e s a s' Hr H.
  apply res_bind_Ok in H as (b & Hb & H). injection H as -> ->. eauto.
Qed.

(** A call of one operation on jobs. *)
Lemma sim_op {A} (c : gset string) (op : event -> db -> res (A * db)) (jop : event -> job_op) :
  (forall e, polite c (jop e)) -> (forall e s, job_step (jop e) s = store_of (op e s)) ->
  sim c (transact op) any_result.
Proof.
  intros Hp Hj. apply sim_transact. intros e s a s' Hr H. exists c. split_and!; [done| |done].
  eapply reach_any; [exact Hr|apply (Hp e)|]. rewrite Hj, H. done.
Qed.

Lemma sim_enqueue (c : gset string) j g (Q : unit -> gset string -> Prop) :
  j ∈ c -> (forall c', c ⊆ c' -> Q tt c') -> sim c (enqueue_listen_finalization_job j g) Q.
Proof.
  intros Hj HQ w Hw. unfold enqueue_listen_finalization_job.
  pose proof (reach_meanwhile c w Hw) as Hr. destruct Hw as [_ Ht Hf].
  assert (Hq : forall t, t ∈ tasks w ++ [(j, g)] -> t.1 ∈ c).
  { intros t [Hin|Hin]%elem_of_app; [by apply Ht|]. by apply list_elem_of_singleton in Hin as ->. }
  exists c. split; [done|].
  destruct (failure _) as [[[] x]|]; simpl; (split; [by split|]); intros [] ?; auto.
Qed.

(** ** The programs *)
(** One rule per construct; the calls themselves are discharged one by one. *)
Ltac sim_step :=
  lazymatch goal with
  | |- sim _ (mret _) _ => apply sim_ret; try exact I; try done
  | |- sim _ (lift_res _) _ => apply sim_lift; try (intros; exact I); try done
  | |- sim _ (_ ≫= _) _ => eapply (sim_bind _ _ _ any_result); [|intros ? ? ? ?]
  | |- sim _ (try_catch _ _) _ => apply sim_try; [|intros ? ? ?]
  | |- sim _ (if ?b then _ else _) _ => destruct b
  | |- sim _ (match ?o with Some _ => _ | None => _ end) _ => destruct o
  end.

Lemma sim_read_any {A} (c : gset string) (f : event -> db -> res A) : sim c (read_store f) any_result.
Proof. apply sim_read. intros e s a Hr _. by exists c. Qed.

Lemma sim_replay_candidate stale_after r x (c : gset string) :
  x.1 ∈ c -> sim c (reconcile_one_job stale_after r x) any_result.
Proof.
  intros Hx. unfold reconcile_one_job. cbv zeta. sim_step; [by sim_step|]. eapply (sim_bind _ _ _ any_result).
  - sim_step; [|by sim_step]. eapply (sim_bind _ _ _ any_result); [|by intros; apply sim_ret; try exact I].
    apply (sim_op _ _ (fun e => OpReplay x.1 stale_after (clock e))); by intros.
  - intros cl c' Hc _. repeat sim_step.
    apply sim_enqueue; [set_solver|done].
Qed.

Lemma sim_reconcile_jobs enabled limit (c : gset string) :
  sim c (reconcile_listen_finalization_jobs enabled limit) any_result.
Proof.
  unfold reconcile_listen_finalization_jobs. sim_step; [by sim_step|].
  sim_step; [by sim_step|].
  eapply (sim_bind _ _ _ (fun found c' => forall l, found = Some l -> forall x, x ∈ l -> x.1 ∈ c')).
  - sim_step; [|by sim_step].
    eapply (sim_bind _ _ _ (fun l c' => forall x, x ∈ l -> x.1 ∈ c')).
    + apply sim_read. intros e s l Hr Hl. eexists. split_and!; [|by eapply reach_read|].
      * set_solver.
      * intros x Hx. apply elem_of_union_r, elem_of_list_to_set, list_elem_of_fmap. eauto.
    + intros l c2 _ Hl. sim_step. by intros l' [= <-].
  - intros [l|] c2 _ Hl; [|by sim_step]. eapply sim_for_each. intros x r c3 Hx Hc.
    apply sim_replay_candidate, Hc. by eapply Hl.
Qed.

Lemma sim_cursor get (c : gset string) : sim c (read_cursor get) any_result.
Proof. unfold read_cursor. sim_step; [apply sim_read_any|by sim_step]. Qed.

Lemma sim_advance {A} name cursor (sw : sweep A) (c : gset string) :
  sim c (advance_quietly (advance_cursor name) cursor sw) any_result.
Proof.
  unfold advance_quietly. cbv zeta. sim_step; [|by sim_step]. eapply (sim_bind _ _ _ any_result); [|by intros; apply sim_ret; try exact I].
  by apply (sim_op _ _ (fun e => OpAdvance name (cursor_generation cursor)
    (if exhausted sw then None else reference_path <$> resume_after_path sw) (clock e))).
Qed.

Lemma sim_orphan stale_after r o (c : gset string) :
  sim c (reconcile_one_orphan stale_after r o) any_result.
Proof.
  unfold reconcile_one_orphan, migrate_orphan. cbv zeta. sim_step; [|by sim_step]. sim_step.
  - eapply (sim_bind _ _ _ any_result).
    + sim_step; [|by sim_step; sim_step]. eapply (sim_bind _ _ _ any_result); [|by intros; apply sim_ret; try exact I].
      by apply (sim_op _ _ (fun e => OpStamp (orphan_uid o) (orphan_conversation_id o) (clock e))).
    + intros [b|] c' _ _; [by sim_step|]. eapply (sim_bind _ _ _ any_result); [|by intros; apply sim_ret; try exact I].
      by apply (sim_op _ _ (fun e => OpUnstampable (orphan_uid o) (orphan_conversation_id o)
                                       (write_time e) stale_after (clock e))).
  - eapply (sim_bind _ _ _ any_result); [|by intros; apply sim_ret; try exact I].
    by apply (sim_op _ _ (fun _ => OpOrphan (orphan_uid o) (orphan_conversation_id o) (orphan_admitted_at o))).
Qed.

Lemma sim_reconcile_stale limit (c : gset string) :
  sim c (reconcile_stale_processing_conversations limit) any_result.
Proof.
  unfold reconcile_stale_processing_conversations. sim_step; [by sim_step|].
  eapply (sim_bind _ _ _ any_result); [apply sim_cursor|]. intros cur c1 _ _. eapply (sim_bind _ _ _ any_result).
  - sim_step; [|by sim_step]. eapply (sim_bind _ _ _ any_result); [apply sim_read_any|by intros; apply sim_ret; try exact I].
  - intros [sw|] c2 _ _; [|by sim_step]. eapply (sim_bind _ _ _ any_result); [apply sim_advance|].
    intros _ c3 _ _. apply sim_for_each. intros. apply sim_orphan.
Qed.

Lemma sim_abandoned abandoned_after r x (c : gset string) :
  sim c (reconcile_one_abandoned abandoned_after r x) any_result.
Proof.
  unfold reconcile_one_abandoned. destruct x as [j job]. cbv zeta. sim_step; [by sim_step|].
  eapply (sim_bind _ _ _ any_result); [|intros ? ? _ _; repeat sim_step].
  sim_step; [|by sim_step].
  eapply (sim_bind _ _ _ any_result); [by sim_step|intros st ? ? _].
  eapply (sim_bind _ _ _ any_result); [by sim_step|intros g ? ? _].
  eapply (sim_bind _ _ _ any_result); [by sim_step|intros ep ? ? _].
  eapply (sim_bind _ _ _ any_result); [|by intros; apply sim_ret; try exact I].
  by apply (sim_op _ _ (fun e => OpAbandon j st g ep abandoned_after (clock e))).
Qed.

Lemma sim_reconcile_abandoned enabled limit (c : gset string) :
  sim c (reconcile_abandoned_byok_finalization_jobs enabled limit) any_result.
Proof.
  unfold reconcile_abandoned_byok_finalization_jobs. sim_step; [by sim_step|].
  sim_step; [by sim_step|]. eapply (sim_bind _ _ _ any_result); [apply sim_cursor|].
  intros cur c1 _ _. eapply (sim_bind _ _ _ any_result).
  - sim_step; [|by sim_step]. eapply (sim_bind _ _ _ any_result); [apply sim_read_any|by intros; apply sim_ret; try exact I].
  - intros [sw|] c2 _ _; [|by sim_step]. eapply (sim_bind _ _ _ any_result); [apply sim_advance|].
    intros _ c3 _ _. apply sim_for_each. intros. apply sim_abandoned.
Qed.

Lemma sim_final_attempt j g e rc (c : gset string) : sim c (final_attempt_failed j g e rc) any_result.
Proof. by apply (sim_op _ _ (fun ev => OpDead j g e rc (clock ev))). Qed.

(** An intent for a job without user keys names a known job. *)
Definition known_intent (i : FinalizationIntent) (c : gset string) : Prop :=
  forall j, intent_job_id i = Some j -> intent_requires_byok i = false -> j ∈ c.

Lemma sim_create uid conv byok force extra (c : gset string) :
  sim c (transact (fun e => create_or_get_finalization_intent uid conv byok
           (fun conversation => _finalization_admission conversation conv) force extra (clock e)))
    known_intent.
Proof.
  apply sim_transact. intros e s i s' Hr Hi.
  assert (Hs : job_step (OpCreate uid conv byok
    (fun conversation => _finalization_admission conversation conv) force extra (clock e)) s = Ok s')
    by (simpl; by rewrite Hi).
  destruct (intent_job_id i) as [j|] eqn:Ej.
  - destruct (intent_requires_byok i) eqn:Eb.
    + exists c. split_and!; [done|by refine (reach_op _ _ _ _ Hr _ Hs)|]. intros j' _ Hb. congruence.
    + exists ({[j]} ∪ c). split_and!; [set_solver|by eapply (reach_intent _ _ _ _ _ _ _ _ _ _ _ _ Hr Hi)|].
      intros j' Hj _. rewrite Ej in Hj. injection Hj as <-. set_solver.
  - exists c. split_and!; [done|by refine (reach_op _ _ _ _ Hr _ Hs)|]. intros j' Hj. congruence.
Qed.

(** The bounded retries run a simulated operation again and again. *)
Lemma sim_attempts {A} (m : M A) Q (retry : exn -> bool) (exhausted : exn) random left n w ds (c : gset string) :
  (forall c', c ⊆ c' -> sim c' m Q) -> simulates w c ->
  let '(r, w', _) := attempts retry exhausted
    (fun w => match m w with (Ok a, w') => (inl a, w') | (Raise x, w') => (inr x, w') end)
    (fun w => (random, w)) left n w ds in
  exists c', c ⊆ c' /\ simulates w' c' /\ forall a, r = inl a -> Q a c'.
Proof.
  intros Hm Hw. revert n w ds c Hm Hw. induction left as [|left IH]; intros n w ds c Hm Hw; simpl.
  { by exists c. }
  destruct (Hm c ltac:(done) w Hw) as (c1 & Hc1 & Hw1 & HQ).
  destruct (m w) as [[a|x] w1]; simpl in *.
  { exists c1. split_and!; [done..|]. intros a' [= <-]. by apply HQ. }
  destruct (retry x); simpl; [|by exists c1]. destruct (left =? 0)%nat; [by exists c1|].
  specialize (IH (S n) w1 (ds ++ [retry_delay n random]) c1).
  destruct (attempts _ _ _ _ _ _ _ _) as [[r w2] ds2]; destruct IH as (c2 & Hc2 & Hw2 & HR);
    [intros; apply Hm; set_solver|done|]. exists c2. split_and!; [set_solver|done..].
Qed.

Lemma sim_create_retry uid conv byok force extra random (c : gset string) :
  sim c (create_or_get_with_retry uid conv byok force extra random) known_intent.
Proof.
  intros w Hw. unfold create_or_get_with_retry, run_with_transaction_contention_retry.
  change (DEFAULT_MAX_ATTEMPTS <? 1) with false. cbv iota zeta.
  change (Z.to_nat DEFAULT_MAX_ATTEMPTS) with 5%nat.
  pose proof (sim_attempts _ known_intent is_abort FirestoreContentionExhausted random 5 1 w [] c
    (fun c' _ => sim_create uid conv byok force extra c') Hw) as H.
  destruct (attempts _ _ _ _ _ _ _ _) as [[[i|x] w'] ds]; destruct H as (c' & Hc & Hw' & HQ);
    exists c'; cbn [fst snd]; (split_and!; [done|done|]); [|done]. intros i' [= <-]. by apply HQ.
Qed.

Lemma sim_request configured enabled random uid conv byok force extra require (c : gset string) :
  sim c (request_finalization configured enabled random uid conv byok force extra require) any_result.
Proof.
  unfold request_finalization. sim_step; [by sim_step|].
  eapply (sim_bind _ _ _ known_intent).
  { sim_step; [apply sim_create_retry|by sim_step]. }
  intros i c1 _ Hi. destruct (intent_job_id i) as [j|] eqn:Ej; [|by sim_step].
  sim_step; [by sim_step|]. destruct (intent_requires_byok i) eqn:Eb.
  - sim_step; [by sim_step|]. eapply (sim_bind _ _ _ any_result); [|by intros; apply sim_ret].
    by apply (sim_op _ _ (fun e => OpResume j (clock e))).
  - sim_step; [by sim_step|]. sim_step; [|by sim_step].
    eapply (sim_bind _ _ _ any_result); [|by intros; apply sim_ret].
    apply sim_enqueue; [by apply Hi|done].
Qed.
End Simulation.

(** ** Sequences of calls *)
Section Calls.
Context {Env : FinalizationEnv}.

Inductive service_call :=
| CallReplay (dispatch_enabled : bool) (limit : Z)
| CallStale (limit : Z)
| CallAbandon (enabled : bool) (limit : Z)
| CallFinal (job_id : string) (g e retries : Z)
| CallRequest (configured enabled : bool) (random : Q) (uid conversation_id : string)
    (has_byok_keys force : bool) (extra : dict) (require_cloud_tasks : bool).

Definition service_step (w : world) (call : service_call) : world :=
  match call with
  | CallReplay enabled limit => (reconcile_listen_finalization_jobs enabled limit w).2
  | CallStale limit => (reconcile_stale_processing_conversations limit w).2
  | CallAbandon enabled limit => (reconcile_abandoned_byok_finalization_jobs enabled limit w).2
  | CallFinal j g e retries => (final_attempt_failed j g e retries w).2
  | CallRequest configured enabled random uid conv byok force extra require =>
      (request_finalization configured enabled random uid conv byok force extra require w).2
  end.

Definition service_run (calls : list service_call) (w : world) : world := foldl service_step w calls.

Lemma service_run_simulates calls w c :
  simulates w c -> exists c', c ⊆ c' /\ simulates (service_run calls w) c'.
Proof.
  revert w c. induction calls as [|call calls IH]; intros w c Hw; [by exists c|].
  assert (exists c1, c ⊆ c1 /\ simulates (service_step w call) c1) as (c1 & Hc1 & Hw1).
  { destruct call; simpl.
    - destruct (sim_reconcile_jobs dispatch_enabled limit c w Hw) as (c1 & ? & ? & _). eauto.
    - destruct (sim_reconcile_stale limit c w Hw) as (c1 & ? & ? & _). eauto.
    - destruct (sim_reconcile_abandoned enabled limit c w Hw) as (c1 & ? & ? & _). eauto.
    - destruct (sim_final_attempt job_id g e retries c w Hw) as (c1 & ? & ? & _). eauto.
    - destruct (sim_request configured enabled random uid conversation_id has_byok_keys force extra
        require_cloud_tasks c w Hw) as (c1 & ? & ? & _). eauto. }
  destruct (IH _ _ Hw1) as (c2 & Hc2 & Hw2). exists c2. split; [set_solver|done].
Qed.

(** C23: The service calls refine the dispatch histories.  From a world whose store
    has a history with the known jobs [c], any sequence of reconciler runs,
    final attempts and finalization requests, with calls failing before or
    after they commit, other pods' operations and other writes between any two
    calls, ends in a store that has a history extending the known jobs, in which
    every task in the queue is for a known job. *)
Theorem service_calls_refine_dispatch calls w c :
  dispatch_reach (store w) c -> (forall t, t ∈ tasks w -> t.1 ∈ c) -> friendly c (events w) ->
  exists c', c ⊆ c' /\ dispatch_reach (store (service_run calls w)) c' /\
    forall t, t ∈ tasks (service_run calls w) -> t.1 ∈ c'.
Proof.
  intros Hs Ht He. destruct (service_run_simulates calls w c) as (c' & Hc & [Hs' Ht' _]); [done|].
  eauto.
Qed.

(** No task is ever queued for a job with user keys.  After any sequence of
    service calls from such a world, every task in the queue names a job that
    exists and needs no user keys, so the worker that picks it up without
    credentials may run it. *)
Theorem no_task_for_a_keyed_job calls w c t :
  dispatch_reach (store w) c -> (forall t, t ∈ tasks w -> t.1 ∈ c) -> friendly c (events w) ->
  t ∈ tasks (service_run calls w) ->
  exists job, store (service_run calls w) !! _job_ref t.1 = Some job /\ needs_keys job = false.
Proof.
  intros Hs Ht He Hin. destruct (service_run_simulates calls w c) as (c' & Hc & [Hs' Ht' _]); [done|].
  apply dispatch_reach_ok in Hs'. by apply (found_keyless _ _ Hs'), Ht'.
Qed.
End Calls.
