(* ===== verification/ServiceSpec.v ===== *)
(** * What the reconcilers and the request route promise

    Each candidate of a sweep is counted once and a failing row never stops
    it; the reconciler of bare processing rows writes only what it may write;
    a request that returns names the route it took; a cursor's text is the path
    it was made from. *)

From S2P Require Import Prelude PyValue Firestore Sha256 FinalizationDecision FinalizationJobs.
From S2P Require Import FinalizationRecovery FinalizationProofs FinalizationSpec ContentionRetry FinalizationService.
From Stdlib Require Import QArith_base Ascii.
Local Open Scope Z_scope.

#[local] Opaque _projection_shard _job_id.

Definition count {A} (l : list A) : Z := Z.of_nat (length l).

(** ** Counting *)
Section Counting.
Context {Env : FinalizationEnv}.

(** A loop body that always returns and adds one to a measure of the result. *)
Lemma for_each_total {A B} (body : B -> A -> M B) (Inv : world -> B -> Prop) (size : B -> Z) :
  (forall w r x, Inv w r -> exists r' w', body r x w = (Ok r', w') /\ size r' = size r + 1 /\ Inv w' r') ->
  forall l r w, Inv w r ->
  exists r' w', for_each l body r w = (Ok r', w') /\ size r' = size r + count l /\ Inv w' r'.
Proof.
  intros Hb l. induction l as [|x l IH]; intros r w Hr; simpl.
  - exists r, w. unfold count. simpl. split_and!; [done|lia|done].
  - destruct (Hb w r x Hr) as (r1 & w1 & E & Hs & Hr1).
    destruct (IH r1 w1 Hr1) as (r2 & w2 & E2 & Hs2 & Hr2). exists r2, w2.
    unfold mbind, M_bind. rewrite E. split_and!; [done|unfold count in *; simpl; lia|done].
Qed.

(** A transaction either returns its value or raises; the queue is not touched. *)
Lemma transact_cases {A} (op : event -> db -> res (A * db)) w :
  exists r w', transact op w = (r, w') /\ tasks w' = tasks w.
Proof.
  unfold transact. destruct (failure (events w (tick w))) as [[[] x]|]; destruct (op (events w (tick w)) (meanwhile (events w (tick w)) (store w))) as [[a s]|y]; eauto.
Qed.

Lemma enqueue_cases j g w :
  exists r w', enqueue_listen_finalization_job j g w = (r, w') /\
    (tasks w' = tasks w ++ [(j, g)] \/ is_ok r = false /\ tasks w' = tasks w).
Proof.
  unfold enqueue_listen_finalization_job.
  destruct (failure (events w (tick w))) as [[[] x]|]; eexists _, _; (split; [reflexivity|]); simpl; auto.
Qed.

Definition stale_size (r : stale_result) : Z := completed r + migrated r + stale_skipped r + stale_error r.
Definition replay_size (r : replay_result) : Z :=
  requeued r + replay_skipped r + enqueue_failed r + replay_error r.
Definition abandon_size (r : abandon_result) : Z := abandoned r + abandon_skipped r + abandon_error r.

Lemma count_if_size b r : 
  stale_size (count_if b count_completed count_skipped r) = stale_size r + 1 /\
  stale_size (count_if b count_migrated count_skipped r) = stale_size r + 1.
Proof. destruct b; unfold stale_size; simpl; lia. Qed.

Lemma orphan_total stale_after w r o :
  exists r' w', reconcile_one_orphan stale_after r o w = (Ok r', w') /\
    stale_size r' = stale_size r + 1 /\ tasks w' = tasks w.
Proof.
  unfold reconcile_one_orphan, try_catch, migrate_orphan, try_catch, mbind, M_bind, mret, M_ret, lift_res.
  assert (Hcount : forall t, exists r' w', (Ok (count_error r), t) = (Ok r', w') /\
    stale_size r' = stale_size r + 1 /\ tasks w' = tasks t)
    by (intros t; eexists _, _; split_and!; [done|unfold stale_size; simpl; lia|done]).
  destruct (orphan_legacy o).
  - edestruct (transact_cases (A := bool)) as (r1 & w1 & E & Ht). rewrite E. rewrite <-Ht.
    destruct r1 as [b|x]; [eexists _, _; split_and!; [done|by apply count_if_size|done]|].
    destruct (decide (x = DocumentTooLarge)); [|apply Hcount].
    edestruct (transact_cases (A := bool)) as (r2 & w2 & E2 & Ht2). rewrite E2. rewrite <-Ht2.
    destruct r2 as [b|y]; [eexists _, _; split_and!; [done|by apply count_if_size|done]|apply Hcount].
  - edestruct (transact_cases (A := bool)) as (r1 & w1 & E & Ht). rewrite E. rewrite <-Ht.
    destruct r1 as [b|x]; [eexists _, _; split_and!; [done|by apply count_if_size|done]|apply Hcount].
Qed.

Lemma abandoned_total after w r x :
  exists r' w', reconcile_one_abandoned after r x w = (Ok r', w') /\
    abandon_size r' = abandon_size r + 1 /\ conversations_closed r' - abandoned r' <= conversations_closed r - abandoned r /\
    tasks w' = tasks w.
Proof.
  unfold reconcile_one_abandoned. destruct x as [j job].
  assert (Hmret : forall r2 t, tasks t = tasks w -> abandon_size r2 = abandon_size r + 1 ->
    conversations_closed r2 - abandoned r2 <= conversations_closed r - abandoned r ->
    exists r' w', (mret r2 : M _) t = (Ok r', w') /\ abandon_size r' = abandon_size r + 1 /\
      conversations_closed r' - abandoned r' <= conversations_closed r - abandoned r /\
      tasks w' = tasks w) by (intros; eexists _, _; by split_and!).
  destruct (decide (j = "")); [apply Hmret; [done|unfold abandon_size; simpl; lia..]|].
  unfold try_catch, mbind, M_bind, lift_res.
  destruct (get_str job "status" ""); [|apply Hmret; [done|unfold abandon_size; simpl; lia..]].
  destruct (get_int job "dispatch_generation" 1); [|apply Hmret; [done|unfold abandon_size; simpl; lia..]].
  destruct (get_int job "lease_epoch" 0); [|apply Hmret; [done|unfold abandon_size; simpl; lia..]].
  edestruct (transact_cases (A := ByokAbandonment)) as (r1 & w1 & E & Ht). rewrite E.
  destruct r1 as [d|y]; [|apply Hmret; [done|unfold abandon_size; simpl; lia..]].
  simpl. destruct (negb _); [apply Hmret; [done|unfold abandon_size; simpl; lia..]|].
  case_decide; apply Hmret; try done; unfold abandon_size; simpl; lia.
Qed.

(** A run of the replay reconciler from the world [w0]: the tasks it added. *)
Definition queued_since (w0 : world) (w : world) (r : replay_result) : Prop :=
  count (tasks w0) + requeued r <= count (tasks w) <= count (tasks w0) + requeued r + enqueue_failed r.

Lemma replay_total stale_after w0 w r x :
  queued_since w0 w r ->
  exists r' w', reconcile_one_job stale_after r x w = (Ok r', w') /\
    replay_size r' = replay_size r + 1 /\ queued_since w0 w' r'.
Proof.
  unfold reconcile_one_job, queued_since. cbv zeta. intros Hq.
  assert (Hskip : forall t, tasks t = tasks w ->
    exists r' w', (mret (ReplayResult (requeued r) (replay_skipped r + 1) (enqueue_failed r) (replay_error r)) : M _) t
      = (Ok r', w') /\ replay_size r' = replay_size r + 1 /\
      count (tasks w0) + requeued r' <= count (tasks w') <= count (tasks w0) + requeued r' + enqueue_failed r').
  { intros t Ht. eexists _, _. split; [done|]. unfold replay_size. simpl. rewrite Ht. lia. }
  destruct (decide (x.1 = "")); [by apply Hskip|].
  unfold try_catch, mbind, M_bind.
  edestruct (transact_cases (A := FinalizationIntent)) as (r1 & w1 & E & Ht). rewrite E.
  destruct r1 as [i|y]; simpl; [|by apply Hskip].
  destruct (intent_dispatch_generation i) as [g|]; [|by apply Hskip].
  destruct (negb _); [by apply Hskip|].
  destruct (enqueue_cases x.1 g w1) as (r2 & w2 & E2 & Hc). rewrite E2.
  destruct r2; eexists _, _; (split; [reflexivity|]); unfold replay_size; simpl; (split; [lia|]);
    destruct Hc as [->|[? ->]]; try done; rewrite ?Ht; unfold count in *; rewrite ?length_app; simpl; lia.
Qed.

(** A failing row never stops a sweep, and every candidate is counted once.
    Whatever calls fail and whatever other actors do, the loop over the
    candidates of each reconciler returns; its counters add up to the number of
    candidates; the stale and the abandonment sweeps queue nothing and close at
    most one conversation per abandoned job; the replay sweep adds at least one
    task per requeued job and at most one more per failed enqueue. *)
Theorem every_candidate_is_counted_once w :
  (forall stale_after l, exists r w',
     for_each l (reconcile_one_orphan stale_after) (StaleResult 0 0 0 0) w = (Ok r, w') /\
     completed r + migrated r + stale_skipped r + stale_error r = count l /\ tasks w' = tasks w) /\
  (forall after l, exists r w',
     for_each l (reconcile_one_abandoned after) (AbandonResult 0 0 0 0) w = (Ok r, w') /\
     abandoned r + abandon_skipped r + abandon_error r = count l /\
     conversations_closed r <= abandoned r /\ tasks w' = tasks w) /\
  (forall stale_after l, exists r w',
     for_each l (reconcile_one_job stale_after) (ReplayResult 0 0 0 0) w = (Ok r, w') /\
     requeued r + replay_skipped r + enqueue_failed r + replay_error r = count l /\
     count (tasks w) + requeued r <= count (tasks w') <= count (tasks w) + requeued r + enqueue_failed r).
Proof.
  split_and!; intros after l.
  - destruct (for_each_total (reconcile_one_orphan after) (fun v _ => tasks v = tasks w) stale_size)
      with (l := l) (r := StaleResult 0 0 0 0) (w := w) as (r & w' & E & Hs & Ht); [|done|].
    + intros v r x Hv. destruct (orphan_total after v r x) as (r' & v' & ? & ? & ?).
      exists r', v'. split_and!; congruence.
    + exists r, w'. unfold stale_size in Hs. simpl in Hs. split_and!; [done|lia|done].
  - destruct (for_each_total (reconcile_one_abandoned after)
      (fun v r => tasks v = tasks w /\ conversations_closed r <= abandoned r) abandon_size)
      with (l := l) (r := AbandonResult 0 0 0 0) (w := w) as (r & w' & E & Hs & Ht & Hc); [|done|].
    + intros v r x [Hv Hc]. destruct (abandoned_total after v r x) as (r' & v' & ? & ? & ? & ?).
      exists r', v'. split_and!; [done|done|congruence|lia].
    + exists r, w'. unfold abandon_size in Hs. simpl in Hs. split_and!; [done|lia|done..].
  - destruct (for_each_total (reconcile_one_job after) (fun v r => queued_since w v r) replay_size)
      with (l := l) (r := ReplayResult 0 0 0 0) (w := w) as (r & w' & E & Hs & Ht).
    + intros v r x Hv. by apply replay_total.
    + unfold queued_since. simpl. lia.
    + exists r, w'. unfold replay_size in Hs. simpl in Hs. split_and!; [done|lia|apply Ht..].
Qed.
End Counting.

(** ** What a run may write to one conversation *)
Section Footprint.
Context {Env : FinalizationEnv} (uid conversation_id : string).
Let ref : path := _conversation_ref uid conversation_id.

(** The other actors leave this conversation alone. *)
Definition hands_off (evs : nat -> event) : Prop :=
  forall n s, meanwhile (evs n) s !! ref = s !! ref.

(** What the recovery of bare rows may have made of the document [d]. *)
Record recovered (d d' : fields) : Prop := {
  rec_fields k : k <> "status" -> k <> "processing_admitted_at" -> d' !! k = d !! k;
  rec_not_processing : doc_get d "status" <> VStr "processing" -> d' = d;
  rec_owned : unowned_processing d = false -> d' !! "status" = d !! "status";
  rec_stamped : is_time (doc_get d "processing_admitted_at") = true ->
    d' !! "processing_admitted_at" = d !! "processing_admitted_at";
  rec_status : d' !! "status" = d !! "status" \/ doc_get d' "status" = VStr "completed"
}.

Lemma recovered_refl d : recovered d d.
Proof. split; auto. Qed.

(** Still processing: it was, and its owners are as they were. *)
Lemma recovered_processing d d' :
  recovered d d' -> doc_get d' "status" = VStr "processing" ->
  doc_get d "status" = VStr "processing" /\ unowned_processing d' = unowned_processing d.
Proof.
  intros Hr Hp.
  assert (Hs : doc_get d "status" = VStr "processing").
  { destruct (rec_status _ _ Hr) as [E|E]; [unfold doc_get in *; by rewrite <-E|congruence]. }
  split; [done|]. unfold unowned_processing. rewrite Hp, Hs.
  unfold doc_get. by rewrite !(rec_fields _ _ Hr) by done.
Qed.

Lemma recovered_stamp d d' now :
  recovered d d' -> doc_get d' "status" = VStr "processing" ->
  is_time (doc_get d' "processing_admitted_at") = false ->
  recovered d (apply_ops false d' [("processing_admitted_at", FValue (instant now))]).
Proof.
  intros Hr Hp Ht. destruct (recovered_processing _ _ Hr Hp) as [Hs _]. destruct Hr as [Hf Hn Ho Hst Hss].
  split.
  - intros k H1 H2. rewrite apply_ops_notin by (simpl; set_solver). auto.
  - by intros [].
  - intros H. rewrite apply_ops_notin by decide_key. auto.
  - intros H. unfold doc_get in Ht, H. rewrite (Hst H), H in Ht. done.
  - destruct Hss as [E|E]; [left; by rewrite apply_ops_notin by decide_key|right].
    by rewrite doc_get_apply_notin by decide_key.
Qed.

Lemma recovered_complete d d' :
  recovered d d' -> unowned_processing d' = true ->
  recovered d (apply_ops false d' [("status", FValue (VStr "completed"))]).
Proof.
  intros Hr Hu. pose proof (unowned_inv _ Hu) as (Hp & _).
  destruct (recovered_processing _ _ Hr Hp) as [Hs Hun]. destruct Hr as [Hf Hn Ho Hst Hss].
  split.
  - intros k H1 H2. rewrite apply_ops_notin by (simpl; set_solver). auto.
  - by intros [].
  - intros H. rewrite Hun, H in Hu. done.
  - intros H. rewrite apply_ops_notin by decide_key. auto.
  - right. by rewrite doc_get_apply.
Qed.

(** The invariant of a run. *)
Definition kept (d : fields) (w : world) : Prop :=
  hands_off (events w) /\ exists d', store w !! ref = Some d' /\ recovered d d'.

Definition keeps {A} (d : fields) (m : M A) : Prop := forall w, kept d w -> kept d (m w).2.

Lemma keeps_ret {A} (d : fields) (a : A) : keeps d (mret a).
Proof. by intros w. Qed.

Lemma keeps_lift {A} (d : fields) (r : res A) : keeps d (lift_res r).
Proof. by intros w. Qed.

Lemma keeps_bind {A B} (d : fields) (m : M A) (f : A -> M B) :
  keeps d m -> (forall a, keeps d (f a)) -> keeps d (m ≫= f).
Proof.
  intros Hm Hf w Hw. specialize (Hm w Hw). unfold mbind, M_bind.
  destruct (m w) as [[a|x] w1]; [by apply Hf|done].
Qed.

Lemma keeps_try {A} (d : fields) (m : M A) (h : exn -> M A) :
  keeps d m -> (forall x, keeps d (h x)) -> keeps d (try_catch m h).
Proof.
  intros Hm Hh w Hw. specialize (Hm w Hw). unfold try_catch.
  destruct (m w) as [[a|x] w1]; [done|by apply Hh].
Qed.

Lemma keeps_for_each {A B} (d : fields) (body : B -> A -> M B) l r :
  (forall x r', keeps d (body r' x)) -> keeps d (for_each l body r).
Proof.
  intros Hb. revert r. induction l as [|x l IH]; intros r; simpl; [apply keeps_ret|].
  apply keeps_bind; [done|apply IH].
Qed.

Lemma keeps_transact {A} (d : fields) (op : event -> db -> res (A * db)) :
  (forall e s a s' d', op e s = Ok (a, s') -> s !! ref = Some d' -> recovered d d' ->
     exists d2, s' !! ref = Some d2 /\ recovered d d2) ->
  keeps d (transact op).
Proof.
  intros Hop w [Hh (d' & Hd & Hr)]. unfold transact.
  set (e := events w (tick w)). set (s := meanwhile e (store w)).
  assert (Hs : s !! ref = Some d') by (unfold s, e; by rewrite Hh).
  assert (Hop' : forall a s', op e s = Ok (a, s') -> exists d2, s' !! ref = Some d2 /\ recovered d d2)
    by eauto.
  destruct (failure e) as [[[] x]|]; destruct (op e s) as [[a s']|y] eqn:E; simpl;
    (split; [exact Hh|]); eauto.
Qed.

Lemma keeps_read {A} (d : fields) (f : event -> db -> res A) : keeps d (read_store f).
Proof.
  apply keeps_transact. intros e s a s' d' H Hd Hr.
  apply res_bind_Ok in H as (b & _ & H). injection H as -> ->. eauto.
Qed.

Lemma keeps_guarded {A} (d : fields) (r : event -> path) (test : event -> fields -> res bool) (u : event -> updates)
    (pre : event -> db -> res A) :
  (forall e d', test e d' = Ok true -> recovered d d' -> recovered d (apply_ops false d' (u e))) ->
  keeps d (transact (fun e s => _ ← pre e s; run_txn (guarded_update (r e) (test e) (u e)) s)).
Proof.
  intros Hu. apply keeps_transact. intros e s b s' d' H Hd Hr.
  apply res_bind_Ok in H as (_ & _ & H). rewrite guarded_update_spec in H.
  destruct (s !! r e) as [d0|] eqn:Hs; [|simplify_eq; eauto].
  destruct (test e d0) as [[]|] eqn:Ht; simplify_eq; eauto.
  destruct (decide (r e = ref)) as [E|Hne].
  - rewrite E in Hs. rewrite Hd in Hs. injection Hs as <-. rewrite E, lookup_insert_eq. eauto.
  - rewrite lookup_insert_ne by done. eauto.
Qed.

Lemma keeps_stamp (d : fields) u c : keeps d (transact (fun e => stamp_processing_admission_if_absent u c (clock e))).
Proof.
  apply (keeps_guarded d (fun _ => _conversation_ref u c) _ _ (fun _ _ => Ok tt)).
  intros e d' Ht Hr. injection Ht as Ht. apply andb_true_iff in Ht as [Hp Ht].
  apply recovered_stamp; [done|by apply v_is_true|by apply negb_true_iff].
Qed.

Lemma keeps_complete (d : fields) u c v : keeps d (transact (fun _ => complete_orphan_conversation u c v)).
Proof.
  apply (keeps_guarded d (fun _ => _conversation_ref u c) _ _ (fun _ _ => Ok tt)).
  intros e d' Ht Hr. injection Ht as Ht. apply andb_true_iff in Ht as [Ht _].
  apply andb_true_iff in Ht as [Hu _]. by apply recovered_complete.
Qed.

Lemma keeps_unstampable (d : fields) u c stale_after :
  keeps d (transact (fun e => complete_unstampable_orphan_conversation u c (write_time e) stale_after (clock e))).
Proof.
  apply keeps_transact. unfold complete_unstampable_orphan_conversation.
  intros e s b s' d' H Hd Hr. apply res_bind_Ok in H as (cut & _ & H).
  unfold _complete_unstampable_orphan_conversation_txn in H. rewrite guarded_update_spec in H.
  destruct (s !! _conversation_ref u c) as [d0|] eqn:Hs; [|simplify_eq; eauto].
  destruct (_ : res bool) as [[]|] eqn:Ht in H; simplify_eq; eauto.
  destruct (decide (_conversation_ref u c = ref)) as [E|Hne].
  - rewrite E in Hs. rewrite Hd in Hs. injection Hs as <-. rewrite E, lookup_insert_eq.
    eexists. split; [done|]. apply recovered_complete; [done|].
    destruct (unowned_processing d'); [done|]. done.
  - rewrite lookup_insert_ne by done. eauto.
Qed.

Lemma advance_elsewhere name g p now s b s' q :
  advance_cursor name g p now s = Ok (b, s') -> q <> cursor_ref name -> s' !! q = s !! q.
Proof.
  intros H Hq.
  apply (run_txn_runs _ (fun _ ws => Forall (fun w => write_path w = cursor_ref name) ws)) in H as (ws & Hw & Hc).
  - apply (commit_other _ _ _ _ Hc). intros (w & E & Hin)%list_elem_of_fmap.
    apply Hq. rewrite E. by apply (proj1 (Forall_forall _ _) Hw).
  - unfold _advance_stale_processing_sweep_cursor_txn. effects; by repeat constructor.
Qed.

Lemma keeps_advance {A} (d : fields) name cursor (sw : sweep A) :
  keeps d (advance_quietly (advance_cursor name) cursor sw).
Proof.
  unfold advance_quietly. apply keeps_try; [|intros; apply keeps_ret].
  apply keeps_bind; [|intros; apply keeps_ret]. apply keeps_transact.
  intros e s b s' d' H Hd Hr. apply advance_elsewhere with (q := ref) in H; [|done].
  rewrite H. eauto.
Qed.

Lemma keeps_orphan (d : fields) stale_after r o : keeps d (reconcile_one_orphan stale_after r o).
Proof.
  unfold reconcile_one_orphan. apply keeps_try; [|intros; apply keeps_ret].
  destruct (orphan_legacy o).
  - unfold migrate_orphan. cbv zeta. apply keeps_bind.
    + apply keeps_try; [apply keeps_bind; [apply keeps_stamp|intros; apply keeps_ret]|].
      intros x. case_decide; [apply keeps_ret|apply keeps_lift].
    + intros [b|]; [apply keeps_ret|]. apply keeps_bind; [apply keeps_unstampable|intros; apply keeps_ret].
  - apply keeps_bind; [apply keeps_complete|intros; apply keeps_ret].
Qed.

(** The recovery of bare processing rows touches only what it may.  A run of
    the reconciler, with any calls failing before or after they commit, leaves a
    conversation that no one else writes exactly as it was unless its status is
    processing; then only the status and the admission instant can change; a
    row that is discarded, deferred or owned by a job keeps its status; an
    admission instant once set is kept; and the status can only become
    completed. *)
Theorem recovery_touches_only_bare_rows limit w d :
  hands_off (events w) -> store w !! ref = Some d ->
  exists d', store (reconcile_stale_processing_conversations limit w).2 !! ref = Some d' /\
    (doc_get d "status" <> VStr "processing" -> d' = d) /\
    (forall k, k <> "status" -> k <> "processing_admitted_at" -> d' !! k = d !! k) /\
    (unowned_processing d = false -> d' !! "status" = d !! "status") /\
    (is_time (doc_get d "processing_admitted_at") = true ->
       d' !! "processing_admitted_at" = d !! "processing_admitted_at") /\
    (d' !! "status" = d !! "status" \/ doc_get d' "status" = VStr "completed").
Proof.
  intros Hh Hd.
  assert (Hk : keeps d (reconcile_stale_processing_conversations limit)).
  { unfold reconcile_stale_processing_conversations. apply keeps_bind; [apply keeps_lift|].
    intros after. apply keeps_bind; [apply keeps_try; [apply keeps_read|intros; apply keeps_ret]|].
    intros cursor. apply keeps_bind.
    - apply keeps_try; [apply keeps_bind; [apply keeps_read|intros; apply keeps_ret]|intros; apply keeps_ret].
    - intros [sw|]; [|apply keeps_ret]. apply keeps_bind; [apply keeps_advance|].
      intros _. apply keeps_for_each. intros. apply keeps_orphan. }
  destruct (Hk w) as [_ (d' & Hd' & Hr)].
  { split; [done|]. exists d. split; [done|apply recovered_refl]. }
  exists d'. split; [exact Hd'|]. destruct Hr. auto.
Qed.
End Footprint.

(** ** The route of a request *)
Section Route.
Context {Env : FinalizationEnv}.

Lemma attempts_tasks {A} (m : M A) (retry : exn -> bool) (exhausted : exn) random left n w ds :
  (forall v, tasks (m v).2 = tasks v) ->
  tasks (attempts retry exhausted
    (fun w => match m w with (Ok a, w') => (inl a, w') | (Raise x, w') => (inr x, w') end)
    (fun w => (random, w)) left n w ds).1.2 = tasks w.
Proof.
  intros Hm. revert n w ds. induction left as [|left IH]; intros n w ds; [done|].
  cbn [attempts]. specialize (Hm w). destruct (m w) as [[a|x] w1]; [done|]. simpl in Hm.
  destruct (negb _); [done|]. destruct (left =? 0)%nat; [done|]. by rewrite IH.
Qed.

Lemma create_tasks uid c byok force extra random w :
  exists r w', create_or_get_with_retry uid c byok force extra random w = (r, w') /\ tasks w' = tasks w.
Proof.
  unfold create_or_get_with_retry, run_with_transaction_contention_retry.
  change (DEFAULT_MAX_ATTEMPTS <? 1) with false. cbv iota zeta.
  set (m := transact (fun e => create_or_get_finalization_intent uid c byok
    (fun conversation => _finalization_admission conversation c) force extra (clock e))).
  assert (Hm : forall v, tasks (m v).2 = tasks v).
  { intros v. unfold m. by edestruct (transact_cases (A := FinalizationIntent)) as (r & v' & -> & H). }
  pose proof (attempts_tasks m is_abort FirestoreContentionExhausted random
    (Z.to_nat DEFAULT_MAX_ATTEMPTS) 1 w [] Hm) as H.
  destruct (attempts _ _ _ _ _ _ _ _) as [[[i|x] w'] ds]; eexists _, _; (split; [reflexivity|exact H]).
Qed.

Definition closed_statuses : list string :=
  ["missing"; "no_content"; "deferred"; "completed"; "dead_letter"].

(** What a returned route says about the intent and the task queue. *)
Definition route_holds (enabled byok : bool) (i : FinalizationIntent) (r : route) (w w' : world) : Prop :=
  match r with
  | noop => tasks w' = tasks w /\ (intent_job_id i = None \/ intent_status i ∈ closed_statuses)
  | blocked_byok => tasks w' = tasks w /\ byok = false /\ intent_requires_byok i = true
  | pusher => tasks w' = tasks w /\ (byok = true \/ enabled = false /\ intent_requires_byok i = false)
  | queued => enabled = true /\ intent_requires_byok i = false /\
      (tasks w' = tasks w \/ exists j g, intent_job_id i = Some j /\ tasks w' = tasks w ++ [(j, g)])
  | cloud_tasks => enabled = true /\ intent_requires_byok i = false /\
      exists j g, intent_job_id i = Some j /\ g <> 0 /\
        (forall g', intent_dispatch_generation i = Some g' -> g' <> 0 -> g = g') /\
        tasks w' = tasks w ++ [(j, g)]
  end.

(** A finalization request reports the route it took.  A request that must use
    the task queue is refused before anything is read or written when no queue
    is configured.  Otherwise a returned route is the truth: nothing is queued
    for a job that is closed or that needs user keys, without keys such a job is
    reported as blocked, a task is queued exactly once under the job's stored
    generation when the route is the task queue, a failed enqueue still returns
    the durable intent, and a request that raises has queued nothing. *)
Theorem request_reports_its_route configured enabled random uid c byok force extra require w :
  (require = true -> configured = false ->
   request_finalization configured enabled random uid c byok force extra require w
     = (Raise FinalizationDispatchUnavailable, w)) /\
  match request_finalization configured enabled random uid c byok force extra require w with
  | (Ok (i, r), w') => route_holds enabled byok i r w w'
  | (Raise _, w') => tasks w' = tasks w
  end.
Proof.
  split; [by intros -> ->|]. unfold request_finalization.
  destruct (require && negb configured); [done|]. unfold mbind, M_bind at 1, try_catch at 1.
  destruct (create_tasks uid c byok force extra random w) as (r0 & w1 & -> & Ht).
  destruct r0 as [i|x]; [|exact Ht].
  destruct (intent_job_id i) as [j|] eqn:Ej; [|simpl; auto].
  destruct (is_member _ _) eqn:Em.
  { simpl. split; [done|]. right. by apply bool_decide_eq_true in Em. }
  destruct (intent_requires_byok i) eqn:Eb.
  - destruct byok; simpl; [|by auto].
    unfold M_bind. destruct (transact_cases (fun e => resume_blocked_byok_job_for_live_session j (clock e)) w1)
      as (r1 & w2 & -> & Ht2). destruct r1 as [i2|x]; simpl; [split; [congruence|by left]|congruence].
  - destruct enabled; simpl; [|by auto]. unfold try_catch, M_bind.
    set (g := match intent_dispatch_generation i with Some g => if g =? 0 then 1 else g | None => 1 end).
    destruct (enqueue_cases j g w1) as (r1 & w2 & -> & Hc). rewrite Ht in Hc.
    destruct r1 as [[]|x]; simpl.
    + split_and!; [done..|]. exists j, g. destruct Hc as [Hc|[? _]]; [|done]. split_and!; [done| | |done].
      * unfold g. destruct (intent_dispatch_generation i) as [g0|]; [|done].
        destruct (Z.eqb_spec g0 0); [done|]. done.
      * intros g' Hg Hne. unfold g. rewrite Hg. by apply Z.eqb_neq in Hne as ->.
    + split_and!; [done..|]. destruct Hc as [Hc|[_ Hc]]; [right; eauto|by left].
Qed.
End Route.

(** ** Cursor texts *)
Definition no_slash (s : string) : Prop := "/"%char ∉ String.list_ascii_of_string s.

Lemma split_slash_joins l :
  let '(w, ws) := split_slash l in
  String.concat "/" (w :: ws) = String.string_of_list_ascii l /\ Forall no_slash (w :: ws).
Proof.
  induction l as [|ch l IH]; simpl.
  - split; [done|]. repeat constructor. apply not_elem_of_nil.
  - destruct (split_slash l) as [w ws]. destruct IH as [E Hall]. case_bool_decide as Hch; simpl.
    + rewrite <-E, Hch. split; [by destruct ws|]. constructor; [apply not_elem_of_nil|done].
    + apply Forall_cons in Hall as [Hw Hws]. split.
      * rewrite <-E. by destruct ws.
      * constructor; [|done]. unfold no_slash. simpl. rewrite not_elem_of_cons. split; [by intros <-|done].
Qed.

Lemma split_slash_word s l :
  no_slash s -> split_slash (String.list_ascii_of_string s ++ "/"%char :: l) =
    (s, let '(w, ws) := split_slash l in w :: ws) /\
  split_slash (String.list_ascii_of_string s) = (s, []).
Proof.
  unfold no_slash. induction s as [|ch s IH]; simpl; intros Hs.
  - by destruct (split_slash l).
  - apply not_elem_of_cons in Hs as [Hch Hs]. destruct (IH Hs) as [-> ->].
    by rewrite !bool_decide_eq_false_2 by congruence.
Qed.

Lemma split_slash_concat w ws :
  Forall no_slash (w :: ws) ->
  split_slash (String.list_ascii_of_string (String.concat "/" (w :: ws))) = (w, ws).
Proof.
  revert w. induction ws as [|v ws IH]; intros w [Hw Hall]%Forall_cons.
  - by apply (split_slash_word w []).
  - change (String.concat "/" (w :: v :: ws)) with (w +:+ ("/" +:+ String.concat "/" (v :: ws))).
    rewrite list_ascii_app.
    change (String.list_ascii_of_string ("/" +:+ ?s)) with ("/"%char :: String.list_ascii_of_string s).
    rewrite (proj1 (split_slash_word w _ Hw)), (IH v Hall). done.
Qed.

(** A cursor's text is the path it was made from.  Opening a text as a document
    yields a path exactly when the text is that path's segments joined by
    slashes, the path has a positive even number of segments and no segment
    contains a slash; so a sweep that stores the text of its last row resumes
    after exactly that row. *)
Theorem cursor_text_roundtrip (text : string) (p : path) :
  document_path text = Ok p <->
  reference_path p = text /\ p <> [] /\ Nat.even (length p) = true /\ Forall no_slash p.
Proof.
  unfold document_path, reference_path. split.
  - pose proof (split_slash_joins (String.list_ascii_of_string text)) as H.
    destruct (split_slash _) as [w ws]. destruct H as [E Hall].
    destruct (Nat.even _) eqn:Ev; [|done]. intros [= <-].
    rewrite String.string_of_list_ascii_of_string in E. done.
  - intros (<- & Hne & Ev & Hall). destruct p as [|w ws]; [done|].
    rewrite (split_slash_concat w ws Hall). by rewrite Ev.
Qed.
