(* ===== verification/FinalizationDemo.v ===== *)
(** * Concrete runs of the finalization jobs

    A store with one conversation, and the runs that take its job through the
    whole life cycle: requested, claimed, delivered, completed, superseded,
    dead-lettered, abandoned.  The theorems on finalization are applied to
    these runs. *)

From S2P Require Import Prelude PyValue Firestore Sha256 FinalizationDecision FinalizationJobs.
From S2P Require Import FinalizationRecovery FinalizationProofs FinalizationTheorems FinalizationCounters FinalizationSpec.
From Stdlib Require Import QArith_base.
Local Open Scope Z_scope.

(** An equality of closed terms, by evaluation of both sides in the kernel. *)
Ltac vm_refl := lazymatch goal with |- ?a = ?b => vm_cast_no_check (@eq_refl _ b) end.

(** ** Concrete runs *)
Definition demo_conversation : fields :=
  {["status" := VStr "in_progress"; "has_content" := VBool true]}.
Definition demo_ref : path := _conversation_ref "u" "c".
Definition demo_store : db := {[demo_ref := demo_conversation]}.
Definition demo_job : string := Eval vm_compute in _job_id "u" "c" 1.
Definition day : Z := days 1.

(** The processor of the conversation completes it. *)
Definition processed (s : db) : db :=
  match s !! demo_ref with
  | Some d => <[demo_ref := <["status" := VStr "completed"]> d]> s
  | None => s
  end.

Section Demo.
#[local] Existing Instance plain_env.

Definition demo_request (byok : bool) : job_op :=
  OpCreate "u" "c" byok (fun d => _finalization_admission d "c") false [] day.

(** A job requested, claimed, delivered and completed. *)
Definition demo_leased : db := job_run [demo_request false; OpClaim demo_job 1 false 1500 None None day] demo_store.
Definition demo_delivered : db :=
  job_run [OpFanoutClaim demo_job 1 1 day; OpFanoutDone demo_job 1 1 day] (processed demo_leased).
Definition demo_completed : db := job_run [OpComplete demo_job 1 1 day] demo_delivered.

(** The same with the user's own keys, up to the delivery of the fanout. *)
Definition demo_byok_delivered : db :=
  job_run [OpFanoutClaim demo_job 1 1 day; OpFanoutDone demo_job 1 1 day]
    (processed (job_run [demo_request true; OpResume demo_job day;
                         OpClaim demo_job 1 true 1500 None None day] demo_store)).

Definition the_job (s : db) : fields := default ∅ (s !! _job_ref demo_job).

Definition job_field (s : db) (k : string) : value := doc_get (the_job s) k.

Example demo_completes :
  job_field demo_completed "status" = VStr "completed" /\
  job_field demo_completed "terminal_outcome" = VStr "success" /\
  projection_total demo_completed "success" = 1 /\ projection_total demo_completed "queued" = 0.
Proof. vm_compute. auto. Qed.

(** ** The theorems at work *)
Lemma terminal_job_is_absorbing_witness :
  let ops := [OpReplay demo_job 0 (9 * day); OpClaim demo_job 1 true 1500 None None (9 * day)] in
  exists job', job_run ops demo_completed !! _job_ref demo_job = Some job' /\
    forall k, k ∉ receipt_keys -> job' !! k = the_job demo_completed !! k.
Proof.
  intros ops.
  assert (H1 : demo_completed !! _job_ref demo_job = Some (the_job demo_completed)) by vm_refl.
  assert (H2 : doc_get (the_job demo_completed) "status" = VStr "completed") by vm_refl.
  assert (H3 : "completed" ∈ TERMINAL_JOB_STATUSES) by decide_key.
  exact (terminal_job_is_absorbing _ _ _ ops _ H1 H2 H3).
Defined.

(** The first worker's lease has run out and a second worker holds the job. *)
Definition demo_reclaimed : db :=
  job_run [OpClaim demo_job 1 false 1500 None None (9 * day)] demo_leased.

Lemma superseded_worker_is_fenced_witness :
  let ops := [OpResume demo_job (9 * day)] in
  mark_finalization_completed demo_job 1 1 (9 * day) (job_run ops demo_reclaimed)
    = Ok (false, demo_reclaimed) /\
  (CallComplete <> CallFanoutDone -> false = false) /\ demo_reclaimed = job_run ops demo_reclaimed.
Proof.
  intros ops.
  assert (H1 : demo_reclaimed !! _job_ref demo_job = Some (the_job demo_reclaimed)) by vm_refl.
  assert (H2 : get_int (the_job demo_reclaimed) "lease_epoch" 0 = Ok 2) by vm_refl.
  assert (H3 : 1 < 2) by lia.
  assert (H4 : mark_finalization_completed demo_job 1 1 (9 * day) (job_run ops demo_reclaimed)
    = Ok (false, demo_reclaimed)) by vm_refl.
  exact (conj H4 (superseded_worker_is_fenced CallComplete demo_job 1 1 2 (9 * day) ops
    demo_reclaimed _ _ _ H1 H2 H3 H4)).
Defined.

Lemma completed_jobs_delivered_their_fanout_witness :
  store_wf (job_run [demo_request false; OpClaim demo_job 1 false 1500 None None day;
                     OpDead demo_job 1 1 3 day] demo_store).
Proof.
  assert (H : store_wf demo_store).
  { intros j job Hj. unfold demo_store, demo_ref in Hj.
    by rewrite lookup_singleton_ne in Hj by done. }
  exact (completed_jobs_delivered_their_fanout _ _ H).
Defined.

(** The delivered job with a meeting receipt on it. *)
Definition demo_receipted : db :=
  job_run [OpReceipt "u" "c" (Some demo_job) true "meeting" 600 300 day] demo_delivered.

Lemma meeting_verdict_is_write_once_witness :
  let ops := [OpReceipt "u" "c" (Some demo_job) false "too_short" 1 1 (2 * day);
              OpReceiptIntent demo_job "i" (2 * day); OpComplete demo_job 1 1 (2 * day)] in
  exists job', job_run ops demo_receipted !! _job_ref demo_job = Some job' /\
    forall k, k ∈ verdict_keys -> job' !! k = the_job demo_receipted !! k.
Proof.
  intros ops.
  assert (H1 : demo_receipted !! _job_ref demo_job = Some (the_job demo_receipted))
    by vm_refl.
  assert (H2 : doc_get (the_job demo_receipted) "meeting_receipt_schema_version"
    = VInt MEETING_RECEIPT_SCHEMA_VERSION) by vm_refl.
  exact (meeting_verdict_is_write_once _ _ ops _ H1 H2).
Defined.

Lemma summary_counts_the_jobs_witness :
  let ops := [demo_request false; OpClaim demo_job 1 false 1500 None None day] in
  projection_total (job_run ops demo_store) "leased" = 1 /\
  projection_total (job_run ops demo_store) "leased" =
    count (admitted_in "leased") (job_run ops demo_store).
Proof.
  intros ops. assert (H1 : projection_ok demo_store)
    by (unfold demo_store, demo_ref; rewrite <- insert_empty;
        apply projection_ok_conversation, projection_ok_empty).
  assert (H2 : "leased" ∈ projection_names) by decide_key.
  assert (H3 : projection_total (job_run ops demo_store) "leased" = 1) by vm_refl.
  exact (conj H3 (summary_counts_the_jobs ops demo_store "leased" H1 H2)).
Defined.

Lemma finalization_request_is_idempotent_witness :
  exists s1, create_or_get_finalization_intent "u" "c" false
      (fun d => _finalization_admission d "c") false [] day demo_store
    = Ok (Intent (Some (_job_id "u" "c" 1)) "queued" (Some 1) false
        (Some (generation_fanout_key "c" 1)) true, s1) /\
    create_or_get_finalization_intent "u" "c" true
      (fun d => _finalization_admission d "c") true [] (2 * day) s1
    = Ok (Intent (Some (_job_id "u" "c" 1)) "queued" (Some 1) false
        (Some (generation_fanout_key "c" 1)) false, s1).
Proof.
  assert (H1 : demo_store !! _conversation_ref "u" "c" = Some demo_conversation)
    by vm_refl.
  assert (H2 : admissible demo_conversation 0) by (split; vm_compute; reflexivity).
  assert (H3 : demo_store !! _job_ref (_job_id "u" "c" (0 + 1)) = None)
    by vm_refl.
  assert (H4 : reconcile_at false day = Ok (Some (day + seconds 300))) by vm_refl.
  assert (H5 : NoDup ([] : dict).*1) by constructor.
  assert (H6 : Forall (fun k => dict_lookup k [] = None) lifecycle_keys)
    by (repeat constructor).
  destruct (finalization_request_is_idempotent "u" "c" demo_conversation 0 false false [] _ day
    demo_store H1 H2 H3 H4 H5 H6) as (s1 & conv1 & Hr & _ & _ & _ & _ & _ & Hagain).
  exact (ex_intro _ s1 (conj Hr (Hagain true true [] (2 * day)))).
Defined.

Definition the_conversation (s : db) : fields := default ∅ (s !! demo_ref).

Lemma dead_letter_closes_its_conversation_witness :
  exists s' job' conv',
    mark_finalization_dead_letter demo_job 1 1 3 day demo_leased = Ok (true, s') /\
    s' !! _job_ref demo_job = Some job' /\ doc_get job' "status" = VStr "dead_letter" /\
    s' !! _conversation_ref "u" "c" = Some conv' /\ doc_get conv' "status" = VStr "failed".
Proof.
  assert (H1 : demo_leased !! _job_ref demo_job = Some (the_job demo_leased)) by vm_refl.
  assert (H2 : _is_current_lease (the_job demo_leased) 1 1 = Ok true) by vm_refl.
  assert (H3 : as_id (doc_get (the_job demo_leased) "uid") = Some "u") by vm_refl.
  assert (H4 : as_id (doc_get (the_job demo_leased) "conversation_id") = Some "c") by vm_refl.
  assert (H5 : demo_leased !! _conversation_ref "u" "c" = Some (the_conversation demo_leased))
    by vm_refl.
  assert (H6 : v_is (doc_get (the_conversation demo_leased) "status") "processing"
    && negb (truthy (doc_get (the_conversation demo_leased) "discarded"))
    && bound_to (the_conversation demo_leased) (the_job demo_leased) demo_job = true) by vm_refl.
  destruct (dead_letter_closes_its_conversation demo_job 1 1 3 day _ "u" "c" _ demo_leased
    H1 H2 H3 H4 H5) as (s' & job' & conv' & Hr & Hj & Hst & _ & Hc & _ & Ho).
  destruct (Ho H6) as [Hf _].
  exact (ex_intro _ s' (ex_intro _ job' (ex_intro _ conv'
    (conj Hr (conj Hj (conj Hst (conj Hc Hf))))))).
Defined.

(** The store after a transaction. *)
Definition after {A} (r : res (A * db)) : db := match r with Ok (_, s) => s | Raise _ => ∅ end.

Definition demo_processed : db := processed demo_leased.

Lemma fanout_needs_the_bound_conversation_witness :
  exists job, demo_processed !! _job_ref demo_job = Some job /\
    _is_current_lease job 1 1 = Ok true.
Proof.
  assert (H1 : claim_finalization_fanout demo_job 1 1 day demo_processed =
    Ok (FanoutClaim "claimed" (Some (generation_fanout_key "c" 1)),
        after (claim_finalization_fanout demo_job 1 1 day demo_processed))) by vm_refl.
  destruct (fanout_needs_the_bound_conversation demo_job 1 1 day _ _ _ H1) as [Hc _].
  destruct (Hc eq_refl) as (job & _ & _ & _ & _ & Hj & Hl & _).
  exact (ex_intro _ job (conj Hj Hl)).
Defined.

(** A conversation stuck in processing since the first day, without a job. *)
Definition stuck_store : db :=
  {[demo_ref := {["status" := VStr "processing"; "processing_admitted_at" := instant day]}]}.

Lemma orphan_recovery_spares_live_work_witness :
  (exists d, stuck_store !! _conversation_ref "u" "c" = Some d /\
     doc_get d "status" = VStr "processing") /\
  complete_orphan_conversation "u" "c" (instant day)
    (after (renew_processing_lease "u" "c" (2 * day) stuck_store)) =
  Ok (false, after (renew_processing_lease "u" "c" (2 * day) stuck_store)).
Proof.
  assert (H1 : complete_orphan_conversation "u" "c" (instant day) stuck_store =
    Ok (true, after (complete_orphan_conversation "u" "c" (instant day) stuck_store))) by vm_refl.
  assert (H2 : renew_processing_lease "u" "c" (2 * day) stuck_store =
    Ok (true, after (renew_processing_lease "u" "c" (2 * day) stuck_store))) by vm_refl.
  assert (H3 : 2 * day <> day) by (intros E; vm_compute in E; discriminate E).
  destruct (orphan_recovery_spares_live_work "u" "c" day stuck_store _ true H1) as (_ & Ht & Hr).
  destruct (Ht eq_refl) as (d & _ & Hd & Hst & _).
  exact (conj (ex_intro _ d (conj Hd Hst)) (Hr _ _ H2 H3)).
Defined.

Definition deferred_store : db :=
  {[demo_ref := {["status" := VStr "completed"; "deferred" := VBool true]}]}.

Lemma deferred_row_has_one_opener_witness :
  let s1 := after (reacquire_deferred_processing "u" "c" day deferred_store) in
  let ops := [OpRenew "u" "c" (2 * day); OpOrphan "u" "c" (instant (2 * day))] in
  reacquire_deferred_processing "u" "c" (3 * day) (job_run ops s1) = Ok (false, job_run ops s1).
Proof.
  intros s1 ops.
  assert (H1 : reacquire_deferred_processing "u" "c" day deferred_store = Ok (true, s1)) by vm_refl.
  assert (H2 : Forall keeps_claim ops) by (repeat constructor).
  exact (deferred_row_has_one_opener "u" "c" day (3 * day) ops deferred_store s1 H1 H2).
Defined.

Lemma cursor_advances_once_per_generation_witness :
  let name := STALE_PROCESSING_SWEEP_STATE_DOC in
  let s1 := after (advance_cursor name 0 (Some "users/u/conversations/c") day ∅) in
  get_cursor name s1 = Ok (Cursor (Some "users/u/conversations/c") 1) /\
  advance_cursor name 0 None (2 * day) s1 = Ok (false, s1).
Proof.
  intros name s1.
  assert (H1 : advance_cursor name 0 (Some "users/u/conversations/c") day ∅ = Ok (true, s1))
    by vm_refl.
  destruct (cursor_advances_once_per_generation name 0 _ day ∅ s1 H1) as (_ & Hg & _ & Hn).
  exact (conj Hg (Hn None (2 * day))).
Defined.

(** ** A delivered fanout can be forgotten *)
Definition fanout_field (s : db) : value := job_field s "fanout_status".

(** Abandonment can forget a delivery.  A job that runs on its user's own
    keys delivered its fanout and its worker then vanished before completing
    it; a month later the abandonment sweep dead-letters the job and rewrites
    the fanout from completed to fenced, so the record says nothing was
    delivered. *)
Theorem abandonment_forgets_a_delivered_fanout :
  let s' := after (abandon_byok_finalization_job demo_job "leased" 1 1 (days 14) (30 * day)
                     demo_byok_delivered) in
  fanout_field demo_byok_delivered = VStr "completed" /\
  abandon_byok_finalization_job demo_job "leased" 1 1 (days 14) (30 * day) demo_byok_delivered
    = Ok (Abandonment "abandoned" "already_terminal", s') /\
  fanout_field s' = VStr "fenced" /\ job_field s' "status" = VStr "dead_letter".
Proof. intros s'. repeat (split; [vm_refl|]). vm_refl. Qed.

End Demo.
