(* ===== verification/ServiceDemo.v ===== *)
(** * Concrete runs of the reconcilers and of the request route

    A conversation is requested over the task queue; a stranded row is
    recovered; the theorems on the service programs are applied to these runs. *)

From S2P Require Import Prelude PyValue Firestore Sha256 FinalizationDecision FinalizationJobs.
From S2P Require Import FinalizationRecovery FinalizationProofs FinalizationSpec FinalizationDispatch.
From S2P Require Import ContentionRetry FinalizationService ServiceProofs ServiceSpec FinalizationDemo.
From Stdlib Require Import QArith_base.
Local Open Scope Z_scope.

Section Demo.
#[local] Existing Instance plain_env.

(** Nobody else moves; the clock stands at ten days. *)
Definition quiet (n : nat) : event := Event [] id (10 * day) (instant 0) None.
Definition quiet_world (s : db) : world := World quiet 0 s [].

Lemma quiet_friendly (c : gset string) : friendly c quiet.
Proof. intros n. by split. Qed.

Lemma demo_history : dispatch_reach demo_store ∅.
Proof. eapply reach_elsewhere; [apply reach_start|]. intros j.
  unfold demo_store, demo_ref. by rewrite lookup_singleton_ne, lookup_empty by done.
Qed.

(** A request that must use the task queue, followed by two reconciler runs. *)
Definition demo_calls : list service_call :=
  [CallRequest true true 0 "u" "c" false false [] true; CallStale 10; CallReplay true 10].

Example demo_calls_queue_the_job :
  tasks (service_run demo_calls (quiet_world demo_store)) = [(demo_job, 1)].
Proof. vm_refl. Qed.

Lemma service_calls_refine_dispatch_witness :
  exists c', ∅ ⊆ c' /\ dispatch_reach (store (service_run demo_calls (quiet_world demo_store))) c' /\
    forall t, t ∈ tasks (service_run demo_calls (quiet_world demo_store)) -> t.1 ∈ c'.
Proof.
  refine (service_calls_refine_dispatch demo_calls (quiet_world demo_store) ∅ demo_history _ (quiet_friendly ∅)).
  intros t Ht. by apply not_elem_of_nil in Ht.
Defined.

Lemma no_task_for_a_keyed_job_witness :
  exists job, store (service_run demo_calls (quiet_world demo_store)) !! _job_ref demo_job = Some job /\
    needs_keys job = false.
Proof.
  refine (no_task_for_a_keyed_job demo_calls (quiet_world demo_store) ∅ (demo_job, 1) demo_history _
    (quiet_friendly ∅) _).
  - intros t Ht. by apply not_elem_of_nil in Ht.
  - assert (E : tasks (service_run demo_calls (quiet_world demo_store)) = [(demo_job, 1)]) by vm_refl.
    rewrite E. apply list_elem_of_singleton. reflexivity.
Defined.

(** The store after the request; its job is due ten days later. *)
Definition requested : db := job_run [demo_request false] demo_store.
Definition due_jobs : list (string * fields) :=
  match get_finalization_replay_candidates 10 (10 * day) requested with Ok l => l | Raise _ => [] end.

Lemma keyed_jobs_are_never_replayed_witness :
  exists job, requested !! _job_ref demo_job = Some job /\ needs_keys job = false.
Proof.
  assert (H : dispatch_reach requested (∅ ∪ list_to_set due_jobs.*1)).
  { eapply (reach_read 10 (10 * day) due_jobs); [|vm_refl].
    eapply (reach_op (demo_request false)); [exact demo_history|reflexivity|vm_refl]. }
  apply (proj2 (keyed_jobs_are_never_replayed _ _ H) demo_job).
  apply elem_of_union_r, elem_of_list_to_set.
  assert (E : due_jobs.*1 = [demo_job]) by vm_refl. rewrite E. apply list_elem_of_singleton. reflexivity.
Defined.

(** A processing row that nothing owns, stamped at the beginning of time, and
    one that a job owns. *)
Definition stranded : fields :=
  {["status" := VStr "processing"; "processing_admitted_at" := instant 0]}.
Definition stranded_store : db := {[demo_ref := stranded]}.

Example stranded_row_is_recovered :
  (fun d => doc_get d "status")
    <$> (store (reconcile_stale_processing_conversations 10 (quiet_world stranded_store)).2 !! demo_ref)
  = Some (VStr "completed").
Proof. vm_refl. Qed.

Lemma recovery_touches_only_bare_rows_witness :
  exists d', store (reconcile_stale_processing_conversations 10 (quiet_world stranded_store)).2
      !! _conversation_ref "u" "c" = Some d' /\
    d' !! "processing_admitted_at" = Some (instant 0).
Proof.
  destruct (recovery_touches_only_bare_rows "u" "c" 10 (quiet_world stranded_store) stranded)
    as (d' & Hd' & _ & _ & _ & Hs & _).
  - intros n s. reflexivity.
  - vm_compute. reflexivity.
  - exists d'. split; [exact Hd'|]. rewrite Hs; vm_compute; reflexivity.
Defined.
End Demo.
