(* ===== verification/MemoryText.v ===== *)
(** * Canonical texts and identities of the memory ledger
    (backend/models/memory_contracts.py, lines 84 to 89)

    The canonical JSON text of a value, its SHA-256 identity, and the text
    operations the memory models apply to their fields.  Strings are UTF-8
    bytes.  The Unicode tables behind [str.lower], [str.casefold] and NFKC, the
    texts of floats and datetimes and the parser of datetime texts belong to
    Python's runtime: they are the fields of [TextEnv], used only on texts
    outside ASCII where the operation on ASCII is known. *)

From S2P Require Import Prelude PyValue Sha256.
From Stdlib Require Import QArith_base Ascii.
From stdpp Require Import pretty sorting.
Local Open Scope Z_scope.

Class TextEnv := {
  float_text : Q -> string;
  datetime_text : bool -> Z -> string;
  isoformat : bool -> Z -> string;
  fromisoformat : string -> option value;
  other_lower : string -> string;
  other_casefold : string -> string;
  other_nfkc : string -> string
}.

(** ** Characters *)
Definition byte_of (c : ascii) : Z := Z.of_N (N_of_ascii c).

(** The code points of UTF-8 bytes; [need] continuation bytes are missing from
    the code point [acc]. *)
Fixpoint code_points (need : nat) (acc : Z) (l : list Z) : list Z :=
  match l with
  | [] => []
  | b :: l' =>
      match need with
      | S O => (acc * 64 + (b - 128)) :: code_points 0 0 l'
      | S n => code_points n (acc * 64 + (b - 128)) l'
      | O => if b <? 128 then b :: code_points 0 0 l'
             else if b <? 224 then code_points 1 (b - 192) l'
             else if b <? 240 then code_points 2 (b - 224) l'
             else code_points 3 (b - 240) l'
      end
  end.

Definition points (s : string) : list Z := code_points 0 0 (encode s).

(** [len(s)] *)
Definition py_len (s : string) : Z := Z.of_nat (length (points s)).

(** [text[:n]], in code points of UTF-8. *)
Fixpoint py_take (n : nat) (text : string) : string :=
  match text with
  | EmptyString => ""
  | String.String c text' =>
      if (128 <=? byte_of c) && (byte_of c <? 192) then String.String c (py_take n text')
      else match n with O => "" | S n' => String.String c (py_take n' text') end
  end.

Definition is_ascii (s : string) : bool :=
  forallb (fun c => byte_of c <? 128) (String.list_ascii_of_string s).

Definition ascii_lower (s : string) : string :=
  String.string_of_list_ascii
    ((fun c => let b := byte_of c in
               if (65 <=? b) && (b <=? 90) then ascii_of_N (Z.to_N (b + 32)) else c)
       <$> String.list_ascii_of_string s).

Section Text.
Context {T : TextEnv}.

Definition lower (s : string) : string := if is_ascii s then ascii_lower s else other_lower s.
Definition casefold (s : string) : string := if is_ascii s then ascii_lower s else other_casefold s.
Definition nfkc (s : string) : string := if is_ascii s then s else other_nfkc s.

(** [s.split()]: the runs of characters that are no spaces. *)
Fixpoint split_words (word : list ascii) (l : list ascii) : list (list ascii) :=
  match l with
  | [] => match word with [] => [] | _ => [rev word] end
  | c :: l' =>
      if is_space c then match word with [] => split_words [] l' | _ => rev word :: split_words [] l' end
      else split_words (c :: word) l'
  end.

Definition words (s : string) : list string :=
  String.string_of_list_ascii <$> split_words [] (String.list_ascii_of_string s).

(** [s.replace(old, new)] for single characters. *)
Definition replace_char (old new : ascii) (s : string) : string :=
  String.string_of_list_ascii
    ((fun c => if bool_decide (c = old) then new else c) <$> String.list_ascii_of_string s).

(** ** JSON

    [json.dumps(v, sort_keys=True, separators=(",", ":"), default=str)] with the
    default [ensure_ascii]. *)
Definition hex4 (z : Z) : string :=
  hexdigest [z / 256; z mod 256].

Definition quote : ascii := "034"%char.

Definition escape (cp : Z) : string :=
  if cp =? 34 then String.String "\"%char (String.String quote "")
  else if cp =? 92 then "\\"
  else if cp =? 10 then "\n"
  else if cp =? 13 then "\r"
  else if cp =? 9 then "\t"
  else if cp =? 8 then "\b"
  else if cp =? 12 then "\f"
  else if (32 <=? cp) && (cp <=? 126) then String.String (ascii_of_N (Z.to_N cp)) ""
  else if cp <? 65536 then "\u" +:+ hex4 cp
  else let c := cp - 65536 in
       "\u" +:+ hex4 (55296 + c / 1024) +:+ "\u" +:+ hex4 (56320 + c mod 1024).

Definition json_string (s : string) : string :=
  String.String quote (String.concat "" (escape <$> points s) +:+ String.String quote "").

(** Keys are compared as texts. *)
Definition key_le (a b : string * string) : Prop := String.leb a.1 b.1 = true.
#[global] Instance key_le_dec : RelDecision key_le.
Proof. intros a b. unfold key_le. apply _. Defined.

(** The members of an object, in the order of their keys. *)
Definition json_members (l : list (string * string)) : string :=
  String.concat "," ((fun kv => json_string kv.1 +:+ ":" +:+ kv.2) <$> merge_sort key_le l).

Fixpoint json_text (v : value) : string :=
  match v with
  | VNone => "null"
  | VBool b => if b then "true" else "false"
  | VInt z => pretty z
  | VFloat q => float_text q
  | VStr s => json_string s
  | VTime aw us => json_string (datetime_text aw us)
  | VList l => "[" +:+ String.concat "," (json_text <$> l) +:+ "]"
  | VDict d => "{" +:+ json_members ((fun kv => (kv.1, json_text kv.2)) <$> d) +:+ "}"
  end.

(** Values that [json.dumps] encodes without [default]. *)
Fixpoint json_plain (v : value) : bool :=
  match v with
  | VTime _ _ => false
  | VList l => forallb json_plain l
  | VDict d => forallb (fun kv => json_plain kv.2) d
  | _ => true
  end.

Definition _canonical_json : value -> string := json_text.

Definition deterministic_contract_id (namespace : string) (payload : dict) : string :=
  hexdigest (sha256 (encode (namespace +:+ "|" +:+ _canonical_json (VDict payload)))).

(** [deterministic_contract_id(...)[:n]] *)
Definition contract_prefix (n : nat) (namespace : string) (payload : dict) : string :=
  String.substring 0 n (deterministic_contract_id namespace payload).
End Text.

(** A text environment for concrete runs on ASCII texts. *)
Definition plain_text : TextEnv := {|
  float_text _ := "0.5"; datetime_text _ us := pretty us; isoformat _ us := pretty us;
  fromisoformat _ := None; other_lower s := s; other_casefold s := s; other_nfkc s := s |}.

(** ** Canonicity

    Sorting by key gives the same list for every order of the same members. *)
#[global] Instance key_le_total : Total key_le.
Proof. intros a b. unfold key_le. destruct (String.leb_total a.1 b.1); auto. Qed.
#[global] Instance key_le_trans : Transitive key_le.
Proof. intros a b c. apply string_leb_trans. Qed.

(** Two sorted lists with the same members agree when no two members compare
    equal both ways. *)
Lemma sorted_unique {A} (R : relation A) (l1 l2 : list A) :
  StronglySorted R l1 -> StronglySorted R l2 -> l1 ≡ₚ l2 ->
  (forall x y, x ∈ l1 -> y ∈ l1 -> R x y -> R y x -> x = y) -> l1 = l2.
Proof.
  intros H1. revert l2. induction H1 as [|x l1 H1 IH Hx]; intros l2 H2 Hp Hanti.
  { by apply Permutation_nil in Hp as ->. }
  destruct H2 as [|y l2 H2 Hy]; [by apply Permutation_sym, Permutation_nil in Hp|].
  assert (x = y) as <-.
  { assert (Hxy : x ∈ y :: l2) by (rewrite <-Hp; apply elem_of_cons; by left).
    assert (Hyx : y ∈ x :: l1) by (rewrite Hp; apply elem_of_cons; by left).
    apply elem_of_cons in Hxy as [->|Hxy]; [done|]. apply elem_of_cons in Hyx as [->|Hyx]; [done|].
    apply Hanti; [apply elem_of_cons; by left|apply elem_of_cons; by right| |].
    - by apply (proj1 (Forall_forall _ _) Hx).
    - by apply (proj1 (Forall_forall _ _) Hy). }
  f_equal. apply IH; [done|by apply Permutation_cons_inv in Hp|].
  intros u v Hu Hv. apply Hanti; apply elem_of_cons; by right.
Qed.

Lemma nodup_keys_inj (l : list (string * string)) x y :
  NoDup l.*1 -> x ∈ l -> y ∈ l -> x.1 = y.1 -> x = y.
Proof.
  intros Hnd Hx Hy E. destruct x as [k v], y as [k' v']. simpl in E. subst k'. f_equal.
  apply elem_of_list_to_map in Hx, Hy; [|done..]. congruence.
Qed.

Lemma json_members_perm `{T : TextEnv} (l1 l2 : list (string * string)) :
  NoDup l1.*1 -> l1 ≡ₚ l2 -> json_members l1 = json_members l2.
Proof.
  intros Hnd Hp. unfold json_members. do 2 f_equal. apply (sorted_unique key_le).
  - apply StronglySorted_merge_sort; apply _.
  - apply StronglySorted_merge_sort; apply _.
  - by rewrite !merge_sort_Permutation.
  - intros x y Hx Hy H1 H2. rewrite merge_sort_Permutation in Hx, Hy.
    apply (nodup_keys_inj l1); try done. by apply String.leb_antisym.
Qed.

(** The text of an object does not depend on the order of its keys. *)
Lemma json_text_perm `{T : TextEnv} (d1 d2 : dict) :
  NoDup d1.*1 -> d1 ≡ₚ d2 -> json_text (VDict d1) = json_text (VDict d2).
Proof.
  intros Hnd Hp. simpl. f_equal. f_equal. apply json_members_perm; [|by rewrite Hp].
  rewrite <-list_fmap_compose. exact Hnd.
Qed.

(** The text of an object depends on its keys and on the texts of its members. *)
Lemma json_text_members `{T : TextEnv} (d1 d2 : dict) :
  (fun kv => (kv.1, json_text kv.2)) <$> d1 = (fun kv => (kv.1, json_text kv.2)) <$> d2 ->
  json_text (VDict d1) = json_text (VDict d2).
Proof. intros E. simpl. by rewrite E. Qed.

Lemma deterministic_id_text `{T : TextEnv} namespace d1 d2 :
  json_text (VDict d1) = json_text (VDict d2) ->
  deterministic_contract_id namespace d1 = deterministic_contract_id namespace d2.
Proof. intros E. unfold deterministic_contract_id, _canonical_json. by rewrite E. Qed.
