(* ===== verification/MemoryOperations.v ===== *)
(** * Operations of the memory ledger (backend/models/memory_operations.py)

    The logical payload of an operation, its server-owned identity, and the
    state machine of the journal record. *)

From S2P Require Import Prelude PyValue Sha256 MemoryText.
From Stdlib Require Import QArith_base Ascii.
From stdpp Require Import sorting.
Local Open Scope Z_scope.

Inductive MemoryOperationType :=
| source_candidate | source_replacement | synthesis | long_term_apply | user_mutation
| archive_transition | projection_sync_operation | vector_sync_operation | graph_enrichment
| deletion | ledger_mutation.

#[global] Instance operation_type_eq_dec : EqDecision MemoryOperationType.
Proof. solve_decision. Defined.

Definition operation_type_value (t : MemoryOperationType) : string :=
  match t with
  | source_candidate => "source_candidate" | source_replacement => "source_replacement"
  | synthesis => "synthesis" | long_term_apply => "long_term_apply"
  | user_mutation => "user_mutation" | archive_transition => "archive_transition"
  | projection_sync_operation => "projection_sync" | vector_sync_operation => "vector_sync"
  | graph_enrichment => "graph_enrichment" | deletion => "deletion"
  | ledger_mutation => "ledger_mutation"
  end.

Inductive MemoryOperationStatus :=
| pending | committed | skipped_idempotent | retryable_failure | permanent_failure | stale_generation.

#[global] Instance operation_status_eq_dec : EqDecision MemoryOperationStatus.
Proof. solve_decision. Defined.

Definition _TERMINAL_STATUSES : list MemoryOperationStatus :=
  [committed; skipped_idempotent; permanent_failure; stale_generation].

(** ** Logical payloads *)
Record OperationLogicalPayload := LogicalPayload {
  lp_decision : string;
  lp_memory_text : option string;
  lp_target_memory_id : option string;
  lp_result_status : option string;
  lp_supersedes : list string;
  lp_subject_entity_id : option string;
  lp_predicate : option string;
  lp_arguments : dict;
  lp_target_tier : option string;
  lp_target_visibility : option string;
  lp_target_user_asserted : option bool;
  lp_clear_graph_assertion : option bool;
  lp_mutation_metadata : option dict;
  lp_metadata : dict
}.

Definition opt_bool (o : option bool) : value := from_option VBool VNone o.
Definition opt_dict (o : option dict) : value := from_option VDict VNone o.
Definition str_list (l : list string) : value := VList (VStr <$> l).

(** [self.model_dump(exclude_none=True)] *)
Definition canonical (p : OperationLogicalPayload) : dict :=
  filter (fun kv => negb (is_none kv.2))
    [("decision", VStr (lp_decision p)); ("memory_text", opt_str (lp_memory_text p));
     ("target_memory_id", opt_str (lp_target_memory_id p));
     ("result_status", opt_str (lp_result_status p)); ("supersedes", str_list (lp_supersedes p));
     ("subject_entity_id", opt_str (lp_subject_entity_id p)); ("predicate", opt_str (lp_predicate p));
     ("arguments", VDict (lp_arguments p)); ("target_tier", opt_str (lp_target_tier p));
     ("target_visibility", opt_str (lp_target_visibility p));
     ("target_user_asserted", opt_bool (lp_target_user_asserted p));
     ("clear_graph_assertion", opt_bool (lp_clear_graph_assertion p));
     ("mutation_metadata", opt_dict (lp_mutation_metadata p)); ("metadata", VDict (lp_metadata p))].

(** Readers of a field of a given type; pydantic's conversions of other types
    to [bool] are not described. *)
Definition read_opt_str (v : value) : res (option string) :=
  match v with VNone => Ok None | VStr s => Ok (Some s) | _ => Raise ValueError end.

Definition read_opt_bool (v : value) : res (option bool) :=
  match v with VNone => Ok None | VBool b => Ok (Some b) | _ => Raise Unmodelled end.

Fixpoint read_strs (l : list value) : res (list string) :=
  match l with
  | [] => Ok []
  | VStr s :: l' => ss ← read_strs l'; Ok (s :: ss)
  | _ => Raise ValueError
  end.

Definition known_payload_keys : list string :=
  ["decision"; "memory_text"; "target_memory_id"; "result_status"; "supersedes";
   "subject_entity_id"; "predicate"; "arguments"; "target_tier"; "target_visibility";
   "target_user_asserted"; "clear_graph_assertion"; "mutation_metadata"].

Definition _coerce_logical_payload (d : dict) : res OperationLogicalPayload :=
  decision ← match dict_get "decision" d with VStr s => Ok s | _ => Raise ValueError end;
  memory_text ← read_opt_str (dict_get "memory_text" d);
  target_memory_id ← read_opt_str (dict_get "target_memory_id" d);
  result_status ← read_opt_str (dict_get "result_status" d);
  supersedes ← match dict_lookup "supersedes" d with
               | None => Ok [] | Some (VList l) => read_strs l | _ => Raise ValueError end;
  subject_entity_id ← read_opt_str (dict_get "subject_entity_id" d);
  predicate ← read_opt_str (dict_get "predicate" d);
  arguments ← match dict_lookup "arguments" d with
              | None => Ok [] | Some (VDict a) => Ok a | _ => Raise ValueError end;
  target_tier ← read_opt_str (dict_get "target_tier" d);
  target_visibility ← read_opt_str (dict_get "target_visibility" d);
  target_user_asserted ← read_opt_bool (dict_get "target_user_asserted" d);
  clear_graph_assertion ← read_opt_bool (dict_get "clear_graph_assertion" d);
  mutation_metadata ← match dict_get "mutation_metadata" d with
                      | VNone => Ok None | VDict m => Ok (Some m) | _ => Raise ValueError end;
  Ok (LogicalPayload decision memory_text target_memory_id result_status supersedes
        subject_entity_id predicate arguments target_tier target_visibility
        target_user_asserted clear_graph_assertion mutation_metadata
        (filter (fun kv => kv.1 ∉ known_payload_keys) d)).

(** ** Identity *)
Definition str_le (a b : string) : Prop := String.leb a b = true.
#[global] Instance str_le_dec : RelDecision str_le.
Proof. intros a b. unfold str_le. apply _. Defined.
#[global] Instance str_le_trans : Transitive str_le.
Proof. intros a b c. apply string_leb_trans. Qed.
#[global] Instance str_le_total : Total str_le.
Proof. intros a b. unfold str_le. destruct (String.leb_total a b); auto. Qed.

(** [sorted(l)] on strings. *)
Definition sorted_strs (l : list string) : list string := merge_sort str_le l.

Lemma sorted_strs_perm l1 l2 : l1 ≡ₚ l2 -> sorted_strs l1 = sorted_strs l2.
Proof.
  intros Hp. apply (sorted_unique str_le); unfold sorted_strs.
  - apply StronglySorted_merge_sort; apply _.
  - apply StronglySorted_merge_sort; apply _.
  - by rewrite !merge_sort_Permutation.
  - intros x y _ _. apply String.leb_antisym.
Qed.

Section Operations.
Context {T : TextEnv}.

(** [observed_head_commit_id] and [output_index] are ignored. *)
Definition build_operation_id (uid : string) (operation_type : MemoryOperationType)
    (source_packet_id target_memory_id : option string) (evidence_ids : list string)
    (logical_payload : OperationLogicalPayload) (account_generation source_generation : Z)
    (observed_head_commit_id : option string) (output_index : option Z) : string :=
  "op_" +:+ contract_prefix 32 "memory-operation"
    [("uid", VStr uid); ("operation_type", VStr (operation_type_value operation_type));
     ("source_packet_id", opt_str source_packet_id); ("target_memory_id", opt_str target_memory_id);
     ("evidence_ids", str_list (sorted_strs evidence_ids));
     ("logical_payload", VDict (canonical logical_payload));
     ("account_generation", VInt account_generation); ("source_generation", VInt source_generation)].

Definition payload_digest (p : OperationLogicalPayload) : string :=
  deterministic_contract_id "memory-operation-logical-payload" (canonical p).

Definition logical_payload_digest (d : dict) : res string :=
  p ← _coerce_logical_payload d; Ok (payload_digest p).

(** ** The journal record *)
Record MemoryOperation := Operation {
  operation_id : string;
  op_uid : string;
  operation_type : MemoryOperationType;
  op_status : MemoryOperationStatus;
  source_packet_id : option string;
  target_memory_id : option string;
  evidence_ids : list string;
  logical_payload : OperationLogicalPayload;
  op_logical_payload_digest : string;
  op_account_generation : Z;
  op_source_generation : Z;
  observed_head_commit_id : option string;
  committed_head_commit_id : option string;
  committed_sequence : option Z;
  committed_memory_item_ids : list string;
  committed_outbox_event_ids : list string;
  attempt_count : Z;
  error_code : option string;
  untrusted_proposed_operation_id : option string;
  created_at : Z;
  updated_at : Z
}.

Definition nonblank (s : string) : bool := negb (bool_decide (strip s = "")).
Definition optional_nonblank (o : option string) : bool := from_option nonblank true o.
Definition given (o : option string) : bool := from_option (fun s => negb (bool_decide (s = ""))) false o.

Definition expected_operation_id (m : MemoryOperation) : string :=
  build_operation_id (op_uid m) (operation_type m) (source_packet_id m) (target_memory_id m)
    (evidence_ids m) (logical_payload m) (op_account_generation m) (op_source_generation m)
    (observed_head_commit_id m) None.

(** The validators of [MemoryOperation]; timestamps are aware instants. *)
Definition valid_operation (m : MemoryOperation) : bool :=
  nonblank (operation_id m) && nonblank (op_uid m)
  && optional_nonblank (committed_head_commit_id m) && optional_nonblank (error_code m)
  && (0 <=? op_account_generation m) && (0 <=? op_source_generation m) && (0 <=? attempt_count m)
  && from_option (fun n => 0 <=? n) true (committed_sequence m)
  && (created_at m <=? updated_at m)
  && bool_decide (operation_id m = expected_operation_id m)
  && bool_decide (op_logical_payload_digest m = payload_digest (logical_payload m))
  && (if decide (op_status m = committed)
      then given (committed_head_commit_id m) && bool_decide (committed_sequence m <> None) else true)
  && (if decide (op_status m = retryable_failure \/ op_status m = permanent_failure)
      then given (error_code m) else true).

Definition memory_operation (m : MemoryOperation) : res MemoryOperation :=
  if valid_operation m then Ok m else Raise ValueError.

(** [MemoryOperation.new] *)
Definition new (uid : string) (t : MemoryOperationType) (packet target : option string)
    (evidence : list string) (payload : OperationLogicalPayload) (account source : Z)
    (observed proposed : option string) (now : Z) : res MemoryOperation :=
  memory_operation
    (Operation (build_operation_id uid t packet target evidence payload account source observed None)
       uid t pending packet target evidence payload (payload_digest payload) account source
       observed None None [] [] 0 None
       (if given proposed then proposed else None) now now).

(** ** Transitions

    What a transition may change of a record; the rest is its identity. *)
Record operation_update := Update {
  up_status : MemoryOperationStatus;
  up_observed : option string;
  up_head : option string;
  up_sequence : option Z;
  up_items : list string;
  up_events : list string;
  up_attempts : Z;
  up_error : option string;
  up_updated_at : Z
}.

Definition same_update (m : MemoryOperation) (status : MemoryOperationStatus) (now : Z) : operation_update :=
  Update status (observed_head_commit_id m) (committed_head_commit_id m) (committed_sequence m)
    (committed_memory_item_ids m) (committed_outbox_event_ids m) (attempt_count m) (error_code m) now.

Definition apply_update (m : MemoryOperation) (u : operation_update) : MemoryOperation :=
  Operation (operation_id m) (op_uid m) (operation_type m) (up_status u) (source_packet_id m)
    (target_memory_id m) (evidence_ids m) (logical_payload m) (op_logical_payload_digest m)
    (op_account_generation m) (op_source_generation m) (up_observed u) (up_head u) (up_sequence u)
    (up_items u) (up_events u) (up_attempts u) (up_error u) (untrusted_proposed_operation_id m)
    (created_at m) (up_updated_at u).

Definition is_terminal_status (st : MemoryOperationStatus) : bool := bool_decide (st ∈ _TERMINAL_STATUSES).

Definition _transition (m : MemoryOperation) (u : operation_update) : res MemoryOperation :=
  if is_terminal_status (op_status m) then Raise ValueError else memory_operation (apply_update m u).

Definition mark_retryable (m : MemoryOperation) (code : string) (now : Z) : res MemoryOperation :=
  _transition m
    (Update retryable_failure (observed_head_commit_id m) (committed_head_commit_id m)
       (committed_sequence m) (committed_memory_item_ids m) (committed_outbox_event_ids m)
       (attempt_count m + 1) (Some code) now).

Definition mark_committed (m : MemoryOperation) (head : string) (sequence : Z)
    (items events : list string) (now : Z) : res MemoryOperation :=
  _transition m
    (Update committed (observed_head_commit_id m) (Some head) (Some sequence) items events
       (attempt_count m) None now).

Definition is_stale (m : MemoryOperation) (account source : Z) : bool :=
  negb (account =? op_account_generation m) || negb (source =? op_source_generation m).
End Operations.
