(* ===== verification/MemoryModels.v ===== *)
(** * Memory items, evidence and patches
    (backend/models/memory_domain.py, product_memory.py, memory_evidence.py,
    memory_admission.py, the patch of memory_contracts.py, and the lifecycle
    policy of backend/utils/memory/short_term_lifecycle.py)

    The backend copies and merges these models field by field
    ([model_copy(update=...)], [model_dump()]), so a model is the document of its
    fields and a constructor is the model's validators run on that document.
    [read_model] is pydantic's reading of the declared field types and defaults;
    the validators the source adds to it are defined here. *)

From S2P Require Import Prelude PyValue Sha256 Firestore MemoryText MemoryOperations.
From Stdlib Require Import QArith_base Ascii.
From stdpp Require Import sorting.
Local Open Scope Z_scope.

Class ModelEnv := { read_model : string -> fields -> res fields }.

(** ** Domain vocabulary *)
Inductive MemoryLayer := SHORT_TERM | LONG_TERM | ARCHIVE.
Inductive MemoryRecordStatus := ACTIVE | SUPERSEDED | TOMBSTONED.
Inductive MemoryProcessingState := PENDING | PROCESSED | BLOCKED.

Definition memory_layer (v : value) : res MemoryLayer :=
  if v_is v "short_term" then Ok SHORT_TERM else if v_is v "long_term" then Ok LONG_TERM
  else if v_is v "archive" then Ok ARCHIVE else Raise ValueError.

Definition physical_status_to_record_status (v : value) : res MemoryRecordStatus :=
  if v_is v "active" then Ok ACTIVE else if v_is v "superseded" then Ok SUPERSEDED
  else if v_in v ["tombstoned"; "hidden"] then Ok TOMBSTONED else Raise ValueError.

Definition memory_processing_state (v : value) : res MemoryProcessingState :=
  if v_is v "pending" then Ok PENDING else if v_is v "processed" then Ok PROCESSED
  else if v_is v "blocked" then Ok BLOCKED else Raise ValueError.

Definition is_legal_state_combination (l : MemoryLayer) (st : MemoryRecordStatus)
    (p : MemoryProcessingState) : bool :=
  match l with
  | SHORT_TERM => true
  | LONG_TERM => match p with PROCESSED => true | _ => false end
  | ARCHIVE => match st, p with SUPERSEDED, _ => false | _, PROCESSED => true | _, _ => false end
  end.

(** [assert_legal_state] of the values a record stores. *)
Definition assert_legal_state (tier status processing : value) : res unit :=
  l ← memory_layer tier; st ← physical_status_to_record_status status;
  p ← memory_processing_state processing;
  if is_legal_state_combination l st p then Ok tt else Raise ValueError.

(** ** Fields *)
Abbreviation item := fields (only parsing).
Abbreviation patch := fields (only parsing).

(** A field whose value the record's methods read as text or number. *)
Definition field_str (d : fields) (k : string) : res string :=
  match doc_get d k with VStr s => Ok s | _ => Raise TypeError end.
Definition field_time (d : fields) (k : string) : res Z :=
  match doc_get d k with VTime true t => Ok t | _ => Raise TypeError end.
Definition field_int (d : fields) (k : string) : res Z :=
  match doc_get d k with VInt z => Ok z | _ => Raise TypeError end.
Definition field_list (d : fields) (k : string) : res (list value) :=
  match doc_get d k with VList l => Ok l | _ => Raise TypeError end.

(** An optional text or mapping, empty when it is absent. *)
Definition text_or (d : fields) (k : string) : string :=
  match doc_get d k with VStr s => s | _ => "" end.
Definition dict_or (d : fields) (k : string) : dict :=
  match doc_get d k with VDict m => m | _ => [] end.

(** A member of a model that is itself a model. *)
Definition member (v : value) (k : string) : value :=
  match v with VDict d => dict_get k d | _ => VNone end.

Definition evidence_of (d : fields) : list value :=
  match doc_get d "evidence" with VList l => l | _ => [] end.
Definition evidence_id (e : value) : value := member e "evidence_id".
Definition source_state (e : value) : value := member e "source_state".

(** [model_copy(update=u)] *)
Definition model_copy (d : fields) (u : dict) : fields := list_to_map (rev u) ∪ d.

Definition RESTRICTED_SENSITIVITY_LABELS : list string :=
  ["credential"; "secret"; "financial"; "health"; "intimate"; "minor"; "minors";
   "workplace_confidential"; "identity_authentication"].

Definition labels_of (d : fields) : list value :=
  match doc_get d "sensitivity_labels" with VList l => l | _ => [] end.

Definition _has_restricted_sensitivity (d : fields) : bool :=
  existsb (fun v => v_in v RESTRICTED_SENSITIVITY_LABELS) (labels_of d).

Definition KNOWLEDGE_LEDGER : string := "knowledge_ledger.v1".
Definition MAX_LEDGER_CONTENT_CHARACTERS : Z := 4000.
Definition MAX_LEDGER_PLAYBOOK_BODY_CHARACTERS : Z := 24000.
Definition MAX_LEDGER_SLOT_CHARACTERS : Z := 64.
Definition MAX_LEDGER_TRIGGER_CONDITION_KEYS : Z := 13.
Definition MAX_LEDGER_TRIGGER_CONDITION_CHARACTERS : Z := 8000.

Definition blank (s : string) : bool := negb (nonblank s).

Definition DEFAULT_SHORT_TERM_TTL : Z := seconds (48 * 3600).

(** [captured_at] is an aware instant. *)
Definition default_short_term_expiry (captured_at : Z) : res Z := dt_add captured_at DEFAULT_SHORT_TERM_TTL.

Section Models.
Context {T : TextEnv} {Md : ModelEnv}.

(** ** Items *)
Definition normalized_memory_content_key (content : value) : value :=
  match content with
  | VStr s =>
      let normalized := String.concat " " (words (casefold (nfkc s))) in
      if decide (normalized = "") then VNone else VStr (hexdigest (sha256 (encode normalized)))
  | _ => VNone
  end.

(** A set of texts as a sorted list. *)
Definition sorted_set (l : list string) : list string := sorted_strs (remove_dups l).

(** [sorted({f(x) for x in l if x and x.strip()})] *)
Definition normalize_labels (l : list value) : list value :=
  VStr <$> sorted_set
    (omap (fun v => match v with VStr s => if nonblank s then Some (lower (strip s)) else None | _ => None end) l).

Definition normalize_slot (v : value) : value :=
  match v with
  | VStr s =>
      let n := String.concat "_" (words (replace_char "-" "_" (lower (strip s)))) in
      if decide (n = "") then VNone else VStr n
  | _ => VNone
  end.

(** The limits on knowledge-ledger rows that items and patches share. *)
Definition ledger_limits (d : fields) (content : string) : bool :=
  let kind := doc_get d "kind" in
  (py_len content <=? MAX_LEDGER_CONTENT_CHARACTERS)
  && (py_len (text_or d "slot") <=? MAX_LEDGER_SLOT_CHARACTERS)
  && (if v_is kind "document"
      then nonblank (text_or d "body")
           && (py_len (text_or d "body") <=? MAX_LEDGER_PLAYBOOK_BODY_CHARACTERS)
      else is_none (doc_get d "body"))
  && (Z.of_nat (length (dict_or d "trigger_condition")) <=? MAX_LEDGER_TRIGGER_CONDITION_KEYS)
  && negb (is_none (doc_get d "write_reason")
           || negb (truthy (doc_get d "intent_backed"))
              && negb (v_is (doc_get d "write_reason") "legacy_migration")).

Definition kind_fields (d : fields) : bool :=
  let kind := doc_get d "kind" in
  negb (negb (v_is kind "fact") && negb (is_none (doc_get d "slot")))
  && negb (v_is kind "trigger" && negb (truthy (doc_get d "trigger_condition")))
  && negb (negb (v_is kind "trigger") && truthy (doc_get d "trigger_condition")).

(** [json.dumps] without [default] refuses a datetime. *)
Definition trigger_size (d : fields) : bool :=
  let condition := VDict (dict_or d "trigger_condition") in
  json_plain condition && (py_len (json_text condition) <=? MAX_LEDGER_TRIGGER_CONDITION_CHARACTERS).

Definition time_field (d : fields) (k : string) : bool :=
  match doc_get d k with VNone | VTime true _ => true | _ => false end.

(** The lower bound of a row's validity. *)
Definition valid_since (d : fields) : value := py_or (doc_get d "valid_from") (doc_get d "captured_at").

Definition time_lt (a b : value) : bool :=
  match a, b with VTime true x, VTime true y => x <? y | _, _ => false end.

Definition active_long_term (d : fields) : bool :=
  v_is (doc_get d "tier") "long_term" && v_is (doc_get d "status") "active".

(** The field validators of [MemoryItem] and [validate_tier_invariants]. *)
Definition valid_item (d : fields) : bool :=
  nonblank (text_or d "memory_id") && nonblank (text_or d "uid") && nonblank (text_or d "visibility")
  && match doc_get d "version" with VInt n => 1 <=? n | _ => false end
  && forallb (time_field d) ["captured_at"; "updated_at"; "expires_at"; "valid_from"; "valid_to"]
  && match doc_get d "curation_weight" with VInt w => (-100 <=? w) && (w <=? 100) | _ => false end
  && trigger_size d
  && negb (time_lt (doc_get d "updated_at") (doc_get d "captured_at"))
  && negb (v_is (doc_get d "status") "active" && blank (text_or d "content"))
  && (if v_is (doc_get d "tier") "short_term"
      then time_lt (doc_get d "captured_at") (doc_get d "expires_at") else true)
  && (if active_long_term d
      then truthy (doc_get d "ledger_commit_id") && negb (is_none (doc_get d "ledger_sequence"))
           && v_is (doc_get d "processing_state") "processed"
           && (is_none (dict_get "admission_receipt" (dict_or d "promotion"))
               || truthy (doc_get d "graph_ready") && truthy (doc_get d "graph_assertion_id")
                  && truthy (doc_get d "graph_plan_hash"))
      else true)
  && (if v_is (doc_get d "source_state") "active" && negb (truthy (doc_get d "user_asserted"))
      then existsb (fun e => v_is (source_state e) "active") (evidence_of d) else true)
  && negb (time_lt (doc_get d "valid_to") (valid_since d))
  && kind_fields d
  && (if v_is (doc_get d "ledger_schema_version") KNOWLEDGE_LEDGER
      then ledger_limits d (text_or d "content") else true).

(** The constructor of [MemoryItem]. *)
Definition memory_item (raw : fields) : res item :=
  d ← read_model "MemoryItem" raw;
  let d := model_copy d
    [("sensitivity_labels", VList (normalize_labels (labels_of d)));
     ("slot", normalize_slot (doc_get d "slot"));
     ("normalized_content_key", normalized_memory_content_key (doc_get d "content"))] in
  if valid_item d then Ok d else Raise ValueError.

(** ** Evidence *)
Definition valid_evidence (e : dict) : bool :=
  let text k := match dict_get k e with VStr s => s | _ => "" end in
  let optional k := match dict_get k e with VStr s => nonblank s | _ => true end in
  nonblank (text "evidence_id") && nonblank (text "source_type")
  && forallb optional ["source_id"; "source_version"; "conversation_id"; "content_hash"; "lineage_id";
                       "client_device_id"]
  && (if v_is (dict_get "source_state" e) "active"
      then truthy (dict_get "source_id" e) && truthy (dict_get "source_version" e) else true)
  && (if v_in (dict_get "source_state" e) ["missing"; "tombstoned"; "purged"]
      then truthy (dict_get "source_state_reason" e) else true)
  && negb (truthy (dict_get "conversation_id" e) && v_is (dict_get "source_type" e) "conversation"
           && truthy (dict_get "source_id" e)
           && negb (py_eq (dict_get "conversation_id" e) (dict_get "source_id" e)))
  && match dict_get "artifact_refs" e with
     | VList l => forallb (fun a => py_eq (member a "preservation") (dict_get "artifact_preservation" e)) l
     | _ => true
     end.

(** The evidence record a patch without evidence falls back on. *)
Definition unknown_evidence (id : value) : res value :=
  id ← match id with VStr s => Ok s | _ => Raise ValueError end;
  let e := [("evidence_id", VStr id); ("source_type", VStr "unknown");
            ("source_id", VStr ("source_for_" +:+ id)); ("source_version", VStr "unknown");
            ("artifact_preservation", VStr "preserved"); ("source_state", VStr "active")] in
  if valid_evidence e then Ok (VDict e) else Raise ValueError.

(** ** Patches *)
(** [validate_target_visibility] and [validate_decision_contract]. *)
Definition valid_patch (d : fields) : bool :=
  let decision := doc_get d "decision" in
  let ledger := v_is (doc_get d "ledger_schema_version") KNOWLEDGE_LEDGER in
  (is_none (doc_get d "target_visibility") || v_in (doc_get d "target_visibility") ["private"; "public"; "shared"])
  && negb (v_is (doc_get d "initial_tier") "long_term" && negb ledger)
  && negb (v_in decision ["merge"; "update"; "add_evidence"; "skip_duplicate"]
           && negb (truthy (doc_get d "target_memory_id")))
  && negb (v_is decision "add" && negb (truthy (doc_get d "memory_text"))
           && negb (truthy (doc_get d "new_memory_id")))
  && negb (v_in (doc_get d "result_status") ["active"; "review"]
           && negb (truthy (doc_get d "evidence_ids")) && negb (truthy (doc_get d "evidence_refs")))
  && (if ledger
      then negb (v_is decision "add" && negb (v_is (doc_get d "initial_tier") "long_term"))
           && negb (v_is decision "update" && negb (is_none (doc_get d "target_tier"))
                    && negb (v_is (doc_get d "target_tier") "long_term"))
           && ledger_limits d (text_or d "memory_text") && kind_fields d
           && trigger_size d
      else true).

(** The constructor of [DurableMemoryPatch]. *)
Definition durable_memory_patch (raw : fields) : res patch :=
  d ← read_model "DurableMemoryPatch" raw;
  if valid_patch d then Ok d else Raise ValueError.

(** ** The receipt of required processing (models/memory_admission.py) *)
Definition REQUIRED_PROCESSING_RECEIPT_VERSION : string := "canonical_memory_processing_receipt.v1".
Definition REQUIRED_PROCESSOR_ID : string := "canonical_required_memory".
Definition REQUIRED_PROCESSOR_VERSION : string := "v1".

Definition int_value (v : value) : option Z :=
  match v with VInt z => Some z | VBool b => Some (if b then 1 else 0) | _ => None end.

Definition valid_required_processing_receipt (content : string) (item_revision : Z) (promotion : dict) : bool :=
  match dict_get "processing_receipt" promotion, dict_get "submission" promotion with
  | VDict receipt, VDict submission =>
      v_is (dict_get "receipt_version" receipt) REQUIRED_PROCESSING_RECEIPT_VERSION
      && v_is (dict_get "processor_id" receipt) REQUIRED_PROCESSOR_ID
      && v_is (dict_get "processor_version" receipt) REQUIRED_PROCESSOR_VERSION
      && v_is (dict_get "processor_id" promotion) REQUIRED_PROCESSOR_ID
      && v_is (dict_get "processor_version" promotion) REQUIRED_PROCESSOR_VERSION
      && v_is (dict_get "decision" receipt) "durable_required"
      && truthy (dict_get "submission_id" submission)
      && py_eq (dict_get "source_submission_id" receipt) (dict_get "submission_id" submission)
      && py_eq (dict_get "input_hash" receipt) (dict_get "content_hash" submission)
      && v_is (dict_get "output_hash" receipt) (hexdigest (sha256 (encode content)))
      && match int_value (dict_get "input_item_revision" receipt),
               int_value (dict_get "output_item_revision" receipt) with
         | Some i, Some o => (i + 1 =? o) && (o <=? item_revision)
         | _, _ => false
         end
  | _, _ => false
  end.
End Models.
