(* ===== verification/MemoryAccess.v ===== *)
(** * Who may read a memory
    (the access policy of backend/models/product_memory.py,
    backend/utils/memory/short_term_lifecycle.py,
    backend/database/product_memory_items.py and
    backend/utils/memory/canonical_visibility_filter.py)

    The base policy on one item, the lifecycle evaluation of a short-term item,
    the filter of a default read that combines them, and the canonical filter
    that reads run last.  Every instant is aware; metrics are left out. *)

From S2P Require Import Prelude PyValue Sha256 Firestore MemoryText MemoryOperations MemoryModels.
From Stdlib Require Import QArith_base Ascii.
From stdpp Require Import sorting.
Local Open Scope Z_scope.

(** ** The access policy *)
Inductive MemoryConsumer :=
| omi_chat | agent | third_party | developer_api | mcp | admin_debug | eval_consumer | unknown.

#[global] Instance memory_consumer_eq_dec : EqDecision MemoryConsumer.
Proof. solve_decision. Defined.

(** [MemoryConsumer(text)] *)
Definition memory_consumer (s : string) : option MemoryConsumer :=
  if decide (s = "omi_chat") then Some omi_chat else if decide (s = "agent") then Some agent
  else if decide (s = "third_party") then Some third_party
  else if decide (s = "developer_api") then Some developer_api
  else if decide (s = "mcp") then Some mcp else if decide (s = "admin_debug") then Some admin_debug
  else if decide (s = "eval") then Some eval_consumer
  else if decide (s = "unknown") then Some unknown else None.

Record AccessDecision := Access { access_allowed : bool; access_reason : string }.

Record MemoryAccessPolicy := AccessPolicy {
  consumer : MemoryConsumer;
  app_has_default_memory_grant : bool;
  archive_capability : bool;
  raw_provenance_capability : bool
}.

Definition for_omi_chat (archive : bool) : MemoryAccessPolicy := AccessPolicy omi_chat true archive false.
Definition for_third_party (grant archive : bool) : MemoryAccessPolicy :=
  AccessPolicy third_party grant archive false.

Definition _coerce_aware_utc (v : value) : res Z :=
  match v with VTime true t => Ok t | VTime false _ => Raise ValueError | _ => Raise AttributeError end.

Definition effective_short_term_expiry (d : item) : res Z :=
  captured ← _coerce_aware_utc (doc_get d "captured_at");
  policy_expiry ← default_short_term_expiry captured;
  stored ← (if is_none (doc_get d "expires_at") then Ok policy_expiry
            else _coerce_aware_utc (doc_get d "expires_at"));
  Ok (Z.min stored policy_expiry).

(** A source that is gone. *)
Definition source_gone (d : item) : bool := v_in (doc_get d "source_state") ["tombstoned"; "purged"].

(** The visibilities a row may have. *)
Definition visibilities : list string := ["private"; "public"; "shared"].

Definition _base_policy_checks (d : item) (policy : MemoryAccessPolicy) : option AccessDecision :=
  if negb (v_is (doc_get d "status") "active") then Some (Access false "not_active")
  else if v_is (doc_get d "processing_state") "blocked" then Some (Access false "processing_blocked")
  else if source_gone d then Some (Access false "source_not_active")
  else if bool_decide (consumer policy = unknown) then Some (Access false "unknown_consumer")
  else if _has_restricted_sensitivity d then Some (Access false "restricted_sensitivity")
  else if negb (v_in (doc_get d "visibility") visibilities) then Some (Access false "unknown_visibility")
  else None.

(** The consumers that need the user's grant. *)
Definition needs_grant (c : MemoryConsumer) : bool :=
  match c with third_party | developer_api | mcp => true | _ => false end.

Definition is_default_access_eligible (d : item) (policy : MemoryAccessPolicy) (now : Z) : res AccessDecision :=
  match _base_policy_checks d policy with
  | Some base => Ok base
  | None =>
      if v_is (doc_get d "tier") "archive" then Ok (Access false "archive_requires_explicit_query")
      else if needs_grant (consumer policy) && negb (app_has_default_memory_grant policy)
      then Ok (Access false "missing_default_memory_grant")
      else
        expired ← (if v_is (doc_get d "tier") "short_term"
                   then expiry ← effective_short_term_expiry d; Ok (expiry <=? now) else Ok false);
        if expired : bool then Ok (Access true "short_term_expired_pending_adjudication")
        else if v_in (doc_get d "tier") ["short_term"; "long_term"] then Ok (Access true "default_memory_allowed")
        else Ok (Access false "unsupported_tier")
  end.

Definition is_archive_access_eligible (d : item) (policy : MemoryAccessPolicy) : AccessDecision :=
  match _base_policy_checks d policy with
  | Some base => base
  | None =>
      if negb (v_is (doc_get d "tier") "archive") then Access false "not_archive"
      else if negb (archive_capability policy) then Access false "missing_archive_capability"
      else Access true "archive_explicit_allowed"
  end.

Definition derived_default_access_allowed (d : item) (consumer_name : string) (now : Z) : res bool :=
  let policy := match memory_consumer consumer_name with
                | Some c => AccessPolicy c true false false
                | None => AccessPolicy unknown false false false
                end in
  a ← is_default_access_eligible d policy now; Ok (access_allowed a).

(** ** The short-term lifecycle *)
Definition SHORT_TERM_LIFECYCLE_POLICY_VERSION : string := "short_term_lifecycle.v1".

Inductive ShortTermLifecycleOutcome :=
| remain_short_term | promote_to_long_term | archive | reject_or_hide | source_tombstoned.

#[global] Instance lifecycle_outcome_eq_dec : EqDecision ShortTermLifecycleOutcome.
Proof. solve_decision. Defined.

Inductive ShortTermDisposition := DPromote | DArchive | DReject.

#[global] Instance disposition_eq_dec : EqDecision ShortTermDisposition.
Proof. solve_decision. Defined.

Definition outcome_value (o : ShortTermLifecycleOutcome) : string :=
  match o with
  | remain_short_term => "remain_short_term" | promote_to_long_term => "promote_to_long_term"
  | archive => "archive" | reject_or_hide => "reject_or_hide" | source_tombstoned => "source_tombstoned"
  end.

(** [ShortTermLifecycleOutcome(disposition.value)] *)
Definition disposed (d : ShortTermDisposition) : ShortTermLifecycleOutcome :=
  match d with DPromote => promote_to_long_term | DArchive => archive | DReject => reject_or_hide end.

Definition disposition_value (d : ShortTermDisposition) : string := outcome_value (disposed d).

Record ShortTermLifecycleDecision := LifecycleDecision {
  outcome : ShortTermLifecycleOutcome;
  default_access_allowed : bool;
  requires_lifecycle_decision : bool;
  audit_metadata : dict
}.

Section Access.
Context {T : TextEnv}.

Definition _audit_metadata (d : item) (now : Z) (decision_reason : string) (expiry_at : Z)
    (disposition : option ShortTermDisposition) : res dict :=
  captured ← _coerce_aware_utc (doc_get d "captured_at");
  Ok [("policy_version", VStr SHORT_TERM_LIFECYCLE_POLICY_VERSION); ("memory_id", doc_get d "memory_id");
      ("uid", doc_get d "uid"); ("item_revision", doc_get d "item_revision");
      ("content_hash", doc_get d "content_hash"); ("tier", doc_get d "tier"); ("status", doc_get d "status");
      ("processing_state", doc_get d "processing_state"); ("source_state", doc_get d "source_state");
      ("captured_at", VStr (isoformat true captured)); ("expires_at", VStr (isoformat true expiry_at));
      ("evaluated_at", VStr (isoformat true now));
      ("disposition", opt_str (disposition_value <$> disposition));
      ("decision_reason", VStr decision_reason)].

Definition _decision (d : item) (now expiry_at : Z) (o : ShortTermLifecycleOutcome) (allowed requires : bool)
    (decision_reason : string) (disposition : option ShortTermDisposition) : res ShortTermLifecycleDecision :=
  audit ← _audit_metadata d now decision_reason expiry_at disposition;
  Ok (LifecycleDecision o allowed requires audit).

Definition evaluate_short_term_lifecycle (d : item) (now : Z) (disposition : option ShortTermDisposition)
    : res ShortTermLifecycleDecision :=
  if negb (v_is (doc_get d "tier") "short_term") then Raise ValueError
  else
    expiry_at ← effective_short_term_expiry d;
    if source_gone d
    then _decision d now expiry_at source_tombstoned false false "source_tombstoned" disposition
    else if negb (v_is (doc_get d "status") "active")
    then _decision d now expiry_at reject_or_hide false false "short_term_not_active" disposition
    else if v_is (doc_get d "processing_state") "processed" then
      match disposition with
      | Some x => _decision d now expiry_at (disposed x) false false ("l2_processed_" +:+ disposition_value x) disposition
      | None => _decision d now expiry_at remain_short_term false true
                  "short_term_l2_processed_requires_explicit_lifecycle_disposition" disposition
      end
    else if expiry_at <=? now
    then _decision d now expiry_at remain_short_term false true
           "short_term_expired_requires_lifecycle_decision" disposition
    else _decision d now expiry_at remain_short_term true false "short_term_fresh" disposition.

(** ** Default reads *)
Record ProductMemoryItemDecision := ItemDecision {
  allowed : bool;
  reason : string;
  access_reason_of : string;
  lifecycle_reason : option string
}.

Definition _decision_from_access (a : AccessDecision) : ProductMemoryItemDecision :=
  ItemDecision (access_allowed a) (access_reason a) (access_reason a) None.

Definition decision_reason_of (l : ShortTermLifecycleDecision) : string :=
  match dict_get "decision_reason" (audit_metadata l) with VStr s => s | _ => "" end.

Definition _decision_from_lifecycle (a : AccessDecision) (l : ShortTermLifecycleDecision)
    : ProductMemoryItemDecision :=
  let lifecycle := decision_reason_of l in
  if negb (default_access_allowed l) then ItemDecision false lifecycle (access_reason a) (Some lifecycle)
  else ItemDecision (access_allowed a) (access_reason a) (access_reason a) (Some lifecycle).

Record DefaultProductMemoryReadReport := ReadReport {
  visible_items : list item;
  decisions : gmap string ProductMemoryItemDecision;
  lifecycle_audit_metadata : gmap string dict
}.

(** The audit of an evaluated item, with what was decided. *)
Definition report_audit (l : ShortTermLifecycleDecision) : dict :=
  audit_metadata l ++
  [("requires_lifecycle_decision", VBool (requires_lifecycle_decision l));
   ("default_access_allowed", VBool (default_access_allowed l)); ("outcome", VStr (outcome_value (outcome l)))].

Definition decide_item (d : item) (policy : MemoryAccessPolicy) (now : Z)
    : res (ProductMemoryItemDecision * option dict) :=
  access ← is_default_access_eligible d policy now;
  if v_is (doc_get d "tier") "short_term" then
    lifecycle ← evaluate_short_term_lifecycle d now None;
    Ok (_decision_from_lifecycle access lifecycle, Some (report_audit lifecycle))
  else Ok (_decision_from_access access, None).

Definition report_item (report : DefaultProductMemoryReadReport) (d : item) (policy : MemoryAccessPolicy) (now : Z)
    : res DefaultProductMemoryReadReport :=
  '(decision, audit) ← decide_item d policy now;
  let id := text_or d "memory_id" in
  Ok (ReadReport (if allowed decision then visible_items report ++ [d] else visible_items report)
        (<[id := decision]> (decisions report))
        (match audit with Some a => <[id := a]> (lifecycle_audit_metadata report)
         | None => lifecycle_audit_metadata report end)).

Fixpoint report_items (report : DefaultProductMemoryReadReport) (items : list item) (policy : MemoryAccessPolicy)
    (now : Z) : res DefaultProductMemoryReadReport :=
  match items with
  | [] => Ok report
  | d :: items' => report' ← report_item report d policy now; report_items report' items' policy now
  end.

Definition filter_default_product_memory_items (items : list item) (policy : MemoryAccessPolicy) (now : Z)
    : res DefaultProductMemoryReadReport := report_items (ReadReport [] ∅ ∅) items policy now.

(** ** The canonical filter *)
Definition _L2_PROCESSED_REQUIRES_DISPOSITION : string :=
  "short_term_l2_processed_requires_explicit_lifecycle_disposition".

Definition processed_item (d : item) : bool := v_is (doc_get d "processing_state") "processed".

(** An item the lifecycle withheld only until its disposition. *)
Fixpoint readmit (items : list item) (report : DefaultProductMemoryReadReport) (policy : MemoryAccessPolicy)
    (now : Z) (visible : gmap string item) : res (gmap string item) :=
  match items with
  | [] => Ok visible
  | d :: items' =>
      let id := text_or d "memory_id" in
      let withheld :=
        match visible !! id, decisions report !! id with
        | None, Some decision =>
            bool_decide (lifecycle_reason decision = Some _L2_PROCESSED_REQUIRES_DISPOSITION)
            && v_is (doc_get d "tier") "short_term" && v_is (doc_get d "status") "active" && processed_item d
        | _, _ => false
        end in
      if withheld then
        a ← is_default_access_eligible d policy now;
        readmit items' report policy now (if access_allowed a then <[id := d]> visible else visible)
      else readmit items' report policy now visible
  end.

Definition user_rejected (d : item) : bool :=
  bool_decide (dict_get "user_review" (dict_or d "promotion") = VBool false).

Fixpoint drop_rejected (items : list item) (visible : gmap string item) : gmap string item :=
  match items with
  | [] => visible
  | d :: items' => drop_rejected items' (if user_rejected d then delete (text_or d "memory_id") visible else visible)
  end.

(** Newest first, then by identifier; instants before 2242 differ as floats when
    they differ. *)
Definition newest_le (a b : string * item) : Prop :=
  let t d := match doc_get d "updated_at" with VTime _ us => us | _ => 0 end in
  t b.2 < t a.2 \/ (t a.2 = t b.2 /\ String.leb a.1 b.1 = true).
#[global] Instance newest_le_dec : RelDecision newest_le.
Proof. intros a b. unfold newest_le. apply _. Defined.

Definition _log_expiry_disposition_observations (items : list item) (now : Z) : res Z :=
  foldl (fun acc d =>
    n ← acc;
    if v_is (doc_get d "tier") "short_term" && v_is (doc_get d "status") "active" && processed_item d
    then expiry ← effective_short_term_expiry d; Ok (if expiry <=? now then n + 1 else n)
    else Ok n) (Ok 0) items.

Definition filter_canonical_default_visible_items (items : list item) (policy : MemoryAccessPolicy) (now : Z)
    : res (list item) :=
  _ ← _log_expiry_disposition_observations items now;
  report ← filter_default_product_memory_items items policy now;
  let by_id := list_to_map (rev ((fun d => (text_or d "memory_id", d)) <$> List.filter processed_item (visible_items report))) in
  visible ← readmit items report policy now by_id;
  Ok ((merge_sort newest_le (map_to_list (drop_rejected items visible))).*2).
End Access.
