(* ===== verification/MemoryLifecycle.v ===== *)
(** * The short-term lifecycle worker
    (backend/jobs/short_term_lifecycle_worker.py)

    The worker records one audit transition per lifecycle decision that needs
    one, under a deterministic document, and fetches the expired items it
    evaluates.  [run_id] and the creation instant are the run's. *)

From S2P Require Import Prelude PyValue Sha256 Firestore MemoryText MemoryOperations MemoryModels MemoryAccess.
From Stdlib Require Import QArith_base Ascii.
From stdpp Require Import sorting.
Local Open Scope Z_scope.

Definition DEFAULT_SHORT_TERM_MAINTENANCE_SCAN_LIMIT : Z := 250.
Definition MAX_SHORT_TERM_MAINTENANCE_SCAN_LIMIT : Z := 500.

Record ShortTermLifecycleTransitionRecord := TransitionRecord {
  tr_uid : string;
  memory_item_id : string;
  tr_outcome : string;
  tr_reason : string;
  run_id : string;
  evaluated_at : string;
  tr_audit_metadata : dict;
  idempotency_key : string;
  fingerprint : string
}.

Record ShortTermLifecyclePersistResult := PersistResult {
  persisted_record : ShortTermLifecycleTransitionRecord;
  record_created : bool
}.

Record ShortTermLifecycleWorkerReport := WorkerReport {
  created_records : list ShortTermLifecycleTransitionRecord;
  existing_records : list ShortTermLifecycleTransitionRecord;
  skipped_memory_ids : list string
}.

Definition _transition_required (l : ShortTermLifecycleDecision) : bool :=
  negb (bool_decide (outcome l = remain_short_term))
  || requires_lifecycle_decision l || negb (default_access_allowed l).

Definition _source_refs (d : item) : value :=
  VList ((fun e => VDict ((fun k => (k, member e k)) <$>
            ["evidence_id"; "source_id"; "source_type"; "source_version"; "source_state"])) <$> evidence_of d).

Section Lifecycle.
Context {T : TextEnv} {Md : ModelEnv}.

Definition _sha256 (payload : dict) : string := hexdigest (sha256 (encode (json_text (VDict payload)))).

Definition idempotency_payload (d : item) (l : ShortTermLifecycleDecision) : dict :=
  [("policy_version", dict_get "policy_version" (audit_metadata l)); ("uid", doc_get d "uid");
   ("memory_item_id", doc_get d "memory_id"); ("item_revision", doc_get d "item_revision");
   ("content_hash", doc_get d "content_hash"); ("outcome", VStr (outcome_value (outcome l)));
   ("reason", VStr (decision_reason_of l)); ("source_refs", _source_refs d)].

Definition build_short_term_lifecycle_transition_record (d : item) (l : ShortTermLifecycleDecision) (run : string)
    : res ShortTermLifecycleTransitionRecord :=
  if negb (nonblank run) then Raise ValueError
  else
    let audit := audit_metadata l ++
      [("outcome", VStr (outcome_value (outcome l)));
       ("requires_lifecycle_decision", VBool (requires_lifecycle_decision l));
       ("default_access_allowed", VBool (default_access_allowed l)); ("source_refs", _source_refs d)] in
    let key := "short-term-lifecycle:" +:+ text_or d "uid" +:+ ":" +:+ text_or d "memory_id" +:+ ":"
                 +:+ outcome_value (outcome l) +:+ ":" +:+ _sha256 (idempotency_payload d l) in
    Ok (TransitionRecord (text_or d "uid") (text_or d "memory_id") (outcome_value (outcome l))
          (decision_reason_of l) run
          (match dict_get "evaluated_at" (audit_metadata l) with VStr s => s | _ => "" end) audit key
          (_sha256 (idempotency_payload d l ++ [("disposition", dict_get "disposition" (audit_metadata l))]))).

(** ** The store of transitions *)
Definition _stable_transition_id (uid idempotency_key : string) : string :=
  "stl_" +:+ String.substring 0 32 (hexdigest (sha256 (encode (uid +:+ ":" +:+ idempotency_key)))).

Definition _firestore_transition_payload (r : ShortTermLifecycleTransitionRecord) (transition_id : string) (now : Z)
    : fields :=
  list_to_map
    [("transition_id", VStr transition_id); ("uid", VStr (tr_uid r)); ("memory_item_id", VStr (memory_item_id r));
     ("outcome", VStr (tr_outcome r)); ("reason", VStr (tr_reason r)); ("run_id", VStr (run_id r));
     ("evaluated_at", VStr (evaluated_at r)); ("audit_metadata", VDict (tr_audit_metadata r));
     ("source_refs", match dict_get "source_refs" (tr_audit_metadata r) with
                     | VList l => VList l | _ => VList [] end);
     ("idempotency_key", VStr (idempotency_key r)); ("fingerprint", VStr (fingerprint r));
     ("default_access_allowed", VBool (truthy (dict_get "default_access_allowed" (tr_audit_metadata r))));
     ("archive_default_visible", VBool false); ("created_at", VStr (isoformat true now))].

(** [d[k]] of a text field. *)
Definition stored_text (d : fields) (k : string) : res string :=
  match d !! k with Some (VStr s) => Ok s | Some _ => Raise Unmodelled | None => Raise KeyError end.

Definition _record_from_firestore_data (d : fields) : res ShortTermLifecycleTransitionRecord :=
  uid ← stored_text d "uid"; memory_id ← stored_text d "memory_item_id";
  o ← stored_text d "outcome"; why ← stored_text d "reason"; run ← stored_text d "run_id";
  evaluated ← stored_text d "evaluated_at"; key ← stored_text d "idempotency_key";
  print ← stored_text d "fingerprint";
  Ok (TransitionRecord uid memory_id o why run evaluated (dict_or d "audit_metadata") key print).

Definition transition_path (uid transition_id : string) : res path :=
  document_path ("users/" +:+ uid +:+ "/short_term_lifecycle_transitions/" +:+ transition_id).

Definition _persist_short_term_lifecycle_transition_transaction (r : ShortTermLifecycleTransitionRecord) (now : Z)
    : Txn ShortTermLifecyclePersistResult :=
  let transition_id := _stable_transition_id (tr_uid r) (idempotency_key r) in
  transition_ref ← lift (transition_path (tr_uid r) transition_id);
  snapshot ← txn_get transition_ref;
  match snapshot with
  | Some data =>
      if negb (v_is (doc_get data "fingerprint") (fingerprint r)) then lift (Raise ValueError)
      else stored ← lift (_record_from_firestore_data data); mret (PersistResult stored false)
  | None =>
      txn_set transition_ref (_firestore_transition_payload r transition_id now);;
      mret (PersistResult r true)
  end.

Definition persist_short_term_lifecycle_transition (r : ShortTermLifecycleTransitionRecord) (now : Z) (s : db)
    : res (ShortTermLifecyclePersistResult * db) :=
  run_txn (_persist_short_term_lifecycle_transition_transaction r now) s.

(** ** The worker *)
Definition process_short_term_lifecycle_item (d : item) (now : Z) (run : string)
    (disposition : option ShortTermDisposition) (s : db)
    : res (option (ShortTermLifecycleTransitionRecord * bool) * db) :=
  l ← evaluate_short_term_lifecycle d now disposition;
  if negb (_transition_required l) then Ok (None, s)
  else
    r ← build_short_term_lifecycle_transition_record d l run;
    '(result, s') ← persist_short_term_lifecycle_transition r now s;
    Ok (Some (persisted_record result, record_created result), s').

Definition report_transition (report : ShortTermLifecycleWorkerReport) (d : item)
    (o : option (ShortTermLifecycleTransitionRecord * bool)) : ShortTermLifecycleWorkerReport :=
  match o with
  | None => WorkerReport (created_records report) (existing_records report)
              (skipped_memory_ids report ++ [text_or d "memory_id"])
  | Some (r, true) => WorkerReport (created_records report ++ [r]) (existing_records report)
                        (skipped_memory_ids report)
  | Some (r, false) => WorkerReport (created_records report) (existing_records report ++ [r])
                         (skipped_memory_ids report)
  end.

(** An item whose transition raises ends the run; the earlier ones are stored. *)
Fixpoint process_short_term_lifecycle_items (items : list item) (now : Z) (run : string)
    (dispositions : gmap string ShortTermDisposition) (report : ShortTermLifecycleWorkerReport) (s : db)
    : res ShortTermLifecycleWorkerReport * db :=
  match items with
  | [] => (Ok report, s)
  | d :: items' =>
      match process_short_term_lifecycle_item d now run (dispositions !! text_or d "memory_id") s with
      | Raise e => (Raise e, s)
      | Ok (o, s') =>
          process_short_term_lifecycle_items items' now run dispositions (report_transition report d o) s'
      end
  end.

(** ** The expired items of a user *)
Definition _is_expired_short_term_lifecycle_item (d : item) (now : Z) : res bool :=
  if v_is (doc_get d "tier") "short_term" && v_is (doc_get d "status") "active"
     && v_is (doc_get d "processing_state") "processed"
  then expiry ← effective_short_term_expiry d; Ok (expiry <=? now) else Ok false.

(** [db_client.collection(MemoryCollections(uid=uid).memory_items)] *)
Definition memory_items_collection (uid : string) : res path :=
  p ← document_path ("users/" +:+ uid +:+ "/memory_items/document"); Ok (removelast p).

Definition in_collection (c p : path) : bool :=
  bool_decide (p <> []) && bool_decide (removelast p = c).

(** [where(k, "<=", t)] on instants. *)
Definition at_most (v : value) (t : Z) : bool := match v with VTime _ us => us <=? t | _ => false end.

(** Ascending by an instant, then by [memory_id], then by the document's path;
    a document without one of the fields is in no such query. *)
Definition key_time (k : string) (r : path * fields) : Z :=
  match doc_get r.2 k with VTime _ us => us | _ => 0 end.
Definition ordered_by (k : string) (a b : path * fields) : Prop :=
  key_time k a < key_time k b \/
  (key_time k a = key_time k b /\
   (String.ltb (text_or a.2 "memory_id") (text_or b.2 "memory_id") = true \/
    text_or a.2 "memory_id" = text_or b.2 "memory_id" /\
    String.leb (reference_path a.1) (reference_path b.1) = true)).
#[global] Instance ordered_by_dec k : RelDecision (ordered_by k).
Proof. intros a b. unfold ordered_by. apply _. Defined.

Definition is_processed_short_term (d : fields) : bool :=
  v_is (doc_get d "tier") "short_term" && v_is (doc_get d "status") "active"
  && v_is (doc_get d "processing_state") "processed".

(** [EXPIRED_SHORT_TERM_LIFECYCLE_QUERY], in its order. *)
Definition stored_expired (c : path) (now : Z) (s : db) : list (path * fields) :=
  merge_sort (ordered_by "expires_at")
    (List.filter (fun r => in_collection c r.1 && is_processed_short_term r.2
                           && at_most (doc_get r.2 "expires_at") now && is_str (doc_get r.2 "memory_id"))
       (map_to_list s)).

(** [POLICY_EXPIRED_SHORT_TERM_QUERY], in its order. *)
Definition policy_expired (c : path) (cutoff : Z) (s : db) : list (path * fields) :=
  merge_sort (ordered_by "captured_at")
    (List.filter (fun r => in_collection c r.1 && is_processed_short_term r.2
                           && v_is (doc_get r.2 "source_state") "active"
                           && at_most (doc_get r.2 "captured_at") cutoff && is_str (doc_get r.2 "memory_id"))
       (map_to_list s)).

(** The items of a page: each must be the user's; expired ones are kept, the first
    ones of an identifier or the last ones. *)
Fixpoint collect_expired (uid : string) (now : Z) (keep_first : bool) (page : list (path * fields))
    (items_by_id : gmap string item) : res (gmap string item) :=
  match page with
  | [] => Ok items_by_id
  | (_, doc) :: page' =>
      d ← memory_item doc;
      if negb (v_is (doc_get d "uid") uid) then Raise ValueError
      else
        expired ← _is_expired_short_term_lifecycle_item d now;
        let id := text_or d "memory_id" in
        let keep := keep_first && bool_decide (is_Some (items_by_id !! id)) in
        collect_expired uid now keep_first page'
          (if expired && negb keep then <[id := d]> items_by_id else items_by_id)
  end.

(** By effective expiry, then by identifier. *)
Definition expiry_le (a b : Z * (string * item)) : Prop :=
  a.1 < b.1 \/ (a.1 = b.1 /\ String.leb a.2.1 b.2.1 = true).
#[global] Instance expiry_le_dec : RelDecision expiry_le.
Proof. intros a b. unfold expiry_le. apply _. Defined.

Fixpoint with_expiry (l : list (string * item)) : res (list (Z * (string * item))) :=
  match l with
  | [] => Ok []
  | kd :: l' => e ← effective_short_term_expiry kd.2; r ← with_expiry l'; Ok ((e, kd) :: r)
  end.

Definition effective_limit (limit : option Z) : Z :=
  match limit with
  | None => DEFAULT_SHORT_TERM_MAINTENANCE_SCAN_LIMIT
  | Some n => Z.min n MAX_SHORT_TERM_MAINTENANCE_SCAN_LIMIT
  end.

Definition page {A : Type} (limit : option Z) (l : list A) : list A := take (Z.to_nat (effective_limit limit)) l.

Definition fetch_expired_short_term_memory_items_firestore (uid : string) (now : Z) (limit : option Z) (s : db)
    : res (list item) :=
  if negb (nonblank uid) then Raise ValueError
  else if (if limit is Some n then n <=? 0 else false) then Raise ValueError
  else
    memory_items ← memory_items_collection uid;
    by_id ← collect_expired uid now false (page limit (stored_expired memory_items now s)) ∅;
    policy_cutoff ← dt_add now (- DEFAULT_SHORT_TERM_TTL);
    by_id ← collect_expired uid now true (page limit (policy_expired memory_items policy_cutoff s)) by_id;
    keyed ← with_expiry (map_to_list by_id);
    Ok (page limit ((merge_sort expiry_le keyed).*2.*2)).

Definition run_short_term_lifecycle_firestore (uid : string) (run : string) (now : Z) (limit : option Z)
    (dispositions : gmap string ShortTermDisposition) (s : db) : res ShortTermLifecycleWorkerReport * db :=
  match fetch_expired_short_term_memory_items_firestore uid now limit s with
  | Raise e => (Raise e, s)
  | Ok items => process_short_term_lifecycle_items items now run dispositions (WorkerReport [] [] []) s
  end.
End Lifecycle.
