(* ===== verification/MemoryPromotion.v ===== *)
(** * Promotion and graph admission (backend/models/memory_promotion.py)

    The graph plan of a promotion, the receipt that binds it to one revision of
    a short-term item, and the assertion a commit stores with a long-term item. *)

From S2P Require Import Prelude PyValue Sha256 Firestore MemoryText MemoryOperations MemoryModels.
From Stdlib Require Import QArith_base Ascii.
From stdpp Require Import sorting.
Local Open Scope Z_scope.

Definition PROMOTION_ADMISSION_VERSION : string := "canonical_memory_promotion_admission.v1".
Definition PROMOTION_GRAPH_PLAN_VERSION : string := "canonical_memory_graph_plan.v1".
Definition PROMOTION_GRAPH_PLAN_V2_VERSION : string := "canonical_memory_graph_plan.v2".
Definition PROMOTION_GRAPH_ASSERTION_VERSION : string := "canonical_memory_graph_assertion.v1".
Definition PROMOTION_GRAPH_ASSERTION_V2_VERSION : string := "canonical_memory_graph_assertion.v2".
Definition PROMOTION_PLANNER_ID : string := "canonical_batched_promotion".
Definition PROMOTION_PLANNER_VERSION : string := "v2".
Definition PROMOTION_GRAPH_SUBJECT_MAX_LENGTH : Z := 200.
Definition PROMOTION_GRAPH_PREDICATE_MAX_LENGTH : Z := 64.
Definition PROMOTION_GRAPH_ARGUMENT_MAX_COUNT : Z := 16.
Definition PROMOTION_GRAPH_ARGUMENT_KEY_MAX_LENGTH : Z := 64.
Definition PROMOTION_GRAPH_ARGUMENTS_MAX_JSON_BYTES : Z := 8 * 1024.
Definition PROMOTION_GRAPH_ARGUMENTS_MAX_DEPTH : Z := 8.

Definition fields_of (d : dict) : fields := list_to_map d.
Definition require (b : bool) : res unit := if b then Ok tt else Raise ValueError.

(** [s.startswith(p)] *)
Definition starts_with (p s : string) : bool :=
  is_prefix (String.list_ascii_of_string p) (String.list_ascii_of_string s).

Section Promotion.
Context {T : TextEnv} {Md : ModelEnv}.

Definition canonical_graph_entity_id (label : string) : res string :=
  let normalized := casefold (String.concat " " (words label)) in
  if decide (normalized = "") then Raise ValueError
  else if decide (normalized = "user") then Ok "user"
  else if starts_with "ent_" normalized then Ok normalized
  else Ok ("ent_" +:+ contract_prefix 20 "canonical-graph-entity" [("label", VStr normalized)]).

(** ** Arguments *)
Definition entry_le (a b : string * value) : Prop := String.leb a.1 b.1 = true.
#[global] Instance entry_le_dec : RelDecision entry_le.
Proof. intros a b. unfold entry_le. apply _. Defined.

Fixpoint normalized_entries (l : dict) (normalized : dict) : res dict :=
  match l with
  | [] => Ok normalized
  | (key, v) :: l' =>
      let normalized_key := strip key in
      _ ← require (negb (bool_decide (normalized_key = "")));
      _ ← require (if dict_lookup normalized_key normalized is Some _ then false else true);
      normalized_entries l' (dict_set normalized_key v normalized)
  end.

Definition _normalized_arguments (arguments : dict) : res dict :=
  normalized_entries (merge_sort entry_le arguments) [].

(** A value is a tree, so no container is its own ancestor. *)
Fixpoint _validate_json_value (v : value) (depth : Z) : bool :=
  match v with
  | VNone | VStr _ | VBool _ | VInt _ | VFloat _ => true
  | VTime _ _ => false
  | VList l =>
      (depth <=? PROMOTION_GRAPH_ARGUMENTS_MAX_DEPTH)
      && forallb (fun x => _validate_json_value x (depth + 1)) l
  | VDict d =>
      (depth <=? PROMOTION_GRAPH_ARGUMENTS_MAX_DEPTH)
      && forallb (fun kv => (py_len kv.1 <=? PROMOTION_GRAPH_ARGUMENT_KEY_MAX_LENGTH)
                            && _validate_json_value kv.2 (depth + 1)) d
  end.

Definition _validate_and_normalize_arguments (v : value) (require_nonempty : bool) : res dict :=
  match v with
  | VDict arguments =>
      _ ← require (Z.of_nat (length arguments) <=? PROMOTION_GRAPH_ARGUMENT_MAX_COUNT);
      _ ← require (_validate_json_value v 0);
      normalized ← _normalized_arguments arguments;
      _ ← require (negb (require_nonempty && negb (truthy (VDict normalized))));
      _ ← require (Z.of_nat (length (encode (json_text (VDict normalized))))
                     <=? PROMOTION_GRAPH_ARGUMENTS_MAX_JSON_BYTES);
      Ok normalized
  | _ => Raise ValueError
  end.

(** ** Plans *)
Definition endpoint_field (v : value) : res string :=
  let normalized := String.concat " " (words (match v with VStr s => s | _ => "" end)) in
  _ ← require (negb (bool_decide (normalized = "")));
  _ ← require (py_len normalized <=? PROMOTION_GRAPH_SUBJECT_MAX_LENGTH);
  Ok normalized.

Definition graph_relation_endpoint (v : value) : res value :=
  match v with
  | VDict raw =>
      d ← read_model "GraphRelationEndpoint" (fields_of raw);
      label ← endpoint_field (doc_get d "label");
      node_type ← endpoint_field (doc_get d "node_type");
      expected ← canonical_graph_entity_id label;
      _ ← require (negb (truthy (doc_get d "entity_id") && negb (v_is (doc_get d "entity_id") expected)));
      Ok (VDict [("entity_id", VStr expected); ("label", VStr label); ("node_type", VStr node_type)])
  | _ => Ok VNone
  end.

(** A stripped text that is not blank and at most [n] characters. *)
Definition short_text (v : value) (n : Z) : res string :=
  let stripped := strip (match v with VStr s => s | _ => "" end) in
  _ ← require (negb (bool_decide (stripped = "")));
  _ ← require (py_len stripped <=? n);
  Ok stripped.

Record PromotionGraphPlan := GraphPlan {
  plan_schema_version : string;
  plan_subject_entity_id : string;
  plan_predicate : string;
  plan_arguments : dict;
  plan_subject : value;
  plan_object : value;
  plan_qualifiers : dict;
  plan_hash : string
}.

Definition hash_payload (p : PromotionGraphPlan) : dict :=
  [("schema_version", VStr (plan_schema_version p));
   ("subject_entity_id", VStr (plan_subject_entity_id p));
   ("predicate", VStr (plan_predicate p)); ("arguments", VDict (plan_arguments p))]
  ++ (if decide (plan_schema_version p = PROMOTION_GRAPH_PLAN_V2_VERSION)
      then [("subject", plan_subject p); ("object", plan_object p); ("qualifiers", VDict (plan_qualifiers p))]
      else []).

(** The arguments of a v2 plan are its qualifiers. *)
Definition plan_relation (p : PromotionGraphPlan) : res dict :=
  if decide (plan_schema_version p = PROMOTION_GRAPH_PLAN_V2_VERSION) then
    _ ← require (negb (is_none (plan_subject p) || is_none (plan_object p)));
    _ ← require (v_is (member (plan_subject p) "entity_id") (plan_subject_entity_id p));
    _ ← require (negb (py_eq (member (plan_subject p) "entity_id") (member (plan_object p) "entity_id")));
    _ ← require (negb (truthy (VDict (plan_arguments p))
                       && negb (py_eq (VDict (plan_arguments p)) (VDict (plan_qualifiers p)))));
    Ok (plan_qualifiers p)
  else
    _ ← require (truthy (VDict (plan_arguments p)));
    Ok (plan_arguments p).

Definition with_plan_hash (p : PromotionGraphPlan) (arguments : dict) (h : string) : PromotionGraphPlan :=
  GraphPlan (plan_schema_version p) (plan_subject_entity_id p) (plan_predicate p) arguments
    (plan_subject p) (plan_object p) (plan_qualifiers p) h.

(** An argument field: validated when it is given, else empty. *)
Definition arguments_field (raw : dict) (k : string) : res dict :=
  match dict_lookup k raw with
  | Some v => _validate_and_normalize_arguments v false
  | None => Ok []
  end.

Definition promotion_graph_plan (raw : dict) : res PromotionGraphPlan :=
  arguments ← arguments_field raw "arguments";
  qualifiers ← arguments_field raw "qualifiers";
  d ← read_model "PromotionGraphPlan" (fields_of raw);
  version ← field_str d "schema_version";
  subject_entity_id ← short_text (doc_get d "subject_entity_id") PROMOTION_GRAPH_SUBJECT_MAX_LENGTH;
  predicate ← short_text (doc_get d "predicate") PROMOTION_GRAPH_PREDICATE_MAX_LENGTH;
  subject ← graph_relation_endpoint (doc_get d "subject");
  object ← graph_relation_endpoint (doc_get d "object");
  let p := GraphPlan version subject_entity_id predicate arguments subject object qualifiers
             (text_or d "plan_hash") in
  arguments ← plan_relation p;
  let expected := deterministic_contract_id "canonical-promotion-graph-plan"
                    (hash_payload (with_plan_hash p arguments "")) in
  _ ← require (bool_decide (plan_hash p = "") || bool_decide (plan_hash p = expected));
  Ok (with_plan_hash p arguments expected).

(** ** Admission receipts *)
Record PromotionAdmissionReceipt := Receipt {
  receipt_memory_id : string;
  source_item_revision : Z;
  output_content_hash : string;
  receipt_evidence_ids : list string;
  receipt_graph_plan_hash : string;
  receipt_supersedes : list string;
  receipt_id : string
}.

(** [sorted({x.strip() for x in l if x and x.strip()})] of a list of texts. *)
Definition stripped_set (v : value) : list string :=
  match v with
  | VList l => sorted_set (omap (fun x => match x with
                                          | VStr s => if nonblank s then Some (strip s) else None
                                          | _ => None
                                          end) l)
  | _ => []
  end.

Definition nonblank_text (v : value) : res string :=
  let stripped := strip (match v with VStr s => s | _ => "" end) in
  _ ← require (negb (bool_decide (stripped = "")));
  Ok stripped.

Definition identity_payload (r : PromotionAdmissionReceipt) : dict :=
  [("receipt_version", VStr PROMOTION_ADMISSION_VERSION); ("planner_id", VStr PROMOTION_PLANNER_ID);
   ("planner_version", VStr PROMOTION_PLANNER_VERSION); ("decision", VStr "durable");
   ("memory_id", VStr (receipt_memory_id r)); ("source_item_revision", VInt (source_item_revision r));
   ("output_content_hash", VStr (output_content_hash r));
   ("evidence_ids", str_list (receipt_evidence_ids r));
   ("graph_plan_hash", VStr (receipt_graph_plan_hash r)); ("supersedes", str_list (receipt_supersedes r))].

(** [read_model] checks the literal version, planner and decision fields. *)
Definition promotion_admission_receipt (raw : dict) : res PromotionAdmissionReceipt :=
  d ← read_model "PromotionAdmissionReceipt" (fields_of raw);
  memory_id ← nonblank_text (doc_get d "memory_id");
  revision ← field_int d "source_item_revision";
  _ ← require (1 <=? revision);
  content_hash ← nonblank_text (doc_get d "output_content_hash");
  let evidence := stripped_set (doc_get d "evidence_ids") in
  _ ← require (negb (bool_decide (evidence = [])));
  graph_plan_hash ← nonblank_text (doc_get d "graph_plan_hash");
  let r := Receipt memory_id revision content_hash evidence graph_plan_hash
             (stripped_set (doc_get d "supersedes")) (text_or d "receipt_id") in
  let expected := "padm_" +:+ contract_prefix 32 "canonical-promotion-admission" (identity_payload r) in
  _ ← require (bool_decide (receipt_id r = "") || bool_decide (receipt_id r = expected));
  Ok (Receipt memory_id revision content_hash evidence graph_plan_hash (receipt_supersedes r) expected).

Definition valid_promotion_admission (memory_id : string) (revision : Z) (content_hash : string)
    (evidence_ids : list string) (subject_entity_id predicate : value) (arguments : value)
    (supersedes : list string) (promotion : dict) : bool :=
  match dict_get "graph_plan" promotion, dict_get "admission_receipt" promotion with
  | VDict raw_plan, VDict raw_receipt =>
      match promotion_graph_plan raw_plan, promotion_admission_receipt raw_receipt,
            _validate_and_normalize_arguments arguments true with
      | Ok plan, Ok receipt, Ok normalized_arguments =>
          bool_decide (receipt_memory_id receipt = memory_id)
          && (source_item_revision receipt =? revision)
          && bool_decide (output_content_hash receipt = content_hash)
          && bool_decide (receipt_evidence_ids receipt = sorted_set evidence_ids)
          && bool_decide (receipt_graph_plan_hash receipt = plan_hash plan)
          && v_is (py_or subject_entity_id (VStr "")) (plan_subject_entity_id plan)
          && v_is (py_or predicate (VStr "")) (plan_predicate plan)
          && py_eq (VDict (plan_arguments plan)) (VDict normalized_arguments)
          && bool_decide (receipt_supersedes receipt = sorted_set supersedes)
          && negb (bool_decide (memory_id ∈ receipt_supersedes receipt))
      | _, _, _ => false
      end
  | _, _ => false
  end.

(** ** Assertions *)
Record MemoryGraphAssertion := GraphAssertion {
  assertion_id : string;
  ga_uid : string;
  ga_memory_id : string;
  ga_item_revision : Z;
  ga_content_hash : string;
  ga_evidence_ids : list string;
  ga_plan : PromotionGraphPlan;
  ga_commit_id : string;
  ga_commit_sequence : Z;
  ga_created_at : value
}.

(** The plan rebuilt from the assertion's own fields. *)
Definition plan_dump (p : PromotionGraphPlan) : dict :=
  [("schema_version", VStr (plan_schema_version p)); ("subject_entity_id", VStr (plan_subject_entity_id p));
   ("predicate", VStr (plan_predicate p)); ("arguments", VDict (plan_arguments p));
   ("subject", plan_subject p); ("object", plan_object p);
   ("qualifiers", VDict (plan_qualifiers p)); ("plan_hash", VStr (plan_hash p))].

Definition build_memory_graph_assertion (uid memory_id : string) (item_revision : Z) (content_hash : string)
    (evidence_ids : list string) (graph_plan : PromotionGraphPlan) (commit_id : string)
    (commit_sequence : Z) (created_at : value) : res MemoryGraphAssertion :=
  let id := "mga_" +:+ contract_prefix 32 "canonical-memory-graph-assertion"
    [("uid", VStr uid); ("memory_id", VStr memory_id); ("item_revision", VInt item_revision);
     ("content_hash", VStr content_hash); ("graph_plan_hash", VStr (plan_hash graph_plan))] in
  uid ← nonblank_text (VStr uid);
  memory_id ← nonblank_text (VStr memory_id);
  content_hash ← nonblank_text (VStr content_hash);
  commit_id ← nonblank_text (VStr commit_id);
  _ ← require ((1 <=? item_revision) && (1 <=? commit_sequence));
  let evidence := stripped_set (str_list (sorted_set evidence_ids)) in
  _ ← require (negb (bool_decide (evidence = [])));
  plan ← promotion_graph_plan (plan_dump graph_plan);
  Ok (GraphAssertion id uid memory_id item_revision content_hash evidence plan commit_id
        commit_sequence created_at).
End Promotion.
