(* ===== verification/MemoryApply.v ===== *)
(** * The apply transaction of the memory ledger (backend/models/memory_apply.py)

    A user's control state (the head commit, the generations and the writer
    mode), the outbox events of a commit, and the pure transaction that applies
    one patch to it: it refuses stale, mismatched or illegal patches with a
    status and leaves the control state alone, and a commit advances the head
    by one and emits the changed items with their outbox events. *)

From S2P Require Import Prelude PyValue Sha256 Firestore MemoryText MemoryOperations MemoryModels MemoryPromotion.
From Stdlib Require Import QArith_base Ascii.
Local Open Scope Z_scope.

Inductive ApplyStatus :=
| apply_committed | idempotent_skip | retryable_head_mismatch | generation_mismatch
| source_not_active | target_not_active | payload_mismatch | invalid_patch.

#[global] Instance apply_status_eq_dec : EqDecision ApplyStatus.
Proof. solve_decision. Defined.

(** ** Writers *)
Inductive WriterMode :=
| compatibility | transitioning_to_ledger | ledger | transitioning_to_compatibility.
Inductive MemoryWriterClass := compatibility_writer | ledger_writer | user_writer.

#[global] Instance writer_mode_eq_dec : EqDecision WriterMode.
Proof. solve_decision. Defined.

Definition transitioning (m : WriterMode) : bool :=
  match m with transitioning_to_ledger | transitioning_to_compatibility => true | _ => false end.

(** [WriterAdmissionError] is a [RuntimeError]. *)
Definition require_writer_admitted (mode : WriterMode) (requested : MemoryWriterClass)
    (allow_ledger_migration : bool) : res unit :=
  match requested, mode with
  | user_writer, (compatibility | ledger) => Ok tt
  | compatibility_writer, compatibility => Ok tt
  | ledger_writer, compatibility => if allow_ledger_migration then Ok tt else Raise RuntimeError
  | ledger_writer, ledger => Ok tt
  | ledger_writer, transitioning_to_ledger =>
      if allow_ledger_migration then Ok tt else Raise RuntimeError
  | _, _ => Raise RuntimeError
  end.

(** ** Control state *)
Record MemoryControlState := Control {
  control_uid : string;
  head_commit_id : string;
  account_generation : Z;
  source_generation : Z;
  writer_mode : WriterMode;
  writer_epoch : Z;
  writer_transition_owner : option string;
  ledger_migration_migrated_count : Z;
  ledger_migration_adjudicated_count : Z;
  commit_sequence : Z;
  projection_watermark_commit_id : option string;
  projection_watermark_sequence : Z;
  vector_watermark_commit_id : option string;
  last_promotion_run_at : option Z;
  last_consolidation_run_at : option Z;
  legacy_backfill_processed_count : Z;
  legacy_backfill_source_fingerprint : option string;
  legacy_backfill_completed_at : option Z;
  control_updated_at : Z
}.

(** The validators of [MemoryControlState]. *)
Definition valid_control (c : MemoryControlState) : bool :=
  nonblank (control_uid c) && nonblank (head_commit_id c)
  && forallb (fun n => 0 <=? n)
       [account_generation c; source_generation c; writer_epoch c; ledger_migration_migrated_count c;
        ledger_migration_adjudicated_count c; commit_sequence c; projection_watermark_sequence c;
        legacy_backfill_processed_count c]
  && match writer_transition_owner c with
     | Some owner => transitioning (writer_mode c) && nonblank owner && bool_decide (strip owner = owner)
     | None => negb (transitioning (writer_mode c))
     end.

Definition with_head (c : MemoryControlState) (head : string) (sequence : Z) (now : Z) : MemoryControlState :=
  Control (control_uid c) head (account_generation c) (source_generation c) (writer_mode c)
    (writer_epoch c) (writer_transition_owner c) (ledger_migration_migrated_count c)
    (ledger_migration_adjudicated_count c) sequence (projection_watermark_commit_id c)
    (projection_watermark_sequence c) (vector_watermark_commit_id c) (last_promotion_run_at c)
    (last_consolidation_run_at c) (legacy_backfill_processed_count c)
    (legacy_backfill_source_fingerprint c) (legacy_backfill_completed_at c) now.

Definition with_watermark (c : MemoryControlState) (commit : string) (sequence now : Z) : MemoryControlState :=
  Control (control_uid c) (head_commit_id c) (account_generation c) (source_generation c) (writer_mode c)
    (writer_epoch c) (writer_transition_owner c) (ledger_migration_migrated_count c)
    (ledger_migration_adjudicated_count c) (commit_sequence c) (Some commit) sequence
    (vector_watermark_commit_id c) (last_promotion_run_at c)
    (last_consolidation_run_at c) (legacy_backfill_processed_count c)
    (legacy_backfill_source_fingerprint c) (legacy_backfill_completed_at c) now.

(** ** Outbox *)
Inductive MemoryOutboxEventType := projection_sync | vector_sync | export_sync | delete_sync.

Definition event_type_value (t : MemoryOutboxEventType) : string :=
  match t with
  | projection_sync => "projection_sync" | vector_sync => "vector_sync"
  | export_sync => "export_sync" | delete_sync => "delete_sync"
  end.

(** A new event is pending, with no attempts. *)
Record MemoryOutboxEvent := OutboxEvent {
  event_id : string;
  event_uid : string;
  event_type : MemoryOutboxEventType;
  event_commit_id : string;
  parent_commit_id : string;
  event_sequence : Z;
  event_memory_id : option string;
  event_operation_id : string;
  event_account_generation : Z;
  event_source_generation : Z;
  event_payload : dict;
  available_at : Z
}.

Definition advance_projection_watermark (c : MemoryControlState) (e : MemoryOutboxEvent) (now : Z)
    : res MemoryControlState :=
  if negb (nonblank (event_commit_id e)) then Raise ValueError
  else if negb (event_account_generation e =? account_generation c) then Raise ValueError
  else if negb (event_sequence e =? projection_watermark_sequence c + 1) then Raise ValueError
  else if given (projection_watermark_commit_id c)
          && negb (bool_decide (Some (parent_commit_id e) = projection_watermark_commit_id c))
  then Raise ValueError
  else Ok (with_watermark c (event_commit_id e) (event_sequence e) now).

Section Apply.
Context {T : TextEnv} {Md : ModelEnv}.

Definition next_commit_id (c : MemoryControlState) (operation_id : string) : string :=
  "commit_" +:+ contract_prefix 32 "memory-commit"
    [("uid", VStr (control_uid c)); ("head_commit_id", VStr (head_commit_id c));
     ("operation_id", VStr operation_id); ("commit_sequence", VInt (commit_sequence c + 1))].

Definition advance_head (c : MemoryControlState) (commit_id : string) (now : Z) : res MemoryControlState :=
  if nonblank commit_id then Ok (with_head c commit_id (commit_sequence c + 1) now) else Raise ValueError.

Definition _event_id (t : MemoryOutboxEventType) (commit_id : string) (memory_id : option string)
    (operation_id : string) : string :=
  "evt_" +:+ contract_prefix 32 "memory-outbox"
    [("event_type", VStr (event_type_value t)); ("commit_id", VStr commit_id);
     ("memory_id", opt_str memory_id); ("operation_id", VStr operation_id)].

Record ApplyResult := Result {
  result_status : ApplyStatus;
  control_state : MemoryControlState;
  result_operation : MemoryOperation;
  memory_items : list item;
  graph_assertions : list MemoryGraphAssertion;
  outbox_events : list MemoryOutboxEvent
}.

(** A result that changes nothing. *)
Definition refused (st : ApplyStatus) (c : MemoryControlState) (op : MemoryOperation) : ApplyResult :=
  Result st c op [] [] [].

Definition outbox_event (op : MemoryOperation) (c : MemoryControlState) (commit_id : string) (sequence : Z)
    (memory_id : option string) (payload : dict) (now : Z) (t : MemoryOutboxEventType)
    : MemoryOutboxEvent :=
  OutboxEvent (_event_id t commit_id memory_id (operation_id op)) (op_uid op) t commit_id
    (head_commit_id c) sequence memory_id (operation_id op) (account_generation c)
    (source_generation c) payload now.

Definition _barrier_outbox_events (op : MemoryOperation) (c : MemoryControlState) (commit_id : string)
    (sequence now : Z) : list MemoryOutboxEvent :=
  outbox_event op c commit_id sequence None [("action", VStr "barrier")] now
    <$> [projection_sync; vector_sync].

(** ** The identity of a patch *)
Definition _PATCH_MUTATION_IDENTITY_EXCLUDED_KEYS : list string :=
  ["schema_version"; "patch_id"; "packet_id"; "run_id"; "observed_head_commit_id"; "idempotency_key";
   "decision"; "result_status"; "target_memory_id"; "memory_text"; "supersedes"; "existing_item";
   "superseded_items"; "evidence"; "mutation_metadata"].

Fixpoint _canonical_mutation_identity_value (v : value) : value :=
  match v with
  | VTime aw us => VStr (isoformat aw us)
  | VDict d => VDict ((fun kv => (kv.1, _canonical_mutation_identity_value kv.2)) <$> d)
  | VList l => VList (_canonical_mutation_identity_value <$> l)
  | _ => v
  end.

(** The members of a payload are listed in the order of their keys; the digest
    does not depend on that order. *)
Definition build_patch_mutation_identity (patch_payload : fields) : dict :=
  (fun kv => (kv.1, _canonical_mutation_identity_value kv.2))
    <$> filter (fun kv => kv.1 ∉ _PATCH_MUTATION_IDENTITY_EXCLUDED_KEYS) (map_to_list patch_payload).

(** The digest of a patch, in the fields the operation's own payload carries. *)
Definition _operation_digest_for_patch (p : patch) (op : MemoryOperation) (mutation_identity : dict)
    : res string :=
  let lp := logical_payload op in
  let field (given : bool) (k : string) (v : value) : dict := if given then [(k, v)] else [] in
  let is_given {A} (o : option A) : bool := if o is Some _ then true else false in
  logical_payload_digest
    ([("decision", doc_get p "decision"); ("memory_text", doc_get p "memory_text");
      ("target_memory_id", doc_get p "target_memory_id"); ("result_status", doc_get p "result_status");
      ("supersedes", doc_get p "supersedes"); ("arguments", doc_get p "arguments")]
     ++ field (is_given (lp_subject_entity_id lp)) "subject_entity_id" (doc_get p "subject_entity_id")
     ++ field (is_given (lp_predicate lp)) "predicate" (doc_get p "predicate")
     ++ field (is_given (lp_target_tier lp)) "target_tier" (doc_get p "target_tier")
     ++ field (is_given (lp_target_visibility lp)) "target_visibility" (doc_get p "target_visibility")
     ++ field (is_given (lp_target_user_asserted lp)) "target_user_asserted" (doc_get p "target_user_asserted")
     ++ field (is_given (lp_clear_graph_assertion lp)) "clear_graph_assertion" (doc_get p "clear_graph_assertion")
     ++ field (is_given (lp_mutation_metadata lp)) "mutation_metadata" (VDict mutation_identity)).

(** ** Items of a commit *)
Definition _deterministic_materialized_memory_id (uid : string) (p : patch) (commit_id : string) : value :=
  if truthy (doc_get p "target_memory_id") then doc_get p "target_memory_id"
  else if truthy (doc_get p "new_memory_id") then doc_get p "new_memory_id"
  else VStr ("mem_" +:+ contract_prefix 32 "memory-materialized-item"
    [("uid", VStr uid); ("commit_id", VStr commit_id); ("patch_id", doc_get p "patch_id");
     ("idempotency_key", doc_get p "idempotency_key")]).

Definition memory_content_hash (content : value) (evidence_ids : list value) : string :=
  deterministic_contract_id "memory-content"
    [("content", content); ("evidence_ids", VList evidence_ids)].

Definition _processing_state_for_promotion (promotion : value) (fallback : value) : value :=
  let processing_status := member promotion "processing_status" in
  if v_in processing_status ["pending_processing"; "processing_failed_retryable"; "pending_admission"]
  then VStr "pending"
  else if v_is processing_status "processing_blocked" then VStr "blocked"
  else if v_is processing_status "processed" then VStr "processed"
  else fallback.

Definition _materialize_memory_item (uid : string) (p : patch) (evidence : list value) (commit_id : string)
    (sequence account : Z) (promotion : value) (now : Z) : res item :=
  let tier := doc_get p "initial_tier" in
  expires_at ← (if v_is tier "short_term" then t ← default_short_term_expiry now; Ok (instant t)
                else Ok VNone);
  let processing_state := _processing_state_for_promotion promotion (VStr "processed") in
  _ ← assert_legal_state tier (VStr "active") processing_state;
  let content := doc_get p "memory_text" in
  memory_item (list_to_map
    [("memory_id", _deterministic_materialized_memory_id uid p commit_id); ("uid", VStr uid);
     ("version", VInt 1); ("tier", tier); ("status", VStr "active");
     ("processing_state", processing_state); ("content", content);
     ("normalized_content_key", normalized_memory_content_key content); ("evidence", VList evidence);
     ("source_state", VStr "active"); ("sensitivity_labels", VList []);
     ("visibility", py_or (doc_get p "visibility") (VStr "private"));
     ("user_asserted", VBool (truthy (doc_get p "user_asserted"))); ("captured_at", instant now);
     ("updated_at", instant now); ("expires_at", expires_at); ("ledger_commit_id", VStr commit_id);
     ("ledger_sequence", VInt sequence); ("item_revision", VInt 1); ("source_commit_id", VStr commit_id);
     ("source_commit_sequence", VInt sequence);
     ("content_hash", VStr (memory_content_hash content
        (match doc_get p "evidence_ids" with VList l => l | _ => [] end)));
     ("account_generation", VInt account); ("promotion", promotion);
     ("subject_entity_id", doc_get p "subject_entity_id"); ("predicate", doc_get p "predicate");
     ("arguments", VDict (dict_or p "arguments"));
     ("ledger_schema_version", doc_get p "ledger_schema_version"); ("kind", doc_get p "kind");
     ("subject_scope", doc_get p "subject_scope"); ("slot", doc_get p "slot"); ("body", doc_get p "body");
     ("valid_from", py_or (doc_get p "valid_from") (instant now)); ("valid_to", doc_get p "valid_to");
     ("curation_weight", doc_get p "curation_weight");
     ("trigger_condition", VDict (dict_or p "trigger_condition"));
     ("intent_backed", doc_get p "intent_backed"); ("write_reason", doc_get p "write_reason")]).

(** The patch's text, unless it is absent or blank. *)
Definition patch_text (p : patch) : option string :=
  match doc_get p "memory_text" with VStr s => if nonblank s then Some s else None | _ => None end.

Definition _resolved_update_content (existing : item) (p : patch) : value :=
  match patch_text p with Some s => VStr s | None => doc_get existing "content" end.

Definition ledger_keys : list string :=
  ["ledger_schema_version"; "kind"; "subject_scope"; "slot"; "body"; "valid_from"; "valid_to";
   "curation_weight"; "trigger_condition"; "intent_backed"; "write_reason"].

(** A field of the patch that replaces the item's when it is given. *)
Definition if_given (p : patch) (k target : string) : dict :=
  if is_none (doc_get p k) then [] else [(target, doc_get p k)].

Definition updated_status (existing : item) (p : patch) : value :=
  let r := doc_get p "result_status" in
  if v_in r ["hidden"; "rejected"] then VStr "hidden"
  else if v_is r "superseded" then VStr "superseded"
  else if v_is r "active" then VStr "active"
  else doc_get existing "status".

Definition cleared_graph : dict :=
  [("graph_ready", VBool false); ("graph_assertion_id", VNone); ("graph_plan_hash", VNone);
   ("kg_extracted", VBool false)].

(** The instant of an update is not before the item's own instants. *)
Definition update_instant (existing : item) (now : Z) : res Z :=
  captured ← field_time existing "captured_at"; updated ← field_time existing "updated_at";
  Ok (Z.max (Z.max now captured) updated).

Definition next_int (d : fields) (k : string) : res value := n ← field_int d k; Ok (VInt (n + 1)).

(** The updates that depend on what the patch gives; [raw_keys] are the fields it
    was given. *)
Definition given_updates (p : patch) (raw_keys : list string) (evidence : list value)
    (promotion_audit : value) (extra_updates : dict) : dict :=
  (if patch_text p is Some s
   then [("content_hash", VStr (memory_content_hash (VStr s) (evidence_id <$> evidence)))] else [])
  ++ (if is_none promotion_audit then [] else [("promotion", promotion_audit)])
  ++ if_given p "subject_entity_id" "subject_entity_id" ++ if_given p "predicate" "predicate"
  ++ (if truthy (doc_get p "arguments") then [("arguments", doc_get p "arguments")] else [])
  ++ if_given p "target_visibility" "visibility" ++ if_given p "target_user_asserted" "user_asserted"
  ++ ((fun k => (k, doc_get p k)) <$> filter (fun k => k ∈ raw_keys) ledger_keys)
  ++ extra_updates
  ++ (if truthy (doc_get p "clear_graph_assertion")
      then [("subject_entity_id", VNone); ("predicate", VNone); ("arguments", VDict [])] ++ cleared_graph
      else []).

Definition _apply_update_memory_item (existing : item) (p : patch) (raw_keys : list string)
    (evidence : list value) (commit_id : string) (sequence : Z) (promotion_audit : value)
    (extra_updates : dict) (now : Z) : res item :=
  now ← update_instant existing now;
  let tier := if is_none (doc_get p "target_tier") then doc_get existing "tier" else doc_get p "target_tier" in
  let content := _resolved_update_content existing p in
  let status := updated_status existing p in
  let evidence := match evidence with [] => evidence_of existing | _ => evidence end in
  expires_at ← (if v_is tier "short_term"
                then if is_none (doc_get existing "expires_at")
                     then c ← field_time existing "captured_at"; t ← default_short_term_expiry c; Ok (instant t)
                     else Ok (doc_get existing "expires_at")
                else Ok VNone);
  let processing_state :=
    if v_is tier "long_term" then VStr "processed"
    else _processing_state_for_promotion promotion_audit (doc_get existing "processing_state") in
  _ ← assert_legal_state tier status processing_state;
  version ← next_int existing "version";
  item_revision ← next_int existing "item_revision";
  Ok (model_copy existing
    ([("tier", tier); ("status", status); ("processing_state", processing_state); ("content", content);
      ("normalized_content_key", normalized_memory_content_key content); ("evidence", VList evidence);
      ("updated_at", instant now); ("expires_at", expires_at); ("ledger_commit_id", VStr commit_id);
      ("ledger_sequence", VInt sequence); ("version", version); ("item_revision", item_revision)]
     ++ given_updates p raw_keys evidence promotion_audit extra_updates)).

Definition _stale_operation (op : MemoryOperation) (now : Z) : res MemoryOperation :=
  memory_operation (apply_update op (same_update op stale_generation now)).

Definition rebased_operation (op : MemoryOperation) (c : MemoryControlState) (now : Z) : MemoryOperation :=
  apply_update op
    (Update (op_status op) (Some (head_commit_id c)) (committed_head_commit_id op) (committed_sequence op)
       (committed_memory_item_ids op) (committed_outbox_event_ids op) (attempt_count op + 1) (error_code op) now).

(** ** Graph enrichment *)
Definition lower_letter (c : ascii) : bool := let b := byte_of c in (97 <=? b) && (b <=? 122).
Definition letter_or_digit (c : ascii) : bool := lower_letter c || if digit_of c then true else false.

(** [^[a-z][a-z0-9]*(?:_[a-z0-9]+)*$], after the first letter; [open] says that an
    underscore still needs a letter or digit. *)
Fixpoint predicate_tail (open : bool) (l : list ascii) : bool :=
  match l with
  | [] => negb open
  | c :: l' =>
      if letter_or_digit c then predicate_tail false l'
      else bool_decide (c = "_"%char) && negb open && predicate_tail true l'
  end.

Definition _GRAPH_PREDICATE_RE (s : string) : bool :=
  match String.list_ascii_of_string s with
  | c :: l => lower_letter c && predicate_tail false l
  | [] => false
  end.

(** [isinstance(v, str) and v.strip()] *)
Definition text_value (v : value) : bool := match v with VStr s => nonblank s | _ => false end.

Definition nonnegative_int (v : value) : bool := match v with VInt z => 0 <=? z | _ => false end.

Definition texts (l : list value) : list string :=
  omap (fun v => match v with VStr s => Some s | _ => None end) l.

(** [sorted(record.evidence_id for record in evidence)] *)
Definition evidence_names (evidence : list value) : list string :=
  sorted_strs (texts (evidence_id <$> evidence)).

Definition _valid_graph_enrichment_receipt (raw_receipt : value) (op : MemoryOperation) (existing : item)
    (c : MemoryControlState) (graph_plan : option PromotionGraphPlan) : bool :=
  match raw_receipt, graph_plan with
  | VDict r, Some plan =>
      let get k := dict_get k r in
      v_is (get "schema_version") "canonical_memory_graph_enrichment_receipt.v1"
      && match get "evidence_ids" with
         | VList ids =>
             let normalized := sorted_strs (strip <$> texts ids) in
             truthy (VList ids) && forallb text_value ids && bool_decide (NoDup normalized)
             && forallb (fun k => text_value (get k)) ["receipt_id"; "uid"; "memory_id"; "content_hash"; "plan_hash"]
             && forallb (fun k => nonnegative_int (get k)) ["item_revision"; "account_generation"; "source_generation"]
             && v_is (get "receipt_id")
                  ("ger_" +:+ contract_prefix 32 "canonical-memory-graph-enrichment-receipt"
                    [("schema_version", get "schema_version"); ("uid", get "uid");
                     ("memory_id", get "memory_id"); ("item_revision", get "item_revision");
                     ("content_hash", get "content_hash"); ("evidence_ids", str_list normalized);
                     ("account_generation", get "account_generation");
                     ("source_generation", get "source_generation"); ("plan_hash", get "plan_hash")])
             && v_is (get "uid") (op_uid op)
             && py_eq (get "memory_id") (doc_get existing "memory_id")
             && py_eq (get "item_revision") (doc_get existing "item_revision")
             && py_eq (get "content_hash") (doc_get existing "content_hash")
             && bool_decide (normalized = evidence_names (evidence_of existing))
             && py_eq (get "account_generation") (VInt (account_generation c))
             && py_eq (get "source_generation") (VInt (source_generation c))
             && v_is (get "plan_hash") (plan_hash plan)
         | _ => false
         end
  | _, _ => false
  end.

(** [not v or w == v] for an optional field of the item. *)
Definition unset_or (v w : value) : bool := negb (truthy v) || py_eq w v.

(** The patch attaches one validated plan and changes nothing else. *)
Definition graph_enrichment_allowed (op : MemoryOperation) (c : MemoryControlState) (existing : item)
    (p : patch) (evidence : list value) (promotion_audit promotion_metadata : value)
    (extra_updates : dict) : bool :=
  let plan := match member promotion_audit "graph_plan" with
              | VDict d => match promotion_graph_plan d with Ok plan => Some plan | Raise _ => None end
              | _ => None
              end in
  let promotion := dict_or existing "promotion" in
  let replan := truthy (doc_get existing "graph_ready") && truthy (dict_get "graph_enrichment" promotion) in
  let required_receipt_valid :=
    negb (truthy (dict_get "required" promotion))
    || valid_required_processing_receipt (text_or existing "content")
         (match doc_get existing "item_revision" with VInt n => n | _ => 0 end) promotion in
  match plan with
  | None => false
  | Some plan =>
      v_is (doc_get existing "status") "active" && v_is (doc_get existing "tier") "long_term"
      && v_is (doc_get existing "processing_state") "processed"
      && (negb (truthy (doc_get existing "graph_ready")) || replan)
      && _valid_graph_enrichment_receipt (member promotion_audit "graph_enrichment_receipt") op existing c (Some plan)
      && required_receipt_valid && negb (_has_restricted_sensitivity existing)
      && negb (bool_decide (dict_get "user_review" promotion = VBool false))
      && forallb (fun k => is_none (doc_get p k)) ["target_tier"; "memory_text"; "target_visibility"; "target_user_asserted"]
      && negb (truthy (doc_get p "clear_graph_assertion")) && negb (truthy (VDict extra_updates))
      && is_none promotion_metadata && v_is (doc_get p "result_status") "active"
      && negb (truthy (doc_get p "supersedes"))
      && v_is (doc_get p "subject_entity_id") (plan_subject_entity_id plan)
      && (replan || unset_or (doc_get existing "subject_entity_id") (VStr (plan_subject_entity_id plan)))
      && v_is (doc_get p "predicate") (plan_predicate plan)
      && (replan || unset_or (doc_get existing "predicate") (VStr (plan_predicate plan)))
      && _GRAPH_PREDICATE_RE (plan_predicate plan)
      && py_eq (doc_get p "arguments") (VDict (plan_arguments plan))
      && (replan || unset_or (doc_get existing "arguments") (VDict (plan_arguments plan)))
      && bool_decide (evidence_names evidence = evidence_names (evidence_of existing))
  end.

(** ** Guards of an update *)
Definition proposed_evidence (evidence : list value) (existing : item) : list value :=
  match evidence with [] => evidence_of existing | _ => evidence end.

(** The patch would change what an active long-term item says. *)
Definition semantic_change (existing : item) (p : patch) (evidence : list value) : bool :=
  negb (py_eq (_resolved_update_content existing p) (doc_get existing "content"))
  || negb (py_eq (VList (evidence_id <$> proposed_evidence evidence existing))
             (VList (evidence_id <$> evidence_of existing)))
  || existsb (fun k => negb (py_eq (py_or (doc_get p k) (doc_get existing k)) (doc_get existing k)))
       ["subject_entity_id"; "predicate"; "arguments"].

Definition promotes (existing : item) (p : patch) : bool :=
  negb (v_is (doc_get existing "tier") "long_term") && v_is (doc_get p "target_tier") "long_term".

(** The admission metadata and graph plan that a promotion must carry. *)
Definition promotion_admitted (op : MemoryOperation) (existing : item) (p : patch) (evidence : list value)
    (promotion_audit : value) : bool :=
  let metadata := match promotion_audit with VDict d => d | _ => [] end in
  let content := match _resolved_update_content existing p with VStr s => s | _ => "" end in
  let evidence := proposed_evidence evidence existing in
  let revision := match doc_get existing "item_revision" with VInt n => n | _ => 0 end in
  negb (truthy (dict_get "required" metadata)
        && negb (valid_required_processing_receipt content revision metadata))
  && valid_promotion_admission (text_or existing "memory_id") revision
       (memory_content_hash (VStr content) (evidence_id <$> evidence)) (texts (evidence_id <$> evidence))
       (py_or (doc_get p "subject_entity_id") (doc_get existing "subject_entity_id"))
       (py_or (doc_get p "predicate") (doc_get existing "predicate"))
       (py_or (doc_get p "arguments") (doc_get existing "arguments"))
       (match doc_get p "supersedes" with VList l => texts l | _ => [] end) metadata
  && bool_decide (operation_type op = synthesis).

(** The guards on an update of [existing], in the order of the code. *)
Definition update_allowed (op : MemoryOperation) (c : MemoryControlState) (existing : item) (p : patch)
    (evidence : list value) (promotion_audit promotion_metadata expected_item_revision
     expected_content_hash : value) (extra_updates : dict) (allow_trigger_feedback_arguments : bool) : bool :=
  let enriching := bool_decide (operation_type op = graph_enrichment) in
  let demotion := v_is (doc_get p "target_tier") "short_term" && truthy (doc_get p "clear_graph_assertion") in
  truthy (doc_get p "target_memory_id")
  && py_eq (doc_get existing "memory_id") (doc_get p "target_memory_id")
  && (is_none expected_item_revision || py_eq (doc_get existing "item_revision") expected_item_revision)
  && (is_none expected_content_hash || py_eq (doc_get existing "content_hash") expected_content_hash)
  && (if enriching
      then graph_enrichment_allowed op c existing p evidence promotion_audit promotion_metadata extra_updates
      else true)
  && negb (active_long_term existing && semantic_change existing p evidence && negb demotion
           && negb enriching && negb allow_trigger_feedback_arguments)
  && (if promotes existing p then promotion_admitted op existing p evidence promotion_audit else true).

(** ** Payload fields outside the patch *)
Definition optional_item_keys : list string :=
  ["corroboration_count"; "last_corroborated_at"; "captured_at"; "updated_at"; "expires_at";
   "superseded_by"; "kg_extracted"; "confidence"; "sensitivity_labels"; "capture_device_ids";
   "primary_capture_device"].

Definition timestamp_keys : list string :=
  ["last_corroborated_at"; "captured_at"; "updated_at"; "expires_at"].

(** [value.replace("Z", "+00:00")] *)
Definition replace_zulu (s : string) : string :=
  String.string_of_list_ascii
    (mbind (fun c => if bool_decide (c = "Z"%char) then String.list_ascii_of_string "+00:00" else [c])
       (String.list_ascii_of_string s)).

Definition _coerce_iso_timestamp (s : string) : option value := fromisoformat (replace_zulu s).

(** One extra field: a timestamp text is parsed, and dropped when it is
    malformed; a confidence that is no number is dropped. *)
Definition extra_field (k : string) (v : value) : option value :=
  match v with
  | VStr s => if decide (k ∈ timestamp_keys) then _coerce_iso_timestamp s
              else if decide (k = "confidence") then None else Some v
  | _ => if decide (k = "confidence") then if is_none v || is_number v then Some v else None else Some v
  end.

Definition extra_item_updates (raw : fields) : dict :=
  omap (fun k => v ← raw !! k; (fun v => (k, v)) <$> extra_field k v) optional_item_keys.

Definition popped_keys : list string :=
  ["existing_item"; "superseded_items"; "promotion_audit"; "promotion"; "expected_item_revision";
   "expected_content_hash"; "evidence"] ++ optional_item_keys.

(** What is left of the payload when the extra fields are popped. *)
Definition patch_fields (raw : fields) : fields := filter (fun kv => kv.1 ∉ popped_keys) raw.

Fixpoint unknown_evidence_list (ids : list value) : res (list value) :=
  match ids with
  | [] => Ok []
  | id :: ids' => e ← unknown_evidence id; es ← unknown_evidence_list ids'; Ok (e :: es)
  end.

(** The evidence of the payload, or records for its identifiers. *)
Definition payload_evidence (raw : fields) : res (list value) :=
  match doc_get raw "evidence" with
  | VList (e :: l) => Ok (e :: l)
  | v => if truthy v then Raise Unmodelled
         else match doc_get raw "evidence_ids" with
              | VList ids => unknown_evidence_list ids
              | ids => if truthy ids then Raise Unmodelled else Ok []
              end
  end.

(** ** Superseded items *)
Definition superseded_ids (p : patch) : list string :=
  match doc_get p "supersedes" with VList l => texts l | _ => [] end.

Fixpoint read_items (l : list value) : res (list item) :=
  match l with
  | [] => Ok []
  | VDict d :: l' => i ← memory_item (fields_of d); items ← read_items l'; Ok (i :: items)
  | _ => Raise TypeError
  end.

(** The last item of each identifier, as in a dictionary comprehension. *)
Definition items_by_id (l : list item) : gmap string item :=
  list_to_map (rev ((fun d => (text_or d "memory_id", d)) <$> l)).

Definition is_ledger (p : patch) : bool := v_is (doc_get p "ledger_schema_version") KNOWLEDGE_LEDGER.

(** Why a ledger amendment may not supersede an item. *)
Definition amends (p : patch) (existing : item) : bool :=
  is_ledger existing && forallb (fun k => py_eq (doc_get existing k) (doc_get p k))
    ["kind"; "subject_scope"; "subject_entity_id"].

Definition time_of (v : value) : res Z := match v with VTime true t => Ok t | _ => Raise TypeError end.

Definition superseded_at (p : patch) (new_item existing : item) (now : Z) : res Z :=
  updated ← field_time existing "updated_at";
  if is_ledger p then
    since ← time_of (valid_since new_item); before ← time_of (valid_since existing);
    Ok (Z.max (Z.max (Z.max now updated) since) before)
  else Ok (Z.max now updated).

Definition superseded_item (p : patch) (new_item existing : item) (commit_id : string) (sequence now : Z)
    : res item :=
  at_ ← superseded_at p new_item existing now;
  version ← next_int existing "version"; item_revision ← next_int existing "item_revision";
  Ok (model_copy existing
    ([("canonical_memory_id", doc_get new_item "memory_id"); ("status", VStr "superseded");
      ("superseded_by", doc_get new_item "memory_id"); ("updated_at", instant at_);
      ("valid_to", if is_ledger p then instant at_ else doc_get existing "valid_to");
      ("ledger_commit_id", VStr commit_id); ("ledger_sequence", VInt sequence);
      ("version", version); ("item_revision", item_revision)] ++ cleared_graph)).

(** The items a commit supersedes, or the status that refuses them. *)
Fixpoint supersede_items (p : patch) (new_item : item) (by_id : gmap string item) (commit_id : string)
    (sequence now : Z) (ids : list string) : res (ApplyStatus + list item) :=
  match ids with
  | [] => Ok (inr [])
  | id :: ids' =>
      match by_id !! id with
      | None => Raise KeyError
      | Some existing =>
          if negb (v_is (doc_get existing "status") "active") then Ok (inl target_not_active)
          else if is_ledger p && negb (amends p existing) then Ok (inl invalid_patch)
          else
            i ← superseded_item p new_item existing commit_id sequence now;
            rest ← supersede_items p new_item by_id commit_id sequence now ids';
            Ok (match rest with inl st => inl st | inr items => inr (i :: items) end)
      end
  end.

Definition superseded_of (p : patch) (superseded_items_raw : value) (new_item : item) (commit_id : string)
    (sequence now : Z) : res (ApplyStatus + list item) :=
  let ids := superseded_ids p in
  if decide (ids = []) then Ok (inr [])
  else match superseded_items_raw with
       | VList l =>
           items ← read_items l;
           let by_id := items_by_id items in
           if decide (dom by_id = list_to_set (C := gset string) ids)
           then supersede_items p new_item by_id commit_id sequence now ids
           else Ok (inl invalid_patch)
       | _ => Ok (inl invalid_patch)
       end.

(** ** The outbox of a commit *)
Definition projection_eligible (d : item) : bool :=
  v_is (doc_get d "status") "active" && v_is (doc_get d "processing_state") "processed"
  && v_in (doc_get d "tier") ["short_term"; "long_term"]
  && negb (bool_decide (dict_get "user_review" (dict_or d "promotion") = VBool false))
  && negb (_has_restricted_sensitivity d).

Definition item_events (op : MemoryOperation) (c : MemoryControlState) (commit_id : string)
    (sequence now : Z) (d : item) : list MemoryOutboxEvent :=
  outbox_event op c commit_id sequence (Some (text_or d "memory_id"))
    [("memory_id", doc_get d "memory_id"); ("tier", doc_get d "tier");
     ("action", VStr (if projection_eligible d then "upsert" else "delete"));
     ("item_revision", doc_get d "item_revision"); ("content_hash", doc_get d "content_hash")] now
    <$> [projection_sync; vector_sync].

(** ** The transaction *)
Definition graph_refresh (existing : option item) (op : MemoryOperation) (p : patch) (new_item : item) : bool :=
  match existing with
  | Some e => promotes e p || bool_decide (operation_type op = graph_enrichment)
  | None => false
  end
  || active_long_term new_item && truthy (doc_get new_item "graph_ready")
     && negb (truthy (doc_get p "clear_graph_assertion")).

(** The item with its graph assertion, when it needs one; [None] refuses. *)
Definition attach_assertion (op : MemoryOperation) (refresh : bool) (new_item : item) (commit_id : string)
    (sequence : Z) : res (option (item * list MemoryGraphAssertion)) :=
  if negb refresh then Ok (Some (new_item, []))
  else match dict_get "graph_plan" (dict_or new_item "promotion") with
       | VDict raw_plan =>
           match promotion_graph_plan raw_plan with
           | Raise _ => Ok None
           | Ok plan =>
               revision ← field_int new_item "item_revision";
               a ← build_memory_graph_assertion (op_uid op) (text_or new_item "memory_id") revision
                     (text_or new_item "content_hash") (texts (evidence_id <$> evidence_of new_item)) plan
                     commit_id sequence (doc_get new_item "updated_at");
               Ok (Some (model_copy new_item
                     [("graph_ready", VBool true); ("graph_assertion_id", VStr (assertion_id a));
                      ("graph_plan_hash", VStr (plan_hash plan)); ("kg_extracted", VBool true)], [a]))
           end
       | _ => Ok None
       end.

(** The commit of a patch that passed every guard. *)
Definition commit_items (c next : MemoryControlState) (op : MemoryOperation) (commit_id : string)
    (items : list item) (assertions : list MemoryGraphAssertion) (now : Z) : res ApplyResult :=
  let events := items ≫= item_events op c commit_id (commit_sequence next) now in
  finished ← mark_committed op commit_id (commit_sequence next)
           ((fun d => text_or d "memory_id") <$> items) (event_id <$> events) now;
  Ok (Result apply_committed next finished items assertions events).

Definition commit_barrier (c next : MemoryControlState) (op : MemoryOperation) (commit_id : string) (now : Z)
    : res ApplyResult :=
  let events := _barrier_outbox_events op c commit_id (commit_sequence next) now in
  finished ← mark_committed op commit_id (commit_sequence next) [] (event_id <$> events) now;
  Ok (Result apply_committed next finished [] [] events).

(** The item the patch creates or updates; [None] refuses. *)
Definition patched_item (c : MemoryControlState) (op : MemoryOperation) (raw : fields) (p : patch)
    (evidence : list value) (existing : option item) (allow : bool) (commit_id : string) (sequence now : Z)
    : res (option item) :=
  let extra := extra_item_updates raw in
  match existing with
  | Some existing =>
      if update_allowed op c existing p evidence (doc_get raw "promotion_audit") (doc_get raw "promotion")
           (doc_get raw "expected_item_revision") (doc_get raw "expected_content_hash") extra allow
      then d ← _apply_update_memory_item existing p (map_to_list (patch_fields raw)).*1 evidence commit_id
                 sequence (doc_get raw "promotion_audit") extra now;
           Ok (Some d)
      else Ok None
  | None =>
      d ← _materialize_memory_item (op_uid op) p evidence commit_id sequence (account_generation c)
            (doc_get raw "promotion") now;
      d ← (if truthy (VDict extra) then memory_item (model_copy d extra) else Ok d);
      Ok (Some d)
  end.

(** The item an update patch applies to: [Some None] when it is none. *)
Definition existing_of (raw : fields) (p : patch) : res (option (option item)) :=
  if v_is (doc_get p "decision") "update" then
    match doc_get raw "existing_item" with
    | VDict d => i ← memory_item (fields_of d); Ok (Some (Some i))
    | VNone => Ok None
    | _ => Raise TypeError
    end
  else Ok (Some None).

(** From the first commit on: the patch, its graph assertion, what it supersedes. *)
Definition apply_patch (c : MemoryControlState) (op : MemoryOperation) (raw : fields) (p : patch)
    (evidence : list value) (allow : bool) (now : Z) : res ApplyResult :=
  let commit_id := next_commit_id c (operation_id op) in
  next ← advance_head c commit_id now;
  if v_is (doc_get p "decision") "skip_duplicate" then commit_barrier c next op commit_id now
  else
    existing ← existing_of raw p;
    match existing with
    | None => Ok (refused invalid_patch c op)
    | Some existing =>
        patched ← patched_item c op raw p evidence existing allow commit_id (commit_sequence next) now;
        match patched with
        | None => Ok (refused invalid_patch c op)
        | Some d =>
            attached ← attach_assertion op (graph_refresh existing op p d) d commit_id (commit_sequence next);
            match attached with
            | None => Ok (refused invalid_patch c op)
            | Some (d, assertions) =>
                superseded ← superseded_of p (doc_get raw "superseded_items") d commit_id
                               (commit_sequence next) now;
                match superseded with
                | inl st => Ok (refused st c op)
                | inr items => commit_items c next op commit_id (d :: items) assertions now
                end
            end
        end
    end.

Definition apply_long_term_patch_transaction (c : MemoryControlState) (op : MemoryOperation)
    (patch_payload : fields) (allow_trigger_feedback_arguments : bool) (now : Z) : res ApplyResult :=
  evidence ← payload_evidence patch_payload;
  match durable_memory_patch (patch_fields patch_payload) with
  | Raise _ => Ok (refused invalid_patch c op)
  | Ok p =>
      if negb (py_eq (doc_get p "evidence_ids") (str_list (evidence_ids op)))
      then Ok (refused payload_mismatch c op)
      else if is_ledger p && negb (bool_decide (operation_type op = ledger_mutation))
      then Ok (refused invalid_patch c op)
      else
        digest ← _operation_digest_for_patch p op (build_patch_mutation_identity patch_payload);
        if negb (bool_decide (digest = op_logical_payload_digest op))
        then Ok (refused payload_mismatch c op)
        else if decide (op_status op = committed) then Ok (refused idempotent_skip c op)
        else if is_stale op (account_generation c) (source_generation c)
        then stale ← _stale_operation op now; Ok (refused generation_mismatch c stale)
        else if given (observed_head_commit_id op)
             && negb (bool_decide (observed_head_commit_id op = Some (head_commit_id c)))
        then Ok (refused retryable_head_mismatch c (rebased_operation op c now))
        else if bool_decide (operation_type op = graph_enrichment)
             && negb (v_is (doc_get p "decision") "update")
        then Ok (refused invalid_patch c op)
        else if existsb (fun e => negb (v_is (source_state e) "active")) evidence
        then Ok (refused source_not_active c op)
        else apply_patch c op patch_payload p evidence allow_trigger_feedback_arguments now
  end.
End Apply.
