(* ===== verification/MemoryRecords.v ===== *)
(** * Stored records of the memory ledger

    How the control state, the operations, the outbox events and the graph
    assertions of the ledger are written to Firestore ([_firestore_data] of
    backend/database/memory_apply_store.py on the models of
    backend/models/memory_apply.py, memory_operations.py and memory_promotion.py)
    and read back by the strict reader of backend/database/read_boundary.py.
    pydantic's conversions between types are not described ([Unmodelled]). *)

From S2P Require Import Prelude PyValue Firestore Sha256 MemoryText MemoryOperations MemoryModels MemoryPromotion MemoryApply.
From Stdlib Require Import QArith_base Ascii.
Local Open Scope Z_scope.

(** ** Readers of a field *)
Definition rd_str (v : value) : res string :=
  match v with VStr s => Ok s | _ => Raise ValueError end.

Definition rd_int (v : value) : res Z :=
  match v with
  | VInt z => Ok z
  | VBool _ | VFloat _ | VStr _ => Raise Unmodelled
  | _ => Raise ValueError
  end.

(** A datetime; a naive one is read as UTC when [naive] says so. *)
Definition rd_time (naive : bool) (v : value) : res Z :=
  match v with
  | VTime true us => Ok us
  | VTime false us => if naive then Ok us else Raise ValueError
  | VInt _ | VFloat _ | VStr _ => Raise Unmodelled
  | _ => Raise ValueError
  end.

Definition rd_dict (v : value) : res dict :=
  match v with VDict d => Ok d | _ => Raise ValueError end.

Definition rd_strs (v : value) : res (list string) :=
  match v with VList l => read_strs l | _ => Raise ValueError end.

Definition rd_opt {A} (rd : value -> res A) (v : value) : res (option A) :=
  match v with VNone => Ok None | _ => a ← rd v; Ok (Some a) end.

(** A field without a default, and one with. *)
Definition required {A} (d : fields) (k : string) (rd : value -> res A) : res A :=
  match d !! k with Some v => rd v | None => Raise ValueError end.

Definition defaulted {A} (d : fields) (k : string) (rd : value -> res A) (a : A) : res A :=
  match d !! k with Some v => rd v | None => Ok a end.

(** One of a list of named constructors. *)
Definition rd_enum {A} (name : A -> string) (all : list A) (v : value) : res A :=
  match List.find (fun a => v_is v (name a)) all with Some a => Ok a | None => Raise ValueError end.

Definition opt_time (o : option Z) : value := from_option instant VNone o.

(** [parse_snapshot_strict]: a validation error of a stored document is a
    corruption of the store. *)
Definition parse_snapshot_strict {A} (r : res A) : res A :=
  match r with
  | Raise ValueError | Raise TypeError => Raise MalformedDocError
  | _ => r
  end.

(** ** Control states *)
Definition writer_mode_value (m : WriterMode) : string :=
  match m with
  | compatibility => "compatibility" | transitioning_to_ledger => "transitioning_to_ledger"
  | ledger => "ledger" | transitioning_to_compatibility => "transitioning_to_compatibility"
  end.

Definition control_dict (c : MemoryControlState) : dict :=
  [("uid", VStr (control_uid c)); ("head_commit_id", VStr (head_commit_id c));
   ("account_generation", VInt (account_generation c)); ("source_generation", VInt (source_generation c));
   ("writer_mode", VStr (writer_mode_value (writer_mode c))); ("writer_epoch", VInt (writer_epoch c));
   ("writer_transition_owner", opt_str (writer_transition_owner c));
   ("ledger_migration_migrated_count", VInt (ledger_migration_migrated_count c));
   ("ledger_migration_adjudicated_count", VInt (ledger_migration_adjudicated_count c));
   ("commit_sequence", VInt (commit_sequence c));
   ("projection_watermark_commit_id", opt_str (projection_watermark_commit_id c));
   ("projection_watermark_sequence", VInt (projection_watermark_sequence c));
   ("vector_watermark_commit_id", opt_str (vector_watermark_commit_id c));
   ("last_promotion_run_at", opt_time (last_promotion_run_at c));
   ("last_consolidation_run_at", opt_time (last_consolidation_run_at c));
   ("legacy_backfill_processed_count", VInt (legacy_backfill_processed_count c));
   ("legacy_backfill_source_fingerprint", opt_str (legacy_backfill_source_fingerprint c));
   ("legacy_backfill_completed_at", opt_time (legacy_backfill_completed_at c));
   ("updated_at", instant (control_updated_at c))].

Definition control_data (c : MemoryControlState) : fields := list_to_map (control_dict c).

(** [validate_writer_epoch_is_an_integer] runs before the conversion. *)
Definition rd_epoch (v : value) : res Z := match v with VInt z => Ok z | _ => Raise ValueError end.

Definition memory_control_state (d : fields) (now : Z) : res MemoryControlState :=
  uid ← required d "uid" rd_str; head ← required d "head_commit_id" rd_str;
  account ← required d "account_generation" rd_int; source ← required d "source_generation" rd_int;
  mode ← defaulted d "writer_mode"
           (rd_enum writer_mode_value
              [compatibility; transitioning_to_ledger; ledger; transitioning_to_compatibility]) compatibility;
  epoch ← defaulted d "writer_epoch" rd_epoch 0;
  owner ← defaulted d "writer_transition_owner" (rd_opt rd_str) None;
  migrated ← defaulted d "ledger_migration_migrated_count" rd_int 0;
  adjudicated ← defaulted d "ledger_migration_adjudicated_count" rd_int 0;
  sequence ← defaulted d "commit_sequence" rd_int 0;
  watermark ← defaulted d "projection_watermark_commit_id" (rd_opt rd_str) None;
  watermark_sequence ← defaulted d "projection_watermark_sequence" rd_int 0;
  vector ← defaulted d "vector_watermark_commit_id" (rd_opt rd_str) None;
  promotion_at ← defaulted d "last_promotion_run_at" (rd_opt (rd_time true)) None;
  consolidation_at ← defaulted d "last_consolidation_run_at" (rd_opt (rd_time true)) None;
  backfilled ← defaulted d "legacy_backfill_processed_count" rd_int 0;
  fingerprint ← defaulted d "legacy_backfill_source_fingerprint" (rd_opt rd_str) None;
  backfilled_at ← defaulted d "legacy_backfill_completed_at" (rd_opt (rd_time true)) None;
  updated ← defaulted d "updated_at" (rd_time true) now;
  let c := Control uid head account source mode epoch owner migrated adjudicated sequence watermark
             watermark_sequence vector promotion_at consolidation_at backfilled fingerprint backfilled_at updated in
  if valid_control c then Ok c else Raise ValueError.

(** ** Operations *)
Definition operation_status_value (st : MemoryOperationStatus) : string :=
  match st with
  | pending => "pending" | committed => "committed" | skipped_idempotent => "skipped_idempotent"
  | retryable_failure => "retryable_failure" | permanent_failure => "permanent_failure"
  | stale_generation => "stale_generation"
  end.

(** [self.model_dump()], with its [None] members. *)
Definition payload_dict (p : OperationLogicalPayload) : dict :=
  [("decision", VStr (lp_decision p)); ("memory_text", opt_str (lp_memory_text p));
   ("target_memory_id", opt_str (lp_target_memory_id p)); ("result_status", opt_str (lp_result_status p));
   ("supersedes", str_list (lp_supersedes p)); ("subject_entity_id", opt_str (lp_subject_entity_id p));
   ("predicate", opt_str (lp_predicate p)); ("arguments", VDict (lp_arguments p));
   ("target_tier", opt_str (lp_target_tier p)); ("target_visibility", opt_str (lp_target_visibility p));
   ("target_user_asserted", opt_bool (lp_target_user_asserted p));
   ("clear_graph_assertion", opt_bool (lp_clear_graph_assertion p));
   ("mutation_metadata", opt_dict (lp_mutation_metadata p)); ("metadata", VDict (lp_metadata p))].

(** The model forbids other members. *)
Definition read_logical_payload (v : value) : res OperationLogicalPayload :=
  l ← rd_dict v;
  let d := fields_of l in
  if negb (forallb (fun kv => bool_decide (kv.1 ∈ known_payload_keys ++ ["metadata"])) l) then Raise ValueError
  else
    decision ← required d "decision" rd_str;
    text ← defaulted d "memory_text" (rd_opt rd_str) None;
    target ← defaulted d "target_memory_id" (rd_opt rd_str) None;
    result ← defaulted d "result_status" (rd_opt rd_str) None;
    supersedes ← defaulted d "supersedes" rd_strs [];
    subject ← defaulted d "subject_entity_id" (rd_opt rd_str) None;
    predicate ← defaulted d "predicate" (rd_opt rd_str) None;
    arguments ← defaulted d "arguments" rd_dict [];
    tier ← defaulted d "target_tier" (rd_opt rd_str) None;
    visibility ← defaulted d "target_visibility" (rd_opt rd_str) None;
    asserted ← defaulted d "target_user_asserted" read_opt_bool None;
    clear ← defaulted d "clear_graph_assertion" read_opt_bool None;
    mutation ← defaulted d "mutation_metadata" (rd_opt rd_dict) None;
    metadata ← defaulted d "metadata" rd_dict [];
    Ok (LogicalPayload decision text target result supersedes subject predicate arguments tier visibility
          asserted clear mutation metadata).

Definition operation_dict (m : MemoryOperation) : dict :=
  [("operation_id", VStr (operation_id m)); ("uid", VStr (op_uid m));
   ("operation_type", VStr (operation_type_value (operation_type m)));
   ("status", VStr (operation_status_value (op_status m)));
   ("source_packet_id", opt_str (source_packet_id m)); ("target_memory_id", opt_str (target_memory_id m));
   ("evidence_ids", str_list (evidence_ids m)); ("logical_payload", VDict (payload_dict (logical_payload m)));
   ("logical_payload_digest", VStr (op_logical_payload_digest m));
   ("account_generation", VInt (op_account_generation m)); ("source_generation", VInt (op_source_generation m));
   ("observed_head_commit_id", opt_str (observed_head_commit_id m));
   ("committed_head_commit_id", opt_str (committed_head_commit_id m));
   ("committed_sequence", opt_int (committed_sequence m));
   ("committed_memory_item_ids", str_list (committed_memory_item_ids m));
   ("committed_outbox_event_ids", str_list (committed_outbox_event_ids m));
   ("attempt_count", VInt (attempt_count m)); ("error_code", opt_str (error_code m));
   ("untrusted_proposed_operation_id", opt_str (untrusted_proposed_operation_id m));
   ("created_at", instant (created_at m)); ("updated_at", instant (updated_at m))].

Definition operation_data (m : MemoryOperation) : fields := list_to_map (operation_dict m).

Definition operation_types : list MemoryOperationType :=
  [source_candidate; source_replacement; synthesis; long_term_apply; user_mutation; archive_transition;
   projection_sync_operation; vector_sync_operation; graph_enrichment; deletion; ledger_mutation].
Definition operation_statuses : list MemoryOperationStatus :=
  [pending; committed; skipped_idempotent; retryable_failure; permanent_failure; stale_generation].

Section Records.
Context {T : TextEnv}.

Definition read_operation (d : fields) (now : Z) : res MemoryOperation :=
  id ← required d "operation_id" rd_str; uid ← required d "uid" rd_str;
  t ← required d "operation_type" (rd_enum operation_type_value operation_types);
  st ← required d "status" (rd_enum operation_status_value operation_statuses);
  packet ← defaulted d "source_packet_id" (rd_opt rd_str) None;
  target ← defaulted d "target_memory_id" (rd_opt rd_str) None;
  evidence ← defaulted d "evidence_ids" rd_strs [];
  payload ← required d "logical_payload" read_logical_payload;
  digest ← required d "logical_payload_digest" rd_str;
  account ← required d "account_generation" rd_int; source ← required d "source_generation" rd_int;
  observed ← defaulted d "observed_head_commit_id" (rd_opt rd_str) None;
  head ← defaulted d "committed_head_commit_id" (rd_opt rd_str) None;
  sequence ← defaulted d "committed_sequence" (rd_opt rd_int) None;
  items ← defaulted d "committed_memory_item_ids" rd_strs [];
  events ← defaulted d "committed_outbox_event_ids" rd_strs [];
  attempts ← defaulted d "attempt_count" rd_int 0;
  error ← defaulted d "error_code" (rd_opt rd_str) None;
  proposed ← defaulted d "untrusted_proposed_operation_id" (rd_opt rd_str) None;
  created ← defaulted d "created_at" (rd_time false) now;
  updated ← defaulted d "updated_at" (rd_time false) now;
  memory_operation
    (Operation id uid t st packet target evidence payload digest account source observed head sequence items
       events attempts error proposed created updated).
End Records.

(** ** Events and assertions *)
Definition event_data (e : MemoryOutboxEvent) : fields :=
  list_to_map
    [("event_id", VStr (event_id e)); ("uid", VStr (event_uid e));
     ("event_type", VStr (event_type_value (event_type e))); ("status", VStr "pending");
     ("commit_id", VStr (event_commit_id e)); ("parent_commit_id", VStr (parent_commit_id e));
     ("commit_sequence", VInt (event_sequence e)); ("memory_id", opt_str (event_memory_id e));
     ("operation_id", VStr (event_operation_id e)); ("account_generation", VInt (event_account_generation e));
     ("source_generation", VInt (event_source_generation e)); ("payload", VDict (event_payload e));
     ("available_at", instant (available_at e)); ("attempt_count", VInt 0)].

Definition assertion_schema (p : PromotionGraphPlan) : string :=
  if bool_decide (plan_schema_version p = PROMOTION_GRAPH_PLAN_V2_VERSION)
  then PROMOTION_GRAPH_ASSERTION_V2_VERSION else PROMOTION_GRAPH_ASSERTION_VERSION.

Definition assertion_data (a : MemoryGraphAssertion) : fields :=
  let p := ga_plan a in
  list_to_map
    [("schema_version", VStr (assertion_schema p)); ("assertion_id", VStr (assertion_id a));
     ("uid", VStr (ga_uid a)); ("memory_id", VStr (ga_memory_id a)); ("item_revision", VInt (ga_item_revision a));
     ("content_hash", VStr (ga_content_hash a)); ("evidence_ids", str_list (ga_evidence_ids a));
     ("subject_entity_id", VStr (plan_subject_entity_id p)); ("predicate", VStr (plan_predicate p));
     ("arguments", VDict (plan_arguments p)); ("subject", plan_subject p); ("object", plan_object p);
     ("qualifiers", VDict (plan_qualifiers p)); ("graph_plan_hash", VStr (plan_hash p));
     ("commit_id", VStr (ga_commit_id a)); ("commit_sequence", VInt (ga_commit_sequence a));
     ("status", VStr "active"); ("created_at", ga_created_at a)].

(** ** Reading back what was written *)
Lemma rd_opt_str o : rd_opt rd_str (opt_str o) = Ok o.
Proof. by destruct o. Qed.
Lemma rd_opt_int o : rd_opt rd_int (opt_int o) = Ok o.
Proof. by destruct o. Qed.
Lemma rd_opt_time b o : rd_opt (rd_time b) (opt_time o) = Ok o.
Proof. by destruct o. Qed.
Lemma rd_opt_dict o : rd_opt rd_dict (opt_dict o) = Ok o.
Proof. by destruct o. Qed.
Lemma read_opt_bool_of o : read_opt_bool (opt_bool o) = Ok o.
Proof. by destruct o. Qed.
Lemma rd_strs_list l : rd_strs (str_list l) = Ok l.
Proof.
  unfold rd_strs, str_list. simpl. induction l as [|s l IH]; [done|]. rewrite fmap_cons. cbn [read_strs].
  by rewrite IH.
Qed.
Lemma rd_writer_mode m :
  rd_enum writer_mode_value [compatibility; transitioning_to_ledger; ledger; transitioning_to_compatibility]
    (VStr (writer_mode_value m)) = Ok m.
Proof. by destruct m. Qed.
Lemma rd_operation_type t : rd_enum operation_type_value operation_types (VStr (operation_type_value t)) = Ok t.
Proof. by destruct t. Qed.
Lemma rd_operation_status st :
  rd_enum operation_status_value operation_statuses (VStr (operation_status_value st)) = Ok st.
Proof. by destruct st. Qed.
Lemma rd_str_of s : rd_str (VStr s) = Ok s.
Proof. done. Qed.
Lemma rd_int_of z : rd_int (VInt z) = Ok z.
Proof. done. Qed.
Lemma rd_epoch_of z : rd_epoch (VInt z) = Ok z.
Proof. done. Qed.
Lemma rd_time_of b t : rd_time b (instant t) = Ok t.
Proof. done. Qed.
Lemma rd_dict_of d : rd_dict (VDict d) = Ok d.
Proof. done. Qed.

Create HintDb records.
#[export] Hint Resolve rd_opt_str rd_opt_int rd_opt_time rd_opt_dict read_opt_bool_of rd_strs_list rd_writer_mode
  rd_operation_type rd_operation_status rd_str_of rd_int_of rd_epoch_of rd_time_of rd_dict_of : records.

Lemma required_step {A B} (l : dict) k (rd : value -> res A) v a (f : A -> res B) :
  dict_lookup k l = Some v -> rd v = Ok a -> (required (list_to_map l) k rd ≫= f) = f a.
Proof. intros Hl Hr. unfold required. by rewrite list_to_map_get, Hl, Hr. Qed.

Lemma defaulted_step {A B} (l : dict) k (rd : value -> res A) v a b (f : A -> res B) :
  dict_lookup k l = Some v -> rd v = Ok a -> (defaulted (list_to_map l) k rd b ≫= f) = f a.
Proof. intros Hl Hr. unfold defaulted. by rewrite list_to_map_get, Hl, Hr. Qed.

(** [read_back] reads the fields of a written record one by one. *)
Ltac read_back :=
  repeat (etrans; [first [eapply required_step | eapply defaulted_step]; [reflexivity|solve [eauto with records]]|]);
  cbv beta.

(** A stored control state is read back as it was. *)
Lemma control_roundtrip c now : valid_control c = true -> memory_control_state (control_data c) now = Ok c.
Proof.
  intros Hv. unfold memory_control_state, control_data. read_back.
  destruct c. simpl in *. by rewrite Hv.
Qed.

Lemma payload_roundtrip p : read_logical_payload (VDict (payload_dict p)) = Ok p.
Proof.
  unfold read_logical_payload. cbn [rd_dict]. rewrite ok_bind. cbv zeta. change (negb _) with false. cbn iota.
  unfold fields_of. read_back. by destruct p.
Qed.
#[export] Hint Resolve payload_roundtrip : records.

(** So is a stored operation. *)
Lemma operation_roundtrip `{T : TextEnv} m now : valid_operation m = true -> read_operation (operation_data m) now = Ok m.
Proof.
  intros Hv. unfold read_operation, operation_data. read_back.
  assert (H : memory_operation m = Ok m) by (unfold memory_operation; by rewrite Hv).
  etrans; [|exact H]. f_equal. by destruct m.
Qed.
