(* ===== verification/MemoryReceipts.v ===== *)
(** * Receipts and reviews of the memory ledger
    (backend/models/jit_trigger_feedback.py, jit_proactivity.py, memory_review.py,
    the reopen receipt of memory_operations.py, and the deletion receipts and
    review resolutions of backend/database/memory_apply_store.py)

    Small documents that fence or record one kind of ledger write: the feedback
    of a trigger, the event it answers, the reopening of a closed row, the review
    of an uncertain item, and the receipt of a privacy deletion. *)

From S2P Require Import Prelude PyValue Firestore Sha256 MemoryText MemoryOperations MemoryModels MemoryPromotion MemoryApply MemoryRecords.
From Stdlib Require Import QArith_base Ascii.
Local Open Scope Z_scope.

(** ** Collections (backend/database/memory_collections.py) *)
Definition memory_ref (uid collection id : string) : res path :=
  document_path ("users/" +:+ uid +:+ "/" +:+ collection +:+ "/" +:+ id).

Definition control_ref (uid : string) : res path := memory_ref uid "memory_state" "apply_control".
Definition state_head_ref (uid : string) : res path := memory_ref uid "memory_state" "head".
Definition operation_ref (uid id : string) : res path := memory_ref uid "memory_operations" id.
Definition item_ref (uid id : string) : res path := memory_ref uid "memory_items" id.
Definition evidence_ref (uid id : string) : res path := memory_ref uid "memory_evidence" id.
Definition commit_ref (uid id : string) : res path := memory_ref uid "memory_commits" id.
Definition assertion_ref (uid id : string) : res path := memory_ref uid "memory_graph_assertions" id.
Definition outbox_ref (uid id : string) : res path := memory_ref uid "memory_outbox" id.
Definition review_ref (uid id : string) : res path := memory_ref uid "memory_review_queue" id.
Definition reopen_ref (uid id : string) : res path := memory_ref uid "memory_ledger_reopens" id.
Definition feedback_ref (uid id : string) : res path := memory_ref uid "jit_trigger_feedback" id.
Definition proactivity_ref (uid id : string) : res path := memory_ref uid "jit_proactivity_events" id.
Definition deletion_receipt_ref (uid id : string) : res path := memory_ref uid "memory_deletion_receipts" id.
Definition replacement_ref (uid id : string) : res path := memory_ref uid "memory_source_replacements" id.
Definition correction_ref (uid id : string) : res path := memory_ref uid "memory_corrections" id.

(** What the store takes from its process: the secret of the deletion receipts
    ([ENCRYPTION_SECRET], empty when unset) and pydantic's JSON dump. *)
Class StoreEnv := { encryption_secret : string; json_dump : value -> value }.

(** ** HMAC-SHA256 *)
Definition pad_key (key : list Z) : list Z :=
  let k := if (64 <? Z.of_nat (length key)) then sha256 key else key in
  k ++ replicate (64 - length k) 0.

Definition hmac_sha256 (key msg : list Z) : list Z :=
  let k := pad_key key in
  sha256 (map (Z.lxor 92) k ++ sha256 (map (Z.lxor 54) k ++ msg)).

Definition newline : string := String.String "010"%char "".

Definition privacy_deletion_receipt_id `{StoreEnv} (uid memory_id : string) : res string :=
  let secret := encode encryption_secret in
  if Z.of_nat (length secret) <? 32 then Raise MemoryFirestoreApplyError
  else Ok ("receipt_" +:+ hexdigest (hmac_sha256 secret
         (encode ("memory-privacy-receipt.v2" +:+ newline +:+ uid +:+ newline +:+ memory_id)))).

Section Receipts.
Context {T : TextEnv} {Md : ModelEnv}.

(** ** Trigger feedback *)

(** A stripped identifier of at most [n] characters without a slash. *)
Definition short_identifier (n : Z) (v : value) : res value :=
  match v with
  | VStr s =>
      let normalized := strip s in
      if bool_decide (normalized = "") || (n <? py_len normalized) || negb (bool_decide (no_slash normalized))
      then Raise ValueError else Ok (VStr normalized)
  | _ => Raise ValueError
  end.

Definition optional_identifier (n : Z) (v : value) : res value :=
  if is_none v then Ok VNone else short_identifier n v.

Definition aware (v : value) : bool := match v with VTime true _ => true | _ => false end.

Definition jit_trigger_feedback_receipt (raw : fields) : res fields :=
  d ← read_model "JITTriggerFeedbackReceipt" raw;
  uid ← short_identifier 256 (doc_get d "uid");
  trigger ← short_identifier 256 (doc_get d "trigger_memory_id");
  let d := model_copy d [("uid", uid); ("trigger_memory_id", trigger)] in
  let snooze := v_is (doc_get d "action") "snooze" in
  let until := doc_get d "snoozed_until" in
  if aware (doc_get d "recorded_at") && (is_none until || aware until)
     && Bool.eqb snooze (negb (is_none until))
     && (is_none until || time_lt (doc_get d "recorded_at") until)
  then Ok d else Raise ValueError.

Definition is_hex (c : ascii) : bool :=
  let n := N_of_ascii c in ((48 <=? n) && (n <=? 57) || (97 <=? n) && (n <=? 102))%N.

Definition content_free_identifier (v : value) : res value :=
  match v with
  | VStr s =>
      let normalized := strip s in
      if (py_len normalized =? 64) && forallb is_hex (String.list_ascii_of_string normalized)
      then Ok (VStr normalized) else Raise ValueError
  | _ => Raise ValueError
  end.

Definition jit_proactivity_event_receipt (raw : fields) : res fields :=
  d ← read_model "JITProactivityEventReceipt" raw;
  uid ← short_identifier 128 (doc_get d "uid");
  event ← content_free_identifier (doc_get d "event_id");
  candidate ← content_free_identifier (doc_get d "candidate_id");
  device ← content_free_identifier (doc_get d "device_id");
  trigger ← optional_identifier 256 (doc_get d "trigger_memory_id");
  feedback ← optional_identifier 256 (doc_get d "feedback_id");
  let d := model_copy d [("uid", uid); ("event_id", event); ("candidate_id", candidate); ("device_id", device);
                         ("trigger_memory_id", trigger); ("feedback_id", feedback)] in
  let full_turn := v_is (doc_get d "operation") "full_turn" in
  if aware (doc_get d "created_at")
     && Bool.eqb (is_none trigger) (is_none (doc_get d "trigger_revision"))
     && negb (v_is (doc_get d "operation") "planned_notification" && is_none trigger)
     && Bool.eqb full_turn (negb (is_none (doc_get d "parent_event_id")))
  then Ok d else Raise ValueError.

(** ** Reopened rows *)
Definition memory_ledger_reopen_receipt (raw : fields) : res fields :=
  d ← read_model "MemoryLedgerReopenReceipt" raw;
  if forallb (fun k => nonblank (text_or d k))
       ["uid"; "source_memory_id"; "replacement_memory_id"; "operation_id"; "source_content_hash"]
     && forallb (fun k => match doc_get d k with VInt n => 0 <=? n | _ => false end)
          ["account_generation"; "source_generation"; "source_item_revision"]
  then Ok d else Raise ValueError.

(** ** Reviews *)
Definition REVIEW_TTL : Z := seconds (72 * 3600).

(** [sorted({v.strip() for v in conflicts if v and v.strip()})] *)
Definition review_conflicts (conflict_with : list string) : list string :=
  sorted_set (omap (fun s => if nonblank s then Some (strip s) else None) conflict_with).

(** The review document of a canonical item; [fact_id] is [str(fact.get("id") or "")]
    and [now] an aware instant. *)
Definition build_memory_review_conflict (fact : dict) (conflict_with : list string) (source_commit_id : string)
    (source_item_revision : Z) (source_content_hash : value) (source_short_term_id : value) (impact : value)
    (now : Z) : res dict :=
  fact_id ← match py_or (dict_get "id" fact) (VStr "") with VStr s => Ok (strip s) | _ => Raise Unmodelled end;
  if bool_decide (fact_id = "") then Raise ValueError
  else if bool_decide (source_commit_id = "") || (source_item_revision <? 1) || negb (truthy source_content_hash)
  then Raise ValueError
  else
    expires ← dt_add now REVIEW_TTL;
    revision ← py_str (VInt source_item_revision);
    let conflicts := review_conflicts conflict_with in
    Ok [("review_id", VStr ("review:" +:+ fact_id +:+ ":r" +:+ revision +:+ ":" +:+ String.concat "," conflicts));
        ("fact_id", VStr fact_id); ("candidate", VDict fact); ("conflict_with", str_list conflicts);
        ("veracity", dict_get "veracity" fact); ("impact", impact); ("status", VStr "pending");
        ("source_commit_id", VStr source_commit_id); ("source_short_term_id", source_short_term_id);
        ("created_at", instant now); ("updated_at", instant now); ("expires_at", instant expires);
        ("permitted_uses", str_list ["answers_with_disclaimer"]); ("authority", VStr "canonical_memory");
        ("source_item_revision", VInt source_item_revision); ("source_content_hash", source_content_hash);
        ("referenced_memory_ids", str_list (sorted_set (fact_id :: conflicts)))].

Record CanonicalReviewResolution := ReviewResolution {
  review_id : string;
  review_memory_id : string;
  review_decision : string;
  review_reason : string;
  review_authority : option string;
  expected_candidate : option dict;
  mutation_target_memory_id : option string;
  correction_record : option dict
}.

Definition stale_review {A} : res A := Raise (CanonicalReviewResolutionConflict "stale_review").

Definition _read_canonical_review_resolution (uid : string) (request : option CanonicalReviewResolution)
    : Txn (option fields) :=
  match request with
  | None => mret None
  | Some r =>
      if negb (nonblank (review_id r)) || negb (nonblank (review_memory_id r))
         || bool_decide (review_decision r ∉ ["accept"; "correct"; "reject"; "drop"])
      then lift stale_review
      else
        ref ← lift (review_ref uid (review_id r));
        snapshot ← txn_get ref;
        match snapshot with
        | None => lift stale_review
        | Some review_item =>
            if negb (py_eq (doc_get review_item "authority") (opt_str (review_authority r)))
               || negb (v_is (doc_get review_item "review_id") (review_id r))
               || negb (v_is (doc_get review_item "fact_id") (review_memory_id r))
               || match expected_candidate r with
                  | Some candidate => negb (py_eq (doc_get review_item "candidate") (VDict candidate))
                  | None => false
                  end
            then lift stale_review
            else
              open ← lift (v_in_set (doc_get review_item "status") ["pending"; "pending_review"]);
              if negb open then lift (Raise (CanonicalReviewResolutionConflict "already_resolved"))
              else mret (Some review_item)
        end
  end.

Definition _validate_canonical_review_source (review_item : option fields)
    (request : option CanonicalReviewResolution) (d : item) : res unit :=
  match request with
  | None => Ok tt
  | Some r =>
      if negb (bool_decide (review_authority r = Some "canonical_memory")) then Ok tt
      else match review_item with
           | None => stale_review
           | Some review_item =>
               if v_is (doc_get d "memory_id") (review_memory_id r) && v_is (doc_get d "status") "active"
                  && py_eq (doc_get d "ledger_commit_id") (doc_get review_item "source_commit_id")
                  && py_eq (doc_get d "item_revision") (doc_get review_item "source_item_revision")
                  && py_eq (doc_get d "content_hash") (doc_get review_item "source_content_hash")
                  && v_is (dict_get "route" (dict_or d "promotion")) "review"
               then Ok tt else stale_review
           end
  end.

Definition status_by_decision (decision : string) : res string :=
  if bool_decide (decision ∈ ["accept"; "correct"]) then Ok "accepted"
  else if bool_decide (decision = "reject") then Ok "rejected"
  else if bool_decide (decision = "drop") then Ok "dropped" else Raise KeyError.

Definition redacted_review (review_item : fields) (r : CanonicalReviewResolution) (status commit_id : string)
    (now : Z) : fields :=
  model_copy review_item
    [("status", VStr status); ("decision", VStr (review_decision r));
     ("reason", VStr (if bool_decide (review_decision r ∈ ["reject"; "drop"])
                      then "canonical_review_" +:+ review_decision r else review_reason r));
     ("resolved_at", instant now); ("updated_at", instant now); ("resolution_commit_id", VStr commit_id);
     ("candidate", VDict []); ("source_commit_id", VNone); ("source_short_term_id", VNone);
     ("source_item_revision", VNone); ("source_content_hash", VNone); ("veracity", VNone); ("impact", VNone);
     ("permitted_uses", VList [])].

Definition _write_canonical_review_resolution (uid : string) (request : option CanonicalReviewResolution)
    (review_item : option fields) (commit_id : string) (now : Z) : Txn unit :=
  match request with
  | None => mret tt
  | Some r =>
      review_item ← lift (match review_item with Some d => Ok d | None => stale_review end);
      status ← lift (status_by_decision (review_decision r));
      ref ← lift (review_ref uid (review_id r));
      txn_set ref (redacted_review review_item r status commit_id now);;
      match correction_record r with
      | None => mret tt
      | Some record =>
          match dict_get "correction_id" record with
          | VStr id =>
              if bool_decide (review_authority r = Some "canonical_memory") || negb (nonblank id)
              then lift stale_review
              else ref ← lift (correction_ref uid id); txn_set ref (fields_of record)
          | _ => lift stale_review
          end
      end
  end.
End Receipts.
