(* ===== verification/MemoryStore.v ===== *)
(** * The Firestore side of the apply transaction
    (backend/database/memory_apply_store.py)

    One transaction reads the account's fences, the control state, the operation
    and the items and evidence it names, applies the patch to them, and writes the
    operation and, when the patch commits, the head, the commit, the items, their
    assertions and the outbox.  A stage that ends the transaction early returns
    its result ([inl]).  One call reads its clock once. *)

From S2P Require Import Prelude PyValue Firestore LegalHolds Sha256 MemoryText MemoryOperations MemoryModels MemoryPromotion MemoryApply MemoryRecords MemoryReceipts.
From Stdlib Require Import QArith_base Ascii.
Local Open Scope Z_scope.

Definition stage {A B} (m : Txn (B + A)) (k : A -> Txn B) : Txn B :=
  r ← m; match r with inl b => mret b | inr a => k a end.

Fixpoint txn_each {A} (l : list A) (f : A -> Txn unit) : Txn unit :=
  match l with [] => mret tt | a :: l' => f a;; txn_each l' f end.

Definition exists_doc (ref : path) : Txn bool :=
  snapshot ← txn_get ref; mret (match snapshot with Some _ => true | None => false end).

(** ** The request *)
Record apply_request := Request {
  rq_uid : string;
  rq_operation_id : string;
  rq_patch_payload : fields;
  rq_proposed_operation : option MemoryOperation;
  rq_proposed_evidence : option (list value);
  rq_review : option CanonicalReviewResolution;
  rq_required_source : option item;
  rq_reopen : option fields;
  rq_feedback : option fields;
  rq_migration : bool;
  rq_direct : bool
}.

Definition _DIRECT_USER_LEDGER_EVIDENCE_TYPES : list string :=
  ["explicit_user_correction"; "explicit_user_reopen"; "explicit_user_revert"].

Definition _DIRECT_USER_MUTATION_PATCH_FIELDS : list string :=
  ["patch_id"; "packet_id"; "run_id"; "observed_head_commit_id"; "idempotency_key"; "decision";
   "target_memory_id"; "result_status"; "mutation_metadata"; "evidence_ids"; "expected_item_revision";
   "expected_content_hash"; "memory_text"; "target_tier"; "target_user_asserted"; "target_visibility";
   "clear_graph_assertion"; "arguments"; "promotion_audit"; "expires_at"; "kg_extracted"; "valid_to"].

Definition _LEDGER_MIGRATION_PATCH_FIELDS : list string :=
  ["patch_id"; "packet_id"; "run_id"; "observed_head_commit_id"; "idempotency_key"; "decision";
   "target_memory_id"; "result_status"; "mutation_metadata"; "evidence_ids"; "expected_item_revision";
   "expected_content_hash"; "ledger_schema_version"; "kind"; "subject_scope"; "slot"; "valid_from"; "valid_to";
   "curation_weight"; "trigger_condition"; "intent_backed"; "write_reason"; "arguments"].

(** [not set(payload) - allowed] *)
Definition only_fields (payload : fields) (allowed : list string) : bool :=
  forallb (fun kv => bool_decide (kv.1 ∈ allowed)) (map_to_list payload).

Definition store_error {A} : res A := Raise MemoryFirestoreApplyError.

(** A field of a typed document that is not the given integer. *)
Definition differs (d : fields) (k : string) (n : Z) : bool := negb (py_eq (doc_get d k) (VInt n)).

Definition same_fields (d e : fields) (ks : list string) : bool :=
  forallb (fun k => py_eq (doc_get d k) (doc_get e k)) ks.

Section Store.
Context {T : TextEnv} {Md : ModelEnv} {St : StoreEnv}.

Definition read_control (ref : path) (now : Z) : Txn MemoryControlState :=
  snapshot ← txn_get ref;
  match snapshot with
  | None => lift (Raise MissingMemoryDocument)
  | Some d => lift (parse_snapshot_strict (memory_control_state d now))
  end.

Definition parse_item (d : fields) : res item := parse_snapshot_strict (memory_item d).

(** Evidence is the dictionary of its fields. *)
Definition memory_evidence (raw : fields) : res value :=
  d ← read_model "MemoryEvidence" raw;
  if valid_evidence (map_to_list d) then Ok (VDict (map_to_list d)) else Raise ValueError.
Definition parse_evidence (d : fields) : res value := parse_snapshot_strict (memory_evidence d).

(** ** Fences of the account *)
Definition _account_deletion_fence (uid : string) : Txn unit :=
  ref ← lift (account_ref uid);
  marker ← txn_get ref;
  if account_deletion_blocks_access (account_status marker) then lift store_error else mret tt.

(** ** Feedback on a trigger *)
Record feedback_context := Feedback {
  fb_receipt : fields;
  fb_existing : option fields;
  fb_receipt_ref : path;
  fb_event_ref : path;
  fb_event : fields
}.

Definition event_matches (uid : string) (receipt event : fields) : bool :=
  v_is (doc_get event "uid") uid && v_is (doc_get event "operation") "planned_notification"
  && py_eq (doc_get event "account_generation") (doc_get receipt "account_generation")
  && py_eq (doc_get event "trigger_memory_id") (doc_get receipt "trigger_memory_id")
  && py_eq (doc_get event "trigger_revision") (doc_get receipt "expected_trigger_revision")
  && (is_none (doc_get event "feedback_id") || py_eq (doc_get event "feedback_id") (doc_get receipt "feedback_id")).

Definition _read_trigger_feedback (uid : string) (receipt : option fields) : Txn (option feedback_context) :=
  match receipt with
  | None => mret None
  | Some r =>
      if negb (v_is (doc_get r "uid") uid) then lift store_error
      else
        receipt_path ← lift (feedback_ref uid (text_or r "feedback_id"));
        snapshot ← txn_get receipt_path;
        existing ← match snapshot with
                   | None => mret None
                   | Some d =>
                       e ← lift (parse_snapshot_strict (jit_trigger_feedback_receipt d));
                       if negb (py_eq (doc_get e "request_hash") (doc_get r "request_hash")) then lift store_error
                       else mret (Some e)
                   end;
        event_path ← lift (proactivity_ref uid (text_or r "event_id"));
        snapshot ← txn_get event_path;
        match snapshot with
        | None => lift store_error
        | Some d =>
            event ← lift (parse_snapshot_strict (jit_proactivity_event_receipt d));
            if event_matches uid r event then mret (Some (Feedback r existing receipt_path event_path event))
            else lift store_error
        end
  end.

(** ** The operation *)
Definition _read_operation (rq : apply_request) (now : Z) : Txn MemoryOperation :=
  ref ← lift (operation_ref (rq_uid rq) (rq_operation_id rq));
  snapshot ← txn_get ref;
  op ← match snapshot with
       | Some d => lift (parse_snapshot_strict (read_operation d now))
       | None => match rq_proposed_operation rq with
                 | Some op => mret op
                 | None => lift (Raise MissingMemoryDocument)
                 end
       end;
  if negb (bool_decide (op_uid op = rq_uid rq)) then lift store_error
  else if negb (bool_decide (operation_id op = rq_operation_id rq)) then lift store_error
  else mret op.

(** ** Evidence *)
Definition _EVIDENCE_SEMANTIC_EXCLUDES : list string :=
  ["created_at"; "artifact_preservation"; "source_state"; "source_state_reason"; "provenance_visibility";
   "redaction_status"; "encryption_or_redaction_status"].

Definition _evidence_semantic_payload (e : value) : value :=
  json_dump (VDict (filter (fun kv => kv.1 ∉ _EVIDENCE_SEMANTIC_EXCLUDES) (match e with VDict d => d | _ => [] end))).

Definition evidence_name (e : value) : string := match evidence_id e with VStr s => s | _ => "" end.

(** The last record of a name, as in a dictionary built from the list. *)
Definition proposed_named (proposed : list value) (id : string) : option value :=
  List.find (fun e => bool_decide (evidence_name e = id)) (rev proposed).

Fixpoint stage_evidence (uid : string) (ids : list string) (proposed : list value)
    : Txn (list value * list (path * value)) :=
  match ids with
  | [] => mret ([], [])
  | id :: ids' =>
      ref ← lift (evidence_ref uid id);
      snapshot ← txn_get ref;
      '(e, staged) ← match snapshot with
        | Some d =>
            e ← lift (parse_evidence d);
            match proposed_named proposed id with
            | Some p =>
                if v_is (source_state e) "active"
                   && negb (py_eq (_evidence_semantic_payload e) (_evidence_semantic_payload p))
                then lift store_error else mret (e, [])
            | None => mret (e, [])
            end
        | None =>
            match proposed_named proposed id with
            | Some p => if v_is (source_state p) "active" then mret (p, [(ref, p)]) else lift store_error
            | None => lift (Raise MissingMemoryDocument)
            end
        end;
      '(es, more) ← stage_evidence uid ids' proposed;
      mret (e :: es, staged ++ more)
  end.

Definition _read_or_stage_authoritative_evidence (uid : string) (ids : list string)
    (proposed : option (list value)) : Txn (list value * list (path * value)) :=
  let given := default [] proposed in
  let names := evidence_name <$> given in
  if negb (bool_decide (NoDup names)) then lift store_error
  else match proposed with
       | Some _ => if bool_decide (names ⊆ ids /\ ids ⊆ names) then stage_evidence uid ids given
                   else lift store_error
       | None => stage_evidence uid ids given
       end.

(** ** Targets *)
Definition _operation_target_ids (op : MemoryOperation) : list string :=
  sorted_set ((if given (target_memory_id op) then option_list (target_memory_id op) else [])
              ++ (if given (lp_target_memory_id (logical_payload op))
                  then option_list (lp_target_memory_id (logical_payload op)) else [])
              ++ lp_supersedes (logical_payload op)).

Definition live_target (op : MemoryOperation) (c : MemoryControlState) (d : item) : bool :=
  v_is (doc_get d "uid") (op_uid op) && negb (differs d "account_generation" (account_generation c))
  && v_is (doc_get d "status") "active".

(** The refusal, unless every target is an active item of the account. *)
Fixpoint validate_targets (uid : string) (op : MemoryOperation) (c : MemoryControlState) (ids : list string)
    : Txn (option ApplyResult) :=
  match ids with
  | [] => mret None
  | id :: ids' =>
      ref ← lift (item_ref uid id);
      snapshot ← txn_get ref;
      match snapshot with
      | None => mret (Some (refused target_not_active c op))
      | Some d =>
          target ← lift (parse_item d);
          if live_target op c target then validate_targets uid op c ids'
          else mret (Some (refused target_not_active c op))
      end
  end.

Definition _validate_authoritative_targets (uid : string) (op : MemoryOperation) (c : MemoryControlState)
    : Txn (option ApplyResult) := validate_targets uid op c (_operation_target_ids op).

Definition _read_authoritative_target_item (uid : string) (op : MemoryOperation) : Txn (option item) :=
  let lp := logical_payload op in
  if negb (bool_decide (lp_decision lp = "update")) then mret None
  else
    let target := if given (lp_target_memory_id lp) then lp_target_memory_id lp else target_memory_id op in
    match target with
    | None => mret None
    | Some id =>
        if bool_decide (id = "") then mret None
        else
          ref ← lift (item_ref uid id);
          snapshot ← txn_get ref;
          match snapshot with
          | None => mret None
          | Some d => i ← lift (parse_item d); mret (Some i)
          end
    end.

Fixpoint read_items (uid : string) (ids : list string) : Txn (list item) :=
  match ids with
  | [] => mret []
  | id :: ids' =>
      ref ← lift (item_ref uid id);
      snapshot ← txn_get ref;
      match snapshot with
      | None => read_items uid ids'
      | Some d => i ← lift (parse_item d); rest ← read_items uid ids'; mret (i :: rest)
      end
  end.

Definition _read_authoritative_superseded_items (uid : string) (op : MemoryOperation) : Txn (list item) :=
  read_items uid (lp_supersedes (logical_payload op)).

(** ** A fenced ledger source *)
Definition source_changed (op : MemoryOperation) (c : MemoryControlState) (ref : path) (source expected : item) : bool :=
  negb (v_is (doc_get source "uid") (op_uid op))
  || negb (py_eq (doc_get source "memory_id") (doc_get expected "memory_id"))
  || negb (bool_decide (last ref = Some (text_or expected "memory_id")))
  || differs source "account_generation" (account_generation c)
  || negb (same_fields source expected ["item_revision"; "content_hash"; "source_state"; "status"; "sensitivity_labels"])
  || negb (v_is (doc_get source "source_state") "active")
  || _has_restricted_sensitivity source
  || truthy (dict_get "is_locked" (dict_or source "promotion")).

Definition reopen_source_fields : list string :=
  ["valid_to"; "superseded_by"; "canonical_memory_id"; "ledger_schema_version"; "kind"; "intent_backed";
   "processing_state"; "visibility"; "slot"; "subject_scope"; "subject_entity_id"; "promotion"].

Definition evidence_usable (expected e : value) : bool :=
  py_eq (evidence_id e) (evidence_id expected) && v_is (source_state e) "active"
  && negb (v_in (member e "redaction_status") ["tombstoned"; "redacted"])
  && v_is (member e "encryption_or_redaction_status") "active".

(** Whether every referenced evidence record is still there and active. *)
Fixpoint source_evidence_usable (uid : string) (expected : list value) : Txn bool :=
  match expected with
  | [] => mret true
  | x :: expected' =>
      ref ← lift (evidence_ref uid (evidence_name x));
      snapshot ← txn_get ref;
      match snapshot with
      | None => mret false
      | Some d =>
          e ← lift (parse_evidence d);
          if evidence_usable x e then source_evidence_usable uid expected' else mret false
      end
  end.

Definition _validate_required_ledger_source (uid : string) (expected : option item) (op : MemoryOperation)
    (c : MemoryControlState) (reopen : option fields) : Txn (option ApplyResult) :=
  match expected with
  | None => mret None
  | Some expected =>
      ref ← lift (item_ref uid (text_or expected "memory_id"));
      snapshot ← txn_get ref;
      match snapshot with
      | None => mret (Some (refused source_not_active c op))
      | Some d =>
          source ← lift (parse_item d);
          if source_changed op c ref source expected then mret (Some (refused source_not_active c op))
          else match reopen with
               | None => mret None
               | Some _ =>
                   if negb (same_fields source expected reopen_source_fields)
                   then mret (Some (refused source_not_active c op))
                   else
                     usable ← source_evidence_usable uid (evidence_of expected);
                     mret (if usable : bool then None else Some (refused source_not_active c op))
               end
      end
  end.

(** ** Reopening a closed row *)
Definition reopen_fenced (c : MemoryControlState) (r source : fields) : bool :=
  negb (differs r "account_generation" (account_generation c))
  && negb (differs r "source_generation" (source_generation c))
  && py_eq (doc_get r "source_item_revision") (doc_get source "item_revision")
  && py_eq (doc_get r "source_content_hash") (py_or (doc_get source "content_hash") (VStr "")).

(** The path of the receipt to write, or a refusal: a source is reopened once. *)
Definition _check_reopen (rq : apply_request) (c : MemoryControlState) (op : MemoryOperation)
    : Txn (ApplyResult + option path) :=
  match rq_reopen rq with
  | None => mret (inr None)
  | Some r =>
      if negb (v_is (doc_get r "uid") (rq_uid rq)) then lift store_error
      else match rq_required_source rq with
           | None => lift store_error
           | Some source =>
               if negb (py_eq (doc_get r "source_memory_id") (doc_get source "memory_id")) then lift store_error
               else if negb (reopen_fenced c r source) then mret (inl (refused source_not_active c op))
               else
                 ref ← lift (reopen_ref (rq_uid rq) (text_or r "source_memory_id"));
                 snapshot ← txn_get ref;
                 match snapshot with
                 | None => mret (inr (Some ref))
                 | Some d =>
                     _ ← lift (parse_snapshot_strict (memory_ledger_reopen_receipt d));
                     mret (inl (refused source_not_active c op))
                 end
           end
  end.

(** ** Writers *)
Definition feedback_authority (rq : apply_request) (fb : feedback_context) (existing : option item)
    (op : MemoryOperation) (c : MemoryControlState) : bool :=
  let r := fb_receipt fb in
  match existing with
  | None => false
  | Some d =>
      rq_direct rq && v_is (doc_get d "uid") (rq_uid rq) && v_is (doc_get d "kind") "trigger"
      && v_is (doc_get d "ledger_schema_version") KNOWLEDGE_LEDGER
      && py_eq (doc_get d "account_generation") (doc_get r "account_generation")
      && negb (differs r "account_generation" (account_generation c))
      && py_eq (doc_get d "memory_id") (doc_get r "trigger_memory_id")
      && py_eq (doc_get d "item_revision") (doc_get r "expected_trigger_revision")
      && py_eq (opt_str (target_memory_id op)) (doc_get r "trigger_memory_id")
      && starts_with ("user_mutation:jit_trigger_feedback:" +:+ text_or r "feedback_id" +:+ ":")
           (default "" (source_packet_id op))
  end.

(** Feedback changes its own member of the trigger's arguments only. *)
Definition without_feedback (d : dict) : dict := filter (fun kv => kv.1 <> "jit_trigger_feedback") d.
Definition feedback_only (payload : fields) (existing : item) : bool :=
  match doc_get payload "arguments" with
  | VDict arguments =>
      match dict_lookup "jit_trigger_feedback" arguments with
      | Some _ => py_eq (VDict (without_feedback arguments)) (VDict (without_feedback (dict_or existing "arguments")))
      | None => false
      end
  | _ => false
  end.

Definition _check_trigger_feedback (rq : apply_request) (fb : option feedback_context) (existing : option item)
    (op : MemoryOperation) (c : MemoryControlState) : res unit :=
  match fb with
  | None => Ok tt
  | Some f =>
      match fb_existing f, existing with
      | Some _, _ => store_error
      | None, Some d =>
          if feedback_authority rq f existing op c && feedback_only (rq_patch_payload rq) d then Ok tt else store_error
      | None, None => store_error
      end
  end.

Definition ledger_row (d : fields) : bool := v_is (doc_get d "ledger_schema_version") KNOWLEDGE_LEDGER.

Definition migration_admitted (rq : apply_request) (existing : option item) (op : MemoryOperation) : bool :=
  let packet := default "" (source_packet_id op) in
  match existing with
  | None => false
  | Some d =>
      is_none (doc_get d "ledger_schema_version") && bool_decide (operation_type op = ledger_mutation)
      && bool_decide (lp_decision (logical_payload op) = "update") && ledger_row (rq_patch_payload rq)
      && (starts_with "user_mutation:knowledge_ledger_migration:" packet
          || starts_with "user_mutation:legacy_short_term_adjudication:" packet)
      && only_fields (rq_patch_payload rq) _LEDGER_MIGRATION_PATCH_FIELDS
  end.

Definition direct_user_update (rq : apply_request) (existing : option item) (op : MemoryOperation) : bool :=
  let allowed := _DIRECT_USER_MUTATION_PATCH_FIELDS ++ (if rq_feedback rq then ["curation_weight"] else []) in
  rq_direct rq && (if existing then true else false) && bool_decide (lp_decision (logical_payload op) = "update")
  && bool_decide (operation_type op = user_mutation \/ operation_type op = ledger_mutation)
  && only_fields (rq_patch_payload rq) allowed.

Definition direct_user_append (rq : apply_request) (evidence : list value) (op : MemoryOperation) : bool :=
  let p := rq_patch_payload rq in
  rq_direct rq && bool_decide (operation_type op = ledger_mutation)
  && bool_decide (lp_decision (logical_payload op) = "add") && ledger_row p
  && v_is (doc_get p "write_reason") "direct_user_statement"
  && bool_decide (doc_get p "user_asserted" = VBool true)
  && (negb (bool_decide (lp_supersedes (logical_payload op) = [])) || if rq_reopen rq then true else false)
  && existsb (fun e => v_in (member e "source_type") _DIRECT_USER_LEDGER_EVIDENCE_TYPES) evidence.

(** The writer the control state must admit; [Raise] for a migration that is not
    allowed, [None] for a deletion. *)
Definition writer_class (rq : apply_request) (existing : option item) (evidence : list value) (op : MemoryOperation)
    : res (option MemoryWriterClass) :=
  if rq_migration rq then
    if migration_admitted rq existing op then Ok (Some ledger_writer) else Raise RuntimeError
  else if bool_decide (operation_type op = deletion) then Ok None
  else if direct_user_update rq existing op || direct_user_append rq evidence op then Ok (Some user_writer)
  else if match existing with Some d => ledger_row d | None => false end || ledger_row (rq_patch_payload rq)
  then Ok (Some ledger_writer)
  else Ok (Some compatibility_writer).

Definition writer_admitted (rq : apply_request) (existing : option item) (evidence : list value)
    (op : MemoryOperation) (c : MemoryControlState) : bool :=
  is_ok (w ← writer_class rq existing evidence op;
         match w with
         | None => Ok tt
         | Some w => require_writer_admitted (writer_mode c) w (rq_migration rq)
         end).

(** ** Reviews *)
Definition _check_review (rq : apply_request) (review_item : option fields) (existing : option item)
    (op : MemoryOperation) : res unit :=
  match rq_review rq with
  | None => Ok tt
  | Some r =>
      let decision := lp_decision (logical_payload op) in
      if bool_decide (review_authority r = Some "canonical_memory") then
        match existing with
        | None => stale_review
        | Some d => _validate_canonical_review_source review_item (rq_review rq) d
        end
      else if bool_decide (review_decision r = "accept") then
        if match existing with None => true | Some _ => false end && bool_decide (decision = "add")
           && v_is (doc_get (rq_patch_payload rq) "new_memory_id") (review_memory_id r)
        then Ok tt else stale_review
      else if bool_decide (review_decision r = "correct") then
        match existing with
        | Some d =>
            if given (mutation_target_memory_id r)
               && bool_decide (target_memory_id op = mutation_target_memory_id r)
               && py_eq (doc_get d "memory_id") (opt_str (mutation_target_memory_id r))
               && bool_decide (decision = "update")
            then Ok tt else stale_review
        | None => stale_review
        end
      else stale_review
  end.

(** ** Writing a result *)
Definition trusted_memory_state_head_fields (uid : string) (account_generation : Z) (head_commit_id : string)
    (commit_sequence : Z) : option dict :=
  if bool_decide (uid = "") || (account_generation <? 0) || bool_decide (head_commit_id = "") || (commit_sequence <? 0)
  then None
  else Some [("schema_version", VInt 1); ("uid", VStr uid); ("source", VStr "memory_state_head");
             ("account_generation", VInt account_generation); ("head_commit_id", VStr head_commit_id);
             ("commit_sequence", VInt commit_sequence)].

Definition _memory_state_head_from_control (c : MemoryControlState) : res fields :=
  match trusted_memory_state_head_fields (control_uid c) (account_generation c) (head_commit_id c) (commit_sequence c) with
  | None => store_error
  | Some d => Ok (fields_of (d ++ [("updated_at", instant (control_updated_at c))]))
  end.

Definition commit_doc (c : MemoryControlState) (op : MemoryOperation) : fields :=
  list_to_map
    [("commit_id", VStr (head_commit_id c)); ("uid", VStr (control_uid c));
     ("account_generation", VInt (account_generation c)); ("source_generation", VInt (source_generation c));
     ("commit_sequence", VInt (commit_sequence c)); ("operation_id", VStr (operation_id op));
     ("memory_item_ids", str_list (committed_memory_item_ids op));
     ("outbox_event_ids", str_list (committed_outbox_event_ids op)); ("updated_at", instant (control_updated_at c))].

(** The review that an uncertain item opens. *)
Definition review_of (c : MemoryControlState) (d : item) : res (option dict) :=
  let promotion := dict_or d "promotion" in
  if v_is (doc_get d "status") "active" && v_is (dict_get "route" promotion) "review" then
    now ← field_time d "updated_at";
    revision ← field_int d "item_revision";
    r ← build_memory_review_conflict
          [("id", doc_get d "memory_id"); ("content", doc_get d "content"); ("veracity", VFloat (2 # 5)%Q);
           ("importance", VFloat (1 # 2)%Q)]
          (match dict_get "target_memory_id" promotion with
           | VStr s => if bool_decide (s = "") then [] else [s] | _ => [] end)
          (head_commit_id c) revision (doc_get d "content_hash") (doc_get d "memory_id") (VFloat (1 # 2)%Q) now;
    Ok (Some r)
  else Ok None.

Definition write_assertion (ref : path) (d : item) (assertions : list MemoryGraphAssertion) : Txn unit :=
  match List.find (fun a => v_is (doc_get d "memory_id") (ga_memory_id a)) assertions with
  | Some a => txn_set ref (assertion_data a)
  | None =>
      if negb (v_is (doc_get d "status") "tombstoned")
         && (negb (v_is (doc_get d "status") "active") || negb (truthy (doc_get d "graph_ready")))
      then txn_delete ref else mret tt
  end.

Definition write_item (uid : string) (c : MemoryControlState) (assertions : list MemoryGraphAssertion) (d : item)
    : Txn unit :=
  let id := text_or d "memory_id" in
  ref ← lift (item_ref uid id);
  txn_set ref d;;
  aref ← lift (assertion_ref uid id);
  write_assertion aref d assertions;;
  review ← lift (review_of c d);
  match review with
  | None => mret tt
  | Some r =>
      ref ← lift (review_ref uid (match dict_get "review_id" r with VStr s => s | _ => "" end));
      txn_set ref (fields_of r)
  end.

Definition write_event (uid : string) (e : MemoryOutboxEvent) : Txn unit :=
  ref ← lift (outbox_ref uid (event_id e));
  txn_set ref (event_data e).

Definition _write_apply_result (uid : string) (op_ref : path) (r : ApplyResult) : Txn unit :=
  txn_set op_ref (operation_data (result_operation r));;
  if negb (bool_decide (result_status r = apply_committed)) then mret tt
  else
    let c := control_state r in
    cref ← lift (control_ref uid);
    commit ← lift (commit_ref uid (head_commit_id c));
    href ← lift (state_head_ref uid);
    txn_set cref (control_data c);;
    head ← lift (_memory_state_head_from_control c);
    txn_set href head;;
    txn_set commit (commit_doc c (result_operation r));;
    txn_each (memory_items r) (write_item uid c (graph_assertions r));;
    txn_each (outbox_events r) (write_event uid).

(** ** The transaction *)
Definition item_value (d : item) : value := VDict (map_to_list d).

Definition authoritative_payload (payload : fields) (evidence : list value) (existing : option item)
    (superseded : list item) : fields :=
  let p := <["evidence" := VList evidence]> payload in
  let p := match existing with Some d => <["existing_item" := item_value d]> p | None => p end in
  match superseded with [] => p | _ => <["superseded_items" := VList (item_value <$> superseded)]> p end.

(** An add keeps off every row there is, and every row that was deleted. *)
Definition _check_collision (rq : apply_request) (c : MemoryControlState) (op : MemoryOperation) (r : ApplyResult)
    : Txn ApplyResult :=
  if bool_decide (result_status r = apply_committed) && bool_decide (lp_decision (logical_payload op) = "add") then
    match doc_get (rq_patch_payload rq) "new_memory_id" with
    | VStr id =>
        if negb (nonblank id) then mret r
        else
          iref ← lift (item_ref (rq_uid rq) id);
          receipt ← lift (privacy_deletion_receipt_id (rq_uid rq) id);
          dref ← lift (deletion_receipt_ref (rq_uid rq) receipt);
          deleted ← exists_doc dref;
          if deleted : bool then mret (refused invalid_patch c op)
          else present ← exists_doc iref; mret (if present : bool then refused invalid_patch c op else r)
    | _ => mret r
    end
  else mret r.

Definition with_counts (c : MemoryControlState) (migrated adjudicated : Z) : MemoryControlState :=
  Control (control_uid c) (head_commit_id c) (account_generation c) (source_generation c) (writer_mode c)
    (writer_epoch c) (writer_transition_owner c) migrated adjudicated (commit_sequence c)
    (projection_watermark_commit_id c) (projection_watermark_sequence c) (vector_watermark_commit_id c)
    (last_promotion_run_at c) (last_consolidation_run_at c) (legacy_backfill_processed_count c)
    (legacy_backfill_source_fingerprint c) (legacy_backfill_completed_at c) (control_updated_at c).

Definition count_migration (rq : apply_request) (op : MemoryOperation) (r : ApplyResult) : ApplyResult :=
  if bool_decide (result_status r = apply_committed) && rq_migration rq then
    let c := control_state r in
    let c := if starts_with "user_mutation:knowledge_ledger_migration:" (default "" (source_packet_id op))
             then with_counts c (ledger_migration_migrated_count c + 1) (ledger_migration_adjudicated_count c)
             else with_counts c (ledger_migration_migrated_count c) (ledger_migration_adjudicated_count c + 1) in
    Result (result_status r) c (result_operation r) (memory_items r) (graph_assertions r) (outbox_events r)
  else r.

(** The one item of a result. *)
Definition only_item (r : ApplyResult) : res item :=
  match memory_items r with [d] => Ok d | _ => store_error end.

Definition write_reopen (rq : apply_request) (reopen_path : option path) (r : ApplyResult) : Txn unit :=
  match rq_reopen rq with
  | None => mret tt
  | Some receipt =>
      ref ← lift (match reopen_path with Some p => Ok p | None => store_error end);
      d ← lift (only_item r);
      if negb (py_eq (doc_get d "memory_id") (doc_get receipt "replacement_memory_id")) then lift store_error
      else txn_set ref receipt
  end.

Definition write_feedback (fb : option feedback_context) (r : ApplyResult) : Txn unit :=
  match fb with
  | None => mret tt
  | Some f =>
      d ← lift (only_item r);
      txn_set (fb_receipt_ref f)
        (model_copy (fb_receipt f) [("applied_trigger_revision", doc_get d "item_revision")]);;
      txn_set (fb_event_ref f)
        (model_copy (fb_event f) [("feedback_id", doc_get (fb_receipt f) "feedback_id")])
  end.

Definition write_outcome (rq : apply_request) (op_ref : path) (staged : list (path * value))
    (review_item : option fields) (reopen_path : option path) (fb : option feedback_context) (r : ApplyResult)
    : Txn ApplyResult :=
  if bool_decide (result_status r = apply_committed) then
    txn_each staged (fun '(ref, e) => txn_set ref (fields_of (match e with VDict d => d | _ => [] end)));;
    _write_apply_result (rq_uid rq) op_ref r;;
    _write_canonical_review_resolution (rq_uid rq) (rq_review rq) review_item (head_commit_id (control_state r))
      (control_updated_at (control_state r));;
    write_reopen rq reopen_path r;;
    write_feedback fb r;;
    mret r
  else _write_apply_result (rq_uid rq) op_ref r;; mret r.

(** From a patch that is neither a replay nor stale: the authoritative apply. *)
Definition apply_authoritative (rq : apply_request) (op_ref : path) (c : MemoryControlState) (op : MemoryOperation)
    (review_item : option fields) (reopen_path : option path) (fb : option feedback_context) (now : Z)
    : Txn ApplyResult :=
  '(evidence, staged) ← _read_or_stage_authoritative_evidence (rq_uid rq) (evidence_ids op) (rq_proposed_evidence rq);
  invalid ← _validate_authoritative_targets (rq_uid rq) op c;
  match invalid with
  | Some r => _write_apply_result (rq_uid rq) op_ref r;; mret r
  | None =>
      existing ← _read_authoritative_target_item (rq_uid rq) op;
      lift (_check_trigger_feedback rq fb existing op c);;
      if negb (writer_admitted rq existing evidence op c) then mret (refused invalid_patch c op)
      else
        lift (_check_review rq review_item existing op);;
        superseded ← _read_authoritative_superseded_items (rq_uid rq) op;
        r ← lift (apply_long_term_patch_transaction c op
                    (authoritative_payload (rq_patch_payload rq) evidence existing superseded)
                    (if rq_feedback rq then true else false) now);
        r ← _check_collision rq c op r;
        write_outcome rq op_ref staged review_item reopen_path fb (count_migration rq op r)
  end.

Definition _apply_long_term_patch_firestore_transaction (rq : apply_request) (now : Z) : Txn ApplyResult :=
  let uid := rq_uid rq in
  assert_no_destructive_operation_transaction uid now;;
  _account_deletion_fence uid;;
  fb ← _read_trigger_feedback uid (rq_feedback rq);
  review_item ← _read_canonical_review_resolution uid (rq_review rq);
  cref ← lift (control_ref uid);
  op_ref ← lift (operation_ref uid (rq_operation_id rq));
  c ← read_control cref now;
  op ← _read_operation rq now;
  replay ← lift (apply_long_term_patch_transaction c op (rq_patch_payload rq) false now);
  if bool_decide (result_status replay = idempotent_skip) then
    match rq_review rq, fb with
    | Some _, _ => lift stale_review
    | None, Some f => match fb_existing f with Some _ => mret replay | None => lift store_error end
    | None, None => mret replay
    end
  else if bool_decide (result_status replay = payload_mismatch) then mret replay
  else
    stage (_check_reopen rq c op) (fun reopen_path =>
      invalid ← _validate_required_ledger_source uid (rq_required_source rq) op c (rq_reopen rq);
      match invalid with
      | Some r => mret r
      | None =>
          if bool_decide (result_status replay = generation_mismatch \/ result_status replay = retryable_head_mismatch)
          then _write_apply_result uid op_ref replay;; mret replay
          else apply_authoritative rq op_ref c op review_item reopen_path fb now
      end).

(** [mode] is [rollout_mode_env_value()]. *)
Definition _require_canonical_intake_enabled (mode : string) : res unit :=
  if bool_decide (mode ∈ ["write"; "read"]) then Ok tt else Raise CanonicalMemoryIntakePausedError.

Definition apply_long_term_patch_firestore (mode : string) (rq : apply_request) (now : Z) (s : db)
    : res (ApplyResult * db) :=
  _ ← _require_canonical_intake_enabled mode;
  run_txn (_apply_long_term_patch_firestore_transaction rq now) s.

Definition apply_direct_user_long_term_patch_firestore (mode : string) (rq : apply_request) (now : Z) (s : db)
    : res (ApplyResult * db) :=
  if rq_migration rq then Raise ValueError
  else apply_long_term_patch_firestore mode
         (Request (rq_uid rq) (rq_operation_id rq) (rq_patch_payload rq) (rq_proposed_operation rq)
            (rq_proposed_evidence rq) (rq_review rq) (rq_required_source rq) (rq_reopen rq) (rq_feedback rq) false true)
         now s.

(** ** Generations *)
Definition with_source_generation (c : MemoryControlState) (n now : Z) : MemoryControlState :=
  Control (control_uid c) (head_commit_id c) (account_generation c) n (writer_mode c)
    (writer_epoch c) (writer_transition_owner c) (ledger_migration_migrated_count c)
    (ledger_migration_adjudicated_count c) (commit_sequence c)
    (projection_watermark_commit_id c) (projection_watermark_sequence c) (vector_watermark_commit_id c)
    (last_promotion_run_at c) (last_consolidation_run_at c) (legacy_backfill_processed_count c)
    (legacy_backfill_source_fingerprint c) (legacy_backfill_completed_at c) now.

(** The control state of an account that has none yet. *)
Definition initial_control (uid : string) (now : Z) : MemoryControlState :=
  Control uid "head0" 1 1 compatibility 0 None 0 0 0 None 0 None None None 0 None None now.

Definition control_or_initial (uid : string) (ref : path) (now : Z) : Txn MemoryControlState :=
  snapshot ← txn_get ref;
  match snapshot with
  | None => if valid_control (initial_control uid now) then mret (initial_control uid now) else lift (Raise ValueError)
  | Some d => lift (parse_snapshot_strict (memory_control_state d now))
  end.

Definition _atomic_bump_source_generation_transaction (uid : string) (now : Z) : Txn MemoryControlState :=
  cref ← lift (control_ref uid);
  c ← control_or_initial uid cref now;
  match require_writer_admitted (writer_mode c) compatibility_writer false with
  | Raise _ => lift store_error
  | Ok _ =>
      let bumped := with_source_generation c (source_generation c + 1) now in
      txn_set cref (control_data bumped);;
      mret bumped
  end.

Definition atomic_bump_source_generation (uid : string) (now : Z) (s : db) : res (MemoryControlState * db) :=
  run_txn (_atomic_bump_source_generation_transaction uid now) s.
End Store.
