(* ===== verification/MemoryPrivacy.v ===== *)
(** * Privacy tombstones
    (the deletion transaction of backend/database/memory_apply_store.py, with
    read_trigger_feedback_replay_firestore)

    A user's deletion replaces items and evidence by content-free tombstones in
    one commit of the ledger, under the account's destructive gate, and leaves a
    receipt per item that keeps a delayed write from adding it again. *)

From S2P Require Import Prelude PyValue Firestore LegalHolds Sha256 MemoryText MemoryOperations MemoryModels MemoryPromotion MemoryApply MemoryRecords MemoryReceipts MemoryStore.
From Stdlib Require Import QArith_base Ascii.
Local Open Scope Z_scope.

Definition _MAX_FIRESTORE_TRANSACTION_MUTATIONS : Z := 500.
Definition EXPLICIT_MEMORY_DELETION : string := "explicit_memory_deletion".
Definition RECEIPT_TTL : Z := seconds (30 * 86400).

Record _MemoryControlFence := Fence {
  fence_head : string; fence_account : Z; fence_source : Z; fence_sequence : Z
}.
#[global] Instance fence_eq_dec : EqDecision _MemoryControlFence.
Proof. solve_decision. Defined.

Definition _control_fence (c : MemoryControlState) : _MemoryControlFence :=
  Fence (head_commit_id c) (account_generation c) (source_generation c) (commit_sequence c).

Record CanonicalMemoryTombstoneResult := TombstoneResult {
  tombstone_control : MemoryControlState;
  tombstone_items : list item;
  tombstoned_evidence_ids : list string
}.

Definition conflict {A} : res A := Raise CanonicalMemoryTombstoneConflict.

(** ** Scrubbing *)
Definition _privacy_tombstoned_evidence (e : value) (scrub_source_identity : bool) : value :=
  let source k := if scrub_source_identity then VNone else member e k in
  VDict (dict_update (match e with VDict d => d | _ => [] end)
    [("artifact_refs", VList []); ("artifact_preservation", VStr "deleted_by_user"); ("quote_refs", VList []);
     ("content_hash", VNone); ("source_id", source "source_id"); ("source_version", source "source_version");
     ("conversation_id", source "conversation_id"); ("lineage_id", source "lineage_id");
     ("source_state", VStr "tombstoned"); ("source_state_reason", VStr "deleted_by_user");
     ("provenance_visibility", VStr "hidden"); ("redaction_status", VStr "tombstoned");
     ("encryption_or_redaction_status", VStr "tombstoned"); ("patch_id", VNone); ("commit_id", VNone);
     ("client_device_id", VNone)]).

Definition tombstone_updates (embedded : list value) (updated : Z) (version revision : value) (commit_id : string)
    (commit_sequence account_generation : Z) : dict :=
  [("status", VStr "tombstoned"); ("source_state", VStr "tombstoned"); ("content", VNone);
   ("evidence", VList embedded); ("sensitivity_labels", VList []); ("promotion", VNone);
   ("capture_device_ids", VList []); ("primary_capture_device", VNone); ("corroboration_count", VInt 0);
   ("last_corroborated_at", VNone); ("confidence", VNone); ("subject_entity_id", VNone); ("predicate", VNone);
   ("arguments", VDict []); ("ledger_schema_version", VNone); ("kind", VStr "fact");
   ("subject_scope", VStr "primary_user"); ("slot", VNone); ("body", VNone); ("valid_from", VNone);
   ("valid_to", VNone); ("curation_weight", VInt 0); ("trigger_condition", VDict []);
   ("intent_backed", VBool false); ("write_reason", VNone); ("updated_at", instant updated);
   ("version", version); ("item_revision", revision); ("ledger_commit_id", VStr commit_id);
   ("ledger_sequence", VInt commit_sequence); ("source_commit_id", VStr commit_id);
   ("source_commit_sequence", VInt commit_sequence); ("normalized_content_key", VNone); ("content_hash", VNone);
   ("account_generation", VInt account_generation); ("kg_extracted", VBool false); ("graph_ready", VBool false);
   ("graph_assertion_id", VNone); ("graph_plan_hash", VNone)].

Definition _privacy_tombstoned_memory_item (d : item) (embedded_evidence : list value) (now : Z) (commit_id : string)
    (commit_sequence account_generation : Z) : res item :=
  updated ← field_time d "updated_at";
  version ← next_int d "version";
  revision ← next_int d "item_revision";
  Ok (model_copy d (tombstone_updates embedded_evidence (Z.max now updated) version revision commit_id
                      commit_sequence account_generation)).

Section Privacy.
Context {T : TextEnv} {Md : ModelEnv} {St : StoreEnv}.

Definition _privacy_delete_events (uid : string) (d : item) (committed : MemoryControlState) (op_id reason : string)
    (now : Z) : list MemoryOutboxEvent :=
  (fun t =>
     OutboxEvent (_event_id t (head_commit_id committed) (Some (text_or d "memory_id")) op_id) uid t
       (head_commit_id committed) (head_commit_id committed) (commit_sequence committed)
       (Some (text_or d "memory_id")) op_id (account_generation committed) (source_generation committed)
       [("memory_id", doc_get d "memory_id"); ("tier", doc_get d "tier"); ("action", VStr "delete");
        ("item_revision", doc_get d "item_revision"); ("content_hash", doc_get d "content_hash");
        ("reason", VStr reason)] now)
  <$> [projection_sync; vector_sync].

(** ** What the transaction reads *)
Definition named_item (items : list item) (id : string) : option item :=
  List.find (fun d => bool_decide (text_or d "memory_id" = id)) items.

Definition item_unchanged (uid : string) (stored expected : item) : bool :=
  v_is (doc_get stored "uid") uid && negb (v_is (doc_get stored "status") "tombstoned")
  && same_fields stored expected ["item_revision"; "content_hash"; "canonical_memory_id"].

(** The evidence of one item that is not read yet. *)
Fixpoint read_evidence_of (uid : string) (embedded : list value) (seen : dict) : Txn dict :=
  match embedded with
  | [] => mret seen
  | e :: embedded' =>
      match dict_lookup (evidence_name e) seen with
      | Some _ => read_evidence_of uid embedded' seen
      | None =>
          ref ← lift (evidence_ref uid (evidence_name e));
          snapshot ← txn_get ref;
          match snapshot with
          | None => lift conflict
          | Some raw =>
              stored ← lift (parse_evidence raw);
              read_evidence_of uid embedded' (dict_set (evidence_name stored) stored seen)
          end
      end
  end.

Fixpoint read_tombstone_items (uid : string) (expected : list item) (ids : list string) (seen : dict)
    : Txn (list item * dict) :=
  match ids with
  | [] => mret ([], seen)
  | id :: ids' =>
      ref ← lift (item_ref uid id);
      snapshot ← txn_get ref;
      match snapshot, named_item expected id with
      | Some raw, Some e =>
          d ← lift (parse_item raw);
          if negb (item_unchanged uid d e) then lift conflict
          else
            seen ← read_evidence_of uid (evidence_of d) seen;
            '(items, seen) ← read_tombstone_items uid expected ids' seen;
            mret (d :: items, seen)
      | _, _ => lift conflict
      end
  end.

(** ** The commit *)
Definition privacy_epoch (uid token : string) (c : MemoryControlState) : string :=
  "commit_" +:+ contract_prefix 32 "memory-privacy-epoch"
    [("uid", VStr uid); ("deletion_gate_token", VStr token); ("commit_sequence", VInt (commit_sequence c + 1))].

Definition without_watermarks (c : MemoryControlState) : MemoryControlState :=
  Control (control_uid c) (head_commit_id c) (account_generation c) (source_generation c) (writer_mode c)
    (writer_epoch c) (writer_transition_owner c) (ledger_migration_migrated_count c)
    (ledger_migration_adjudicated_count c) (commit_sequence c) None (projection_watermark_sequence c) None
    (last_promotion_run_at c) (last_consolidation_run_at c) (legacy_backfill_processed_count c)
    (legacy_backfill_source_fingerprint c) (legacy_backfill_completed_at c) (control_updated_at c).

(** [d[k]] for the evidence that an item embeds. *)
Fixpoint embedded_tombstones (scrubbed : dict) (embedded : list value) : res (list value) :=
  match embedded with
  | [] => Ok []
  | e :: embedded' =>
      d ← match dict_lookup (evidence_name e) scrubbed with Some d => Ok d | None => Raise KeyError end;
      ds ← embedded_tombstones scrubbed embedded';
      Ok (d :: ds)
  end.

Fixpoint tombstone_all (c : MemoryControlState) (scrubbed : dict) (now : Z) (items : list item)
    : res (list item) :=
  match items with
  | [] => Ok []
  | d :: items' =>
      embedded ← embedded_tombstones scrubbed (evidence_of d);
      t ← _privacy_tombstoned_memory_item d embedded now (head_commit_id c) (commit_sequence c) (account_generation c);
      ts ← tombstone_all c scrubbed now items';
      Ok (t :: ts)
  end.

Definition deletion_payload (reason : string) (items : list item) : dict :=
  [("decision", VStr "delete"); ("reason", VStr reason);
   ("items", VList ((fun d => VDict [("memory_id", doc_get d "memory_id"); ("item_revision", doc_get d "item_revision")])
                      <$> items))].

Definition deletion_receipt (uid receipt_id : string) (c : MemoryControlState) (now : Z) : res fields :=
  expires ← dt_add now RECEIPT_TTL;
  Ok (list_to_map
        [("schema_version", VStr "memory_deletion_receipt.v2"); ("uid", VStr uid); ("receipt_id", VStr receipt_id);
         ("privacy_epoch_commit_id", VStr (head_commit_id c)); ("deleted_at", instant now);
         ("expires_at", instant expires)]).

Definition write_receipt (uid : string) (c : MemoryControlState) (now : Z) (d : item) : Txn unit :=
  id ← lift (privacy_deletion_receipt_id uid (text_or d "memory_id"));
  ref ← lift (deletion_receipt_ref uid id);
  receipt ← lift (deletion_receipt uid id c now);
  txn_set ref receipt.

Definition write_evidence (uid : string) (kv : string * value) : Txn unit :=
  ref ← lift (evidence_ref uid kv.1);
  txn_set ref (fields_of (match kv.2 with VDict d => d | _ => [] end)).

(** The reviewed item is one of those the transaction tombstones. *)
Definition check_reviewed (request : option CanonicalReviewResolution) (review_item : option fields)
    (items : list item) : res unit :=
  match request with
  | None => Ok tt
  | Some r =>
      match named_item items (review_memory_id r) with
      | None => stale_review
      | Some d => _validate_canonical_review_source review_item request d
      end
  end.

Definition mutation_count (evidence : dict) (items : list item) (review : option CanonicalReviewResolution) : Z :=
  Z.of_nat (length evidence) + 4 + 4 * Z.of_nat (length items) + (if review then 1 else 0).

(** The result of a tombstone, for [_write_apply_result]. *)
Definition tombstone_result (uid reason : string) (committed : MemoryControlState) (op : MemoryOperation)
    (items : list item) (now : Z) : res ApplyResult :=
  let events := items ≫= fun d => _privacy_delete_events uid d committed (operation_id op) reason now in
  finished ← mark_committed op (head_commit_id committed) (commit_sequence committed)
               ((fun d => text_or d "memory_id") <$> items) (event_id <$> events) now;
  Ok (Result apply_committed committed finished items [] events).

Definition commit_tombstones (uid reason token : string) (preserved : gset string)
    (review : option CanonicalReviewResolution) (review_item : option fields) (c : MemoryControlState)
    (op : MemoryOperation) (op_ref : path) (items : list item) (evidence : dict) (now : Z)
    : Txn CanonicalMemoryTombstoneResult :=
  advanced ← lift (advance_head c (privacy_epoch uid token c) now);
  let committed := without_watermarks advanced in
  let scrubbed := (fun kv => (kv.1, _privacy_tombstoned_evidence kv.2 true)) <$> evidence in
  let tombstoned := filter (fun kv => kv.1 ∉ preserved) scrubbed in
  ts ← lift (tombstone_all committed scrubbed now items);
  if _MAX_FIRESTORE_TRANSACTION_MUTATIONS <? mutation_count tombstoned ts review
  then lift (Raise CanonicalMemoryTombstoneLimitError)
  else
    r ← lift (tombstone_result uid reason committed op ts now);
    txn_each tombstoned (write_evidence uid);;
    txn_each ts (write_receipt uid committed now);;
    _write_apply_result uid op_ref r;;
    _write_canonical_review_resolution uid review review_item (head_commit_id committed) now;;
    mret (TombstoneResult committed ts (sorted_strs (fst <$> tombstoned))).

Definition _tombstone_memory_items_firestore_transaction (uid reason : string) (observed : MemoryControlState)
    (expected : list item) (preserved : gset string) (token : string) (review : option CanonicalReviewResolution)
    (now : Z) : Txn CanonicalMemoryTombstoneResult :=
  let ids := (fun d => text_or d "memory_id") <$> expected in
  if negb (nonblank reason) then lift (Raise ValueError)
  else if bool_decide (ids = []) || negb (bool_decide (NoDup ids)) then lift conflict
  else
    assert_destructive_operation_transaction uid EXPLICIT_MEMORY_DELETION token;;
    review_item ← _read_canonical_review_resolution uid review;
    cref ← lift (control_ref uid);
    snapshot ← txn_get cref;
    c ← match snapshot with
        | None => lift conflict
        | Some d => lift (parse_snapshot_strict (memory_control_state d now))
        end;
    if negb (bool_decide (_control_fence c = _control_fence observed)) then lift conflict
    else
      '(items, evidence) ← read_tombstone_items uid expected (sorted_strs ids) [];
      lift (check_reviewed review review_item items);;
      payload ← lift (_coerce_logical_payload (deletion_payload reason items));
      op ← lift (new uid deletion (Some ("privacy_delete:" +:+ reason)) None [] payload (account_generation c)
                   (source_generation c) None None now);
      op_ref ← lift (operation_ref uid (operation_id op));
      known ← exists_doc op_ref;
      if known : bool then lift conflict
      else commit_tombstones uid reason token preserved review review_item c op op_ref items evidence now.

Definition tombstone_memory_items_firestore (uid reason : string) (observed : MemoryControlState)
    (expected : list item) (preserved : gset string) (token : string) (review : option CanonicalReviewResolution)
    (now : Z) (s : db) : res (CanonicalMemoryTombstoneResult * db) :=
  run_txn (_tombstone_memory_items_firestore_transaction uid reason observed expected preserved token review now) s.

(** ** The replay of a feedback *)
Definition required_model (ref : path) (parse : fields -> res fields) : Txn fields :=
  snapshot ← txn_get ref;
  match snapshot with
  | None => lift (Raise MissingMemoryDocument)
  | Some d => lift (parse_snapshot_strict (parse d))
  end.

Definition replay_event_matches (uid : string) (event receipt : fields) : bool :=
  v_is (doc_get event "uid") uid && same_fields event receipt ["account_generation"; "trigger_memory_id"; "feedback_id"]
  && py_eq (doc_get event "trigger_revision") (doc_get receipt "expected_trigger_revision").

Definition replay_item_current (uid : string) (d receipt : fields) : bool :=
  v_is (doc_get d "uid") uid && py_eq (doc_get d "account_generation") (doc_get receipt "account_generation")
  && match doc_get d "item_revision", doc_get receipt "applied_trigger_revision" with
     | VInt have, VInt applied => applied <=? have
     | _, _ => false
     end
  && v_is (doc_get d "kind") "trigger".

Definition _read_trigger_feedback_replay_transaction (uid feedback_id request_hash : string) (now : Z)
    : Txn (option (item * fields)) :=
  _account_deletion_fence uid;;
  cref ← lift (control_ref uid);
  c ← read_control cref now;
  ref ← lift (feedback_ref uid feedback_id);
  snapshot ← txn_get ref;
  match snapshot with
  | None => mret None
  | Some raw =>
      receipt ← lift (parse_snapshot_strict (jit_trigger_feedback_receipt raw));
      if negb (v_is (doc_get receipt "uid") uid) || negb (v_is (doc_get receipt "request_hash") request_hash)
      then lift store_error
      else if differs receipt "account_generation" (account_generation c)
              || is_none (doc_get receipt "applied_trigger_revision")
      then lift store_error
      else
        eref ← lift (proactivity_ref uid (text_or receipt "event_id"));
        event ← required_model eref jit_proactivity_event_receipt;
        if negb (replay_event_matches uid event receipt) then lift store_error
        else
          iref ← lift (item_ref uid (text_or receipt "trigger_memory_id"));
          d ← required_model iref memory_item;
          if replay_item_current uid d receipt then mret (Some (d, receipt)) else lift store_error
  end.

Definition read_trigger_feedback_replay_firestore (uid feedback_id request_hash : string) (now : Z) (s : db)
    : res (option (item * fields) * db) :=
  run_txn (_read_trigger_feedback_replay_transaction uid feedback_id request_hash now) s.
End Privacy.
