(* ===== verification/MemoryReplacement.v ===== *)
(** * The replacement of a conversation's memories
    (replace_conversation_source_firestore of backend/database/memory_apply_store.py,
    with the receipt of backend/models/memory_source_replacement.py)

    One transaction tombstones every memory that came from a conversation,
    reactivates the rows that they had superseded, and commits the memories that
    replace them, each as a commit of its own; without replacements it is a
    privacy deletion.  A receipt makes a repetition return what was done. *)

From S2P Require Import Prelude PyValue Firestore LegalHolds Sha256 MemoryText MemoryOperations MemoryModels MemoryPromotion MemoryApply MemoryRecords MemoryReceipts MemoryStore MemoryPrivacy.
From Stdlib Require Import QArith_base Ascii.
From stdpp Require Import pretty.
Local Open Scope Z_scope.

Record CanonicalApplyWrite := ApplyWrite {
  aw_operation : MemoryOperation;
  aw_payload : fields;
  aw_evidence : list value
}.

Record ConversationSourceReplacementResult := ReplacementResult {
  replaced_control : MemoryControlState;
  retracted_memory_ids : list string;
  committed_memory_ids : list string;
  reactivated_memory_ids : list string;
  retracted_evidence_ids : list string
}.

Record ConversationSourceReplacementReceipt := ReplacementReceipt {
  rr_replacement_id : string;
  rr_replacement_digest : string;
  rr_uid : string;
  rr_conversation_id : string;
  rr_operation_id : string;
  rr_result : ConversationSourceReplacementResult;
  rr_committed_at : Z
}.

(** The arguments of a call. *)
Record replacement_request := Replacement {
  rp_uid : string;
  rp_conversation_id : string;
  rp_replacement_id : string;
  rp_replacement_digest : string;
  rp_operation : MemoryOperation;
  rp_observed : MemoryControlState;
  rp_source_items : list item;
  rp_reactivation_items : list item;
  rp_writes : list CanonicalApplyWrite;
  rp_token : option string
}.

Definition replacement_conflict {A} : res A := Raise ConversationSourceReplacementConflict.

(** [if b: raise ConversationSourceReplacementConflict] *)
Definition conflict_when (b : bool) : Txn unit := if b then lift replacement_conflict else mret tt.

(** ** Receipts *)
Definition receipt_dict (r : ConversationSourceReplacementReceipt) : dict :=
  let s := rr_result r in
  [("replacement_id", VStr (rr_replacement_id r)); ("replacement_digest", VStr (rr_replacement_digest r));
   ("uid", VStr (rr_uid r)); ("conversation_id", VStr (rr_conversation_id r));
   ("operation_id", VStr (rr_operation_id r)); ("control_state", VDict (control_dict (replaced_control s)));
   ("retracted_memory_ids", str_list (retracted_memory_ids s));
   ("committed_memory_ids", str_list (committed_memory_ids s));
   ("reactivated_memory_ids", str_list (reactivated_memory_ids s));
   ("tombstoned_evidence_ids", str_list (retracted_evidence_ids s)); ("committed_at", instant (rr_committed_at r))].

Definition valid_receipt (r : ConversationSourceReplacementReceipt) : bool :=
  forallb nonblank [rr_replacement_id r; rr_replacement_digest r; rr_uid r; rr_conversation_id r; rr_operation_id r].

Definition replacement_receipt (r : ConversationSourceReplacementReceipt) : res ConversationSourceReplacementReceipt :=
  if valid_receipt r then Ok r else Raise ValueError.

Definition read_replacement_receipt (d : fields) (now : Z) : res ConversationSourceReplacementReceipt :=
  id ← required d "replacement_id" rd_str; digest ← required d "replacement_digest" rd_str;
  uid ← required d "uid" rd_str; conversation ← required d "conversation_id" rd_str;
  op ← required d "operation_id" rd_str;
  c ← required d "control_state" (fun v => l ← rd_dict v; memory_control_state (fields_of l) now);
  retracted ← defaulted d "retracted_memory_ids" rd_strs [];
  committed ← defaulted d "committed_memory_ids" rd_strs [];
  reactivated ← defaulted d "reactivated_memory_ids" rd_strs [];
  evidence ← defaulted d "tombstoned_evidence_ids" rd_strs [];
  at_ ← defaulted d "committed_at" (rd_time false) now;
  replacement_receipt
    (ReplacementReceipt id digest uid conversation op
       (ReplacementResult c retracted committed reactivated evidence) at_).

(** ** Sources and lineage *)
Definition from_conversation (conversation_id : string) (e : value) : bool :=
  v_is (member e "source_id") conversation_id || v_is (member e "conversation_id") conversation_id.

Definition _item_has_conversation_source (d : item) (conversation_id : string) : bool :=
  existsb (from_conversation conversation_id) (evidence_of d).

(** [(item.canonical_memory_id or item.superseded_by or "").strip()] *)
Definition canonical_target (d : item) : string :=
  match py_or (doc_get d "canonical_memory_id") (doc_get d "superseded_by") with VStr s => strip s | _ => "" end.

Definition source_version (generation : Z) : string := "source_generation:" +:+ pretty generation.

Definition live_row (uid : string) (d : item) : bool :=
  v_is (doc_get d "uid") uid && v_is (doc_get d "status") "active" && v_is (doc_get d "source_state") "active".

(** A row that a replacement of [conversation_id] committed and that still stands. *)
Definition committed_row_current (uid conversation_id version : string) (d : item) : bool :=
  live_row uid d
  && existsb (fun e => v_is (source_state e) "active" && v_is (member e "source_version") version
                       && from_conversation conversation_id e) (evidence_of d).

Definition reactivated_row_current (uid : string) (d : item) : bool :=
  live_row uid d && is_none (doc_get d "canonical_memory_id") && is_none (doc_get d "superseded_by").

#[global] Instance writer_class_eq_dec : EqDecision MemoryWriterClass.
Proof. solve_decision. Defined.

Definition names_of (l : list item) : list string := (fun d => text_or d "memory_id") <$> l.

Section Replacement.
Context {T : TextEnv} {Md : ModelEnv} {St : StoreEnv}.

(** ** The receipt of an earlier call *)
Fixpoint rows_current (uid : string) (current : item -> bool) (ids : list string) : Txn bool :=
  match ids with
  | [] => mret true
  | id :: ids' =>
      ref ← lift (item_ref uid id);
      snapshot ← txn_get ref;
      match snapshot with
      | None => mret false
      | Some raw => d ← lift (parse_item raw); if current d then rows_current uid current ids' else mret false
      end
  end.

Definition receipt_matches (rq : replacement_request) (r : ConversationSourceReplacementReceipt) : bool :=
  bool_decide (rr_uid r = rp_uid rq) && bool_decide (rr_conversation_id r = rp_conversation_id rq)
  && bool_decide (rr_replacement_digest r = rp_replacement_digest rq).

Definition receipt_is_current (rq : replacement_request) (c : MemoryControlState)
    (s : ConversationSourceReplacementResult) : Txn bool :=
  let rc := replaced_control s in
  let version := source_version (source_generation rc) in
  committed ← rows_current (rp_uid rq) (committed_row_current (rp_uid rq) (rp_conversation_id rq) version)
                (committed_memory_ids s);
  reactivated ← rows_current (rp_uid rq) (reactivated_row_current (rp_uid rq)) (reactivated_memory_ids s);
  mret ((account_generation rc =? account_generation c) && (source_generation rc =? source_generation c)
        && committed && reactivated).

(** What an earlier call with the same identity did, while it still stands. *)
Definition read_receipt (rq : replacement_request) (c : MemoryControlState) (ref : path) (now : Z)
    : Txn (option ConversationSourceReplacementResult) :=
  snapshot ← txn_get ref;
  match snapshot with
  | None => mret None
  | Some raw =>
      r ← lift (parse_snapshot_strict (read_replacement_receipt raw now));
      if negb (receipt_matches rq r) then lift replacement_conflict
      else
        let s := rr_result r in
        current ← receipt_is_current rq c s;
        mret (if current : bool
              then Some (ReplacementResult c (retracted_memory_ids s) (committed_memory_ids s)
                           (reactivated_memory_ids s) (retracted_evidence_ids s))
              else None)
  end.

(** ** Authority *)
Definition ledger_class (ledger : bool) : MemoryWriterClass := if ledger then ledger_writer else compatibility_writer.

Definition writer_classes (rq : replacement_request) : list MemoryWriterClass :=
  match rp_writes rq with
  | [] => (fun d => ledger_class (is_ledger d)) <$> rp_source_items rq
  | ws => (fun w => ledger_class (is_ledger (aw_payload w))) <$> ws
  end.

(** The one writer class of a replacement, admitted by the control state. *)
Definition admit_replacement (rq : replacement_request) (c : MemoryControlState) : res unit :=
  let k := default compatibility_writer (head (writer_classes rq)) in
  if negb (forallb (fun k' => bool_decide (k' = k)) (writer_classes rq)) then replacement_conflict
  else match require_writer_admitted (writer_mode c) k false with
       | Raise _ => replacement_conflict
       | Ok _ => Ok tt
       end.

Definition replacement_operation_matches (rq : replacement_request) (c : MemoryControlState) : bool :=
  let op := rp_operation rq in
  let metadata := lp_metadata (logical_payload op) in
  bool_decide (op_uid op = rp_uid rq) && bool_decide (operation_type op = source_replacement)
  && bool_decide (source_packet_id op = Some (rp_conversation_id rq))
  && (op_account_generation op =? account_generation c) && (op_source_generation op =? source_generation c + 1)
  && bool_decide (observed_head_commit_id op = Some (head_commit_id c))
  && v_is (dict_get "replacement_id" metadata) (rp_replacement_id rq)
  && v_is (dict_get "replacement_digest" metadata) (rp_replacement_digest rq).

(** The authority for a replacement, or for a deletion when nothing replaces. *)
Definition assert_replacement_authority (rq : replacement_request) (now : Z) : Txn unit :=
  match rp_writes rq, rp_token rq with
  | _ :: _, _ => assert_no_destructive_operation_transaction (rp_uid rq) now
  | [], None => lift replacement_conflict
  | [], Some token => assert_destructive_operation_transaction (rp_uid rq) EXPLICIT_MEMORY_DELETION token
  end.

(** ** The rows of the source *)
Record source_row := SourceRow { sr_id : string; sr_item : item; sr_evidence : list value }.

Definition source_row_unchanged (uid conversation_id : string) (d expected : item) : bool :=
  v_is (doc_get d "uid") uid && negb (v_is (doc_get d "status") "tombstoned")
  && v_is (doc_get d "source_state") "active"
  && same_fields d expected ["status"; "source_state"; "item_revision"; "content_hash"]
  && _item_has_conversation_source d conversation_id.

Fixpoint read_source_evidence (uid conversation_id : string) (embedded : list value) : Txn (list value) :=
  match embedded with
  | [] => mret []
  | e :: embedded' =>
      ref ← lift (evidence_ref uid (evidence_name e));
      snapshot ← txn_get ref;
      match snapshot with
      | None => lift replacement_conflict
      | Some raw =>
          stored ← lift (parse_evidence raw);
          conflict_when (negb (from_conversation conversation_id stored));;
          rest ← read_source_evidence uid conversation_id embedded';
          mret (stored :: rest)
      end
  end.

Fixpoint read_source_rows (uid conversation_id : string) (expected : list item) (ids : list string)
    : Txn (list source_row) :=
  match ids with
  | [] => mret []
  | id :: ids' =>
      ref ← lift (item_ref uid id);
      snapshot ← txn_get ref;
      match snapshot, named_item expected id with
      | Some raw, Some e =>
          d ← lift (parse_item raw);
          conflict_when (negb (source_row_unchanged uid conversation_id d e));;
          evidence ← read_source_evidence uid conversation_id (evidence_of d);
          rest ← read_source_rows uid conversation_id expected ids';
          mret (SourceRow id d evidence :: rest)
      | _, _ => lift replacement_conflict
      end
  end.

(** ** The rows that the source had superseded *)
Definition terminal_source_ids (sources : list source_row) : list string :=
  omap (fun r => if v_is (doc_get (sr_item r) "status") "active" && bool_decide (canonical_target (sr_item r) = "")
                 then Some (text_or (sr_item r) "memory_id") else None) sources.

Definition lineage_row_unchanged (uid conversation_id : string) (terminal : list string) (d expected : item) : bool :=
  v_is (doc_get d "uid") uid && v_is (doc_get d "status") "superseded" && v_is (doc_get d "source_state") "active"
  && same_fields d expected
       ["status"; "source_state"; "item_revision"; "content_hash"; "canonical_memory_id"; "superseded_by"]
  && bool_decide (canonical_target d ∈ terminal)
  && negb (_item_has_conversation_source d conversation_id) && negb (bool_decide (evidence_of d = [])).

Fixpoint check_lineage_evidence (uid : string) (embedded : list value) : Txn unit :=
  match embedded with
  | [] => mret tt
  | e :: embedded' =>
      ref ← lift (evidence_ref uid (evidence_name e));
      snapshot ← txn_get ref;
      match snapshot with
      | None => lift replacement_conflict
      | Some raw =>
          stored ← lift (parse_evidence raw);
          conflict_when (negb (py_eq stored e) || negb (v_is (source_state stored) "active"));;
          check_lineage_evidence uid embedded'
      end
  end.

Fixpoint read_lineage_rows (uid conversation_id : string) (terminal : list string) (expected : list item)
    (ids : list string) : Txn (list item) :=
  match ids with
  | [] => mret []
  | id :: ids' =>
      ref ← lift (item_ref uid id);
      snapshot ← txn_get ref;
      match snapshot, named_item expected id with
      | Some raw, Some e =>
          d ← lift (parse_item raw);
          conflict_when (negb (lineage_row_unchanged uid conversation_id terminal d e));;
          check_lineage_evidence uid (evidence_of d);;
          rest ← read_lineage_rows uid conversation_id terminal expected ids';
          mret (d :: rest)
      | _, _ => lift replacement_conflict
      end
  end.

(** ** The memories that replace the source *)
Record planned_write := PlannedWrite {
  pw_write : CanonicalApplyWrite;
  pw_id : string;
  pw_prior : option item;
  pw_source : bool
}.

Definition source_named (sources : list source_row) (id : string) : option source_row :=
  List.find (fun r => bool_decide (sr_id r = id)) sources.

(** The row that a write recreates: one of the source, or an inactive one that came
    from the conversation; a deleted name is refused. *)
Definition read_prior (uid conversation_id : string) (sources : list source_row) (id : string)
    : Txn (option item * bool) :=
  match source_named sources id with
  | Some r => mret (Some (sr_item r), true)
  | None =>
      ref ← lift (item_ref uid id);
      snapshot ← txn_get ref;
      prior ← match snapshot with
              | None => mret None
              | Some raw =>
                  d ← lift (parse_item raw);
                  conflict_when (negb (v_is (doc_get d "uid") uid)
                                 || negb (_item_has_conversation_source d conversation_id)
                                 || v_is (doc_get d "status") "active");;
                  mret (Some d)
              end;
      receipt ← lift (privacy_deletion_receipt_id uid id);
      dref ← lift (deletion_receipt_ref uid receipt);
      deleted ← exists_doc dref;
      conflict_when deleted;;
      mret (prior, false)
  end.

Definition new_evidence_valid (conversation_id version : string) (seen : list string) (e : value) : bool :=
  bool_decide (evidence_name e ∉ seen) && v_is (member e "source_id") conversation_id
  && v_is (member e "conversation_id") conversation_id && v_is (member e "source_version") version
  && v_is (source_state e) "active".

(** [seen] are the names of the source's evidence and of the new evidence so far. *)
Fixpoint check_new_evidence (uid conversation_id version : string) (seen : list string) (es : list value)
    : Txn (list string) :=
  match es with
  | [] => mret seen
  | e :: es' =>
      if negb (new_evidence_valid conversation_id version seen e) then lift store_error
      else
        ref ← lift (evidence_ref uid (evidence_name e));
        known ← exists_doc ref;
        conflict_when known;;
        check_new_evidence uid conversation_id version (evidence_name e :: seen) es'
  end.

Definition write_operation_matches (rq : replacement_request) (c : MemoryControlState) (op : MemoryOperation) : bool :=
  bool_decide (op_uid op = rp_uid rq) && (op_account_generation op =? account_generation c)
  && (op_source_generation op =? source_generation c + 1)
  && bool_decide (source_packet_id op = Some (rp_conversation_id rq)).

Definition new_name (payload : fields) : res string :=
  match doc_get payload "new_memory_id" with
  | VStr s => if nonblank s then Ok (strip s) else store_error
  | _ => store_error
  end.

Fixpoint check_writes (rq : replacement_request) (c : MemoryControlState) (sources : list source_row)
    (names seen : list string) (writes : list CanonicalApplyWrite) : Txn (list planned_write) :=
  match writes with
  | [] => mret []
  | w :: writes' =>
      conflict_when (negb (write_operation_matches rq c (aw_operation w)));;
      oref ← lift (operation_ref (rp_uid rq) (operation_id (aw_operation w)));
      known ← exists_doc oref;
      conflict_when known;;
      id ← lift (new_name (aw_payload w));
      if bool_decide (id ∈ names) then lift store_error
      else
        '(prior, source) ← read_prior (rp_uid rq) (rp_conversation_id rq) sources id;
        if bool_decide (aw_evidence w = []) then lift store_error
        else
          seen ← check_new_evidence (rp_uid rq) (rp_conversation_id rq) (source_version (source_generation c + 1))
                   seen (aw_evidence w);
          rest ← check_writes rq c sources (id :: names) seen writes';
          mret (PlannedWrite w id prior source :: rest)
  end.

(** The manifest of the operation lists the new rows. *)
Definition manifest_matches (rq : replacement_request) (ids : list string) : res bool :=
  match py_or (dict_get "new_memory_ids" (lp_metadata (logical_payload (rp_operation rq)))) (VList []) with
  | VList l => names ← (match read_strs l with Ok l => Ok l | Raise _ => Raise Unmodelled end);
               Ok (bool_decide (sorted_strs names = sorted_strs ids))
  | _ => Raise Unmodelled
  end.

(** ** Commits of a replacement *)
Definition with_payload (e : MemoryOutboxEvent) (payload : dict) : MemoryOutboxEvent :=
  OutboxEvent (event_id e) (event_uid e) (event_type e) (event_commit_id e) (parent_commit_id e) (event_sequence e)
    (event_memory_id e) (event_operation_id e) (event_account_generation e) (event_source_generation e) payload
    (available_at e).

(** The new row continues the revisions of the one it recreates. *)
Definition _refresh_replacement_result (r : ApplyResult) (prior : option item) (was_source : bool) : res ApplyResult :=
  match prior, memory_items r with
  | Some p, [created] =>
      let step := if was_source then 2 else 1 in
      version ← field_int p "version"; revision ← field_int p "item_revision";
      made ← field_time created "updated_at"; before ← field_time p "updated_at";
      let d := model_copy created
        [("version", VInt (version + step)); ("item_revision", VInt (revision + step));
         ("updated_at", instant (Z.max made before))] in
      Ok (Result (result_status r) (control_state r) (result_operation r) [d] (graph_assertions r)
            ((fun e => with_payload e (dict_update (event_payload e)
                [("item_revision", doc_get d "item_revision"); ("content_hash", doc_get d "content_hash")]))
             <$> outbox_events r))
  | _, _ => Ok r
  end.

Fixpoint apply_writes (c : MemoryControlState) (planned : list planned_write) (now : Z)
    : res (list ApplyResult * MemoryControlState) :=
  match planned with
  | [] => Ok ([], c)
  | p :: planned' =>
      let w := pw_write p in
      r ← apply_long_term_patch_transaction c (aw_operation w)
            (<["evidence" := VList (aw_evidence w)]> (aw_payload w)) false now;
      if negb (bool_decide (result_status r = apply_committed)) then replacement_conflict
      else
        r ← _refresh_replacement_result r (pw_prior p) (pw_source p);
        '(rs, last) ← apply_writes (control_state r) planned' now;
        Ok (r :: rs, last)
  end.

Definition replacement_event (uid : string) (parent c : MemoryControlState) (op_id : string)
    (memory_id : option string) (payload : dict) (now : Z) (t : MemoryOutboxEventType) : MemoryOutboxEvent :=
  OutboxEvent (_event_id t (head_commit_id c) memory_id op_id) uid t (head_commit_id c) (head_commit_id parent)
    (commit_sequence c) memory_id op_id (account_generation c) (source_generation c) payload now.

Definition item_payload (d : item) (action reason : string) : dict :=
  [("memory_id", doc_get d "memory_id"); ("tier", doc_get d "tier"); ("action", VStr action);
   ("item_revision", doc_get d "item_revision"); ("content_hash", doc_get d "content_hash"); ("reason", VStr reason)].

Definition _replacement_delete_events (uid : string) (d : item) (parent c : MemoryControlState) (op_id : string)
    (now : Z) : list MemoryOutboxEvent :=
  replacement_event uid parent c op_id (Some (text_or d "memory_id"))
    (item_payload d "delete" "conversation_reprocess_retract") now <$> [projection_sync; vector_sync].

Definition reactivation_eligible (d : item) : bool :=
  v_is (doc_get d "status") "active" && v_is (doc_get d "processing_state") "processed"
  && negb (bool_decide (dict_get "user_review" (dict_or d "promotion") = VBool false))
  && negb (_has_restricted_sensitivity d).

Definition _replacement_reactivation_events (uid : string) (d : item) (parent c : MemoryControlState)
    (op_id : string) (now : Z) : list MemoryOutboxEvent :=
  replacement_event uid parent c op_id (Some (text_or d "memory_id"))
    (item_payload d (if reactivation_eligible d then "upsert" else "delete") "independent_lineage_source_survived") now
  <$> [projection_sync; vector_sync].

Definition _replacement_barrier_events (uid : string) (parent c : MemoryControlState) (op_id : string) (now : Z)
    : list MemoryOutboxEvent :=
  replacement_event uid parent c op_id None [("action", VStr "barrier")] now <$> [projection_sync; vector_sync].

Definition _reactivate_replacement_lineage_item (d : item) (c : MemoryControlState) (now : Z)
    : res (item * MemoryGraphAssertion) :=
  match dict_get "graph_plan" (dict_or d "promotion") with
  | VDict raw =>
      match promotion_graph_plan raw with
      | Raise _ => replacement_conflict
      | Ok plan =>
          if negb (truthy (doc_get d "content_hash")) then replacement_conflict
          else
            revision ← field_int d "item_revision";
            a ← build_memory_graph_assertion (text_or d "uid") (text_or d "memory_id") (revision + 1)
                  (text_or d "content_hash") (texts (evidence_id <$> evidence_of d)) plan (head_commit_id c)
                  (commit_sequence c) (instant now);
            updated ← field_time d "updated_at"; version ← next_int d "version";
            d ← parse_item (model_copy d
                  [("canonical_memory_id", VNone); ("status", VStr "active"); ("superseded_by", VNone);
                   ("updated_at", instant (Z.max now updated)); ("ledger_commit_id", VStr (head_commit_id c));
                   ("ledger_sequence", VInt (commit_sequence c)); ("version", version);
                   ("item_revision", VInt (revision + 1)); ("account_generation", VInt (account_generation c));
                   ("subject_entity_id", VStr (plan_subject_entity_id plan)); ("predicate", VStr (plan_predicate plan));
                   ("arguments", VDict (plan_arguments plan)); ("graph_ready", VBool true);
                   ("graph_assertion_id", VStr (assertion_id a)); ("graph_plan_hash", VStr (plan_hash plan));
                   ("kg_extracted", VBool true)]);
            Ok (d, a)
      end
  | _ => replacement_conflict
  end.

(** ** The plan of the writes *)

(** The control state of the replacement's own commit. *)
Definition replacement_head (rq : replacement_request) (c : MemoryControlState) (now : Z) : res MemoryControlState :=
  let bumped := with_source_generation c (source_generation c + 1) now in
  match rp_writes rq, rp_token rq with
  | [], Some token => advanced ← advance_head bumped (privacy_epoch (rp_uid rq) token bumped) now;
                      Ok (without_watermarks advanced)
  | _, _ => advance_head bumped (next_commit_id bumped (operation_id (rp_operation rq))) now
  end.

Record retraction := Retraction {
  rt_rows : list (string * item);
  rt_evidence : dict;
  rt_events : list MemoryOutboxEvent
}.

Fixpoint retract_rows (rq : replacement_request) (parent c : MemoryControlState) (now : Z) (evidence : dict)
    (sources : list source_row) : res retraction :=
  match sources with
  | [] => Ok (Retraction [] evidence [])
  | r :: sources' =>
      let scrub := match rp_writes rq with [] => true | _ => false end in
      let scrubbed := (fun e => _privacy_tombstoned_evidence e scrub) <$> sr_evidence r in
      let evidence := fold_left (fun d e => dict_set (evidence_name e) e d) scrubbed evidence in
      d ← _privacy_tombstoned_memory_item (sr_item r) scrubbed now (head_commit_id c) (commit_sequence c)
            (account_generation c);
      let events := _replacement_delete_events (rp_uid rq) d parent c (operation_id (rp_operation rq)) now in
      rest ← retract_rows rq parent c now evidence sources';
      Ok (Retraction ((sr_id r, d) :: rt_rows rest) (rt_evidence rest) (events ++ rt_events rest))
  end.

Record reactivation := Reactivation {
  ra_items : list item;
  ra_assertions : list MemoryGraphAssertion;
  ra_events : list MemoryOutboxEvent
}.

Fixpoint reactivate_rows (rq : replacement_request) (parent c : MemoryControlState) (now : Z) (new_ids : list string)
    (lineage : list item) : res reactivation :=
  match lineage with
  | [] => Ok (Reactivation [] [] [])
  | d :: lineage' =>
      if bool_decide (canonical_target d ∈ new_ids) then reactivate_rows rq parent c now new_ids lineage'
      else
        '(d, a) ← _reactivate_replacement_lineage_item d c now;
        let events := _replacement_reactivation_events (rp_uid rq) d parent c (operation_id (rp_operation rq)) now in
        rest ← reactivate_rows rq parent c now new_ids lineage';
        Ok (Reactivation (d :: ra_items rest) (a :: ra_assertions rest) (events ++ ra_events rest))
  end.

(** The result of the replacement's own commit. *)
Definition replacement_result (rq : replacement_request) (parent c : MemoryControlState) (rt : retraction)
    (ra : reactivation) (new_ids : list string) (now : Z) : res ApplyResult :=
  let op := rp_operation rq in
  let events := _replacement_barrier_events (rp_uid rq) parent c (operation_id op) now ++ rt_events rt ++ ra_events ra in
  finished ← mark_committed op (head_commit_id c) (commit_sequence c)
               (sorted_set ((fst <$> rt_rows rt) ++ new_ids ++ names_of (ra_items ra))) (event_id <$> events) now;
  Ok (Result apply_committed c finished (ra_items ra) (ra_assertions ra) events).

(** The rows of a result that open a review. *)
Definition opens_review (d : item) : bool :=
  v_is (doc_get d "status") "active" && v_is (dict_get "route" (dict_or d "promotion")) "review".

Definition result_mutations (r : ApplyResult) : Z :=
  4 + 2 * Z.of_nat (length (memory_items r)) + Z.of_nat (length (outbox_events r))
  + Z.of_nat (length (List.filter opens_review (memory_items r))).

Definition _replacement_mutation_count (tombstoned_evidence_count old_item_count overlapping_item_count
    new_evidence_count : Z) (results : list ApplyResult) : Z :=
  tombstoned_evidence_count + 2 * (old_item_count - overlapping_item_count) + new_evidence_count
  + match results with
    | [] => 1
    | _ => foldr (fun r n => result_mutations r + n) 0 results
    end.

Definition total_mutations (rq : replacement_request) (rt : retraction) (new_ids : list string)
    (results : list ApplyResult) : Z :=
  let old := Z.of_nat (length (rt_rows rt)) in
  _replacement_mutation_count (Z.of_nat (length (rt_evidence rt))) old
    (Z.of_nat (length (filter (fun r => r.1 ∈ new_ids) (rt_rows rt))))
    (foldr (fun w n => Z.of_nat (length (aw_evidence w)) + n) 0 (rp_writes rq)) results
  + 1 + (match rp_writes rq with [] => old | _ => 0 end).

(** ** The writes *)
Definition write_named_evidence (uid : string) (e : value) : Txn unit :=
  ref ← lift (evidence_ref uid (evidence_name e));
  txn_set ref (fields_of (match e with VDict d => d | _ => [] end)).

(** A retracted row: written unless a replacement recreates it, with a deletion
    receipt when nothing replaces the source. *)
Definition write_retracted (rq : replacement_request) (c : MemoryControlState) (new_ids : list string) (now : Z)
    (row : string * item) : Txn unit :=
  (if bool_decide (row.1 ∈ new_ids) then mret tt
   else
     ref ← lift (item_ref (rp_uid rq) row.1);
     txn_set ref row.2;;
     aref ← lift (assertion_ref (rp_uid rq) row.1);
     txn_delete aref);;
  match rp_writes rq with
  | [] =>
      id ← lift (privacy_deletion_receipt_id (rp_uid rq) row.1);
      ref ← lift (deletion_receipt_ref (rp_uid rq) id);
      receipt ← lift (deletion_receipt (rp_uid rq) id c now);
      txn_set ref receipt
  | _ => mret tt
  end.

Definition write_result (uid : string) (r : ApplyResult) : Txn unit :=
  ref ← lift (operation_ref uid (operation_id (result_operation r)));
  _write_apply_result uid ref r.

Definition commit_replacement (rq : replacement_request) (ref : path) (c : MemoryControlState)
    (sources : list source_row) (lineage : list item) (planned : list planned_write) (now : Z)
    : Txn ConversationSourceReplacementResult :=
  let uid := rp_uid rq in
  let new_ids := pw_id <$> planned in
  next ← lift (replacement_head rq c now);
  '(results, last) ← lift (apply_writes next planned now);
  rt ← lift (retract_rows rq c next now [] sources);
  ra ← lift (reactivate_rows rq c next now new_ids lineage);
  r ← lift (replacement_result rq c next rt ra new_ids now);
  if _MAX_FIRESTORE_TRANSACTION_MUTATIONS <? total_mutations rq rt new_ids (r :: results)
  then lift (Raise ConversationSourceReplacementLimitError)
  else
    txn_each (rt_evidence rt) (fun kv => write_named_evidence uid kv.2);;
    txn_each (rp_writes rq) (fun w => txn_each (aw_evidence w) (write_named_evidence uid));;
    txn_each (rt_rows rt) (write_retracted rq next new_ids now);;
    txn_each (r :: results) (write_result uid);;
    let s := ReplacementResult last (sorted_strs (fst <$> rt_rows rt)) new_ids
               (sorted_strs (names_of (ra_items ra)))
               (sorted_set (evidence_name <$> (sources ≫= sr_evidence))) in
    receipt ← lift (replacement_receipt
      (ReplacementReceipt (rp_replacement_id rq) (rp_replacement_digest rq) uid (rp_conversation_id rq)
         (operation_id (result_operation r)) s now));
    txn_set ref (list_to_map (receipt_dict receipt));;
    mret s.

(** ** The transaction *)

(** From a control state that is still the observed one. *)
Definition replace_source (rq : replacement_request) (ref : path) (c : MemoryControlState) (now : Z)
    : Txn ConversationSourceReplacementResult :=
  let uid := rp_uid rq in
  lift (admit_replacement rq c);;
  conflict_when (negb (replacement_operation_matches rq c));;
  oref ← lift (operation_ref uid (operation_id (rp_operation rq)));
  known ← exists_doc oref;
  conflict_when known;;
  let ids := names_of (rp_source_items rq) in
  conflict_when (negb (bool_decide (NoDup ids)));;
  sources ← read_source_rows uid (rp_conversation_id rq) (rp_source_items rq) (sorted_strs ids);
  let lineage_ids := names_of (rp_reactivation_items rq) in
  conflict_when (negb (bool_decide (NoDup lineage_ids)));;
  conflict_when (existsb (fun id => bool_decide (id ∈ ids)) lineage_ids);;
  lineage ← read_lineage_rows uid (rp_conversation_id rq) (terminal_source_ids sources) (rp_reactivation_items rq)
              (sorted_strs lineage_ids);
  planned ← check_writes rq c sources [] (evidence_name <$> (sources ≫= sr_evidence)) (rp_writes rq);
  matches ← lift (manifest_matches rq (pw_id <$> planned));
  conflict_when (negb matches);;
  commit_replacement rq ref c sources lineage planned now.

Definition _replace_conversation_source_firestore_transaction (rq : replacement_request) (now : Z)
    : Txn ConversationSourceReplacementResult :=
  let uid := rp_uid rq in
  assert_replacement_authority rq now;;
  cref ← lift (control_ref uid);
  c ← control_or_initial uid cref now;
  ref ← lift (replacement_ref uid (rp_replacement_id rq));
  done ← read_receipt rq c ref now;
  match done with
  | Some s => mret s
  | None =>
      conflict_when (negb (bool_decide (_control_fence c = _control_fence (rp_observed rq))));;
      replace_source rq ref c now
  end.

Definition replace_conversation_source_firestore (mode : string) (rq : replacement_request) (now : Z) (s : db)
    : res (ConversationSourceReplacementResult * db) :=
  _ ← _require_canonical_intake_enabled mode;
  run_txn (_replace_conversation_source_firestore_transaction rq now) s.
End Replacement.
