(* ===== verification/MemoryProofs.v ===== *)
(** * Correctness of the memory ledger

    What a commit of the apply transaction is: every guard it passed, the head
    it advances, the journal record it closes, the items and events it emits;
    and what follows for sequences of applies. *)

From S2P Require Import Prelude PyValue Sha256 Firestore MemoryText MemoryOperations MemoryModels MemoryPromotion MemoryApply.
From Stdlib Require Import QArith_base Ascii.
From stdpp Require Import sorting.
Local Open Scope Z_scope.

#[local] Opaque deterministic_contract_id json_text sha256.

(** ** Journal records *)
Section Journal.
Context {T : TextEnv}.

(** The part of a record that no transition changes. *)
Definition same_identity (m m' : MemoryOperation) : Prop :=
  operation_id m' = operation_id m /\ op_uid m' = op_uid m /\ operation_type m' = operation_type m /\
  evidence_ids m' = evidence_ids m /\ logical_payload m' = logical_payload m /\
  op_logical_payload_digest m' = op_logical_payload_digest m /\
  op_account_generation m' = op_account_generation m /\ op_source_generation m' = op_source_generation m.

Lemma apply_update_identity m u : same_identity m (apply_update m u).
Proof. by repeat split. Qed.

Lemma memory_operation_Ok m m' : memory_operation m = Ok m' -> m' = m /\ valid_operation m = true.
Proof. unfold memory_operation. destruct (valid_operation m) eqn:E; [|done]. by intros [= <-]. Qed.

Lemma mark_committed_Ok m head sequence items events now m' :
  mark_committed m head sequence items events now = Ok m' ->
  is_terminal_status (op_status m) = false /\ same_identity m m' /\ op_status m' = committed /\
  committed_head_commit_id m' = Some head /\ committed_sequence m' = Some sequence /\
  committed_memory_item_ids m' = items /\ committed_outbox_event_ids m' = events /\
  valid_operation m' = true.
Proof.
  unfold mark_committed, _transition. destruct (is_terminal_status (op_status m)); [done|].
  intros [-> Hv]%memory_operation_Ok. by repeat split.
Qed.
End Journal.

(** ** What a result may be *)
Section Results.
Context {T : TextEnv} {Md : ModelEnv}.

(** A result that changes nothing but the journal record. *)
Definition changes_nothing (c : MemoryControlState) (r : ApplyResult) : Prop :=
  control_state r = c /\ memory_items r = [] /\ graph_assertions r = [] /\ outbox_events r = [].

Lemma refused_changes_nothing st c op : changes_nothing c (refused st c op).
Proof. by repeat split. Qed.

(** The control state after a commit. *)
Definition advanced (c : MemoryControlState) (op : MemoryOperation) (now : Z) : MemoryControlState :=
  with_head c (next_commit_id c (operation_id op)) (commit_sequence c + 1) now.

Lemma advance_head_Ok c id now next :
  advance_head c id now = Ok next -> next = with_head c id (commit_sequence c + 1) now /\ nonblank id = true.
Proof. unfold advance_head. destruct (nonblank id); [|done]. by intros [= <-]. Qed.

(** The committed shapes: a barrier, or the items of one patch. *)
Inductive committed_shape (c : MemoryControlState) (op : MemoryOperation) (raw : fields) (p : patch)
    (evidence : list value) (allow : bool) (now : Z) (r : ApplyResult) : Prop :=
| ShapeBarrier :
    v_is (doc_get p "decision") "skip_duplicate" = true ->
    memory_items r = [] -> graph_assertions r = [] ->
    outbox_events r = _barrier_outbox_events op c (next_commit_id c (operation_id op)) (commit_sequence c + 1) now ->
    committed_shape c op raw p evidence allow now r
| ShapeItems existing d0 d assertions items :
    v_is (doc_get p "decision") "skip_duplicate" = false ->
    existing_of raw p = Ok (Some existing) ->
    patched_item c op raw p evidence existing allow (next_commit_id c (operation_id op))
      (commit_sequence c + 1) now = Ok (Some d0) ->
    attach_assertion op (graph_refresh existing op p d0) d0 (next_commit_id c (operation_id op))
      (commit_sequence c + 1) = Ok (Some (d, assertions)) ->
    superseded_of p (doc_get raw "superseded_items") d (next_commit_id c (operation_id op))
      (commit_sequence c + 1) now = Ok (inr items) ->
    memory_items r = d :: items -> graph_assertions r = assertions ->
    outbox_events r = (memory_items r ≫= item_events op c (next_commit_id c (operation_id op)) (commit_sequence c + 1) now) ->
    committed_shape c op raw p evidence allow now r.

(** What every commit does to the control state and the journal. *)
Record committed_result (c : MemoryControlState) (op : MemoryOperation) (now : Z) (r : ApplyResult) : Prop := {
  cr_status : result_status r = apply_committed;
  cr_control : control_state r = advanced c op now;
  cr_commit_id : nonblank (next_commit_id c (operation_id op)) = true;
  cr_open : is_terminal_status (op_status op) = false;
  cr_identity : same_identity op (result_operation r);
  cr_op_status : op_status (result_operation r) = committed;
  cr_valid : valid_operation (result_operation r) = true;
  cr_head : committed_head_commit_id (result_operation r) = Some (next_commit_id c (operation_id op));
  cr_sequence : committed_sequence (result_operation r) = Some (commit_sequence c + 1);
  cr_items : committed_memory_item_ids (result_operation r) = (fun d => text_or d "memory_id") <$> memory_items r;
  cr_events : committed_outbox_event_ids (result_operation r) = event_id <$> outbox_events r
}.

Lemma superseded_refusal p v d id n now st :
  superseded_of p v d id n now = Ok (inl st) -> st <> apply_committed.
Proof.
  unfold superseded_of. case_decide; [done|]. destruct v as [| | | | | |l|]; try (by intros [= <-]).
  intros Hs. apply res_bind_Ok in Hs as (items & _ & Hs). case_decide; [|by injection Hs as <-].
  clear -Hs. revert Hs. generalize (superseded_ids p), (items_by_id items). intros ids.
  induction ids as [|i ids IH]; intros m; simpl; [done|].
  destruct (m !! i) as [e|]; [|done]. destruct (negb _); [by intros [= <-]|].
  destruct (_ && _); [by intros [= <-]|]. intros H.
  apply res_bind_Ok in H as (s & _ & H). apply res_bind_Ok in H as (rest & Hr & H).
  destruct rest; [|done]. injection H as <-. by eapply IH.
Qed.

Lemma apply_patch_cases c op raw p evidence allow now r :
  apply_patch c op raw p evidence allow now = Ok r ->
  (result_status r <> apply_committed /\ changes_nothing c r) \/
  (committed_result c op now r /\ committed_shape c op raw p evidence allow now r).
Proof.
  unfold apply_patch. cbv zeta. intros H. apply res_bind_Ok in H as (next & Hn & H).
  apply advance_head_Ok in Hn as [-> Hnb].
  destruct (v_is (doc_get p "decision") "skip_duplicate") eqn:Hskip.
  { right. unfold commit_barrier in H. apply res_bind_Ok in H as (m & Hm & H). injection H as <-.
    apply mark_committed_Ok in Hm as (? & ? & ? & ? & ? & ? & ? & ?).
    split; [by split|by apply ShapeBarrier]. }
  apply res_bind_Ok in H as (existing & He & H).
  destruct existing as [existing|]; [|injection H as <-; left; split; [done|apply refused_changes_nothing]].
  apply res_bind_Ok in H as (patched & Hp & H).
  destruct patched as [d0|]; [|injection H as <-; left; split; [done|apply refused_changes_nothing]].
  apply res_bind_Ok in H as (attached & Ha & H).
  destruct attached as [[d assertions]|]; [|injection H as <-; left; split; [done|apply refused_changes_nothing]].
  apply res_bind_Ok in H as (sup & Hs & H). destruct sup as [st|items].
  { injection H as <-. left. split; [by eapply superseded_refusal|apply refused_changes_nothing]. }
  right. unfold commit_items in H. apply res_bind_Ok in H as (m & Hm & H). injection H as <-.
  apply mark_committed_Ok in Hm as (? & ? & ? & ? & ? & ? & ? & ?).
  split; [by split|by eapply ShapeItems].
Qed.

(** Every guard a commit passed. *)
Record passed (c : MemoryControlState) (op : MemoryOperation) (raw : fields) (p : patch)
    (evidence : list value) : Prop := {
  pass_evidence : payload_evidence raw = Ok evidence;
  pass_patch : durable_memory_patch (patch_fields raw) = Ok p;
  pass_ids : py_eq (doc_get p "evidence_ids") (str_list (evidence_ids op)) = true;
  pass_ledger : is_ledger p = true -> operation_type op = ledger_mutation;
  pass_digest : _operation_digest_for_patch p op (build_patch_mutation_identity raw)
                  = Ok (op_logical_payload_digest op);
  pass_generation : op_account_generation op = account_generation c /\
                    op_source_generation op = source_generation c;
  pass_head : given (observed_head_commit_id op) = true -> observed_head_commit_id op = Some (head_commit_id c);
  pass_enrichment : operation_type op = graph_enrichment -> v_is (doc_get p "decision") "update" = true;
  pass_sources : Forall (fun e => v_is (source_state e) "active" = true) evidence
}.

Lemma apply_cases c op raw allow now r :
  apply_long_term_patch_transaction c op raw allow now = Ok r ->
  (result_status r <> apply_committed /\ changes_nothing c r) \/
  exists p evidence, passed c op raw p evidence /\ committed_result c op now r /\
    committed_shape c op raw p evidence allow now r.
Proof.
  unfold apply_long_term_patch_transaction. intros H. apply res_bind_Ok in H as (evidence & Hev & H).
  assert (Hstop : forall st op', st <> apply_committed -> Ok (refused st c op') = Ok r ->
    (result_status r <> apply_committed /\ changes_nothing c r)).
  { intros st op' Hst [= <-]. split; [done|apply refused_changes_nothing]. }
  destruct (durable_memory_patch (patch_fields raw)) as [p|] eqn:Hp; [|left; eapply Hstop; [|exact H]; done].
  destruct (negb (py_eq _ _)) eqn:Hids; [left; eapply Hstop; [|exact H]; done|].
  destruct (is_ledger p && _) eqn:Hled; [left; eapply Hstop; [|exact H]; done|].
  apply res_bind_Ok in H as (digest & Hd & H).
  destruct (negb (bool_decide (digest = _))) eqn:Heq; [left; eapply Hstop; [|exact H]; done|].
  case_decide as Hc; [left; eapply Hstop; [|exact H]; done|].
  destruct (is_stale op _ _) eqn:Hst.
  { left. apply res_bind_Ok in H as (stale & _ & H). eapply Hstop; [|exact H]; done. }
  destruct (given _ && _) eqn:Hhead; [left; eapply Hstop; [|exact H]; done|].
  destruct (bool_decide (operation_type op = graph_enrichment) && _) eqn:Henr; [left; eapply Hstop; [|exact H]; done|].
  destruct (existsb _ evidence) eqn:Hsrc; [left; eapply Hstop; [|exact H]; done|].
  apply apply_patch_cases in H as [H|[H1 H2]]; [by left|]. right. exists p, evidence.
  split; [|done]. apply negb_false_iff in Hids, Heq. apply bool_decide_eq_true in Heq. subst digest.
  split; try done.
  - intros Hl. rewrite Hl in Hled. by apply negb_false_iff, bool_decide_eq_true in Hled.
  - unfold is_stale in Hst. apply orb_false_iff in Hst as [H3 H4].
    apply negb_false_iff, Z.eqb_eq in H3, H4. done.
  - intros Hg. rewrite Hg in Hhead. by apply negb_false_iff, bool_decide_eq_true in Hhead.
  - intros Ho. rewrite Ho, bool_decide_eq_true_2 in Henr by done. by apply negb_false_iff in Henr.
  - apply Forall_forall. intros e He. destruct (v_is (source_state e) "active") eqn:E; [done|].
    assert (Ht : existsb (fun e => negb (v_is (source_state e) "active")) evidence = true).
    { apply existsb_exists. exists e. split; [by apply list_elem_of_In|by rewrite E]. }
    congruence.
Qed.

(** The digest of a patch reads the operation's payload only. *)
Lemma digest_identity p op op' identity :
  same_identity op op' ->
  _operation_digest_for_patch p op' identity = _operation_digest_for_patch p op identity.
Proof. intros (_ & _ & _ & _ & E & _). unfold _operation_digest_for_patch. by rewrite E. Qed.

(** C25: An apply commits or changes nothing.  A result that is not committed
    leaves the control state as it was and emits no items, assertions or events.
    A committed one advances the head to the commit identifier and the sequence
    by one, keeps the generations and the writer mode, closes an operation that
    was open, was made for the current generations and had observed no other
    head, and records in the journal exactly the items and events it emits. *)
Theorem apply_commits_or_changes_nothing c op raw allow now r :
  apply_long_term_patch_transaction c op raw allow now = Ok r ->
  (result_status r <> apply_committed -> changes_nothing c r) /\
  (result_status r = apply_committed ->
     head_commit_id (control_state r) = next_commit_id c (operation_id op) /\
     commit_sequence (control_state r) = commit_sequence c + 1 /\
     account_generation (control_state r) = account_generation c /\
     source_generation (control_state r) = source_generation c /\
     writer_mode (control_state r) = writer_mode c /\ writer_epoch (control_state r) = writer_epoch c /\
     (op_status op ∉ _TERMINAL_STATUSES) /\
     op_account_generation op = account_generation c /\ op_source_generation op = source_generation c /\
     (given (observed_head_commit_id op) = true -> observed_head_commit_id op = Some (head_commit_id c)) /\
     op_status (result_operation r) = committed /\
     committed_head_commit_id (result_operation r) = Some (head_commit_id (control_state r)) /\
     committed_sequence (result_operation r) = Some (commit_sequence (control_state r)) /\
     committed_memory_item_ids (result_operation r) = (fun d => text_or d "memory_id") <$> memory_items r /\
     committed_outbox_event_ids (result_operation r) = event_id <$> outbox_events r).
Proof.
  intros [[Hs Hc]|(p & evidence & Hp & Hr & _)]%apply_cases; [by split|].
  split; [by rewrite (cr_status _ _ _ _ Hr)|]. intros _. destruct Hr, Hp. rewrite cr_control0. simpl.
  split_and!; try done; try tauto. by apply bool_decide_eq_false in cr_open0.
Qed.

(** A committed operation is applied once.  After a commit, applying the same
    payload under the journal record it left, in any later control state, is an
    idempotent skip that changes nothing. *)
Theorem committed_operation_is_idempotent c op raw allow now r c' allow' now' :
  apply_long_term_patch_transaction c op raw allow now = Ok r -> result_status r = apply_committed ->
  apply_long_term_patch_transaction c' (result_operation r) raw allow' now'
    = Ok (refused idempotent_skip c' (result_operation r)).
Proof.
  intros [[Hs _]|(p & evidence & Hp & Hr & _)]%apply_cases Hcm; [done|].
  pose proof (cr_identity _ _ _ _ Hr) as Hid. pose proof Hid as (_ & _ & Ht & Hev & _ & Hdg & _).
  unfold apply_long_term_patch_transaction. rewrite (pass_evidence _ _ _ _ _ Hp), ok_bind.
  rewrite (pass_patch _ _ _ _ _ Hp), Hev, (pass_ids _ _ _ _ _ Hp). cbn [negb].
  assert (is_ledger p && negb (bool_decide (operation_type (result_operation r) = ledger_mutation)) = false) as ->.
  { rewrite Ht. destruct (is_ledger p) eqn:E; [|done]. rewrite bool_decide_eq_true_2; [done|].
    by apply (pass_ledger _ _ _ _ _ Hp). }
  rewrite (digest_identity _ _ _ _ Hid), (pass_digest _ _ _ _ _ Hp), ok_bind.
  rewrite bool_decide_eq_true_2 by done. cbn [negb]. by rewrite decide_True by apply (cr_op_status _ _ _ _ Hr).
Qed.

(** No update is lost.  When two operations were planned on the same head and
    the first commits (its commit identifier, a digest, being a new one), the
    second does not commit on the new head: it leaves the control state alone,
    and if it is told to retry it is rebased on the new head with one more
    attempt and the same identity. *)
Theorem second_writer_is_rebased c op1 raw1 allow1 now1 r1 op2 raw2 allow2 now2 r2 :
  apply_long_term_patch_transaction c op1 raw1 allow1 now1 = Ok r1 -> result_status r1 = apply_committed ->
  observed_head_commit_id op2 = Some (head_commit_id c) -> head_commit_id c <> "" ->
  next_commit_id c (operation_id op1) <> head_commit_id c ->
  apply_long_term_patch_transaction (control_state r1) op2 raw2 allow2 now2 = Ok r2 ->
  result_status r2 <> apply_committed /\ control_state r2 = control_state r1 /\
  (result_status r2 = retryable_head_mismatch ->
     observed_head_commit_id (result_operation r2) = Some (head_commit_id (control_state r1)) /\
     attempt_count (result_operation r2) = attempt_count op2 + 1 /\
     same_identity op2 (result_operation r2)).
Proof.
  intros [[Hs1 _]|(p1 & evidence1 & _ & Hr1 & _)]%apply_cases Hc1 Hobs Hne Hid H2; [done|].
  assert (Hhead : head_commit_id (control_state r1) <> head_commit_id c)
    by by rewrite (cr_control _ _ _ _ Hr1).
  pose proof H2 as H.
  apply apply_cases in H2 as [[Hs (Hc & _)]|(p & evidence & Hp & _ & _)].
  - split_and!; [done..|]. intros Hst. revert H. unfold apply_long_term_patch_transaction.
    intros H. apply res_bind_Ok in H as (evidence & _ & H).
    destruct (durable_memory_patch _); [|by injection H as <-].
    destruct (negb (py_eq _ _)); [by injection H as <-|].
    destruct (is_ledger _ && _); [by injection H as <-|].
    apply res_bind_Ok in H as (digest & _ & H). destruct (negb (bool_decide _)); [by injection H as <-|].
    case_decide; [by injection H as <-|].
    destruct (is_stale _ _ _); [apply res_bind_Ok in H as (stale & _ & H); by injection H as <-|].
    assert (given (observed_head_commit_id op2)
      && negb (bool_decide (observed_head_commit_id op2 = Some (head_commit_id (control_state r1)))) = true) as E.
    { rewrite Hobs. simpl. rewrite !bool_decide_eq_false_2; [done|congruence|done]. }
    rewrite E in H. injection H as <-. by repeat split.
  - exfalso. apply Hhead. assert (Hg : given (observed_head_commit_id op2) = true).
    { rewrite Hobs. simpl. by rewrite bool_decide_eq_false_2. }
    pose proof (pass_head _ _ _ _ _ Hp Hg). congruence.
Qed.

(** ** Sequences of applies *)
Record apply_call := Call {
  call_operation : MemoryOperation;
  call_payload : fields;
  call_allow : bool;
  call_now : Z
}.

(** The control state after a sequence of calls, with the commits in order; a
    call that raises changes nothing. *)
Fixpoint ledger_run (c : MemoryControlState) (calls : list apply_call) : MemoryControlState * list ApplyResult :=
  match calls with
  | [] => (c, [])
  | call :: calls' =>
      match apply_long_term_patch_transaction c (call_operation call) (call_payload call) (call_allow call)
              (call_now call) with
      | Raise _ => ledger_run c calls'
      | Ok r =>
          let '(c', rs) := ledger_run (control_state r) calls' in
          (c', if decide (result_status r = apply_committed) then r :: rs else rs)
      end
  end.

(** The first event of a commit synchronises the projection. *)
Definition projection_event (r : ApplyResult) : option MemoryOutboxEvent := head (outbox_events r).

Fixpoint advance_all (now : Z) (c : MemoryControlState) (es : list MemoryOutboxEvent) : res MemoryControlState :=
  match es with
  | [] => Ok c
  | e :: es' => c' ← advance_projection_watermark c e now; advance_all now c' es'
  end.

(** An event of the commit that moves [c] to the control state of [r]. *)
Record event_of (c : MemoryControlState) (r : ApplyResult) (e : MemoryOutboxEvent) : Prop := {
  ev_commit : event_commit_id e = head_commit_id (control_state r);
  ev_parent : parent_commit_id e = head_commit_id c;
  ev_sequence : event_sequence e = commit_sequence c + 1;
  ev_account : event_account_generation e = account_generation c
}.

Lemma committed_events c op raw p evidence allow now r :
  committed_result c op now r -> committed_shape c op raw p evidence allow now r ->
  Forall (event_of c r) (outbox_events r) /\ is_Some (projection_event r).
Proof.
  intros Hr Hs. unfold projection_event.
  assert (Hev : forall m payload t, event_of c r
    (outbox_event op c (next_commit_id c (operation_id op)) (commit_sequence c + 1) m payload now t)).
  { intros. split; [by rewrite (cr_control _ _ _ _ Hr)|done..]. }
  destruct Hs as [_ _ _ ->|existing d0 d assertions items _ _ _ _ _ Hi _ ->].
  - split; [|done]. repeat constructor; apply Hev.
  - rewrite Hi. split; [|done]. apply Forall_bind, Forall_forall. intros x _. repeat constructor; apply Hev.
Qed.

(** The projection is at the head. *)
Definition watermark_current (c : MemoryControlState) : Prop :=
  projection_watermark_sequence c = commit_sequence c /\
  (projection_watermark_commit_id c = None \/ projection_watermark_commit_id c = Some (head_commit_id c)).

(** [w] follows [c]: the same generation, its watermark at the head of [c]. *)
Definition follows (w c : MemoryControlState) : Prop :=
  account_generation w = account_generation c /\ projection_watermark_sequence w = commit_sequence c /\
  (projection_watermark_commit_id w = None \/ projection_watermark_commit_id w = Some (head_commit_id c)).

Lemma follow_run now calls c w :
  follows w c ->
  let '(c', rs) := ledger_run c calls in
  account_generation c' = account_generation c /\
  commit_sequence c' = commit_sequence c + Z.of_nat (length rs) /\
  exists w', advance_all now w (omap projection_event rs) = Ok w' /\ follows w' c' /\
    (rs <> [] -> projection_watermark_commit_id w' = Some (head_commit_id c')).
Proof.
  revert c w. induction calls as [|call calls IH]; intros c w Hf; simpl.
  { split_and!; [done|lia|]. by exists w. }
  destruct (apply_long_term_patch_transaction _ _ _ _ _) as [r|] eqn:E; [|by apply IH].
  apply apply_cases in E as [[Hs (Hc & _)]|(p & evidence & _ & Hr & Hsh)].
  - rewrite Hc. specialize (IH c w Hf). destruct (ledger_run c calls) as [c' rs].
    by rewrite decide_False by done.
  - destruct (committed_events _ _ _ _ _ _ _ _ Hr Hsh) as [Hev [e He]].
    assert (Hee : event_of c r e).
    { apply (proj1 (Forall_forall _ _) Hev). unfold projection_event in He.
      destruct (outbox_events r); [done|]. injection He as ->. apply elem_of_cons. by left. }
    destruct Hee as [H1 H2 H3 H4]. destruct Hf as (F1 & F2 & F3).
    assert (Hadv : advance_projection_watermark w e now
      = Ok (with_watermark w (event_commit_id e) (event_sequence e) now)).
    { unfold advance_projection_watermark.
      rewrite H1, (cr_control _ _ _ _ Hr). cbn [advanced with_head head_commit_id].
      rewrite (cr_commit_id _ _ _ _ Hr), H4, F1, Z.eqb_refl, H3, F2, Z.eqb_refl. simpl.
      destruct F3 as [->| ->]; [done|]. by rewrite H2, bool_decide_eq_true_2, andb_false_r by done. }
    specialize (IH (control_state r) (with_watermark w (event_commit_id e) (event_sequence e) now)).
    destruct (ledger_run (control_state r) calls) as [c' rs].
    rewrite decide_True by apply (cr_status _ _ _ _ Hr). simpl. rewrite He. simpl. rewrite Hadv. simpl.
    pose proof (cr_control _ _ _ _ Hr) as Hcr.
    destruct IH as (G1 & G2 & w' & G3 & G4 & G5).
    { unfold follows. simpl. rewrite H1, H3, F1, Hcr. simpl. auto. }
    split_and!.
    + by rewrite G1, Hcr.
    + rewrite G2, Hcr. simpl. lia.
    + exists w'. split_and!; [done..|]. intros _. destruct rs as [|r2 rs]; [|by apply G5].
      simpl in G3. injection G3 as <-. destruct G4 as (_ & _ & [G4|G4]); [|done].
      simpl in G4. done.
Qed.

(** The projection can always catch up.  Whatever calls were made, committed,
    refused or raising, the sequence of the control state grew by exactly the
    number of commits, and a projection that was at the head before them reaches
    the new head by taking one event per commit in commit order: none of them is
    refused as a skip, a step back or a break of the parent chain. *)
Theorem projection_catches_up c calls now :
  watermark_current c ->
  let '(c', rs) := ledger_run c calls in
  commit_sequence c' = commit_sequence c + Z.of_nat (length rs) /\
  exists w, advance_all now c (omap projection_event rs) = Ok w /\
    projection_watermark_sequence w = commit_sequence c' /\
    (rs <> [] -> projection_watermark_commit_id w = Some (head_commit_id c')).
Proof.
  intros [H1 H2]. pose proof (follow_run now calls c c) as H.
  destruct (ledger_run c calls) as [c' rs]. destruct H as (_ & Hn & w & Ha & (_ & Hw & _) & Hc); [by split_and!|].
  split; [done|]. eauto.
Qed.
End Results.
