(* ===== verification/MemoryItemProofs.v ===== *)
(** * The items of a commit

    What a committed patch may make of the items it touches: legal states, a
    long-term meaning that does not change, promotion only with an admission,
    and events that project eligible items only. *)

From S2P Require Import Prelude PyValue Sha256 Firestore MemoryText MemoryOperations MemoryModels MemoryPromotion MemoryApply MemoryProofs.
From Stdlib Require Import QArith_base Ascii.
From stdpp Require Import sorting.
Local Open Scope Z_scope.

#[local] Opaque deterministic_contract_id json_text sha256.

(** ** Copies with updates *)
Fixpoint last_of (k : string) (u : dict) : option value :=
  match u with
  | [] => None
  | (k', v) :: u' =>
      match last_of k u' with Some w => Some w | None => if decide (k = k') then Some v else None end
  end.

Lemma last_of_app k u1 u2 :
  last_of k (u1 ++ u2) = match last_of k u2 with Some w => Some w | None => last_of k u1 end.
Proof.
  induction u1 as [|[k' v] u1 IH]; simpl; [by destruct (last_of k u2)|].
  rewrite IH. by destruct (last_of k u2).
Qed.

Lemma last_of_notin k u : k ∉ u.*1 -> last_of k u = None.
Proof.
  induction u as [|[k' v] u IH]; simpl; [done|]. intros [Hk Hu]%not_elem_of_cons.
  by rewrite IH, decide_False by done.
Qed.

Lemma list_to_map_rev_lookup (u : dict) k : (list_to_map (rev u) : fields) !! k = last_of k u.
Proof.
  induction u as [|[k' v] u IH]; simpl; [done|].
  rewrite list_to_map_app, lookup_union, IH. simpl.
  destruct (decide (k = k')) as [->|]; [rewrite lookup_insert_eq|rewrite lookup_insert_ne by done];
    by destruct (last_of _ u).
Qed.

Lemma model_copy_get d u k :
  doc_get (model_copy d u) k = match last_of k u with Some v => v | None => doc_get d k end.
Proof.
  unfold doc_get, model_copy. rewrite lookup_union, list_to_map_rev_lookup.
  by destruct (last_of k u), (d !! k).
Qed.

Lemma model_copy_notin d u k : k ∉ u.*1 -> doc_get (model_copy d u) k = doc_get d k.
Proof. intros Hk. by rewrite model_copy_get, last_of_notin. Qed.

Lemma extra_keys `{T : TextEnv} raw k : k ∈ (extra_item_updates raw).*1 -> k ∈ optional_item_keys.
Proof.
  intros ([k' v] & -> & H)%list_elem_of_fmap. unfold extra_item_updates in H.
  apply list_elem_of_omap in H as (k2 & Hk & H). destruct (raw !! k2) as [w|]; [|done]. simpl in H.
  destruct (extra_field k2 w); [|done]. by injection H as -> ->.
Qed.

Lemma extra_none `{T : TextEnv} raw k : k ∉ optional_item_keys -> last_of k (extra_item_updates raw) = None.
Proof. intros Hk. apply last_of_notin. intros H. by apply Hk, (extra_keys raw). Qed.

Lemma if_given_last k p src target :
  last_of k (if_given p src target) =
  if decide (k = target) then if is_none (doc_get p src) then None else Some (doc_get p src) else None.
Proof. unfold if_given. destruct (is_none _); simpl; by case_decide. Qed.

Lemma ledger_last k p (keys : list string) :
  k ∉ ledger_keys -> last_of k ((fun k => (k, doc_get p k)) <$> filter (fun k => k ∈ keys) ledger_keys) = None.
Proof.
  intros Hk. apply last_of_notin. intros (x & -> & (y & -> & Hy)%list_elem_of_fmap)%list_elem_of_fmap.
  apply Hk. simpl. by apply list_elem_of_filter in Hy as [_ Hy].
Qed.

Ltac decide_key := refine (bool_decide_unpack _ _); vm_compute; exact I.

(** [copy_get H] reads the fields of a copy whose fixed updates are followed by a
    list that [H] says sets none of them. *)
Ltac copy_get H :=
  rewrite !model_copy_get; simpl; rewrite !H by decide_key; try reflexivity.

Section Items.
Context {T : TextEnv} {Md : ModelEnv}.

(** ** An update *)
Record updated (existing d : item) (p : patch) (evidence : list value) (commit_id : string) (sequence : Z) : Prop := {
  up_tier : doc_get d "tier" =
    if is_none (doc_get p "target_tier") then doc_get existing "tier" else doc_get p "target_tier";
  up_content : doc_get d "content" = _resolved_update_content existing p;
  up_evidence : doc_get d "evidence" = VList (proposed_evidence evidence existing);
  up_legal : assert_legal_state (doc_get d "tier") (doc_get d "status") (doc_get d "processing_state") = Ok tt;
  up_same_id : doc_get d "memory_id" = doc_get existing "memory_id" /\ doc_get d "uid" = doc_get existing "uid";
  up_ledger : doc_get d "ledger_commit_id" = VStr commit_id /\ doc_get d "ledger_sequence" = VInt sequence;
  up_version : exists n, doc_get existing "version" = VInt n /\ doc_get d "version" = VInt (n + 1);
  up_revision : exists n, doc_get existing "item_revision" = VInt n /\ doc_get d "item_revision" = VInt (n + 1)
}.

(** The keys an update may write besides its fixed ones. *)
Definition given_keys : list string :=
  ["content_hash"; "promotion"; "subject_entity_id"; "predicate"; "arguments"; "visibility"; "user_asserted"]
  ++ ledger_keys ++ optional_item_keys ++ cleared_graph.*1.

Lemma given_updates_none p keys evidence audit raw k :
  k ∉ given_keys -> last_of k (given_updates p keys evidence audit (extra_item_updates raw)) = None.
Proof.
  unfold given_keys. rewrite !not_elem_of_app. intros (Hk & Hl & Ho & Hg).
  unfold given_updates. rewrite !last_of_app, ledger_last, extra_none, !if_given_last by done.
  repeat match goal with
  | |- context [decide (k = ?s)] => rewrite (decide_False (P := k = s)) by (intros ->; apply Hk; decide_key)
  end.
  assert (Hn : forall u : dict, Forall (fun x => x ∈ given_keys) u.*1 -> last_of k u = None).
  { intros u Hu. apply last_of_notin. intros Hin. apply (proj1 (Forall_forall _ _) Hu) in Hin. revert Hin.
    unfold given_keys. rewrite !elem_of_app. tauto. }
  rewrite !Hn; [done|..]; repeat case_match; cbn; decide_key.
Qed.

Lemma next_int_Ok d k v : next_int d k = Ok v -> exists n, doc_get d k = VInt n /\ v = VInt (n + 1).
Proof.
  unfold next_int, field_int. intros H. apply res_bind_Ok in H as (n & Hn & H). injection H as <-.
  destruct (doc_get d k); try done. injection Hn as ->. by exists n.
Qed.

Lemma update_fields existing p keys evidence commit_id sequence audit raw now d :
  _apply_update_memory_item existing p keys evidence commit_id sequence audit (extra_item_updates raw) now = Ok d ->
  updated existing d p evidence commit_id sequence.
Proof.
  unfold _apply_update_memory_item. intros H. apply res_bind_Ok in H as (t & _ & H). cbv zeta in H.
  apply res_bind_Ok in H as (ex & _ & H). apply res_bind_Ok in H as ([] & Hl & H).
  apply res_bind_Ok in H as (v & Hv & H). apply res_bind_Ok in H as (rv & Hrv & H). injection H as <-.
  apply next_int_Ok in Hv as (n & Hn & ->). apply next_int_Ok in Hrv as (m & Hm & ->).
  set (tail := given_updates _ _ _ _ _).
  assert (Htail : forall k, k ∉ given_keys -> last_of k tail = None)
    by (intros; by apply given_updates_none).
  clearbody tail.
  split.
  - copy_get Htail.
  - copy_get Htail.
  - copy_get Htail.
  - copy_get Htail. exact Hl.
  - split; copy_get Htail.
  - split; copy_get Htail.
  - exists n. split; [done|]. copy_get Htail.
  - exists m. split; [done|]. copy_get Htail.
Qed.

(** The relation fields of an update that does not clear the graph. *)
Definition relation_update (p : patch) (k : string) : option value :=
  let unset := if decide (k = "arguments") then negb (truthy (doc_get p k)) else is_none (doc_get p k) in
  if unset then None else Some (doc_get p k).

Lemma given_relation p keys evidence audit raw k :
  truthy (doc_get p "clear_graph_assertion") = false ->
  k = "subject_entity_id" \/ k = "predicate" \/ k = "arguments" ->
  last_of k (given_updates p keys evidence audit (extra_item_updates raw)) = relation_update p k.
Proof.
  intros Hc Hk. unfold given_updates. rewrite Hc, !last_of_app, !if_given_last.
  assert ((k ∉ ledger_keys) /\ (k ∉ optional_item_keys)) as [Hl Ho]
    by (destruct Hk as [->|[->| ->]]; split; decide_key).
  rewrite ledger_last, extra_none by done. unfold relation_update.
  destruct Hk as [->|[->| ->]]; destruct (patch_text p), (is_none audit); simpl;
    repeat match goal with
    | |- context [is_none ?x] => destruct (is_none x)
    | |- context [truthy ?x] => destruct (truthy x)
    end; reflexivity.
Qed.

Lemma update_relation existing p keys evidence commit_id sequence audit raw now d k :
  truthy (doc_get p "clear_graph_assertion") = false ->
  k = "subject_entity_id" \/ k = "predicate" \/ k = "arguments" ->
  _apply_update_memory_item existing p keys evidence commit_id sequence audit (extra_item_updates raw) now = Ok d ->
  doc_get d k = match relation_update p k with Some v => v | None => doc_get existing k end.
Proof.
  unfold _apply_update_memory_item. intros Hc Hk H. apply res_bind_Ok in H as (t & _ & H). cbv zeta in H.
  apply res_bind_Ok in H as (ex & _ & H). apply res_bind_Ok in H as ([] & Hl & H).
  apply res_bind_Ok in H as (v & _ & H). apply res_bind_Ok in H as (rv & _ & H). injection H as <-.
  rewrite model_copy_get. cbn [last_of]. rewrite given_relation by done.
  destruct (relation_update p k); [done|]. by destruct Hk as [->|[->| ->]].
Qed.

(** ** A new item *)

(** Pydantic reads a text of an enumeration or text field, and an integer of an
    integer field, as it is. *)
Definition state_keys : list string := ["tier"; "status"; "processing_state"; "ledger_commit_id"; "ledger_sequence"].

Definition plain_value (v : value) : bool := match v with VStr _ | VInt _ => true | _ => false end.

Definition keeps_states : Prop := forall d d' k,
  read_model "MemoryItem" d = Ok d' -> k ∈ state_keys -> plain_value (doc_get d k) = true ->
  doc_get d' k = doc_get d k.

Record created (d : item) (p : patch) (commit_id : string) (sequence : Z) : Prop := {
  cre_tier : doc_get d "tier" = doc_get p "initial_tier";
  cre_legal : assert_legal_state (doc_get d "tier") (doc_get d "status") (doc_get d "processing_state") = Ok tt;
  cre_ledger : doc_get d "ledger_commit_id" = VStr commit_id /\ doc_get d "ledger_sequence" = VInt sequence
}.

Lemma assert_legal_plain tier status processing :
  assert_legal_state tier status processing = Ok tt ->
  plain_value tier = true /\ plain_value status = true /\ plain_value processing = true.
Proof.
  intros H. unfold assert_legal_state in H.
  apply res_bind_Ok in H as (l & Hl & H). apply res_bind_Ok in H as (st & Hs & H).
  apply res_bind_Ok in H as (q & Hq & _).
  split_and!; [destruct tier|destruct status|destruct processing]; try done; by vm_compute in Hl, Hs, Hq.
Qed.

Lemma memory_item_keeps raw d k :
  keeps_states -> memory_item raw = Ok d -> k ∈ state_keys -> plain_value (doc_get raw k) = true ->
  doc_get d k = doc_get raw k.
Proof.
  intros Hlaw H Hk Hv. unfold memory_item in H. apply res_bind_Ok in H as (d' & Hr & H). cbv zeta in H.
  destruct (valid_item _); [|done]. injection H as <-. rewrite model_copy_notin.
  - by eapply Hlaw.
  - intros Hin. assert (Hno : Forall (fun x => x ∉ ["sensitivity_labels"; "slot"; "normalized_content_key"]) state_keys)
      by decide_key. by apply (proj1 (Forall_forall _ _) Hno) in Hk.
Qed.

Lemma memory_item_valid raw d : memory_item raw = Ok d -> valid_item d = true.
Proof.
  unfold memory_item. intros H. apply res_bind_Ok in H as (d' & _ & H). cbv zeta in H.
  destruct (valid_item _) eqn:E; [|done]. by injection H as <-.
Qed.

Lemma materialized uid p evidence commit_id sequence account promotion now d :
  keeps_states ->
  _materialize_memory_item uid p evidence commit_id sequence account promotion now = Ok d ->
  created d p commit_id sequence.
Proof.
  intros Hlaw H. unfold _materialize_memory_item in H. apply res_bind_Ok in H as (ex & _ & H). cbv zeta in H.
  apply res_bind_Ok in H as ([] & Hl & H).
  destruct (assert_legal_plain _ _ _ Hl) as (H1 & H2 & H3).
  pose proof (fun k => memory_item_keeps _ _ k Hlaw H) as Hk.
  split.
  - rewrite (Hk "tier"); [reflexivity|decide_key|exact H1].
  - rewrite (Hk "tier"), (Hk "status"), (Hk "processing_state");
      [exact Hl|decide_key|exact H3|decide_key|exact H2|decide_key|exact H1].
  - rewrite (Hk "ledger_commit_id"), (Hk "ledger_sequence"); try decide_key; by split.
Qed.

Lemma recreated d raw d' p commit_id sequence :
  keeps_states -> created d p commit_id sequence -> memory_item (model_copy d (extra_item_updates raw)) = Ok d' ->
  created d' p commit_id sequence.
Proof.
  intros Hlaw [Ht Hl [Hc Hs]] H. destruct (assert_legal_plain _ _ _ Hl) as (H1 & H2 & H3).
  assert (Hk : forall k, k ∈ state_keys -> plain_value (doc_get d k) = true -> doc_get d' k = doc_get d k).
  { intros k Hk Hv.
    assert (E : doc_get (model_copy d (extra_item_updates raw)) k = doc_get d k).
    { apply model_copy_notin. intros Hin%extra_keys.
      assert (Hno : Forall (fun x => x ∉ optional_item_keys) state_keys) by decide_key.
      by apply (proj1 (Forall_forall _ _) Hno) in Hk. }
    rewrite <-E. eapply memory_item_keeps; [done..|by rewrite E]. }
  assert (Hst : forall k, k = "tier" \/ k = "status" \/ k = "processing_state" -> doc_get d' k = doc_get d k)
    by (intros k [->|[->| ->]]; apply Hk; first [decide_key|done]).
  split.
  - by rewrite Hst by auto.
  - by rewrite !Hst by auto.
  - split; [rewrite (Hk "ledger_commit_id")|rewrite (Hk "ledger_sequence")];
      rewrite ?Hc, ?Hs; first [decide_key|done].
Qed.

(** ** The item of a patch *)
Lemma patched_update c op raw p evidence e allow commit_id sequence now d :
  patched_item c op raw p evidence (Some e) allow commit_id sequence now = Ok (Some d) ->
  update_allowed op c e p evidence (doc_get raw "promotion_audit") (doc_get raw "promotion")
    (doc_get raw "expected_item_revision") (doc_get raw "expected_content_hash") (extra_item_updates raw) allow = true /\
  _apply_update_memory_item e p (map_to_list (patch_fields raw)).*1 evidence commit_id sequence
    (doc_get raw "promotion_audit") (extra_item_updates raw) now = Ok d.
Proof.
  unfold patched_item. cbv zeta. destruct (update_allowed _ _ _ _ _ _ _ _ _ _ _); [|done]. intros H.
  apply res_bind_Ok in H as (d' & Hd & H). by injection H as <-.
Qed.

Lemma patched_create c op raw p evidence allow commit_id sequence now d :
  keeps_states -> patched_item c op raw p evidence None allow commit_id sequence now = Ok (Some d) ->
  created d p commit_id sequence.
Proof.
  intros Hlaw H. unfold patched_item in H. cbv zeta in H. apply res_bind_Ok in H as (d1 & Hd & H).
  apply materialized in Hd; [|done]. apply res_bind_Ok in H as (d2 & Hd2 & H). injection H as <-.
  destruct (truthy _); [by eapply recreated|]. by injection Hd2 as <-.
Qed.

(** A model keeps the name of an item. *)
Definition keeps_names : Prop := forall d d',
  read_model "MemoryItem" d = Ok d' -> doc_get d' "memory_id" = doc_get d "memory_id".

Lemma memory_item_name raw d : keeps_names -> memory_item raw = Ok d -> doc_get d "memory_id" = doc_get raw "memory_id".
Proof.
  intros Hlaw H. unfold memory_item in H. apply res_bind_Ok in H as (d' & Hr & H). cbv zeta in H.
  destruct (valid_item _); [|done]. injection H as <-. rewrite model_copy_notin by decide_key. by apply Hlaw.
Qed.

(** The name of a new item. *)
Lemma patched_name c op raw p evidence allow commit_id sequence now d :
  keeps_names -> patched_item c op raw p evidence None allow commit_id sequence now = Ok (Some d) ->
  doc_get d "memory_id" = _deterministic_materialized_memory_id (op_uid op) p commit_id.
Proof.
  intros Hlaw H. unfold patched_item in H. cbv zeta in H. apply res_bind_Ok in H as (d1 & Hd & H).
  unfold _materialize_memory_item in Hd. apply res_bind_Ok in Hd as (ex & _ & Hd). cbv zeta in Hd.
  apply res_bind_Ok in Hd as ([] & _ & Hd). apply (memory_item_name _ _ Hlaw) in Hd.
  apply res_bind_Ok in H as (d2 & Hd2 & H). injection H as <-.
  destruct (truthy (VDict _)); [|injection Hd2 as <-; exact Hd].
  apply (memory_item_name _ _ Hlaw) in Hd2. rewrite Hd2, model_copy_notin, Hd; [done|].
  intros Hin%extra_keys. revert Hin. decide_key.
Qed.

Definition graph_keys : list string := ["graph_ready"; "graph_assertion_id"; "graph_plan_hash"; "kg_extracted"].

Lemma attach_keeps op refresh d0 commit_id sequence d assertions :
  attach_assertion op refresh d0 commit_id sequence = Ok (Some (d, assertions)) ->
  (forall k, k ∉ graph_keys -> doc_get d k = doc_get d0 k) /\
  (refresh = true -> exists a, assertions = [a] /\ doc_get d "graph_ready" = VBool true).
Proof.
  unfold attach_assertion. destruct refresh; [|intros [= <- <-]; by split].
  cbn [negb]. destruct (dict_get _ _) as [| | | | | | |plan]; try done.
  destruct (promotion_graph_plan plan) as [q|]; [|done]. intros H.
  apply res_bind_Ok in H as (rev & _ & H). apply res_bind_Ok in H as (a & _ & H). injection H as <- <-.
  split; [|intros _; exists a; split; [done|by rewrite model_copy_get]]. intros k Hk. apply model_copy_notin. exact Hk.
Qed.

(** [a] is the graph assertion of the item [d] in the commit [commit_id]. *)
Record asserts (d : item) (commit_id : string) (a : MemoryGraphAssertion) : Prop := {
  as_ready : doc_get d "graph_ready" = VBool true;
  as_linked : doc_get d "graph_assertion_id" = VStr (assertion_id a);
  as_memory : ga_memory_id a = strip (text_or d "memory_id");
  as_revision : doc_get d "item_revision" = VInt (ga_item_revision a);
  as_commit : ga_commit_id a = strip commit_id
}.

Lemma nonblank_text_strips s t : nonblank_text (VStr s) = Ok t -> t = strip s.
Proof. unfold nonblank_text. intros H. apply res_bind_Ok in H as (_ & _ & H). by injection H as <-. Qed.

Lemma built_assertion uid memory revision hash evidence plan commit_id sequence at_ a :
  build_memory_graph_assertion uid memory revision hash evidence plan commit_id sequence at_ = Ok a ->
  ga_memory_id a = strip memory /\ ga_item_revision a = revision /\ ga_commit_id a = strip commit_id.
Proof.
  unfold build_memory_graph_assertion. cbv zeta. intros H. apply res_bind_Ok in H as (u & _ & H).
  apply res_bind_Ok in H as (m & Hm & H). apply res_bind_Ok in H as (h & _ & H).
  apply res_bind_Ok in H as (c & Hc & H). apply res_bind_Ok in H as (_ & _ & H).
  apply res_bind_Ok in H as (_ & _ & H). apply res_bind_Ok in H as (q & _ & H). injection H as <-.
  apply nonblank_text_strips in Hm as ->, Hc as ->. done.
Qed.

Lemma attach_asserts op d0 commit_id sequence d assertions :
  attach_assertion op true d0 commit_id sequence = Ok (Some (d, assertions)) ->
  exists a, assertions = [a] /\ asserts d commit_id a.
Proof.
  unfold attach_assertion. cbn [negb]. destruct (dict_get _ _) as [| | | | | | |plan]; try done.
  destruct (promotion_graph_plan plan) as [q|]; [|done]. intros H.
  apply res_bind_Ok in H as (rev & Hrev & H). apply res_bind_Ok in H as (a & Ha & H). injection H as <- <-.
  apply built_assertion in Ha as (H1 & H2 & H3). exists a. split; [done|].
  assert (Hsame : forall k, k ∉ graph_keys -> doc_get (model_copy d0 [("graph_ready", VBool true);
    ("graph_assertion_id", VStr (assertion_id a)); ("graph_plan_hash", VStr (plan_hash q));
    ("kg_extracted", VBool true)]) k = doc_get d0 k) by (intros; by apply model_copy_notin).
  split.
  - by rewrite model_copy_get.
  - by rewrite model_copy_get.
  - unfold text_or in *. by rewrite Hsame by decide_key.
  - rewrite Hsame by decide_key. unfold field_int in Hrev. rewrite H2.
    destruct (doc_get d0 "item_revision"); try done. by injection Hrev as ->.
  - done.
Qed.

(** ** Superseded items *)
Definition legal_item (d : item) : Prop :=
  assert_legal_state (doc_get d "tier") (doc_get d "status") (doc_get d "processing_state") = Ok tt.

(** [i] is [e] marked as superseded by [d]. *)
Record marked (d e i : item) (commit_id : string) (sequence : Z) : Prop := {
  mk_active : v_is (doc_get e "status") "active" = true;
  mk_status : doc_get i "status" = VStr "superseded";
  mk_by : doc_get i "superseded_by" = doc_get d "memory_id";
  mk_same : Forall (fun k => doc_get i k = doc_get e k) ["memory_id"; "uid"; "tier"; "processing_state"; "content"];
  mk_ledger : doc_get i "ledger_commit_id" = VStr commit_id /\ doc_get i "ledger_sequence" = VInt sequence;
  mk_revision : exists n, doc_get e "item_revision" = VInt n /\ doc_get i "item_revision" = VInt (n + 1)
}.

Lemma superseded_item_marked p d e commit_id sequence now i :
  v_is (doc_get e "status") "active" = true -> superseded_item p d e commit_id sequence now = Ok i ->
  marked d e i commit_id sequence.
Proof.
  unfold superseded_item. intros Ha H. apply res_bind_Ok in H as (t & _ & H).
  apply res_bind_Ok in H as (v & Hv & H). apply res_bind_Ok in H as (rv & Hrv & H). injection H as <-.
  apply next_int_Ok in Hv as (n & Hn & ->). apply next_int_Ok in Hrv as (m & Hm & ->).
  split; [done|..].
  - by rewrite model_copy_get.
  - by rewrite model_copy_get.
  - repeat constructor; by rewrite model_copy_get.
  - by rewrite !model_copy_get.
  - exists m. by rewrite model_copy_get.
Qed.

Lemma supersede_items_marked p d by_id commit_id sequence now ids items :
  supersede_items p d by_id commit_id sequence now ids = Ok (inr items) ->
  Forall2 (fun id i => exists e, by_id !! id = Some e /\ marked d e i commit_id sequence /\
    (is_ledger p = true -> amends p e = true)) ids items.
Proof.
  revert items. induction ids as [|id ids IH]; intros items; simpl; [intros [= <-]; constructor|].
  destruct (by_id !! id) as [e|] eqn:He; [|done].
  destruct (negb (v_is _ _)) eqn:Ha; [done|]. destruct (is_ledger p && _) eqn:Hl; [done|]. intros H.
  apply res_bind_Ok in H as (i & Hi & H). apply res_bind_Ok in H as (rest & Hr & H).
  destruct rest as [|rest]; [done|]. injection H as <-. apply negb_false_iff in Ha.
  constructor; [|by apply IH]. exists e. split_and!; [done|by eapply superseded_item_marked|].
  intros Hp. rewrite Hp in Hl. by apply negb_false_iff in Hl.
Qed.

(** The items that a payload gives for its patch to supersede, by their names. *)
Definition predecessors (raw : fields) : gmap string item :=
  match doc_get raw "superseded_items" with
  | VList l => match read_items l with Ok items => items_by_id items | Raise _ => ∅ end
  | _ => ∅
  end.

Lemma superseded_marked p raw d commit_id sequence now items :
  superseded_of p (doc_get raw "superseded_items") d commit_id sequence now = Ok (inr items) ->
  Forall2 (fun id i => exists e, predecessors raw !! id = Some e /\ marked d e i commit_id sequence /\
    (is_ledger p = true -> amends p e = true)) (superseded_ids p) items.
Proof.
  unfold superseded_of, predecessors. case_decide as Hids; [rewrite Hids; intros [= <-]; constructor|].
  destruct (doc_get raw "superseded_items") as [| | | | | |l|]; try done. intros H.
  apply res_bind_Ok in H as (its & -> & H). case_decide; [|done]. by apply supersede_items_marked in H.
Qed.

(** A superseded row is legal unless it is archived. *)
Lemma marked_legal d e i commit_id sequence :
  marked d e i commit_id sequence -> legal_item e ->
  (legal_item i <-> v_is (doc_get e "tier") "archive" = false).
Proof.
  intros [Ha Hs _ Hk _ _] He. unfold legal_item in *.
  pose proof (proj1 (Forall_forall _ _) Hk) as Hk'.
  rewrite (Hk' "tier"), (Hk' "processing_state"), Hs by decide_key.
  unfold assert_legal_state in *. apply res_bind_Ok in He as (l & Hl & He).
  apply res_bind_Ok in He as (st & Hst & He). apply res_bind_Ok in He as (q & Hq & He).
  rewrite Hl, Hq. simpl. unfold memory_layer in Hl. unfold physical_status_to_record_status in Hst.
  rewrite Ha in Hst. injection Hst as <-. destruct (v_is (doc_get e "tier") "archive") eqn:Har.
  - assert (l = ARCHIVE) as ->.
    { unfold v_is in *. destruct (doc_get e "tier"); try done. apply bool_decide_eq_true in Har. subst. by injection Hl as <-. }
    by split.
  - destruct (v_is _ "short_term"); [injection Hl as <-; by split|].
    destruct (v_is _ "long_term"); [|done]. injection Hl as <-. by destruct q.
Qed.
End Items.
