(* ===== verification/MemoryTheorems.v ===== *)
(** * What the memory ledger guarantees

    The properties of committed items: legal states, a long-term meaning that an
    update does not change, promotion only with an admission, and a projection of
    eligible items only. *)

From S2P Require Import Prelude PyValue Sha256 Firestore MemoryText MemoryOperations MemoryModels MemoryPromotion MemoryApply MemoryProofs MemoryItemProofs.
From Stdlib Require Import QArith_base Ascii.
From stdpp Require Import sorting.
Local Open Scope Z_scope.

#[local] Opaque deterministic_contract_id json_text sha256.

Section Theorems.
Context {T : TextEnv} {Md : ModelEnv}.

(** ** The identity of an operation *)

(** The same logical payload, up to the order of the keys of its mappings. *)
Record same_payload (p p' : OperationLogicalPayload) : Prop := {
  sp_arguments : NoDup (lp_arguments p).*1 /\ lp_arguments p ≡ₚ lp_arguments p';
  sp_metadata : NoDup (lp_metadata p).*1 /\ lp_metadata p ≡ₚ lp_metadata p';
  sp_mutation : opt_dict (lp_mutation_metadata p) = opt_dict (lp_mutation_metadata p');
  sp_texts : [VStr (lp_decision p); opt_str (lp_memory_text p); opt_str (lp_target_memory_id p);
              opt_str (lp_result_status p); str_list (lp_supersedes p); opt_str (lp_subject_entity_id p);
              opt_str (lp_predicate p); opt_str (lp_target_tier p); opt_str (lp_target_visibility p);
              opt_bool (lp_target_user_asserted p); opt_bool (lp_clear_graph_assertion p)]
           = [VStr (lp_decision p'); opt_str (lp_memory_text p'); opt_str (lp_target_memory_id p');
              opt_str (lp_result_status p'); str_list (lp_supersedes p'); opt_str (lp_subject_entity_id p');
              opt_str (lp_predicate p'); opt_str (lp_target_tier p'); opt_str (lp_target_visibility p');
              opt_bool (lp_target_user_asserted p'); opt_bool (lp_clear_graph_assertion p')]
}.

(** Two members with the same key and text. *)
Definition same_member (a b : string * value) : Prop :=
  a.1 = b.1 /\ json_text a.2 = json_text b.2 /\ is_none a.2 = is_none b.2.

Lemma present_members (l1 l2 : dict) :
  Forall2 same_member l1 l2 ->
  (fun kv => (kv.1, json_text kv.2)) <$> filter (fun kv => negb (is_none kv.2)) l1
  = (fun kv => (kv.1, json_text kv.2)) <$> filter (fun kv => negb (is_none kv.2)) l2.
Proof.
  induction 1 as [|[k v] [k' v'] l1 l2 (Hk & Ht & Hn) _ IH]; [done|]. simpl in *. subst k'.
  rewrite !filter_cons. simpl. rewrite Hn. destruct (decide _); [|done].
  rewrite !fmap_cons, IH. simpl. by rewrite Ht.
Qed.

Lemma same_member_refl a : same_member a a.
Proof. by split. Qed.

Lemma canonical_text p p' :
  same_payload p p' -> json_text (VDict (canonical p)) = json_text (VDict (canonical p')).
Proof.
  intros [[Ha Hap] [Hm Hmp] Hmu Ht]. apply json_text_members, present_members.
  injection Ht as ? ? ? ? ? ? ? ? ? ? ?.
  repeat (apply Forall2_cons_2; [split_and!; cbn [fst snd is_none]; unfold str_list; try congruence; by apply json_text_perm|]).
  apply Forall2_nil_2.
Qed.

(** C39: One logical operation has one identity.  The identifier of an operation and
    the digest of its payload do not depend on the order of its evidence, on the
    order of the keys of its payload, on the head its planner observed or on its
    place in the planner's output. *)
Theorem operation_identity_is_logical uid t packet target ev ev' p p' account source obs obs' ix ix' :
  ev ≡ₚ ev' -> same_payload p p' ->
  build_operation_id uid t packet target ev p account source obs ix
    = build_operation_id uid t packet target ev' p' account source obs' ix' /\
  payload_digest p = payload_digest p'.
Proof.
  intros Hev Hp. pose proof (canonical_text p p' Hp) as Hc. split.
  - unfold build_operation_id, contract_prefix. rewrite (sorted_strs_perm ev ev' Hev).
    erewrite deterministic_id_text; [reflexivity|]. apply json_text_members.
    rewrite !fmap_cons. cbn [fst snd]. by rewrite Hc.
  - by apply deterministic_id_text.
Qed.

(** ** The committed items *)

(** How the items of a commit came about. *)
Record committed_items (c : MemoryControlState) (op : MemoryOperation) (raw : fields) (allow : bool) (now : Z)
    (r : ApplyResult) (d : item) (items : list item) (p : patch) (evidence : list value)
    (existing : option item) (d0 : item) : Prop := {
  ci_passed : passed c op raw p evidence;
  ci_control : control_state r = advanced c op now;
  ci_existing : existing_of raw p = Ok (Some existing);
  ci_patched : patched_item c op raw p evidence existing allow (head_commit_id (control_state r))
                 (commit_sequence (control_state r)) now = Ok (Some d0);
  ci_attached : attach_assertion op (graph_refresh existing op p d0) d0 (head_commit_id (control_state r))
                  (commit_sequence (control_state r)) = Ok (Some (d, graph_assertions r));
  ci_superseded : superseded_of p (doc_get raw "superseded_items") d (head_commit_id (control_state r))
                    (commit_sequence (control_state r)) now = Ok (inr items)
}.

Lemma committed_items_cases c op raw allow now r d items :
  apply_long_term_patch_transaction c op raw allow now = Ok r -> result_status r = apply_committed ->
  memory_items r = d :: items ->
  exists p evidence existing d0, committed_items c op raw allow now r d items p evidence existing d0.
Proof.
  intros [[Hs _]|(p & evidence & Hp & Hr & Hsh)]%apply_cases Hc Hi; [done|].
  pose proof (cr_control _ _ _ _ Hr) as Hcr.
  destruct Hsh as [_ Hn _ _|existing d0 d' assertions items' _ He Hpt Ha Hsup Hit Hg _]; [by rewrite Hn in Hi|].
  rewrite Hit in Hi. injection Hi as <- <-. exists p, evidence, existing, d0.
  rewrite <-Hg in Ha. split; try done; by rewrite Hcr.
Qed.

(** What the item of a commit keeps from the item before its assertion. *)
Lemma committed_item_field c op raw allow now r d items p evidence existing d0 k :
  committed_items c op raw allow now r d items p evidence existing d0 -> k ∉ graph_keys ->
  doc_get d k = doc_get d0 k.
Proof. intros H Hk. destruct (attach_keeps _ _ _ _ _ _ _ (ci_attached _ _ _ _ _ _ _ _ _ _ _ _ H)) as [Hf _]. by apply Hf. Qed.

(** C30: Committed items are in legal states.  The item a commit creates or updates
    is in a legal state and carries the commit and the sequence of the new head.  The
    items it supersedes are, in order, those that the patch of the payload names: each
    is the item that the payload gives under that name, which was active, marked as
    superseded by the new item under the same commit with its revision advanced by
    one, and it is in a legal state exactly when it was not archived.  A ledger patch
    supersedes ledger items of the same kind, scope and subject only.  (The model
    library keeps the texts and numbers of the state fields: [keeps_states].) *)
Theorem committed_items_are_legal c op raw allow now r d items :
  keeps_states ->
  apply_long_term_patch_transaction c op raw allow now = Ok r -> result_status r = apply_committed ->
  memory_items r = d :: items ->
  legal_item d /\ doc_get d "ledger_commit_id" = VStr (head_commit_id (control_state r)) /\
  doc_get d "ledger_sequence" = VInt (commit_sequence (control_state r)) /\
  exists p, durable_memory_patch (patch_fields raw) = Ok p /\
    Forall2 (fun id i => exists e, predecessors raw !! id = Some e /\
      marked d e i (head_commit_id (control_state r)) (commit_sequence (control_state r)) /\
      (is_ledger p = true -> amends p e = true) /\
      (legal_item e -> (legal_item i <-> v_is (doc_get e "tier") "archive" = false)))
    (superseded_ids p) items.
Proof.
  intros Hlaw Ha Hc Hi. destruct (committed_items_cases _ _ _ _ _ _ _ _ Ha Hc Hi) as (p & ev & ex & d0 & H).
  pose proof (fun k => committed_item_field _ _ _ _ _ _ _ _ _ _ _ _ k H) as Hf.
  assert (legal_item d0 /\ doc_get d0 "ledger_commit_id" = VStr (head_commit_id (control_state r)) /\
    doc_get d0 "ledger_sequence" = VInt (commit_sequence (control_state r))) as (H1 & H2 & H3).
  { pose proof (ci_patched _ _ _ _ _ _ _ _ _ _ _ _ H) as Hp. destruct ex as [e|].
    - apply patched_update in Hp as [_ Hu]. destruct (update_fields _ _ _ _ _ _ _ _ _ _ Hu); tauto.
    - apply patched_create in Hp; [|done]. destruct Hp; tauto. }
  unfold legal_item at 1. rewrite !Hf by decide_key. split_and!; [done..|].
  exists p. split; [exact (pass_patch _ _ _ _ _ (ci_passed _ _ _ _ _ _ _ _ _ _ _ _ H))|].
  eapply Forall2_impl; [exact (superseded_marked _ _ _ _ _ _ _ (ci_superseded _ _ _ _ _ _ _ _ _ _ _ _ H))|].
  intros id i (e & He & Hm & Hl). exists e. split_and!; [done..|]. by apply (marked_legal d e i _ _ Hm).
Qed.

(** A text that is given but empty: the guard on the meaning reads it as absent,
    the update writes it. *)
Definition given_empty (p : patch) (k : string) : bool :=
  negb (is_none (doc_get p k)) && negb (truthy (doc_get p k)).

(** C27: The meaning of an active long-term item is immutable under ordinary updates.
    A committed update of such an item leaves its content and its evidence identifiers
    equal, and its subject, predicate and arguments too unless the patch clears the
    graph assertion (or gives an empty text for the subject or the predicate).  The
    updates that the code exempts are excluded: a graph enrichment, an explicit
    demotion (to [short_term] with the graph assertion cleared), and a call that is
    allowed to change trigger feedback. *)
Theorem long_term_meaning_is_immutable c op raw now r d items p e :
  apply_long_term_patch_transaction c op raw false now = Ok r -> result_status r = apply_committed ->
  memory_items r = d :: items ->
  durable_memory_patch (patch_fields raw) = Ok p -> existing_of raw p = Ok (Some (Some e)) ->
  active_long_term e = true -> operation_type op <> graph_enrichment ->
  (v_is (doc_get p "target_tier") "short_term" && truthy (doc_get p "clear_graph_assertion")) = false ->
  py_eq (doc_get d "content") (doc_get e "content") = true /\
  py_eq (VList (evidence_id <$> evidence_of d)) (VList (evidence_id <$> evidence_of e)) = true /\
  (truthy (doc_get p "clear_graph_assertion") = false ->
   forall k, k ∈ ["subject_entity_id"; "predicate"; "arguments"] ->
     (k <> "arguments" -> given_empty p k = false) ->
     py_eq (doc_get d k) (doc_get e k) = true).
Proof.
  intros Ha Hc Hi Hp He Hlt Hop Hdem.
  destruct (committed_items_cases _ _ _ _ _ _ _ _ Ha Hc Hi) as (p' & ev & ex & d0 & H).
  pose proof (fun k => committed_item_field _ _ _ _ _ _ _ _ _ _ _ _ k H) as Hf.
  destruct H as [[_ Hp' _ _ _ _ _ _ _] _ He' Hpt _ _].
  rewrite Hp in Hp'. injection Hp' as <-. rewrite He in He'. injection He' as <-.
  apply patched_update in Hpt as [Hal Hu]. destruct (update_fields _ _ _ _ _ _ _ _ _ _ Hu) as [_ Hcont Hevi _ _ _ _ _].
  unfold update_allowed in Hal. cbv zeta in Hal. rewrite !andb_true_iff, negb_true_iff in Hal.
  destruct Hal as [[_ Hsem] _]. rewrite Hlt, Hdem, bool_decide_eq_false_2 in Hsem by done.
  simpl in Hsem. rewrite !andb_true_r in Hsem. unfold semantic_change in Hsem.
  rewrite !orb_false_iff in Hsem. destruct Hsem as [[H1 H2] H3]. apply negb_false_iff in H1, H2.
  split_and!.
  - by rewrite Hf, Hcont by decide_key.
  - unfold evidence_of at 1. by rewrite Hf, Hevi by decide_key.
  - intros Hclear k Hk Hempty.
    assert (py_eq (py_or (doc_get p k) (doc_get e k)) (doc_get e k) = true) as Hq.
    { apply not_false_iff_true. intros E. rewrite <-not_true_iff_false in H3. apply H3, existsb_exists.
      exists k. split; [by apply list_elem_of_In|by rewrite E]. }
    assert (Hcases : k = "subject_entity_id" \/ k = "predicate" \/ k = "arguments") by set_solver.
    rewrite Hf by (destruct Hcases as [->|[->| ->]]; decide_key).
    rewrite (update_relation _ _ _ _ _ _ _ _ _ _ k Hclear Hcases Hu).
    unfold relation_update, py_or, given_empty in *. case_decide as Hkk.
    + revert Hq. by destruct (truthy (doc_get p k)).
    + specialize (Hempty Hkk). revert Hempty Hq.
      destruct (is_none (doc_get p k)) eqn:En; simpl; [by destruct (doc_get p k)|].
      by intros ->%negb_false_iff.
Qed.

(** How the item [d] of a commit came to be long-term, by the patch [p], the evidence
    and the item to update that the payload of the call gives. *)
Definition long_term_because (op : MemoryOperation) (raw : fields) (r : ApplyResult) (d : item) (p : patch)
    (evidence : list value) (existing : option item) : Prop :=
  match existing with
  | Some e =>
      doc_get e "tier" = VStr "long_term" \/
      (operation_type op = synthesis /\ doc_get p "target_tier" = VStr "long_term" /\
       promotion_admitted op e p evidence (doc_get raw "promotion_audit") = true /\
       exists a, graph_assertions r = [a] /\ asserts d (head_commit_id (control_state r)) a)
  | None =>
      v_is (doc_get p "decision") "update" = false /\ doc_get p "initial_tier" = VStr "long_term" /\
      operation_type op = ledger_mutation /\ is_ledger p = true
  end.

Lemma promoted_by_target e p d :
  doc_get d "tier" = (if is_none (doc_get p "target_tier") then doc_get e "tier" else doc_get p "target_tier") ->
  doc_get d "tier" = VStr "long_term" ->
  doc_get e "tier" = VStr "long_term" \/ (promotes e p = true /\ doc_get p "target_tier" = VStr "long_term").
Proof.
  intros Hut Ht. destruct (v_is (doc_get e "tier") "long_term") eqn:Hlt; [left; by apply v_is_true|]. right.
  rewrite Ht in Hut. destruct (is_none _); [by rewrite <-Hut in Hlt|]. split; [|done].
  unfold promotes. by rewrite Hlt, <-Hut.
Qed.

(** C26: Only an admission makes a memory long-term.  Let [p], [evidence] and [existing]
    be the patch, the evidence and the item to update of the payload.  If the item of a
    commit is in the long-term tier and the patch updates [existing], then [existing]
    was long-term already, or the patch targets that tier, the operation is a synthesis
    and the payload carries a valid admission of this very item, at its revision, for
    this patch and this evidence, and the commit writes one graph assertion, that of
    the new revision.  If the patch creates the item, it asks for that tier with a
    ledger schema, under a ledger mutation.  (The model library keeps the texts and
    numbers of the state fields: [keeps_states].) *)
Theorem long_term_needs_promotion c op raw allow now r d items :
  keeps_states ->
  apply_long_term_patch_transaction c op raw allow now = Ok r -> result_status r = apply_committed ->
  memory_items r = d :: items -> doc_get d "tier" = VStr "long_term" ->
  exists p evidence existing,
    durable_memory_patch (patch_fields raw) = Ok p /\ payload_evidence raw = Ok evidence /\
    existing_of raw p = Ok (Some existing) /\ long_term_because op raw r d p evidence existing.
Proof.
  intros Hlaw Ha Hc Hi Ht. destruct (committed_items_cases _ _ _ _ _ _ _ _ Ha Hc Hi) as (p & ev & ex & d0 & H).
  rewrite (committed_item_field _ _ _ _ _ _ _ _ _ _ _ _ "tier" H) in Ht by decide_key.
  destruct H as [Hp _ He Hpt Hat _]. pose proof (pass_patch _ _ _ _ _ Hp) as Hpp.
  exists p, ev, ex. split_and!; [done|apply Hp|done|]. destruct ex as [e|]; simpl.
  - apply patched_update in Hpt as [Hal Hu]. pose proof (up_tier _ _ _ _ _ _ (update_fields _ _ _ _ _ _ _ _ _ _ Hu)) as Hut.
    destruct (promoted_by_target _ _ _ Hut Ht) as [Hlt|[Hpr Htarget]]; [by left|right].
    unfold update_allowed in Hal. cbv zeta in Hal. rewrite Hpr, !andb_true_iff in Hal. destruct Hal as [_ Hadm].
    assert (graph_refresh (Some e) op p d0 = true) as Hgr by (unfold graph_refresh; by rewrite Hpr).
    rewrite Hgr in Hat. split_and!; [|done|exact Hadm|by apply attach_asserts in Hat].
    unfold promotion_admitted in Hadm. cbv zeta in Hadm. rewrite !andb_true_iff in Hadm.
    by destruct Hadm as [_ ->%bool_decide_eq_true].
  - apply patched_create in Hpt; [|done]. rewrite (cre_tier _ _ _ _ Hpt) in Ht.
    assert (is_ledger p = true) as Hl.
    { unfold durable_memory_patch in Hpp. apply res_bind_Ok in Hpp as (p' & _ & Hpp).
      destruct (valid_patch p') eqn:Hv; [|done]. injection Hpp as ->.
      unfold valid_patch in Hv. cbv zeta in Hv. rewrite Ht in Hv. rewrite !andb_true_iff in Hv.
      destruct Hv as [[[[[_ Hv] _] _] _] _]. unfold is_ledger. by destruct (v_is (doc_get p "ledger_schema_version") _). }
    split_and!; [|done|by apply (pass_ledger _ _ _ _ _ Hp)|done].
    unfold existing_of in He. destruct (v_is (doc_get p "decision") "update"); [|done].
    by destruct (doc_get raw "existing_item"); try done; apply res_bind_Ok in He as (? & _ & ?).
Qed.

(** ** Projection *)
Definition action_of (e : MemoryOutboxEvent) : value := dict_get "action" (event_payload e).

(** What the projection may show. *)
Record shown (d : item) : Prop := {
  sh_active : doc_get d "status" = VStr "active";
  sh_processed : doc_get d "processing_state" = VStr "processed";
  sh_tier : doc_get d "tier" = VStr "short_term" \/ doc_get d "tier" = VStr "long_term";
  sh_review : dict_get "user_review" (dict_or d "promotion") <> VBool false;
  sh_labels : forall s, VStr s ∈ labels_of d -> s ∉ RESTRICTED_SENSITIVITY_LABELS
}.

Lemma v_in_true v l : v_in v l = true -> exists s, s ∈ l /\ v = VStr s.
Proof.
  unfold v_in. intros (s & Hs%list_elem_of_In & ->%v_is_true)%existsb_exists. by exists s.
Qed.

Lemma projection_eligible_shown d : projection_eligible d = true -> shown d.
Proof.
  unfold projection_eligible. rewrite !andb_true_iff, !negb_true_iff.
  intros [[[[H1%v_is_true H2%v_is_true] H3] H4%bool_decide_eq_false] H5]. split; try done.
  - apply v_in_true in H3 as (s & Hs & ->). apply list_elem_of_In in Hs. simpl in Hs. naive_solver.
  - intros s Hs Hr. unfold _has_restricted_sensitivity in H5. rewrite <-not_true_iff_false in H5. apply H5.
    apply existsb_exists. exists (VStr s). split; [by apply list_elem_of_In|]. apply existsb_exists.
    exists s. split; [by apply list_elem_of_In|]. by apply bool_decide_eq_true.
Qed.

(** C28: Only eligible items are projected.  Every upsert a commit emits is for one
    of its items that is active, processed, in a served tier, not rejected by the
    user and free of restricted labels; and every item of the commit, superseded
    ones included, has a projection and a vector event, which delete it when it is
    not eligible. *)
Theorem only_eligible_items_are_projected c op raw allow now r :
  apply_long_term_patch_transaction c op raw allow now = Ok r ->
  (forall e, e ∈ outbox_events r -> action_of e = VStr "upsert" ->
     exists d, d ∈ memory_items r /\ event_memory_id e = Some (text_or d "memory_id") /\ shown d) /\
  (forall d t, d ∈ memory_items r -> t ∈ [projection_sync; vector_sync] ->
     exists e, e ∈ outbox_events r /\ event_type e = t /\ event_memory_id e = Some (text_or d "memory_id") /\
       action_of e = VStr (if projection_eligible d then "upsert" else "delete")).
Proof.
  intros [[_ (_ & Hi & _ & He)]|(p & ev & _ & _ & Hs)]%apply_cases.
  { rewrite Hi, He. split; [by intros e ?%not_elem_of_nil|by intros d t ?%not_elem_of_nil]. }
  destruct Hs as [_ Hi _ He|ex d0 d assertions items _ _ _ _ _ _ _ He]; rewrite He.
  - rewrite Hi. split; [|by intros d t ?%not_elem_of_nil]. intros e (t & -> & _)%list_elem_of_fmap. done.
  - split.
    + intros e (x & Hx & Hin)%list_elem_of_bind. unfold item_events in Hx.
      apply list_elem_of_fmap in Hx as (t & -> & _). unfold action_of. cbn. intros Hact.
      exists x. split_and!; [done..|]. apply projection_eligible_shown.
      destruct (projection_eligible x); [done|]. by injection Hact.
    + intros x t Hx Ht. eexists. split; [apply list_elem_of_bind; exists x; split; [|exact Hx];
        unfold item_events; apply list_elem_of_fmap; exists t; split; [reflexivity|exact Ht]|]. done.
Qed.
End Theorems.
