(* ===== verification/MemoryAccessProofs.v ===== *)
(** * What default reads serve

    The filter of a read, item by item, and the canonical filter as one
    condition on each item. *)

From S2P Require Import Prelude PyValue Sha256 Firestore MemoryText MemoryOperations MemoryModels MemoryPromotion MemoryAccess MemoryApply MemoryProofs MemoryItemProofs MemoryTheorems.
From Stdlib Require Import QArith_base Ascii.
From stdpp Require Import sorting.
Local Open Scope Z_scope.

Section Reads.
Context {T : TextEnv} {Md : ModelEnv}.

Abbreviation id_of d := (text_or d "memory_id").
Abbreviation ids_of l := ((fun d : fields => text_or d "memory_id") <$> l).

(** ** The report *)
Section Report.
Variable policy : MemoryAccessPolicy.
Variable now : Z.

(** The decision on an item that the report lists as visible. *)
Definition listed (d : item) : Prop := exists x, decide_item d policy now = Ok x /\ allowed x.1 = true.

Lemma report_item_Ok report d report' :
  report_item report d policy now = Ok report' ->
  exists x, decide_item d policy now = Ok x /\
    visible_items report' = (if allowed x.1 then visible_items report ++ [d] else visible_items report) /\
    decisions report' = <[id_of d := x.1]> (decisions report).
Proof.
  unfold report_item. intros H. apply res_bind_Ok in H as ([x audit] & Hx & H). injection H as <-.
  by exists (x, audit).
Qed.

Lemma report_items_Ok items report report' :
  report_items report items policy now = Ok report' ->
  (forall d, d ∈ visible_items report' <-> d ∈ visible_items report \/ (d ∈ items /\ listed d)) /\
  (forall k, (forall d, d ∈ items -> id_of d <> k) -> decisions report' !! k = decisions report !! k) /\
  (NoDup (ids_of items) -> forall d, d ∈ items ->
     exists x, decide_item d policy now = Ok x /\ decisions report' !! id_of d = Some x.1).
Proof.
  revert report. induction items as [|e items IH]; intros report; simpl.
  { intros [= <-]. split_and!; [|done|set_solver]. intros d. split; [by left|]. intros [?|[?%not_elem_of_nil _]]; done. }
  intros H. apply res_bind_Ok in H as (report1 & H1 & H). apply report_item_Ok in H1 as (x & Hx & Hv & Hd).
  destruct (IH _ H) as (I1 & I2 & I3). split_and!.
  - intros d. rewrite I1, Hv, elem_of_cons. destruct (allowed x.1) eqn:Ha.
    + rewrite elem_of_app, list_elem_of_singleton. split; [|naive_solver].
      intros [[?| ->]|?]; [by left|right|naive_solver]. split; [by left|]. by exists x.
    + split; [naive_solver|]. intros [?|[[->|?] Hl]]; [by left| |naive_solver].
      destruct Hl as (y & Hy & Hay). rewrite Hx in Hy. injection Hy as <-. congruence.
  - intros k Hk. rewrite I2 by (intros; apply Hk; by right). rewrite Hd, lookup_insert_ne; [done|].
    apply Hk. by left.
  - intros [Hn Hnd]%NoDup_cons d [->|Hin]%elem_of_cons; [|by apply I3].
    exists x. split; [done|]. rewrite I2, Hd, lookup_insert_eq; [done|].
    intros d' Hd' E. apply Hn. rewrite <-E. by apply (list_elem_of_fmap_2 (fun d => id_of d)).
Qed.

(** ** The canonical filter *)

(** The items that stage two may add: allowed by the policy, withheld by the
    lifecycle only. *)
Definition awaiting (d : item) (decision : ProductMemoryItemDecision) : bool :=
  bool_decide (lifecycle_reason decision = Some _L2_PROCESSED_REQUIRES_DISPOSITION)
  && v_is (doc_get d "tier") "short_term" && v_is (doc_get d "status") "active" && processed_item d.

Definition readmitted (report : DefaultProductMemoryReadReport) (d : item) : Prop :=
  exists x a, decisions report !! id_of d = Some x /\ awaiting d x = true /\
    is_default_access_eligible d policy now = Ok a /\ access_allowed a = true.

Lemma readmit_Ok items report visible visible' :
  NoDup (ids_of items) -> readmit items report policy now visible = Ok visible' ->
  forall k d, visible' !! k = Some d <->
    visible !! k = Some d \/ (visible !! k = None /\ d ∈ items /\ id_of d = k /\ readmitted report d).
Proof.
  revert visible. induction items as [|e items IH]; intros visible; simpl.
  { intros _ [= <-] k d. split; [by left|]. intros [?|(_ & ?%not_elem_of_nil & _)]; done. }
  intros [Hn Hnd]%NoDup_cons H k d. unfold readmitted in *.
  match type of H with context [if ?b then _ else _] => destruct b eqn:Hw end.
  - destruct (visible !! id_of e) eqn:Hv; [done|]. destruct (decisions report !! id_of e) as [x|] eqn:Hx; [|done].
    apply res_bind_Ok in H as (a & Ha & H). rewrite (IH _ Hnd H). destruct (access_allowed a) eqn:Hall.
    + rewrite lookup_insert. destruct (decide (id_of e = k)) as [Hk|Hk].
      * subst k. split.
        -- intros [[= <-]|(? & _)]; [|done]. right. split_and!; [done|by left|done|]. exists x, a. by split_and!.
        -- intros [Hvd|(_ & [->|Hin]%elem_of_cons & Hid & _)]; [congruence|by left|].
           exfalso. apply Hn. rewrite <-Hid. by apply (list_elem_of_fmap_2 (fun d => id_of d)).
      * split; [intros [?|(? & ? & ? & ?)]; [by left|right; split_and!; [done|by right|done..]]|].
        intros [?|(? & [->|?]%elem_of_cons & ? & ?)]; [by left|done|right; by split_and!].
    + split; [intros [?|(? & ? & ? & ?)]; [by left|right; split_and!; [done|by right|done..]]|].
      intros [?|(? & [->|?]%elem_of_cons & ? & (y & b & Hy & Haw & Hb & Hba))]; [by left|congruence|].
      right. split_and!; [done..|]. exists y, b. by split_and!.
  - rewrite (IH _ Hnd H).
    split; [intros [?|(? & ? & ? & ?)]; [by left|right; split_and!; [done|by right|done..]]|].
    intros [?|(Hnone & [->|?]%elem_of_cons & Hid & Hr)]; [by left| |by right].
    destruct Hr as (y & b & Hy & Haw & _). subst k. rewrite Hnone, Hy in Hw. unfold awaiting in Haw. congruence.
Qed.

Lemma drop_rejected_lookup items visible k d :
  drop_rejected items visible !! k = Some d <->
  visible !! k = Some d /\ (forall e, e ∈ items -> id_of e = k -> user_rejected e = false).
Proof.
  revert visible. induction items as [|e items IH]; intros visible; simpl.
  { split; [by split; [|intros e ?%not_elem_of_nil]|by intros [? _]]. }
  rewrite IH. destruct (user_rejected e) eqn:He.
  - rewrite lookup_delete_Some. split.
    + intros [[Hk Hv] Hall]. split; [done|]. intros e' [->|?]%elem_of_cons ?; [done|by apply Hall].
    + intros [Hv Hall]. split; [split; [|done]|].
      * intros Hk. rewrite (Hall e) in He by (by left || done). done.
      * intros e' ?. apply Hall. by right.
  - split; intros [Hv Hall]; (split; [done|]).
    + intros e' [->|?]%elem_of_cons ?; [done|by apply Hall].
    + intros e' ?. apply Hall. by right.
Qed.

(** ** One item *)

(** What an allowed default access says of an item. *)
Record eligible (d : item) : Prop := {
  el_active : v_is (doc_get d "status") "active" = true;
  el_not_blocked : v_is (doc_get d "processing_state") "blocked" = false;
  el_source : source_gone d = false;
  el_consumer : consumer policy <> unknown;
  el_labels : _has_restricted_sensitivity d = false;
  el_visibility : v_in (doc_get d "visibility") visibilities = true;
  el_tier : v_in (doc_get d "tier") ["short_term"; "long_term"] = true;
  el_grant : needs_grant (consumer policy) = true -> app_has_default_memory_grant policy = true
}.

(** The policy allows the item. *)
Definition granted (d : item) : Prop :=
  exists a, is_default_access_eligible d policy now = Ok a /\ access_allowed a = true.

Lemma granted_eligible d : granted d -> eligible d.
Proof.
  intros (a & H & Ha). unfold is_default_access_eligible, _base_policy_checks in H.
  repeat match type of H with
  | context [match (if ?b then _ else _) with _ => _ end] => destruct b eqn:?; [injection H as <-; discriminate Ha|]
  end.
  destruct (v_is (doc_get d "tier") "archive"); [injection H as <-; discriminate Ha|].
  destruct (needs_grant _ && _) eqn:Hg; [injection H as <-; discriminate Ha|].
  apply res_bind_Ok in H as (expired & He & H).
  split; try done.
  - by apply negb_false_iff.
  - by eapply bool_decide_eq_false.
  - by apply negb_false_iff.
  - unfold v_in. simpl. destruct (v_is (doc_get d "tier") "short_term") eqn:Hs; [done|]. simpl.
    injection He as <-. unfold v_in in H. simpl in H. rewrite Hs in H. simpl in H.
    destruct (v_is (doc_get d "tier") "long_term"); [done|]. injection H as <-. discriminate Ha.
  - intros Hn. rewrite Hn in Hg. simpl in Hg. by apply negb_false_iff in Hg.
Qed.

Lemma evaluate_processed d l :
  evaluate_short_term_lifecycle d now None = Ok l -> processed_item d = true ->
  default_access_allowed l = false /\
  (eligible d -> decision_reason_of l = _L2_PROCESSED_REQUIRES_DISPOSITION).
Proof.
  unfold evaluate_short_term_lifecycle, processed_item. intros H Hp.
  destruct (negb _); [done|]. apply res_bind_Ok in H as (e & _ & H). unfold _decision, _audit_metadata in H.
  destruct (source_gone d) eqn:Hs; [|destruct (negb (v_is (doc_get d "status") "active")) eqn:Ha; [|rewrite Hp in H]];
    apply res_bind_Ok in H as (audit & Hau & H); apply res_bind_Ok in Hau as (c & _ & Hau);
    injection Hau as <-; injection H as <-; (split; [done|]); intros El.
  - pose proof (el_source _ El). congruence.
  - pose proof (el_active _ El) as E. rewrite E in Ha. discriminate Ha.
  - reflexivity.
Qed.

(** A processed item is allowed exactly when the first stage lists it or the second
    one may add it. *)
Lemma processed_stages d :
  processed_item d = true -> (exists x, decide_item d policy now = Ok x) ->
  (granted d <->
   listed d \/ exists x, decide_item d policy now = Ok x /\ awaiting d x.1 = true /\ granted d).
Proof.
  intros Hp [x Hx]. unfold decide_item in *. pose proof Hx as H. apply res_bind_Ok in H as (a & Ha & H).
  destruct (v_is (doc_get d "tier") "short_term") eqn:Ht.
  - apply res_bind_Ok in H as (l & Hl & H). injection H as <-.
    destruct (evaluate_processed d l Hl Hp) as [Hd Hr]. split.
    + intros Hg. right. exists (_decision_from_lifecycle a l, Some (report_audit l)). split_and!; [done| |done].
      pose proof (granted_eligible d Hg) as El. unfold awaiting, _decision_from_lifecycle.
      rewrite Hd, (Hr El), Ht, (el_active _ El), Hp. reflexivity.
    + intros [(y & Hy & Hal)|(y & _ & _ & Hg)]; [|done]. unfold decide_item in Hy.
      rewrite Ha, Ht, Hl in Hy. injection Hy as <-. unfold _decision_from_lifecycle in Hal. by rewrite Hd in Hal.
  - injection H as <-. unfold listed, decide_item. rewrite Ha, Ht. simpl. split.
    + intros (b & Hb & Hal). left. rewrite Ha in Hb. injection Hb as <-. by exists (_decision_from_access a, None).
    + intros [(y & [= <-] & Hal)|(y & _ & _ & Hg)]; [by exists a|done].
Qed.

Lemma ids_inj items d e :
  NoDup (ids_of items) -> d ∈ items -> e ∈ items -> id_of d = id_of e -> d = e.
Proof.
  induction items as [|x items IH]; [by intros _ ?%not_elem_of_nil|].
  intros [Hn Hnd]%NoDup_cons Hd He E. apply elem_of_cons in Hd as [->|Hd], He as [->|He]; [done| | |by apply IH].
  - exfalso. apply Hn. rewrite E. by apply (list_elem_of_fmap_2 (fun d => id_of d)).
  - exfalso. apply Hn. rewrite <-E. by apply (list_elem_of_fmap_2 (fun d => id_of d)).
Qed.

(** The visible items by identifier, before and after the second stage. *)
Lemma by_id_lookup items shown k d :
  NoDup (ids_of items) -> (forall e, e ∈ shown -> e ∈ items) ->
  (list_to_map (rev ((fun e => (id_of e, e)) <$> shown)) : gmap string item) !! k = Some d <->
  d ∈ shown /\ id_of d = k.
Proof.
  intros Hnd Hsub. split.
  - intros H%elem_of_list_to_map_2. apply list_elem_of_In, List.in_rev, list_elem_of_In in H.
    apply list_elem_of_fmap in H as (e & [= -> ->] & He). done.
  - intros [Hd <-]. apply elem_of_list_to_map_1'.
    + intros e H. apply list_elem_of_In, List.in_rev, list_elem_of_In in H.
      apply list_elem_of_fmap in H as (e' & [= Hid ->] & He). apply (ids_inj items); auto.
    + apply list_elem_of_In, List.in_rev. rewrite rev_involutive. apply list_elem_of_In. by apply (list_elem_of_fmap_2 (fun e => (id_of e, e))).
Qed.

Lemma newest_le_trans : Transitive newest_le.
Proof.
  intros x y z. unfold newest_le. intros [H1|[H1 H1']] [H2|[H2 H2']]; [left; lia..|right].
  split; [lia|by eapply string_leb_trans].
Qed.

Lemma newest_le_total : Total newest_le.
Proof.
  intros x y. unfold newest_le.
  set (tx := match doc_get x.2 "updated_at" with VTime _ us => us | _ => 0 end).
  set (ty := match doc_get y.2 "updated_at" with VTime _ us => us | _ => 0 end).
  destruct (Z.lt_total tx ty) as [?|[?|?]]; [by right; left| |by left; left].
  destruct (String.leb_total x.1 y.1); [left|right]; by right.
Qed.

Lemma canonical_lookup items l :
  NoDup (ids_of items) -> filter_canonical_default_visible_items items policy now = Ok l ->
  exists m : gmap string item, l = (merge_sort newest_le (map_to_list m)).*2 /\
    forall k d, m !! k = Some d <->
      d ∈ items /\ id_of d = k /\ processed_item d = true /\ user_rejected d = false /\ granted d.
Proof.
  intros Hnd H. unfold filter_canonical_default_visible_items in H. apply res_bind_Ok in H as (n & _ & H).
  apply res_bind_Ok in H as (report & Hr & H). cbv zeta in H. apply res_bind_Ok in H as (visible & Hv & H).
  injection H as <-. eexists. split; [reflexivity|]. intros k d. rewrite drop_rejected_lookup.
  rewrite (readmit_Ok _ _ _ _ Hnd Hv). destruct (report_items_Ok _ _ _ Hr) as (R1 & _ & R3). specialize (R3 Hnd).
  assert (R1' : forall e, e ∈ visible_items report <-> e ∈ items /\ listed e).
  { intros e. rewrite R1. simpl. split; [intros [?%not_elem_of_nil|?]; done|by right]. }
  assert (Hf : forall e, e ∈ List.filter processed_item (visible_items report) <->
    e ∈ items /\ listed e /\ processed_item e = true).
  { intros e. rewrite list_elem_of_In, List.filter_In, <-list_elem_of_In, R1'. tauto. }
  assert (Hby : forall k e, (list_to_map (rev ((fun d => (id_of d, d)) <$> List.filter processed_item (visible_items report)))
    : gmap string item) !! k = Some e <-> (e ∈ items /\ listed e /\ processed_item e = true) /\ id_of e = k).
  { intros k' e. rewrite (by_id_lookup items), Hf; [done|done|]. intros e' He'. by apply Hf in He' as [? _]. }
  assert (Hdec : forall e, e ∈ items -> exists x, decide_item e policy now = Ok x) by (intros e He; destruct (R3 e He); naive_solver).
  split.
  - intros [Hvis Hrej]. assert (d ∈ items /\ id_of d = k) as [Hin <-].
    { destruct Hvis as [[[? _] ?]%Hby|(_ & ? & ? & _)]; done. }
    assert (processed_item d = true) as Hp.
    { destruct Hvis as [[(_ & _ & ?) _]%Hby|(_ & _ & _ & x & a & _ & Haw & _)]; [done|].
      unfold awaiting in Haw. rewrite !andb_true_iff in Haw. tauto. }
    split_and!; [done|done|done|by apply (Hrej d)|].
    apply processed_stages; [done|by apply Hdec|].
    destruct Hvis as [[(_ & ? & _) _]%Hby|(_ & _ & _ & x & a & Hx & Haw & Ha)]; [by left|right].
    destruct (R3 d Hin) as (y & Hy & Hyd). rewrite Hx in Hyd. injection Hyd as ->.
    exists y. split_and!; [done|done|by exists a].
  - intros (Hin & <- & Hp & Hrej & Hg). split.
    + destruct (proj1 (processed_stages d Hp (Hdec d Hin)) Hg) as [Hl|(y & Hy & Haw & a & Ha)].
      { left. apply Hby. by split_and!. }
      destruct (_ !! id_of d) as [e|] eqn:He.
      * left. apply Hby in He as [(Hein & Hel & Hep) Hid].
        rewrite (ids_inj items e d) by done. done.
      * right. split_and!; [done..|]. destruct (R3 d Hin) as (y' & Hy' & Hyd).
        rewrite Hy in Hy'. injection Hy' as <-. by exists y.1, a.
    + intros e He Hid. by rewrite (ids_inj items e d).
Qed.

(** C29: The canonical filter is one condition on each item.  Whatever the three
    stages do, a list of items with distinct identifiers is reduced to exactly
    the processed ones that the access policy allows and the user did not reject,
    each once, newest first. *)
Theorem canonical_reads_are_the_granted items l :
  NoDup (ids_of items) -> filter_canonical_default_visible_items items policy now = Ok l ->
  (forall d, d ∈ l <-> d ∈ items /\ processed_item d = true /\ user_rejected d = false /\ granted d) /\
  NoDup (ids_of l) /\ StronglySorted newest_le ((fun d => (id_of d, d)) <$> l).
Proof.
  intros Hnd H. destruct (canonical_lookup _ _ Hnd H) as (m & -> & Hm).
  set (kl := merge_sort newest_le (map_to_list m)).
  assert (Hkl : forall k d, (k, d) ∈ kl <-> m !! k = Some d).
  { intros k d. unfold kl. by rewrite merge_sort_Permutation, elem_of_map_to_list. }
  assert (Hkeys : (fun d => (id_of d, d)) <$> kl.*2 = kl).
  { rewrite <-list_fmap_compose. rewrite <-(list_fmap_id kl) at 2. apply list_fmap_ext.
    intros i [k d] Hi. apply list_elem_of_lookup_2, Hkl, Hm in Hi as (_ & <- & _). done. }
  split_and!.
  - intros d. rewrite list_elem_of_fmap. split.
    + intros ([k e] & -> & (? & ? & ? & ? & ?)%Hkl%Hm). done.
    + intros (? & ? & ? & ?). exists (id_of d, d). split; [done|]. apply Hkl, Hm. by split_and!.
  - replace (ids_of kl.*2) with (kl.*1) by (rewrite <-Hkeys at 1; by rewrite <-list_fmap_compose).
    unfold kl. rewrite merge_sort_Permutation. apply NoDup_fst_map_to_list.
  - rewrite Hkeys. apply StronglySorted_merge_sort; [apply newest_le_trans|apply newest_le_total].
Qed.

(** Whatever a default read serves, the ledger had projected.  An item the
    canonical filter returns is one for which a commit of it emits upserts and no
    deletes, its source is not gone, and a consumer outside the product had the
    user's grant. *)
Theorem served_memories_are_projected items l d :
  NoDup (ids_of items) -> filter_canonical_default_visible_items items policy now = Ok l -> d ∈ l ->
  shown d /\ (forall op c commit_id sequence at_ e, e ∈ item_events op c commit_id sequence at_ d ->
                action_of e = VStr "upsert") /\
  source_gone d = false /\ (needs_grant (consumer policy) = true -> app_has_default_memory_grant policy = true).
Proof.
  intros Hnd H Hd. destruct (canonical_lookup _ _ Hnd H) as (m & -> & Hm).
  apply list_elem_of_fmap in Hd as ([k e] & -> & Hin). rewrite merge_sort_Permutation in Hin.
  apply elem_of_map_to_list, Hm in Hin as (_ & _ & Hp & Hrej & Hg). simpl.
  pose proof (granted_eligible e Hg) as El.
  assert (Hpe : projection_eligible e = true).
  { unfold projection_eligible. unfold processed_item in Hp. unfold user_rejected in Hrej.
    by rewrite (el_active _ El), Hp, (el_tier _ El), Hrej, (el_labels _ El). }
  split_and!; [by apply projection_eligible_shown| |apply (el_source _ El)|apply (el_grant _ El)].
  intros op c commit_id sequence at_ x Hx. unfold item_events in Hx.
  apply list_elem_of_fmap in Hx as (t & -> & _). unfold action_of. cbn. by rewrite Hpe.
Qed.
End Report.
End Reads.
