(* ===== verification/MemoryLifecycleProofs.v ===== *)
(** * What the lifecycle worker guarantees

    Transitions are stored once and read back as they were, a fetch returns
    expired items of the user only, and a disposition that changes before the
    item does ends the run. *)

From S2P Require Import Prelude PyValue Sha256 Firestore MemoryText MemoryOperations MemoryModels MemoryAccess MemoryLifecycle.
From Stdlib Require Import QArith_base Ascii.
From stdpp Require Import sorting.
Local Open Scope Z_scope.

#[local] Opaque json_text sha256 _stable_transition_id.

Section Worker.
Context {T : TextEnv} {Md : ModelEnv}.

(** ** Stored transitions *)
Lemma stored_record r id now :
  _record_from_firestore_data (_firestore_transition_payload r id now) = Ok r.
Proof. by destruct r. Qed.

Lemma stored_fingerprint r id now : doc_get (_firestore_transition_payload r id now) "fingerprint" = VStr (fingerprint r).
Proof. done. Qed.

(** Where a record is stored. *)
Definition transition_ref (r : ShortTermLifecycleTransitionRecord) : res path :=
  transition_path (tr_uid r) (_stable_transition_id (tr_uid r) (idempotency_key r)).

(** [stores s r]: the store holds [r] under its key. *)
Definition stores (s : db) (r : ShortTermLifecycleTransitionRecord) : Prop :=
  exists p data, transition_ref r = Ok p /\ s !! p = Some data /\ _record_from_firestore_data data = Ok r /\
    doc_get data "fingerprint" = VStr (fingerprint r).

Lemma persist_new r now s p :
  transition_ref r = Ok p -> s !! p = None ->
  persist_short_term_lifecycle_transition r now s
    = Ok (PersistResult r true, <[p := _firestore_transition_payload r
            (_stable_transition_id (tr_uid r) (idempotency_key r)) now]> s).
Proof.
  intros Hp Hs. unfold persist_short_term_lifecycle_transition, _persist_short_term_lifecycle_transition_transaction.
  unfold transition_ref in Hp. txn_eval. rewrite Hp. simpl. by rewrite Hs.
Qed.

Lemma persist_existing r r' now s :
  stores s r -> transition_ref r' = transition_ref r ->
  persist_short_term_lifecycle_transition r' now s
    = if decide (fingerprint r' = fingerprint r) then Ok (PersistResult r false, s) else Raise ValueError.
Proof.
  intros (p & data & Hp & Hs & Hr & Hf) E. rewrite Hp in E.
  unfold persist_short_term_lifecycle_transition, _persist_short_term_lifecycle_transition_transaction.
  unfold transition_ref in E. txn_eval. rewrite E. simpl. rewrite Hs. simpl. rewrite Hf.
  unfold v_is. case_decide as Hd.
  - rewrite bool_decide_eq_true_2 by done. simpl. by rewrite Hr.
  - rewrite bool_decide_eq_false_2 by done. done.
Qed.

Lemma persisted_stores r now s p :
  transition_ref r = Ok p ->
  stores (<[p := _firestore_transition_payload r (_stable_transition_id (tr_uid r) (idempotency_key r)) now]> s) r.
Proof.
  intros Hp. eexists p, _. split_and!; [done|apply lookup_insert_eq|apply stored_record|apply stored_fingerprint].
Qed.

(** A transition is recorded once and read back as it was.  Persisting a record
    whose document is absent stores it; persisting any record with the same user
    and key afterwards, at any later time, returns the stored record as not
    created and writes nothing when the fingerprints agree, and raises when they
    do not. *)
Theorem lifecycle_transition_is_recorded_once r now s p r' now' :
  transition_ref r = Ok p -> s !! p = None ->
  tr_uid r' = tr_uid r -> idempotency_key r' = idempotency_key r ->
  exists s', persist_short_term_lifecycle_transition r now s = Ok (PersistResult r true, s') /\
    (forall q, q <> p -> s' !! q = s !! q) /\
    persist_short_term_lifecycle_transition r' now' s'
      = if decide (fingerprint r' = fingerprint r) then Ok (PersistResult r false, s') else Raise ValueError.
Proof.
  intros Hp Hs Hu Hk. rewrite (persist_new r now s p Hp Hs). eexists. split; [reflexivity|]. split.
  - intros q Hq. by rewrite lookup_insert_ne.
  - apply persist_existing; [by apply persisted_stores|by unfold transition_ref; rewrite Hu, Hk].
Qed.

(** ** A disposition that changes *)

(** The states in which the evaluation does not look at the disposition. *)
Definition disposition_ignored (d : item) : bool := source_gone d || negb (v_is (doc_get d "status") "active").

Lemma ignored_decision d now x l :
  disposition_ignored d = true -> evaluate_short_term_lifecycle d now x = Ok l ->
  outcome l = (if source_gone d then source_tombstoned else reject_or_hide) /\
  decision_reason_of l = (if source_gone d then "source_tombstoned" else "short_term_not_active") /\
  dict_get "policy_version" (audit_metadata l) = VStr SHORT_TERM_LIFECYCLE_POLICY_VERSION.
Proof.
  unfold disposition_ignored, evaluate_short_term_lifecycle, _decision, _audit_metadata. intros Hi H.
  destruct (negb (v_is (doc_get d "tier") _)); [done|]. apply res_bind_Ok in H as (e & _ & H).
  destruct (source_gone d); [|simpl in Hi; rewrite Hi in H];
    apply res_bind_Ok in H as (a & Ha & H); apply res_bind_Ok in Ha as (c & _ & Ha);
    injection Ha as <-; injection H as <-; done.
Qed.

Lemma ignored_key d now now' x y l l' run run' r r' :
  disposition_ignored d = true ->
  evaluate_short_term_lifecycle d now x = Ok l -> evaluate_short_term_lifecycle d now' y = Ok l' ->
  build_short_term_lifecycle_transition_record d l run = Ok r ->
  build_short_term_lifecycle_transition_record d l' run' = Ok r' ->
  tr_uid r' = tr_uid r /\ idempotency_key r' = idempotency_key r.
Proof.
  intros Hi Hl Hl' Hr Hr'. apply ignored_decision in Hl as (O & D & P), Hl' as (O' & D' & P'); [|done..].
  unfold build_short_term_lifecycle_transition_record in *. destruct (negb (nonblank run)), (negb (nonblank run')); try done.
  injection Hr as <-. injection Hr' as <-. simpl. unfold idempotency_payload. by rewrite O, O', D, D', P, P'.
Qed.

(** A changed disposition ends the run.  For an item whose source is gone or
    that is no longer active the key of its transition leaves the disposition out
    while the fingerprint has it in, so once a transition is stored under one
    disposition, a run that evaluates the unchanged item under another raises and
    processes none of the items after it. *)
Theorem changed_disposition_ends_the_run d now now' x l l' run run' r r' rest dispositions report s :
  disposition_ignored d = true ->
  evaluate_short_term_lifecycle d now x = Ok l ->
  evaluate_short_term_lifecycle d now' (dispositions !! text_or d "memory_id") = Ok l' ->
  build_short_term_lifecycle_transition_record d l run = Ok r ->
  build_short_term_lifecycle_transition_record d l' run' = Ok r' ->
  stores s r -> fingerprint r' <> fingerprint r ->
  process_short_term_lifecycle_items (d :: rest) now' run' dispositions report s = (Raise ValueError, s).
Proof.
  intros Hi Hl Hl' Hr Hr' Hs Hf. destruct (ignored_key _ _ _ _ _ _ _ _ _ _ _ Hi Hl Hl' Hr Hr') as [Hu Hk].
  simpl. unfold process_short_term_lifecycle_item. rewrite Hl', ok_bind.
  destruct (ignored_decision _ _ _ _ Hi Hl') as (O & _).
  assert (_transition_required l' = true) as ->.
  { unfold _transition_required. rewrite O. by destruct (source_gone d). }
  cbn [negb]. rewrite Hr', ok_bind.
  rewrite (persist_existing r r' now' s Hs) by (unfold transition_ref; by rewrite Hu, Hk).
  by rewrite decide_False.
Qed.

(** ** Fetching *)

(** An item that the lifecycle may settle: the user's, active, processed and expired. *)
Record settleable (uid : string) (now : Z) (d : item) : Prop := {
  se_uid : doc_get d "uid" = VStr uid;
  se_state : is_processed_short_term d = true;
  se_expired : exists e, effective_short_term_expiry d = Ok e /\ e <= now
}.

Lemma collect_expired_Ok uid now keep_first rows m m' :
  collect_expired uid now keep_first rows m = Ok m' ->
  map_Forall (fun k d => text_or d "memory_id" = k /\ settleable uid now d) m ->
  map_Forall (fun k d => text_or d "memory_id" = k /\ settleable uid now d) m'.
Proof.
  revert m. induction rows as [|[p doc] rows IH]; intros m; simpl; [by intros [= <-]|]. intros H Hm.
  apply res_bind_Ok in H as (d & _ & H). destruct (v_is (doc_get d "uid") uid) eqn:Hu; [|done]. cbn [negb] in H.
  apply res_bind_Ok in H as (expired & He & H). cbv zeta in H. apply (IH _ H).
  destruct (expired && _) eqn:Hk; [|done]. apply andb_true_iff in Hk as [-> _].
  apply map_Forall_insert_2; [|done]. split; [done|]. unfold _is_expired_short_term_lifecycle_item in He.
  unfold is_processed_short_term. destruct (_ && _ && _) eqn:Hs in He; [|done].
  apply res_bind_Ok in He as (e & He & Hle). injection Hle as Hle. apply Z.leb_le in Hle.
  split; [|done|by exists e]. unfold v_is in Hu. destruct (doc_get d "uid"); try done.
  by apply bool_decide_eq_true in Hu as ->.
Qed.

Lemma with_expiry_Ok l r :
  with_expiry l = Ok r -> r.*2 = l /\ Forall (fun x => effective_short_term_expiry x.2.2 = Ok x.1) r.
Proof.
  revert r. induction l as [|kd l IH]; intros r; simpl; [intros [= <-]; by split|]. intros H.
  apply res_bind_Ok in H as (e & He & H). apply res_bind_Ok in H as (r' & Hr & H). injection H as <-.
  destruct (IH _ Hr) as [E Hf]. split; [by rewrite fmap_cons, E|]. by constructor.
Qed.

Lemma expiry_le_total : Total expiry_le.
Proof.
  intros x y. unfold expiry_le. destruct (Z.lt_total x.1 y.1) as [?|[?|?]]; [by left; left| |by right; left].
  destruct (String.leb_total x.2.1 y.2.1); [left|right]; by right.
Qed.

Lemma expiry_le_trans : Transitive expiry_le.
Proof.
  intros x y z. unfold expiry_le. intros [H1|[H1 H1']] [H2|[H2 H2']]; [left; lia..|right].
  split; [lia|by eapply string_leb_trans].
Qed.

Lemma StronglySorted_take {A} (R : relation A) n l : StronglySorted R l -> StronglySorted R (take n l).
Proof.
  intros H. revert n. induction H as [|x l H IH Hx]; intros [|n]; simpl; try constructor; [apply IH|].
  by apply Forall_take.
Qed.

Lemma StronglySorted_impl {A B} (R : relation A) (S : relation B) (f : A -> B) l :
  (forall x y, R x y -> S (f x) (f y)) -> StronglySorted R l -> StronglySorted S (f <$> l).
Proof.
  intros Hi. induction 1 as [|x l H IH Hx]; simpl; constructor; [done|].
  apply Forall_fmap. eapply Forall_impl; [exact Hx|]. intros y. apply Hi.
Qed.

(** A fetch is bounded and returns work only.  It returns at most the limit and
    never more than 500 items, distinct, in the order of their effective expiry,
    each of them the user's, active, processed and expired; and whatever the
    disposition, the evaluation of each at any time requires a transition, so a
    run skips none of them. *)
Theorem fetched_items_are_expired_and_bounded uid now limit s items :
  fetch_expired_short_term_memory_items_firestore uid now limit s = Ok items ->
  Z.of_nat (length items) <= Z.min (default 250 limit) 500 /\
  NoDup ((fun d => text_or d "memory_id") <$> items) /\ Forall (settleable uid now) items /\
  (exists es, Forall2 (fun d e => effective_short_term_expiry d = Ok e) items es /\ StronglySorted Z.le es) /\
  (forall d x t l, d ∈ items -> evaluate_short_term_lifecycle d t x = Ok l -> _transition_required l = true).
Proof.
  unfold fetch_expired_short_term_memory_items_firestore. intros H.
  destruct (negb (nonblank uid)); [done|].
  destruct (if limit is Some n then n <=? 0 else false) eqn:Hlim; [done|].
  apply res_bind_Ok in H as (c & _ & H). apply res_bind_Ok in H as (m1 & H1 & H).
  apply res_bind_Ok in H as (cut & _ & H). apply res_bind_Ok in H as (m & H2 & H).
  apply res_bind_Ok in H as (keyed & Hk & H). injection H as <-.
  apply collect_expired_Ok in H1; [|apply map_Forall_empty]. apply collect_expired_Ok in H2; [|done].
  apply with_expiry_Ok in Hk as [Ek Hf]. set (sorted := merge_sort expiry_le keyed).
  assert (Hp : sorted ≡ₚ keyed) by apply merge_sort_Permutation.
  assert (Hall : Forall (fun d => settleable uid now d) (sorted.*2.*2)).
  { rewrite Hp, Ek. apply Forall_forall. intros d ([k d'] & -> & Hin)%list_elem_of_fmap.
    apply elem_of_map_to_list in Hin. by destruct (H2 _ _ Hin). }
  assert (Hids : (fun d => text_or d "memory_id") <$> sorted.*2.*2 = sorted.*2.*1).
  { rewrite <-list_fmap_compose. apply list_fmap_ext. intros i [k d] Hi.
    apply list_elem_of_lookup_2 in Hi. rewrite Hp, Ek in Hi. apply elem_of_map_to_list in Hi.
    by destruct (H2 _ _ Hi). }
  unfold page. split_and!.
  - rewrite length_take. unfold effective_limit, DEFAULT_SHORT_TERM_MAINTENANCE_SCAN_LIMIT, MAX_SHORT_TERM_MAINTENANCE_SCAN_LIMIT.
    destruct limit as [n|]; cbn [from_option id]; [apply Z.leb_gt in Hlim|]; lia.
  - rewrite fmap_take, Hids. eapply sublist_NoDup; [|apply sublist_take]. rewrite Hp, Ek. apply NoDup_fst_map_to_list.
  - by apply Forall_take.
  - exists (take (Z.to_nat (effective_limit limit)) (sorted.*1)). split.
    + apply Forall2_take. rewrite <-list_fmap_compose. apply Forall2_fmap_2, Forall_Forall2_diag.
      unfold sorted. rewrite merge_sort_Permutation. exact Hf.
    + apply StronglySorted_take. apply (StronglySorted_impl expiry_le Z.le fst).
      * intros a b [H|[H _]]; simpl; lia.
      * apply StronglySorted_merge_sort; [apply expiry_le_trans|apply expiry_le_total].
  - intros d x t l Hd. apply (Forall_take _ (Z.to_nat (effective_limit limit))) in Hall.
    apply (proj1 (Forall_forall _ _) Hall) in Hd as [_ Hst _]. unfold is_processed_short_term in Hst.
    rewrite !andb_true_iff in Hst. destruct Hst as [[_ Hac] Hpr].
    unfold evaluate_short_term_lifecycle, _decision. destruct (negb (v_is (doc_get d "tier") _)); [done|]. intros H.
    apply res_bind_Ok in H as (e & _ & H). rewrite Hac, Hpr in H. simpl in H.
    destruct (source_gone d); [|destruct x as [x|]]; apply res_bind_Ok in H as (a & _ & H); injection H as <-;
      unfold _transition_required; simpl; try done. by destruct x.
Qed.
End Worker.
