(* ===== verification/MemoryStoreProofs.v ===== *)
(** * What one apply transaction reads and writes

    The documents of an account are told apart by their collections and
    identifiers; the transaction's reads are facts about the snapshot, its writes
    are one of a few kinds.  [apply_outcome] sums up a whole run. *)

From S2P Require Import Prelude PyValue Firestore LegalHolds LegalHoldProofs Sha256 MemoryText MemoryOperations MemoryModels MemoryPromotion MemoryApply MemoryRecords MemoryReceipts MemoryStore MemoryProofs.
From Stdlib Require Import QArith_base Ascii.
Local Open Scope Z_scope.

(** ** Documents of an account *)
Lemma memory_ref_Ok uid coll id p :
  no_slash uid -> no_slash coll -> memory_ref uid coll id = Ok p ->
  exists w ws, p = "users" :: uid :: coll :: w :: ws /\ join w ws = String.list_ascii_of_string id.
Proof.
  intros Hu Hc H. unfold memory_ref, document_path in H.
  rewrite !list_ascii_app in H. simpl in H.
  rewrite split_slash_segment in H by done. simpl in H. rewrite split_slash_segment in H by done. simpl in H.
  destruct (split_slash (String.list_ascii_of_string id)) as [w ws] eqn:E. simpl in H.
  destruct (Nat.even (length ws)) eqn:Ee; simpl in H; rewrite ?Ee in H; [|done]. injection H as <-.
  exists w, ws. split; [done|]. by apply split_slash_join.
Qed.

Lemma memory_ref_inj uid coll id uid' coll' id' p :
  no_slash uid -> no_slash uid' -> no_slash coll -> no_slash coll' ->
  memory_ref uid coll id = Ok p -> memory_ref uid' coll' id' = Ok p ->
  uid = uid' /\ coll = coll' /\ id = id'.
Proof.
  intros Hu Hu' Hc Hc' H H'.
  destruct (memory_ref_Ok _ _ _ _ Hu Hc H) as (w & ws & -> & Hj).
  destruct (memory_ref_Ok _ _ _ _ Hu' Hc' H') as (w' & ws' & [= <- <- <- <-] & Hj').
  split_and!; [done..|].
  rewrite <-(String.string_of_list_ascii_of_string id), <-(String.string_of_list_ascii_of_string id'). congruence.
Qed.

Definition collections : list string :=
  ["memory_state"; "memory_operations"; "memory_items"; "memory_evidence"; "memory_commits";
   "memory_graph_assertions"; "memory_outbox"; "memory_review_queue"; "memory_ledger_reopens";
   "jit_trigger_feedback"; "jit_proactivity_events"; "memory_deletion_receipts"; "memory_corrections";
   "memory_source_replacements"].

Lemma collection_no_slash coll : coll ∈ collections -> no_slash coll.
Proof.
  revert coll. apply Forall_forall. repeat (constructor; [by apply (bool_decide_unpack _); vm_compute|]). constructor.
Qed.

(** Two names of one document. *)
Lemma same_document uid coll id uid' coll' id' p :
  memory_ref uid coll id = Ok p -> memory_ref uid' coll' id' = Ok p -> no_slash uid -> no_slash uid' ->
  coll ∈ collections -> coll' ∈ collections -> uid = uid' /\ coll = coll' /\ id = id'.
Proof. intros. apply (memory_ref_inj uid coll id uid' coll' id' p); first [done|by apply collection_no_slash]. Qed.

(** One step of a piece that reads; the facts it learns become hypotheses of the
    postcondition. *)
Ltac reads_step :=
  lazymatch goal with
  | |- reads (mret _) _ => apply reads_ret; intros
  | |- reads (lift _) _ => apply reads_lift; intros
  | |- reads (txn_get _) _ => apply reads_get; intros
  | |- reads (lift ?r ≫= _) _ =>
      eapply (reads_bind _ _ (fun _ a => r = Ok a)); [apply reads_lift; intros ? ? E; exact E|intros ?]
  | |- reads (txn_get ?r ≫= _) _ =>
      eapply (reads_bind _ _ (fun s a => a = s !! r)); [apply reads_get; reflexivity|intros ?]
  end.

Section Proofs.
Context {T : TextEnv} {Md : ModelEnv} {St : StoreEnv}.

(** ** The writes of a result *)
Definition derived_collections : list string :=
  ["memory_review_queue"; "memory_ledger_reopens"; "jit_trigger_feedback"; "jit_proactivity_events";
   "memory_deletion_receipts"; "memory_corrections"].

(** The assertion of a result about the item [d]. *)
Definition assertion_of (r : ApplyResult) (d : item) : option MemoryGraphAssertion :=
  List.find (fun a => v_is (doc_get d "memory_id") (ga_memory_id a)) (graph_assertions r).

(** An item that must not keep an assertion. *)
Definition drops_assertion (d : item) : bool :=
  negb (v_is (doc_get d "status") "tombstoned")
  && (negb (v_is (doc_get d "status") "active") || negb (truthy (doc_get d "graph_ready"))).

(** The kinds of writes of a committed result [r] of the account [uid]. *)
Inductive result_write (uid : string) (op_ref : path) (r : ApplyResult) : write -> Prop :=
| lw_operation : result_write uid op_ref r (WSet op_ref (operation_data (result_operation r)))
| lw_control p : control_ref uid = Ok p -> result_write uid op_ref r (WSet p (control_data (control_state r)))
| lw_head p d :
    state_head_ref uid = Ok p -> _memory_state_head_from_control (control_state r) = Ok d ->
    result_write uid op_ref r (WSet p d)
| lw_commit p :
    commit_ref uid (head_commit_id (control_state r)) = Ok p ->
    result_write uid op_ref r (WSet p (commit_doc (control_state r) (result_operation r)))
| lw_item p d : d ∈ memory_items r -> item_ref uid (text_or d "memory_id") = Ok p -> result_write uid op_ref r (WSet p d)
| lw_event p e : e ∈ outbox_events r -> outbox_ref uid (event_id e) = Ok p -> result_write uid op_ref r (WSet p (event_data e))
| lw_assertion d a p :
    d ∈ memory_items r -> assertion_of r d = Some a -> assertion_ref uid (text_or d "memory_id") = Ok p ->
    result_write uid op_ref r (WSet p (assertion_data a))
| lw_drop d p :
    d ∈ memory_items r -> assertion_of r d = None -> assertion_ref uid (text_or d "memory_id") = Ok p ->
    result_write uid op_ref r (WDelete p)
| lw_derived coll id p d : coll ∈ derived_collections -> memory_ref uid coll id = Ok p -> result_write uid op_ref r (WSet p d).

(** The writes of a call: those of its result, and evidence. *)
Inductive ledger_write (uid : string) (op_ref : path) (r : ApplyResult) (w : write) : Prop :=
| lw_result : result_write uid op_ref r w -> ledger_write uid op_ref r w
| lw_evidence id p d : evidence_ref uid id = Ok p -> w = WSet p d -> ledger_write uid op_ref r w.

(** The assertion of an item is written, or the old one dropped. *)
Definition assertion_written (uid : string) (r : ApplyResult) (d : item) (ws : list write) : Prop :=
  exists p, assertion_ref uid (text_or d "memory_id") = Ok p /\
    match assertion_of r d with
    | Some a => WSet p (assertion_data a) ∈ ws
    | None => drops_assertion d = true -> WDelete p ∈ ws
    end.

(** The writes a committed result must make. *)
Record complete_writes (uid : string) (op_ref : path) (r : ApplyResult) (ws : list write) : Prop := {
  cw_kinds : Forall (ledger_write uid op_ref r) ws;
  cw_operation : WSet op_ref (operation_data (result_operation r)) ∈ ws;
  cw_control : exists p, control_ref uid = Ok p /\ WSet p (control_data (control_state r)) ∈ ws;
  cw_commit : exists p, commit_ref uid (head_commit_id (control_state r)) = Ok p /\
    WSet p (commit_doc (control_state r) (result_operation r)) ∈ ws;
  cw_items : forall d, d ∈ memory_items r -> exists p, item_ref uid (text_or d "memory_id") = Ok p /\ WSet p d ∈ ws;
  cw_events : forall e, e ∈ outbox_events r -> exists p, outbox_ref uid (event_id e) = Ok p /\ WSet p (event_data e) ∈ ws;
  cw_head : exists p d, state_head_ref uid = Ok p /\ _memory_state_head_from_control (control_state r) = Ok d /\ WSet p d ∈ ws;
  cw_assertions : forall d, d ∈ memory_items r -> assertion_written uid r d ws
}.

Definition only_kinds (uid : string) (op_ref : path) (r : ApplyResult) (ws : list write) : Prop :=
  Forall (ledger_write uid op_ref r) ws.
Definition result_kinds (uid : string) (op_ref : path) (r : ApplyResult) (ws : list write) : Prop :=
  Forall (result_write uid op_ref r) ws.

Lemma result_only uid op_ref r ws : result_kinds uid op_ref r ws -> only_kinds uid op_ref r ws.
Proof. intros H. eapply Forall_impl; [exact H|]. intros w. apply lw_result. Qed.

(** A loop whose steps write allowed kinds, and something for each element. *)
Lemma appends_each {A} (l : list A) (f : A -> Txn unit) (K : list write -> Prop) (N : A -> list write -> Prop) :
  K [] -> (forall ws1 ws2, K ws1 -> K ws2 -> K (ws1 ++ ws2)) ->
  (forall a ws ws1 ws2, N a ws -> N a (ws1 ++ ws ++ ws2)) ->
  (forall a, a ∈ l -> appends (f a) (fun _ ws => K ws /\ N a ws)) ->
  appends (txn_each l f) (fun _ ws => K ws /\ forall a, a ∈ l -> N a ws).
Proof.
  intros K0 Kapp Nmono. induction l as [|a l IH]; intros Hf; simpl.
  - apply appends_ret. split; [done|]. by intros a ?%elem_of_nil.
  - eapply appends_bind; [apply Hf; set_solver|]. intros [] ws1 [HK1 HN1].
    eapply appends_weaken; [apply IH; set_solver|]. intros [] ws2 [HK2 HN2]. split; [auto|].
    intros b [->|Hb]%elem_of_cons.
    + by apply (Nmono a ws1 []).
    + specialize (Nmono b ws2 ws1 [] (HN2 b Hb)). by rewrite app_nil_r in Nmono.
Qed.

Lemma lw_derived_set uid op_ref r coll id p d :
  coll ∈ derived_collections -> memory_ref uid coll id = Ok p -> result_kinds uid op_ref r [WSet p d].
Proof. intros. constructor; [by eapply lw_derived|constructor]. Qed.

Lemma lw_evidence_set uid op_ref r id p d : evidence_ref uid id = Ok p -> only_kinds uid op_ref r [WSet p d].
Proof. intros. constructor; [by eapply lw_evidence|constructor]. Qed.

Lemma only_kinds_app uid op_ref r ws1 ws2 :
  only_kinds uid op_ref r ws1 -> only_kinds uid op_ref r ws2 -> only_kinds uid op_ref r (ws1 ++ ws2).
Proof. intros. by apply Forall_app. Qed.

Lemma result_kinds_app uid op_ref r ws1 ws2 :
  result_kinds uid op_ref r ws1 -> result_kinds uid op_ref r ws2 -> result_kinds uid op_ref r (ws1 ++ ws2).
Proof. intros. by apply Forall_app. Qed.

(** [derived] discharges a write to a derived collection. *)
Ltac derived :=
  eapply lw_derived_set; [|eassumption]; unfold derived_collections; set_solver.

Lemma write_assertion_appends uid op_ref r d q :
  d ∈ memory_items r -> assertion_ref uid (text_or d "memory_id") = Ok q ->
  appends (write_assertion q d (graph_assertions r))
    (fun _ ws => result_kinds uid op_ref r ws /\ assertion_written uid r d ws).
Proof.
  intros Hd Hq. unfold write_assertion. fold (assertion_of r d). fold (drops_assertion d).
  assert (Hw : forall ws, match assertion_of r d with
      | Some a => WSet q (assertion_data a) ∈ ws | None => drops_assertion d = true -> WDelete q ∈ ws end ->
    assertion_written uid r d ws) by (intros ws ?; by exists q).
  destruct (assertion_of r d) as [a|] eqn:Ea.
  - apply appends_write. split; [constructor; [by eapply lw_assertion|constructor]|]. apply Hw. set_solver.
  - destruct (drops_assertion d) eqn:Edr.
    + apply appends_write. split; [constructor; [by eapply lw_drop|constructor]|]. apply Hw. set_solver.
    + apply appends_ret. split; [constructor|by apply Hw].
Qed.

Lemma assertion_written_app uid r d ws1 ws ws2 : assertion_written uid r d ws -> assertion_written uid r d (ws1 ++ ws ++ ws2).
Proof. intros (p & Hp & H). exists p. split; [done|]. case_match; [|intros Hd; specialize (H Hd)]; set_solver. Qed.

(** What the write of one item leaves. *)
Definition item_written (uid : string) (r : ApplyResult) (d : item) (ws : list write) : Prop :=
  (exists p, item_ref uid (text_or d "memory_id") = Ok p /\ WSet p d ∈ ws) /\ assertion_written uid r d ws.

Lemma item_written_app uid r d ws ws1 ws2 : item_written uid r d ws -> item_written uid r d (ws1 ++ ws ++ ws2).
Proof. intros [(p & ? & ?) ?]. split; [exists p; set_solver|by apply assertion_written_app]. Qed.

Lemma write_item_appends uid op_ref r d :
  d ∈ memory_items r ->
  appends (write_item uid (control_state r) (graph_assertions r) d)
    (fun _ ws => result_kinds uid op_ref r ws /\ item_written uid r d ws).
Proof.
  intros Hd. unfold write_item.
  eapply appends_bind; [apply (appends_lift _ (fun p ws => item_ref uid (text_or d "memory_id") = Ok p /\ ws = [])); auto|].
  intros p ws [Hp ->]. eapply appends_bind; [apply (appends_write _ (fun _ ws => ws = [WSet p d])); done|].
  intros [] ws ->. eapply appends_bind;
    [apply (appends_lift _ (fun q ws => assertion_ref uid (text_or d "memory_id") = Ok q /\ ws = [])); auto|].
  intros q ws [Hq ->].
  assert (Hrest : forall ws1 ws2, assertion_written uid r d ws1 -> result_kinds uid op_ref r (ws1 ++ ws2) ->
    result_kinds uid op_ref r ([WSet p d] ++ ws1 ++ ws2) /\ item_written uid r d ([WSet p d] ++ ws1 ++ ws2)).
  { intros ws1 ws2 Hw Hk. split; [constructor; [by eapply lw_item|done]|]. split; [exists p; set_solver|].
    by apply assertion_written_app. }
  eapply appends_bind; [by eapply write_assertion_appends|]. intros [] ws [Hws Hw].
  eapply appends_bind; [apply (appends_lift _ (fun _ ws => ws = [])); done|].
  intros review ws2 ->. destruct review as [v|].
  + eapply appends_bind; [apply (appends_lift _ (fun q ws => memory_ref uid "memory_review_queue"
      (match dict_get "review_id" v with VStr s => s | _ => "" end) = Ok q /\ ws = [])); auto|].
    intros q' ws3 [Hq' ->]. apply appends_write. simpl. apply (Hrest ws); [done|]. apply result_kinds_app; [done|]. derived.
  + apply appends_ret. rewrite !app_nil_r. destruct (Hrest ws []) as [H1 H2]; rewrite ?app_nil_r in *; done.
Qed.

Lemma write_event_appends uid op_ref r e :
  e ∈ outbox_events r ->
  appends (write_event uid e)
    (fun _ ws => result_kinds uid op_ref r ws /\ exists p, outbox_ref uid (event_id e) = Ok p /\ WSet p (event_data e) ∈ ws).
Proof.
  intros He. unfold write_event.
  eapply appends_bind; [apply (appends_lift _ (fun q ws => outbox_ref uid (event_id e) = Ok q /\ ws = [])); auto|].
  intros q ws [Hq ->]. apply appends_write. split; [constructor; [by eapply lw_event|constructor]|]. exists q. set_solver.
Qed.

(** ** Writing a result *)
Lemma write_refusal_appends uid op_ref r :
  result_status r <> apply_committed ->
  appends (_write_apply_result uid op_ref r)
    (fun _ ws => ws = [WSet op_ref (operation_data (result_operation r))]).
Proof.
  intros Hr. unfold _write_apply_result.
  eapply appends_bind; [apply (appends_write _ (fun _ ws => ws = [WSet op_ref (operation_data (result_operation r))])); done|].
  intros [] ws ->. rewrite bool_decide_false by done. by apply appends_ret.
Qed.

Lemma write_result_appends uid op_ref r :
  result_status r = apply_committed ->
  appends (_write_apply_result uid op_ref r)
    (fun _ ws => complete_writes uid op_ref r ws /\ result_kinds uid op_ref r ws).
Proof.
  intros Hr. unfold _write_apply_result.
  eapply appends_bind; [apply (appends_write _ (fun _ ws => ws = [WSet op_ref (operation_data (result_operation r))])); done|].
  intros [] ws0 ->. rewrite bool_decide_true by done. cbn [negb]. cbv zeta.
  eapply appends_bind; [apply (appends_lift _ (fun p ws => control_ref uid = Ok p /\ ws = [])); auto|].
  intros cp ? [Hcp ->].
  eapply appends_bind; [apply (appends_lift _ (fun p ws => commit_ref uid (head_commit_id (control_state r)) = Ok p /\ ws = [])); auto|].
  intros mp ? [Hmp ->].
  eapply appends_bind; [apply (appends_lift _ (fun p ws => state_head_ref uid = Ok p /\ ws = [])); auto|].
  intros hp ? [Hhp ->].
  eapply appends_bind; [apply (appends_write _ (fun _ ws => ws = [WSet cp (control_data (control_state r))])); done|].
  intros [] ? ->.
  eapply appends_bind;
    [apply (appends_lift _ (fun d ws => _memory_state_head_from_control (control_state r) = Ok d /\ ws = [])); auto|].
  intros hd ? [Hhd ->].
  eapply appends_bind; [apply (appends_write _ (fun _ ws => ws = [WSet hp hd])); done|]. intros [] ? ->.
  eapply appends_bind;
    [apply (appends_write _ (fun _ ws => ws = [WSet mp (commit_doc (control_state r) (result_operation r))])); done|].
  intros [] ? ->.
  eapply appends_bind;
    [apply (appends_each _ _ (result_kinds uid op_ref r) (item_written uid r));
       [constructor|apply result_kinds_app|apply item_written_app|intros d Hd; by apply write_item_appends]|].
  intros [] wi [Hki Hni].
  eapply appends_weaken; [apply (appends_each _ _ (result_kinds uid op_ref r)
      (fun e ws => exists p, outbox_ref uid (event_id e) = Ok p /\ WSet p (event_data e) ∈ ws));
    [constructor|apply result_kinds_app|intros e ? ? ? (p & ? & ?); exists p; set_solver|
     intros e He; by apply write_event_appends]|].
  intros [] we [Hke Hne]. simpl. rewrite ?app_nil_r.
  assert (Hk : result_kinds uid op_ref r ([WSet op_ref (operation_data (result_operation r))] ++
    [WSet cp (control_data (control_state r))] ++ [WSet hp hd] ++
    [WSet mp (commit_doc (control_state r) (result_operation r))] ++ wi ++ we)).
  { repeat (constructor; [by econstructor|]). by apply result_kinds_app. }
  split; [|exact Hk]. split.
  - by apply result_only.
  - set_solver.
  - exists cp. split; [done|set_solver].
  - exists mp. split; [done|set_solver].
  - intros d Hd. destruct (Hni d Hd) as [(p & Hp & Hin) _]. exists p. split; [done|set_solver].
  - intros e He. destruct (Hne e He) as (p & Hp & Hin). exists p. split; [done|set_solver].
  - exists hp, hd. split_and!; [done..|set_solver].
  - intros d Hd. destruct (Hni d Hd) as [_ Hw].
    apply (assertion_written_app _ _ _ [_; _; _; _] wi we Hw).
Qed.

Lemma complete_writes_around uid op_ref r ws1 ws ws2 :
  only_kinds uid op_ref r ws1 -> complete_writes uid op_ref r ws -> only_kinds uid op_ref r ws2 ->
  complete_writes uid op_ref r (ws1 ++ ws ++ ws2).
Proof.
  intros Hw1 [Hk Ho (p & ? & ?) (q & ? & ?) Hi He (h & hd & ? & ? & ?) Ha] Hw2. split.
  - repeat apply only_kinds_app; done.
  - set_solver.
  - exists p. split; [done|set_solver].
  - exists q. split; [done|set_solver].
  - intros d Hd. destruct (Hi d Hd) as (i & ? & ?). exists i. split; [done|set_solver].
  - intros e Hine. destruct (He e Hine) as (i & ? & ?). exists i. split; [done|set_solver].
  - exists h, hd. split_and!; [done..|set_solver].
  - intros d Hd. by apply assertion_written_app, Ha.
Qed.

(** Paths that an earlier read computed. *)
Definition staged_paths (uid : string) (staged : list (path * value)) : Prop :=
  forall ref e, (ref, e) ∈ staged -> exists id, evidence_ref uid id = Ok ref.
Definition reopen_named (uid : string) (o : option path) : Prop :=
  forall p, o = Some p -> exists id, reopen_ref uid id = Ok p.
Definition feedback_named (uid : string) (o : option feedback_context) : Prop :=
  forall f, o = Some f -> (exists id, feedback_ref uid id = Ok (fb_receipt_ref f)) /\
    exists id, proactivity_ref uid id = Ok (fb_event_ref f).

(** The writes of the records that are staged. *)
Definition evidence_fields (e : value) : fields := fields_of (match e with VDict d => d | _ => [] end).
Definition staged_writes (staged : list (path * value)) : list write :=
  (fun '(ref, e) => WSet ref (evidence_fields e)) <$> staged.

Lemma staged_appends staged :
  appends (txn_each staged (fun '(ref, e) => txn_set ref (fields_of (match e with VDict d => d | _ => [] end))))
    (fun _ ws => ws = staged_writes staged).
Proof.
  induction staged as [|[ref e] staged IH]; simpl; [by apply appends_ret|].
  eapply appends_bind; [apply (appends_write _ (fun _ ws => ws = [WSet ref (evidence_fields e)])); done|].
  intros [] ? ->. eapply appends_weaken; [exact IH|]. by intros [] ws ->.
Qed.

Lemma staged_kinds uid op_ref r staged : staged_paths uid staged -> only_kinds uid op_ref r (staged_writes staged).
Proof.
  intros Hs. apply Forall_forall. intros w Hw. apply list_elem_of_fmap in Hw as ([ref e] & -> & Hin).
  destruct (Hs _ _ Hin) as [id Hid]. by eapply lw_evidence.
Qed.

Lemma review_appends uid op_ref r review review_item commit_id now :
  appends (_write_canonical_review_resolution uid review review_item commit_id now) (fun _ ws => result_kinds uid op_ref r ws).
Proof.
  unfold _write_canonical_review_resolution. destruct review as [v|]; [|apply appends_ret; constructor].
  eapply appends_bind; [apply (appends_lift _ (fun _ ws => ws = [])); done|]. intros d ? ->.
  eapply appends_bind; [apply (appends_lift _ (fun _ ws => ws = [])); done|]. intros st ? ->.
  eapply appends_bind;
    [apply (appends_lift _ (fun p ws => memory_ref uid "memory_review_queue" (review_id v) = Ok p /\ ws = [])); auto|].
  intros p ? [Hp ->].
  eapply appends_bind; [apply (appends_write _ (fun _ ws => result_kinds uid op_ref r ws)); derived|].
  intros [] ws Hws. simpl. destruct (correction_record v) as [record|];
    [|apply appends_ret; by rewrite app_nil_r].
  destruct (dict_get "correction_id" record); try (apply appends_lift; done).
  case_match; [apply appends_lift; done|].
  eapply appends_bind; [apply (appends_lift _ (fun p ws => correction_ref uid s = Ok p /\ ws = [])); auto|].
  intros q ? [Hq ->]. apply appends_write. apply result_kinds_app; [done|]. unfold correction_ref in Hq. derived.
Qed.

Lemma reopen_appends uid op_ref r rq o :
  reopen_named uid o -> appends (write_reopen rq o r) (fun _ ws => result_kinds uid op_ref r ws).
Proof.
  intros Ho. unfold write_reopen. destruct (rq_reopen rq); [|apply appends_ret; constructor].
  eapply appends_bind; [apply (appends_lift _ (fun p ws => o = Some p /\ ws = []))|].
  { intros p. destruct o; [|done]. by intros [= ->]. }
  intros p ? [Hp ->]. destruct (Ho p Hp) as [id Hid].
  eapply appends_bind; [apply (appends_lift _ (fun _ ws => ws = [])); done|]. intros d ? ->.
  case_match; [by apply appends_lift|]. apply appends_write. unfold reopen_ref in Hid. simpl. derived.
Qed.

Lemma feedback_appends uid op_ref r o :
  feedback_named uid o -> appends (write_feedback o r) (fun _ ws => result_kinds uid op_ref r ws).
Proof.
  intros Ho. unfold write_feedback. destruct o as [f|]; [|apply appends_ret; constructor].
  destruct (Ho f eq_refl) as [[i Hi] [j Hj]]. unfold feedback_ref in Hi. unfold proactivity_ref in Hj.
  eapply appends_bind; [apply (appends_lift _ (fun _ ws => ws = [])); done|]. intros d ? ->.
  eapply appends_bind; [apply (appends_write _ (fun _ ws => result_kinds uid op_ref r ws)); derived|].
  intros [] ws Hws. apply appends_write. simpl. apply result_kinds_app; [done|]. derived.
Qed.

(** What a run that returns [r] may have written. *)
Inductive outcome_writes (uid : string) (op_ref : path) (r : ApplyResult) : list write -> Prop :=
| wrote_nothing : result_status r <> apply_committed -> outcome_writes uid op_ref r []
| wrote_operation :
    result_status r <> apply_committed ->
    outcome_writes uid op_ref r [WSet op_ref (operation_data (result_operation r))]
| wrote_commit ws :
    result_status r = apply_committed -> complete_writes uid op_ref r ws -> outcome_writes uid op_ref r ws.

(** A commit writes the staged evidence, and nothing else of the evidence. *)
Definition stages_first (uid : string) (op_ref : path) (r : ApplyResult) (staged : list (path * value)) (ws : list write)
    : Prop :=
  exists more, ws = staged_writes staged ++ more /\ result_kinds uid op_ref r more.

Lemma outcome_appends rq op_ref staged review_item o fb r :
  staged_paths (rq_uid rq) staged -> reopen_named (rq_uid rq) o -> feedback_named (rq_uid rq) fb ->
  appends (write_outcome rq op_ref staged review_item o fb r)
    (fun r' ws => r' = r /\ outcome_writes (rq_uid rq) op_ref r ws /\
       (result_status r = apply_committed -> stages_first (rq_uid rq) op_ref r staged ws)).
Proof.
  intros Hs Ho Hf. unfold write_outcome. case_bool_decide as Hr.
  - eapply appends_bind; [by eapply staged_appends|]. intros [] ? ->.
    eapply appends_bind; [by apply write_result_appends|]. intros [] w2 [H2 K2].
    eapply appends_bind; [eapply (review_appends (rq_uid rq) op_ref r)|]. intros [] w3 H3.
    eapply appends_bind; [by eapply (reopen_appends (rq_uid rq) op_ref r)|]. intros [] w4 H4.
    eapply appends_bind; [by eapply (feedback_appends (rq_uid rq) op_ref r)|]. intros [] w5 H5.
    apply appends_ret. rewrite app_nil_r. split_and!; [done| |].
    + apply wrote_commit; [done|]. apply complete_writes_around; [by apply staged_kinds|done|].
      apply result_only. by repeat apply result_kinds_app.
    + intros _. eexists. split; [reflexivity|]. by repeat apply result_kinds_app.
  - eapply appends_bind; [by apply write_refusal_appends|]. intros [] ws ->.
    apply appends_ret. split_and!; [done|by apply wrote_operation|done].
Qed.

(** ** The reads *)

Lemma parse_snapshot_strict_Ok {A} (r : res A) a : parse_snapshot_strict r = Ok a -> r = Ok a.
Proof. unfold parse_snapshot_strict. destruct r as [|[]]; congruence. Qed.

Definition stored_control (s : db) (uid : string) (now : Z) (c : MemoryControlState) : Prop :=
  exists p d, control_ref uid = Ok p /\ s !! p = Some d /\ memory_control_state d now = Ok c.

(** The control state of an account, which has an initial one before its first write. *)
Definition control_at (s : db) (uid : string) (now : Z) (c : MemoryControlState) : Prop :=
  exists p, control_ref uid = Ok p /\
    match s !! p with Some d => memory_control_state d now = Ok c | None => c = initial_control uid now end.

Lemma stored_control_at s uid now c : stored_control s uid now c -> control_at s uid now c.
Proof. intros (p & d & Hp & Hd & Hc). exists p. by rewrite Hd. Qed.

Lemma read_control_valid d now c : memory_control_state d now = Ok c -> valid_control c = true.
Proof.
  unfold memory_control_state. intros H. do 19 (apply res_bind_Ok in H as (? & _ & H)). cbv zeta in H.
  destruct (valid_control _) eqn:Hv; [|done]. by injection H as <-.
Qed.

Lemma initial_reads uid p now :
  control_ref uid = Ok p ->
  reads (control_or_initial uid p now) (fun s c => control_at s uid now c /\ valid_control c = true).
Proof.
  intros Hp. unfold control_or_initial. reads_step. case_match.
  - apply reads_lift. intros s c Hc%parse_snapshot_strict_Ok Hs. split; [|by eapply read_control_valid].
    exists p. by rewrite <-Hs.
  - case_match; [|by apply reads_lift]. apply reads_ret. intros s Hs. split; [|done]. exists p. by rewrite <-Hs.
Qed.

Lemma read_control_reads p now :
  reads (read_control p now) (fun s c => exists d, s !! p = Some d /\ memory_control_state d now = Ok c).
Proof.
  unfold read_control. reads_step. case_match; [|by apply reads_lift].
  apply reads_lift. intros s c Hc%parse_snapshot_strict_Ok Hd. eauto.
Qed.

(** The operation a request works on: the stored one, or else the proposed. *)
Definition request_operation (s : db) (rq : apply_request) (now : Z) (op_ref : path) (op : MemoryOperation) : Prop :=
  op_uid op = rq_uid rq /\ operation_id op = rq_operation_id rq /\
  match s !! op_ref with
  | Some d => read_operation d now = Ok op
  | None => rq_proposed_operation rq = Some op
  end.

Lemma read_operation_reads rq now p :
  operation_ref (rq_uid rq) (rq_operation_id rq) = Ok p ->
  reads (_read_operation rq now) (fun s op => request_operation s rq now p op).
Proof.
  intros Hp. unfold _read_operation. rewrite Hp.
  eapply (reads_bind _ _ (fun _ a => a = p)); [apply reads_lift; congruence|]. intros q.
  reads_step. rename a into snapshot.
  eapply (reads_bind _ _ (fun _ op => match snapshot with
    | Some d => read_operation d now = Ok op | None => rq_proposed_operation rq = Some op end)).
  - destruct snapshot; [apply reads_lift; intros ? ? H; by apply parse_snapshot_strict_Ok in H|].
    destruct (rq_proposed_operation rq); [by apply reads_ret|by apply reads_lift].
  - intros op. case_match; [by apply reads_lift|]. case_match; [by apply reads_lift|].
    apply reads_ret. intros s Hop Hsn Hq. py_bools. repeat case_bool_decide; try done.
    unfold request_operation. split_and!; [done..|]. subst. exact Hop.
Qed.

Lemma gate_reads uid now :
  reads (assert_no_destructive_operation_transaction uid now)
    (fun s _ => exists p, gate_ref uid = Ok p /\ _gate_blocks (s !! p) now = false).
Proof.
  unfold assert_no_destructive_operation_transaction. do 3 reads_step. case_match; [by apply reads_lift|].
  apply reads_ret. intros s Hg -> Hp. apply validated_gate_Ok in Hg as ->. eauto.
Qed.

Lemma deletion_reads uid :
  reads (_account_deletion_fence uid)
    (fun s _ => exists p, account_ref uid = Ok p /\ account_deletion_blocks_access (account_status (s !! p)) = false).
Proof.
  unfold _account_deletion_fence. do 2 reads_step. case_match; [by apply reads_lift|].
  apply reads_ret. intros s -> Hp. eauto.
Qed.

Lemma feedback_reads uid o : reads (_read_trigger_feedback uid o) (fun _ fb => feedback_named uid fb).
Proof.
  unfold _read_trigger_feedback. destruct o as [r|]; [|by apply reads_ret].
  case_match; [by apply reads_lift|]. do 2 reads_step.
  eapply (reads_bind _ _ (fun _ _ => True)).
  { case_match; [|by apply reads_ret]. reads_step. case_match; [by apply reads_lift|by apply reads_ret]. }
  intros ex. do 2 reads_step. case_match; [|by apply reads_lift]. reads_step.
  case_match; [|by apply reads_lift]. apply reads_ret. intros s _ _ Hev _ _ Hrc f [= <-]. simpl. eauto.
Qed.

Lemma review_reads uid o : reads (_read_canonical_review_resolution uid o) (fun _ _ => True).
Proof.
  unfold _read_canonical_review_resolution. destruct o as [r|]; [|by apply reads_ret].
  repeat first [reads_step | case_match]; done.
Qed.

Lemma reopen_reads rq c op :
  reads (_check_reopen rq c op)
    (fun _ r => match r with inl r => r = refused source_not_active c op | inr o => reopen_named (rq_uid rq) o end).
Proof.
  unfold _check_reopen. repeat first [reads_step | case_match]; try done; simplify_eq/=; try done.
  intros p [= <-]. eauto.
Qed.

Lemma usable_reads uid l : reads (source_evidence_usable uid l) (fun _ _ => True).
Proof.
  induction l as [|x l IH]; simpl; [by apply reads_ret|]. do 2 reads_step.
  case_match; [|by apply reads_ret]. reads_step.
  case_match; [|by apply reads_ret]. eapply reads_weaken; [exact IH|]. by intros.
Qed.

Lemma source_reads uid expected op c reopen :
  reads (_validate_required_ledger_source uid expected op c reopen)
    (fun _ o => forall r, o = Some r -> r = refused source_not_active c op).
Proof.
  unfold _validate_required_ledger_source. destruct expected; [|by apply reads_ret]. do 2 reads_step.
  case_match; [|apply reads_ret; by intros ? ? ? ? [= <-]]. reads_step.
  case_match; [apply reads_ret; by intros ? ? ? ? ? [= <-]|].
  case_match; [|by apply reads_ret]. case_match; [apply reads_ret; by intros ? ? ? ? ? [= <-]|].
  eapply reads_bind; [apply usable_reads|]. intros []; apply reads_ret; intros; by simplify_eq.
Qed.

(** The evidence of an operation: the stored record of each name or, where none is
    stored, the proposed one, which is then staged. *)
Fixpoint stored_evidence (s : db) (uid : string) (ids : list string) (proposed : list value)
    : res (list value * list (path * value)) :=
  match ids with
  | [] => Ok ([], [])
  | id :: ids' =>
      ref ← evidence_ref uid id;
      '(e, staged) ← match s !! ref, proposed_named proposed id with
        | Some d, _ => e ← parse_evidence d; Ok (e, [])
        | None, Some e => Ok (e, [(ref, e)])
        | None, None => Raise MissingMemoryDocument
        end;
      '(es, more) ← stored_evidence s uid ids' proposed;
      Ok (e :: es, staged ++ more)
  end.

Lemma stage_reads uid ids proposed :
  reads (stage_evidence uid ids proposed) (fun s r => stored_evidence s uid ids proposed = Ok r).
Proof.
  induction ids as [|id ids IH]; simpl; [by apply reads_ret|]. do 2 reads_step. rename a into p, a0 into snapshot.
  eapply (reads_bind _ _ (fun _ r => match snapshot, proposed_named proposed id with
    | Some d, _ => e ← parse_evidence d; Ok (e, []) | None, Some e => Ok (e, [(p, e)])
    | None, None => Raise MissingMemoryDocument end = Ok r)).
  { repeat first [reads_step | case_match]; simplify_eq/=; try done;
      match goal with H : parse_evidence _ = Ok _ |- _ => by rewrite H end. }
  intros [e staged]. eapply reads_bind; [exact IH|]. intros [es more]. apply reads_ret.
  intros s Hm He Hs Hp. simpl. rewrite Hp. simpl. rewrite <-Hs, He. simpl. by rewrite Hm.
Qed.

(** The staged records: the proposed ones of the names that have no document. *)
Lemma stored_evidence_staged s uid ids proposed es staged :
  stored_evidence s uid ids proposed = Ok (es, staged) ->
  (forall id p e, id ∈ ids -> evidence_ref uid id = Ok p -> s !! p = None -> proposed_named proposed id = Some e ->
     (p, e) ∈ staged) /\
  (forall p e, (p, e) ∈ staged -> exists id, evidence_ref uid id = Ok p /\ proposed_named proposed id = Some e).
Proof.
  revert es staged. induction ids as [|id ids IH]; simpl; intros es staged H.
  { injection H as <- <-. split; [by intros ? ? ? ?%elem_of_nil|by intros ? ? ?%elem_of_nil]. }
  apply res_bind_Ok in H as (p & Hp & H). apply res_bind_Ok in H as ([e st] & Hs & H).
  apply res_bind_Ok in H as ([es' more] & Hm & H). injection H as <- <-. destruct (IH _ _ Hm) as [Hin Hall]. split.
  - intros i q x [->|Hi]%elem_of_cons Hq Hn Hx; apply elem_of_app; [left|right; by eapply Hin].
    assert (q = p) as -> by congruence. rewrite Hn, Hx in Hs. injection Hs as <- <-. set_solver.
  - intros q x [Hx|Hx]%elem_of_app; [|by eapply Hall]. exists id.
    destruct (s !! p); [apply res_bind_Ok in Hs as (? & _ & [= <- <-]); by apply elem_of_nil in Hx|].
    destruct (proposed_named proposed id) eqn:En; [injection Hs as <- <-|done].
    by apply list_elem_of_singleton in Hx as [= -> ->].
Qed.

Lemma stored_evidence_paths s uid ids proposed r : stored_evidence s uid ids proposed = Ok r -> staged_paths uid r.2.
Proof.
  destruct r as [es staged]. intros H p e Hin. destruct (stored_evidence_staged _ _ _ _ _ _ H) as [_ Hall].
  destruct (Hall _ _ Hin) as (id & ? & _). by exists id.
Qed.

Lemma evidence_reads uid ids proposed :
  reads (_read_or_stage_authoritative_evidence uid ids proposed)
    (fun s r => stored_evidence s uid ids (default [] proposed) = Ok r).
Proof.
  unfold _read_or_stage_authoritative_evidence. cbv zeta.
  repeat case_match; try (by apply reads_lift); apply stage_reads.
Qed.

(** An item of the snapshot that an operation may change. *)
Definition live_at (s : db) (uid : string) (op : MemoryOperation) (c : MemoryControlState) (id : string) : Prop :=
  exists p raw d, item_ref uid id = Ok p /\ s !! p = Some raw /\ memory_item raw = Ok d /\ live_target op c d = true.

Lemma targets_reads uid op c ids :
  reads (validate_targets uid op c ids)
    (fun s o => match o with
                | Some r => r = refused target_not_active c op
                | None => forall id, id ∈ ids -> live_at s uid op c id
                end).
Proof.
  induction ids as [|id ids IH]; simpl; [apply reads_ret; by intros ? ? ?%elem_of_nil|]. do 2 reads_step.
  case_match; [|by apply reads_ret]. reads_step. case_match; [|by apply reads_ret].
  eapply reads_weaken; [exact IH|]. intros s o Ho Hd Hs Hp. destruct o; [exact Ho|].
  intros i [->|Hi]%elem_of_cons; [|by apply Ho]. unfold parse_item in Hd. apply parse_snapshot_strict_Ok in Hd.
  eexists _, _, _. split_and!; eauto.
Qed.

(** An item read from the document [id]. *)
Definition item_at (s : db) (uid id : string) (d : item) : Prop :=
  exists p raw, item_ref uid id = Ok p /\ s !! p = Some raw /\ memory_item raw = Ok d.

(** The identifier that an update works on. *)
Definition update_target (op : MemoryOperation) : option string :=
  if given (lp_target_memory_id (logical_payload op)) then lp_target_memory_id (logical_payload op)
  else target_memory_id op.

(** The row of an identifier, if it has one. *)
Definition stored_item (s : db) (uid id : string) : res (option item) :=
  ref ← item_ref uid id;
  match s !! ref with
  | None => Ok None
  | Some raw => d ← memory_item raw; Ok (Some d)
  end.

Lemma stored_item_at s uid id d : stored_item s uid id = Ok (Some d) -> item_at s uid id d.
Proof.
  unfold stored_item. intros H. apply res_bind_Ok in H as (p & Hp & H). destruct (s !! p) as [raw|] eqn:E; [|done].
  apply res_bind_Ok in H as (x & Hx & [= ->]). by exists p, raw.
Qed.

Lemma stored_item_none s uid id p : stored_item s uid id = Ok None -> item_ref uid id = Ok p -> s !! p = None.
Proof.
  unfold stored_item. intros H Hp. rewrite Hp in H. simpl in H. destruct (s !! p); [|done].
  by apply res_bind_Ok in H as (x & _ & [=]).
Qed.

(** The row that an update works on. *)
Definition stored_target (s : db) (uid : string) (op : MemoryOperation) : res (option item) :=
  match update_target op with
  | Some id => if bool_decide (lp_decision (logical_payload op) = "update" /\ id <> "") then stored_item s uid id else Ok None
  | None => Ok None
  end.

Lemma target_reads uid op :
  reads (_read_authoritative_target_item uid op) (fun s o => stored_target s uid op = Ok o).
Proof.
  unfold _read_authoritative_target_item, stored_target. cbv zeta. fold (update_target op).
  destruct (bool_decide (lp_decision _ = "update")) eqn:Hu; cbn [negb];
    [apply bool_decide_eq_true in Hu|apply bool_decide_eq_false in Hu; apply reads_ret; intros s;
      case_match; [by rewrite bool_decide_false by (by intros [? _])|done]].
  destruct (update_target op) as [id|]; [|by apply reads_ret].
  case_bool_decide; [apply reads_ret; intros s; by rewrite bool_decide_false by (by intros [_ ?])|].
  rewrite bool_decide_true by done. do 2 reads_step. unfold stored_item. case_match.
  - reads_step. apply reads_ret. intros s Hd%parse_snapshot_strict_Ok Hs Hp. rewrite Hp. simpl. rewrite <-Hs. by rewrite Hd.
  - apply reads_ret. intros s Hs Hp. rewrite Hp. simpl. by rewrite <-Hs.
Qed.

(** The target of an update is read whenever its document is there. *)
Definition target_found (s : db) (uid : string) (op : MemoryOperation) (o : option item) : Prop :=
  match o with
  | Some d => exists id, update_target op = Some id /\ id <> "" /\ item_at s uid id d
  | None => forall id p, lp_decision (logical_payload op) = "update" -> update_target op = Some id -> id <> "" ->
      item_ref uid id = Ok p -> s !! p = None
  end.

Lemma stored_target_found s uid op o : stored_target s uid op = Ok o -> target_found s uid op o.
Proof.
  unfold stored_target. intros H. destruct (update_target op) as [id|] eqn:Et.
  - case_bool_decide as Hb.
    + destruct o as [d|]; simpl; [exists id; split_and!; [done|apply Hb|by apply stored_item_at]|].
      intros i p _ Hi _ Hp. assert (i = id) as -> by congruence. by eapply stored_item_none.
    + injection H as <-. intros i p Hu Hi Hne _. exfalso. apply Hb. split; [done|congruence].
  - injection H as <-. intros i p _ Hi. congruence.
Qed.

(** The rows of a list of identifiers, those there are. *)
Fixpoint stored_items (s : db) (uid : string) (ids : list string) : res (list item) :=
  match ids with
  | [] => Ok []
  | id :: ids' =>
      o ← stored_item s uid id;
      l ← stored_items s uid ids';
      Ok (match o with Some d => d :: l | None => l end)
  end.

Lemma items_reads uid ids : reads (read_items uid ids) (fun s l => stored_items s uid ids = Ok l).
Proof.
  induction ids as [|id ids IH]; simpl; [by apply reads_ret|].
  do 2 reads_step. unfold stored_item. case_match.
  - reads_step. eapply reads_bind; [exact IH|]. intros l. apply reads_ret.
    intros s Hl Hd%parse_snapshot_strict_Ok Hs Hp. rewrite Hp. simpl. rewrite <-Hs, Hd. simpl. by rewrite Hl.
  - eapply reads_weaken; [exact IH|]. intros s l Hl Hs Hp. rewrite Hp. simpl. rewrite <-Hs. simpl. by rewrite Hl.
Qed.

(** The items read of a list of identifiers: all whose documents are there. *)
Definition items_found (s : db) (uid : string) (ids : list string) (l : list item) : Prop :=
  (forall d, d ∈ l -> exists id, id ∈ ids /\ item_at s uid id d) /\
  (l = [] -> forall id p, id ∈ ids -> item_ref uid id = Ok p -> s !! p = None).

Lemma stored_items_found s uid ids l : stored_items s uid ids = Ok l -> items_found s uid ids l.
Proof.
  revert l. induction ids as [|id ids IH]; simpl; intros l H.
  { injection H as <-. split; [by intros ? ?%elem_of_nil|by intros _ ? ? ?%elem_of_nil]. }
  apply res_bind_Ok in H as (o & Ho & H). apply res_bind_Ok in H as (l' & Hl & H). destruct (IH _ Hl) as [Hin Hn].
  assert (Hrest : forall d, d ∈ l' -> exists i, i ∈ id :: ids /\ item_at s uid i d).
  { intros d Hd. destruct (Hin d Hd) as (i & ? & ?). exists i. split; [set_solver|done]. }
  destruct o as [d|]; injection H as <-; split.
  - intros x [->|Hx]%elem_of_cons; [|by apply Hrest]. exists id. split; [set_solver|by apply stored_item_at].
  - done.
  - exact Hrest.
  - intros E i p [->|Hi]%elem_of_cons Hq; [by eapply stored_item_none|by eapply Hn].
Qed.

(** A committed add with a name found neither a row nor a receipt of that name. *)
Definition fresh_name (s : db) (uid : string) (payload : fields) (op : MemoryOperation) : Prop :=
  forall id, lp_decision (logical_payload op) = "add" -> doc_get payload "new_memory_id" = VStr id -> nonblank id = true ->
  exists p i q, item_ref uid id = Ok p /\ s !! p = None /\
    privacy_deletion_receipt_id uid id = Ok i /\ deletion_receipt_ref uid i = Ok q /\ s !! q = None.

Lemma collision_reads rq c op r :
  reads (_check_collision rq c op r)
    (fun s r' => (r' = r /\ (result_status r = apply_committed -> fresh_name s (rq_uid rq) (rq_patch_payload rq) op))
                 \/ r' = refused invalid_patch c op).
Proof.
  unfold _check_collision. case_match eqn:Eb.
  - apply andb_true_iff in Eb as [Hr Hadd]. destruct (doc_get (rq_patch_payload rq) "new_memory_id") eqn:En;
      try (apply reads_ret; intros s; left; split; [done|]; intros _ id _ E; congruence).
    destruct (nonblank s) eqn:Enb; simpl;
      [|apply reads_ret; intros s'; left; split; [done|]; intros _ id _ E ?; congruence].
    do 3 reads_step. unfold exists_doc.
    eapply (reads_bind _ _ (fun s b => b = match s !! a1 with Some _ => true | None => false end));
      [by do 2 reads_step; intros; subst|]. intros []; [apply reads_ret; by right|].
    eapply (reads_bind _ _ (fun s b => b = match s !! a with Some _ => true | None => false end));
      [by do 2 reads_step; intros; subst|]. intros []; [apply reads_ret; by right|].
    apply reads_ret. intros sn Hi Hd Hq Hrid Hp. left. split; [done|]. intros _ id _ E _.
    assert (id = s) as -> by congruence. exists a, a0, a1. split_and!; [done| |done..|].
    + by destruct (sn !! a).
    + by destruct (sn !! a1).
  - apply reads_ret. intros s. left. split; [done|]. intros Hr id Hd. exfalso.
    rewrite bool_decide_true in Eb by done. by rewrite bool_decide_true in Eb.
Qed.

(** ** A whole run *)

(** What a run that commits found in the snapshot: the patch was applied, on the
    evidence [es], the target [existing] and the superseded items [ss]. *)
Record commit_facts (s : db) (rq : apply_request) (now : Z) (c : MemoryControlState) (op : MemoryOperation)
    (r r0 : ApplyResult) (es : list value) (existing : option item) (ss : list item) : Prop := {
  cf_apply : apply_long_term_patch_transaction c op (authoritative_payload (rq_patch_payload rq) es existing ss)
      (if rq_feedback rq then true else false) now = Ok r0;
  cf_committed : result_status r0 = apply_committed;
  cf_counted : r = count_migration rq op r0;
  cf_fresh : fresh_name s (rq_uid rq) (rq_patch_payload rq) op;
  cf_targets : forall id, id ∈ _operation_target_ids op -> live_at s (rq_uid rq) op c id;
  cf_evidence : exists staged,
    stored_evidence s (rq_uid rq) (evidence_ids op) (default [] (rq_proposed_evidence rq)) = Ok (es, staged);
  cf_existing : stored_target s (rq_uid rq) op = Ok existing;
  cf_superseded : stored_items s (rq_uid rq) (lp_supersedes (logical_payload op)) = Ok ss
}.

Lemma count_migration_status rq op r : result_status (count_migration rq op r) = result_status r.
Proof. unfold count_migration. by case_match. Qed.

Lemma count_migration_refused rq op r : result_status r <> apply_committed -> count_migration rq op r = r.
Proof. intros H. unfold count_migration. by rewrite bool_decide_false. Qed.

(** A committed operation is refused as it is. *)
Lemma committed_refused c op raw allow now r :
  apply_long_term_patch_transaction c op raw allow now = Ok r -> op_status op = committed ->
  result_status r <> apply_committed /\ result_operation r = op.
Proof.
  intros H Hc. unfold apply_long_term_patch_transaction in H.
  apply res_bind_Ok in H as (ev & _ & H). destruct (durable_memory_patch _); [|by injection H as <-].
  case_match; [by injection H as <-|]. case_match; [by injection H as <-|].
  apply res_bind_Ok in H as (dg & _ & H). rewrite decide_True in H by done. case_match; by injection H as <-.
Qed.

(** What a part of a run promises of the result it returns. *)
Record promised (s : db) (rq : apply_request) (now : Z) (op_ref : path) (c : MemoryControlState)
    (op : MemoryOperation) (r : ApplyResult) (ws : list write) : Prop := {
  pr_writes : outcome_writes (rq_uid rq) op_ref r ws;
  pr_final : op_status op = committed -> result_status r <> apply_committed /\ result_operation r = op;
  pr_commit : result_status r = apply_committed -> exists r0 es existing ss, commit_facts s rq now c op r r0 es existing ss;
  pr_staged : result_status r = apply_committed -> exists es staged,
    stored_evidence s (rq_uid rq) (evidence_ids op) (default [] (rq_proposed_evidence rq)) = Ok (es, staged) /\
    stages_first (rq_uid rq) op_ref r staged ws
}.

Lemma refused_promised s rq now op_ref c op st ws :
  st <> apply_committed -> outcome_writes (rq_uid rq) op_ref (refused st c op) ws ->
  promised s rq now op_ref c op (refused st c op) ws.
Proof. by split. Qed.

(** A refusal that writes the operation. *)
Lemma refusal_runs rq op_ref r s (Q : ApplyResult -> list write -> Prop) :
  result_status r <> apply_committed ->
  Q r [WSet op_ref (operation_data (result_operation r))] ->
  runs (_write_apply_result (rq_uid rq) op_ref r;; mret r) Q s [].
Proof.
  intros Hr HQ. apply runs_bind. eapply runs_weaken; [by apply write_refusal_appends|].
  intros [] ws (ws2 & -> & ->). by apply runs_ret.
Qed.

Lemma apply_authoritative_runs rq op_ref c op review_item o fb now s :
  reopen_named (rq_uid rq) o -> feedback_named (rq_uid rq) fb ->
  runs (apply_authoritative rq op_ref c op review_item o fb now) (promised s rq now op_ref c op) s [].
Proof.
  intros Ho Hf. unfold apply_authoritative.
  eapply runs_reads; [apply evidence_reads|]. intros [es staged] Hev.
  pose proof (stored_evidence_paths _ _ _ _ _ Hev) as Hstaged. simpl in Hstaged.
  eapply runs_reads; [apply targets_reads|]. intros [r|] Ht.
  { subst r. apply refusal_runs; [done|]. apply refused_promised; [done|]. by apply wrote_operation. }
  eapply runs_reads; [apply target_reads|]. intros existing He.
  eapply runs_reads; [by apply (reads_lift _ (fun _ _ => True))|]. intros [] _.
  case_match; [apply runs_ret; apply refused_promised; [done|by apply wrote_nothing]|].
  eapply runs_reads; [by apply (reads_lift _ (fun _ _ => True))|]. intros [] _.
  eapply runs_reads; [apply items_reads|]. intros ss Hss.
  eapply runs_reads; [apply (reads_lift _ (fun _ r0 => apply_long_term_patch_transaction c op
    (authoritative_payload (rq_patch_payload rq) es existing ss) (if rq_feedback rq then true else false) now = Ok r0)); auto|].
  intros r0 Hr0. eapply runs_reads; [apply collision_reads|]. intros r1 Hr1.
  eapply runs_weaken; [by apply outcome_appends|]. intros r ws (ws2 & -> & -> & Hw & Hws). simpl.
  destruct Hr1 as [[-> Hfresh]| ->].
  - split; [done| | |by exists es, staged; auto].
    + intros Hc. destruct (committed_refused _ _ _ _ _ _ Hr0 Hc) as [Hn Hop].
      rewrite count_migration_refused by done. done.
    + intros Hc. rewrite count_migration_status in Hc. exists r0, es, existing, ss.
      split; eauto.
  - rewrite count_migration_refused in * by done. by apply refused_promised.
Qed.

(** A run of the transaction on the snapshot [s] that returns [r]: the control state
    [c] and the operation [op] it worked on, and what it wrote. *)
Record apply_run (s : db) (rq : apply_request) (now : Z) (r : ApplyResult) (ws : list write) (op_ref : path)
    (c : MemoryControlState) (op : MemoryOperation) : Prop := {
  ar_path : operation_ref (rq_uid rq) (rq_operation_id rq) = Ok op_ref;
  ar_stored : stored_control s (rq_uid rq) now c;
  ar_request : request_operation s rq now op_ref op;
  ar_gate : exists p, gate_ref (rq_uid rq) = Ok p /\ _gate_blocks (s !! p) now = false;
  ar_account : exists p, account_ref (rq_uid rq) = Ok p /\ account_deletion_blocks_access (account_status (s !! p)) = false;
  ar_promised : promised s rq now op_ref c op r ws
}.

Lemma apply_transaction_runs rq now s :
  runs (_apply_long_term_patch_firestore_transaction rq now)
    (fun r ws => exists op_ref c op, apply_run s rq now r ws op_ref c op) s [].
Proof.
  unfold _apply_long_term_patch_firestore_transaction. cbv zeta.
  eapply runs_reads; [apply gate_reads|]. intros [] Hgate.
  eapply runs_reads; [apply deletion_reads|]. intros [] Haccount.
  eapply runs_reads; [apply feedback_reads|]. intros fb Hfb.
  eapply runs_reads; [apply review_reads|]. intros review_item _.
  eapply runs_reads; [apply (reads_lift _ (fun _ p => control_ref (rq_uid rq) = Ok p)); auto|]. intros cp Hcp.
  eapply runs_reads; [apply (reads_lift _ (fun _ p => operation_ref (rq_uid rq) (rq_operation_id rq) = Ok p)); auto|].
  intros op_ref Hop_ref.
  eapply runs_reads; [apply read_control_reads|]. intros c (d & Hd & Hc).
  eapply runs_reads; [by apply (read_operation_reads rq now op_ref)|]. intros op Hop.
  eapply runs_reads; [apply (reads_lift _ (fun _ r0 =>
    apply_long_term_patch_transaction c op (rq_patch_payload rq) false now = Ok r0)); auto|]. intros replay Hreplay.
  assert (Hstored : stored_control s (rq_uid rq) now c) by (exists cp, d; done).
  assert (Hfinish : forall r ws, promised s rq now op_ref c op r ws ->
    exists op_ref c op, apply_run s rq now r ws op_ref c op) by (intros; exists op_ref, c, op; by split).
  assert (Hreplayed : forall st ws, result_status replay = st -> st <> apply_committed ->
    outcome_writes (rq_uid rq) op_ref replay ws -> promised s rq now op_ref c op replay ws).
  { intros st ws Hst Hne Hw. split; [done| |congruence..]. intros H.
    by destruct (committed_refused _ _ _ _ _ _ Hreplay H). }
  case_bool_decide as Hskip.
  { assert (Hdone : runs (mret replay) (fun r ws => exists op_ref c op, apply_run s rq now r ws op_ref c op) s []).
    { apply runs_ret, Hfinish, (Hreplayed _ _ Hskip); [done|]. apply wrote_nothing. by rewrite Hskip. }
    destruct (rq_review rq); [by apply runs_lift|]. destruct fb as [f|]; [|done].
    destruct (fb_existing f); [done|by apply runs_lift]. }
  case_bool_decide as Hmismatch.
  { apply runs_ret, Hfinish, (Hreplayed _ _ Hmismatch); [done|]. apply wrote_nothing. by rewrite Hmismatch. }
  unfold stage. eapply runs_reads; [apply reopen_reads|]. intros [r|o] Hr.
  { subst r. apply runs_ret, Hfinish, refused_promised; [done|]. by apply wrote_nothing. }
  eapply runs_reads; [apply source_reads|]. intros [r|] Hs.
  { rewrite (Hs r eq_refl). apply runs_ret, Hfinish, refused_promised; [done|]. by apply wrote_nothing. }
  case_bool_decide as Hstale.
  - assert (Hne : result_status replay <> apply_committed) by (by destruct Hstale as [-> | ->]).
    apply refusal_runs; [done|]. apply Hfinish, (Hreplayed _ _ eq_refl); [done|]. by apply wrote_operation.
  - eapply runs_weaken; [by apply apply_authoritative_runs|]. auto.
Qed.

(** The public call. *)
Lemma apply_store_run mode rq now s r s' :
  apply_long_term_patch_firestore mode rq now s = Ok (r, s') ->
  exists ws op_ref c op, apply_run s rq now r ws op_ref c op /\ commit ws s = Some s'.
Proof.
  unfold apply_long_term_patch_firestore. intros H. apply res_bind_Ok in H as ([] & _ & H).
  destruct (run_txn_runs _ _ _ _ _ (apply_transaction_runs rq now s) H) as (ws & (op_ref & c & op & Hrun) & Hc).
  by exists ws, op_ref, c, op.
Qed.
End Proofs.
