(* ===== verification/MemoryPrivacyProofs.v ===== *)
(** * What one privacy deletion reads and writes

    A tombstone transaction commits one result of the ledger, whose items were live
    rows of the account, under a gate that it asserted, and leaves a receipt for
    every item. *)

From S2P Require Import Prelude PyValue Firestore LegalHolds LegalHoldProofs Sha256 MemoryText MemoryOperations MemoryModels MemoryPromotion MemoryApply MemoryRecords MemoryReceipts MemoryStore MemoryPrivacy MemoryProofs MemoryItemProofs MemoryStoreProofs.
From Stdlib Require Import QArith_base Ascii.
Local Open Scope Z_scope.

Section Proofs.
Context {T : TextEnv} {Md : ModelEnv} {St : StoreEnv}.

(** ** Reads *)
Lemma exists_reads p : reads (exists_doc p) (fun s b => b = match s !! p with Some _ => true | None => false end).
Proof. unfold exists_doc. do 2 reads_step. by subst. Qed.

Lemma assert_gate_reads uid kind token :
  reads (assert_destructive_operation_transaction uid kind token) (fun s _ => ~ held uid s).
Proof.
  unfold assert_destructive_operation_transaction. do 6 reads_step.
  assert (Hno : forall s, a1 = s !! a -> _assert_hold_inactive a1 = Ok a2 -> hold_ref uid = Ok a -> ~ held uid s).
  { intros s -> Hok Hhp (q & h & Hq & Hheld & Ha). assert (q = a) as -> by congruence.
    rewrite Hheld in Hok. destruct a2. by eapply hold_refuses. }
  destruct a4; [|by apply reads_lift]. case_match; [|by apply reads_lift].
  apply reads_ret. eauto.
Qed.

Lemma read_evidence_reads uid embedded seen : reads (read_evidence_of uid embedded seen) (fun _ _ => True).
Proof.
  revert seen. induction embedded as [|e embedded IH]; intros seen; simpl; [by apply reads_ret|].
  case_match; [apply IH|]. do 2 reads_step. case_match; [|by apply reads_lift]. reads_step.
  eapply reads_weaken; [apply IH|]. by intros.
Qed.

(** The rows of a deletion: read from the documents of its items, not yet gone. *)
Definition deletable (s : db) (uid : string) (ids : list string) (d : item) : Prop :=
  exists id, id ∈ ids /\ item_at s uid id d /\ v_is (doc_get d "status") "tombstoned" = false.

Lemma tombstone_items_reads uid expected ids seen :
  reads (read_tombstone_items uid expected ids seen)
    (fun s r => Forall2 (fun id d => item_at s uid id d /\ v_is (doc_get d "status") "tombstoned" = false) ids r.1).
Proof.
  revert seen. induction ids as [|id ids IH]; intros seen; simpl; [apply reads_ret; constructor|]. do 2 reads_step.
  case_match; [|by apply reads_lift]. case_match; [|by apply reads_lift]. reads_step.
  case_match eqn:Hu; [by apply reads_lift|].
  eapply reads_bind; [apply read_evidence_reads|]. intros seen'.
  eapply reads_bind; [apply IH|]. intros [items seen'']. apply reads_ret.
  intros s Hrest _ Hd Hs Hp. simpl in *. constructor; [|exact Hrest].
  unfold parse_item in Hd. apply parse_snapshot_strict_Ok in Hd. split.
  - eexists _, _. eauto.
  - apply negb_false_iff in Hu. unfold item_unchanged in Hu. apply andb_true_iff in Hu as [Hu _].
    apply andb_true_iff in Hu as [_ Hu]. by apply negb_true_iff in Hu.
Qed.

(** ** The committed result *)
(** [d'] is the row [d] without its content. *)
Definition scrubbed_row (d d' : item) : Prop :=
  doc_get d' "memory_id" = doc_get d "memory_id" /\ doc_get d' "status" = VStr "tombstoned" /\
  doc_get d' "content" = VNone /\ doc_get d' "content_hash" = VNone.

(** The receipt of a deleted item, among the writes [ws]. *)
Definition receipt_written (uid : string) (ws : list write) (d : item) : Prop :=
  exists id p receipt, privacy_deletion_receipt_id uid (text_or d "memory_id") = Ok id /\
    deletion_receipt_ref uid id = Ok p /\ WSet p receipt ∈ ws.

Lemma receipt_appends uid op_ref r c now d :
  appends (write_receipt uid c now d) (fun _ ws => only_kinds uid op_ref r ws /\ receipt_written uid ws d).
Proof.
  unfold write_receipt.
  eapply appends_bind;
    [apply (appends_lift _ (fun id ws => privacy_deletion_receipt_id uid (text_or d "memory_id") = Ok id /\ ws = [])); auto|].
  intros id ? [Hid ->].
  eapply appends_bind; [apply (appends_lift _ (fun p ws => deletion_receipt_ref uid id = Ok p /\ ws = [])); auto|].
  intros p ? [Hp ->].
  eapply appends_bind; [apply (appends_lift _ (fun _ ws => ws = [])); done|]. intros receipt ? ->.
  apply appends_write. simpl. split.
  - unfold deletion_receipt_ref in Hp. apply result_only. eapply lw_derived_set; [|eassumption]. unfold derived_collections. set_solver.
  - exists id, p, receipt. split_and!; [done..|set_solver].
Qed.

Lemma evidence_appends uid op_ref r kv :
  appends (write_evidence uid kv) (fun _ ws => only_kinds uid op_ref r ws /\ True).
Proof.
  unfold write_evidence.
  eapply appends_bind; [apply (appends_lift _ (fun p ws => evidence_ref uid kv.1 = Ok p /\ ws = [])); auto|].
  intros p ? [Hp ->]. apply appends_write. split; [|done]. by eapply lw_evidence_set.
Qed.

Lemma tombstone_result_Ok uid reason c op items now r :
  tombstone_result uid reason c op items now = Ok r ->
  result_status r = apply_committed /\ control_state r = c /\ memory_items r = items /\
  same_identity op (result_operation r) /\ op_status (result_operation r) = committed /\
  valid_operation (result_operation r) = true /\ is_terminal_status (op_status op) = false /\
  outbox_events r = (items ≫= fun d => _privacy_delete_events uid d c (operation_id op) reason now).
Proof.
  unfold tombstone_result. intros H. apply res_bind_Ok in H as (m & Hm & H). injection H as <-.
  apply mark_committed_Ok in Hm as (? & ? & ? & ? & ? & ? & ? & ?). by split_and!.
Qed.

(** A committed deletion, by its result [r] on the control state [c]. *)
Record deletion_commit (uid token : string) (c : MemoryControlState) (now : Z) (items : list item)
    (op_ref : path) (op : MemoryOperation) (r : ApplyResult) (ws : list write) : Prop := {
  dc_status : result_status r = apply_committed;
  dc_head : exists id, control_state r = without_watermarks (with_head c id (commit_sequence c + 1) now);
  dc_items : Forall2 scrubbed_row items (memory_items r);
  dc_identity : same_identity op (result_operation r);
  dc_final : op_status (result_operation r) = committed /\ valid_operation (result_operation r) = true;
  dc_writes : complete_writes uid op_ref r ws;
  dc_receipts : forall d, d ∈ memory_items r -> receipt_written uid ws d;
  dc_events : exists reason, outbox_events r =
    (memory_items r ≫= fun d => _privacy_delete_events uid d (control_state r) (operation_id op) reason now)
}.

Lemma tombstoned_row d embedded now commit_id sequence generation t :
  _privacy_tombstoned_memory_item d embedded now commit_id sequence generation = Ok t -> scrubbed_row d t.
Proof.
  intros Ht. unfold _privacy_tombstoned_memory_item in Ht. apply res_bind_Ok in Ht as (u & _ & Ht).
  apply res_bind_Ok in Ht as (v & _ & Ht). apply res_bind_Ok in Ht as (rv & _ & Ht). injection Ht as <-.
  unfold scrubbed_row, tombstone_updates. split_and!; [apply model_copy_notin; simpl; set_solver|by rewrite model_copy_get..].
Qed.

Lemma tombstone_all_rows c scrubbed now items ts :
  tombstone_all c scrubbed now items = Ok ts ->
  Forall2 scrubbed_row items ts.
Proof.
  revert ts. induction items as [|d items IH]; intros ts H; simpl in H; [injection H as <-; constructor|].
  apply res_bind_Ok in H as (emb & _ & H). apply res_bind_Ok in H as (t & Ht & H).
  apply res_bind_Ok in H as (rest & Hr & H). injection H as <-. constructor; [|by apply IH].
  by eapply tombstoned_row.
Qed.

Lemma commit_tombstones_appends uid reason token preserved review review_item c op op_ref items evidence now :
  appends (commit_tombstones uid reason token preserved review review_item c op op_ref items evidence now)
    (fun t ws => exists r, deletion_commit uid token c now items op_ref op r ws /\
       tombstone_control t = control_state r /\ tombstone_items t = memory_items r).
Proof.
  unfold commit_tombstones. cbv zeta.
  eapply appends_bind; [apply (appends_lift _ (fun a ws => advance_head c (privacy_epoch uid token c) now = Ok a /\ ws = [])); auto|].
  intros adv ? [[-> _]%advance_head_Ok ->].
  eapply appends_bind; [apply (appends_lift _ (fun ts ws => Forall2 scrubbed_row items ts /\ ws = []))|].
  { intros ts Hts. by apply tombstone_all_rows in Hts. }
  intros ts ? [Hts ->]. case_match; [by apply appends_lift|].
  eapply appends_bind; [apply (appends_lift _ (fun r ws => tombstone_result uid reason
    (without_watermarks (with_head c (privacy_epoch uid token c) (commit_sequence c + 1) now)) op ts now = Ok r /\ ws = [])); auto|].
  intros r ? [Hr ->]. apply tombstone_result_Ok in Hr as (Hst & Hc & Hi & Hid & Hcm & Hv & _ & He).
  eapply appends_bind; [apply (appends_each _ _ (only_kinds uid op_ref r) (fun _ _ => True));
    [constructor|apply only_kinds_app|done|intros kv _; apply evidence_appends]|].
  intros [] we [Hwe _].
  eapply appends_bind; [apply (appends_each _ _ (only_kinds uid op_ref r) (fun d ws => receipt_written uid ws d));
    [constructor|apply only_kinds_app|intros d ? ? ? (i & p & x & ? & ? & ?); exists i, p, x; set_solver|
     intros d _; apply receipt_appends]|].
  intros [] wr [Hwr Hrec].
  eapply appends_bind; [by apply write_result_appends|]. intros [] w [Hw _].
  eapply appends_bind; [apply (review_appends uid op_ref r)|]. intros [] wv Hwv%result_only.
  apply appends_ret. exists r. simpl. rewrite app_nil_r, Hc, Hi. split; [|done]. split.
  - done.
  - rewrite Hc. by eexists.
  - by rewrite Hi.
  - done.
  - done.
  - replace (we ++ wr ++ w ++ wv) with ((we ++ wr) ++ w ++ wv) by by rewrite <-app_assoc.
    apply complete_writes_around; [by apply only_kinds_app|done..].
  - intros d Hd. rewrite Hi in Hd. destruct (Hrec d Hd) as (i & p & x & ? & ? & ?). exists i, p, x. set_solver.
  - exists reason. rewrite Hc, Hi. exact He.
Qed.

(** A run of a deletion on the snapshot [s]. *)
Record tombstone_run (s : db) (uid token : string) (now : Z) (t : CanonicalMemoryTombstoneResult) (ws : list write)
    (op_ref : path) (c : MemoryControlState) (op : MemoryOperation) (r : ApplyResult) (ids : list string)
    (items : list item) : Prop := {
  tr_path : operation_ref uid (operation_id op) = Ok op_ref;
  tr_new : s !! op_ref = None;
  tr_uid : op_uid op = uid;
  tr_stored : stored_control s uid now c;
  tr_held : ~ held uid s;
  tr_rows : Forall2 (fun id d => item_at s uid id d /\ v_is (doc_get d "status") "tombstoned" = false) ids items;
  tr_commit : deletion_commit uid token c now items op_ref op r ws;
  tr_control : tombstone_control t = control_state r;
  tr_items : tombstone_items t = memory_items r
}.

Lemma new_uid uid t packet target ev p account source obs prop now m :
  new uid t packet target ev p account source obs prop now = Ok m -> op_uid m = uid.
Proof. unfold new. by intros [-> _]%memory_operation_Ok. Qed.

Lemma tombstone_transaction_runs uid reason observed expected preserved token review now s :
  runs (_tombstone_memory_items_firestore_transaction uid reason observed expected preserved token review now)
    (fun t ws => exists op_ref c op r ids items, tombstone_run s uid token now t ws op_ref c op r ids items) s [].
Proof.
  unfold _tombstone_memory_items_firestore_transaction. cbv zeta.
  case_match; [by apply runs_lift|]. case_match; [by apply runs_lift|].
  eapply runs_reads; [apply assert_gate_reads|]. intros [] Hheld.
  eapply runs_reads; [apply review_reads|]. intros review_item _.
  eapply runs_reads; [apply (reads_lift _ (fun _ p => control_ref uid = Ok p)); auto|]. intros cp Hcp.
  eapply runs_reads; [apply (reads_get cp (fun s a => a = s !! cp)); done|]. intros snapshot Hsnapshot.
  eapply runs_reads; [apply (reads_weaken _ (fun _ c => exists d, snapshot = Some d /\ memory_control_state d now = Ok c));
    [|intros ? ? H'; exact H']|].
  { case_match; apply reads_lift; [|done]. intros ? c' Hc%parse_snapshot_strict_Ok. eauto. }
  intros c (d & -> & Hc). case_match; [by apply runs_lift|].
  eapply runs_reads; [apply tombstone_items_reads|]. intros [items evidence] Hrows. simpl in Hrows.
  eapply runs_reads; [by apply (reads_lift _ (fun _ _ => True))|]. intros [] _.
  eapply runs_reads; [by apply (reads_lift _ (fun _ _ => True))|]. intros payload _.
  eapply runs_reads; [apply (reads_lift _ (fun _ op => op_uid op = uid)); intros _ op Hop; by apply new_uid in Hop|].
  intros op Hop.
  eapply runs_reads; [apply (reads_lift _ (fun _ p => operation_ref uid (operation_id op) = Ok p)); auto|].
  intros op_ref Hop_ref. eapply runs_reads; [apply exists_reads|]. intros known Hknown.
  destruct known; [by apply runs_lift|].
  eapply runs_weaken; [apply commit_tombstones_appends|].
  intros t ws (ws2 & -> & r & Hr & Htc & Hti). exists op_ref, c, op, r, (sorted_strs ((fun d => text_or d "memory_id") <$> expected)), items.
  split; try done.
  - by destruct (s !! op_ref).
  - by exists cp, d.
Qed.

Lemma tombstone_store_run uid reason observed expected preserved token review now s t s' :
  tombstone_memory_items_firestore uid reason observed expected preserved token review now s = Ok (t, s') ->
  exists ws op_ref c op r ids items, tombstone_run s uid token now t ws op_ref c op r ids items /\ commit ws s = Some s'.
Proof.
  unfold tombstone_memory_items_firestore. intros H.
  destruct (run_txn_runs _ _ _ _ _ (tombstone_transaction_runs _ _ _ _ _ _ _ _ s) H)
    as (ws & (op_ref & c & op & r & ids & items & Hrun) & Hc).
  by exists ws, op_ref, c, op, r, ids, items.
Qed.
End Proofs.
