(* ===== verification/MemoryReplacementProofs.v ===== *)
(** * What one source replacement reads and writes

    A replacement that returns either found the receipt of an earlier call, and
    wrote nothing, or wrote in this order: the retracted rows with their evidence
    and receipts, then one complete commit per result, the first its own, then its
    receipt. *)

From S2P Require Import Prelude PyValue Firestore LegalHolds LegalHoldProofs Sha256 MemoryText MemoryOperations MemoryModels MemoryPromotion MemoryApply MemoryRecords MemoryReceipts MemoryStore MemoryPrivacy MemoryReplacement MemoryProofs MemoryItemProofs MemoryStoreProofs MemoryPrivacyProofs.
From Stdlib Require Import QArith_base Ascii.
From stdpp Require Import sorting.
Local Open Scope Z_scope.

#[local] Opaque deterministic_contract_id json_text sha256.

Section Proofs.
Context {T : TextEnv} {Md : ModelEnv} {St : StoreEnv}.

(** ** Reads *)
Lemma conflict_reads b : reads (conflict_when b) (fun _ _ => b = false).
Proof. destruct b; [by apply reads_lift|by apply reads_ret]. Qed.

Lemma authority_reads rq now :
  reads (assert_replacement_authority rq now) (fun s _ =>
    match rp_writes rq with
    | [] => ~ held (rp_uid rq) s
    | _ => exists p, gate_ref (rp_uid rq) = Ok p /\ _gate_blocks (s !! p) now = false
    end).
Proof.
  unfold assert_replacement_authority. destruct (rp_writes rq); [|apply gate_reads].
  destruct (rp_token rq); [apply assert_gate_reads|by apply reads_lift].
Qed.

(** Every row of [ids] is there and is [current]. *)
Definition all_current (s : db) (uid : string) (current : item -> bool) (ids : list string) : Prop :=
  Forall (fun id => exists d, item_at s uid id d /\ current d = true) ids.

Lemma rows_current_reads uid current ids :
  reads (rows_current uid current ids) (fun s b => b = true -> all_current s uid current ids).
Proof.
  induction ids as [|id ids IH]; simpl; [apply reads_ret; intros; constructor|]. do 2 reads_step.
  case_match; [|by apply reads_ret]. reads_step. case_match; [|by apply reads_ret].
  eapply reads_weaken; [exact IH|]. intros s b Hb Hd%parse_snapshot_strict_Ok Hs Hp E.
  constructor; [|by apply Hb]. eexists. split; [eexists _, _; eauto|done].
Qed.

(** The receipt of an earlier call that asked for the same: its digest matches, the
    account is in the generations it left, and the rows it reports as committed or
    reactivated still stand. *)
Record earlier_call (s : db) (rq : replacement_request) (now : Z) (c : MemoryControlState) (ref : path)
    (t : ConversationSourceReplacementResult) (receipt : ConversationSourceReplacementReceipt) : Prop := {
  ec_stored : exists raw, s !! ref = Some raw /\ read_replacement_receipt raw now = Ok receipt;
  ec_same : receipt_matches rq receipt = true;
  ec_reported : t = ReplacementResult c (retracted_memory_ids (rr_result receipt)) (committed_memory_ids (rr_result receipt))
                      (reactivated_memory_ids (rr_result receipt)) (retracted_evidence_ids (rr_result receipt));
  ec_generation : account_generation (replaced_control (rr_result receipt)) = account_generation c /\
                  source_generation (replaced_control (rr_result receipt)) = source_generation c;
  ec_committed : all_current s (rp_uid rq)
    (committed_row_current (rp_uid rq) (rp_conversation_id rq) (source_version (source_generation c))) (committed_memory_ids t);
  ec_reactivated : all_current s (rp_uid rq) (reactivated_row_current (rp_uid rq)) (reactivated_memory_ids t)
}.

Lemma current_reads rq c x :
  reads (receipt_is_current rq c x) (fun s b => b = true ->
    account_generation (replaced_control x) = account_generation c /\
    source_generation (replaced_control x) = source_generation c /\
    all_current s (rp_uid rq) (committed_row_current (rp_uid rq) (rp_conversation_id rq) (source_version (source_generation c)))
      (committed_memory_ids x) /\
    all_current s (rp_uid rq) (reactivated_row_current (rp_uid rq)) (reactivated_memory_ids x)).
Proof.
  unfold receipt_is_current. cbv zeta.
  eapply reads_bind; [apply rows_current_reads|]. intros a.
  eapply reads_bind; [apply rows_current_reads|]. intros b. apply reads_ret.
  intros s Hb Ha E. repeat (apply andb_true_iff in E as [E ?]).
  repeat match goal with H : (_ =? _) = true |- _ => apply Z.eqb_eq in H end.
  assert (Hg : source_generation (replaced_control x) = source_generation c) by done. rewrite Hg in Ha. split_and!; auto.
Qed.

Lemma receipt_reads rq c ref now :
  reads (read_receipt rq c ref now) (fun s o => forall t, o = Some t -> exists receipt, earlier_call s rq now c ref t receipt).
Proof.
  unfold read_receipt. reads_step. case_match; [|by apply reads_ret]. reads_step.
  case_match eqn:Hm; [by apply reads_lift|]. apply negb_false_iff in Hm.
  eapply reads_bind; [apply current_reads|]. intros []; apply reads_ret; [|by intros].
  intros s Hc Hr%parse_snapshot_strict_Ok Hs t [= <-]. destruct (Hc eq_refl) as (Hg & Hsg & Hcm & Hra).
  eexists. split; [by eexists|done..].
Qed.

Lemma source_evidence_reads uid conv l : reads (read_source_evidence uid conv l) (fun _ _ => True).
Proof.
  induction l as [|e l IH]; simpl; [by apply reads_ret|]. do 2 reads_step.
  case_match; [|by apply reads_lift]. reads_step.
  eapply reads_bind; [apply conflict_reads|]. intros []. eapply reads_bind; [apply IH|]. intros l'. by apply reads_ret.
Qed.

(** A row of the store that no deletion left behind. *)
Definition standing (s : db) (uid id : string) (d : item) : Prop :=
  item_at s uid id d /\ v_is (doc_get d "status") "tombstoned" = false.

Lemma source_rows_reads uid conv expected ids :
  reads (read_source_rows uid conv expected ids) (fun s l =>
    sr_id <$> l = ids /\ Forall (fun r => standing s uid (sr_id r) (sr_item r)) l /\
    Forall (fun r => exists e, named_item expected (sr_id r) = Some e /\ source_row_unchanged uid conv (sr_item r) e = true) l).
Proof.
  induction ids as [|id ids IH]; simpl; [apply reads_ret; intros; split_and!; [done|constructor..]|]. do 2 reads_step.
  case_match; [|by apply reads_lift]. case_match; [|by apply reads_lift]. reads_step.
  eapply reads_bind; [apply conflict_reads|]. intros [].
  eapply reads_bind; [apply source_evidence_reads|]. intros es.
  eapply reads_bind; [apply IH|]. intros rest. apply reads_ret.
  intros s (Hids & Hrest & Hsame) _ Hu Hd Hs Hp. rewrite fmap_cons, Hids. apply negb_false_iff in Hu.
  split_and!; [done| |constructor; [by eexists|done]]. constructor; [|done].
  unfold parse_item in Hd. apply parse_snapshot_strict_Ok in Hd. split; [eexists _, _; eauto|].
  unfold source_row_unchanged in Hu.
  repeat (apply andb_true_iff in Hu as [Hu ?]). by apply negb_true_iff.
Qed.

Lemma lineage_evidence_reads uid l : reads (check_lineage_evidence uid l) (fun _ _ => True).
Proof.
  induction l as [|e l IH]; simpl; [by apply reads_ret|]. do 2 reads_step.
  case_match; [|by apply reads_lift]. reads_step.
  eapply reads_bind; [apply conflict_reads|]. intros []. eapply reads_weaken; [apply IH|]. by intros.
Qed.

Lemma lineage_rows_reads uid conv terminal expected ids :
  reads (read_lineage_rows uid conv terminal expected ids) (fun s l =>
    forall d, d ∈ l -> exists id, id ∈ ids /\ standing s uid id d).
Proof.
  induction ids as [|id ids IH]; simpl; [apply reads_ret; by intros ? ? ?%elem_of_nil|]. do 2 reads_step.
  case_match; [|by apply reads_lift]. case_match; [|by apply reads_lift]. reads_step.
  eapply reads_bind; [apply conflict_reads|]. intros [].
  eapply reads_bind; [apply lineage_evidence_reads|]. intros [].
  eapply reads_bind; [apply IH|]. intros rest. apply reads_ret.
  intros s Hrest _ Hu Hd Hs Hp d [->|Hin]%elem_of_cons.
  - exists id. split; [set_solver|]. unfold parse_item in Hd. apply parse_snapshot_strict_Ok in Hd.
    split; [eexists _, _; eauto|]. apply negb_false_iff in Hu. unfold lineage_row_unchanged in Hu.
    repeat (apply andb_true_iff in Hu as [Hu ?]).
    match goal with H : v_is _ "superseded" = true |- _ => apply v_is_true in H; rewrite H end. done.
  - destruct (Hrest d Hin) as (i & ? & ?). exists i. split; [set_solver|done].
Qed.

(** A name that no deletion receipt blocks. *)
Definition unblocked (s : db) (uid id : string) : Prop :=
  exists rid q, privacy_deletion_receipt_id uid id = Ok rid /\ deletion_receipt_ref uid rid = Ok q /\ s !! q = None.

Lemma source_named_elem sources id r : source_named sources id = Some r -> r ∈ sources /\ sr_id r = id.
Proof.
  intros H. apply find_some in H as [Hin Hb]. apply bool_decide_eq_true in Hb. by rewrite list_elem_of_In.
Qed.

Lemma prior_reads uid conv sources id :
  reads (read_prior uid conv sources id) (fun s x =>
    (exists r, r ∈ sources /\ sr_id r = id /\ x = (Some (sr_item r), true)) \/
    (x.2 = false /\ unblocked s uid id /\ (forall d, x.1 = Some d -> item_at s uid id d))).
Proof.
  unfold read_prior. destruct (source_named sources id) as [r|] eqn:Er.
  { apply source_named_elem in Er as [? ?]. apply reads_ret. intros s. left. by exists r. }
  do 2 reads_step.
  eapply (reads_bind _ _ (fun s x => forall d, x = Some d -> match a0 with Some raw => memory_item raw = Ok d | None => False end)).
  { case_match; [|by apply reads_ret]. reads_step. eapply reads_bind; [apply conflict_reads|]. intros [].
    apply reads_ret. intros s _ Hd d [= <-]. unfold parse_item in Hd. by apply parse_snapshot_strict_Ok in Hd. }
  intros prior. do 2 reads_step. eapply reads_bind; [apply exists_reads|]. intros known.
  eapply reads_bind; [apply conflict_reads|]. intros []. apply reads_ret.
  intros s -> Hk Hq Hrid Hprior Hs Hp. right. split_and!; [done| |].
  - eexists _, _. split_and!; [done..|]. by destruct (s !! _).
  - intros d E. specialize (Hprior d E). destruct a0 as [raw|]; [|done]. eexists _, _. eauto.
Qed.

Lemma new_evidence_reads uid conv version seen es : reads (check_new_evidence uid conv version seen es) (fun _ _ => True).
Proof.
  revert seen. induction es as [|e es IH]; intros seen; simpl; [by apply reads_ret|].
  case_match; [by apply reads_lift|]. reads_step. eapply reads_bind; [apply exists_reads|]. intros known.
  eapply reads_bind; [apply conflict_reads|]. intros []. eapply reads_weaken; [apply IH|]. by intros.
Qed.

(** What the checks of one write establish. *)
Record planned_ok (s : db) (rq : replacement_request) (sources : list source_row) (p : planned_write) : Prop := {
  po_uid : op_uid (aw_operation (pw_write p)) = rp_uid rq;
  po_new : exists q, operation_ref (rp_uid rq) (operation_id (aw_operation (pw_write p))) = Ok q /\ s !! q = None;
  po_name : new_name (aw_payload (pw_write p)) = Ok (pw_id p);
  po_prior : (exists r, r ∈ sources /\ sr_id r = pw_id p /\ pw_prior p = Some (sr_item r)) \/
             (unblocked s (rp_uid rq) (pw_id p) /\ forall d, pw_prior p = Some d -> item_at s (rp_uid rq) (pw_id p) d)
}.

Lemma writes_reads rq c sources names seen writes :
  reads (check_writes rq c sources names seen writes) (fun s l =>
    pw_write <$> l = writes /\ Forall (planned_ok s rq sources) l /\
    NoDup (pw_id <$> l) /\ Forall (fun p => pw_id p ∉ names) l).
Proof.
  revert names seen. induction writes as [|w writes IH]; intros names seen; simpl.
  { apply reads_ret. intros s. split_and!; [done|constructor..]. }
  eapply reads_bind; [apply conflict_reads|]. intros []. reads_step.
  eapply reads_bind; [apply exists_reads|]. intros known.
  eapply reads_bind; [apply conflict_reads|]. intros []. reads_step.
  case_bool_decide as Hfresh; [by apply reads_lift|].
  eapply reads_bind; [apply prior_reads|]. intros [prior source].
  case_match; [by apply reads_lift|].
  eapply reads_bind; [apply new_evidence_reads|]. intros seen'.
  eapply reads_bind; [apply IH|]. intros rest. apply reads_ret.
  intros s (Hw & Hrest & Hnd & Hnot) _ Hprior Hname -> Hknown Hop Hm. rewrite !fmap_cons, Hw. split_and!; [done| | |].
  2:{ apply NoDup_cons. split; [|done]. intros (p & Hp & Hin)%list_elem_of_fmap. simpl in Hp.
      apply (proj1 (Forall_forall _ _) Hnot p Hin). rewrite <-Hp. set_solver. }
  2:{ constructor; [done|]. eapply Forall_impl; [exact Hnot|]. simpl. set_solver. }
  constructor; [|done].
  apply negb_false_iff in Hm. unfold write_operation_matches in Hm.
  repeat (apply andb_true_iff in Hm as [Hm ?]). apply bool_decide_eq_true in Hm. split; simpl.
  - done.
  - eexists. split; [done|]. by destruct (s !! _).
  - done.
  - destruct Hprior as [(r & ? & ? & [= -> ->])|(_ & ? & ?)]; [left; by exists r|by right].
Qed.

(** ** The results *)

(** A result that commits [op] on top of the control state [c]. *)
Record next_result (uid : string) (c : MemoryControlState) (op : MemoryOperation) (r : ApplyResult) : Prop := {
  nr_status : result_status r = apply_committed;
  nr_uid : op_uid op = uid;
  nr_identity : same_identity op (result_operation r);
  nr_final : op_status (result_operation r) = committed /\ valid_operation (result_operation r) = true;
  nr_sequence : commit_sequence (control_state r) = commit_sequence c + 1;
  nr_control : valid_control (control_state r) = true
}.

(** The conjuncts of [valid_control]. *)
Ltac control_facts := unfold valid_control; cbn -[nonblank strip Z.leb]; rewrite ?andb_true_iff, ?Z.leb_le.

Lemma valid_with_head c id n now :
  valid_control c = true -> nonblank id = true -> 0 <= n -> valid_control (with_head c id n now) = true.
Proof. control_facts. tauto. Qed.

Lemma valid_sequence c : valid_control c = true -> 0 <= commit_sequence c /\ 0 <= source_generation c.
Proof. control_facts. tauto. Qed.

Lemma valid_bumped c now : valid_control c = true -> valid_control (with_source_generation c (source_generation c + 1) now) = true.
Proof.
  intros Hv. pose proof (valid_sequence _ Hv) as [_ Hs]. assert (H1 : 0 <= source_generation c + 1) by lia.
  revert Hv H1. control_facts. tauto.
Qed.

(** The control state of the replacement's own commit. *)
Lemma replacement_head_Ok rq c now next :
  valid_control c = true -> replacement_head rq c now = Ok next ->
  commit_sequence next = commit_sequence c + 1 /\ source_generation next = source_generation c + 1 /\
  valid_control next = true.
Proof.
  intros Hv H. pose proof (valid_bumped _ now Hv) as Hb. pose proof (valid_sequence _ Hv) as [Hn _].
  assert (Hadv : forall id adv, advance_head (with_source_generation c (source_generation c + 1) now) id now = Ok adv ->
    commit_sequence adv = commit_sequence c + 1 /\ source_generation adv = source_generation c + 1 /\ valid_control adv = true).
  { intros id adv [-> Hid]%advance_head_Ok. split_and!; [done..|]. apply valid_with_head; simpl; [done..|lia]. }
  unfold replacement_head in H. cbv zeta in H.
  destruct (rp_writes rq), (rp_token rq); try (by apply Hadv in H).
  apply res_bind_Ok in H as (adv & Ha & H). injection H as <-. by apply Hadv in Ha.
Qed.

(** The members in which a committed row may differ from the apply's: it continues
    the revisions of the row it recreates. *)
Definition refreshed_keys : list string := ["version"; "item_revision"; "updated_at"].
Definition same_row (d d' : item) : Prop := forall k, k ∉ refreshed_keys -> doc_get d' k = doc_get d k.

Lemma refresh_Ok r prior source r' :
  _refresh_replacement_result r prior source = Ok r' ->
  result_status r' = result_status r /\ control_state r' = control_state r /\ result_operation r' = result_operation r /\
  Forall2 same_row (memory_items r) (memory_items r').
Proof.
  unfold _refresh_replacement_result. intros H.
  assert (Hsame : Forall2 same_row (memory_items r) (memory_items r)).
  { apply Forall2_same_length_lookup_2; [done|]. intros i x y Hx Hy. by simplify_eq. }
  destruct prior as [p|]; [|by injection H as <-].
  destruct (memory_items r) as [|created [|]] eqn:Ei; try (injection H as <-; by rewrite Ei).
  cbv zeta in H. do 4 (apply res_bind_Ok in H as (? & _ & H)). injection H as <-. simpl. split_and!; [done..|].
  constructor; [|constructor]. intros k Hk. apply model_copy_notin. exact Hk.
Qed.

(** The results of the writes, one on top of the other. *)
Inductive applied (now : Z) : MemoryControlState -> list planned_write -> list ApplyResult -> MemoryControlState -> Prop :=
| applied_nil c : applied now c [] [] c
| applied_cons c p ps r0 r rs last :
    apply_long_term_patch_transaction c (aw_operation (pw_write p))
      (<["evidence" := VList (aw_evidence (pw_write p))]> (aw_payload (pw_write p))) false now = Ok r0 ->
    result_status r0 = apply_committed -> _refresh_replacement_result r0 (pw_prior p) (pw_source p) = Ok r ->
    applied now (control_state r) ps rs last -> applied now c (p :: ps) (r :: rs) last.

Lemma apply_writes_Ok c ps now rs last : apply_writes c ps now = Ok (rs, last) -> applied now c ps rs last.
Proof.
  revert c rs last. induction ps as [|p ps IH]; intros c rs last H; simpl in H; [injection H as <- <-; constructor|].
  apply res_bind_Ok in H as (r0 & Hr0 & H). destruct (negb _) eqn:Hst; [done|].
  apply res_bind_Ok in H as (r & Hr & H). apply res_bind_Ok in H as ([rs' last'] & Hrest & H). injection H as <- <-.
  apply negb_false_iff, bool_decide_eq_true in Hst.
  destruct (refresh_Ok _ _ _ _ Hr) as (_ & Hc & _). econstructor; [done..|]. by apply IH.
Qed.

(** Results in a line: each commits on top of the one before. *)
Inductive result_line (uid : string) : MemoryControlState -> list (MemoryOperation * ApplyResult) -> MemoryControlState -> Prop :=
| line_nil c : result_line uid c [] c
| line_cons c op r l last :
    next_result uid c op r -> result_line uid (control_state r) l last -> result_line uid c ((op, r) :: l) last.

Lemma applied_line s rq sources now c ps rs last :
  valid_control c = true -> Forall (planned_ok s rq sources) ps -> applied now c ps rs last ->
  result_line (rp_uid rq) c (zip ((fun p => aw_operation (pw_write p)) <$> ps) rs) last /\ length rs = length ps /\
  commit_sequence last = commit_sequence c + Z.of_nat (length ps) /\ source_generation last = source_generation c.
Proof.
  intros Hv Hok Ha. induction Ha as [c|c p ps r0 r rs last Hr0 Hst Hr Ha IH]; [split_and!; [constructor|done|simpl; lia|done]|].
  apply Forall_cons_1 in Hok as [Hp Hok].
  destruct (refresh_Ok _ _ _ _ Hr) as (Hs & Hc & Ho & _).
  destruct (apply_cases _ _ _ _ _ _ Hr0) as [[Hn _]|(pt & ev & _ & Hres & _)]; [done|].
  pose proof (valid_sequence _ Hv) as [Hseq _].
  assert (Hnext : valid_control (control_state r) = true).
  { rewrite Hc, (cr_control _ _ _ _ Hres). apply valid_with_head; [done|apply Hres|lia]. }
  destruct (IH Hnext Hok) as (Hl & Hlen & Hq & Hg). split_and!.
  - simpl. constructor; [|done]. split.
    + congruence.
    + apply Hp.
    + rewrite Ho. apply Hres.
    + rewrite Ho. split; apply Hres.
    + by rewrite Hc, (cr_control _ _ _ _ Hres).
    + done.
  - simpl. by rewrite Hlen.
  - rewrite Hq, Hc, (cr_control _ _ _ _ Hres). cbn [length advanced with_head commit_sequence]. lia.
  - by rewrite Hg, Hc, (cr_control _ _ _ _ Hres).
Qed.

(** The retracted rows are the rows of the source without their content. *)
Lemma retract_rows_Ok rq parent c now evidence sources rt :
  retract_rows rq parent c now evidence sources = Ok rt ->
  Forall2 (fun r row => row.1 = sr_id r /\ scrubbed_row (sr_item r) row.2) sources (rt_rows rt).
Proof.
  revert evidence rt. induction sources as [|r sources IH]; intros evidence rt H; simpl in H; [injection H as <-; constructor|].
  apply res_bind_Ok in H as (d & Hd & H). apply res_bind_Ok in H as (rest & Hrest & H). injection H as <-. simpl.
  constructor; [|by eapply IH]. split; [done|].
  by eapply tombstoned_row.
Qed.

(** The reactivated rows, by name; each stood in the store. *)
Lemma reactivate_Ok d c now d' a :
  keeps_names -> _reactivate_replacement_lineage_item d c now = Ok (d', a) -> doc_get d' "memory_id" = doc_get d "memory_id".
Proof.
  intros Hlaw H. unfold _reactivate_replacement_lineage_item in H.
  destruct (dict_get "graph_plan" _); try done. destruct (promotion_graph_plan _); [|done].
  case_match; [done|]. do 4 (apply res_bind_Ok in H as (? & _ & H)). apply res_bind_Ok in H as (e & He & H).
  injection H as <- _. unfold parse_item in He. apply parse_snapshot_strict_Ok in He.
  rewrite (memory_item_name _ _ Hlaw He). apply model_copy_notin. simpl. set_solver.
Qed.

Lemma reactivate_rows_Ok rq parent c now new_ids lineage ra :
  reactivate_rows rq parent c now new_ids lineage = Ok ra ->
  forall d, d ∈ ra_items ra -> exists e a, e ∈ lineage /\ _reactivate_replacement_lineage_item e c now = Ok (d, a).
Proof.
  revert ra. induction lineage as [|e lineage IH]; intros ra H d Hd; simpl in H; [injection H as <-; by apply elem_of_nil in Hd|].
  case_bool_decide.
  { destruct (IH _ H d Hd) as (x & a & ? & ?). exists x, a. split; [set_solver|done]. }
  apply res_bind_Ok in H as ([d0 a] & Hd0 & H). apply res_bind_Ok in H as (rest & Hrest & H). injection H as <-.
  simpl in Hd. apply elem_of_cons in Hd as [->|Hd].
  - exists e, a. split; [set_solver|done].
  - destruct (IH _ Hrest d Hd) as (x & b & ? & ?). exists x, b. split; [set_solver|done].
Qed.

Lemma replacement_result_Ok rq parent c rt ra new_ids now r :
  replacement_result rq parent c rt ra new_ids now = Ok r ->
  result_status r = apply_committed /\ control_state r = c /\ memory_items r = ra_items ra /\
  same_identity (rp_operation rq) (result_operation r) /\ op_status (result_operation r) = committed /\
  valid_operation (result_operation r) = true.
Proof.
  unfold replacement_result. cbv zeta. intros H. apply res_bind_Ok in H as (m & Hm & H). injection H as <-.
  apply mark_committed_Ok in Hm as (? & ? & ? & ? & ? & ? & ? & ?). by split_and!.
Qed.

(** ** Writes *)

(** The writes before the commits: retracted rows, evidence and receipts. *)
Inductive retract_write (uid : string) (rows : list (string * item)) : write -> Prop :=
| tw_row id p d : (id, d) ∈ rows -> item_ref uid id = Ok p -> retract_write uid rows (WSet p d)
| tw_evidence id p d : evidence_ref uid id = Ok p -> retract_write uid rows (WSet p d)
| tw_receipt id p d : deletion_receipt_ref uid id = Ok p -> retract_write uid rows (WSet p d)
| tw_assertion id p : assertion_ref uid id = Ok p -> retract_write uid rows (WDelete p).

Definition retract_writes (uid : string) (rows : list (string * item)) (ws : list write) : Prop :=
  Forall (retract_write uid rows) ws.

Lemma retract_writes_app uid rows ws1 ws2 :
  retract_writes uid rows ws1 -> retract_writes uid rows ws2 -> retract_writes uid rows (ws1 ++ ws2).
Proof. intros. by apply Forall_app. Qed.

Lemma named_evidence_appends uid rows e :
  appends (write_named_evidence uid e) (fun _ ws => retract_writes uid rows ws /\ True).
Proof.
  unfold write_named_evidence.
  eapply appends_bind; [apply (appends_lift _ (fun p ws => evidence_ref uid (evidence_name e) = Ok p /\ ws = [])); auto|].
  intros p ? [Hp ->]. apply appends_write. split; [|done]. constructor; [by eapply tw_evidence|constructor].
Qed.

(** What the write of a retracted row must leave. *)
Definition retraction_written (rq : replacement_request) (new_ids : list string) (row : string * item)
    (ws : list write) : Prop :=
  (row.1 ∉ new_ids -> exists p, item_ref (rp_uid rq) row.1 = Ok p /\ WSet p row.2 ∈ ws) /\
  (rp_writes rq = [] -> exists id p receipt, privacy_deletion_receipt_id (rp_uid rq) row.1 = Ok id /\
     deletion_receipt_ref (rp_uid rq) id = Ok p /\ WSet p receipt ∈ ws).

Lemma retracted_appends rq c new_ids now rows row :
  row ∈ rows ->
  appends (write_retracted rq c new_ids now row)
    (fun _ ws => retract_writes (rp_uid rq) rows ws /\ retraction_written rq new_ids row ws).
Proof.
  intros Hrow. unfold write_retracted.
  eapply (appends_bind _ _ (fun _ ws => retract_writes (rp_uid rq) rows ws /\
    (row.1 ∉ new_ids -> exists p, item_ref (rp_uid rq) row.1 = Ok p /\ WSet p row.2 ∈ ws))).
  { case_bool_decide; [apply appends_ret; split; [constructor|done]|].
    eapply appends_bind; [apply (appends_lift _ (fun p ws => item_ref (rp_uid rq) row.1 = Ok p /\ ws = [])); auto|].
    intros p ? [Hp ->]. eapply appends_bind; [apply (appends_write _ (fun _ ws => ws = [WSet p row.2])); done|].
    intros [] ? ->.
    eapply appends_bind; [apply (appends_lift _ (fun q ws => assertion_ref (rp_uid rq) row.1 = Ok q /\ ws = [])); auto|].
    intros q ? [Hq ->]. apply appends_write. simpl. split.
    - constructor; [eapply tw_row; [|done]; by destruct row|]. constructor; [by eapply tw_assertion|constructor].
    - intros _. exists p. split; [done|set_solver]. }
  intros [] ws1 [Hk1 Hr1]. destruct (rp_writes rq) as [|w l] eqn:Ew.
  - eapply appends_bind; [apply (appends_lift _ (fun i ws => privacy_deletion_receipt_id (rp_uid rq) row.1 = Ok i /\ ws = [])); auto|].
    intros i ? [Hi ->].
    eapply appends_bind; [apply (appends_lift _ (fun p ws => deletion_receipt_ref (rp_uid rq) i = Ok p /\ ws = [])); auto|].
    intros p ? [Hp ->]. eapply appends_bind; [apply (appends_lift _ (fun _ ws => ws = [])); done|]. intros receipt ? ->.
    apply appends_write. simpl. split; [apply retract_writes_app; [done|]; constructor; [by eapply tw_receipt|constructor]|].
    split.
    + intros Hn. destruct (Hr1 Hn) as (q & ? & ?). exists q. split; [done|set_solver].
    + intros _. exists i, p, receipt. split_and!; [done..|set_solver].
  - apply appends_ret. rewrite app_nil_r. split; [done|]. split; [done|]. intros E. by rewrite Ew in E.
Qed.

(** The writes of the results, each complete. *)
Lemma results_appends uid rs :
  Forall (fun r => result_status r = apply_committed) rs ->
  appends (txn_each rs (write_result uid)) (fun _ ws => exists wss, ws = concat wss /\
    Forall2 (fun r ws => exists p, operation_ref uid (operation_id (result_operation r)) = Ok p /\ complete_writes uid p r ws) rs wss).
Proof.
  induction rs as [|r rs IH]; intros Hrs; simpl; [apply appends_ret; by exists []|].
  apply Forall_cons_1 in Hrs as [Hr Hrs]. unfold write_result at 1.
  eapply (appends_bind _ _ (fun _ ws => exists p, operation_ref uid (operation_id (result_operation r)) = Ok p /\
    complete_writes uid p r ws)).
  { eapply appends_bind; [apply (appends_lift _ (fun p ws => operation_ref uid (operation_id (result_operation r)) = Ok p /\ ws = [])); auto|].
    intros p ? [Hp ->]. eapply appends_weaken; [by apply write_result_appends|]. intros [] ws [Hw _]. by exists p. }
  intros [] ws Hws. eapply appends_weaken; [by apply IH|]. intros [] ws2 (wss & -> & Hwss).
  exists (ws :: wss). split; [done|by constructor].
Qed.

(** ** A whole run *)

(** A replacement that commits: on the control state [c] its own result [r], with
    head [next], retracts [rows]; [results] follow, the last control state is
    [last]; [pre] and [wss] are the writes before the commits and of each. *)
Record replacement_commit (rq : replacement_request) (c : MemoryControlState) (sources : list source_row)
    (lineage : list item) (planned : list planned_write) (now : Z) (t : ConversationSourceReplacementResult)
    (next last : MemoryControlState) (rows : list (string * item)) (r : ApplyResult) (results : list ApplyResult)
    (pre : list write) (wss : list (list write)) : Prop := {
  rc_next : commit_sequence next = commit_sequence c + 1 /\ source_generation next = source_generation c + 1 /\
            valid_control next = true;
  rc_applied : applied now next planned results last;
  rc_rows : Forall2 (fun s row => row.1 = sr_id s /\ scrubbed_row (sr_item s) row.2) sources rows;
  rc_result : next_result (rp_uid rq) c (rp_operation rq) r;
  rc_control : control_state r = next;
  rc_items : forall d, d ∈ memory_items r ->
    exists e a, e ∈ lineage /\ _reactivate_replacement_lineage_item e next now = Ok (d, a);
  rc_pre : retract_writes (rp_uid rq) rows pre;
  rc_retracted : forall row, row ∈ rows -> retraction_written rq (pw_id <$> planned) row pre;
  rc_writes : Forall2 (fun r ws => exists p, operation_ref (rp_uid rq) (operation_id (result_operation r)) = Ok p /\
                complete_writes (rp_uid rq) p r ws) (r :: results) wss;
  rc_report : replaced_control t = last /\ retracted_memory_ids t = sorted_strs (fst <$> rows) /\
              committed_memory_ids t = pw_id <$> planned
}.

Lemma applied_committed now c ps rs last :
  applied now c ps rs last -> Forall (fun r => result_status r = apply_committed) rs.
Proof.
  induction 1 as [|c p ps r0 r rs last _ Hst Hr _ IH]; constructor; [|done].
  destruct (refresh_Ok _ _ _ _ Hr) as [-> _]. done.
Qed.

(** The receipt that a call leaves. *)
Definition receipt_data (rq : replacement_request) (t : ConversationSourceReplacementResult) (now : Z) : fields :=
  list_to_map (receipt_dict (ReplacementReceipt (rp_replacement_id rq) (rp_replacement_digest rq) (rp_uid rq)
    (rp_conversation_id rq) (operation_id (rp_operation rq)) t now)).

Lemma commit_replacement_appends rq ref c sources lineage planned now :
  valid_control c = true -> op_uid (rp_operation rq) = rp_uid rq ->
  appends (commit_replacement rq ref c sources lineage planned now) (fun t ws =>
    exists next last rows r results pre wss,
      ws = pre ++ concat wss ++ [WSet ref (receipt_data rq t now)] /\
      replacement_commit rq c sources lineage planned now t next last rows r results pre wss).
Proof.
  intros Hv Huid. unfold commit_replacement. cbv zeta. set (uid := rp_uid rq) in *. set (ids := pw_id <$> planned).
  eapply appends_bind; [apply (appends_lift _ (fun next ws => replacement_head rq c now = Ok next /\ ws = [])); auto|].
  intros next ? [Hnext ->]. apply replacement_head_Ok in Hnext; [|done].
  eapply appends_bind; [apply (appends_lift _ (fun x ws => applied now next planned x.1 x.2 /\ ws = []))|].
  { intros [rs l] Ha. split; [|done]. by apply apply_writes_Ok. }
  intros [results last] ? [Happ ->]. cbn [fst snd] in Happ.
  eapply appends_bind; [apply (appends_lift _ (fun rt ws => Forall2 (fun s row => row.1 = sr_id s /\ scrubbed_row (sr_item s) row.2)
    sources (rt_rows rt) /\ ws = []))|].
  { intros rt Hrt. split; [|done]. by eapply retract_rows_Ok. }
  intros rt ? [Hrt ->].
  eapply appends_bind; [apply (appends_lift _ (fun ra ws => (forall d, d ∈ ra_items ra ->
    exists e a, e ∈ lineage /\ _reactivate_replacement_lineage_item e next now = Ok (d, a)) /\ ws = []))|].
  { intros ra Hra. split; [|done]. by eapply reactivate_rows_Ok. }
  intros ra ? [Hra ->].
  eapply appends_bind; [apply (appends_lift _ (fun r ws => replacement_result rq c next rt ra ids now = Ok r /\ ws = [])); auto|].
  intros r ? [Hr ->]. apply replacement_result_Ok in Hr as (Hst & Hctl & Hitems & Hid & Hcm & Hval).
  case_match; [by apply appends_lift|].
  eapply appends_bind; [apply (appends_each _ _ (retract_writes uid (rt_rows rt)) (fun _ _ => True));
    [constructor|apply retract_writes_app|done|intros kv _; apply named_evidence_appends]|].
  intros [] w1 [Hw1 _].
  eapply appends_bind; [apply (appends_each _ _ (retract_writes uid (rt_rows rt)) (fun _ _ => True));
    [constructor|apply retract_writes_app|done|]|].
  { intros w _. eapply appends_weaken; [apply (appends_each _ _ (retract_writes uid (rt_rows rt)) (fun _ _ => True));
      [constructor|apply retract_writes_app|done|intros e _; apply named_evidence_appends]|]. by intros [] ws [? _]. }
  intros [] w2 [Hw2 _].
  eapply appends_bind; [apply (appends_each _ _ (retract_writes uid (rt_rows rt)) (retraction_written rq ids));
    [constructor|apply retract_writes_app| |intros row Hrow; by apply retracted_appends]|].
  { intros row ws a b [H1 H2]. split.
    - intros Hn. destruct (H1 Hn) as (p & ? & ?). exists p. split; [done|set_solver].
    - intros E. destruct (H2 E) as (i & p & x & ? & ? & ?). exists i, p, x. split_and!; [done..|set_solver]. }
  intros [] w3 [Hw3 Hdone].
  eapply (appends_bind (txn_each (r :: results) (write_result uid)));
    [apply results_appends; constructor; [done|by eapply applied_committed]|].
  intros [] w4 (wss & -> & Hwss).
  set (t := ReplacementResult last _ _ _ _).
  eapply appends_bind; [apply (appends_lift _ (fun x ws => list_to_map (receipt_dict x) = receipt_data rq t now /\ ws = []))|].
  { intros x Hx. split; [|done]. unfold replacement_receipt in Hx. destruct (valid_receipt _); [|done]. injection Hx as <-.
    unfold receipt_data. by rewrite (proj1 Hid). }
  intros receipt ? [Hreceipt ->].
  eapply appends_bind; [apply (appends_write _ (fun _ ws => ws = [WSet ref (receipt_data rq t now)])); by rewrite Hreceipt|].
  intros [] ? ->. apply appends_ret.
  exists next, last, (rt_rows rt), r, results, (w1 ++ w2 ++ w3), wss.
  split; [by rewrite !app_nil_l, app_nil_r, <-!app_assoc|]. split; try done.
  - split; [done..| |rewrite Hctl; apply Hnext|rewrite Hctl; apply Hnext]. by split.
  - by rewrite Hitems.
  - by repeat apply retract_writes_app.
  - intros row Hrow. destruct (Hdone row Hrow) as [H1 H2]. split.
    + intros Hn. destruct (H1 Hn) as (p & ? & ?). exists p. split; [done|set_solver].
    + intros E. destruct (H2 E) as (i & p & x & ? & ? & ?). exists i, p, x. split_and!; [done..|set_solver].
Qed.

(** What a run that commits found in the snapshot. *)
Record replacement_run (s : db) (rq : replacement_request) (now : Z) (c : MemoryControlState)
    (sources : list source_row) (lineage : list item) (planned : list planned_write) : Prop := {
  rr_control : control_at s (rp_uid rq) now c /\ valid_control c = true;
  rr_authority : match rp_writes rq with
                 | [] => ~ held (rp_uid rq) s
                 | _ => exists p, gate_ref (rp_uid rq) = Ok p /\ _gate_blocks (s !! p) now = false
                 end;
  rr_owner : op_uid (rp_operation rq) = rp_uid rq;
  rr_new : exists p, operation_ref (rp_uid rq) (operation_id (rp_operation rq)) = Ok p /\ s !! p = None;
  rr_fence : _control_fence c = _control_fence (rp_observed rq);
  rr_ids : sr_id <$> sources = sorted_strs (names_of (rp_source_items rq));
  rr_sources : Forall (fun r => standing s (rp_uid rq) (sr_id r) (sr_item r)) sources;
  rr_unchanged : Forall (fun r => exists e, named_item (rp_source_items rq) (sr_id r) = Some e /\
    source_row_unchanged (rp_uid rq) (rp_conversation_id rq) (sr_item r) e = true) sources;
  rr_lineage : forall d, d ∈ lineage -> exists id, (id ∉ (sr_id <$> sources)) /\ standing s (rp_uid rq) id d;
  rr_writes : pw_write <$> planned = rp_writes rq;
  rr_planned : Forall (planned_ok s rq sources) planned;
  rr_names : NoDup (pw_id <$> planned)
}.

(** The outcome of a run: a replay of an earlier call, or a commit. *)
Inductive replacement_outcome (s : db) (rq : replacement_request) (now : Z)
    (t : ConversationSourceReplacementResult) (ws : list write) : Prop :=
| outcome_replayed ref receipt :
    replacement_ref (rp_uid rq) (rp_replacement_id rq) = Ok ref -> control_at s (rp_uid rq) now (replaced_control t) ->
    earlier_call s rq now (replaced_control t) ref t receipt -> ws = [] -> replacement_outcome s rq now t ws
| outcome_replaced c sources lineage planned next last rows r results pre wss ref :
    replacement_run s rq now c sources lineage planned ->
    replacement_ref (rp_uid rq) (rp_replacement_id rq) = Ok ref ->
    ws = pre ++ concat wss ++ [WSet ref (receipt_data rq t now)] ->
    replacement_commit rq c sources lineage planned now t next last rows r results pre wss ->
    replacement_outcome s rq now t ws.

Lemma replacement_transaction_runs rq now s :
  runs (_replace_conversation_source_firestore_transaction rq now)
    (fun t ws => replacement_outcome s rq now t ws) s [].
Proof.
  unfold _replace_conversation_source_firestore_transaction. cbv zeta.
  eapply runs_reads; [apply authority_reads|]. intros [] Hauth.
  eapply runs_reads; [apply (reads_lift _ (fun _ p => control_ref (rp_uid rq) = Ok p)); auto|]. intros cp Hcp.
  eapply runs_reads; [by apply initial_reads|]. intros c [Hc Hv].
  eapply runs_reads; [apply (reads_lift _ (fun _ p => replacement_ref (rp_uid rq) (rp_replacement_id rq) = Ok p)); auto|].
  intros ref Href.
  eapply runs_reads; [apply receipt_reads|]. intros [t|] Ht.
  { apply runs_ret. destruct (Ht t eq_refl) as [receipt Hcall].
    assert (E : replaced_control t = c) by (by rewrite (ec_reported _ _ _ _ _ _ _ Hcall)).
    eapply outcome_replayed; [exact Href|by rewrite E|rewrite E; exact Hcall|done]. }
  eapply runs_reads; [apply conflict_reads|]. intros [] Hfence. apply negb_false_iff, bool_decide_eq_true in Hfence.
  unfold replace_source. cbv zeta.
  eapply runs_reads; [by apply (reads_lift _ (fun _ _ => True))|]. intros [] _.
  eapply runs_reads; [apply conflict_reads|]. intros [] Hop. apply negb_false_iff in Hop.
  assert (Hown : op_uid (rp_operation rq) = rp_uid rq).
  { unfold replacement_operation_matches in Hop. cbv zeta in Hop. repeat (apply andb_true_iff in Hop as [Hop _]).
    by apply bool_decide_eq_true in Hop. }
  eapply runs_reads; [apply (reads_lift _ (fun _ p => operation_ref (rp_uid rq) (operation_id (rp_operation rq)) = Ok p)); auto|].
  intros op_ref Hop_ref. eapply runs_reads; [apply exists_reads|]. intros known Hknown.
  eapply runs_reads; [apply conflict_reads|]. intros [] ->.
  eapply runs_reads; [apply conflict_reads|]. intros [] _.
  eapply runs_reads; [apply source_rows_reads|]. intros sources (Hids & Hsources & Hunchanged).
  eapply runs_reads; [apply conflict_reads|]. intros [] _.
  eapply runs_reads; [apply conflict_reads|]. intros [] Hdisjoint.
  eapply runs_reads; [apply lineage_rows_reads|]. intros lineage Hlineage.
  eapply runs_reads; [apply writes_reads|]. intros planned (Hw & Hplanned & Hnames & _).
  eapply runs_reads; [by apply (reads_lift _ (fun _ _ => True))|]. intros matches _.
  eapply runs_reads; [apply conflict_reads|]. intros [] _.
  eapply runs_weaken; [by apply commit_replacement_appends|].
  intros t ws (ws2 & -> & next & last & rows & r & results & pre & wss & -> & Hrc).
  eapply outcome_replaced; [|exact Href|reflexivity|exact Hrc]. split; try done.
  - exists op_ref. split; [done|]. by destruct (s !! op_ref).
  - intros d Hd. destruct (Hlineage d Hd) as (i & Hi & ?). exists i. split; [|done]. rewrite Hids.
    unfold sorted_strs in *. rewrite merge_sort_Permutation in Hi |- *. intros Hin.
    apply not_true_iff_false in Hdisjoint. apply Hdisjoint, existsb_exists. exists i.
    split; [by apply list_elem_of_In|by apply bool_decide_eq_true].
Qed.

(** The public call. *)
Lemma replacement_store_run mode rq now s t s' :
  replace_conversation_source_firestore mode rq now s = Ok (t, s') ->
  exists ws, replacement_outcome s rq now t ws /\ commit ws s = Some s'.
Proof.
  unfold replace_conversation_source_firestore. intros H. apply res_bind_Ok in H as ([] & _ & H).
  destruct (run_txn_runs _ _ _ _ _ (replacement_transaction_runs rq now s) H) as (ws & Ho & Hc). by exists ws.
Qed.
End Proofs.
