(* ===== verification/MemoryHistory.v ===== *)
(** * Histories of the memory ledger's store

    The ledger's documents change by apply transactions, by the bump of a source
    generation and by privacy deletions; every other write goes elsewhere.  Each
    committed change is a [commit_step] on the control state it read, whatever
    its kind. *)

From S2P Require Import Prelude PyValue Firestore LegalHolds LegalHoldProofs Sha256 MemoryText MemoryOperations MemoryModels MemoryPromotion MemoryApply MemoryRecords MemoryReceipts MemoryStore MemoryPrivacy MemoryReplacement MemoryProofs MemoryItemProofs MemoryStoreProofs MemoryPrivacyProofs MemoryReplacementProofs.
From Stdlib Require Import QArith_base Ascii.
Local Open Scope Z_scope.

#[local] Opaque deterministic_contract_id json_text sha256.

(** Facts on closed lists of names, decided. *)
Ltac decide_all := apply (bool_decide_unpack _); vm_compute; exact I.

Section History.
Context {T : TextEnv} {Md : ModelEnv} {St : StoreEnv}.

(** ** Steps *)
Definition ledger_collections : list string :=
  ["memory_state"; "memory_operations"; "memory_items"; "memory_commits"; "memory_deletion_receipts"].

(** A document that is no document of any ledger. *)
Definition elsewhere (p : path) : Prop :=
  forall uid coll id, no_slash uid -> coll ∈ ledger_collections -> memory_ref uid coll id <> Ok p.

(** Which requests reach the store. *)
Record policy := Policy {
  admits_apply : db -> apply_request -> Z -> Prop;
  admits_replacement : db -> replacement_request -> Z -> Prop
}.

(** The operations of a replacement are different operations. *)
Definition distinct_operations (rq : replacement_request) : Prop :=
  NoDup (operation_id <$> (rp_operation rq :: (aw_operation <$> rp_writes rq))).

(** One change of the store. *)
Inductive ledger_step (admitted : policy) : db -> db -> Prop :=
| step_apply mode rq now s r s' :
    no_slash (rq_uid rq) -> admits_apply admitted s rq now ->
    apply_long_term_patch_firestore mode rq now s = Ok (r, s') -> ledger_step admitted s s'
| step_bump uid now s c s' :
    no_slash uid -> atomic_bump_source_generation uid now s = Ok (c, s') -> ledger_step admitted s s'
| step_delete uid reason observed expected preserved token review now s t s' :
    no_slash uid ->
    tombstone_memory_items_firestore uid reason observed expected preserved token review now s = Ok (t, s') ->
    ledger_step admitted s s'
| step_replace mode rq now s t s' :
    no_slash (rp_uid rq) -> distinct_operations rq -> admits_replacement admitted s rq now ->
    replace_conversation_source_firestore mode rq now s = Ok (t, s') -> ledger_step admitted s s'
| step_elsewhere ws s s' :
    Forall (fun w => elsewhere (write_path w)) ws -> commit ws s = Some s' -> ledger_step admitted s s'.

Definition history (admitted : policy) : db -> db -> Prop := rtc (ledger_step admitted).

Definition any_request : policy := Policy (fun _ _ _ => True) (fun _ _ _ => True).

(** ** The writes of a result, by collection *)
Section Writes.
Variables (uid : string) (op_ref : path) (op_id : string) (r : ApplyResult) (ws : list write).
Hypothesis Huid : no_slash uid.
Hypothesis Hop : operation_ref uid op_id = Ok op_ref.
Hypothesis Hws : only_kinds uid op_ref r ws.

Lemma kind_of w : w ∈ ws -> ledger_write uid op_ref r w.
Proof. intros Hw. unfold only_kinds in Hws. rewrite Forall_forall in Hws. by apply Hws. Qed.

(** What a write to a ledger document is. *)
Inductive document_write (coll id : string) (p : path) : write -> Prop :=
| dw_operation : coll = "memory_operations" -> id = op_id ->
    document_write coll id p (WSet p (operation_data (result_operation r)))
| dw_control : coll = "memory_state" -> id = "apply_control" ->
    document_write coll id p (WSet p (control_data (control_state r)))
| dw_head d : coll = "memory_state" -> id = "head" -> _memory_state_head_from_control (control_state r) = Ok d ->
    document_write coll id p (WSet p d)
| dw_commit : coll = "memory_commits" -> id = head_commit_id (control_state r) ->
    document_write coll id p (WSet p (commit_doc (control_state r) (result_operation r)))
| dw_item d : coll = "memory_items" -> d ∈ memory_items r -> text_or d "memory_id" = id ->
    document_write coll id p (WSet p d)
| dw_receipt d : coll = "memory_deletion_receipts" -> document_write coll id p (WSet p d).

Lemma ledger_collection coll : coll ∈ ledger_collections -> coll ∈ collections.
Proof. apply (proj1 (Forall_forall (fun c => c ∈ collections) ledger_collections)). decide_all. Qed.

Lemma derived_collection coll : coll ∈ derived_collections -> coll ∈ collections.
Proof. apply (proj1 (Forall_forall (fun c => c ∈ collections) derived_collections)). decide_all. Qed.

Lemma derived_ledger coll : coll ∈ derived_collections -> coll ∈ ledger_collections -> coll = "memory_deletion_receipts".
Proof. apply (proj1 (Forall_forall (fun c => c ∈ ledger_collections -> c = "memory_deletion_receipts") derived_collections)). decide_all. Qed.

Lemma write_kind uid' coll id p w :
  no_slash uid' -> coll ∈ ledger_collections -> memory_ref uid' coll id = Ok p ->
  w ∈ ws -> write_path w = p -> uid' = uid /\ document_write coll id p w.
Proof.
  intros Hu Hc Hp Hw Hwp.
  pose proof (fun coll' id' H => same_document uid' coll id uid coll' id' p Hp H Hu Huid (ledger_collection _ Hc)) as Hsame.
  destruct (kind_of w Hw) as [Hk|i q d Hq Hk];
    [destruct Hk as [|q Hq|q d Hq Hhd|q Hq|q d Hd Hq|q e He Hq|d a q Hd Ha Hq|d q Hd Ha Hq|coll' i q d Hc' Hq]|subst w];
    simpl in Hwp; subst p.
  - destruct (Hsame _ _ Hop ltac:(decide_all)) as (-> & -> & ->). split; [done|by apply dw_operation].
  - destruct (Hsame _ _ Hq ltac:(decide_all)) as (-> & -> & ->). split; [done|by apply dw_control].
  - destruct (Hsame _ _ Hq ltac:(decide_all)) as (-> & -> & ->). split; [done|by apply dw_head].
  - destruct (Hsame _ _ Hq ltac:(decide_all)) as (-> & -> & ->). split; [done|by apply dw_commit].
  - destruct (Hsame _ _ Hq ltac:(decide_all)) as (-> & -> & ->). split; [done|by eapply dw_item].
  - destruct (Hsame "memory_outbox" _ Hq ltac:(decide_all)) as (-> & -> & ->).
    exfalso. revert Hc. decide_all.
  - destruct (Hsame _ _ Hq ltac:(decide_all)) as (-> & -> & ->). exfalso. revert Hc. decide_all.
  - destruct (Hsame _ _ Hq ltac:(decide_all)) as (-> & -> & ->). exfalso. revert Hc. decide_all.
  - destruct (Hsame coll' i Hq (derived_collection _ Hc')) as (-> & -> & ->).
    split; [done|]. by apply dw_receipt, derived_ledger.
  - destruct (Hsame _ _ Hq ltac:(decide_all)) as (-> & -> & ->). exfalso. revert Hc. decide_all.
Qed.

(** What a write to the outbox is. *)
Lemma outbox_write uid' id p w :
  no_slash uid' -> outbox_ref uid' id = Ok p -> w ∈ ws -> write_path w = p ->
  uid' = uid /\ exists e, e ∈ outbox_events r /\ event_id e = id /\ w = WSet p (event_data e).
Proof.
  intros Hu Hp Hw Hwp.
  pose proof (fun coll' id' H => same_document uid' "memory_outbox" id uid coll' id' p Hp H Hu Huid ltac:(decide_all)) as Hsame.
  destruct (kind_of w Hw) as [Hk|i q d Hq Hk];
    [destruct Hk as [|q Hq|q d Hq Hhd|q Hq|q d Hd Hq|q e He Hq|d a q Hd Ha Hq|d q Hd Ha Hq|coll' i q d Hc' Hq]|subst w];
    simpl in Hwp; subst p.
  - destruct (Hsame _ _ Hop ltac:(decide_all)) as (_ & ? & _). done.
  - destruct (Hsame _ _ Hq ltac:(decide_all)) as (_ & ? & _). done.
  - destruct (Hsame _ _ Hq ltac:(decide_all)) as (_ & ? & _). done.
  - destruct (Hsame _ _ Hq ltac:(decide_all)) as (_ & ? & _). done.
  - destruct (Hsame _ _ Hq ltac:(decide_all)) as (_ & ? & _). done.
  - destruct (Hsame _ _ Hq ltac:(decide_all)) as (-> & _ & ->). split; [done|]. by exists e.
  - destruct (Hsame _ _ Hq ltac:(decide_all)) as (_ & ? & _). done.
  - destruct (Hsame _ _ Hq ltac:(decide_all)) as (_ & ? & _). done.
  - destruct (Hsame coll' i Hq (derived_collection _ Hc')) as (_ & <- & _). exfalso. revert Hc'. decide_all.
  - destruct (Hsame _ _ Hq ltac:(decide_all)) as (_ & ? & _). done.
Qed.

(** What a write to an assertion is. *)
Lemma assertion_write id p w :
  assertion_ref uid id = Ok p -> w ∈ ws -> write_path w = p ->
  exists d, d ∈ memory_items r /\ text_or d "memory_id" = id /\
    w = match assertion_of r d with Some a => WSet p (assertion_data a) | None => WDelete p end.
Proof.
  intros Hp Hw Hwp.
  pose proof (fun coll' id' H => same_document uid "memory_graph_assertions" id uid coll' id' p Hp H Huid Huid ltac:(decide_all)) as Hsame.
  destruct (kind_of w Hw) as [Hk|i q d Hq Hk];
    [destruct Hk as [|q Hq|q d Hq Hhd|q Hq|q d Hd Hq|q e He Hq|d a q Hd Ha Hq|d q Hd Ha Hq|coll' i q d Hc' Hq]|subst w];
    simpl in Hwp; subst p.
  - destruct (Hsame _ _ Hop ltac:(decide_all)) as (_ & ? & _). done.
  - destruct (Hsame _ _ Hq ltac:(decide_all)) as (_ & ? & _). done.
  - destruct (Hsame _ _ Hq ltac:(decide_all)) as (_ & ? & _). done.
  - destruct (Hsame _ _ Hq ltac:(decide_all)) as (_ & ? & _). done.
  - destruct (Hsame _ _ Hq ltac:(decide_all)) as (_ & ? & _). done.
  - destruct (Hsame _ _ Hq ltac:(decide_all)) as (_ & ? & _). done.
  - destruct (Hsame _ _ Hq ltac:(decide_all)) as (_ & _ & ->). exists d. by rewrite Ha.
  - destruct (Hsame _ _ Hq ltac:(decide_all)) as (_ & _ & ->). exists d. by rewrite Ha.
  - destruct (Hsame coll' i Hq (derived_collection _ Hc')) as (_ & <- & _). exfalso. revert Hc'. decide_all.
  - destruct (Hsame _ _ Hq ltac:(decide_all)) as (_ & ? & _). done.
Qed.
End Writes.

(** ** Committed steps *)

(** One committed change of the ledger of [uid], from [s] to [s']. *)
Record commit_step (s s' : db) (uid : string) (now : Z) (c : MemoryControlState) (op : MemoryOperation)
    (r : ApplyResult) (op_ref : path) (ws : list write) : Prop := {
  cs_uid : no_slash uid;
  cs_owner : op_uid op = uid;
  cs_path : operation_ref uid (operation_id op) = Ok op_ref;
  cs_stored : control_at s uid now c;
  cs_open : forall d, s !! op_ref = Some d -> read_operation d now = Ok op /\ is_terminal_status (op_status op) = false;
  cs_identity : same_identity op (result_operation r);
  cs_final : op_status (result_operation r) = committed /\ valid_operation (result_operation r) = true;
  cs_sequence : commit_sequence (control_state r) = commit_sequence c + 1;
  cs_writes : complete_writes uid op_ref r ws;
  cs_commit : commit ws s = Some s'
}.

Section Step.
Variables (s s' : db) (uid : string) (now : Z) (c : MemoryControlState) (op : MemoryOperation) (r : ApplyResult)
  (op_ref : path) (ws : list write).
Hypothesis Hstep : commit_step s s' uid now c op r op_ref ws.

Lemma step_kind uid' coll id p w :
  no_slash uid' -> coll ∈ ledger_collections -> memory_ref uid' coll id = Ok p ->
  w ∈ ws -> write_path w = p -> uid' = uid /\ document_write (operation_id op) r coll id p w.
Proof.
  destruct Hstep. eapply (write_kind uid op_ref (operation_id op) r ws); [done..|]. by destruct cs_writes0.
Qed.

(** A ledger document is unchanged, or a write of the result left it. *)
Lemma step_document uid' coll id p :
  no_slash uid' -> coll ∈ ledger_collections -> memory_ref uid' coll id = Ok p ->
  s' !! p = s !! p \/
  uid' = uid /\ exists d, s' !! p = Some d /\ document_write (operation_id op) r coll id p (WSet p d).
Proof.
  intros Hu Hc Hp. destruct (commit_last _ _ _ p (cs_commit _ _ _ _ _ _ _ _ _ Hstep)) as [[H _]|(w & Hw & Hwp & Hl)];
    [by left|right].
  destruct (step_kind _ _ _ _ _ Hu Hc Hp Hw Hwp) as [-> Hk]. split; [done|].
  destruct Hk; simpl in Hl; eexists; (split; [exact Hl|]); by econstructor.
Qed.

Lemma step_operation : s' !! op_ref = Some (operation_data (result_operation r)).
Proof.
  destruct Hstep as [Hu _ Hp _ _ _ _ _ [_ Hin _ _ _ _ _ _] Hc]. eapply commit_value; [exact Hc|exact Hin|].
  intros w Hw Hwp. destruct (step_kind _ "memory_operations" _ _ _ Hu ltac:(decide_all) Hp Hw Hwp) as [_ Hk].
  by destruct Hk.
Qed.

Lemma step_control p : control_ref uid = Ok p -> s' !! p = Some (control_data (control_state r)).
Proof.
  intros Hp. destruct Hstep as [Hu _ _ _ _ _ _ _ [_ _ (q & Hq & Hin) _ _ _ _ _] Hc].
  assert (q = p) as -> by congruence. eapply commit_value; [exact Hc|exact Hin|].
  intros w Hw Hwp. destruct (step_kind _ "memory_state" _ _ _ Hu ltac:(decide_all) Hp Hw Hwp) as [_ Hk].
  by destruct Hk.
Qed.

Lemma step_commit p :
  commit_ref uid (head_commit_id (control_state r)) = Ok p ->
  s' !! p = Some (commit_doc (control_state r) (result_operation r)).
Proof.
  intros Hp. destruct Hstep as [Hu _ _ _ _ _ _ _ [_ _ _ (q & Hq & Hin) _ _ _ _] Hc].
  assert (q = p) as -> by congruence. eapply commit_value; [exact Hc|exact Hin|].
  intros w Hw Hwp. destruct (step_kind _ "memory_commits" _ _ _ Hu ltac:(decide_all) Hp Hw Hwp) as [_ Hk].
  by destruct Hk.
Qed.

Lemma step_item d :
  d ∈ memory_items r ->
  exists p d', item_ref uid (text_or d "memory_id") = Ok p /\ s' !! p = Some d' /\ d' ∈ memory_items r /\
    text_or d' "memory_id" = text_or d "memory_id".
Proof.
  intros Hd. pose proof (cs_writes _ _ _ _ _ _ _ _ _ Hstep) as [_ _ _ _ Hi _ _ _].
  destruct (Hi d Hd) as (p & Hp & Hin).
  destruct (commit_last _ _ _ p (cs_commit _ _ _ _ _ _ _ _ _ Hstep)) as [[_ H]|(w & Hw & Hwp & Hl)].
  - exfalso. apply H. by apply (list_elem_of_fmap_2 write_path) in Hin.
  - destruct (step_kind _ "memory_items" _ _ _ (cs_uid _ _ _ _ _ _ _ _ _ Hstep) ltac:(decide_all) Hp Hw Hwp) as [_ Hk].
    destruct Hk; try done. simpl in Hl. eexists _, _. split_and!; eauto.
Qed.

(** The head is the one of the control state. *)
Lemma step_head :
  exists p d, state_head_ref uid = Ok p /\ _memory_state_head_from_control (control_state r) = Ok d /\ s' !! p = Some d.
Proof.
  destruct Hstep as [Hu _ _ _ _ _ _ _ [_ _ _ _ _ _ (p & d & Hp & Hd & Hin) _] Hc]. exists p, d.
  split_and!; [done..|]. eapply commit_value; [exact Hc|exact Hin|].
  intros w Hw Hwp. destruct (step_kind _ "memory_state" _ _ _ Hu ltac:(decide_all) Hp Hw Hwp) as [_ Hk].
  inversion Hk; simplify_eq/=; try done. congruence.
Qed.

(** The assertion about an item is stored, and the one of an item that must not
    have one is gone. *)
Lemma step_assertion d id :
  d ∈ memory_items r -> doc_get d "memory_id" = VStr id -> id <> "" ->
  exists p, assertion_ref uid id = Ok p /\
    match assertion_of r d with
    | Some a => s' !! p = Some (assertion_data a)
    | None => drops_assertion d = true -> s' !! p = None
    end.
Proof.
  intros Hd Hid Hne. destruct Hstep. destruct (cw_assertions _ _ _ _ cs_writes0 d Hd) as (p & Hp & Hin).
  assert (Ht : text_or d "memory_id" = id) by (unfold text_or; by rewrite Hid). rewrite Ht in Hp.
  exists p. split; [done|].
  assert (Hlast : forall w, w ∈ ws -> write_path w = p ->
    w = match assertion_of r d with Some a => WSet p (assertion_data a) | None => WDelete p end).
  { intros w Hw Hwp. destruct (assertion_write uid op_ref (operation_id op) r ws cs_uid0 cs_path0
      (cw_kinds _ _ _ _ cs_writes0) id p w Hp Hw Hwp) as (d' & _ & Hid' & ->).
    assert (doc_get d' "memory_id" = VStr id) as Hget.
    { unfold text_or in Hid'. destruct (doc_get d' "memory_id"); congruence. }
    unfold assertion_of. by rewrite Hget, Hid. }
  destruct (commit_last _ _ _ p cs_commit0) as [[_ Hno]|(w & Hw & Hwp & Hl)].
  - assert (forall w, w ∈ ws -> write_path w <> p).
    { intros w Hw Hwp. apply Hno. rewrite <-Hwp. by apply list_elem_of_fmap_2. }
    case_match; [|intros Hdr; specialize (Hin Hdr)]; naive_solver.
  - rewrite (Hlast w Hw Hwp) in Hl. by case_match.
Qed.

(** A document of the outbox is unchanged, or an event of the result is there. *)
Lemma step_outbox uid' id p :
  no_slash uid' -> outbox_ref uid' id = Ok p ->
  s' !! p = s !! p \/
  uid' = uid /\ exists e, e ∈ outbox_events r /\ event_id e = id /\ s' !! p = Some (event_data e).
Proof.
  intros Hu Hp. destruct (commit_last _ _ _ p (cs_commit _ _ _ _ _ _ _ _ _ Hstep)) as [[H _]|(w & Hw & Hwp & Hl)];
    [by left|right].
  destruct Hstep. destruct (outbox_write uid op_ref (operation_id op) r ws cs_uid0 cs_path0
    (cw_kinds _ _ _ _ cs_writes0) uid' id p w Hu Hp Hw Hwp) as (-> & e & He & Hid & ->).
  split; [done|]. exists e. by split_and!.
Qed.

Lemma step_event e :
  e ∈ outbox_events r ->
  exists p e', outbox_ref uid (event_id e) = Ok p /\ s' !! p = Some (event_data e') /\ e' ∈ outbox_events r /\
    event_id e' = event_id e.
Proof.
  intros He. destruct (cw_events _ _ _ _ (cs_writes _ _ _ _ _ _ _ _ _ Hstep) e He) as (p & Hp & Hin).
  destruct (commit_last _ _ _ p (cs_commit _ _ _ _ _ _ _ _ _ Hstep)) as [[_ H]|(w & Hw & Hwp & Hl)].
  - exfalso. apply H. by apply (list_elem_of_fmap_2 write_path) in Hin.
  - destruct Hstep. destruct (outbox_write uid op_ref (operation_id op) r ws cs_uid0 cs_path0
      (cw_kinds _ _ _ _ cs_writes0) uid (event_id e) p w cs_uid0 Hp Hw Hwp) as (_ & e' & He' & Hid & ->).
    exists p, e'. by split_and!.
Qed.
End Step.

(** Each record that was staged is stored. *)
Lemma staged_stored s s' uid op_ref op_id r ws ids proposed es staged :
  no_slash uid -> operation_ref uid op_id = Ok op_ref ->
  stored_evidence s uid ids proposed = Ok (es, staged) -> stages_first uid op_ref r staged ws ->
  commit ws s = Some s' ->
  forall id p e, id ∈ ids -> evidence_ref uid id = Ok p -> s !! p = None -> proposed_named proposed id = Some e ->
    s' !! p = Some (evidence_fields e).
Proof.
  intros Hu Hop Hev (more & -> & Hmore) Hc id p e Hid Hp Hs He.
  destruct (stored_evidence_staged _ _ _ _ _ _ Hev) as [Hin Hall].
  eapply commit_value; [exact Hc|apply elem_of_app; left; apply (list_elem_of_fmap_2 (fun '(ref, e) => WSet ref (evidence_fields e)) _ (p, e)); by eapply Hin|].
  intros w [Hw|Hw]%elem_of_app Hwp.
  - apply list_elem_of_fmap in Hw as ([q x] & -> & Hx). simpl in Hwp. subst q.
    destruct (Hall _ _ Hx) as (id' & Hp' & He'). unfold evidence_ref in *.
    destruct (same_document _ _ _ _ _ _ _ Hp Hp') as (_ & _ & <-); [done|done|decide_all|decide_all|]. congruence.
  - exfalso. assert (Hk : only_kinds uid op_ref r more) by by apply result_only.
    pose proof (fun coll' id' H => same_document uid "memory_evidence" id uid coll' id' p Hp H Hu Hu ltac:(decide_all)) as Hsame.
    unfold result_kinds in Hmore. rewrite Forall_forall in Hmore.
    destruct (Hmore w Hw) as
      [|q Hq|q d Hq Hhd|q Hq|q d Hd Hq|q e' He' Hq|d a q Hd Ha Hq|d q Hd Ha Hq|coll' i q d Hc' Hq]; simpl in Hwp; subst p;
      try (first [destruct (Hsame _ _ Hop ltac:(decide_all)) as (_ & ? & _)|
                  destruct (Hsame _ _ Hq ltac:(decide_all)) as (_ & ? & _)]; done).
    destruct (Hsame coll' i Hq (derived_collection _ Hc')) as (_ & <- & _). revert Hc'. decide_all.
Qed.

(** ** What a step does *)
Lemma count_migration_keeps rq op r :
  result_operation (count_migration rq op r) = result_operation r /\
  memory_items (count_migration rq op r) = memory_items r /\
  commit_sequence (control_state (count_migration rq op r)) = commit_sequence (control_state r) /\
  head_commit_id (control_state (count_migration rq op r)) = head_commit_id (control_state r).
Proof. unfold count_migration. case_match; [|done]. by case_match. Qed.

Lemma apply_commit_step s rq now r ws op_ref c op s' :
  no_slash (rq_uid rq) -> apply_run s rq now r ws op_ref c op -> result_status r = apply_committed ->
  commit ws s = Some s' -> commit_step s s' (rq_uid rq) now c op r op_ref ws.
Proof.
  intros Hu [Hp Hc (Ho & Hi & Hop) _ _ Hpr] Hr Hcm.
  destruct (pr_commit _ _ _ _ _ _ _ _ Hpr Hr) as (r0 & es & ex & ss & Hf).
  destruct (count_migration_keeps rq op r0) as (Hro & _ & Hseq & _).
  pose proof (cf_counted _ _ _ _ _ _ _ _ _ _ Hf) as ->.
  destruct (apply_cases _ _ _ _ _ _ (cf_apply _ _ _ _ _ _ _ _ _ _ Hf)) as [[Hn _]|(p & ev & _ & Hres & _)];
    [exfalso; apply Hn, Hf|].
  split; try done.
  - by rewrite Hi.
  - by apply stored_control_at.
  - intros d Hd. rewrite Hd in Hop. split; [exact Hop|by apply Hres].
  - rewrite Hro. apply Hres.
  - rewrite Hro. split; apply Hres.
  - rewrite Hseq, (cr_control _ _ _ _ Hres). done.
  - destruct (pr_writes _ _ _ _ _ _ _ _ Hpr); [done|done|assumption].
Qed.

Lemma deletion_commit_step s uid token now t ws op_ref c op r ids items s' :
  no_slash uid -> tombstone_run s uid token now t ws op_ref c op r ids items -> commit ws s = Some s' ->
  commit_step s s' uid now c op r op_ref ws.
Proof.
  intros Hu [Hp Hn Ho Hc _ _ [_ (id & Hh) _ Hid Hf Hw _ _] _ _] Hcm. split; try done.
  - by apply stored_control_at.
  - intros d Hd. congruence.
  - by rewrite Hh.
Qed.

(** The bump keeps the head and the sequence. *)
Lemma bump_run uid now s c' s' :
  atomic_bump_source_generation uid now s = Ok (c', s') ->
  exists p c, control_ref uid = Ok p /\ control_at s uid now c /\
    c' = with_source_generation c (source_generation c + 1) now /\ s' = <[p := control_data c']> s.
Proof.
  unfold atomic_bump_source_generation. intros H.
  assert (Hr : runs (_atomic_bump_source_generation_transaction uid now) (fun c' ws => exists p c,
    control_ref uid = Ok p /\ control_at s uid now c /\
    c' = with_source_generation c (source_generation c + 1) now /\ ws = [WSet p (control_data c')]) s []).
  { unfold _atomic_bump_source_generation_transaction.
    eapply runs_reads; [apply (reads_lift _ (fun _ p => control_ref uid = Ok p)); auto|]. intros p Hp.
    eapply runs_reads; [by apply initial_reads|]. intros c [Hc _].
    destruct (require_writer_admitted _ _ _); [|by apply runs_lift]. apply runs_bind, runs_write, runs_ret. by exists p, c. }
  destruct (run_txn_runs _ _ _ _ _ Hr H) as (ws & (p & c & Hp & Hc & -> & ->) & Hcm).
  exists p, c. simpl in Hcm. injection Hcm as <-. done.
Qed.

(** ** A replacement as a sequence of commits *)

(** The rows [rows] of [uid] are retracted; no receipt goes. *)
Record retract_step (s s' : db) (uid : string) (rows : list (string * item)) : Prop := {
  rs_same uid' coll id p : no_slash uid' -> coll ∈ ["memory_state"; "memory_operations"; "memory_commits"] ->
    memory_ref uid' coll id = Ok p -> s' !! p = s !! p;
  rs_rows uid' id p : no_slash uid' -> item_ref uid' id = Ok p ->
    s' !! p = s !! p \/ uid' = uid /\ exists d, (id, d) ∈ rows /\ s' !! p = Some d;
  rs_receipts uid' id p : no_slash uid' -> deletion_receipt_ref uid' id = Ok p ->
    s' !! p = s !! p \/ exists d, s' !! p = Some d
}.

Lemma retract_writes_step s s' uid rows ws :
  no_slash uid -> retract_writes uid rows ws -> commit ws s = Some s' -> retract_step s s' uid rows.
Proof.
  intros Hu Hk Hc. unfold retract_writes in Hk. rewrite Forall_forall in Hk.
  assert (Hw : forall uid' coll id p, no_slash uid' -> coll ∈ collections -> memory_ref uid' coll id = Ok p ->
    s' !! p = s !! p \/ coll ∈ ["memory_evidence"; "memory_graph_assertions"] \/
    (uid' = uid /\ coll = "memory_items" /\ exists d, (id, d) ∈ rows /\ s' !! p = Some d) \/
    (coll = "memory_deletion_receipts" /\ exists d, s' !! p = Some d)).
  { intros uid' coll id p Hu' Hcoll Hp.
    destruct (commit_last _ _ _ p Hc) as [[E _]|(w & Hin & Hwp & Hl)]; [by left|right].
    pose proof (fun coll' id' H => same_document uid' coll id uid coll' id' p Hp H Hu' Hu Hcoll) as Hsame.
    destruct (Hk w Hin) as [i q d Hd Hq|i q d Hq|i q d Hq|i q Hq]; simpl in Hwp; subst q.
    - destruct (Hsame _ _ Hq ltac:(decide_all)) as (-> & -> & ->). right; left. split_and!; [done..|]. by exists d.
    - destruct (Hsame _ _ Hq ltac:(decide_all)) as (-> & -> & ->). left. decide_all.
    - destruct (Hsame _ _ Hq ltac:(decide_all)) as (-> & -> & ->). right; right. split; [done|]. by exists d.
    - destruct (Hsame _ _ Hq ltac:(decide_all)) as (-> & -> & ->). left. decide_all. }
  split.
  - intros uid' coll id p Hu' Hcoll Hp.
    assert (Hin : coll ∈ collections).
    { revert Hcoll. apply (proj1 (Forall_forall (fun c => c ∈ collections) ["memory_state"; "memory_operations"; "memory_commits"])). decide_all. }
    destruct (Hw _ _ _ _ Hu' Hin Hp) as [?|[Hc'|[(_ & -> & _)|(-> & _)]]]; [done|exfalso..].
    + revert Hcoll Hc'. clear. set_solver.
    + revert Hcoll. decide_all.
    + revert Hcoll. decide_all.
  - intros uid' id p Hu' Hp.
    destruct (Hw uid' "memory_items" id p Hu' ltac:(decide_all) Hp) as [?|[Hc'|[(? & _ & ?)|(? & _)]]]; [by left| |by right|done].
    exfalso. revert Hc'. decide_all.
  - intros uid' id p Hu' Hp.
    destruct (Hw uid' "memory_deletion_receipts" id p Hu' ltac:(decide_all) Hp) as [?|[Hc'|[(_ & ? & _)|(_ & ?)]]];
      [by left| |done|by right].
    exfalso. revert Hc'. decide_all.
Qed.

(** Commits of one account, one after the other. *)
Inductive commit_steps (uid : string) (now : Z) : db -> list (MemoryOperation * ApplyResult) -> db -> Prop :=
| steps_nil s : commit_steps uid now s [] s
| steps_cons s s1 s2 c op r p ws l :
    commit_step s s1 uid now c op r p ws -> commit_steps uid now s1 l s2 -> commit_steps uid now s ((op, r) :: l) s2.

Lemma control_at_step s s' uid now c op r op_ref ws :
  commit_step s s' uid now c op r op_ref ws -> valid_control (control_state r) = true -> control_at s' uid now (control_state r).
Proof.
  intros H Hv. destruct (cs_writes _ _ _ _ _ _ _ _ _ H) as [_ _ (p & Hp & _) _ _ _ _ _]. exists p. split; [done|].
  rewrite (step_control _ _ _ _ _ _ _ _ _ H _ Hp). by apply control_roundtrip.
Qed.

Lemma line_steps uid now c l last wss s s' :
  no_slash uid -> result_line uid c l last -> control_at s uid now c ->
  NoDup ((fun x => operation_id x.1) <$> l) ->
  (forall x p, x ∈ l -> operation_ref uid (operation_id x.1) = Ok p -> s !! p = None) ->
  Forall2 (fun x ws => exists p, operation_ref uid (operation_id (result_operation x.2)) = Ok p /\ complete_writes uid p x.2 ws) l wss ->
  commit (concat wss) s = Some s' -> commit_steps uid now s l s'.
Proof.
  intros Hu Hline. revert wss s. induction Hline as [c|c op r l last Hn Hline IH]; intros wss s Hc Hnd Hnew Hw Hcm.
  - inversion Hw; subst. simpl in Hcm. injection Hcm as <-. constructor.
  - inversion Hw as [|x ws l' wss' (p & Hp & Hcw) Hw']; subst. clear Hw. simpl in Hcm, Hp, Hcw. rewrite commit_app in Hcm.
    destruct (commit ws s) as [s1|] eqn:E; [|done]. simpl in Hcm. cbn in Hnd. apply NoDup_cons in Hnd as [Hno Hnd].
    assert (Hid : operation_id (result_operation r) = operation_id op) by apply Hn. rewrite Hid in Hp.
    assert (Hstep : commit_step s s1 uid now c op r p ws).
    { destruct Hn. split; try done. intros d Hd. rewrite (Hnew (op, r) p) in Hd; [done|set_solver|done]. }
    econstructor; [exact Hstep|]. apply (IH wss'); try done.
    + eapply control_at_step; [exact Hstep|apply Hn].
    + intros x q Hx Hq.
      destruct (step_document _ _ _ _ _ _ _ _ _ Hstep uid "memory_operations" (operation_id x.1) q Hu ltac:(decide_all) Hq)
        as [->|(_ & d & _ & Hk)]; [apply (Hnew x); [set_solver|done]|].
      exfalso. apply Hno. assert (operation_id op = operation_id x.1) as -> by (by inversion Hk).
      by apply (list_elem_of_fmap_2 (fun x => operation_id x.1)).
Qed.

(** ** The effect of a step *)
(** The operations of a replacement with their results. *)
Definition replacement_line (rq : replacement_request) (planned : list planned_write) (r : ApplyResult)
    (results : list ApplyResult) : list (MemoryOperation * ApplyResult) :=
  (rp_operation rq, r) :: zip ((fun p => aw_operation (pw_write p)) <$> planned) results.

Inductive step_effect (admitted : policy) (s s' : db) : Prop :=
| effect_applied rq now r ws op_ref c op :
    admits_apply admitted s rq now -> apply_run s rq now r ws op_ref c op -> result_status r = apply_committed ->
    commit_step s s' (rq_uid rq) now c op r op_ref ws -> step_effect admitted s s'
| effect_refused rq now r ws op_ref c op :
    no_slash (rq_uid rq) -> apply_run s rq now r ws op_ref c op -> result_status r <> apply_committed ->
    s' = s \/ s' = <[op_ref := operation_data (result_operation r)]> s -> step_effect admitted s s'
| effect_deleted uid token now t ws op_ref c op r ids items :
    tombstone_run s uid token now t ws op_ref c op r ids items ->
    commit_step s s' uid now c op r op_ref ws -> step_effect admitted s s'
| effect_bumped uid p now c d :
    no_slash uid -> control_ref uid = Ok p -> control_at s uid now c ->
    d = control_data (with_source_generation c (source_generation c + 1) now) ->
    s' = <[p := d]> s -> step_effect admitted s s'
| effect_replaced rq now t c sources lineage planned next last rows r results pre wss s0 sn ref receipt :
    no_slash (rp_uid rq) -> admits_replacement admitted s rq now ->
    replacement_run s rq now c sources lineage planned ->
    replacement_commit rq c sources lineage planned now t next last rows r results pre wss ->
    commit pre s = Some s0 -> retract_step s s0 (rp_uid rq) rows ->
    commit_steps (rp_uid rq) now s0 (replacement_line rq planned r results) sn ->
    replacement_ref (rp_uid rq) (rp_replacement_id rq) = Ok ref -> s' = <[ref := receipt]> sn -> step_effect admitted s s'
| effect_elsewhere :
    (forall uid coll id p, no_slash uid -> coll ∈ ledger_collections -> memory_ref uid coll id = Ok p -> s' !! p = s !! p) ->
    step_effect admitted s s'.

Lemma refused_writes uid op_ref r ws s s' :
  outcome_writes uid op_ref r ws -> result_status r <> apply_committed -> commit ws s = Some s' ->
  s' = s \/ s' = <[op_ref := operation_data (result_operation r)]> s.
Proof. intros [?|?|? ? ?] Hr Hc; simpl in Hc; [left|right|done]; congruence. Qed.

Lemma zip_fst {A B} (l : list A) (k : list B) : length k = length l -> (zip l k).*1 = l.
Proof. revert k. induction l as [|x l IH]; intros [|y k] H; try done. simpl in *. f_equal. apply IH. lia. Qed.

Lemma zip_fst_fmap {A B C} (f : A -> C) (l : list A) (k : list B) :
  length k = length l -> (fun x => f x.1) <$> zip l k = f <$> l.
Proof. revert k. induction l as [|x l IH]; intros [|y k] H; try done. simpl in *. f_equal. apply IH. lia. Qed.

Lemma zip_snd {A B} (l : list A) (k : list B) : length k = length l -> (zip l k).*2 = k.
Proof. revert k. induction l as [|x l IH]; intros [|y k] H; try done. simpl in *. f_equal. apply IH. lia. Qed.

(** A replacement that returns is a sequence of commits after a retraction. *)
Lemma replacement_steps mode rq now s t s' :
  no_slash (rp_uid rq) -> distinct_operations rq -> replace_conversation_source_firestore mode rq now s = Ok (t, s') ->
  (s' = s /\ control_at s (rp_uid rq) now (replaced_control t) /\
     exists ref receipt, replacement_ref (rp_uid rq) (rp_replacement_id rq) = Ok ref /\
       earlier_call s rq now (replaced_control t) ref t receipt) \/
  exists c sources lineage planned next last rows r results pre wss s0 sn ref,
    replacement_run s rq now c sources lineage planned /\
    replacement_commit rq c sources lineage planned now t next last rows r results pre wss /\
    commit pre s = Some s0 /\ retract_step s s0 (rp_uid rq) rows /\
    commit_steps (rp_uid rq) now s0 (replacement_line rq planned r results) sn /\
    replacement_ref (rp_uid rq) (rp_replacement_id rq) = Ok ref /\ s' = <[ref := receipt_data rq t now]> sn.
Proof.
  intros Hu Hd H. destruct (replacement_store_run _ _ _ _ _ _ H) as (ws & Ho & Hc).
  destruct Ho as [ref receipt Href Hctl Hcall ->|c sources lineage planned next last rows r results pre wss ref Hrun Href -> Hrc];
    [left; simpl in Hc; injection Hc as <-; split_and!; [done..|by exists ref, receipt]|right].
  rewrite !commit_app in Hc. destruct (commit pre s) as [s0|] eqn:E0; [|done]. simpl in Hc. rewrite commit_app in Hc.
  destruct (commit (concat wss) s0) as [sn|] eqn:En; [|done]. simpl in Hc. injection Hc as <-.
  pose proof (retract_writes_step _ _ _ _ _ Hu (rc_pre _ _ _ _ _ _ _ _ _ _ _ _ _ _ Hrc) E0) as Hret.
  destruct (rc_next _ _ _ _ _ _ _ _ _ _ _ _ _ _ Hrc) as (_ & _ & Hvalid).
  destruct (applied_line _ _ _ _ _ _ _ _ Hvalid (rr_planned _ _ _ _ _ _ _ Hrun) (rc_applied _ _ _ _ _ _ _ _ _ _ _ _ _ _ Hrc))
    as (Hline & Hlen & _).
  assert (Hops : (fun x => operation_id x.1) <$> replacement_line rq planned r results =
                 operation_id <$> (rp_operation rq :: (aw_operation <$> rp_writes rq))).
  { unfold replacement_line. rewrite !fmap_cons. f_equal. rewrite <-(rr_writes _ _ _ _ _ _ _ Hrun).
    rewrite zip_fst_fmap by (by rewrite length_fmap). by rewrite <-!list_fmap_compose. }
  exists c, sources, lineage, planned, next, last, rows, r, results, pre, wss, s0, sn, ref.
  split_and!; try done. eapply line_steps; [exact Hu| | | | | |exact En].
  - unfold replacement_line. econstructor; [apply Hrc|]. rewrite (rc_control _ _ _ _ _ _ _ _ _ _ _ _ _ _ Hrc). exact Hline.
  - destruct (proj1 (rr_control _ _ _ _ _ _ _ Hrun)) as (p & Hp & Hs). exists p. split; [done|].
    rewrite (rs_same _ _ _ _ Hret (rp_uid rq) "memory_state" "apply_control" p); [exact Hs|done|decide_all|done].
  - by rewrite Hops.
  - intros x p Hx Hp. rewrite (rs_same _ _ _ _ Hret (rp_uid rq) "memory_operations" (operation_id x.1) p);
      [|done|decide_all|done].
    unfold replacement_line in Hx. apply elem_of_cons in Hx as [->|Hx].
    + destruct (rr_new _ _ _ _ _ _ _ Hrun) as (q & Hq & Hs). simpl in Hp. congruence.
    + assert (Hin : x.1 ∈ (fun p => aw_operation (pw_write p)) <$> planned).
      { rewrite <-(zip_fst _ results); [|by rewrite length_fmap]. by apply (list_elem_of_fmap_2 fst). }
      apply list_elem_of_fmap in Hin as (pw & Hpw & Hin).
      pose proof (proj1 (Forall_forall _ _) (rr_planned _ _ _ _ _ _ _ Hrun) pw Hin) as Hok.
      destruct (po_new _ _ _ _ Hok) as (q & Hq & Hs). rewrite Hpw in Hp. congruence.
  - pose proof (rc_writes _ _ _ _ _ _ _ _ _ _ _ _ _ _ Hrc) as Hw. unfold replacement_line.
    inversion Hw as [|? ws0 ? wss0 Hr0 Hrest]; subst. constructor; [exact Hr0|].
    rewrite <-(zip_snd ((fun p => aw_operation (pw_write p)) <$> planned) results) in Hrest by (by rewrite length_fmap).
    by rewrite Forall2_fmap_l in Hrest.
Qed.

Lemma ledger_step_effect admitted s s' : ledger_step admitted s s' -> step_effect admitted s s'.
Proof.
  destruct 1 as [mode rq now s r s' Hu Ha H|uid now s c s' Hu H|uid reason ob ex pr token rv now s t s' Hu H
    |mode rq now s t s' Hu Hd Ha H|ws s s' Hw H].
  - destruct (apply_store_run _ _ _ _ _ _ H) as (ws & op_ref & c & op & Hrun & Hc).
    destruct (decide (result_status r = apply_committed)) as [Hr|Hr].
    + eapply effect_applied; [done..|]. by apply apply_commit_step.
    + eapply effect_refused; [done..|]. eapply refused_writes; [apply Hrun|done..].
  - destruct (bump_run _ _ _ _ _ H) as (p & c0 & Hp & Hc & -> & ->). by eapply effect_bumped.
  - destruct (tombstone_store_run _ _ _ _ _ _ _ _ _ _ _ H) as (ws & op_ref & c & op & r & ids & items & Hrun & Hc).
    eapply effect_deleted; [done|]. by eapply deletion_commit_step.
  - destruct (replacement_steps _ _ _ _ _ _ Hu Hd H) as [[-> _]|Hs]; [by apply effect_elsewhere|].
    destruct Hs as (c & sources & lineage & planned & next & last & rows & r & results & pre & wss & s0 & sn & ref & ?).
    destruct_and!. by eapply effect_replaced.
  - apply effect_elsewhere. intros uid coll id p Hu Hcoll Hp.
    destruct (commit_last _ _ _ p H) as [[? _]|(w & Hin & Hwp & _)]; [done|].
    exfalso. rewrite Forall_forall in Hw. apply (Hw w Hin uid coll id Hu Hcoll). by rewrite Hwp.
Qed.
End History.
