(* ===== verification/MemoryRows.v ===== *)
(** * The rows of an account and what a replacement writes to them

    Every row is stored under its own name, and a row is written only by a commit
    that names it.  Where the names of the rows of a commit come from, and which
    rows a source replacement writes. *)

From S2P Require Import Prelude PyValue Firestore LegalHolds LegalHoldProofs Sha256 MemoryText MemoryOperations MemoryModels MemoryPromotion MemoryApply MemoryRecords MemoryReceipts MemoryStore MemoryPrivacy MemoryReplacement MemoryProofs MemoryItemProofs MemoryTheorems MemoryStoreProofs MemoryPrivacyProofs MemoryReplacementProofs MemoryHistory.
From Stdlib Require Import QArith_base Ascii.
From stdpp Require Import sorting.
Local Open Scope Z_scope.

#[local] Opaque deterministic_contract_id json_text sha256.

Section Rows.
Context {T : TextEnv} {Md : ModelEnv} {St : StoreEnv}.

(** ** The names of the committed rows *)
Lemma read_items_elem l items e :
  MemoryApply.read_items l = Ok items -> e ∈ items -> exists v, VDict v ∈ l /\ memory_item (fields_of v) = Ok e.
Proof.
  revert items. induction l as [|v l IH]; intros items H He; simpl in H; [injection H as <-; by apply elem_of_nil in He|].
  destruct v as [| | | | | | |dv]; try done. apply res_bind_Ok in H as (i & Hi & H).
  apply res_bind_Ok in H as (rest & Hr & H). injection H as <-.
  apply elem_of_cons in He as [->|He]; [exists dv; split; [set_solver|done]|].
  destruct (IH rest Hr He) as (v & ? & ?). exists v. split; [set_solver|done].
Qed.

Lemma superseded_from p v d commit_id sequence now items i :
  superseded_of p v d commit_id sequence now = Ok (inr items) -> i ∈ items ->
  superseded_ids p <> [] /\ exists l w e, v = VList l /\ VDict w ∈ l /\ memory_item (fields_of w) = Ok e /\
    doc_get i "memory_id" = doc_get e "memory_id".
Proof.
  unfold superseded_of. case_decide as Hids; [intros [= <-] Hi; by apply elem_of_nil in Hi|].
  destruct v as [| | | | | |l|]; try done. intros H Hi. apply res_bind_Ok in H as (its & Hits & H).
  case_decide; [|done]. apply supersede_items_marked in H. split; [done|].
  apply list_elem_of_lookup in Hi as [n Hn]. destruct (Forall2_lookup_r _ _ _ _ _ H Hn) as (id & _ & e & He & Hm & _).
  unfold items_by_id in He. apply elem_of_list_to_map_2 in He. apply list_elem_of_In, in_rev, list_elem_of_In in He.
  apply list_elem_of_fmap in He as (e' & [= -> ->] & He).
  destruct (read_items_elem _ _ _ Hits He) as (w & Hw & Hm').
  exists l, w, e'. split_and!; [done..|]. destruct Hm as [_ _ _ Hk _ _]. by apply (Forall_inv Hk).
Qed.

(** Where the name of a committed row comes from. *)
Lemma committed_name c op raw allow now r d :
  keeps_names -> apply_long_term_patch_transaction c op raw allow now = Ok r -> result_status r = apply_committed ->
  d ∈ memory_items r ->
  exists p, durable_memory_patch (patch_fields raw) = Ok p /\
    let name := _deterministic_materialized_memory_id (op_uid op) p (head_commit_id (control_state r)) in
    (v_is (doc_get p "decision") "update" = true /\ exists l e, doc_get raw "existing_item" = VDict l /\
       memory_item (fields_of l) = Ok e /\ doc_get d "memory_id" = doc_get e "memory_id") \/
    (v_is (doc_get p "decision") "update" = false /\ doc_get d "memory_id" = name) \/
    (superseded_ids p <> [] /\ exists l w e, doc_get raw "superseded_items" = VList l /\ VDict w ∈ l /\
       memory_item (fields_of w) = Ok e /\ doc_get d "memory_id" = doc_get e "memory_id").
Proof.
  intros Hlaw Ha Hc Hd. destruct (memory_items r) as [|d1 items] eqn:Hi; [by apply elem_of_nil in Hd|].
  destruct (committed_items_cases _ _ _ _ _ _ _ _ Ha Hc Hi) as (p & ev & ex & d0 & H).
  exists p. split; [apply (ci_passed _ _ _ _ _ _ _ _ _ _ _ _ H)|]. cbv zeta.
  apply elem_of_cons in Hd as [->|Hd].
  - pose proof (committed_item_field _ _ _ _ _ _ _ _ _ _ _ _ "memory_id" H ltac:(decide_key)) as Hid.
    pose proof (ci_existing _ _ _ _ _ _ _ _ _ _ _ _ H) as He. pose proof (ci_patched _ _ _ _ _ _ _ _ _ _ _ _ H) as Hp.
    unfold existing_of in He. destruct (v_is (doc_get p "decision") "update").
    + left. split; [done|]. destruct (doc_get raw "existing_item") as [| | | | | | |l]; try done.
      apply res_bind_Ok in He as (e & He & Hex). injection Hex as <-. exists l, e. split_and!; [done..|].
      apply patched_update in Hp as [_ Hu]. rewrite Hid. by destruct (update_fields _ _ _ _ _ _ _ _ _ _ Hu) as [_ _ _ _ [? _]].
    + right; left. split; [done|]. injection He as <-. rewrite Hid. by eapply patched_name.
  - right; right. destruct (superseded_from _ _ _ _ _ _ _ _ (ci_superseded _ _ _ _ _ _ _ _ _ _ _ _ H) Hd)
      as (Hn & l & w & e & ? & ? & ? & ?). split; [done|]. by exists l, w, e.
Qed.

(** ** Rows of the store *)

(** A row is stored under its own name. *)
Definition rows_named (s : db) (uid : string) : Prop :=
  forall id p d, item_ref uid id = Ok p -> s !! p = Some d -> text_or d "memory_id" = id.

(** The row of a deleted memory. *)
Definition deleted_row (s : db) (uid id : string) (d : item) : Prop :=
  exists p, item_ref uid id = Ok p /\ s !! p = Some d /\ doc_get d "status" = VStr "tombstoned".

Lemma text_is d k s : text_or d k = s -> s <> "" -> doc_get d k = VStr s.
Proof. unfold text_or. destruct (doc_get d k); congruence. Qed.

Lemma item_named d e : keeps_names -> memory_item d = Ok e -> exists id, doc_get d "memory_id" = VStr id /\
  doc_get e "memory_id" = VStr id /\ id <> "".
Proof.
  intros Hlaw H. pose proof (memory_item_name _ _ Hlaw H) as He. apply memory_item_valid in H.
  unfold valid_item in H. repeat (apply andb_true_iff in H as [H _]).
  unfold text_or in H. rewrite <-He. destruct (doc_get e "memory_id"); try discriminate H.
  exists s. split_and!; [done..|]. by intros ->.
Qed.

(** An item that was read is the row of its name. *)
Lemma item_at_name s uid id e :
  keeps_names -> rows_named s uid -> item_at s uid id e -> doc_get e "memory_id" = VStr id.
Proof.
  intros Hlaw Hn (p & raw & Hp & Hs & He). destruct (item_named _ _ Hlaw He) as (x & Hraw & Hx & _).
  specialize (Hn _ _ _ Hp Hs). unfold text_or in Hn. rewrite Hraw in Hn. by subst.
Qed.

Lemma deleted_not_read s uid id d e :
  keeps_states -> deleted_row s uid id d -> item_at s uid id e -> v_is (doc_get e "status") "tombstoned" = true.
Proof.
  intros Hlaw (p & Hp & Hs & Hd) (q & raw & Hq & Hr & He). assert (q = p) as -> by congruence.
  assert (raw = d) as -> by congruence. rewrite (memory_item_keeps _ _ "status" Hlaw He);
    [by rewrite Hd|decide_key|by rewrite Hd].
Qed.

Lemma sorted_set_elem x l : x ∈ sorted_set l <-> x ∈ l.
Proof.
  unfold sorted_set, sorted_strs. rewrite <-(elem_of_remove_dups l).
  split; apply elem_of_Permutation_proper; by rewrite merge_sort_Permutation.
Qed.

(** ** A write that adds its own row *)
Record adds_row (p : patch) (payload : fields) : Prop := {
  ad_decision : doc_get p "decision" = VStr "add";
  ad_target : truthy (doc_get p "target_memory_id") = false;
  ad_supersedes : superseded_ids p = [];
  ad_name n : new_name payload = Ok n -> doc_get p "new_memory_id" = VStr n
}.

(** Every write of a replacement adds the row it names and supersedes none. *)
Definition plain_replacement (rq : replacement_request) : Prop :=
  forall w p, w ∈ rp_writes rq -> durable_memory_patch (patch_fields (aw_payload w)) = Ok p -> adds_row p (aw_payload w).

Lemma new_name_nonblank payload n : new_name payload = Ok n -> n <> "".
Proof.
  unfold new_name. destruct (doc_get payload "new_memory_id"); try done. unfold nonblank.
  case_bool_decide; [done|]. by intros [= <-].
Qed.

Lemma patch_fields_popped k v m : k ∈ popped_keys -> patch_fields (<[k := v]> m) = patch_fields m.
Proof. intros Hk. unfold patch_fields. apply map_filter_insert_not. intros; simpl. tauto. Qed.

(** The one row of such a write carries its name, and the commit that wrote it. *)
Lemma added_row c op payload es now r p n :
  keeps_states -> keeps_names -> adds_row p payload -> durable_memory_patch (patch_fields payload) = Ok p ->
  new_name payload = Ok n ->
  apply_long_term_patch_transaction c op (<["evidence" := VList es]> payload) false now = Ok r ->
  result_status r = apply_committed ->
  exists d, memory_items r = [d] /\ doc_get d "memory_id" = VStr n /\
    doc_get d "ledger_sequence" = VInt (commit_sequence (control_state r)).
Proof.
  intros Hst Hnm [Hdec Htgt Hsup Hname] Hp Hn Ha Hc.
  destruct (apply_cases _ _ _ _ _ _ Ha) as [[? _]|(p' & ev & Hps & Hres & Hsh)]; [done|].
  assert (p' = p) as ->.
  { pose proof (pass_patch _ _ _ _ _ Hps) as E. rewrite patch_fields_popped in E by decide_key. congruence. }
  destruct Hsh as [Hskip _ _ _|existing d0 d assertions items _ He Hpt Hat Hsp Hit _ _]; [by rewrite Hdec in Hskip|].
  unfold existing_of in He. rewrite Hdec in He. change (v_is (VStr "add") "update") with false in He.
  injection He as <-. exists d.
  unfold superseded_of in Hsp. rewrite Hsup, decide_True in Hsp by done. injection Hsp as <-.
  destruct (attach_keeps _ _ _ _ _ _ _ Hat) as [Hf _].
  split; [done|]. rewrite !Hf by decide_key. rewrite (patched_name _ _ _ _ _ _ _ _ _ _ Hnm Hpt). split.
  - unfold _deterministic_materialized_memory_id. rewrite Htgt, (Hname _ Hn).
    pose proof (new_name_nonblank _ _ Hn). by destruct n.
  - rewrite (cr_control _ _ _ _ Hres). destruct (patched_create _ _ _ _ _ _ _ _ _ _ Hst Hpt) as [_ _ [_ ->]]. done.
Qed.

(** The rows of the results that follow a replacement. *)
Lemma applied_rows s rq sources now c ps rs last :
  keeps_states -> keeps_names -> Forall (planned_ok s rq sources) ps ->
  (forall p w, p ∈ ps -> durable_memory_patch (patch_fields (aw_payload (pw_write p))) = Ok w -> adds_row w (aw_payload (pw_write p))) ->
  applied now c ps rs last ->
  Forall2 (fun p r => exists d, memory_items r = [d] /\ doc_get d "memory_id" = VStr (pw_id p) /\
    doc_get d "ledger_sequence" = VInt (commit_sequence (control_state r))) ps rs.
Proof.
  intros Hst Hnm Hok Hplain Ha. induction Ha as [|c p ps r0 r rs last Hr0 Hc Hr _ IH]; [constructor|].
  apply Forall_cons_1 in Hok as [Hp Hok]. constructor; [|apply IH; [done|intros; apply Hplain; [set_solver|done]]].
  destruct (apply_cases _ _ _ _ _ _ Hr0) as [[? _]|(w & ev & Hps & _ & _)]; [done|].
  pose proof (pass_patch _ _ _ _ _ Hps) as E. rewrite patch_fields_popped in E by decide_key.
  destruct (added_row _ _ _ _ _ _ w (pw_id p) Hst Hnm (Hplain p w ltac:(set_solver) E) E (po_name _ _ _ _ Hp) Hr0 Hc)
    as (d & Hd & Hid & Hsq).
  destruct (refresh_Ok _ _ _ _ Hr) as (_ & Hctl & _ & Hi). rewrite Hd in Hi.
  inversion Hi as [|? d' ? l Hsame Hnil]; subst. inversion Hnil; subst. exists d'.
  split; [done|]. by rewrite !Hsame, Hctl by decide_key.
Qed.

(** ** The rows of a replacement *)
Section Replacement.
Variables (s : db) (rq : replacement_request) (now : Z) (c : MemoryControlState) (sources : list source_row)
  (lineage : list item) (planned : list planned_write) (t : ConversationSourceReplacementResult)
  (next last : MemoryControlState) (rows : list (string * item)) (r : ApplyResult) (results : list ApplyResult)
  (pre : list write) (wss : list (list write)).
Hypothesis Hstates : keeps_states.
Hypothesis Hnames : keeps_names.
Hypothesis Hnamed : rows_named s (rp_uid rq).
Hypothesis Hrun : replacement_run s rq now c sources lineage planned.
Hypothesis Hrc : replacement_commit rq c sources lineage planned now t next last rows r results pre wss.

(** A retracted row was a standing row of the source, and keeps its name. *)
Lemma retracted_row id d :
  (id, d) ∈ rows -> exists e, standing s (rp_uid rq) id e /\ scrubbed_row e d /\ doc_get d "memory_id" = VStr id /\
    id ∈ (sr_id <$> sources).
Proof.
  intros Hin. apply list_elem_of_lookup in Hin as [n Hn].
  destruct (Forall2_lookup_r _ _ _ _ _ (rc_rows _ _ _ _ _ _ _ _ _ _ _ _ _ _ Hrc) Hn) as (x & Hx & Hid & Hsc).
  apply list_elem_of_lookup_2 in Hx. simpl in Hid, Hsc. subst id.
  pose proof (proj1 (Forall_forall _ _) (rr_sources _ _ _ _ _ _ _ Hrun) x Hx) as Hstand. exists (sr_item x). split_and!; [done..| |].
  - destruct Hsc as [-> _]. eapply item_at_name; [exact Hnames|exact Hnamed|apply Hstand].
  - by apply (list_elem_of_fmap_2 sr_id).
Qed.

(** A reactivated row is a standing row outside the source. *)
Lemma reactivated_row d :
  d ∈ memory_items r -> exists id e, standing s (rp_uid rq) id e /\ (id ∉ (sr_id <$> sources)) /\ doc_get d "memory_id" = VStr id.
Proof.
  intros Hd. destruct (rc_items _ _ _ _ _ _ _ _ _ _ _ _ _ _ Hrc d Hd) as (e & a & He & Hr).
  destruct (rr_lineage _ _ _ _ _ _ _ Hrun e He) as (id & Hno & Hstand). exists id, e. split_and!; [done..|].
  rewrite (reactivate_Ok _ _ _ _ _ Hnames Hr). eapply item_at_name; [exact Hnames|exact Hnamed|apply Hstand].
Qed.

Hypothesis Hplain : plain_replacement rq.

Lemma replacement_rows :
  Forall2 (fun p r => exists d, memory_items r = [d] /\ doc_get d "memory_id" = VStr (pw_id p) /\
    doc_get d "ledger_sequence" = VInt (commit_sequence (control_state r))) planned results.
Proof.
  eapply applied_rows; [exact Hstates|exact Hnames|apply Hrun| |apply Hrc].
  intros p w Hp Hw. apply Hplain; [|done]. rewrite <-(rr_writes _ _ _ _ _ _ _ Hrun). by apply (list_elem_of_fmap_2 pw_write).
Qed.

(** Whose names the commits of the replacement write: new rows, and standing rows
    outside the source. *)
Lemma line_row op r' d :
  (op, r') ∈ replacement_line rq planned r results -> d ∈ memory_items r' ->
  exists id, doc_get d "memory_id" = VStr id /\
    ((exists e, standing s (rp_uid rq) id e) /\ (id ∉ (sr_id <$> sources)) \/ id ∈ (pw_id <$> planned)).
Proof.
  unfold replacement_line. intros [[= -> ->]|Hin]%elem_of_cons Hd.
  - destruct (reactivated_row d Hd) as (id & e & ? & ? & ?). exists id. split; [done|]. left. split; [by exists e|done].
  - pose proof replacement_rows as Hr. apply (list_elem_of_fmap_2 snd) in Hin.
    rewrite zip_snd in Hin by (rewrite length_fmap; symmetry; by eapply Forall2_length).
    apply list_elem_of_lookup in Hin as [n Hn]. destruct (Forall2_lookup_r _ _ _ _ _ Hr Hn) as (p & Hp & d' & Hi & Hid & _).
    simpl in *. rewrite Hi in Hd. apply list_elem_of_singleton in Hd as ->. exists (pw_id p). split; [done|]. right.
    apply (list_elem_of_fmap_2 pw_id). by eapply list_elem_of_lookup_2.
Qed.

(** A name that is planned was a row of the source, or no deletion blocks it. *)
Lemma planned_name id :
  id ∈ (pw_id <$> planned) -> (exists e, standing s (rp_uid rq) id e) \/ unblocked s (rp_uid rq) id.
Proof.
  intros (p & -> & Hp)%list_elem_of_fmap.
  destruct (po_prior _ _ _ _ (proj1 (Forall_forall _ _) (rr_planned _ _ _ _ _ _ _ Hrun) p Hp)) as [(x & Hx & <- & _)|[Hu _]]; [left|by right].
  exists (sr_item x). exact (proj1 (Forall_forall _ _) (rr_sources _ _ _ _ _ _ _ Hrun) x Hx).
Qed.
End Replacement.

(** ** Steps and rows *)

(** A commit leaves a row that none of its items names. *)
Lemma commit_spares s s' uid uid' now c op r op_ref ws id p d :
  no_slash uid -> item_ref uid id = Ok p -> id <> "" -> commit_step s s' uid' now c op r op_ref ws ->
  (uid' = uid -> forall d', d' ∈ memory_items r -> doc_get d' "memory_id" <> VStr id) ->
  s !! p = Some d -> s' !! p = Some d.
Proof.
  intros Hu Hp Hid H Hno Hs.
  destruct (step_document _ _ _ _ _ _ _ _ _ H uid "memory_items" id p Hu ltac:(decide_all) Hp)
    as [E|(<- & d' & _ & Hk)]; [by rewrite E|]. exfalso. inversion Hk; try done. subst.
  eapply Hno; [done|eassumption|]. by apply text_is.
Qed.

Lemma steps_spare s s' uid uid' now l id p d :
  no_slash uid -> item_ref uid id = Ok p -> id <> "" -> commit_steps uid' now s l s' ->
  (uid' = uid -> forall op r d', (op, r) ∈ l -> d' ∈ memory_items r -> doc_get d' "memory_id" <> VStr id) ->
  s !! p = Some d -> s' !! p = Some d.
Proof.
  intros Hu Hp Hid H Hno. induction H as [|s s1 s2 c op r q ws l Hstep _ IH]; [done|]. intros Hs. apply IH.
  - intros E op' r' d' Hin. apply (Hno E op' r'). set_solver.
  - eapply commit_spares; [exact Hu|exact Hp|exact Hid|exact Hstep| |exact Hs].
    intros E d' Hd'. apply (Hno E op r); [set_solver|done].
Qed.

Lemma named_commit s s' uid uid' now c op r op_ref ws :
  no_slash uid -> commit_step s s' uid' now c op r op_ref ws -> rows_named s uid -> rows_named s' uid.
Proof.
  intros Hu H Hn id p d Hp Hd.
  destruct (step_document _ _ _ _ _ _ _ _ _ H uid "memory_items" id p Hu ltac:(decide_all) Hp)
    as [E|(_ & d' & E & Hk)]; [rewrite E in Hd; by eapply Hn|].
  rewrite Hd in E. injection E as <-. by inversion Hk.
Qed.

Lemma named_steps s s' uid uid' now l :
  no_slash uid -> commit_steps uid' now s l s' -> rows_named s uid -> rows_named s' uid.
Proof. intros Hu H. induction H; [done|]. intros Hn. apply IHcommit_steps. by eapply named_commit. Qed.

(** A write outside the rows. *)
Lemma rows_aside (s : db) uid uid' coll id id' p q d :
  no_slash uid -> no_slash uid' -> coll ∈ collections -> coll <> "memory_items" ->
  item_ref uid id = Ok p -> memory_ref uid' coll id' = Ok q -> <[q := d]> s !! p = s !! p.
Proof.
  intros Hu Hu' Hc Hn Hp Hq. rewrite lookup_insert_ne; [done|]. intros ->.
  by destruct (same_document _ _ _ _ _ _ _ Hp Hq Hu Hu' ltac:(decide_all) Hc) as (_ & ? & _).
Qed.

Lemma named_aside s uid uid' coll id' q d :
  no_slash uid -> no_slash uid' -> coll ∈ collections -> coll <> "memory_items" ->
  memory_ref uid' coll id' = Ok q -> rows_named s uid -> rows_named (<[q := d]> s) uid.
Proof.
  intros Hu Hu' Hc Hn Hq H id p e Hp He. rewrite (rows_aside s uid uid' coll id id' p q d) in He by done. by eapply H.
Qed.

Lemma named_step admitted s s' uid :
  keeps_names -> no_slash uid -> ledger_step admitted s s' -> rows_named s uid -> rows_named s' uid.
Proof.
  intros Hnm Hu Hstep Hn.
  destruct (ledger_step_effect _ _ _ Hstep)
    as [rq now r ws op_ref c op _ _ _ H|rq now r ws op_ref c op Hu' Hrun _ [->| ->]|uid' tk now t ws op_ref c op r ids its _ H
       |uid' q now c d Hu' Hq _ _ ->
       |rq now t c sources lineage planned next last rows r results pre wss s0 sn ref receipt Hu' _ Hrun Hrc _ Hret Hsteps Href ->|H].
  - by eapply named_commit.
  - done.
  - eapply named_aside; [exact Hu|exact Hu'| | |exact (ar_path _ _ _ _ _ _ _ _ Hrun)|exact Hn]; [decide_all|done].
  - by eapply named_commit.
  - eapply named_aside; [exact Hu|exact Hu'| | |exact Hq|exact Hn]; [decide_all|done].
  - eapply named_aside; [exact Hu|exact Hu'| | |exact Href|]; [decide_all|done|].
    eapply named_steps; [exact Hu|exact Hsteps|]. intros id p d Hp Hd.
    destruct (rs_rows _ _ _ _ Hret uid id p Hu Hp) as [E|(-> & d' & Hin & E)]; rewrite E in Hd; [by eapply Hn|].
    injection Hd as <-.
    destruct (retracted_row _ _ _ _ _ _ _ _ _ _ _ _ _ _ _ Hnm Hn Hrun Hrc id d' Hin) as (e & _ & _ & Hid & _).
    unfold text_or. by rewrite Hid.
  - intros id p d Hp Hd. rewrite (H uid "memory_items" id p Hu ltac:(decide_all) Hp) in Hd. by eapply Hn.
Qed.
End Rows.
