(* ===== verification/MemoryStoreTheorems.v ===== *)
(** * What the ledger's store guarantees

    Over any history of applies, bumps and privacy deletions: the commits of an
    account form one line, a committed operation is never committed again, a
    deleted memory stays deleted; and one apply call implements the apply of the
    ledger on what is stored, behind the account's fences. *)

From S2P Require Import Prelude PyValue Firestore LegalHolds LegalHoldProofs Sha256 MemoryText MemoryOperations MemoryModels MemoryPromotion MemoryApply MemoryRecords MemoryReceipts MemoryStore MemoryPrivacy MemoryReplacement MemoryProofs MemoryItemProofs MemoryStoreProofs MemoryPrivacyProofs MemoryReplacementProofs MemoryHistory.
From Stdlib Require Import QArith_base Ascii.
Local Open Scope Z_scope.

#[local] Opaque deterministic_contract_id json_text sha256.

Section Theorems.
Context {T : TextEnv} {Md : ModelEnv} {St : StoreEnv}.

(** ** One call *)

(** The inputs of the apply of [op], as the store holds them: the evidence of each
    name, or the proposed record where the name has no document; the row that an
    update works on; the rows it supersedes. *)
Record authoritative_inputs (s : db) (rq : apply_request) (op : MemoryOperation) (evidence : list value)
    (existing : option item) (superseded : list item) : Prop := {
  ai_evidence : exists staged,
    stored_evidence s (rq_uid rq) (evidence_ids op) (default [] (rq_proposed_evidence rq)) = Ok (evidence, staged);
  ai_existing : stored_target s (rq_uid rq) op = Ok existing;
  ai_superseded : stored_items s (rq_uid rq) (lp_supersedes (logical_payload op)) = Ok superseded
}.

(** The store [s'] holds the committed result [r] of the operation at [op_ref]. *)
Record result_stored (s' : db) (uid : string) (op_ref : path) (r : ApplyResult) : Prop := {
  st_operation : s' !! op_ref = Some (operation_data (result_operation r));
  st_control : exists p, control_ref uid = Ok p /\ s' !! p = Some (control_data (control_state r));
  st_head : exists p d, state_head_ref uid = Ok p /\ _memory_state_head_from_control (control_state r) = Ok d /\
    s' !! p = Some d;
  st_commit : exists p, commit_ref uid (head_commit_id (control_state r)) = Ok p /\
    s' !! p = Some (commit_doc (control_state r) (result_operation r));
  st_items d : d ∈ memory_items r -> exists p d', item_ref uid (text_or d "memory_id") = Ok p /\
    s' !! p = Some d' /\ d' ∈ memory_items r /\ text_or d' "memory_id" = text_or d "memory_id";
  st_events e : e ∈ outbox_events r -> exists p e', outbox_ref uid (event_id e) = Ok p /\
    s' !! p = Some (event_data e') /\ e' ∈ outbox_events r /\ event_id e' = event_id e;
  st_assertions d id : d ∈ memory_items r -> doc_get d "memory_id" = VStr id -> id <> "" ->
    exists p, assertion_ref uid id = Ok p /\
      match assertion_of r d with
      | Some a => s' !! p = Some (assertion_data a)
      | None => drops_assertion d = true -> s' !! p = None
      end
}.

Lemma commit_step_stored s s' uid now c op r op_ref ws :
  commit_step s s' uid now c op r op_ref ws -> result_stored s' uid op_ref r.
Proof.
  intros H. pose proof (cs_writes _ _ _ _ _ _ _ _ _ H) as [_ _ (p & Hp & _) (q & Hq & _) _ _ _ _]. split.
  - by eapply step_operation.
  - exists p. split; [done|]. by eapply step_control.
  - by eapply step_head.
  - exists q. split; [done|]. by eapply step_commit.
  - intros d. by eapply step_item.
  - intros e. by eapply step_event.
  - intros d id. by eapply step_assertion.
Qed.

(** C4: The store implements the ledger.  A call that returns has read the stored
    control state and the stored operation (or the proposed one where none is
    stored).  If it commits, its result is the ledger's apply of the patch to that
    state and operation on the store's own inputs, whatever the request's payload
    says of them: for each evidence name the stored record, or the proposed one
    where none is stored, the stored row an update works on, and the stored rows it
    supersedes (the control state's migration count aside).  Afterwards the store
    holds that result: operation, control state, head, commit, one of the result's
    items or events at each of their names, the assertion of each item that has
    one and none for an item that must not keep one, and every proposed evidence
    record that was missing.  If it does not commit, no other document than the
    operation's changed, and that one holds the result's operation. *)
Theorem apply_store_refines_ledger mode rq now s r s' :
  no_slash (rq_uid rq) -> apply_long_term_patch_firestore mode rq now s = Ok (r, s') ->
  exists c op op_ref,
    stored_control s (rq_uid rq) now c /\ operation_ref (rq_uid rq) (rq_operation_id rq) = Ok op_ref /\
    request_operation s rq now op_ref op /\
    (result_status r <> apply_committed ->
       s' = s \/ s' = <[op_ref := operation_data (result_operation r)]> s) /\
    (result_status r = apply_committed ->
       (exists evidence existing superseded r0,
          authoritative_inputs s rq op evidence existing superseded /\
          apply_long_term_patch_transaction c op
            (authoritative_payload (rq_patch_payload rq) evidence existing superseded)
            (if rq_feedback rq then true else false) now = Ok r0 /\ r = count_migration rq op r0) /\
       result_stored s' (rq_uid rq) op_ref r /\
       (forall id p e, id ∈ evidence_ids op -> evidence_ref (rq_uid rq) id = Ok p -> s !! p = None ->
          proposed_named (default [] (rq_proposed_evidence rq)) id = Some e -> s' !! p = Some (evidence_fields e))).
Proof.
  intros Hu H. destruct (apply_store_run _ _ _ _ _ _ H) as (ws & op_ref & c & op & Hrun & Hc).
  exists c, op, op_ref. split_and!; try apply Hrun.
  - intros Hr. eapply refused_writes; [apply Hrun|done..].
  - intros Hr. pose proof (ar_promised _ _ _ _ _ _ _ _ Hrun) as Hpr. split_and!.
    + destruct (pr_commit _ _ _ _ _ _ _ _ Hpr Hr) as (r0 & es & ex & ss & Hf). exists es, ex, ss, r0.
      split_and!; [split; apply Hf|apply Hf|apply (cf_counted _ _ _ _ _ _ _ _ _ _ Hf)].
    + eapply commit_step_stored. by eapply apply_commit_step.
    + destruct (pr_staged _ _ _ _ _ _ _ _ Hpr Hr) as (es & staged & Hev & Hst).
      eapply staged_stored; [exact Hu|apply Hrun|exact Hev|exact Hst|exact Hc].
Qed.

(** C38: What the ledger stores it reads back.  The strict reader of the store returns,
    from the documents that [_firestore_data] writes, the control state and the
    operation that were written, every member of the logical payload included;
    neither can be taken for a corrupted document. *)
Theorem stored_records_read_back c op now :
  valid_control c = true -> valid_operation op = true ->
  parse_snapshot_strict (memory_control_state (control_data c) now) = Ok c /\
  parse_snapshot_strict (read_operation (operation_data op) now) = Ok op.
Proof. intros Hc Ho. by rewrite control_roundtrip, operation_roundtrip. Qed.

(** C37: No apply passes the account's fences.  While a destructive operation runs on
    the account, or while its deletion blocks access, an apply raises, so it
    writes nothing. *)
Theorem fences_stop_applies mode rq now s :
  (forall p, gate_ref (rq_uid rq) = Ok p -> _gate_blocks (s !! p) now = true) \/
  (forall p, account_ref (rq_uid rq) = Ok p -> account_deletion_blocks_access (account_status (s !! p)) = true) ->
  exists e, apply_long_term_patch_firestore mode rq now s = Raise e.
Proof.
  intros Hf. destruct (apply_long_term_patch_firestore mode rq now s) as [[r s']|e] eqn:H; [|by exists e].
  destruct (apply_store_run _ _ _ _ _ _ H) as (ws & op_ref & c & op & [_ _ _ (p & Hp & Hg) (q & Hq & Ha) _] & _).
  exfalso. destruct Hf as [Hf|Hf]; [rewrite (Hf _ Hp) in Hg|rewrite (Hf _ Hq) in Ha]; done.
Qed.

(** ** The line of commits *)
Definition sequence_field (d : fields) : Z := match doc_get d "commit_sequence" with VInt n => n | _ => 0 end.

Definition stored_field {A} (f : fields -> A) (a : A) (s : db) (uid : string) : A :=
  match control_ref uid with
  | Ok p => match s !! p with Some d => f d | None => a end
  | Raise _ => a
  end.

Definition stored_sequence : db -> string -> Z := stored_field sequence_field 0.
Definition stored_head : db -> string -> string := stored_field (fun d => text_or d "head_commit_id") "head0".

(** The commits of an account: each has a sequence of its own, none is beyond the
    control state's, and the head is the one at the control state's. *)
Record commit_chain (s : db) (uid : string) : Prop := {
  ch_sequence id p d : commit_ref uid id = Ok p -> s !! p = Some d ->
    exists n, doc_get d "commit_sequence" = VInt n /\ n <= stored_sequence s uid;
  ch_unique id p d id' p' d' :
    commit_ref uid id = Ok p -> s !! p = Some d -> commit_ref uid id' = Ok p' -> s !! p' = Some d' ->
    doc_get d "commit_sequence" = doc_get d' "commit_sequence" -> id = id';
  ch_head : 0 < stored_sequence s uid -> exists p d, commit_ref uid (stored_head s uid) = Ok p /\
    s !! p = Some d /\ doc_get d "commit_sequence" = VInt (stored_sequence s uid)
}.

Lemma read_control_fields d now c :
  memory_control_state d now = Ok c -> sequence_field d = commit_sequence c /\ text_or d "head_commit_id" = head_commit_id c.
Proof.
  unfold memory_control_state. intros H.
  apply res_bind_Ok in H as (? & _ & H). apply res_bind_Ok in H as (head & Hh & H).
  do 7 (apply res_bind_Ok in H as (? & _ & H)). apply res_bind_Ok in H as (n & Hn & H).
  do 9 (apply res_bind_Ok in H as (? & _ & H)). cbv zeta in H. case_match; [|done]. injection H as <-. simpl.
  unfold sequence_field, text_or, doc_get, required, defaulted in *. split.
  - destruct (d !! "commit_sequence") as [v|]; simpl in *; [|congruence]. destruct v; try done. by injection Hn.
  - destruct (d !! "head_commit_id") as [v|]; simpl in *; [|done]. destruct v; try done. by injection Hh.
Qed.

Lemma control_data_fields c :
  sequence_field (control_data c) = commit_sequence c /\ text_or (control_data c) "head_commit_id" = head_commit_id c.
Proof. unfold sequence_field, text_or, control_data. by rewrite !doc_get_list. Qed.

Lemma control_at_fields s uid now c :
  control_at s uid now c -> stored_sequence s uid = commit_sequence c /\ stored_head s uid = head_commit_id c.
Proof.
  intros (p & Hp & Hc). unfold stored_sequence, stored_head, stored_field. rewrite Hp.
  destruct (s !! p); [by apply read_control_fields in Hc|by subst c].
Qed.

(** The chain depends on the account's control state and commits only. *)
Lemma chain_same s s' uid :
  (forall id p, commit_ref uid id = Ok p -> s' !! p = s !! p) -> stored_sequence s' uid = stored_sequence s uid ->
  stored_head s' uid = stored_head s uid -> commit_chain s uid -> commit_chain s' uid.
Proof.
  intros Hc Hs Hh [Hq Hu He]. split.
  - intros id p d Hp Hd. rewrite (Hc _ _ Hp) in Hd. rewrite Hs. by eapply Hq.
  - intros id p d id' p' d' Hp Hd Hp' Hd'. rewrite (Hc _ _ Hp) in Hd. rewrite (Hc _ _ Hp') in Hd'. by eapply Hu.
  - rewrite Hs, Hh. intros Hpos. destruct (He Hpos) as (p & d & Hp & Hd & Hn). exists p, d.
    by rewrite (Hc _ _ Hp).
Qed.

Lemma stored_same s s' uid :
  (forall p, control_ref uid = Ok p -> s' !! p = s !! p) ->
  stored_sequence s' uid = stored_sequence s uid /\ stored_head s' uid = stored_head s uid.
Proof.
  intros H. unfold stored_sequence, stored_head, stored_field.
  destruct (control_ref uid) as [p|]; [|done]. by rewrite (H p).
Qed.

(** A commit extends its account's chain by one. *)
Lemma chain_commit s s' uid now c op r op_ref ws :
  commit_step s s' uid now c op r op_ref ws -> commit_chain s uid -> commit_chain s' uid.
Proof.
  intros Hstep [Hq Hu He]. destruct (control_at_fields _ _ _ _ (cs_stored _ _ _ _ _ _ _ _ _ Hstep)) as [Hseq _].
  pose proof (cs_uid _ _ _ _ _ _ _ _ _ Hstep) as Huid.
  assert (Hnew : stored_sequence s' uid = commit_sequence c + 1 /\ stored_head s' uid = head_commit_id (control_state r)).
  { destruct (cs_writes _ _ _ _ _ _ _ _ _ Hstep) as [_ _ (p & Hp & _) _ _ _ _ _].
    unfold stored_sequence, stored_head, stored_field. rewrite Hp, (step_control _ _ _ _ _ _ _ _ _ Hstep _ Hp).
    destruct (control_data_fields (control_state r)) as [-> ->].
    by rewrite (cs_sequence _ _ _ _ _ _ _ _ _ Hstep). }
  destruct Hnew as [Hs' Hh'].
  assert (Hdoc : forall id p d, commit_ref uid id = Ok p -> s' !! p = Some d ->
    (s !! p = Some d /\ exists n, doc_get d "commit_sequence" = VInt n /\ n <= commit_sequence c) \/
    (id = head_commit_id (control_state r) /\ doc_get d "commit_sequence" = VInt (commit_sequence c + 1))).
  { intros id p d Hp Hd.
    destruct (step_document _ _ _ _ _ _ _ _ _ Hstep uid "memory_commits" id p Huid ltac:(decide_all) Hp)
      as [E|(_ & d' & E & Hk)].
    - left. rewrite E in Hd. split; [done|]. rewrite <-Hseq. by eapply Hq.
    - right. rewrite Hd in E. injection E as <-. inversion Hk; try done. simplify_eq. split; [done|].
      unfold commit_doc. rewrite doc_get_list. simpl. by rewrite (cs_sequence _ _ _ _ _ _ _ _ _ Hstep). }
  split.
  - intros id p d Hp Hd. rewrite Hs'. destruct (Hdoc _ _ _ Hp Hd) as [(_ & n & Hn & Hle)|[_ Hn]];
      eexists; (split; [exact Hn|lia]).
  - intros id p d id' p' d' Hp Hd Hp' Hd' E.
    destruct (Hdoc _ _ _ Hp Hd) as [(Hs1 & n & Hn & Hle)|[-> Hn]], (Hdoc _ _ _ Hp' Hd') as [(Hs2 & n' & Hn' & Hle')|[-> Hn']].
    + by eapply (Hu id p d id' p' d').
    + exfalso. rewrite Hn, Hn' in E. injection E as E. lia.
    + exfalso. rewrite Hn, Hn' in E. injection E as E. lia.
    + done.
  - intros _. rewrite Hs', Hh'. destruct (cs_writes _ _ _ _ _ _ _ _ _ Hstep) as [_ _ _ (p & Hp & _) _ _ _ _].
    exists p, (commit_doc (control_state r) (result_operation r)). split_and!; [done| |].
    + by eapply step_commit.
    + unfold commit_doc. rewrite doc_get_list. simpl. by rewrite (cs_sequence _ _ _ _ _ _ _ _ _ Hstep).
Qed.

Lemma chain_other s s' uid uid' now c op r op_ref ws :
  no_slash uid' -> uid' <> uid -> commit_step s s' uid now c op r op_ref ws ->
  commit_chain s uid' -> commit_chain s' uid'.
Proof.
  intros Hu Hne Hstep.
  assert (Hs : forall coll id p, coll ∈ ledger_collections -> memory_ref uid' coll id = Ok p -> s' !! p = s !! p).
  { intros coll id p Hc Hp. by destruct (step_document _ _ _ _ _ _ _ _ _ Hstep uid' coll id p Hu Hc Hp) as [?|[? _]]. }
  destruct (stored_same s s' uid') as [H1 H2]; [intros p Hp; eapply Hs; [|exact Hp]; decide_all|].
  apply chain_same; [|done..]. intros id p Hp. eapply Hs; [|exact Hp]. decide_all.
Qed.

(** A write to one document that is neither a commit nor the control state. *)
Lemma chain_insert s uid p d :
  (forall id, commit_ref uid id <> Ok p) -> control_ref uid <> Ok p -> commit_chain s uid -> commit_chain (<[p := d]> s) uid.
Proof.
  intros H1 H2. destruct (stored_same s (<[p := d]> s) uid) as [H3 H4].
  { intros q Hq. rewrite lookup_insert_ne; congruence. }
  apply chain_same; [|done..]. intros id q Hq. rewrite lookup_insert_ne; [done|]. intros ->. by eapply H1.
Qed.

Lemma other_collection uid coll id uid' coll' p :
  no_slash uid -> no_slash uid' -> coll ∈ collections -> coll' ∈ collections -> coll <> coll' ->
  memory_ref uid coll id = Ok p -> forall id', memory_ref uid' coll' id' <> Ok p.
Proof.
  intros Hu Hu' Hc Hc' Hne Hp id' Hp'.
  by destruct (same_document uid coll id uid' coll' id' p) as (_ & ? & _).
Qed.

(** The bump keeps the head and the sequence of every account. *)
Lemma chain_bump s uid' uid p now c :
  no_slash uid -> no_slash uid' -> control_ref uid = Ok p ->
  control_at s uid now c ->
  commit_chain s uid' -> commit_chain (<[p := control_data (with_source_generation c (source_generation c + 1) now)]> s) uid'.
Proof.
  intros Hu Hu' Hp Hc Hch. set (d := control_data _).
  assert (Hcm : forall id, commit_ref uid' id <> Ok p).
  { eapply other_collection; [exact Hu|exact Hu'| | | |exact Hp]; [decide_all..|done]. }
  destruct (decide (uid' = uid)) as [->|Hne].
  - assert (Hf : stored_sequence (<[p := d]> s) uid = stored_sequence s uid /\
                 stored_head (<[p := d]> s) uid = stored_head s uid).
    { apply control_at_fields in Hc as [-> ->].
      unfold stored_sequence, stored_head, stored_field. rewrite Hp, lookup_insert_eq. unfold d.
      by destruct (control_data_fields (with_source_generation c (source_generation c + 1) now)) as [-> ->]. }
    destruct Hf. apply (chain_same s); try done. intros id q Hq. rewrite lookup_insert_ne; [done|]. intros ->. by eapply Hcm.
  - apply chain_insert; [done| |done]. intros Hp'. unfold control_ref in *. destruct (same_document _ _ _ _ _ _ _ Hp Hp') as (? & _); [done|done|decide_all..|congruence].
Qed.

Lemma chain_any s s' uid uid' now c op r op_ref ws :
  no_slash uid -> commit_step s s' uid' now c op r op_ref ws -> commit_chain s uid -> commit_chain s' uid.
Proof. intros Hu H Hch. destruct (decide (uid = uid')) as [->|]; [by eapply chain_commit|by eapply chain_other]. Qed.

Lemma chain_steps s s' uid uid' now l :
  no_slash uid -> commit_steps uid' now s l s' -> commit_chain s uid -> commit_chain s' uid.
Proof. intros Hu H. induction H; [done|]. intros Hch. apply IHcommit_steps. by eapply chain_any. Qed.

Lemma chain_retract s s' uid uid' rows :
  no_slash uid -> retract_step s s' uid' rows -> commit_chain s uid -> commit_chain s' uid.
Proof.
  intros Hu H. assert (Hs : forall coll id p, coll ∈ ["memory_state"; "memory_operations"; "memory_commits"] ->
    memory_ref uid coll id = Ok p -> s' !! p = s !! p) by (intros coll id p Hc Hp; by apply (rs_same _ _ _ _ H uid coll id p)).
  destruct (stored_same s s' uid) as [H1 H2]; [intros p Hp; eapply Hs; [|exact Hp]; decide_all|].
  apply chain_same; [|done..]. intros id p Hp. eapply Hs; [|exact Hp]. decide_all.
Qed.

(** A write to a document of a collection outside the line. *)
Lemma chain_aside s uid uid' coll id p d :
  no_slash uid -> no_slash uid' -> coll ∈ collections -> coll ∉ ["memory_commits"; "memory_state"] ->
  memory_ref uid' coll id = Ok p -> commit_chain s uid -> commit_chain (<[p := d]> s) uid.
Proof.
  intros Hu Hu' Hc Hn Hp. apply chain_insert.
  - eapply other_collection; [exact Hu'|exact Hu|exact Hc| | |exact Hp]; [decide_all|set_solver].
  - unfold control_ref. eapply (other_collection _ _ _ _ "memory_state"); [exact Hu'|exact Hu|exact Hc| | |exact Hp];
      [decide_all|set_solver].
Qed.

Lemma chain_step admitted s s' uid :
  no_slash uid -> ledger_step admitted s s' -> commit_chain s uid -> commit_chain s' uid.
Proof.
  intros Hu Hstep Hch.
  destruct (ledger_step_effect _ _ _ Hstep)
    as [rq now r ws op_ref c op _ _ _ H|rq now r ws op_ref c op Hu' Hrun _ [->| ->]|uid' tk now t ws op_ref c op r ids its _ H
       |uid' p now c d Hu' Hp Hc -> ->
       |rq now t c sources lineage planned next last rows r results pre wss s0 sn ref receipt Hu' _ _ _ _ Hret Hsteps Href ->|H].
  - by eapply chain_any.
  - done.
  - eapply chain_aside; [exact Hu|exact Hu'| | |exact (ar_path _ _ _ _ _ _ _ _ Hrun)|done]; decide_all.
  - by eapply chain_any.
  - by eapply chain_bump.
  - eapply chain_aside; [exact Hu|exact Hu'| | |exact Href|]; [decide_all..|].
    eapply chain_steps; [exact Hu|exact Hsteps|]. by eapply chain_retract.
  - destruct (stored_same s s' uid) as [H1 H2]; [intros p Hp; eapply H; [exact Hu| |exact Hp]; decide_all|].
    revert Hch. apply chain_same; [|done..]. intros id p Hp. eapply H; [exact Hu| |exact Hp]; decide_all.
Qed.

(** C6: The commits of an account form one line.  Over any history of the store, no
    two commits of an account share a sequence, none is beyond the control
    state's, and the head of the control state is the commit at its sequence:
    concurrent applies, deletions, replacements and bumps never fork the ledger. *)
Theorem commit_chain_is_linear admitted s s' uid :
  no_slash uid -> commit_chain s uid -> history admitted s s' -> commit_chain s' uid.
Proof. intros Hu Hc H. induction H as [|s s1 s2 Hs _ IH]; [done|]. by eapply IH, chain_step. Qed.

(** ** Committed operations *)
Definition committed_at (s : db) (p : path) (m : MemoryOperation) : Prop :=
  s !! p = Some (operation_data m) /\ op_status m = committed /\ valid_operation m = true.

Lemma committed_at_read s p m d now op :
  committed_at s p m -> s !! p = Some d -> read_operation d now = Ok op -> op = m.
Proof. intros (Hs & _ & Hv) Hd H. rewrite Hs in Hd. injection Hd as <-. rewrite operation_roundtrip in H by done. congruence. Qed.

Lemma committed_commit s s' uid uid' id p m now c op r op_ref ws :
  no_slash uid -> operation_ref uid id = Ok p -> commit_step s s' uid' now c op r op_ref ws ->
  committed_at s p m -> committed_at s' p m.
Proof.
  intros Hu Hp H Hm.
  destruct (step_document _ _ _ _ _ _ _ _ _ H uid "memory_operations" id p Hu ltac:(decide_all) Hp)
    as [E|(<- & d & _ & Hk)]; [by unfold committed_at; rewrite E|].
  exfalso. assert (id = operation_id op) as -> by (by inversion Hk).
  pose proof (cs_path _ _ _ _ _ _ _ _ _ H) as Hq. assert (op_ref = p) as -> by congruence.
  destruct (cs_open _ _ _ _ _ _ _ _ _ H _ (proj1 Hm)) as [Hr Ht].
  rewrite (committed_at_read _ _ _ _ _ _ Hm (proj1 Hm) Hr) in Ht.
  unfold is_terminal_status in Ht. rewrite (proj1 (proj2 Hm)) in Ht. done.
Qed.

Lemma committed_steps s s' uid uid' id p m now l :
  no_slash uid -> operation_ref uid id = Ok p -> commit_steps uid' now s l s' -> committed_at s p m -> committed_at s' p m.
Proof. intros Hu Hp H. induction H; [done|]. intros Hm. apply IHcommit_steps. by eapply committed_commit. Qed.

(** A write to another collection. *)
Lemma committed_aside s uid uid' coll id id' p q d m :
  no_slash uid -> no_slash uid' -> coll ∈ collections -> coll <> "memory_operations" ->
  operation_ref uid id = Ok p -> memory_ref uid' coll id' = Ok q -> committed_at s p m -> committed_at (<[q := d]> s) p m.
Proof.
  intros Hu Hu' Hc Hn Hp Hq. unfold committed_at. rewrite lookup_insert_ne; [done|]. intros ->. unfold operation_ref in Hp.
  by destruct (same_document _ _ _ _ _ _ _ Hp Hq Hu Hu' ltac:(decide_all) Hc) as (_ & ? & _).
Qed.

Lemma committed_step admitted s s' uid id p m :
  no_slash uid -> operation_ref uid id = Ok p -> ledger_step admitted s s' -> committed_at s p m -> committed_at s' p m.
Proof.
  intros Hu Hp Hstep Hm.
  destruct (ledger_step_effect _ _ _ Hstep)
    as [rq now r ws op_ref c op _ _ _ H|rq now r ws op_ref c op Hu' Hrun _ [->| ->]|uid' tk now t ws op_ref c op r ids its _ H
       |uid' q now c d Hu' Hq Hc -> ->
       |rq now t c sources lineage planned next last rows r results pre wss s0 sn ref receipt Hu' _ _ _ _ Hret Hsteps Href ->|H].
  - by eapply committed_commit.
  - done.
  - destruct (decide (op_ref = p)) as [->|Hne]; [|unfold committed_at; by rewrite lookup_insert_ne].
    destruct (ar_request _ _ _ _ _ _ _ _ Hrun) as (_ & _ & Ho). rewrite (proj1 Hm) in Ho.
    pose proof (committed_at_read _ _ _ _ _ _ Hm (proj1 Hm) Ho) as ->.
    destruct (pr_final _ _ _ _ _ _ _ _ (ar_promised _ _ _ _ _ _ _ _ Hrun)) as [_ ->]; [apply Hm|].
    split; [by rewrite lookup_insert_eq|apply Hm].
  - by eapply committed_commit.
  - eapply committed_aside; [exact Hu|exact Hu'| | |exact Hp|exact Hq|exact Hm]; [decide_all|done].
  - eapply committed_aside; [exact Hu|exact Hu'| | |exact Hp|exact Href|]; [decide_all|done|].
    eapply committed_steps; [exact Hu|exact Hp|exact Hsteps|]. unfold committed_at.
    by rewrite (rs_same _ _ _ _ Hret uid "memory_operations" id p Hu ltac:(decide_all) Hp).
  - unfold committed_at. rewrite (H uid "memory_operations" id p); [done|done|decide_all|done].
Qed.

Lemma committed_history admitted s s' uid id p m :
  no_slash uid -> operation_ref uid id = Ok p -> history admitted s s' -> committed_at s p m -> committed_at s' p m.
Proof. intros Hu Hp H. induction H as [|s s1 s2 Hs _ IH]; [done|]. intros Hm. by eapply IH, committed_step. Qed.

(** C5: An operation commits once.  After an apply commits an operation, in any later
    state of the store its record is the one that commit left, and no apply of the
    operation, whatever the request, commits again. *)
Theorem operation_commits_once admitted mode rq now s r s1 s2 mode' rq' now' r' s3 :
  no_slash (rq_uid rq) ->
  apply_long_term_patch_firestore mode rq now s = Ok (r, s1) -> result_status r = apply_committed ->
  history admitted s1 s2 ->
  rq_uid rq' = rq_uid rq -> rq_operation_id rq' = rq_operation_id rq ->
  apply_long_term_patch_firestore mode' rq' now' s2 = Ok (r', s3) ->
  result_status r' <> apply_committed /\ result_operation r' = result_operation r /\
  exists p, operation_ref (rq_uid rq) (rq_operation_id rq) = Ok p /\
    s2 !! p = Some (operation_data (result_operation r)) /\ s3 !! p = s2 !! p.
Proof.
  intros Hu H Hr Hh Huid Hid H'.
  destruct (apply_store_run _ _ _ _ _ _ H) as (ws & p & c & op & Hrun & Hc).
  pose proof (apply_commit_step _ _ _ _ _ _ _ _ _ Hu Hrun Hr Hc) as Hstep.
  assert (Hm : committed_at s1 p (result_operation r)).
  { split; [by eapply step_operation|]. apply Hstep. }
  pose proof (ar_path _ _ _ _ _ _ _ _ Hrun) as Hp.
  apply (committed_history _ _ _ _ _ _ _ Hu Hp Hh) in Hm.
  destruct (apply_store_run _ _ _ _ _ _ H') as (ws' & p' & c' & op' & Hrun' & Hc').
  pose proof (ar_path _ _ _ _ _ _ _ _ Hrun') as Hp'. rewrite Huid, Hid in Hp'. assert (p' = p) as -> by congruence.
  destruct (ar_request _ _ _ _ _ _ _ _ Hrun') as (_ & _ & Ho). rewrite (proj1 Hm) in Ho.
  pose proof (committed_at_read _ _ _ _ _ _ Hm (proj1 Hm) Ho) as ->.
  destruct (pr_final _ _ _ _ _ _ _ _ (ar_promised _ _ _ _ _ _ _ _ Hrun')) as [Hn Hop]; [apply Hm|].
  split_and!; [done..|]. exists p. split_and!; [done|apply Hm|].
  destruct (refused_writes _ _ _ _ _ _ (pr_writes _ _ _ _ _ _ _ _ (ar_promised _ _ _ _ _ _ _ _ Hrun')) Hn Hc') as [->| ->]; [done|].
  rewrite lookup_insert_eq, Hop. symmetry. apply Hm.
Qed.
End Theorems.
