(* ===== verification/MemoryDeletion.v ===== *)
(** * Deleted memories stay deleted

    Which rows a commit writes: the target of an update, a new row under the name
    of its patch, or a row it supersedes.  None of them is a row that a privacy
    deletion left behind, so the deletion holds in every later state. *)

From S2P Require Import Prelude PyValue Firestore LegalHolds LegalHoldProofs Sha256 MemoryText MemoryOperations MemoryModels MemoryPromotion MemoryApply MemoryRecords MemoryReceipts MemoryStore MemoryPrivacy MemoryReplacement MemoryProofs MemoryItemProofs MemoryTheorems MemoryStoreProofs MemoryPrivacyProofs MemoryReplacementProofs MemoryHistory MemoryRows.
From Stdlib Require Import QArith_base Ascii.
From stdpp Require Import sorting.
Local Open Scope Z_scope.

#[local] Opaque deterministic_contract_id json_text sha256.

Section Deletion.
Context {T : TextEnv} {Md : ModelEnv} {St : StoreEnv}.

Lemma deleted_not_live s uid op c id d : keeps_states -> deleted_row s uid id d -> ~ live_at s uid op c id.
Proof.
  intros Hlaw Hd (p & raw & e & Hp & Hs & He & Hl).
  assert (Hi : item_at s uid id e) by (by exists p, raw).
  pose proof (deleted_not_read _ _ _ _ _ Hlaw Hd Hi) as Ht. apply v_is_true in Ht.
  unfold live_target in Hl. rewrite Ht in Hl. apply andb_true_iff in Hl as [_ Hl]. discriminate Hl.
Qed.

Lemma superseded_is_target op id : id ∈ lp_supersedes (logical_payload op) -> id ∈ _operation_target_ids op.
Proof. intros H. unfold _operation_target_ids. apply sorted_set_elem. rewrite !elem_of_app. auto. Qed.

Lemma target_is_target op id :
  lp_target_memory_id (logical_payload op) = Some id -> id <> "" -> id ∈ _operation_target_ids op.
Proof.
  intros H Hne. unfold _operation_target_ids. apply sorted_set_elem. rewrite !elem_of_app. right; left.
  rewrite H. simpl. rewrite bool_decide_false by done. simpl. set_solver.
Qed.

(** ** Planned requests *)

(** The operation carries the decision, the target and the superseded rows of the
    patch: its digest was computed from them. *)
Record names_patch (p : patch) (raw : fields) (op : MemoryOperation) : Prop := {
  np_decision : doc_get p "decision" = VStr (lp_decision (logical_payload op));
  np_target : doc_get p "target_memory_id" = opt_str (lp_target_memory_id (logical_payload op));
  np_supersedes : doc_get p "supersedes" = str_list (lp_supersedes (logical_payload op));
  np_name : doc_get p "new_memory_id" = doc_get raw "new_memory_id"
}.

(** A patch without a target adds a row that it names, or one under a name that no
    row has. *)
Definition name_is_new (s : db) (uid : string) (p : patch) (op : MemoryOperation) (commit_id : string) : Prop :=
  given (lp_target_memory_id (logical_payload op)) = true \/
  (lp_decision (logical_payload op) = "add" /\ exists id, doc_get p "new_memory_id" = VStr id /\ nonblank id = true) \/
  (exists id, _deterministic_materialized_memory_id (op_uid op) p commit_id = VStr id /\
     forall q, item_ref uid id = Ok q -> s !! q = None).

Definition planned_apply (s : db) (rq : apply_request) (now : Z) : Prop :=
  forall op_ref op c p,
    operation_ref (rq_uid rq) (rq_operation_id rq) = Ok op_ref -> request_operation s rq now op_ref op ->
    stored_control s (rq_uid rq) now c -> durable_memory_patch (patch_fields (rq_patch_payload rq)) = Ok p ->
    names_patch p (rq_patch_payload rq) op /\
    name_is_new s (rq_uid rq) p op (next_commit_id c (operation_id op)).

(** The requests that a planner sends. *)
Definition planned : policy := Policy planned_apply (fun _ rq _ => plain_replacement rq).

(** ** No apply writes a deleted row *)
Lemma planned_payload raw es ex ss : patch_fields (authoritative_payload raw es ex ss) = patch_fields raw.
Proof.
  assert (Hi : forall k v (m : fields), k ∈ popped_keys -> patch_fields (<[k := v]> m) = patch_fields m).
  { intros k v m Hk. unfold patch_fields. apply map_filter_insert_not. intros; simpl. tauto. }
  unfold authoritative_payload. cbv zeta. destruct ss; destruct ex; rewrite ?Hi by decide_key; done.
Qed.

Section Apply.
Variables (s : db) (rq : apply_request) (now : Z) (c : MemoryControlState) (op : MemoryOperation) (r r0 : ApplyResult)
  (es : list value) (existing : option item) (ss : list item) (p : patch) (id : string) (d : item).
Hypothesis Hstates : keeps_states.
Hypothesis Hnames : keeps_names.
Hypothesis Hnamed : rows_named s (rq_uid rq).
Hypothesis Hfacts : commit_facts s rq now c op r r0 es existing ss.
Hypothesis Hpatch : names_patch p (rq_patch_payload rq) op.
Hypothesis Hdeleted : deleted_row s (rq_uid rq) id d.

Lemma target_not_deleted i : lp_target_memory_id (logical_payload op) = Some i -> i <> "" -> i <> id.
Proof.
  intros Ht Hne ->. eapply (deleted_not_live _ _ op c _ _ Hstates Hdeleted).
  by apply (cf_targets _ _ _ _ _ _ _ _ _ _ Hfacts), target_is_target.
Qed.

Lemma superseded_not_deleted i : i ∈ lp_supersedes (logical_payload op) -> i <> id.
Proof.
  intros Hi ->. eapply (deleted_not_live _ _ op c _ _ Hstates Hdeleted).
  by apply (cf_targets _ _ _ _ _ _ _ _ _ _ Hfacts), superseded_is_target.
Qed.

(** The item that an update works on. *)
Lemma update_spares l e :
  valid_patch p = true -> v_is (doc_get p "decision") "update" = true ->
  doc_get (authoritative_payload (rq_patch_payload rq) es existing ss) "existing_item" = VDict l ->
  memory_item (fields_of l) = Ok e -> doc_get e "memory_id" <> VStr id.
Proof.
  intros Hv Hu Hl He Hid.
  assert (Ht : exists i, lp_target_memory_id (logical_payload op) = Some i /\ i <> "").
  { pose proof (np_target _ _ _ Hpatch) as Ht. unfold valid_patch in Hv. cbv zeta in Hv.
    apply andb_true_iff in Hv as [Hv _]. apply andb_true_iff in Hv as [Hv _]. apply andb_true_iff in Hv as [Hv _].
    apply andb_true_iff in Hv as [_ Hv]. rewrite Ht in Hv. unfold v_in in Hv. simpl in Hv. rewrite Hu in Hv.
    rewrite orb_true_r in Hv. simpl in Hv. apply negb_true_iff, negb_false_iff in Hv.
    destruct (lp_target_memory_id (logical_payload op)) as [i|]; [|discriminate Hv].
    exists i. split; [done|]. by intros ->. }
  destruct Ht as (i & Ht & Hne).
  assert (Hupd : update_target op = Some i).
  { unfold update_target. rewrite Ht. simpl. by rewrite bool_decide_false. }
  pose proof (np_decision _ _ _ Hpatch) as Hd. apply v_is_true in Hu. rewrite Hu in Hd. injection Hd as Hd.
  pose proof (target_not_deleted i Ht Hne) as Hother.
  pose proof (cf_targets _ _ _ _ _ _ _ _ _ _ Hfacts i (target_is_target _ _ Ht Hne)) as (q & raw & x & Hq & Hs & _).
  pose proof (stored_target_found _ _ _ _ (cf_existing _ _ _ _ _ _ _ _ _ _ Hfacts)) as Hf. clear Hfacts. destruct existing as [e0|]; simpl in Hf.
  - destruct Hf as (j & Hj & _ & Hat). assert (j = i) as -> by congruence.
    pose proof (item_at_name _ _ _ _ Hnames Hnamed Hat) as Hn.
    assert (l = map_to_list e0) as ->.
    { unfold authoritative_payload in Hl. cbv zeta in Hl. destruct ss; unfold doc_get in Hl;
        rewrite ?lookup_insert_ne, lookup_insert_eq in Hl by done; by injection Hl. }
    assert (Hid0 : doc_get e "memory_id" = doc_get e0 "memory_id").
    { rewrite (memory_item_name _ _ Hnames He). unfold fields_of. by rewrite list_to_map_to_list. }
    congruence.
  - rewrite (Hf i q) in Hs; try done; congruence.
Qed.

(** The row that a patch creates. *)
Lemma creation_spares commit_id :
  name_is_new s (rq_uid rq) p op commit_id ->
  _deterministic_materialized_memory_id (op_uid op) p commit_id <> VStr id.
Proof.
  intros Hnew Hid. destruct Hdeleted as (q & Hq & Hs & _).
  assert (Hg : truthy (doc_get p "target_memory_id") = given (lp_target_memory_id (logical_payload op))).
  { rewrite (np_target _ _ _ Hpatch). by destruct (lp_target_memory_id _). }
  destruct (given (lp_target_memory_id (logical_payload op))) eqn:Hgiven.
  { unfold _deterministic_materialized_memory_id in Hid. rewrite Hg, (np_target _ _ _ Hpatch) in Hid.
    destruct (lp_target_memory_id (logical_payload op)) as [i|] eqn:Hi; [|done]. injection Hid as ->.
    apply (target_not_deleted id Hi); [|done]. by intros ->. }
  destruct Hnew as [Hn|[(Hadd & i & Hi & Hb)|(i & Hi & Hfree)]]; [congruence| |].
  - unfold _deterministic_materialized_memory_id in Hid. rewrite Hg, Hi in Hid.
    assert (Htr : truthy (VStr i) = true) by (by destruct i). rewrite Htr in Hid. injection Hid as ->.
    destruct (cf_fresh _ _ _ _ _ _ _ _ _ _ Hfacts id Hadd) as (q' & _ & _ & Hq' & Hnone & _);
      [by rewrite <-(np_name _ _ _ Hpatch)|done|]. congruence.
  - assert (i = id) as -> by congruence. rewrite (Hfree q Hq) in Hs. done.
Qed.

(** The rows that a patch supersedes. *)
Lemma supersession_spares l w e :
  superseded_ids p <> [] ->
  doc_get (authoritative_payload (rq_patch_payload rq) es existing ss) "superseded_items" = VList l ->
  VDict w ∈ l -> memory_item (fields_of w) = Ok e -> doc_get e "memory_id" <> VStr id.
Proof.
  intros Hids Hl Hw He Hid.
  assert (Hne : lp_supersedes (logical_payload op) <> []).
  { intros E. apply Hids. unfold superseded_ids. rewrite (np_supersedes _ _ _ Hpatch), E. done. }
  destruct (stored_items_found _ _ _ _ (cf_superseded _ _ _ _ _ _ _ _ _ _ Hfacts)) as [Hat Hnone].
  pose proof superseded_not_deleted as Hother.
  assert (Hlive : forall i, i ∈ lp_supersedes (logical_payload op) -> live_at s (rq_uid rq) op c i)
    by (intros i Hi; apply (cf_targets _ _ _ _ _ _ _ _ _ _ Hfacts); by apply superseded_is_target).
  clear Hfacts. destruct ss as [|x xs].
  - destruct (lp_supersedes (logical_payload op)) as [|i ids] eqn:E; [done|].
    destruct (Hlive i) as (q & raw & y & Hq & Hs & _); [set_solver|].
    rewrite (Hnone eq_refl i q) in Hs; [done|set_solver|done].
  - assert (l = item_value <$> (x :: xs)) as ->.
    { unfold authoritative_payload, doc_get in Hl. cbv zeta in Hl. rewrite lookup_insert_eq in Hl. by injection Hl as <-. }
    apply list_elem_of_fmap in Hw as (e0 & Hw & Hin). injection Hw as ->.
    destruct (Hat e0 Hin) as (i & Hi & Hi0). pose proof (item_at_name _ _ _ _ Hnames Hnamed Hi0) as Hn.
    assert (Hid0 : doc_get e "memory_id" = doc_get e0 "memory_id").
    { rewrite (memory_item_name _ _ Hnames He). unfold fields_of. by rewrite list_to_map_to_list. }
    apply (Hother i Hi). congruence.
Qed.

(** So no committed row is the deleted one. *)
Lemma apply_spares d' :
  durable_memory_patch (patch_fields (rq_patch_payload rq)) = Ok p ->
  name_is_new s (rq_uid rq) p op (next_commit_id c (operation_id op)) ->
  d' ∈ memory_items r -> doc_get d' "memory_id" <> VStr id.
Proof.
  intros Hp Hnew Hd'. pose proof (cf_counted _ _ _ _ _ _ _ _ _ _ Hfacts) as Hr.
  destruct (count_migration_keeps rq op r0) as (_ & Hitems & _). rewrite Hr, Hitems in Hd'.
  pose proof (cf_apply _ _ _ _ _ _ _ _ _ _ Hfacts) as Ha. pose proof (cf_committed _ _ _ _ _ _ _ _ _ _ Hfacts) as Hc.
  destruct (committed_name _ _ _ _ _ _ _ Hnames Ha Hc Hd') as (p' & Hp' & Hcase). cbv zeta in Hcase.
  rewrite planned_payload in Hp'. assert (p' = p) as -> by congruence.
  destruct Hcase as [(Hu & l & e & Hl & He & ->)|[(Hu & ->)|(Hne & l & w & e & Hl & Hw & He & ->)]].
  - eapply update_spares; [|done..]. unfold durable_memory_patch in Hp. apply res_bind_Ok in Hp as (x & _ & Hp).
    destruct (valid_patch x) eqn:Hv; [|done]. by injection Hp as <-.
  - apply creation_spares. destruct (apply_cases _ _ _ _ _ _ Ha) as [[Hn _]|(? & ? & _ & Hres & _)]; [done|].
    by rewrite (cr_control _ _ _ _ Hres).
  - by eapply supersession_spares.
Qed.
End Apply.

(** ** Histories *)

(** The receipt of a deleted memory. *)
Definition receipted (s : db) (uid id : string) : Prop :=
  exists rid q, privacy_deletion_receipt_id uid id = Ok rid /\ deletion_receipt_ref uid rid = Ok q /\ is_Some (s !! q).

Lemma receipted_blocks s uid id : receipted s uid id -> ~ unblocked s uid id.
Proof. intros (r & q & Hr & Hq & Hs) (r' & q' & Hr' & Hq' & Hn). destruct Hs. congruence. Qed.

(** A step after which no receipt is gone. *)
Lemma receipted_kept s s' uid id :
  (forall i p, deletion_receipt_ref uid i = Ok p -> s' !! p = s !! p \/ exists d, s' !! p = Some d) ->
  receipted s uid id -> receipted s' uid id.
Proof.
  intros H (rid & q & Hr & Hq & Hs). exists rid, q. split_and!; [done..|].
  destruct (H _ _ Hq) as [->|(d & ->)]; [done|by eexists].
Qed.

Lemma receipted_commit s s' uid uid' id now c op r op_ref ws :
  no_slash uid -> commit_step s s' uid' now c op r op_ref ws -> receipted s uid id -> receipted s' uid id.
Proof.
  intros Hu H. apply receipted_kept. intros i p Hp.
  destruct (step_document _ _ _ _ _ _ _ _ _ H uid "memory_deletion_receipts" i p Hu ltac:(decide_all) Hp)
    as [?|(_ & d & ? & _)]; [by left|right; by exists d].
Qed.

Lemma receipted_steps s s' uid uid' id now l :
  no_slash uid -> commit_steps uid' now s l s' -> receipted s uid id -> receipted s' uid id.
Proof. intros Hu H. induction H; [done|]. intros Hr. apply IHcommit_steps. by eapply receipted_commit. Qed.

Lemma receipted_insert s uid id q d : receipted s uid id -> receipted (<[q := d]> s) uid id.
Proof.
  intros (rid & p & Hr & Hp & Hs). exists rid, p. split_and!; [done..|].
  destruct (decide (q = p)) as [->|Hne]; [rewrite lookup_insert_eq; by eexists|by rewrite lookup_insert_ne].
Qed.

Lemma receipted_step admitted s s' uid id :
  no_slash uid -> ledger_step admitted s s' -> receipted s uid id -> receipted s' uid id.
Proof.
  intros Hu Hstep Hr.
  destruct (ledger_step_effect _ _ _ Hstep)
    as [rq now r ws op_ref c op _ _ _ H|rq now r ws op_ref c op _ _ _ [->| ->]|uid' tk now t ws op_ref c op r ids its _ H
       |uid' q now c d _ _ _ _ ->
       |rq now t c sources lineage planned next last rows r results pre wss s0 sn ref receipt Hu' _ _ _ _ Hret Hsteps Href ->|H].
  - by eapply receipted_commit.
  - done.
  - by apply receipted_insert.
  - by eapply receipted_commit.
  - by apply receipted_insert.
  - apply receipted_insert. eapply receipted_steps; [exact Hu|exact Hsteps|]. revert Hr. apply receipted_kept.
    intros i p Hp. by apply (rs_receipts _ _ _ _ Hret uid i p).
  - revert Hr. apply receipted_kept. intros i p Hp. left. eapply H; [exact Hu| |exact Hp]. decide_all.
Qed.

(** A deletion does not write the row of an earlier deletion. *)
Lemma deletion_spares s uid token now t ws op_ref c op r ids items id d d' :
  keeps_states -> keeps_names -> rows_named s uid ->
  tombstone_run s uid token now t ws op_ref c op r ids items -> deleted_row s uid id d ->
  d' ∈ memory_items r -> doc_get d' "memory_id" <> VStr id.
Proof.
  intros Hst Hnm Hn Hrun Hd Hin Hid.
  pose proof (dc_items _ _ _ _ _ _ _ _ _ (tr_commit _ _ _ _ _ _ _ _ _ _ _ _ Hrun)) as Hi.
  apply list_elem_of_lookup in Hin as [n Hin]. destruct (Forall2_lookup_r _ _ _ _ _ Hi Hin) as (e & He & Hm & _).
  destruct (Forall2_lookup_r _ _ _ _ _ (tr_rows _ _ _ _ _ _ _ _ _ _ _ _ Hrun) He) as (i & _ & Hat & Halive).
  pose proof (item_at_name _ _ _ _ Hnm Hn Hat) as Hname. assert (i = id) as -> by congruence.
  by rewrite (deleted_not_read _ _ _ _ _ Hst Hd Hat) in Halive.
Qed.

(** Nor does a replacement. *)
Lemma replacement_spares s rq now c sources lineage planned t next last rows r results pre wss s0 sn id p d :
  keeps_states -> keeps_names -> no_slash (rp_uid rq) -> item_ref (rp_uid rq) id = Ok p -> id <> "" ->
  rows_named s (rp_uid rq) -> plain_replacement rq ->
  replacement_run s rq now c sources lineage planned ->
  replacement_commit rq c sources lineage planned now t next last rows r results pre wss ->
  retract_step s s0 (rp_uid rq) rows -> commit_steps (rp_uid rq) now s0 (replacement_line rq planned r results) sn ->
  deleted_row s (rp_uid rq) id d -> receipted s (rp_uid rq) id -> s !! p = Some d -> sn !! p = Some d.
Proof.
  intros Hst Hnm Hu Hp Hid Hn Hplain Hrun Hrc Hret Hsteps Hd Hrec Hs.
  assert (Hgone : forall e, ~ standing s (rp_uid rq) id e).
  { intros e [Hat Halive]. by rewrite (deleted_not_read _ _ _ _ _ Hst Hd Hat) in Halive. }
  eapply steps_spare; [exact Hu|exact Hp|exact Hid|exact Hsteps| |].
  - intros _ op r' d' Hin Hd' Heq.
    destruct (line_row _ _ _ _ _ _ _ _ _ _ _ _ _ _ _ Hst Hnm Hn Hrun Hrc Hplain op r' d' Hin Hd')
      as (i & Hi & Hcase).
    assert (i = id) as -> by congruence. destruct Hcase as [[[e He] _]|Hnew]; [by eapply Hgone|].
    destruct (planned_name _ _ _ _ _ _ _ Hrun id Hnew) as [[e He]|Hub]; [by eapply Hgone|].
    by eapply receipted_blocks.
  - destruct (rs_rows _ _ _ _ Hret (rp_uid rq) id p Hu Hp) as [->|(_ & d' & Hin & _)]; [done|].
    destruct (retracted_row _ _ _ _ _ _ _ _ _ _ _ _ _ _ _ Hnm Hn Hrun Hrc id d' Hin) as (e & He & _).
    exfalso. by eapply Hgone.
Qed.

Lemma deleted_step s s' uid id d :
  keeps_states -> keeps_names -> no_slash uid -> id <> "" -> ledger_step planned s s' -> rows_named s uid ->
  receipted s uid id -> deleted_row s uid id d -> deleted_row s' uid id d.
Proof.
  intros Hst Hnm Hu Hid Hstep Hn Hrec Hd. pose proof Hd as (p & Hp & Hs & Ht). exists p. split_and!; [done| |done].
  destruct (ledger_step_effect _ _ _ Hstep) as [rq now r ws op_ref c op Ha Hrun Hr H|rq now r ws op_ref c op Hu' Hrun _ [->| ->]
    |uid' tk now t ws op_ref c op r ids its Hrun H|uid' q now c d' Hu' Hq _ _ ->
    |rq now t c sources lineage planned next last rows r results pre wss s0 sn ref receipt Hu' Ha Hrun Hrc _ Hret Hsteps Href ->|H].
  - eapply commit_spares; [exact Hu|exact Hp|exact Hid|exact H| |exact Hs]. intros E d' Hin.
    destruct (pr_commit _ _ _ _ _ _ _ _ (ar_promised _ _ _ _ _ _ _ _ Hrun) Hr) as (r0 & es & ex & ss & Hf).
    destruct (apply_cases _ _ _ _ _ _ (cf_apply _ _ _ _ _ _ _ _ _ _ Hf)) as [[Hn' _]|(pt & ev & Hps & _)];
      [exfalso; apply Hn', Hf|].
    pose proof (pass_patch _ _ _ _ _ Hps) as Hpt. rewrite planned_payload in Hpt.
    destruct (Ha op_ref op c pt) as [Hnp Hnew]; [apply Hrun|apply Hrun|apply Hrun|done|].
    subst uid. by eapply (apply_spares s rq now c op r r0 es ex ss pt id d).
  - done.
  - rewrite (rows_aside s uid (rq_uid rq) "memory_operations" id (rq_operation_id rq)); [done|done|done|decide_all|done|done|apply Hrun].
  - eapply commit_spares; [exact Hu|exact Hp|exact Hid|exact H| |exact Hs]. intros -> d' Hin. by eapply deletion_spares.
  - rewrite (rows_aside s uid uid' "memory_state" id "apply_control"); [done|done|done|decide_all|done|done|done].
  - rewrite (rows_aside sn uid (rp_uid rq) "memory_source_replacements" id (rp_replacement_id rq)); [|done|done|decide_all|done|done|done].
    destruct (decide (uid = rp_uid rq)) as [->|Hne]; [by eapply replacement_spares|].
    eapply steps_spare; [exact Hu|exact Hp|exact Hid|exact Hsteps|intros E; by destruct Hne|].
    destruct (rs_rows _ _ _ _ Hret uid id p Hu Hp) as [E|[E _]]; [by rewrite E|by destruct Hne].
  - by rewrite (H uid "memory_items" id p Hu ltac:(decide_all) Hp).
Qed.

Lemma deleted_history s s' uid id d :
  keeps_states -> keeps_names -> no_slash uid -> id <> "" -> history planned s s' -> rows_named s uid ->
  receipted s uid id -> deleted_row s uid id d -> deleted_row s' uid id d.
Proof.
  intros Hst Hnm Hu Hid H. induction H as [|s s1 s2 Hs _ IH]; [done|]. intros Hn Hrec Hd.
  apply IH; [by eapply named_step|by eapply receipted_step|by eapply deleted_step].
Qed.

(** C7: A deletion is final.  A privacy deletion that returns leaves, for every item
    it reports, a row without content that is tombstoned, and a receipt; over any
    later history of the store whose requests are [planned], that row stays as
    the deletion left it. *)
Theorem deletion_is_final uid reason observed expected preserved token review now s t s1 s2 d :
  keeps_states -> keeps_names -> no_slash uid -> rows_named s uid ->
  tombstone_memory_items_firestore uid reason observed expected preserved token review now s = Ok (t, s1) ->
  d ∈ tombstone_items t -> history planned s1 s2 ->
  exists p d' id q receipt,
    item_ref uid (text_or d "memory_id") = Ok p /\ s1 !! p = Some d' /\ s2 !! p = Some d' /\
    doc_get d' "status" = VStr "tombstoned" /\ doc_get d' "content" = VNone /\
    privacy_deletion_receipt_id uid (text_or d "memory_id") = Ok id /\ deletion_receipt_ref uid id = Ok q /\
    s1 !! q = Some receipt.
Proof.
  intros Hst Hnm Hu Hn H Hd Hh.
  destruct (tombstone_store_run _ _ _ _ _ _ _ _ _ _ _ H) as (ws & op_ref & c & op & r & ids & items & Hrun & Hc).
  pose proof (deletion_commit_step _ _ _ _ _ _ _ _ _ _ _ _ _ Hu Hrun Hc) as Hstep.
  pose proof (tr_commit _ _ _ _ _ _ _ _ _ _ _ _ Hrun) as Hdc. rewrite (tr_items _ _ _ _ _ _ _ _ _ _ _ _ Hrun) in Hd.
  destruct (step_item _ _ _ _ _ _ _ _ _ Hstep d Hd) as (p & d' & Hp & Hs1 & Hd' & Hname).
  assert (Hrow : exists e i, item_at s uid i e /\ scrubbed_row e d').
  { apply list_elem_of_lookup in Hd' as [n Hd']. destruct (Forall2_lookup_r _ _ _ _ _ (dc_items _ _ _ _ _ _ _ _ _ Hdc) Hd') as (e & He & Hsc).
    destruct (Forall2_lookup_r _ _ _ _ _ (tr_rows _ _ _ _ _ _ _ _ _ _ _ _ Hrun) He) as (i & _ & Hat & _). by exists e, i. }
  destruct Hrow as (e & i & (pe & raw & _ & _ & He) & Hid & Hstatus & Hcontent & _).
  destruct (dc_receipts _ _ _ _ _ _ _ _ _ Hdc d Hd) as (rid & q & receipt & Hrid & Hq & Hin).
  destruct (item_named _ _ Hnm He) as (x & _ & Hx & Hne).
  assert (Hx' : text_or d "memory_id" = x) by (rewrite <-Hname; unfold text_or; by rewrite Hid, Hx).
  assert (Hrec : exists receipt, s1 !! q = Some receipt).
  { destruct (commit_last _ _ _ q Hc) as [[_ Hno]|(w & Hw & Hwp & Hl)].
    - exfalso. apply Hno. by apply (list_elem_of_fmap_2 write_path) in Hin.
    - destruct (step_kind _ _ _ _ _ _ _ _ _ Hstep uid "memory_deletion_receipts" rid q w Hu ltac:(decide_all) Hq Hw Hwp)
        as [_ Hk]. destruct Hk; try done. simpl in Hl. by eexists. }
  destruct Hrec as [rc Hrc].
  assert (Hdel : deleted_row s2 uid (text_or d "memory_id") d').
  { eapply deleted_history; [done|done|done|by rewrite Hx'|exact Hh| | |by exists p].
    - eapply named_step; [done|exact Hu|eapply (step_delete planned); [exact Hu|exact H]|done].
    - exists rid, q. split_and!; [done..|by exists rc].  }
  destruct Hdel as (p' & Hp' & Hs2 & _). assert (p' = p) as -> by congruence.
  exists p, d', rid, q, rc. by split_and!.
Qed.
End Deletion.
