(* ===== verification/MemoryReplacementTheorems.v ===== *)
(** * What a source replacement promises

    One call moves the account from the memories of a conversation to those that
    replace them, in one transaction and a line of commits; a repetition changes
    nothing. *)

From S2P Require Import Prelude PyValue Firestore LegalHolds LegalHoldProofs Sha256 MemoryText MemoryOperations MemoryModels MemoryPromotion MemoryApply MemoryRecords MemoryReceipts MemoryStore MemoryPrivacy MemoryReplacement MemoryProofs MemoryItemProofs MemoryTheorems MemoryStoreProofs MemoryPrivacyProofs MemoryReplacementProofs MemoryHistory MemoryRows MemoryDeletion.
From Stdlib Require Import QArith_base Ascii.
From stdpp Require Import sorting.
Local Open Scope Z_scope.

#[local] Opaque deterministic_contract_id json_text sha256.

Section Theorems.
Context {T : TextEnv} {Md : ModelEnv} {St : StoreEnv}.

(** ** The end of a line of commits *)
Lemma steps_control uid now s l s' c last p :
  commit_steps uid now s l s' -> result_line uid c l last -> l <> [] -> control_ref uid = Ok p ->
  s' !! p = Some (control_data last).
Proof.
  intros H. revert c. induction H as [|s s1 s2 c0 op r q ws l Hstep Hs IH]; intros c Hline Hne Hp; [done|].
  inversion Hline as [|? ? ? ? ? _ Hrest]; subst. destruct l as [|x l].
  - inversion Hs; subst. inversion Hrest; subst. by eapply step_control.
  - by eapply IH.
Qed.

Lemma steps_app uid now s l1 l2 s' :
  commit_steps uid now s (l1 ++ l2) s' -> exists s1, commit_steps uid now s l1 s1 /\ commit_steps uid now s1 l2 s'.
Proof.
  revert s. induction l1 as [|[op r] l1 IH]; intros s H; [exists s; split; [constructor|done]|].
  inversion H as [|? s1 ? ? ? ? ? ? ? Hstep Hs]; subst. destruct (IH _ Hs) as (s2 & H1 & H2).
  exists s2. split; [by econstructor|done].
Qed.

(** The one row of a result stays when no later result names it. *)
Lemma steps_row uid now s l1 op r l2 s' d id p :
  no_slash uid -> commit_steps uid now s (l1 ++ (op, r) :: l2) s' -> memory_items r = [d] ->
  doc_get d "memory_id" = VStr id -> id <> "" -> item_ref uid id = Ok p ->
  (forall op' r' d', (op', r') ∈ l2 -> d' ∈ memory_items r' -> doc_get d' "memory_id" <> VStr id) ->
  s' !! p = Some d.
Proof.
  intros Hu H Hr Hid Hne Hp Hlater. apply steps_app in H as (s1 & _ & H).
  inversion H as [|? s2 ? ? ? ? ? ? ? Hstep Hs]; subst.
  eapply steps_spare; [exact Hu|exact Hp|exact Hne|exact Hs|by intros _|].
  destruct (step_item _ _ _ _ _ _ _ _ _ Hstep d) as (q' & d' & Hq' & Hs1 & Hd' & _); [rewrite Hr; by left|].
  rewrite Hr in Hd'. apply list_elem_of_singleton in Hd' as ->.
  assert (E : text_or d "memory_id" = id) by (unfold text_or; by rewrite Hid). rewrite E in Hq'. congruence.
Qed.

(** The result of a write: the apply of its patch, on top of the results before. *)
Lemma applied_lookup now c ps rs last i p r :
  applied now c ps rs last -> ps !! i = Some p -> rs !! i = Some r ->
  exists ci r0,
    apply_long_term_patch_transaction ci (aw_operation (pw_write p))
      (<["evidence" := VList (aw_evidence (pw_write p))]> (aw_payload (pw_write p))) false now = Ok r0 /\
    result_status r0 = apply_committed /\ Forall2 same_row (memory_items r0) (memory_items r) /\
    commit_sequence ci = commit_sequence c + Z.of_nat i /\ source_generation ci = source_generation c /\
    commit_sequence (control_state r) = commit_sequence ci + 1.
Proof.
  intros H. revert i. induction H as [|c q ps r0 x rs last Hr0 Hst Hr _ IH]; intros i Hp Hx; [done|].
  destruct (refresh_Ok _ _ _ _ Hr) as (_ & Hc & _ & Hrows).
  destruct (apply_cases _ _ _ _ _ _ Hr0) as [[? _]|(w & ev & _ & Hres & _)]; [done|].
  assert (Hs : commit_sequence (control_state x) = commit_sequence c + 1) by (by rewrite Hc, (cr_control _ _ _ _ Hres)).
  assert (Hg : source_generation (control_state x) = source_generation c) by (by rewrite Hc, (cr_control _ _ _ _ Hres)).
  destruct i as [|i]; simpl in Hp, Hx.
  - injection Hp as <-. injection Hx as <-. exists c, r0. split_and!; [done..|lia|done|done].
  - destruct (IH i Hp Hx) as (ci & r1 & H1 & H2 & H3 & H4 & H5 & H6). exists ci, r1. split_and!; [done..|lia|lia|done].
Qed.

(** The row of the [i]-th write [w]: what the apply of its patch creates, in the
    commit after the replacement's own and those of the writes before. *)
Definition replacing_row (s' : db) (rq : replacement_request) (now : Z) (c : MemoryControlState) (i : nat)
    (w : CanonicalApplyWrite) (id : string) : Prop :=
  exists ci r0 d0 p d,
    apply_long_term_patch_transaction ci (aw_operation w)
      (<["evidence" := VList (aw_evidence w)]> (aw_payload w)) false now = Ok r0 /\
    result_status r0 = apply_committed /\ memory_items r0 = [d0] /\
    commit_sequence ci = commit_sequence c + 1 + Z.of_nat i /\ source_generation ci = source_generation c + 1 /\
    item_ref (rp_uid rq) id = Ok p /\ s' !! p = Some d /\ same_row d0 d /\
    doc_get d "memory_id" = VStr id /\ doc_get d "ledger_sequence" = VInt (commit_sequence c + 2 + Z.of_nat i).

(** What a replacement that commits leaves, from the control state [c]. *)
Record replaced (s s' : db) (rq : replacement_request) (now : Z) (c : MemoryControlState)
    (t : ConversationSourceReplacementResult) : Prop := {
  rd_fence : _control_fence c = _control_fence (rp_observed rq);
  rd_sequence : commit_sequence (replaced_control t) = commit_sequence c + 1 + Z.of_nat (length (rp_writes rq));
  rd_generation : source_generation (replaced_control t) = source_generation c + 1;
  rd_control p : control_ref (rp_uid rq) = Ok p -> s' !! p = Some (control_data (replaced_control t));
  rd_sources : retracted_memory_ids t ≡ₚ names_of (rp_source_items rq);
  rd_unchanged id : id ∈ retracted_memory_ids t -> exists d e, item_at s (rp_uid rq) id d /\
    named_item (rp_source_items rq) id = Some e /\ source_row_unchanged (rp_uid rq) (rp_conversation_id rq) d e = true;
  rd_retracted id : id ∈ retracted_memory_ids t -> id ∉ committed_memory_ids t ->
    exists p d, item_ref (rp_uid rq) id = Ok p /\ s' !! p = Some d /\
      doc_get d "status" = VStr "tombstoned" /\ doc_get d "content" = VNone;
  rd_receipts id : rp_writes rq = [] -> id ∈ retracted_memory_ids t -> receipted s' (rp_uid rq) id;
  rd_names : Forall2 (fun w id => new_name (aw_payload w) = Ok id) (rp_writes rq) (committed_memory_ids t);
  rd_committed i w id : rp_writes rq !! i = Some w -> committed_memory_ids t !! i = Some id ->
    replacing_row s' rq now c i w id;
  rd_receipt : exists ref, replacement_ref (rp_uid rq) (rp_replacement_id rq) = Ok ref /\
    s' !! ref = Some (receipt_data rq t now)
}.

Section Replaced.
Variables (s s' s0 sn : db) (rq : replacement_request) (now : Z) (c : MemoryControlState) (sources : list source_row)
  (lineage : list item) (planned : list planned_write) (t : ConversationSourceReplacementResult)
  (next last : MemoryControlState) (rows : list (string * item)) (r : ApplyResult) (results : list ApplyResult)
  (pre : list write) (wss : list (list write)) (ref : path).
Hypothesis Hstates : keeps_states.
Hypothesis Hnames : keeps_names.
Hypothesis Hu : no_slash (rp_uid rq).
Hypothesis Hnamed : rows_named s (rp_uid rq).
Hypothesis Hplain : plain_replacement rq.
Hypothesis Hrun : replacement_run s rq now c sources lineage planned.
Hypothesis Hrc : replacement_commit rq c sources lineage planned now t next last rows r results pre wss.
Hypothesis Hpre : commit pre s = Some s0.
Hypothesis Hret : retract_step s s0 (rp_uid rq) rows.
Hypothesis Hsteps : commit_steps (rp_uid rq) now s0 (replacement_line rq planned r results) sn.
Hypothesis Href : replacement_ref (rp_uid rq) (rp_replacement_id rq) = Ok ref.
Hypothesis Hs' : s' = <[ref := receipt_data rq t now]> sn.

(** The last write is the receipt's. *)
Lemma ledger_kept coll id p :
  coll ∈ collections -> coll <> "memory_source_replacements" -> memory_ref (rp_uid rq) coll id = Ok p -> s' !! p = sn !! p.
Proof.
  intros Hc Hne Hp. subst s'. rewrite lookup_insert_ne; [done|]. intros ->. unfold replacement_ref in Href.
  by destruct (same_document _ _ _ _ _ _ _ Hp Href Hu Hu Hc ltac:(decide_all)) as (_ & ? & _).
Qed.

Lemma reported : replaced_control t = last /\ retracted_memory_ids t = sorted_strs (fst <$> rows) /\
  committed_memory_ids t = pw_id <$> planned.
Proof. apply Hrc. Qed.

Lemma retracted_name id : id ∈ retracted_memory_ids t -> exists d, (id, d) ∈ rows.
Proof.
  destruct reported as (_ & -> & _). unfold sorted_strs. rewrite merge_sort_Permutation.
  intros ([i d] & -> & Hin)%list_elem_of_fmap. by exists d.
Qed.

Lemma replaced_retracted id :
  id ∈ retracted_memory_ids t -> id ∉ committed_memory_ids t ->
  exists p d, item_ref (rp_uid rq) id = Ok p /\ s' !! p = Some d /\
    doc_get d "status" = VStr "tombstoned" /\ doc_get d "content" = VNone.
Proof.
  intros Hid Hno. destruct (retracted_name id Hid) as (d & Hd). destruct reported as (_ & _ & Hcommitted).
  rewrite Hcommitted in Hno.
  destruct (rc_retracted _ _ _ _ _ _ _ _ _ _ _ _ _ _ Hrc _ Hd) as [Hw _].
  destruct (Hw Hno) as (p & Hp & Hin). simpl in Hp.
  destruct (retracted_row _ _ _ _ _ _ _ _ _ _ _ _ _ _ _ Hnames Hnamed Hrun Hrc id d Hd) as (e & [Hat _] & _ & Hname & Hsource).
  assert (Hne : id <> "").
  { pose proof (item_at_name _ _ _ _ Hnames Hnamed Hat) as Hn. destruct Hat as (q & raw & _ & _ & He).
    destruct (item_named _ _ Hnames He) as (x & _ & Hx & Hx'). intros ->. congruence. }
  assert (Hs0 : exists d', (id, d') ∈ rows /\ s0 !! p = Some d').
  { destruct (commit_last _ _ _ p Hpre) as [[_ Hnot]|(w & Hw' & Hwp & Hl)].
    - exfalso. apply Hnot. by apply (list_elem_of_fmap_2 write_path) in Hin.
    - pose proof (rc_pre _ _ _ _ _ _ _ _ _ _ _ _ _ _ Hrc) as Hk. unfold retract_writes in Hk.
      pose proof (proj1 (Forall_forall _ _) Hk w Hw') as Hkind.
      pose proof (fun coll' id' H => same_document (rp_uid rq) "memory_items" id (rp_uid rq) coll' id' p Hp H Hu Hu ltac:(decide_all)) as Hsame.
      destruct Hkind as [i q x Hx Hq|i q x Hq|i q x Hq|i q Hq]; simpl in Hwp; subst q;
        destruct (Hsame _ _ Hq ltac:(decide_all)) as (_ & ? & <-); try done.
      by exists x. }
  destruct Hs0 as (d' & Hd' & Hs0).
  destruct (retracted_row _ _ _ _ _ _ _ _ _ _ _ _ _ _ _ Hnames Hnamed Hrun Hrc id d' Hd') as (_ & _ & (_ & Hst & Hct & _) & _ & _).
  exists p, d'. split_and!; [done| |done..].
  rewrite (ledger_kept "memory_items" id p); [|decide_all|done|done].
  eapply steps_spare; [exact Hu|exact Hp|exact Hne|exact Hsteps| |exact Hs0].
  intros _ op r' x Hl Hx Heq.
  destruct (line_row _ _ _ _ _ _ _ _ _ _ _ _ _ _ _ Hstates Hnames Hnamed Hrun Hrc Hplain op r' x Hl Hx) as (i & Hi & Hcase).
  assert (i = id) as -> by congruence. by destruct Hcase as [[_ ?]|?].
Qed.

Lemma replaced_receipts id : rp_writes rq = [] -> id ∈ retracted_memory_ids t -> receipted s' (rp_uid rq) id.
Proof.
  intros Hw Hid. destruct (retracted_name id Hid) as (d & Hd).
  destruct (rc_retracted _ _ _ _ _ _ _ _ _ _ _ _ _ _ Hrc _ Hd) as [_ Hr]. destruct (Hr Hw) as (i & q & x & Hi & Hq & Hin).
  simpl in Hi. subst s'. apply receipted_insert. eapply receipted_steps; [exact Hu|exact Hsteps|].
  exists i, q. split_and!; [done..|]. destruct (commit_last _ _ _ q Hpre) as [[_ Hnot]|(w & Hw' & Hwp & Hl)].
  - exfalso. apply Hnot. by apply (list_elem_of_fmap_2 write_path) in Hin.
  - pose proof (rc_pre _ _ _ _ _ _ _ _ _ _ _ _ _ _ Hrc) as Hk. unfold retract_writes in Hk.
    pose proof (proj1 (Forall_forall _ _) Hk w Hw') as Hkind. unfold deletion_receipt_ref in Hq.
    pose proof (fun coll' id' H => same_document (rp_uid rq) "memory_deletion_receipts" i (rp_uid rq) coll' id' q Hq H Hu Hu ltac:(decide_all)) as Hsame.
    destruct Hkind as [j p y Hx Hp|j p y Hp|j p y Hp|j p Hp]; simpl in Hwp, Hl; subst p; [by eexists..|].
    by destruct (Hsame _ _ Hp ltac:(decide_all)) as (_ & ? & _).
Qed.

Lemma planned_writes i w id :
  rp_writes rq !! i = Some w -> committed_memory_ids t !! i = Some id ->
  exists pw, planned !! i = Some pw /\ pw_write pw = w /\ pw_id pw = id.
Proof.
  destruct reported as (_ & _ & ->). rewrite <-(rr_writes _ _ _ _ _ _ _ Hrun), !list_lookup_fmap.
  destruct (planned !! i) as [pw|]; [|done]. intros [= <-] [= <-]. by exists pw.
Qed.

Lemma replaced_names : Forall2 (fun w id => new_name (aw_payload w) = Ok id) (rp_writes rq) (committed_memory_ids t).
Proof.
  destruct reported as (_ & _ & ->). rewrite <-(rr_writes _ _ _ _ _ _ _ Hrun).
  rewrite Forall2_fmap_l, Forall2_fmap_r. apply Forall_Forall2_diag.
  eapply Forall_impl; [exact (rr_planned _ _ _ _ _ _ _ Hrun)|]. intros pw. apply po_name.
Qed.

Lemma replaced_sources : retracted_memory_ids t ≡ₚ names_of (rp_source_items rq).
Proof.
  destruct reported as (_ & -> & _). unfold sorted_strs. rewrite merge_sort_Permutation.
  assert (fst <$> rows = sr_id <$> sources) as ->.
  { pose proof (rc_rows _ _ _ _ _ _ _ _ _ _ _ _ _ _ Hrc) as Hr.
    clear -Hr. induction Hr as [|x row l l' [Hx _] _ IH]; [done|]. rewrite !fmap_cons. by f_equal. }
  rewrite (rr_ids _ _ _ _ _ _ _ Hrun). apply merge_sort_Permutation.
Qed.

Lemma replaced_unchanged id :
  id ∈ retracted_memory_ids t -> exists d e, item_at s (rp_uid rq) id d /\
    named_item (rp_source_items rq) id = Some e /\ source_row_unchanged (rp_uid rq) (rp_conversation_id rq) d e = true.
Proof.
  rewrite replaced_sources. intros Hid.
  assert (Hin : id ∈ sr_id <$> sources).
  { rewrite (rr_ids _ _ _ _ _ _ _ Hrun). unfold sorted_strs. by rewrite merge_sort_Permutation. }
  apply list_elem_of_fmap in Hin as (x & -> & Hx).
  destruct (proj1 (Forall_forall _ _) (rr_unchanged _ _ _ _ _ _ _ Hrun) x Hx) as (e & ? & ?).
  destruct (proj1 (Forall_forall _ _) (rr_sources _ _ _ _ _ _ _ Hrun) x Hx) as [? _]. by exists (sr_item x), e.
Qed.

(** The row of a result has a document. *)
Lemma result_path i x d :
  results !! i = Some x -> d ∈ memory_items x ->
  exists p, item_ref (rp_uid rq) (text_or d "memory_id") = Ok p /\ x ∈ results.
Proof.
  intros Hx Hd. pose proof (rc_writes _ _ _ _ _ _ _ _ _ _ _ _ _ _ Hrc) as Hw.
  destruct (Forall2_lookup_l _ _ _ (S i) x Hw) as (ws & _ & q & _ & Hcw); [done|].
  destruct (cw_items _ _ _ _ Hcw d Hd) as (p & Hp & _). exists p. split; [done|by eapply list_elem_of_lookup_2].
Qed.

Lemma replaced_committed i w id :
  rp_writes rq !! i = Some w -> committed_memory_ids t !! i = Some id -> replacing_row s' rq now c i w id.
Proof.
  intros Hw Hid. destruct (planned_writes i w id Hw Hid) as (pw & Hi & <- & <-).
  pose proof (replacement_rows _ _ _ _ _ _ _ _ _ _ _ _ _ _ _ Hstates Hnames Hrun Hrc Hplain) as Hrows.
  destruct (Forall2_lookup_l _ _ _ _ _ Hrows Hi) as (r' & Hr' & d & Hitems & Hname & Hsq).
  destruct (applied_lookup _ _ _ _ _ _ _ _ (rc_applied _ _ _ _ _ _ _ _ _ _ _ _ _ _ Hrc) Hi Hr')
    as (ci & r0 & Hr0 & Hst0 & Hsame & Hci & Hgi & Hsi).
  destruct (rc_next _ _ _ _ _ _ _ _ _ _ _ _ _ _ Hrc) as (Hnext & Hgen & _). rewrite Hnext in Hci. rewrite Hgen in Hgi.
  rewrite Hitems in Hsame. apply Forall2_cons_inv_r in Hsame as (d0 & l0 & Hd0 & Hnil & Hl0).
  apply Forall2_nil_inv_r in Hnil as ->.
  destruct (result_path i r' d Hr') as (p & Hp & _); [rewrite Hitems; by left|].
  assert (Ht : text_or d "memory_id" = pw_id pw) by (unfold text_or; by rewrite Hname). rewrite Ht in Hp.
  exists ci, r0, d0, p, d. split_and!; try done; [|rewrite Hsq; f_equal; lia].
  rewrite (ledger_kept "memory_items" (pw_id pw) p); [|decide_all|done|done].
  set (ops := (fun p => aw_operation (pw_write p)) <$> planned).
  assert (Hz : zip ops results !! i = Some (aw_operation (pw_write pw), r')).
  { unfold ops. apply lookup_zip_Some. split; [|done]. rewrite list_lookup_fmap, Hi. done. }
  assert (Hsplit : replacement_line rq planned r results =
    ((rp_operation rq, r) :: take i (zip ops results)) ++ (aw_operation (pw_write pw), r') :: drop (S i) (zip ops results)).
  { unfold replacement_line. fold ops. simpl. f_equal. symmetry. by apply take_drop_middle. }
  pose proof Hsteps as Hst. rewrite Hsplit in Hst.
  eapply steps_row; [exact Hu|exact Hst|exact Hitems|exact Hname| |exact Hp|].
  { apply (new_name_nonblank (aw_payload (pw_write pw))).
    apply (po_name _ _ _ _ (proj1 (Forall_lookup _ _) (rr_planned _ _ _ _ _ _ _ Hrun) i pw Hi)). }
  intros op' r2 d' Hin Hd' Heq. apply list_elem_of_lookup in Hin as [j Hj]. rewrite lookup_drop in Hj.
  apply lookup_zip_Some in Hj as [_ Hj]. destruct (Forall2_lookup_r _ _ _ _ _ Hrows Hj) as (pw' & Hj' & d2 & Hit2 & Hn2 & _).
  rewrite Hit2 in Hd'. apply list_elem_of_singleton in Hd' as ->. rewrite Hn2 in Heq. injection Heq as Heq.
  assert (S i + j = i)%nat; [|lia].
  eapply NoDup_lookup; [exact (rr_names _ _ _ _ _ _ _ Hrun)| |]; rewrite list_lookup_fmap; [by rewrite Hj'|by rewrite Hi, Heq].
Qed.

Lemma replaced_facts : replaced s s' rq now c t.
Proof.
  pose proof (rc_next _ _ _ _ _ _ _ _ _ _ _ _ _ _ Hrc) as (Hsq & Hgen & Hvalid).
  pose proof (applied_line _ _ _ _ _ _ _ _ Hvalid (rr_planned _ _ _ _ _ _ _ Hrun) (rc_applied _ _ _ _ _ _ _ _ _ _ _ _ _ _ Hrc))
    as (Hline & _ & Hlast & Hlg).
  destruct reported as (Hc & Hretracted & Hcommitted). split.
  - apply Hrun.
  - rewrite Hc, Hlast, Hsq, <-(rr_writes _ _ _ _ _ _ _ Hrun), length_fmap. done.
  - by rewrite Hc, Hlg, Hgen.
  - intros p Hp. rewrite (ledger_kept "memory_state" "apply_control" p); [|decide_all|done|done]. rewrite Hc.
    eapply (steps_control _ _ _ _ _ c); [exact Hsteps| |by unfold replacement_line|exact Hp].
    unfold replacement_line. econstructor; [apply Hrc|]. by rewrite (rc_control _ _ _ _ _ _ _ _ _ _ _ _ _ _ Hrc).
  - apply replaced_sources.
  - apply replaced_unchanged.
  - apply replaced_retracted.
  - apply replaced_receipts.
  - apply replaced_names.
  - apply replaced_committed.
  - exists ref. split; [done|]. by rewrite Hs', lookup_insert_eq.
Qed.
End Replaced.

(** C8: A source replacement is one line of commits or nothing.  A call that returns
    either finds the stored receipt of an earlier call with its digest, whose
    generations are still the account's and whose rows still stand, reports what
    that one did, and leaves the store as it was; or it found the control state
    that its planner had observed and every row of the source as the planner had
    seen it, and leaves the next generation of the source.  Then exactly the rows
    of the request's source are reported as retracted, and each that no
    replacement recreates is a tombstone without content, with a deletion receipt
    when nothing replaces the source; each write of the request has the row it
    names, created by the apply of its patch in a commit of its own after the
    replacement's (the revisions continue those of a row it recreates); and the
    receipt of the call is stored.  The conditions: reading a row keeps its state
    and name, rows are stored under their names, the operations of the request are
    different ones, and its writes only add rows. *)
Theorem source_replacement_is_atomic mode rq now s t s' :
  keeps_states -> keeps_names -> no_slash (rp_uid rq) -> rows_named s (rp_uid rq) ->
  distinct_operations rq -> plain_replacement rq ->
  replace_conversation_source_firestore mode rq now s = Ok (t, s') ->
  (s' = s /\ control_at s (rp_uid rq) now (replaced_control t) /\
     exists ref receipt, replacement_ref (rp_uid rq) (rp_replacement_id rq) = Ok ref /\
       earlier_call s rq now (replaced_control t) ref t receipt) \/
  exists c, control_at s (rp_uid rq) now c /\ replaced s s' rq now c t.
Proof.
  intros Hst Hnm Hu Hn Hd Hplain H. destruct (replacement_steps _ _ _ _ _ _ Hu Hd H) as [?|Hs]; [by left|right].
  destruct Hs as (c & sources & lineage & planned & next & last & rows & r & results & pre & wss & s0 & sn & ref
    & Hrun & Hrc & Hpre & Hret & Hsteps & Href & Hs'). exists c. split; [apply Hrun|]. by eapply replaced_facts.
Qed.
End Theorems.
