(* ===== verification/MemoryDemo.v ===== *)
(** * Concrete runs of the memory ledger

    A short-term memory is added, then updated; the theorems on the ledger are
    applied to these runs. *)

From S2P Require Import Prelude PyValue Sha256 Firestore MemoryText MemoryOperations MemoryModels MemoryPromotion MemoryApply MemoryProofs MemoryItemProofs MemoryTheorems.
From Stdlib Require Import QArith_base Ascii.
Local Open Scope Z_scope.

(** The declared defaults of the models, and no conversion. *)
Definition patch_defaults : fields :=
  list_to_map
    [("evidence_ids", VList []); ("evidence_refs", VList []); ("arguments", VDict []); ("supersedes", VList []);
     ("initial_tier", VStr "short_term"); ("clear_graph_assertion", VBool false); ("visibility", VStr "private");
     ("user_asserted", VBool false); ("kind", VStr "fact"); ("subject_scope", VStr "primary_user");
     ("curation_weight", VInt 0); ("trigger_condition", VDict []); ("intent_backed", VBool false)].

Definition item_defaults : fields :=
  list_to_map
    [("evidence", VList []); ("item_revision", VInt 1); ("arguments", VDict []); ("kind", VStr "fact");
     ("subject_scope", VStr "primary_user"); ("curation_weight", VInt 0); ("trigger_condition", VDict []);
     ("intent_backed", VBool false); ("graph_ready", VBool false)].

Definition plain_models : ModelEnv := {| read_model name d :=
  if decide (name = "DurableMemoryPatch") then Ok (d ∪ patch_defaults)
  else if decide (name = "MemoryItem") then Ok (d ∪ item_defaults)
  else Ok d |}.

Section Demo.
#[local] Existing Instance plain_text.
#[local] Existing Instance plain_models.

Definition now : Z := days 20000.

Definition demo_control : MemoryControlState :=
  Control "u" "genesis" 1 1 compatibility 0 None 0 0 0 None 0 None None None 0 None None now.

(** A new short-term memory. *)
Definition add_payload : fields := list_to_map
  [("patch_id", VStr "p1"); ("packet_id", VStr "k1"); ("run_id", VStr "r1"); ("idempotency_key", VStr "i1");
   ("decision", VStr "add"); ("result_status", VStr "active"); ("memory_text", VStr "likes tea");
   ("evidence_ids", VList [VStr "e1"])].

Definition demo_payload (decision : string) (text target visibility : option string) : OperationLogicalPayload :=
  LogicalPayload decision text target (Some "active") [] None None [] None visibility None None None [].

Definition demo_operation (t : MemoryOperationType) (payload : OperationLogicalPayload) : MemoryOperation :=
  match new "u" t (Some "k1") (lp_target_memory_id payload) ["e1"] payload 1 1 (Some "genesis") None now with
  | Ok op => op
  | Raise _ => Operation "" "" deletion pending None None [] payload "" 0 0 None None None [] [] 0 None None 0 0
  end.

Definition add_operation : MemoryOperation :=
  demo_operation long_term_apply (demo_payload "add" (Some "likes tea") None None).

Abbreviation added :=
  (apply_long_term_patch_transaction demo_control add_operation add_payload false now) (only parsing).

(** A run that commits at least one item. *)
Definition commits (x : res ApplyResult) : bool :=
  match x with
  | Ok r => bool_decide (result_status r = apply_committed) && negb (bool_decide (memory_items r = []))
  | Raise _ => false
  end.

Lemma commits_Ok x :
  commits x = true ->
  exists r d items, x = Ok r /\ result_status r = apply_committed /\ memory_items r = d :: items.
Proof.
  unfold commits. destruct x as [r|]; [|done]. intros [H1%bool_decide_eq_true H2]%andb_true_iff.
  destruct (memory_items r) as [|d items] eqn:E; [done|]. by exists r, d, items.
Qed.

Lemma added_commits : commits added = true.
Proof. vm_compute. reflexivity. Qed.

(** The models keep what a document gives. *)
Lemma plain_keeps : keeps_states.
Proof.
  intros d d' k H _ Hv. simpl in H. injection H as <-. unfold doc_get in *. rewrite lookup_union.
  destruct (d !! k); [|done]. simpl. by destruct (item_defaults !! k).
Qed.

(** A ledger mutation that writes a long-term fact. *)
Definition ledger_payload : fields :=
  list_to_map [("initial_tier", VStr "long_term"); ("ledger_schema_version", VStr KNOWLEDGE_LEDGER);
               ("write_reason", VStr "legacy_migration")] ∪ add_payload.

Definition ledger_operation : MemoryOperation :=
  demo_operation ledger_mutation (demo_payload "add" (Some "likes tea") None None).

Abbreviation ledger_added :=
  (apply_long_term_patch_transaction demo_control ledger_operation ledger_payload false now) (only parsing).

Lemma ledger_commits : commits ledger_added = true.
Proof. vm_compute. reflexivity. Qed.

(** An active long-term item, and an update that publishes it. *)
Definition long_term_dict : dict :=
  [("memory_id", VStr "m1"); ("uid", VStr "u"); ("version", VInt 1); ("tier", VStr "long_term");
   ("status", VStr "active"); ("processing_state", VStr "processed"); ("content", VStr "likes tea");
   ("visibility", VStr "private"); ("captured_at", VTime true now); ("updated_at", VTime true now);
   ("ledger_commit_id", VStr "genesis"); ("ledger_sequence", VInt 0); ("source_state", VStr "active");
   ("evidence", VList [VDict [("evidence_id", VStr "e1"); ("source_state", VStr "active")]])].

Definition publish_payload : fields := list_to_map
  [("patch_id", VStr "p2"); ("packet_id", VStr "k1"); ("run_id", VStr "r1"); ("idempotency_key", VStr "i2");
   ("decision", VStr "update"); ("result_status", VStr "active"); ("target_memory_id", VStr "m1");
   ("target_visibility", VStr "public"); ("evidence_ids", VList [VStr "e1"]);
   ("existing_item", VDict long_term_dict)].

Definition publish_operation : MemoryOperation :=
  demo_operation user_mutation (demo_payload "update" None (Some "m1") (Some "public")).

Abbreviation published :=
  (apply_long_term_patch_transaction demo_control publish_operation publish_payload false now) (only parsing).

Lemma published_commits : commits published = true.
Proof. vm_compute. reflexivity. Qed.

(** The same update, by a planner that saw the head before the addition. *)
Definition late (r : ApplyResult) : res ApplyResult :=
  apply_long_term_patch_transaction (control_state r) publish_operation publish_payload false now.

Lemma late_is_retried :
  (match added with
   | Ok r => match late r with Ok r2 => bool_decide (result_status r2 = retryable_head_mismatch) | _ => false end
   | _ => false
   end) = true.
Proof. vm_compute. reflexivity. Qed.

(** ** The theorems on these runs *)
Lemma apply_commits_or_changes_nothing_witness :
  exists r, added = Ok r /\ result_status r = apply_committed /\ commit_sequence (control_state r) = 1.
Proof.
  destruct (commits_Ok _ added_commits) as (r & d & items & E & Hc & _). exists r.
  destruct (apply_commits_or_changes_nothing _ _ _ _ _ _ E) as [_ H]. destruct (H Hc) as (_ & Hs & _).
  split_and!; [exact E|exact Hc|exact Hs].
Defined.

Lemma committed_operation_is_idempotent_witness :
  exists r, added = Ok r /\ apply_long_term_patch_transaction (control_state r) (result_operation r) add_payload false now
    = Ok (refused idempotent_skip (control_state r) (result_operation r)).
Proof.
  destruct (commits_Ok _ added_commits) as (r & d & items & E & Hc & _). exists r. split; [exact E|].
  exact (committed_operation_is_idempotent _ _ _ _ _ _ (control_state r) false now E Hc).
Defined.

Lemma second_writer_is_rebased_witness :
  exists r1 r2, added = Ok r1 /\ late r1 = Ok r2 /\ result_status r2 = retryable_head_mismatch /\
    observed_head_commit_id (result_operation r2) = Some (head_commit_id (control_state r1)).
Proof.
  destruct (commits_Ok _ added_commits) as (r1 & d & items & E & Hc & _). pose proof late_is_retried as Hl.
  rewrite E in Hl. destruct (late r1) as [r2|] eqn:E2; [|discriminate Hl].
  apply bool_decide_eq_true in Hl. exists r1, r2. split_and!; [exact E|exact E2|exact Hl|]. unfold late in E2.
  refine (proj1 (proj2 (proj2 (second_writer_is_rebased _ _ _ _ _ _ _ _ _ _ _ E Hc _ _ _ E2)) Hl)).
  - vm_compute. reflexivity.
  - vm_compute. discriminate.
  - vm_compute. discriminate.
Defined.

Definition demo_calls : list apply_call :=
  [Call add_operation add_payload false now; Call publish_operation publish_payload false now].

Lemma projection_catches_up_witness :
  let '(c', rs) := ledger_run demo_control demo_calls in
  commit_sequence c' = 1 /\
  exists w, advance_all now demo_control (omap projection_event rs) = Ok w /\
    projection_watermark_commit_id w = Some (head_commit_id c').
Proof.
  assert (Hw : watermark_current demo_control) by (split; [reflexivity|left; reflexivity]).
  pose proof (projection_catches_up demo_control demo_calls now Hw) as H.
  assert (Hn : length (ledger_run demo_control demo_calls).2 = 1%nat) by (vm_compute; reflexivity).
  destruct (ledger_run demo_control demo_calls) as [c' rs]. cbn [snd] in Hn. destruct H as (Hs & w & Ha & _ & Hh).
  rewrite Hn in Hs. split; [exact Hs|]. exists w. split; [exact Ha|]. apply Hh. by destruct rs.
Defined.

(** A memory that replaces an older one. *)
Definition revised_payload : fields :=
  list_to_map [("supersedes", VList [VStr "m1"]); ("superseded_items", VList [VDict long_term_dict])] ∪ add_payload.

Definition revised_operation : MemoryOperation :=
  demo_operation long_term_apply
    (LogicalPayload "add" (Some "likes tea") None (Some "active") ["m1"] None None [] None None None None None []).

Abbreviation revised :=
  (apply_long_term_patch_transaction demo_control revised_operation revised_payload false now) (only parsing).

Lemma revised_commits : commits revised = true.
Proof. vm_compute. reflexivity. Qed.

Definition supersedes_of (raw : fields) : list string :=
  match durable_memory_patch (patch_fields raw) with Ok p => superseded_ids p | Raise _ => [] end.

Lemma committed_items_are_legal_witness :
  exists r d i items e, revised = Ok r /\ memory_items r = d :: i :: items /\ legal_item d /\
    predecessors revised_payload !! "m1" = Some e /\
    marked d e i (head_commit_id (control_state r)) (commit_sequence (control_state r)).
Proof.
  destruct (commits_Ok _ revised_commits) as (r & d & items & E & Hc & Hi).
  destruct (committed_items_are_legal _ _ _ _ _ _ _ _ plain_keeps E Hc Hi) as (Hl & _ & _ & p & Hp & Hs).
  assert (Hids : supersedes_of revised_payload = ["m1"]) by (vm_compute; reflexivity).
  unfold supersedes_of in Hids. rewrite Hp in Hids. rewrite Hids in Hs.
  destruct items as [|i items]; [by apply Forall2_nil_inv_r in Hs|]. apply Forall2_cons_1 in Hs as [(e & He & Hm & _) _].
  exists r, d, i, items, e. split_and!; [exact E|exact Hi|exact Hl|exact He|exact Hm].
Defined.

Lemma long_term_needs_promotion_witness :
  exists r d items, ledger_added = Ok r /\ memory_items r = d :: items /\ doc_get d "tier" = VStr "long_term" /\
    exists p evidence existing, durable_memory_patch (patch_fields ledger_payload) = Ok p /\
      payload_evidence ledger_payload = Ok evidence /\ existing_of ledger_payload p = Ok (Some existing) /\
      long_term_because ledger_operation ledger_payload r d p evidence existing.
Proof.
  destruct (commits_Ok _ ledger_commits) as (r & d & items & E & Hc & Hi). exists r, d, items.
  assert (Ht : doc_get d "tier" = VStr "long_term").
  { assert (H : (match ledger_added with Ok r => match memory_items r with d :: _ => v_is (doc_get d "tier") "long_term"
      | [] => false end | Raise _ => false end) = true) by (vm_compute; reflexivity).
    rewrite E, Hi in H. by apply v_is_true. }
  split_and!; [exact E|exact Hi|exact Ht|].
  exact (long_term_needs_promotion _ _ _ _ _ _ _ _ plain_keeps E Hc Hi Ht).
Defined.

(** The update is of an active long-term item and no demotion. *)
Definition guards_of (raw : fields) : bool :=
  match durable_memory_patch (patch_fields raw) with
  | Ok p =>
      match existing_of raw p with
      | Ok (Some (Some e)) =>
          active_long_term e
          && negb (v_is (doc_get p "target_tier") "short_term" && truthy (doc_get p "clear_graph_assertion"))
      | _ => false
      end
  | Raise _ => false
  end.

Lemma published_guards : guards_of publish_payload = true.
Proof. vm_compute. reflexivity. Qed.

Lemma long_term_meaning_is_immutable_witness :
  exists r d items p e, published = Ok r /\ memory_items r = d :: items /\
    existing_of publish_payload p = Ok (Some (Some e)) /\
    py_eq (doc_get d "content") (doc_get e "content") = true.
Proof.
  destruct (commits_Ok _ published_commits) as (r & d & items & E & Hc & Hi).
  pose proof published_guards as Hg. unfold guards_of in Hg.
  destruct (durable_memory_patch (patch_fields publish_payload)) as [p|] eqn:Ep; [|discriminate Hg].
  destruct (existing_of publish_payload p) as [[[e|]|]|] eqn:Ee; try discriminate Hg.
  apply andb_true_iff in Hg as [He Hd]. apply negb_true_iff in Hd.
  exists r, d, items, p, e. split_and!; [exact E|exact Hi|exact Ee|].
  refine (proj1 (long_term_meaning_is_immutable _ _ _ _ _ _ _ _ _ E Hc Hi Ep Ee He _ Hd)).
  vm_compute. discriminate.
Defined.

Lemma only_eligible_items_are_projected_witness :
  exists r d items, added = Ok r /\ memory_items r = d :: items /\
    exists e, e ∈ outbox_events r /\ event_type e = vector_sync /\ action_of e = VStr "upsert".
Proof.
  destruct (commits_Ok _ added_commits) as (r & d & items & E & Hc & Hi). exists r, d, items.
  split_and!; [exact E|exact Hi|].
  destruct (only_eligible_items_are_projected _ _ _ _ _ _ E) as [_ H].
  destruct (H d vector_sync) as (e & He & Ht & _ & Ha); [rewrite Hi; by left|by right; left|].
  exists e. split_and!; [exact He|exact Ht|]. rewrite Ha.
  assert (Hd : (match added with Ok r => match memory_items r with d :: _ => projection_eligible d
      | [] => false end | Raise _ => false end) = true) by (vm_compute; reflexivity).
  rewrite E, Hi in Hd. by rewrite Hd.
Defined.

(** Two planners that list the same arguments and evidence in other orders. *)
Definition argued (arguments : dict) : OperationLogicalPayload :=
  LogicalPayload "add" (Some "likes tea") None (Some "active") [] None None arguments None None None None None [].

Lemma operation_identity_is_logical_witness :
  let a := argued [("what", VStr "tea"); ("when", VStr "daily")] in
  let b := argued [("when", VStr "daily"); ("what", VStr "tea")] in
  build_operation_id "u" synthesis None None ["e1"; "e2"] a 1 1 (Some "h1") None
    = build_operation_id "u" synthesis None None ["e2"; "e1"] b 1 1 (Some "h2") (Some 3) /\
  payload_digest a = payload_digest b.
Proof.
  apply operation_identity_is_logical; [apply perm_swap|]. split; simpl; try done.
  - split; [|apply perm_swap]. apply NoDup_cons. split; [by intros [?|?%not_elem_of_nil]%elem_of_cons|].
    apply NoDup_singleton.
  - split; [apply NoDup_nil_2|done].
Defined.
End Demo.
