(* ===== verification/LifecycleDemo.v ===== *)
(** * Concrete reads and lifecycle runs

    The theorems on default reads and on the short-term lifecycle worker applied
    to concrete items and stores. *)

From S2P Require Import Prelude PyValue Sha256 Firestore MemoryText MemoryOperations MemoryModels MemoryPromotion MemoryAccess MemoryLifecycle MemoryApply MemoryProofs MemoryItemProofs MemoryTheorems MemoryAccessProofs MemoryLifecycleProofs MemoryDemo.
From Stdlib Require Import QArith_base Ascii.
Local Open Scope Z_scope.

Section Demo.
#[local] Existing Instance plain_text.
#[local] Existing Instance plain_models.

(** An expired short-term item that is processed, one whose source is gone, and a
    long-term one. *)
Definition short_dict (id source : string) : dict :=
  [("memory_id", VStr id); ("uid", VStr "u"); ("version", VInt 1); ("tier", VStr "short_term");
   ("status", VStr "active"); ("processing_state", VStr "processed"); ("content", VStr "likes tea");
   ("visibility", VStr "private"); ("captured_at", VTime true (now - days 3)); ("updated_at", VTime true (now - days 3));
   ("expires_at", VTime true (now - days 1)); ("source_state", VStr source); ("user_asserted", VBool true);
   ("item_revision", VInt 1)].

Definition processed_short : item := fields_of (short_dict "s1" "active").
Definition orphaned_short : item := fields_of (short_dict "s2" "tombstoned").
Definition long_item : item := fields_of long_term_dict.

Definition chat : MemoryAccessPolicy := for_omi_chat false.

Definition demo_items : list item := [processed_short; orphaned_short; long_item].

(** Newest first; the item without its source is not served. *)
Lemma demo_served :
  (match filter_canonical_default_visible_items demo_items chat now with
   | Ok l => bool_decide ((fun d => text_or d "memory_id") <$> l = ["m1"; "s1"])
   | Raise _ => false
   end) = true.
Proof. vm_compute. reflexivity. Qed.

Lemma demo_distinct : NoDup ((fun d : item => text_or d "memory_id") <$> demo_items).
Proof. refine (bool_decide_unpack _ _). vm_compute. exact I. Qed.

Lemma canonical_reads_are_the_granted_witness :
  exists l, filter_canonical_default_visible_items demo_items chat now = Ok l /\
    forall d, d ∈ l <-> d ∈ demo_items /\ processed_item d = true /\ user_rejected d = false /\ granted chat now d.
Proof.
  pose proof demo_served as H.
  destruct (filter_canonical_default_visible_items demo_items chat now) as [l|] eqn:E; [|discriminate H].
  exists l. split; [reflexivity|]. exact (proj1 (canonical_reads_are_the_granted _ _ _ _ demo_distinct E)).
Defined.

Lemma served_memories_are_projected_witness :
  exists l d, filter_canonical_default_visible_items demo_items chat now = Ok l /\ d ∈ l /\ shown d.
Proof.
  pose proof demo_served as H.
  destruct (filter_canonical_default_visible_items demo_items chat now) as [l|] eqn:E; [|discriminate H].
  destruct l as [|d l]; [discriminate H|]. exists (d :: l), d.
  assert (Hd : d ∈ d :: l) by (apply elem_of_cons; left; reflexivity).
  split; [reflexivity|]. split; [exact Hd|].
  exact (proj1 (served_memories_are_projected _ _ _ _ _ demo_distinct E Hd)).
Defined.

(** ** Transitions *)
Definition demo_record : ShortTermLifecycleTransitionRecord :=
  TransitionRecord "u" "s1" "remain_short_term" "short_term_fresh" "run-1" "t" [] "key" "print".

Definition demo_ref : path :=
  ["users"; "u"; "short_term_lifecycle_transitions"; _stable_transition_id "u" "key"].

Lemma lifecycle_transition_is_recorded_once_witness :
  exists s', persist_short_term_lifecycle_transition demo_record now ∅ = Ok (PersistResult demo_record true, s') /\
    persist_short_term_lifecycle_transition demo_record (now + days 1) s' = Ok (PersistResult demo_record false, s').
Proof.
  assert (Hp : transition_ref demo_record = Ok demo_ref) by (vm_compute; reflexivity).
  destruct (lifecycle_transition_is_recorded_once demo_record now ∅ demo_ref demo_record (now + days 1)
              Hp (lookup_empty _) eq_refl eq_refl) as (s' & H1 & _ & H2).
  exists s'. split; [exact H1|]. rewrite H2. by rewrite decide_True by reflexivity.
Defined.

(** The transition of the item without a source, under a disposition. *)
Definition transition (x : option ShortTermDisposition) (run : string) : res ShortTermLifecycleTransitionRecord :=
  l ← evaluate_short_term_lifecycle orphaned_short now x;
  build_short_term_lifecycle_transition_record orphaned_short l run.

Definition archive_it : gmap string ShortTermDisposition := {[ "s2" := DArchive ]}.

(** A run without dispositions, then one that archives. *)
Lemma transitions_differ :
  (match transition None "run-1", transition (Some DArchive) "run-2" with
   | Ok r, Ok r' =>
       match transition_ref r with
       | Ok _ => negb (bool_decide (fingerprint r' = fingerprint r))
       | Raise _ => false
       end
   | _, _ => false
   end) = true.
Proof. vm_compute. reflexivity. Qed.

Lemma changed_disposition_ends_the_run_witness :
  exists s, process_short_term_lifecycle_items [orphaned_short; processed_short] now "run-2" archive_it
              (WorkerReport [] [] []) s = (Raise ValueError, s).
Proof.
  pose proof transitions_differ as H. unfold transition in H.
  destruct (evaluate_short_term_lifecycle orphaned_short now None) as [l|] eqn:El; [|discriminate H].
  rewrite !ok_bind in H.
  destruct (build_short_term_lifecycle_transition_record orphaned_short l "run-1") as [r|] eqn:Er; [|discriminate H].
  destruct (evaluate_short_term_lifecycle orphaned_short now (Some DArchive)) as [l'|] eqn:El'; [|discriminate H].
  rewrite !ok_bind in H.
  destruct (build_short_term_lifecycle_transition_record orphaned_short l' "run-2") as [r'|] eqn:Er'; [|discriminate H].
  destruct (transition_ref r) as [p|] eqn:Ep; [|discriminate H].
  apply negb_true_iff, bool_decide_eq_false in H.
  exists (<[p := _firestore_transition_payload r (_stable_transition_id (tr_uid r) (idempotency_key r)) now]> ∅).
  refine (changed_disposition_ends_the_run _ _ _ _ _ _ _ _ _ _ _ _ _ _ _ El _ Er Er' (persisted_stores r now ∅ p Ep) H).
  - vm_compute. reflexivity.
  - exact El'.
Defined.

(** ** Fetching *)
Definition stored_items : db := {[ ["users"; "u"; "memory_items"; "s1"] := processed_short ]}.

Lemma demo_fetches :
  (match fetch_expired_short_term_memory_items_firestore "u" now None stored_items with
   | Ok l => Nat.eqb (length l) 1
   | Raise _ => false
   end) = true.
Proof. vm_compute. reflexivity. Qed.

Lemma fetched_items_are_expired_and_bounded_witness :
  exists d, fetch_expired_short_term_memory_items_firestore "u" now None stored_items = Ok [d] /\ settleable "u" now d.
Proof.
  pose proof demo_fetches as H.
  destruct (fetch_expired_short_term_memory_items_firestore "u" now None stored_items) as [l|] eqn:E; [|discriminate H].
  destruct l as [|d [|]]; try discriminate H. exists d. split; [reflexivity|].
  destruct (fetched_items_are_expired_and_bounded _ _ _ _ _ E) as (_ & _ & Hf & _).
  exact (Forall_inv Hf).
Defined.
End Demo.
