(* ===== verification/MemoryStoreDemo.v ===== *)
(** * Concrete runs of the ledger's store

    A memory is added to an account, read back and deleted; the theorems on the
    store are applied to these runs. *)

From S2P Require Import Prelude PyValue Firestore LegalHolds LegalHoldProofs Sha256 MemoryText MemoryOperations MemoryModels MemoryPromotion MemoryApply MemoryRecords MemoryReceipts MemoryStore MemoryPrivacy MemoryReplacement MemoryProofs MemoryItemProofs MemoryTheorems MemoryStoreProofs MemoryPrivacyProofs MemoryReplacementProofs MemoryHistory MemoryRows MemoryStoreTheorems MemoryDeletion MemoryDemo.
From Stdlib Require Import QArith_base Ascii.
Local Open Scope Z_scope.

Definition plain_store : StoreEnv :=
  {| encryption_secret := "0123456789abcdef0123456789abcdef"; json_dump v := v |}.

Section Demo.
#[local] Existing Instance plain_text.
#[local] Existing Instance plain_models.
#[local] Existing Instance plain_store.

Definition control_path : path := ["users"; "u"; "memory_state"; "apply_control"].

(** An account with a control state and nothing else. *)
Definition demo_store : db := {[ control_path := control_data demo_control ]}.

Definition demo_evidence : value :=
  VDict [("evidence_id", VStr "e1"); ("source_type", VStr "chat"); ("source_id", VStr "s1");
         ("source_version", VStr "v1"); ("artifact_preservation", VStr "preserved"); ("source_state", VStr "active")].

Definition named_payload : fields := <["new_memory_id" := VStr "m1"]> add_payload.

Definition demo_request : apply_request :=
  Request "u" (operation_id add_operation) named_payload (Some add_operation) (Some [demo_evidence]) None None None
    None false false.

Abbreviation stored_add := (apply_long_term_patch_firestore "write" demo_request now demo_store) (only parsing).

Definition commits_store (x : res (ApplyResult * db)) : bool :=
  match x with Ok (r, _) => commits (Ok r) | Raise _ => false end.

Lemma commits_store_Ok x :
  commits_store x = true ->
  exists r s d items, x = Ok (r, s) /\ result_status r = apply_committed /\ memory_items r = d :: items.
Proof.
  unfold commits_store. destruct x as [[r s]|]; [|done]. intros H.
  destruct (commits_Ok _ H) as (r' & d & items & [= <-] & Hc & Hi). by exists r, s, d, items.
Qed.

Lemma stored_add_commits : commits_store stored_add = true.
Proof. vm_compute. reflexivity. Qed.

Lemma plain_uid : no_slash "u".
Proof. apply (bool_decide_unpack _). vm_compute. exact I. Qed.

(** ** The theorems on these runs *)
(** The evidence of the request, which has no document before the call. *)
Definition evidence_path : path := ["users"; "u"; "memory_evidence"; "e1"].

Lemma evidence_missing : demo_store !! evidence_path = None.
Proof. vm_compute. reflexivity. Qed.

Lemma evidence_proposed :
  evidence_ids add_operation = ["e1"] /\
  proposed_named (default [] (rq_proposed_evidence demo_request)) "e1" = Some demo_evidence.
Proof. split; vm_compute; reflexivity. Qed.

Lemma operation_document uid id : operation_ref uid id = memory_ref uid "memory_operations" id.
Proof. reflexivity. Qed.

Lemma operation_missing id :
  memory_ref (rq_uid demo_request) "memory_operations" (rq_operation_id demo_request) = Ok id -> demo_store !! id = None.
Proof.
  intros Hp. destruct (memory_ref_Ok "u" "memory_operations" (rq_operation_id demo_request) id) as (w & ws & -> & _);
    [exact plain_uid|apply (bool_decide_unpack _); vm_compute; exact I|exact Hp|].
  unfold demo_store. by apply lookup_singleton_ne.
Qed.

Lemma apply_store_refines_ledger_witness :
  exists r s, stored_add = Ok (r, s) /\ result_status r = apply_committed /\
    s !! control_path = Some (control_data (control_state r)) /\
    s !! evidence_path = Some (evidence_fields demo_evidence).
Proof.
  destruct (commits_store_Ok _ stored_add_commits) as (r & s & d & items & E & Hc & Hi). exists r, s.
  destruct (apply_store_refines_ledger "write" demo_request now demo_store r s plain_uid E)
    as (c & op & op_ref & _ & Href & Hreq & _ & H).
  destruct (H Hc) as (_ & Hstored & Hstaged).
  rewrite operation_document in Href.
  pose proof (operation_missing op_ref Href) as Hmiss. destruct evidence_proposed as [Hids Hprop].
  destruct Hreq as (_ & _ & Hop). rewrite Hmiss in Hop. apply (inj Some) in Hop.
  split_and!; [exact E|exact Hc| |].
  - destruct (st_control _ _ _ _ Hstored) as (p & Hp & Hs). injection Hp as <-. exact Hs.
  - apply (Hstaged "e1" evidence_path demo_evidence); [|reflexivity|exact evidence_missing|exact Hprop].
    rewrite <-Hop. cbn [rq_proposed_operation demo_request]. rewrite Hids. by left.
Defined.

Lemma stored_records_read_back_witness :
  parse_snapshot_strict (memory_control_state (control_data demo_control) now) = Ok demo_control /\
  parse_snapshot_strict (read_operation (operation_data add_operation) now) = Ok add_operation.
Proof. apply (stored_records_read_back demo_control add_operation now); vm_compute; reflexivity. Defined.

(** The marker of an account whose deletion runs. *)
Definition deleted_store : db := {[ ["account_deletions"; "u"] := list_to_map [("wipe_status", VStr "running")] ]}.

Lemma fences_stop_applies_witness :
  exists e, apply_long_term_patch_firestore "write" demo_request now deleted_store = Raise e.
Proof.
  apply (fences_stop_applies "write" demo_request now deleted_store). right. intros p Hp. injection Hp as <-.
  vm_compute. reflexivity.
Defined.

Lemma fresh_store_chain : commit_chain demo_store "u".
Proof.
  assert (Hn : forall id p d, commit_ref "u" id = Ok p -> demo_store !! p = Some d -> False).
  { intros id p d Hp Hd. unfold demo_store in Hd. apply lookup_singleton_Some in Hd as [<- _].
    destruct (memory_ref_Ok "u" "memory_commits" id control_path) as (w & ws & E & _);
      [exact plain_uid|apply (bool_decide_unpack _); vm_compute; exact I|exact Hp|discriminate E]. }
  split.
  - intros id p d Hp Hd. by destruct (Hn _ _ _ Hp Hd).
  - intros id p d id' p' d' Hp Hd. by destruct (Hn _ _ _ Hp Hd).
  - intros H. vm_compute in H. discriminate H.
Qed.

Lemma commit_chain_is_linear_witness :
  exists r s, stored_add = Ok (r, s) /\ result_status r = apply_committed /\ commit_chain s "u".
Proof.
  destruct (commits_store_Ok _ stored_add_commits) as (r & s & d & items & E & Hc & Hi). exists r, s.
  split_and!; [exact E|exact Hc|].
  apply (commit_chain_is_linear any_request demo_store s "u" plain_uid fresh_store_chain).
  apply rtc_once. exact (step_apply any_request "write" demo_request now demo_store r s plain_uid I E).
Defined.

Lemma stored_twice :
  match stored_add with
  | Ok (r, s) => is_ok (apply_long_term_patch_firestore "write" demo_request now s)
  | Raise _ => false
  end = true.
Proof. vm_compute. reflexivity. Qed.

Lemma operation_commits_once_witness :
  exists r s r' s', stored_add = Ok (r, s) /\ result_status r = apply_committed /\
    apply_long_term_patch_firestore "write" demo_request now s = Ok (r', s') /\ result_status r' <> apply_committed.
Proof.
  destruct (commits_store_Ok _ stored_add_commits) as (r & s & d & items & E & Hc & Hi). pose proof stored_twice as H.
  rewrite E in H. apply is_ok_Ok in H as [[r' s'] E']. exists r, s, r', s'. split_and!; [exact E|exact Hc|exact E'|].
  exact (proj1 (operation_commits_once any_request "write" demo_request now demo_store r s s "write" demo_request now r' s'
    plain_uid E Hc (rtc_refl _ _) eq_refl eq_refl E')).
Defined.

(** ** A deletion *)
Definition gate_path : path := ["legal_hold_deletion_gates"; "u"].

(** The gate of a deletion whose holder was slow: it no longer stops writers. *)
Definition gated_store : db :=
  <[gate_path := new_gate "u" EXPLICIT_MEMORY_DELETION "token" (now - days 1)]> demo_store.

Abbreviation gated_add := (apply_long_term_patch_firestore "write" demo_request now gated_store) (only parsing).

Definition deletes (r : ApplyResult) (s : db) : res (CanonicalMemoryTombstoneResult * db) :=
  tombstone_memory_items_firestore "u" "user request" (control_state r) (memory_items r) ∅ "token" None now s.

Lemma gated_add_commits : commits_store gated_add = true.
Proof. vm_compute. reflexivity. Qed.

Lemma gated_deletes :
  match gated_add with
  | Ok (r, s) => match deletes r s with Ok (t, _) => bool_decide (length (tombstone_items t) = 1%nat) | _ => false end
  | Raise _ => false
  end = true.
Proof. vm_compute. reflexivity. Qed.

Lemma gated_store_named : rows_named gated_store "u".
Proof.
  intros id p d Hp Hd. exfalso.
  destruct (memory_ref_Ok "u" "memory_items" id p) as (w & ws & -> & _);
    [exact plain_uid|apply (bool_decide_unpack _); vm_compute; exact I|exact Hp|].
  unfold gated_store, demo_store in Hd. rewrite lookup_insert_ne in Hd by discriminate.
  by apply lookup_singleton_Some in Hd as [[=] _].
Qed.

Lemma plain_names : keeps_names.
Proof.
  intros d d' H. simpl in H. injection H as <-. unfold doc_get. rewrite lookup_union.
  by destruct (d !! "memory_id").
Qed.

(** The patch of the request, as it is read. *)
Lemma demo_patch :
  match durable_memory_patch (patch_fields named_payload) with
  | Ok p => bool_decide (doc_get p "decision" = VStr "add") && bool_decide (doc_get p "target_memory_id" = VNone)
            && bool_decide (doc_get p "supersedes" = VList []) && bool_decide (doc_get p "new_memory_id" = VStr "m1")
  | Raise _ => false
  end = true.
Proof. vm_compute. reflexivity. Qed.

Lemma demo_logical_payload : logical_payload add_operation = demo_payload "add" (Some "likes tea") None None.
Proof. vm_compute. reflexivity. Qed.

Lemma named_payload_name : doc_get named_payload "new_memory_id" = VStr "m1".
Proof. unfold named_payload, doc_get. by rewrite lookup_insert_eq. Qed.

(** The record of the operation after the addition. *)
Lemma no_operation op_ref :
  memory_ref (rq_uid demo_request) "memory_operations" (rq_operation_id demo_request) = Ok op_ref ->
  gated_store !! op_ref = None.
Proof.
  intros Hp. destruct (memory_ref_Ok "u" "memory_operations" (rq_operation_id demo_request) op_ref) as (w & ws & -> & _);
    [exact plain_uid|apply (bool_decide_unpack _); vm_compute; exact I|exact Hp|].
  unfold gated_store, demo_store. rewrite lookup_insert_ne by discriminate. by apply lookup_singleton_ne.
Qed.

Lemma added_operation r s :
  gated_add = Ok (r, s) -> result_status r = apply_committed ->
  exists op_ref, operation_ref (rq_uid demo_request) (rq_operation_id demo_request) = Ok op_ref /\
    committed_at s op_ref (result_operation r) /\
    logical_payload (result_operation r) = demo_payload "add" (Some "likes tea") None None.
Proof.
  intros E Hc. destruct (apply_store_run _ _ _ _ _ _ E) as (ws & q & c0 & op0 & Hrun & Hcm).
  pose proof (apply_commit_step gated_store demo_request now r ws q c0 op0 s plain_uid Hrun Hc Hcm) as Hstep.
  exists q. split_and!; [apply Hrun|split; [by eapply step_operation|apply Hstep]|].
  destruct (cs_identity _ _ _ _ _ _ _ _ _ Hstep) as (_ & _ & _ & _ & -> & _).
  destruct (ar_request _ _ _ _ _ _ _ _ Hrun) as (_ & _ & H0). pose proof (ar_path _ _ _ _ _ _ _ _ Hrun) as Hp.
  rewrite operation_document in Hp. rewrite (no_operation q Hp) in H0. unfold demo_request in H0. cbn [rq_proposed_operation] in H0.
  apply (inj Some) in H0. rewrite <-H0. exact demo_logical_payload.
Qed.

(** A redelivery of the request after the deletion is planned. *)
Lemma redelivery_planned r s t s1 :
  gated_add = Ok (r, s) -> result_status r = apply_committed -> deletes r s = Ok (t, s1) -> planned_apply s1 demo_request now.
Proof.
  intros E Hc Ed op_ref op c p Hp Hop _ Hpatch. destruct (added_operation r s E Hc) as (q & Hq & Hm & Hpay).
  assert (q = op_ref) as -> by congruence.
  apply (committed_step any_request s s1 (rq_uid demo_request) (rq_operation_id demo_request) op_ref _ plain_uid Hq) in Hm;
    [|eapply (step_delete any_request); [exact plain_uid|exact Ed]].
  destruct Hop as (_ & _ & Ho). rewrite (proj1 Hm) in Ho.
  pose proof (committed_at_read _ _ _ _ _ _ Hm (proj1 Hm) Ho) as ->.
  pose proof demo_patch as H. change (rq_patch_payload demo_request) with named_payload in *. rewrite Hpatch in H.
  repeat (apply andb_true_iff in H as [H ?]). repeat match goal with H : bool_decide _ = true |- _ => apply bool_decide_eq_true in H end.
  split.
  - split; rewrite ?Hpay, ?named_payload_name; assumption.
  - right; left. rewrite Hpay. split; [reflexivity|]. exists "m1". split; [assumption|reflexivity].
Qed.

Lemma redelivery_after_deletion :
  match gated_add with
  | Ok (r, s) =>
      match deletes r s with Ok (_, s1) => is_ok (apply_long_term_patch_firestore "write" demo_request now s1) | _ => false end
  | Raise _ => false
  end = true.
Proof. vm_compute. reflexivity. Qed.

Lemma deletion_is_final_witness :
  exists r s t s1 s2 d p d', gated_add = Ok (r, s) /\ deletes r s = Ok (t, s1) /\ d ∈ tombstone_items t /\
    history planned s1 s2 /\ item_ref "u" (text_or d "memory_id") = Ok p /\ s2 !! p = Some d' /\
    doc_get d' "content" = VNone.
Proof.
  destruct (commits_store_Ok _ gated_add_commits) as (r & s & d0 & items & E & Hc & Hi).
  pose proof gated_deletes as H. pose proof redelivery_after_deletion as Hre.
  rewrite E in H, Hre. destruct (deletes r s) as [[t s1]|] eqn:Ed; [|discriminate H]. apply bool_decide_eq_true in H.
  apply is_ok_Ok in Hre as [[r2 s2] E2].
  assert (Hn : rows_named s "u").
  { eapply (named_step any_request gated_store s "u" plain_names plain_uid); [|exact gated_store_named].
    exact (step_apply any_request "write" demo_request now gated_store r s plain_uid I E). }
  assert (Hh : history planned s1 s2).
  { apply rtc_once. exact (step_apply planned "write" demo_request now s1 r2 s2 plain_uid
      (redelivery_planned r s t s1 E Hc Ed) E2). }
  destruct (tombstone_items t) as [|d ds] eqn:Et; [discriminate H|].
  destruct (deletion_is_final "u" "user request" (control_state r) (memory_items r) ∅ "token" None now s t s1 s2 d
    plain_keeps plain_names plain_uid Hn Ed ltac:(rewrite Et; by left) Hh)
    as (p & d' & id & q & rc & Hp & _ & Hs2 & _ & Hcontent & _).
  exists r, s, t, s1, s2, d, p, d'. rewrite Et. split_and!; [exact E|exact Ed|by left|exact Hh|exact Hp|exact Hs2|exact Hcontent].
Defined.
End Demo.
