(* ===== verification/ReplacementDemo.v ===== *)
(** * Concrete runs of a source replacement

    The memory that a source gave is replaced by another, by the writes of one
    call; the theorem on replacements is applied to this run. *)

From S2P Require Import Prelude PyValue Firestore LegalHolds LegalHoldProofs Sha256 MemoryText MemoryOperations MemoryModels MemoryPromotion MemoryApply MemoryRecords MemoryReceipts MemoryStore MemoryPrivacy MemoryReplacement MemoryProofs MemoryItemProofs MemoryTheorems MemoryStoreProofs MemoryPrivacyProofs MemoryReplacementProofs MemoryHistory MemoryRows MemoryStoreTheorems MemoryDeletion MemoryReplacementTheorems MemoryDemo MemoryStoreDemo.
From Stdlib Require Import QArith_base Ascii.
Local Open Scope Z_scope.

Section Demo.
#[local] Existing Instance plain_text.
#[local] Existing Instance plain_models.
#[local] Existing Instance plain_store.

(** The replacement of the memories of the source "s1" by one, under the names of
    the control state [c]. *)
Definition no_operation_record : MemoryOperation := Operation "" "" deletion pending None None [] (demo_payload "" None None None) "" 0 0 None None None [] [] 0 None None 0 0.

Definition made (x : res MemoryOperation) : MemoryOperation :=
  match x with Ok op => op | Raise _ => no_operation_record end.

Definition tea_evidence : value :=
  VDict [("evidence_id", VStr "e2"); ("source_type", VStr "chat"); ("source_id", VStr "s1"); ("conversation_id", VStr "s1");
         ("source_version", VStr "source_generation:2"); ("artifact_preservation", VStr "preserved");
         ("source_state", VStr "active")].

Definition tea_payload : fields := list_to_map
  [("patch_id", VStr "p2"); ("packet_id", VStr "s1"); ("run_id", VStr "r2"); ("idempotency_key", VStr "i2");
   ("decision", VStr "add"); ("result_status", VStr "active"); ("memory_text", VStr "likes green tea");
   ("new_memory_id", VStr "m2"); ("evidence_ids", VList [VStr "e2"])].

Definition tea_write : CanonicalApplyWrite :=
  ApplyWrite
    (made (new "u" long_term_apply (Some "s1") None ["e2"] (demo_payload "add" (Some "likes green tea") None None)
             1 2 None None now))
    tea_payload [tea_evidence].

Definition manifest : OperationLogicalPayload :=
  LogicalPayload "source_replacement" None None None [] None None [] None None None None None
    [("replacement_id", VStr "rep1"); ("replacement_digest", VStr "dig1"); ("new_memory_ids", VList [VStr "m2"])].

Definition tea_replacement (c : MemoryControlState) (items : list item) : replacement_request :=
  Replacement "u" "s1" "rep1" "dig1"
    (made (new "u" source_replacement (Some "s1") None [] manifest 1 2 (Some (head_commit_id c)) None now))
    c items [] [tea_write] None.

Definition replaces (r : ApplyResult) (s : db) : res (ConversationSourceReplacementResult * db) :=
  replace_conversation_source_firestore "write" (tea_replacement (control_state r) (memory_items r)) now s.

(** The run, with what the theorem asks of its operations. *)
Definition replaced_once : bool :=
  match apply_long_term_patch_firestore "write" demo_request now demo_store with
  | Ok (r, s) =>
      bool_decide (distinct_operations (tea_replacement (control_state r) (memory_items r)))
      && match replaces r s with
         | Ok (t, _) => bool_decide (retracted_memory_ids t = ["m1"] /\ committed_memory_ids t = ["m2"])
                        && (commit_sequence (replaced_control t) =? 3)
         | Raise _ => false
         end
  | Raise _ => false
  end.

Lemma tea_replaces : replaced_once = true.
Proof. vm_compute. reflexivity. Qed.

Lemma replaced_once_Ok :
  exists r s t s', apply_long_term_patch_firestore "write" demo_request now demo_store = Ok (r, s) /\
    distinct_operations (tea_replacement (control_state r) (memory_items r)) /\ replaces r s = Ok (t, s') /\
    retracted_memory_ids t = ["m1"] /\ committed_memory_ids t = ["m2"] /\ commit_sequence (replaced_control t) = 3.
Proof.
  pose proof tea_replaces as H. unfold replaced_once in H.
  destruct (apply_long_term_patch_firestore "write" demo_request now demo_store) as [[r s]|]; [|done].
  apply andb_true_iff in H as [Hd H]. apply bool_decide_eq_true in Hd.
  destruct (replaces r s) as [[t s']|] eqn:E; [|done]. apply andb_true_iff in H as [H Hn].
  apply bool_decide_eq_true in H as [H1 H2]. apply Z.eqb_eq in Hn. by exists r, s, t, s'.
Qed.

Lemma first_commit :
  match apply_long_term_patch_firestore "write" demo_request now demo_store with
  | Ok (_, s) => stored_sequence s "u" =? 1
  | Raise _ => false
  end = true.
Proof. vm_compute. reflexivity. Qed.

Lemma first_sequence r s :
  apply_long_term_patch_firestore "write" demo_request now demo_store = Ok (r, s) -> stored_sequence s "u" = 1.
Proof. intros E. pose proof first_commit as H. rewrite E in H. by apply Z.eqb_eq in H. Qed.

(** The patch of the write, as it is read. *)
Lemma tea_patch :
  match durable_memory_patch (patch_fields tea_payload) with
  | Ok p => bool_decide (doc_get p "decision" = VStr "add") && negb (truthy (doc_get p "target_memory_id"))
            && bool_decide (superseded_ids p = []) && bool_decide (doc_get p "new_memory_id" = VStr "m2")
  | Raise _ => false
  end = true.
Proof. vm_compute. reflexivity. Qed.

Lemma tea_name : new_name tea_payload = Ok "m2".
Proof. vm_compute. reflexivity. Qed.

Lemma tea_plain c items : plain_replacement (tea_replacement c items).
Proof.
  intros w p Hw Hp. apply list_elem_of_singleton in Hw as ->. pose proof tea_patch as H.
  change (aw_payload tea_write) with tea_payload in *. rewrite Hp in H.
  repeat (apply andb_true_iff in H as [H ?]).
  repeat match goal with H : bool_decide _ = true |- _ => apply bool_decide_eq_true in H end. split; try assumption.
  - by apply negb_true_iff.
  - intros n Hn. rewrite tea_name in Hn. by injection Hn as <-.
Qed.

Lemma demo_store_named : rows_named demo_store "u".
Proof.
  intros id p d Hp Hd. exfalso.
  destruct (memory_ref_Ok "u" "memory_items" id p) as (w & ws & -> & _);
    [exact plain_uid|apply (bool_decide_unpack _); vm_compute; exact I|exact Hp|].
  unfold demo_store in Hd. by apply lookup_singleton_Some in Hd as [[=] _].
Qed.

Lemma source_replacement_is_atomic_witness :
  exists r s t s' p d q e, apply_long_term_patch_firestore "write" demo_request now demo_store = Ok (r, s) /\
    replaces r s = Ok (t, s') /\ item_ref "u" "m1" = Ok p /\ s' !! p = Some d /\ doc_get d "content" = VNone /\
    item_ref "u" "m2" = Ok q /\ s' !! q = Some e /\ doc_get e "ledger_sequence" = VInt 3.
Proof.
  destruct replaced_once_Ok as (r & s & t & s' & E & Hd & Er & Hret & Hcom & Hn).
  assert (Hnamed : rows_named s "u").
  { eapply (named_step any_request demo_store s "u" plain_names plain_uid); [|exact demo_store_named].
    exact (step_apply any_request "write" demo_request now demo_store r s plain_uid I E). }
  destruct (source_replacement_is_atomic "write" (tea_replacement (control_state r) (memory_items r)) now s t s'
    plain_keeps plain_names plain_uid Hnamed Hd (tea_plain _ _) Er) as [(-> & Hc & _)|(c & Hc & H)].
  - exfalso. destruct (control_at_fields _ _ _ _ Hc) as [Hs _]. rewrite Hn in Hs.
    change (stored_sequence s "u" = 3) in Hs. rewrite (first_sequence r s E) in Hs. discriminate Hs.
  - destruct (rd_retracted _ _ _ _ _ _ H "m1") as (p & d & Hp & Hs & _ & Hct);
      [rewrite Hret; by left|rewrite Hcom; intros Hin; by apply list_elem_of_singleton in Hin|].
    destruct (rd_committed _ _ _ _ _ _ H 0%nat tea_write "m2") as (ci & r0 & d0 & q & e & _ & _ & _ & _ & _ & Hq & He & _ & _ & Hseq);
      [reflexivity|rewrite Hcom; reflexivity|].
    destruct (control_at_fields _ _ _ _ Hc) as [Hsq _].
    change (stored_sequence s "u" = commit_sequence c) in Hsq. rewrite (first_sequence r s E) in Hsq. rewrite <-Hsq in Hseq.
    exists r, s, t, s', p, d, q, e. split_and!; [exact E|exact Er|exact Hp|exact Hs|exact Hct|exact Hq|exact He|exact Hseq].
Defined.

(** A repetition of the call changes nothing and reports the same rows. *)
Definition repeated : bool :=
  match apply_long_term_patch_firestore "write" demo_request now demo_store with
  | Ok (r, s) =>
      match replaces r s with
      | Ok (t, s') => match replaces r s' with
                      | Ok (t', s2) => bool_decide (committed_memory_ids t' = committed_memory_ids t) && bool_decide (s2 = s')
                      | Raise _ => false
                      end
      | Raise _ => false
      end
  | Raise _ => false
  end.

Lemma repetition_changes_nothing : repeated = true.
Proof. vm_compute. reflexivity. Qed.

(** While an account is being deleted an apply is refused, and a replacement, which
    reads the gate only, commits. *)
Definition deletion_marker : fields := list_to_map [("wipe_status", VStr "running")].

Definition replaced_during_deletion : bool :=
  match apply_long_term_patch_firestore "write" demo_request now demo_store with
  | Ok (r, s) =>
      let wiped := <[["account_deletions"; "u"] := deletion_marker]> s in
      bool_decide (is_Some (match account_ref "u" with Ok p => wiped !! p | Raise _ => None end))
      && negb (is_ok (apply_long_term_patch_firestore "write" demo_request now wiped))
      && match replaces r wiped with
         | Ok (t, _) => bool_decide (committed_memory_ids t = ["m2"])
         | Raise _ => false
         end
  | Raise _ => false
  end.

Lemma replacement_ignores_account_deletion : replaced_during_deletion = true.
Proof. vm_compute. reflexivity. Qed.
End Demo.
