(* ===== verification/OutboxWorker.v ===== *)
(** * The consumer of the memory outbox
    (backend/database/memory_outbox_worker.py, the deletion fence of
    backend/database/account_deletion_projection_fence.py and the drain of
    backend/utils/memory/short_term_promotion.py)

    A tick leases due events, brings the search and vector indexes to the state of
    the memory that each event names, and settles the events it still owns.  Ticks
    run concurrently with each other and with the ledger, so a tick is a program
    ([prog]): a tree of accesses to the store and to the indexes, each of which may
    fail.  What the accesses do is in [OutboxWorld]. *)

From S2P Require Import Prelude PyValue Firestore LegalHolds MemoryText MemoryOperations MemoryModels MemoryApply MemoryRecords MemoryReceipts MemoryStore.
From Stdlib Require Import QArith_base Ascii.
From stdpp Require Import sorting.
Local Open Scope Z_scope.

(** ** Accesses *)
Inductive outbox_query :=
| Due (collection : path) (status : string) (now limit : Z)
| ExpiredLease (collection : path) (event_type : string) (now limit : Z).

(** A call of one of the injected adapters. *)
Inductive side_effect :=
| ProjectionUpsert (d : item) (account_generation : Z)
| ProjectionDelete (uid memory_id : string) (account_generation : Z)
| VectorUpsert (d : item) (commit_id : string)
| VectorDelete (uid memory_id : string).

Record LeasedMemoryOutboxEvent := Lease {
  lease_path : path;
  raw_event : fields;
  lease_worker_id : string;
  lease_epoch : Z
}.

Definition document_id (l : LeasedMemoryOutboxEvent) : string := default "" (last (lease_path l)).

Inductive access :=
| Stream (q : outbox_query)
| Claim (p : path) (worker_id : string) (now lease_expires_at : Z)
| Get (p : path)
| Perform (e : side_effect)
| Acknowledge (l : LeasedMemoryOutboxEvent) (patch : updates).

Definition reply (c : access) : Type :=
  match c with
  | Stream _ => list (path * fields)
  | Claim _ _ _ _ => option LeasedMemoryOutboxEvent
  | Get _ => option fields
  | Perform _ => bool
  | Acknowledge _ _ => bool
  end.

(** ** Programs

    [_ProcessingFailure] carries a code; every other exception is [Other]. *)
Inductive error :=
| ProcessingFailure (code : string)
| Other (e : exn).

Inductive prog (A : Type) : Type :=
| Ret (a : A)
| Throw (e : error)
| Do (c : access) (k : res (reply c) -> prog A).
Arguments Ret {A} a.
Arguments Throw {A} e.
Arguments Do {A} c k.

#[global] Instance prog_ret : MRet prog := fun A a => Ret a.

#[global] Instance prog_bind : MBind prog := fun A B f =>
  fix go (p : prog A) : prog B :=
    match p with
    | Ret a => f a
    | Throw e => Throw e
    | Do c k => Do c (fun r => go (k r))
    end.

(** [try: p except Exception as e: h(e)] *)
Fixpoint try_except {A} (p : prog A) (h : error -> prog A) : prog A :=
  match p with
  | Ret a => Ret a
  | Throw e => h e
  | Do c k => Do c (fun r => try_except (k r) h)
  end.

(** [try: p except _ProcessingFailure: h] *)
Definition except_failure {A} (p h : prog A) : prog A :=
  try_except p (fun e => match e with ProcessingFailure _ => h | Other _ => Throw e end).

Definition raise {A} (r : res A) : prog A :=
  match r with Ok a => Ret a | Raise e => Throw (Other e) end.

Definition fail {A} (code : string) : prog A := Throw (ProcessingFailure code).

Definition call (c : access) : prog (reply c) := Do c raise.

(** [try: parse_snapshot_strict(...) except MalformedDocError: raise _ProcessingFailure(code)] *)
Definition parsed {A} (code : string) (r : res A) : prog A :=
  match r with
  | Ok a => Ret a
  | Raise MalformedDocError => fail code
  | Raise e => Throw (Other e)
  end.

(** ** Constants and configuration *)
Definition _SUPPORTED_EVENT_TYPES : list string := ["projection_sync"; "vector_sync"].
Definition _DUE_STATUSES : list string := ["pending"; "retryable_failure"].
Definition _PROVIDER_CONVERGENCE_ATTEMPTS : nat := 5.
Definition _PROVIDER_STATE_RACE_ERROR : string := "provider_state_changed_during_delivery".
Definition _PROVIDER_REPAIR_REQUIRED_ERROR_CODES : list string :=
  [_PROVIDER_STATE_RACE_ERROR; "projection_upsert_failed"; "projection_delete_failed"; "vector_upsert_failed";
   "vector_delete_failed"].

Record CanonicalMemoryOutboxWorkerConfig := WorkerConfig {
  worker_id : string;
  limit : Z;
  scan_limit : Z;
  lease_seconds : Z;
  max_attempts : Z;
  base_backoff_seconds : Z;
  max_backoff_seconds : Z
}.

Definition valid_config (c : CanonicalMemoryOutboxWorkerConfig) : bool :=
  nonblank (worker_id c) && (1 <=? limit c) && (limit c <=? scan_limit c) && (1 <=? lease_seconds c)
  && (1 <=? max_attempts c) && (1 <=? base_backoff_seconds c) && (base_backoff_seconds c <=? max_backoff_seconds c).

Definition _validate_tick_inputs (uid : string) (c : CanonicalMemoryOutboxWorkerConfig) : res unit :=
  if nonblank uid && valid_config c then Ok tt else Raise ValueError.

(** [(stage, event_id, code)] *)
Abbreviation tick_error := (string * option string * string)%type.

Record tick_summary := Summary {
  leased_count : Z;
  delivered_count : Z;
  stale_settled_count : Z;
  barrier_count : Z;
  retryable_failure_count : Z;
  dead_letter_count : Z;
  ack_failed_count : Z;
  tick_actions : list (string * string);
  tick_errors : list tick_error
}.

Definition _empty_summary : tick_summary := Summary 0 0 0 0 0 0 0 [] [].

Definition with_leased (s : tick_summary) (n : Z) : tick_summary :=
  Summary n (delivered_count s) (stale_settled_count s) (barrier_count s) (retryable_failure_count s)
    (dead_letter_count s) (ack_failed_count s) (tick_actions s) (tick_errors s).

Definition with_error (s : tick_summary) (e : tick_error) : tick_summary :=
  Summary (leased_count s) (delivered_count s) (stale_settled_count s) (barrier_count s) (retryable_failure_count s)
    (dead_letter_count s) (ack_failed_count s) (tick_actions s) (tick_errors s ++ [e]).

(** ** Values of the documents *)
Definition _safe_nonnegative_int (v : value) : Z :=
  match v with VInt z => if z <? 0 then 0 else z | _ => 0 end.

(** ** The state to project *)
Record _AuthoritativeProjectionState := ProjectionState {
  ps_account_generation : Z;
  ps_item : option item;
  projection_writes_blocked : bool
}.

Record _ProcessOutcome := Outcome {
  settled_reason : string;
  side_effect_action : option string;
  outcome_stale : bool;
  outcome_barrier : bool
}.

Definition sorted_labels (d : item) : value := VList (VStr <$> sorted_strs (texts (labels_of d))).

(** The tuple that must not change during a delivery. *)
Definition fence (st : _AuthoritativeProjectionState) : list value :=
  [VInt (ps_account_generation st); VBool (projection_writes_blocked st)]
  ++ match ps_item st with
     | None => [VNone]
     | Some d =>
         (doc_get d <$> ["uid"; "account_generation"; "item_revision"; "content_hash"; "ledger_commit_id"; "tier";
                         "status"; "processing_state"; "source_state"])
         ++ [sorted_labels d; dict_get "user_review" (dict_or d "promotion")]
     end.

Definition same_fence (a b : _AuthoritativeProjectionState) : bool := py_eq (VList (fence a)) (VList (fence b)).

Definition _is_search_projection_indexable (d : item) : bool :=
  v_in (doc_get d "tier") ["short_term"; "long_term"] && v_is (doc_get d "status") "active"
  && v_is (doc_get d "processing_state") "processed" && v_is (doc_get d "source_state") "active"
  && negb (bool_decide (dict_get "user_review" (dict_or d "promotion") = VBool false))
  && negb (_has_restricted_sensitivity d) && nonblank (text_or d "content").

Definition _is_vector_indexable (d : item) : bool :=
  v_in (doc_get d "tier") ["short_term"; "long_term"] && v_is (doc_get d "status") "active"
  && v_is (doc_get d "processing_state") "processed" && v_is (doc_get d "source_state") "active"
  && negb (bool_decide (dict_get "user_review" (dict_or d "promotion") = VBool false))
  && negb (_has_restricted_sensitivity d) && nonblank (text_or d "content").

(** The item that may be published at all. *)
Definition publishable (st : _AuthoritativeProjectionState) : option item :=
  match ps_item st with
  | Some d =>
      if negb (projection_writes_blocked st) && py_eq (doc_get d "account_generation") (VInt (ps_account_generation st))
      then Some d else None
  | None => None
  end.

Section Worker.
Context {T : TextEnv} {Md : ModelEnv}.

Definition _coerce_timestamp (v : value) : option Z :=
  match v with
  | VTime true us => Some us
  | VStr s => match fromisoformat (replace_zulu s) with Some (VTime true us) => Some us | _ => None end
  | _ => None
  end.

(** The constructor of [MemoryOutboxEvent]; its status and attempt count are checked only. *)
Definition memory_outbox_event (d : fields) (now : Z) : res MemoryOutboxEvent :=
  id ← required d "event_id" rd_str; uid ← required d "uid" rd_str;
  t ← required d "event_type" (rd_enum event_type_value [projection_sync; vector_sync; export_sync; delete_sync]);
  _ ← defaulted d "status" (rd_enum (fun s => s) ["pending"; "processing"; "delivered"; "retryable_failure"; "dead_letter"])
        "pending";
  commit ← required d "commit_id" rd_str; parent ← required d "parent_commit_id" rd_str;
  sequence ← required d "commit_sequence" rd_int; memory_id ← defaulted d "memory_id" (rd_opt rd_str) None;
  op ← required d "operation_id" rd_str; account ← required d "account_generation" rd_int;
  source ← required d "source_generation" rd_int; payload ← defaulted d "payload" rd_dict [];
  at_ ← defaulted d "available_at" (rd_time true) now;
  _ ← defaulted d "attempt_count" rd_int 0;
  if forallb nonblank [id; uid; commit; op]
  then Ok (OutboxEvent id uid t commit parent sequence memory_id op account source payload at_)
  else Raise ValueError.

(** ** Leases *)
Definition _is_claimable (raw : fields) (now : Z) : res bool :=
  supported ← v_in_set (doc_get raw "event_type") _SUPPORTED_EVENT_TYPES;
  Ok (if negb supported then false
      else if v_in (doc_get raw "status") _DUE_STATUSES then
        match _coerce_timestamp (doc_get raw "available_at") with Some t => t <=? now | None => false end
      else if v_is (doc_get raw "status") "processing" then
        match _coerce_timestamp (doc_get raw "lease_expires_at") with Some t => t <=? now | None => false end
      else false).

Definition lease_updates (worker : string) (epoch now lease_expires_at : Z) : updates :=
  [("status", FValue (VStr "processing")); ("lease_owner", FValue (VStr worker)); ("lease_epoch", FValue (VInt epoch));
   ("leased_at", FValue (instant now)); ("lease_expires_at", FValue (instant lease_expires_at));
   ("updated_at", FValue (instant now))].

Definition _claim_event_transaction (p : path) (worker : string) (now lease_expires_at : Z)
    : Txn (option LeasedMemoryOutboxEvent) :=
  snapshot ← txn_get p;
  match snapshot with
  | None => mret None
  | Some raw =>
      claimable ← lift (_is_claimable raw now);
      if negb claimable then mret None
      else
        let epoch := _safe_nonnegative_int (doc_get raw "lease_epoch") + 1 in
        txn_update p (lease_updates worker epoch now lease_expires_at);;
        mret (Some (Lease p raw worker epoch))
  end.

Definition _ack_event_transaction (l : LeasedMemoryOutboxEvent) (patch : updates) : Txn bool :=
  snapshot ← txn_get (lease_path l);
  match snapshot with
  | None => mret false
  | Some raw =>
      if negb (v_is (doc_get raw "status") "processing") || negb (v_is (doc_get raw "lease_owner") (lease_worker_id l))
         || negb (_safe_nonnegative_int (doc_get raw "lease_epoch") =? lease_epoch l)
      then mret false
      else txn_update (lease_path l) patch;; mret true
  end.

(** The path of the collection, from the path of one of its documents. *)
Definition outbox_collection (uid : string) : res path := p ← outbox_ref uid "document"; Ok (removelast p).

(** The later snapshot of a path replaces the earlier one. *)
Fixpoint _collect_supported_snapshots (output : gmap path fields) (rows : list (path * fields)) : res (gmap path fields) :=
  match rows with
  | [] => Ok output
  | (p, raw) :: rows' =>
      supported ← v_in_set (doc_get raw "event_type") _SUPPORTED_EVENT_TYPES;
      _collect_supported_snapshots (if supported : bool then <[p := raw]> output else output) rows'
  end.

(** The moment of a candidate; one without a timestamp is last. *)
Definition candidate_time (raw : fields) : Z :=
  match _coerce_timestamp (doc_get raw "available_at") with
  | Some t => t
  | None => default max_instant (_coerce_timestamp (doc_get raw "lease_expires_at"))
  end.

Definition _candidate_sort_key (a b : path * fields) : Prop :=
  let t c := candidate_time c.2 in
  let n c := _safe_nonnegative_int (doc_get c.2 "commit_sequence") in
  t a < t b \/ (t a = t b /\ (n a < n b \/ (n a = n b /\ String.leb (reference_path a.1) (reference_path b.1) = true))).
#[global] Instance candidate_sort_key_dec : RelDecision _candidate_sort_key.
Proof. intros a b. unfold _candidate_sort_key. apply _. Defined.

Fixpoint collect_queries (snapshots : gmap path fields) (queries : list outbox_query) : prog (gmap path fields) :=
  match queries with
  | [] => mret snapshots
  | q :: queries' =>
      rows ← call (Stream q);
      snapshots ← raise (_collect_supported_snapshots snapshots rows);
      collect_queries snapshots queries'
  end.

Fixpoint claim_candidates (worker : string) (now lease_expires_at limit : Z) (claimed : list LeasedMemoryOutboxEvent)
    (ordered : list (path * fields)) : prog (list LeasedMemoryOutboxEvent) :=
  match ordered with
  | [] => mret claimed
  | (p, _) :: ordered' =>
      if limit <=? Z.of_nat (length claimed) then mret claimed
      else
        lease ← call (Claim p worker now lease_expires_at);
        claim_candidates worker now lease_expires_at limit
          (match lease with Some l => claimed ++ [l] | None => claimed end) ordered'
  end.

Definition lease_canonical_memory_outbox_events (uid worker : string) (limit scan_limit lease_seconds now : Z)
    : prog (list LeasedMemoryOutboxEvent) :=
  if negb (nonblank uid && nonblank worker && (1 <=? limit) && (limit <=? scan_limit) && (1 <=? lease_seconds))
  then Throw (Other ValueError)
  else
    c ← raise (outbox_collection uid);
    snapshots ← collect_queries ∅
      (((fun status => Due c status now scan_limit) <$> _DUE_STATUSES)
       ++ ((fun t => ExpiredLease c t now scan_limit) <$> _SUPPORTED_EVENT_TYPES));
    duration ← raise (timedelta_seconds lease_seconds);
    lease_expires_at ← raise (dt_add now duration);
    claim_candidates worker now lease_expires_at limit [] (merge_sort _candidate_sort_key (map_to_list snapshots)).

(** ** The authoritative state *)
Definition _load_control_state (uid : string) (now : Z) : prog MemoryControlState :=
  ref ← raise (control_ref uid);
  snapshot ← call (Get ref);
  match snapshot with
  | None => fail "missing_control_state"
  | Some raw => parsed "invalid_control_state" (parse_snapshot_strict (memory_control_state raw now))
  end.

Definition _load_memory_item (uid memory_id : string) : prog (option item) :=
  ref ← raise (item_ref uid memory_id);
  snapshot ← call (Get ref);
  match snapshot with
  | None => mret None
  | Some raw => d ← parsed "invalid_authoritative_item" (parse_item raw); mret (Some d)
  end.

(** [.blocks_projection_writes] of the fence that a read of the marker gives. *)
Definition read_account_deletion_projection_fence (uid : string) : prog bool :=
  if negb (nonblank uid) then Throw (Other ValueError)
  else
    ref ← raise (account_ref uid);
    snapshot ← call (Get ref);
    mret (match snapshot with
          | None => false
          | Some _ => account_deletion_blocks_access (account_status snapshot)
          end).

Definition _load_authoritative_projection_state (uid memory_id : string) (now : Z)
    : prog _AuthoritativeProjectionState :=
  blocked ← read_account_deletion_projection_fence uid;
  control ← _load_control_state uid now;
  d ← _load_memory_item uid memory_id;
  match d with
  | Some d' => if v_is (doc_get d' "uid") uid then mret (ProjectionState (account_generation control) d blocked)
               else fail "authoritative_item_uid_mismatch"
  | None => mret (ProjectionState (account_generation control) None blocked)
  end.

(** ** Delivery *)

(** [succeeded is True] or a failure of the given code. *)
Definition _require_side_effect_success (e : side_effect) (code : string) : prog unit :=
  Do (Perform e) (fun r => match r with Ok true => Ret tt | _ => fail code end).

Definition _perform_authoritative_side_effect (event : MemoryOutboxEvent) (uid memory_id : string)
    (st : _AuthoritativeProjectionState) (use_event_commit_id : bool) : prog string :=
  match event_type event with
  | projection_sync =>
      match publishable st with
      | Some d =>
          if _is_search_projection_indexable d
          then _require_side_effect_success (ProjectionUpsert d (ps_account_generation st)) "projection_upsert_failed";;
               mret "projection_upsert"
          else _require_side_effect_success (ProjectionDelete uid memory_id (ps_account_generation st))
                 "projection_delete_failed";;
               mret "projection_delete"
      | None => _require_side_effect_success (ProjectionDelete uid memory_id (ps_account_generation st))
                  "projection_delete_failed";;
                mret "projection_delete"
      end
  | vector_sync =>
      match publishable st with
      | Some d =>
          if _is_vector_indexable d
          then
            let commit := match doc_get d "ledger_commit_id" with VStr s => s | _ => "" end in
            let projection_commit_id :=
              if use_event_commit_id || bool_decide (commit = "") then event_commit_id event else commit in
            _require_side_effect_success (VectorUpsert d projection_commit_id) "vector_upsert_failed";;
            mret "vector_upsert"
          else _require_side_effect_success (VectorDelete uid memory_id) "vector_delete_failed";; mret "vector_delete"
      | None => _require_side_effect_success (VectorDelete uid memory_id) "vector_delete_failed";; mret "vector_delete"
      end
  | _ => fail "unsupported_event_type"
  end.

(** [first] is the flag of the first attempt. *)
Fixpoint _deliver_authoritative_projection_state (attempts : nat) (event : MemoryOutboxEvent) (uid memory_id : string)
    (st : _AuthoritativeProjectionState) (first : bool) (now : Z) : prog _ProcessOutcome :=
  match attempts with
  | O => fail _PROVIDER_STATE_RACE_ERROR
  | S attempts' =>
      action ← _perform_authoritative_side_effect event uid memory_id st first;
      observed ← except_failure (_load_authoritative_projection_state uid memory_id now) (fail _PROVIDER_STATE_RACE_ERROR);
      if same_fence observed st then mret (Outcome "projected" (Some action) false false)
      else _deliver_authoritative_projection_state attempts' event uid memory_id observed false now
  end.

(** The revision and hash that an event expects. *)
Definition valid_event_fence (event : MemoryOutboxEvent) : bool :=
  match dict_get "item_revision" (event_payload event), dict_get "content_hash" (event_payload event) with
  | VInt z, VStr s => (1 <=? z) && nonblank s
  | _, _ => false
  end.

Definition stale (reason : string) : _ProcessOutcome := Outcome reason None true false.

(** Why an event is stale against the state that was read, unless it repairs. *)
Definition stale_reason (event : MemoryOutboxEvent) (st : _AuthoritativeProjectionState) : option string :=
  if negb (event_account_generation event =? ps_account_generation st) then Some "stale_account_generation"
  else match ps_item st with
       | None => None
       | Some d =>
           if negb (py_eq (doc_get d "account_generation") (VInt (event_account_generation event)))
           then Some "stale_item_account_generation"
           else if negb (py_eq (doc_get d "item_revision") (dict_get "item_revision" (event_payload event)))
           then Some "stale_item_revision"
           else if negb (py_eq (doc_get d "content_hash") (dict_get "content_hash" (event_payload event)))
           then Some "stale_content_hash"
           else None
       end.

Definition event_fence_matches_item (event : MemoryOutboxEvent) (d : item) : bool :=
  py_eq (doc_get d "account_generation") (VInt (event_account_generation event))
  && py_eq (doc_get d "item_revision") (dict_get "item_revision" (event_payload event))
  && py_eq (doc_get d "content_hash") (dict_get "content_hash" (event_payload event)).

(** A lease that was taken over, or whose last failure may have reached a provider. *)
Definition repair_authoritative_state (raw : fields) : res bool :=
  if v_is (doc_get raw "status") "processing" then Ok true
  else v_in_set (doc_get raw "last_error_code") _PROVIDER_REPAIR_REQUIRED_ERROR_CODES.

Definition process_barrier (event : MemoryOutboxEvent) (uid : string) (now : Z) : prog _ProcessOutcome :=
  control ← _load_control_state uid now;
  mret (if negb (event_account_generation event =? account_generation control)
        then Outcome "stale_account_generation" None true true
        else if negb (event_source_generation event =? source_generation control)
        then Outcome "stale_source_generation" None true true
        else Outcome "barrier" None false true).

Definition process_memory_event (l : LeasedMemoryOutboxEvent) (event : MemoryOutboxEvent) (uid memory_id : string) (now : Z)
    : prog _ProcessOutcome :=
  st ← _load_authoritative_projection_state uid memory_id now;
  repair ← raise (repair_authoritative_state (raw_event l));
  match (if repair : bool then None else stale_reason event st) with
  | Some reason => mret (stale reason)
  | None =>
      let matches := match ps_item st with Some d => event_fence_matches_item event d | None => false end in
      _deliver_authoritative_projection_state _PROVIDER_CONVERGENCE_ATTEMPTS event uid memory_id st matches now
  end.

Definition _process_leased_event (uid : string) (l : LeasedMemoryOutboxEvent) (now : Z) : prog _ProcessOutcome :=
  event ← parsed "invalid_event" (parse_snapshot_strict (memory_outbox_event (raw_event l) now));
  if negb (bool_decide (event_uid event = uid)) then fail "event_uid_mismatch"
  else if negb (bool_decide (event_id event = document_id l)) then fail "event_id_mismatch"
  else
    let action := dict_get "action" (event_payload event) in
    if v_is action "barrier" then
      if bool_decide (is_Some (event_memory_id event)) then fail "invalid_barrier_event" else process_barrier event uid now
    else
      known ← raise (v_in_set action ["upsert"; "delete"]);
      if negb known then fail "invalid_event_action"
      else
        match event_memory_id event with
        | Some memory_id =>
            if negb (v_is (dict_get "memory_id" (event_payload event)) memory_id) then fail "event_memory_id_mismatch"
            else if negb (valid_event_fence event) then fail "invalid_event_fence"
            else process_memory_event l event uid memory_id now
        | None => fail "event_memory_id_mismatch"
        end.

(** ** Settlement *)
Definition _ack_leased_event (l : LeasedMemoryOutboxEvent) (patch : updates) : prog bool :=
  Do (Acknowledge l patch) (fun r => match r with Ok b => Ret b | Raise _ => Ret false end).

(** In microseconds. *)
Definition _retry_delay (c : CanonicalMemoryOutboxWorkerConfig) (attempt_count : Z) : res Z :=
  let exponent := Z.min (Z.max (attempt_count - 1) 0) 30 in
  timedelta_seconds (Z.min (max_backoff_seconds c) (base_backoff_seconds c * 2 ^ exponent)).

Definition failure_updates (code : string) (attempts now : Z) (dead_letter : bool) (available_at : Z) : updates :=
  [("status", FValue (VStr (if dead_letter then "dead_letter" else "retryable_failure")));
   ("attempt_count", FValue (VInt attempts)); ("last_error", FValue VNone); ("last_error_code", FValue (VStr code));
   ("failed_at", FValue (instant now)); ("updated_at", FValue (instant now)); ("lease_owner", FValue VNone);
   ("lease_expires_at", FValue VNone)]
  ++ (if dead_letter then [] else [("available_at", FValue (instant available_at))]).

Definition _settle_failure (l : LeasedMemoryOutboxEvent) (c : CanonicalMemoryOutboxWorkerConfig) (code : string)
    (now : Z) (s : tick_summary) : prog tick_summary :=
  let attempts := _safe_nonnegative_int (doc_get (raw_event l) "attempt_count") + 1 in
  let dead_letter := max_attempts c <=? attempts in
  available_at ← (if dead_letter then mret now else delay ← raise (_retry_delay c attempts); raise (dt_add now delay));
  acknowledged ← _ack_leased_event l (failure_updates code attempts now dead_letter available_at);
  mret (if negb acknowledged
        then with_error (Summary (leased_count s) (delivered_count s) (stale_settled_count s) (barrier_count s)
               (retryable_failure_count s) (dead_letter_count s) (ack_failed_count s + 1) (tick_actions s) (tick_errors s))
               ("failure_ack", Some (document_id l), "lease_ownership_lost")
        else with_error (Summary (leased_count s) (delivered_count s) (stale_settled_count s) (barrier_count s)
               (retryable_failure_count s + if dead_letter then 0 else 1) (dead_letter_count s + if dead_letter then 1 else 0)
               (ack_failed_count s) (tick_actions s) (tick_errors s))
               ("process", Some (document_id l), code)).

Definition delivered_updates (o : _ProcessOutcome) (now : Z) : updates :=
  [("status", FValue (VStr "delivered")); ("delivered_at", FValue (instant now)); ("updated_at", FValue (instant now));
   ("settled_reason", FValue (VStr (settled_reason o))); ("side_effect_action", FValue (opt_str (side_effect_action o)));
   ("last_error", FValue VNone); ("last_error_code", FValue VNone); ("lease_owner", FValue VNone);
   ("lease_expires_at", FValue VNone)].

Definition settle_outcome (l : LeasedMemoryOutboxEvent) (o : _ProcessOutcome) (now : Z) (s : tick_summary)
    : prog tick_summary :=
  delivered ← _ack_leased_event l (delivered_updates o now);
  mret (if negb delivered
        then with_error (Summary (leased_count s) (delivered_count s) (stale_settled_count s) (barrier_count s)
               (retryable_failure_count s) (dead_letter_count s) (ack_failed_count s + 1) (tick_actions s) (tick_errors s))
               ("delivered_ack", Some (document_id l), "lease_ownership_lost")
        else Summary (leased_count s) (delivered_count s + 1) (stale_settled_count s + if outcome_stale o then 1 else 0)
               (barrier_count s + if outcome_barrier o then 1 else 0) (retryable_failure_count s) (dead_letter_count s)
               (ack_failed_count s)
               (tick_actions s ++ [(document_id l, default (settled_reason o) (side_effect_action o))]) (tick_errors s)).

(** ** The tick *)
Definition error_code (e : error) : string :=
  match e with ProcessingFailure code => code | Other _ => "processing_failed" end.

Definition processed_outcome (uid : string) (l : LeasedMemoryOutboxEvent) (now : Z) : prog (_ProcessOutcome + string) :=
  try_except (o ← _process_leased_event uid l now; mret (inl o))
    (fun e => mret (inr (error_code e))).

Fixpoint process_leases (uid : string) (c : CanonicalMemoryOutboxWorkerConfig) (now : Z)
    (leases : list LeasedMemoryOutboxEvent) (s : tick_summary) : prog tick_summary :=
  match leases with
  | [] => mret s
  | l :: leases' =>
      outcome ← processed_outcome uid l now;
      s ← match outcome with
          | inl o => settle_outcome l o now s
          | inr code => _settle_failure l c code now s
          end;
      process_leases uid c now leases' s
  end.

Definition run_canonical_memory_outbox_worker_tick (uid : string) (c : CanonicalMemoryOutboxWorkerConfig) (now : Z)
    : prog tick_summary :=
  raise (_validate_tick_inputs uid c);;
  leases ← try_except
    (l ← lease_canonical_memory_outbox_events uid (worker_id c) (limit c) (scan_limit c) (lease_seconds c) now;
     mret (Some l))
    (fun _ => mret None);
  match leases with
  | None => mret (with_error _empty_summary ("lease", None, "lease_query_failed"))
  | Some l => process_leases uid c now l (with_leased _empty_summary (Z.of_nat (length l)))
  end.

(** ** The drain of a maintenance run *)
Definition _canonical_outbox_worker_config (run_id : string) : CanonicalMemoryOutboxWorkerConfig :=
  WorkerConfig (py_take 200 ("canonical-maintenance:" +:+ run_id)) 100 500 300 5 30 1800.

Definition add_summary (a s : tick_summary) : tick_summary :=
  Summary (leased_count a + leased_count s) (delivered_count a + delivered_count s)
    (stale_settled_count a + stale_settled_count s) (barrier_count a + barrier_count s)
    (retryable_failure_count a + retryable_failure_count s) (dead_letter_count a + dead_letter_count s)
    (ack_failed_count a + ack_failed_count s) (tick_actions a ++ tick_actions s) (tick_errors a ++ tick_errors s).

(** [ticks] counts the ticks that ran. *)
Fixpoint drain_ticks (max_ticks : nat) (uid : string) (c : CanonicalMemoryOutboxWorkerConfig) (now : Z)
    (ticks : Z) (aggregate : tick_summary) : prog (Z * tick_summary) :=
  match max_ticks with
  | O => mret (ticks, aggregate)
  | S max_ticks' =>
      summary ← run_canonical_memory_outbox_worker_tick uid c now;
      let aggregate := add_summary aggregate summary in
      if leased_count summary <? limit c then mret (ticks + 1, aggregate)
      else drain_ticks max_ticks' uid c now (ticks + 1) aggregate
  end.

Definition _drain_canonical_outbox (uid run_id : string) (now : Z) (max_ticks : nat) : prog (Z * tick_summary) :=
  drain_ticks max_ticks uid (_canonical_outbox_worker_config run_id) now 0 _empty_summary.
End Worker.
