(* ===== verification/OutboxWorld.v ===== *)
(** * The world of the outbox workers

    The store and the two indexes, what each access of a worker does there, and the
    interleavings of workers with each other and with every other actor.  An access
    may fail before or after its effect, and a worker may die at any point. *)

From S2P Require Import Prelude PyValue Firestore LegalHolds MemoryText MemoryOperations MemoryModels MemoryApply MemoryRecords MemoryReceipts MemoryStore OutboxWorker.
From Stdlib Require Import QArith_base Ascii.
From stdpp Require Import sorting.
Local Open Scope Z_scope.

(** An index entry is the item it was made from and the tag of the call; its key is
    the account and the memory. *)
Record world := World {
  store : db;
  projections : gmap (string * string) (item * Z);
  vectors : gmap (string * string) (item * string)
}.

Definition with_store (w : world) (s : db) : world := World s (projections w) (vectors w).

Definition item_key (d : item) : string * string := (text_or d "uid", text_or d "memory_id").

(** ** Queries *)
Definition in_collection (c p : path) : bool := bool_decide (p <> []) && bool_decide (removelast p = c).

(** [where(k, "<=", t)] on instants. *)
Definition at_most (v : value) (t : Z) : bool := match v with VTime _ us => us <=? t | _ => false end.

Definition by_instant (k : string) (a b : path * fields) : Prop :=
  let t r := match doc_get r.2 k with VTime _ us => us | _ => 0 end in
  t a < t b \/ (t a = t b /\ String.leb (reference_path a.1) (reference_path b.1) = true).
#[global] Instance by_instant_dec k : RelDecision (by_instant k).
Proof. intros a b. unfold by_instant. apply _. Defined.

Definition query_rows (k : string) (limit : Z) (wanted : path * fields -> bool) (s : db) : list (path * fields) :=
  take (Z.to_nat limit) (merge_sort (by_instant k) (List.filter wanted (map_to_list s))).

(** [DUE_MEMORY_OUTBOX_QUERY] and [EXPIRED_MEMORY_OUTBOX_LEASE_QUERY]. *)
Definition stream (q : outbox_query) (s : db) : list (path * fields) :=
  match q with
  | Due c status now limit =>
      query_rows "available_at" limit (fun r => in_collection c r.1 && v_is (doc_get r.2 "status") status
        && at_most (doc_get r.2 "available_at") now) s
  | ExpiredLease c t now limit =>
      query_rows "lease_expires_at" limit (fun r => in_collection c r.1 && v_is (doc_get r.2 "event_type") t
        && v_is (doc_get r.2 "status") "processing" && at_most (doc_get r.2 "lease_expires_at") now) s
  end.

(** ** Accesses *)
Definition perform (e : side_effect) (w : world) : world :=
  match e with
  | ProjectionUpsert d g => World (store w) (<[item_key d := (d, g)]> (projections w)) (vectors w)
  | ProjectionDelete uid id _ => World (store w) (delete (uid, id) (projections w)) (vectors w)
  | VectorUpsert d c => World (store w) (projections w) (<[item_key d := (d, c)]> (vectors w))
  | VectorDelete uid id => World (store w) (projections w) (delete (uid, id) (vectors w))
  end.

Definition run_on {A} (t : Txn A) (w : world) : res A * world :=
  match run_txn t (store w) with
  | Ok (a, s) => (Ok a, with_store w s)
  | Raise e => (Raise e, w)
  end.

Section World.
Context {T : TextEnv} {Md : ModelEnv}.

Definition exec (c : access) : world -> res (reply c) * world :=
  match c with
  | Stream q => fun w => (Ok (stream q (store w)), w)
  | Claim p worker now expires => run_on (_claim_event_transaction p worker now expires)
  | Get p => fun w => (Ok (store w !! p), w)
  | Perform e => fun w => (Ok true, perform e w)
  | Acknowledge l patch => run_on (_ack_event_transaction l patch)
  end.

(** A run without interference. *)
Fixpoint run {A} (p : prog A) (w : world) : (A + error) * world :=
  match p with
  | Ret a => (inl a, w)
  | Throw e => (inr e, w)
  | Do c k => let '(r, w') := exec c w in run (k r) w'
  end.

(** ** Interleavings

    [working] are the events that a worker has claimed and not yet settled. *)
Record thread := Thread { program : prog unit; working : list path }.

Definition forget {A} (p : prog A) : prog unit := p ≫= fun _ => mret tt.

Definition after_call (c : access) (r : res (reply c)) (working : list path) : list path :=
  match c as c0 return res (reply c0) -> list path with
  | Claim p _ _ _ => fun r => match r with Ok (Some _) => working ++ [p] | _ => working end
  | Acknowledge l _ => fun _ => List.filter (fun q => negb (bool_decide (q = lease_path l))) working
  | _ => fun _ => working
  end r.

(** What the other actors do, which programs are started, whether reads may fail
    and whether an event is claimed while a worker that lives works on it. *)
Record regime := Regime {
  environment : db -> db -> Prop;
  starts : prog unit -> Prop;
  reads_fail : Prop;
  leases_overrun : Prop
}.

Definition may_fail (R : regime) (c : access) : Prop :=
  match c with Get _ => reads_fail R | _ => True end.

Definition may_claim (R : regime) (ts : list thread) (c : access) : Prop :=
  match c with
  | Claim p _ _ _ => leases_overrun R \/ Forall (fun t => p ∉ working t) ts
  | _ => True
  end.

Definition failure_reply (c : access) (r : res (reply c)) : Prop :=
  match c as c0 return res (reply c0) -> Prop with
  | Perform _ => fun r => r <> Ok true
  | _ => fun r => exists e, r = Raise e
  end r.

Inductive step (R : regime) : world * list thread -> world * list thread -> Prop :=
| step_call w ts1 c k held ts2 :
    let t := Thread (Do c k) held in
    may_claim R (ts1 ++ t :: ts2) c ->
    step R (w, ts1 ++ t :: ts2)
      ((exec c w).2, ts1 ++ Thread (k (exec c w).1) (after_call c (exec c w).1 held) :: ts2)
| step_lost_request w ts1 c k held r ts2 :
    may_fail R c -> failure_reply c r ->
    step R (w, ts1 ++ Thread (Do c k) held :: ts2) (w, ts1 ++ Thread (k r) (after_call c r held) :: ts2)
| step_lost_reply w ts1 c k held r ts2 :
    let t := Thread (Do c k) held in
    may_claim R (ts1 ++ t :: ts2) c -> may_fail R c -> failure_reply c r ->
    step R (w, ts1 ++ t :: ts2) ((exec c w).2, ts1 ++ Thread (k r) (after_call c r held) :: ts2)
| step_gone w ts1 t ts2 : step R (w, ts1 ++ t :: ts2) (w, ts1 ++ ts2)
| step_start w ts p : starts R p -> step R (w, ts) (w, ts ++ [Thread p []])
| step_other w s ts : environment R (store w) s -> step R (w, ts) (with_store w s, ts).

(** The worker programs of an account. *)
Inductive worker (uid : string) : prog unit -> Prop :=
| worker_tick c now : worker uid (forget (run_canonical_memory_outbox_worker_tick uid c now))
| worker_drain run_id now max_ticks : worker uid (forget (_drain_canonical_outbox uid run_id now max_ticks)).
End World.
