(* ===== verification/OutboxProofs.v ===== *)
(** * What a worker promises at every point

    A worker is verified against the accesses it makes: [wp] says what each access
    needs and gives, for the leases that the worker holds.  Each lease has a stage,
    from the moment it is claimed to the moment it is settled. *)

From S2P Require Import Prelude PyValue Firestore LegalHolds MemoryText MemoryOperations MemoryModels MemoryApply MemoryRecords MemoryReceipts MemoryStore OutboxWorker OutboxWorld.
From Stdlib Require Import QArith_base Ascii.
From stdpp Require Import sorting.
Local Open Scope Z_scope.

(** ** Stages

    [Going st]: the state to project was read; [Wrote st]: an index holds the
    projection of [st], unverified; [Broken]: a call that may have reached an index
    failed; [Leaving]: the event needs no further work. *)
Inductive stage :=
| Fresh
| Going (st : _AuthoritativeProjectionState)
| Wrote (st : _AuthoritativeProjectionState)
| Broken
| Leaving.

Abbreviation ghost := (list (LeasedMemoryOutboxEvent * stage)).

(** The other reading of the same event, later postponed. *)
Definition at_time (t : Z) (e : MemoryOutboxEvent) : MemoryOutboxEvent :=
  OutboxEvent (event_id e) (event_uid e) (event_type e) (event_commit_id e) (parent_commit_id e) (event_sequence e)
    (event_memory_id e) (event_operation_id e) (event_account_generation e) (event_source_generation e)
    (event_payload e) t.

Definition outbox_of (uid : string) : path := ["users"; uid; "memory_outbox"].

(** The entries of the index that an event of the type brings up to date. *)
Definition entry (t : MemoryOutboxEventType) (uid id : string) (w : world) : option item :=
  match t with
  | projection_sync => fst <$> projections w !! (uid, id)
  | vector_sync => fst <$> vectors w !! (uid, id)
  | _ => None
  end.

Definition indexable (t : MemoryOutboxEventType) (d : item) : bool :=
  match t with
  | projection_sync => _is_search_projection_indexable d
  | vector_sync => _is_vector_indexable d
  | _ => false
  end.

(** What the index should hold for a state. *)
Definition target (t : MemoryOutboxEventType) (st : _AuthoritativeProjectionState) : option item :=
  match publishable st with Some d => if indexable t d then Some d else None | None => None end.

Section Worker.
Context {T : TextEnv} {Md : ModelEnv}.
Variables (uid : string) (generation : Z).
Hypothesis Hslash : no_slash uid.
Hypothesis Hblank : nonblank uid = true.

Definition state_of (d : option item) : _AuthoritativeProjectionState := ProjectionState generation d false.

(** The row that a read of its document gives. *)
Definition row_of (r : option fields) : option item :=
  match r with Some raw => match parse_item raw with Ok d => Some d | Raise _ => None end | None => None end.

(** The account is in one generation and is not being deleted, and its rows read
    back under their names. *)
Record steady (s : db) : Prop := {
  sd_control : exists p raw, control_ref uid = Ok p /\ s !! p = Some raw /\
    forall now, exists c, memory_control_state raw now = Ok c /\ account_generation c = generation;
  sd_marker : forall p, account_ref uid = Ok p -> account_deletion_blocks_access (account_status (s !! p)) = false;
  sd_rows : forall id p raw, item_ref uid id = Ok p -> s !! p = Some raw ->
    exists d, parse_item raw = Ok d /\ doc_get d "uid" = VStr uid /\ doc_get d "memory_id" = VStr id
}.

(** ** Events *)
Record event_is (t : MemoryOutboxEventType) (id name : string) (e : MemoryOutboxEvent) : Prop := {
  ei_uid : event_uid e = uid;
  ei_name : event_id e = name;
  ei_type : event_type e = t;
  ei_indexed : t = projection_sync \/ t = vector_sync;
  ei_barrier : v_is (dict_get "action" (event_payload e)) "barrier" = false;
  ei_action : v_in_set (dict_get "action" (event_payload e)) ["upsert"; "delete"] = Ok true;
  ei_memory : event_memory_id e = Some id;
  ei_payload : v_is (dict_get "memory_id" (event_payload e)) id = true;
  ei_ref : exists p, item_ref uid id = Ok p
}.

(** The document [name] holds the event [e], on the memory [id]. *)
Definition about (name : string) (raw : fields) (t : MemoryOutboxEventType) (id : string) (e : MemoryOutboxEvent) : Prop :=
  memory_outbox_event raw 0 = Ok e /\ event_is t id name e.

Definition lease_about (l : LeasedMemoryOutboxEvent) := about (document_id l) (raw_event l).

Lemma read_event_now raw now :
  exists t, memory_outbox_event raw now = (e ← memory_outbox_event raw 0; Ok (at_time t e)).
Proof.
  unfold memory_outbox_event.
  destruct (required raw "event_id" rd_str); [|by exists 0]. destruct (required raw "uid" rd_str); [|by exists 0].
  destruct (required raw "event_type" _); [|by exists 0]. destruct (defaulted raw "status" _ _); [|by exists 0].
  destruct (required raw "commit_id" rd_str); [|by exists 0]. destruct (required raw "parent_commit_id" rd_str); [|by exists 0].
  destruct (required raw "commit_sequence" rd_int); [|by exists 0]. destruct (defaulted raw "memory_id" _ _); [|by exists 0].
  destruct (required raw "operation_id" rd_str); [|by exists 0]. destruct (required raw "account_generation" rd_int); [|by exists 0].
  destruct (required raw "source_generation" rd_int); [|by exists 0]. destruct (defaulted raw "payload" _ _); [|by exists 0].
  simpl. unfold defaulted. destruct (raw !! "available_at") as [v|].
  - destruct (rd_time true v) as [t|e]; [exists t|by exists 0]. simpl.
    destruct (match raw !! "attempt_count" with Some _ => _ | None => _ end); [|done]. simpl. by destruct (_ && _).
  - exists now. simpl. destruct (match raw !! "attempt_count" with Some _ => _ | None => _ end); [|done]. simpl.
    by destruct (_ && _).
Qed.

Lemma event_is_at_time t id name n e : event_is t id name (at_time n e) <-> event_is t id name e.
Proof. split; intros []; by constructor. Qed.

(** A reading at any time is a reading of the event. *)
Lemma read_at raw now e :
  memory_outbox_event raw now = Ok e -> exists e0 t, memory_outbox_event raw 0 = Ok e0 /\ e = at_time t e0.
Proof.
  destruct (read_event_now raw now) as [t ->]. intros (e0 & H & [= <-])%res_bind_Ok. by exists e0, t.
Qed.

Lemma read_anew raw now e0 :
  memory_outbox_event raw 0 = Ok e0 -> exists t, memory_outbox_event raw now = Ok (at_time t e0).
Proof. intros H. destruct (read_event_now raw now) as [t ->]. rewrite H. by exists t. Qed.

(** The events that a reader finds in the lease. *)
Lemma about_read l now e t id e0 :
  memory_outbox_event (raw_event l) now = Ok e -> lease_about l t id e0 -> exists n, e = at_time n e0.
Proof. intros (e1 & n & H & ->)%read_at [H0 _]. exists n. congruence. Qed.

Lemma read_about l now e t id :
  memory_outbox_event (raw_event l) now = Ok e -> event_is t id (document_id l) e ->
  exists n e0, e = at_time n e0 /\ lease_about l t id e0.
Proof.
  intros (e0 & n & H & ->)%read_at He. exists n, e0. split; [done|]. split; [done|]. by eapply event_is_at_time.
Qed.

Lemma not_about_read l now e :
  memory_outbox_event (raw_event l) now = Ok e -> (forall t id, ~ event_is t id (document_id l) e) ->
  forall t id e0, ~ lease_about l t id e0.
Proof.
  intros H Hn t id e0 Ha. destruct (about_read _ _ _ _ _ _ H Ha) as [n ->]. apply (Hn t id), event_is_at_time, Ha.
Qed.

(** ** What the accesses need and give *)

(** A read of the document [p] gave [r]: how it moves a lease. *)
Inductive saw (p : path) (r : option fields) (l : LeasedMemoryOutboxEvent) : stage -> stage -> Prop :=
| saw_going t id e :
    lease_about l t id e -> valid_event_fence e = true -> item_ref uid id = Ok p ->
    saw p r l Fresh (Going (state_of (row_of r)))
| saw_stale t id e :
    lease_about l t id e -> item_ref uid id = Ok p -> stale_reason e (state_of (row_of r)) <> None ->
    repair_authoritative_state (raw_event l) = Ok false -> saw p r l Fresh Leaving
| saw_same t id e st :
    lease_about l t id e -> item_ref uid id = Ok p -> same_fence (state_of (row_of r)) st = true ->
    saw p r l (Wrote st) Leaving.

Inductive looked (p : path) (r : option fields) : ghost -> ghost -> Prop :=
| looked_same g : looked p r g g
| looked_at l x y g : saw p r l x y -> looked p r ((l, x) :: g) ((l, y) :: g).

(** The state that a lease may project next. *)
Definition may_write (x : stage) (st : _AuthoritativeProjectionState) : Prop :=
  match x with Going st' => st = st' | Wrote _ => True | _ => False end.

(** The call brings the entry of the memory to the state. *)
Definition brings (e : side_effect) (t : MemoryOutboxEventType) (id : string) (st : _AuthoritativeProjectionState) : Prop :=
  forall w, store (perform e w) = store w /\ entry t uid id (perform e w) = target t st /\
    forall t' id', t' <> t \/ id' <> id -> entry t' uid id' (perform e w) = entry t' uid id' w.

(** A patch that settles the lease as it should. *)
Inductive settles (l : LeasedMemoryOutboxEvent) (x : stage) : updates -> Prop :=
| settles_delivered o now :
    x = Leaving \/ (x = Fresh /\ forall t id e, ~ lease_about l t id e) -> settles l x (delivered_updates o now)
| settles_failed code n now dead at_ :
    code ∈ _PROVIDER_REPAIR_REQUIRED_ERROR_CODES \/ x = Leaving \/
    (x = Fresh /\ forall t id e, lease_about l t id e -> valid_event_fence e = true ->
      repair_authoritative_state (raw_event l) <> Ok true) ->
    settles l x (failure_updates code n now dead at_).

Definition query_of (c : path) (q : outbox_query) : Prop :=
  match q with Due c' _ _ _ => c' = c | ExpiredLease c' _ _ _ => c' = c end.

Definition wp_access (c : access) : (res (reply c) -> ghost -> Prop) -> ghost -> Prop :=
  match c as c0 return (res (reply c0) -> ghost -> Prop) -> ghost -> Prop with
  | Stream q => fun K g =>
      query_of (outbox_of uid) q /\ (forall e, K (Raise e) g) /\
      forall rows, Forall (fun r => in_collection (outbox_of uid) r.1 = true) rows -> K (Ok rows) g
  | Claim p worker now expires => fun K g =>
      in_collection (outbox_of uid) p = true /\ (forall e, K (Raise e) g) /\ K (Ok None) g /\
      forall raw epoch, let l := Lease p raw worker epoch in K (Ok (Some l)) (g ++ [(l, Fresh)])
  | Get p => fun K g => forall s, steady s -> exists g', looked p (s !! p) g g' /\ K (Ok (s !! p)) g'
  | Perform e => fun K g => exists l x rest t id ev st,
      g = (l, x) :: rest /\ lease_about l t id ev /\ valid_event_fence ev = true /\ may_write x st /\ brings e t id st /\
      K (Ok true) ((l, Wrote st) :: rest) /\ (forall r, r <> Ok true -> K r ((l, Broken) :: rest))
  | Acknowledge l patch => fun K g => exists x rest, g = (l, x) :: rest /\ settles l x patch /\ forall r, K r rest
  end.

Fixpoint wp {A} (p : prog A) (Q : ghost -> A -> Prop) (E : ghost -> error -> Prop) : ghost -> Prop :=
  match p with
  | Ret a => fun g => Q g a
  | Throw e => fun g => E g e
  | Do c k => wp_access c (fun r => wp (k r) Q E)
  end.

(** ** Rules *)
Lemma wp_access_mono c (K K' : res (reply c) -> ghost -> Prop) g :
  (forall r g, K r g -> K' r g) -> wp_access c K g -> wp_access c K' g.
Proof.
  intros HK. destruct c; simpl.
  - intros (? & ? & ?). split_and!; auto.
  - intros (? & ? & ? & ?). split_and!; auto.
  - intros H s Hs. destruct (H s Hs) as (g' & ? & ?). exists g'. auto.
  - intros (l & x & rest & t & id & ev & st & ? & ? & ? & ? & ? & ? & ?). exists l, x, rest, t, id, ev, st. split_and!; auto.
  - intros (x & rest & ? & ? & ?). exists x, rest. split_and!; auto.
Qed.

Lemma wp_mono {A} (p : prog A) (Q Q' : ghost -> A -> Prop) (E E' : ghost -> error -> Prop) g :
  wp p Q E g -> (forall g a, Q g a -> Q' g a) -> (forall g e, E g e -> E' g e) -> wp p Q' E' g.
Proof.
  intros Hp HQ HE. revert g Hp. induction p as [a|e|c k IH]; intros g Hp; simpl in *; [auto..|].
  eapply wp_access_mono; [|exact Hp]. intros r g' H. by apply IH.
Qed.

Lemma wp_bind {A B} (p : prog A) (f : A -> prog B) Q E g :
  wp p (fun g a => wp (f a) Q E g) E g -> wp (p ≫= f) Q E g.
Proof.
  revert g. induction p as [a|e|c k IH]; intros g Hp; simpl in *; [done..|].
  eapply wp_access_mono; [|exact Hp]. intros r g' H. by apply IH.
Qed.

Lemma wp_try {A} (p : prog A) (h : error -> prog A) Q E g :
  wp p Q (fun g e => wp (h e) Q E g) g -> wp (try_except p h) Q E g.
Proof.
  revert g. induction p as [a|e|c k IH]; intros g Hp; simpl in *; [done..|].
  eapply wp_access_mono; [|exact Hp]. intros r g' H. by apply IH.
Qed.

Lemma wp_raise {A} (r : res A) (Q : ghost -> A -> Prop) (E : ghost -> error -> Prop) g :
  (forall a, r = Ok a -> Q g a) -> (forall e, r = Raise e -> E g (Other e)) -> wp (raise r) Q E g.
Proof. destruct r; simpl; auto. Qed.

Lemma wp_ret {A} (a : A) (Q : ghost -> A -> Prop) E g : Q g a -> wp (mret a) Q E g.
Proof. done. Qed.

Lemma wp_raise_Ok {A B} (r : res A) a (f : A -> prog B) Q E g : r = Ok a -> wp (f a) Q E g -> wp (raise r ≫= f) Q E g.
Proof. by intros ->. Qed.

Lemma wp_get p (Q : ghost -> option fields -> Prop) E g :
  (forall s, steady s -> exists g', looked p (s !! p) g g' /\ Q g' (s !! p)) -> wp (call (Get p)) Q E g.
Proof. done. Qed.

(** A read that moves no lease. *)
Lemma wp_get_same p (Q : ghost -> option fields -> Prop) E g :
  (forall s, steady s -> Q g (s !! p)) -> wp (call (Get p)) Q E g.
Proof. intros H s Hs. exists g. split; [apply looked_same|by apply H]. Qed.

(** ** Reading the state *)
Lemma account_ref_is : exists p, account_ref uid = Ok p.
Proof.
  unfold account_ref, _document, document_path. rewrite !list_ascii_app. simpl.
  rewrite split_slash_last by done. simpl. eauto.
Qed.

Lemma memory_ref_is coll id : no_slash coll -> no_slash id -> memory_ref uid coll id = Ok ["users"; uid; coll; id].
Proof.
  intros Hc Hi. unfold memory_ref, document_path. rewrite !list_ascii_app. simpl.
  rewrite split_slash_segment by done. simpl. rewrite split_slash_segment by done. simpl.
  by rewrite split_slash_last.
Qed.

Lemma control_ref_is : control_ref uid = Ok ["users"; uid; "memory_state"; "apply_control"].
Proof. apply memory_ref_is; apply (bool_decide_unpack _); vm_compute; exact I. Qed.

Lemma outbox_collection_is : outbox_collection uid = Ok (outbox_of uid).
Proof.
  unfold outbox_collection, outbox_ref. rewrite memory_ref_is; [done|apply (bool_decide_unpack _); vm_compute; exact I..].
Qed.

Lemma wp_load_control now (Q : ghost -> MemoryControlState -> Prop) E g :
  (forall c, account_generation c = generation -> Q g c) -> wp (_load_control_state uid now) Q E g.
Proof.
  intros HQ. unfold _load_control_state. eapply wp_raise_Ok; [apply control_ref_is|]. apply wp_bind, wp_get_same. intros s Hs.
  destruct (sd_control _ Hs) as (p' & raw & Hp' & Hraw & Hc). rewrite control_ref_is in Hp'. injection Hp' as <-.
  destruct (Hc now) as (c & Hc1 & Hc2). rewrite Hraw, Hc1. simpl. by apply HQ.
Qed.

Lemma wp_load_fence (Q : ghost -> bool -> Prop) E g : Q g false -> wp (read_account_deletion_projection_fence uid) Q E g.
Proof.
  intros HQ. unfold read_account_deletion_projection_fence. rewrite Hblank.
  destruct account_ref_is as [p Hp]. eapply wp_raise_Ok; [exact Hp|]. apply wp_bind, wp_get_same. intros s Hs.
  pose proof (sd_marker _ Hs p Hp) as Hb. simpl. destruct (s !! p); [by rewrite Hb|exact HQ].
Qed.

(** What a steady store gives for a row. *)
Definition found (id : string) (d : option item) : Prop :=
  match d with Some d => doc_get d "uid" = VStr uid /\ doc_get d "memory_id" = VStr id | None => True end.

Lemma steady_row s id p : steady s -> item_ref uid id = Ok p -> found id (row_of (s !! p)).
Proof.
  intros Hs Hp. destruct (s !! p) as [raw|] eqn:E; [|done]. destruct (sd_rows _ Hs _ _ _ Hp E) as (d & Hd & Hu & Hi).
  simpl. by rewrite Hd.
Qed.

Lemma wp_load_item id p (Q : ghost -> option item -> Prop) E g :
  item_ref uid id = Ok p ->
  (forall r, found id (row_of r) -> exists g', looked p r g g' /\ Q g' (row_of r)) -> wp (_load_memory_item uid id) Q E g.
Proof.
  intros Hp HQ. unfold _load_memory_item. eapply wp_raise_Ok; [exact Hp|]. apply wp_bind, wp_get. intros s Hs.
  destruct (HQ (s !! p)) as (g' & Hl & Hq); [by apply steady_row|]. exists g'. split; [done|].
  destruct (s !! p) as [raw|] eqn:E'; [|exact Hq]. destruct (sd_rows _ Hs _ _ _ Hp E') as (d & Hd & _).
  simpl in Hq. rewrite Hd in Hq. rewrite Hd. exact Hq.
Qed.

Lemma wp_load_state id p now (Q : ghost -> _AuthoritativeProjectionState -> Prop) E g :
  item_ref uid id = Ok p ->
  (forall r, found id (row_of r) -> exists g', looked p r g g' /\ Q g' (state_of (row_of r))) ->
  wp (_load_authoritative_projection_state uid id now) Q E g.
Proof.
  intros Hp HQ. unfold _load_authoritative_projection_state. apply wp_bind, wp_load_fence, wp_bind, wp_load_control.
  intros c Hc. apply wp_bind. eapply wp_load_item; [exact Hp|]. intros r Hr. destruct (HQ r Hr) as (g' & Hl & Hq).
  exists g'. split; [exact Hl|]. unfold state_of in Hq. rewrite Hc. destruct (row_of r) as [d|]; [|exact Hq].
  destruct Hr as [-> _]. simpl. rewrite bool_decide_true by done. exact Hq.
Qed.

(** ** Delivery *)

(** How a lease is left by an outcome and by an error. *)
Definition left_settled (l : LeasedMemoryOutboxEvent) (rest : ghost) (g : ghost) (o : _ProcessOutcome) : Prop :=
  exists x, g = (l, x) :: rest /\ forall now, settles l x (delivered_updates o now).
Definition left_failed (l : LeasedMemoryOutboxEvent) (rest : ghost) (g : ghost) (e : error) : Prop :=
  exists x, g = (l, x) :: rest /\ forall n now dead at_, settles l x (failure_updates (error_code e) n now dead at_).

Lemma left_leaving l rest o : left_settled l rest ((l, Leaving) :: rest) o.
Proof. exists Leaving. split; [done|]. intros. apply settles_delivered. by left. Qed.

Lemma left_repair l rest x code :
  code ∈ _PROVIDER_REPAIR_REQUIRED_ERROR_CODES -> left_failed l rest ((l, x) :: rest) (ProcessingFailure code).
Proof. intros Hc. exists x. split; [done|]. intros. apply settles_failed. by left. Qed.

Lemma left_race l rest x : left_failed l rest ((l, x) :: rest) (ProcessingFailure _PROVIDER_STATE_RACE_ERROR).
Proof. apply left_repair. by left. Qed.

(** An event that no lease responsibility is about. *)
Lemma left_foreign_settled l rest o :
  (forall t id e, ~ lease_about l t id e) -> left_settled l rest ((l, Fresh) :: rest) o.
Proof. intros Hn. exists Fresh. split; [done|]. intros. apply settles_delivered. by right. Qed.

Lemma left_untouched l rest e :
  (forall t id ev, lease_about l t id ev -> valid_event_fence ev = true ->
    repair_authoritative_state (raw_event l) <> Ok true) -> left_failed l rest ((l, Fresh) :: rest) e.
Proof. intros Hn. exists Fresh. split; [done|]. intros. apply settles_failed. right. by right. Qed.

Lemma left_foreign l rest e : (forall t id ev, ~ lease_about l t id ev) -> left_failed l rest ((l, Fresh) :: rest) e.
Proof. intros Hn. apply left_untouched. intros t id ev Ha. by destruct (Hn t id ev). Qed.

Lemma publishable_item st d : publishable st = Some d -> ps_item st = Some d.
Proof. unfold publishable. destruct (ps_item st) as [d'|]; [|done]. destruct (_ && _); [|done]. by intros [= ->]. Qed.

Lemma found_key id d : found id (Some d) -> item_key d = (uid, id).
Proof. intros [Hu Hi]. unfold item_key, text_or. by rewrite Hu, Hi. Qed.

Lemma brings_upsert id st d g :
  found id (ps_item st) -> publishable st = Some d -> _is_search_projection_indexable d = true ->
  brings (ProjectionUpsert d g) projection_sync id st.
Proof.
  intros Hf Hp Hi w. rewrite (publishable_item _ _ Hp) in Hf. split; [done|]. simpl. rewrite (found_key _ _ Hf). split.
  - unfold target. rewrite Hp. simpl. rewrite Hi. by rewrite lookup_insert_eq.
  - intros [] id' Hne; simpl; try done. rewrite lookup_insert_ne; [done|]. intros [=]. naive_solver.
Qed.

Lemma brings_vector id st d c :
  found id (ps_item st) -> publishable st = Some d -> _is_vector_indexable d = true ->
  brings (VectorUpsert d c) vector_sync id st.
Proof.
  intros Hf Hp Hi w. rewrite (publishable_item _ _ Hp) in Hf. split; [done|]. simpl. rewrite (found_key _ _ Hf). split.
  - unfold target. rewrite Hp. simpl. rewrite Hi. by rewrite lookup_insert_eq.
  - intros [] id' Hne; simpl; try done. rewrite lookup_insert_ne; [done|]. intros [=]. naive_solver.
Qed.

Lemma brings_delete id st g : target projection_sync st = None -> brings (ProjectionDelete uid id g) projection_sync id st.
Proof.
  intros Ht w. split; [done|]. rewrite Ht. split; [simpl; by rewrite lookup_delete_eq|].
  intros [] id' Hne; simpl; try done. rewrite lookup_delete_ne; [done|]. intros [=]. naive_solver.
Qed.

Lemma brings_vector_delete id st : target vector_sync st = None -> brings (VectorDelete uid id) vector_sync id st.
Proof.
  intros Ht w. split; [done|]. rewrite Ht. split; [simpl; by rewrite lookup_delete_eq|].
  intros [] id' Hne; simpl; try done. rewrite lookup_delete_ne; [done|]. intros [=]. naive_solver.
Qed.

Section Delivery.
Variables (l : LeasedMemoryOutboxEvent) (rest : ghost) (t : MemoryOutboxEventType) (id : string) (e0 e : MemoryOutboxEvent).
Hypothesis Habout : lease_about l t id e0.
Hypothesis Hvalid : valid_event_fence e0 = true.
Hypothesis Hevent : exists n, e = at_time n e0.

Lemma wp_call_effect {A} x st code (eff : side_effect) (a : A) (Q : ghost -> A -> Prop) :
  may_write x st -> brings eff t id st -> code ∈ _PROVIDER_REPAIR_REQUIRED_ERROR_CODES ->
  Q ((l, Wrote st) :: rest) a ->
  wp (_require_side_effect_success eff code;; mret a) Q (left_failed l rest) ((l, x) :: rest).
Proof.
  intros Hx Hb Hc HQ. simpl. exists l, x, rest, t, id, e0, st. split_and!; try done.
  intros r Hr. destruct r as [[]|]; [done|apply left_repair; done..].
Qed.

Lemma wp_side_effect x st first (Q : ghost -> string -> Prop) :
  may_write x st -> found id (ps_item st) -> (forall a, Q ((l, Wrote st) :: rest) a) ->
  wp (_perform_authoritative_side_effect e uid id st first) Q (left_failed l rest) ((l, x) :: rest).
Proof.
  intros Hx Hf HQ. destruct Hevent as [n ->]. destruct Habout as [_ He]. unfold _perform_authoritative_side_effect.
  change (event_type (at_time n e0)) with (event_type e0). rewrite (ei_type _ _ _ _ He).
  destruct (ei_indexed _ _ _ _ He) as [Ht|Ht]; rewrite Ht at 1.
  - destruct (publishable st) as [d|] eqn:Ep; [destruct (_is_search_projection_indexable d) eqn:Ei|].
    + apply (wp_call_effect _ st); [done|rewrite Ht; by apply brings_upsert| |apply HQ]. set_solver.
    + apply (wp_call_effect _ st); [done|rewrite Ht; apply brings_delete| |apply HQ]; [|set_solver].
      unfold target. rewrite Ep. simpl. by rewrite Ei.
    + apply (wp_call_effect _ st); [done|rewrite Ht; apply brings_delete| |apply HQ]; [|set_solver]. unfold target. by rewrite Ep.
  - destruct (publishable st) as [d|] eqn:Ep; [destruct (_is_vector_indexable d) eqn:Ei|].
    + cbv zeta. apply (wp_call_effect _ st); [done|rewrite Ht; by apply brings_vector| |apply HQ]. set_solver.
    + apply (wp_call_effect _ st); [done|rewrite Ht; apply brings_vector_delete| |apply HQ]; [|set_solver].
      unfold target. rewrite Ep. simpl. by rewrite Ei.
    + apply (wp_call_effect _ st); [done|rewrite Ht; apply brings_vector_delete| |apply HQ]; [|set_solver].
      unfold target. by rewrite Ep.
Qed.

Lemma wp_deliver attempts p x st first now :
  item_ref uid id = Ok p -> may_write x st -> found id (ps_item st) ->
  wp (_deliver_authoritative_projection_state attempts e uid id st first now) (left_settled l rest) (left_failed l rest)
    ((l, x) :: rest).
Proof.
  intros Hp. revert x st first. induction attempts as [|attempts IH]; intros x st first Hx Hf; [apply left_race|].
  simpl. apply wp_bind, wp_side_effect; [done..|]. intros a. apply wp_bind. unfold except_failure. apply wp_try.
  eapply wp_load_state; [exact Hp|]. intros r Hr. destruct (same_fence (state_of (row_of r)) st) eqn:Es.
  - exists ((l, Leaving) :: rest). split; [|apply left_leaving].
    apply looked_at. by eapply saw_same.
  - exists ((l, Wrote st) :: rest). split; [apply looked_same|]. by apply IH.
Qed.

Lemma wp_process_memory p now :
  item_ref uid id = Ok p ->
  wp (process_memory_event l e uid id now) (left_settled l rest) (left_failed l rest) ((l, Fresh) :: rest).
Proof.
  intros Hp. unfold process_memory_event. apply wp_bind. eapply wp_load_state; [exact Hp|]. intros r Hr.
  destruct (repair_authoritative_state (raw_event l)) as [repair|x] eqn:Er.
  2:{ exists ((l, Fresh) :: rest). split; [apply looked_same|]. apply wp_bind. simpl. apply left_untouched. by rewrite Er. }
  destruct (if repair then None else stale_reason e (state_of (row_of r))) as [reason|] eqn:Es.
  - exists ((l, Leaving) :: rest). split; [|eapply wp_raise_Ok; [done|]; rewrite Es; apply left_leaving].
    destruct repair; [done|]. apply looked_at. eapply saw_stale; [exact Habout|exact Hp| |done].
    destruct Hevent as [n ->]. change (stale_reason e0 (state_of (row_of r)) = Some reason) in Es. by rewrite Es.
  - exists ((l, Going (state_of (row_of r))) :: rest). split; [apply looked_at; by eapply saw_going|].
    eapply wp_raise_Ok; [done|]. rewrite Es. by eapply wp_deliver.
Qed.
End Delivery.

(** ** The whole event *)
Lemma wp_load_any id now (Q : ghost -> _AuthoritativeProjectionState -> Prop) (E : ghost -> error -> Prop) g :
  (forall st, Q g st) -> (forall e, E g e) -> wp (_load_authoritative_projection_state uid id now) Q E g.
Proof.
  intros HQ HE. destruct (item_ref uid id) as [p|x] eqn:Hp.
  - eapply wp_load_state; [exact Hp|]. intros r _. exists g. split; [apply looked_same|apply HQ].
  - unfold _load_authoritative_projection_state. apply wp_bind, wp_load_fence, wp_bind, wp_load_control. intros c _.
    apply wp_bind. unfold _load_memory_item. rewrite Hp. apply wp_bind. simpl. apply HE.
Qed.

(** An event of a memory that no index follows. *)
Lemma wp_process_foreign l rest e id now :
  (forall t id e, ~ lease_about l t id e) ->
  (event_type e <> projection_sync /\ event_type e <> vector_sync) \/ ~ (exists p, item_ref uid id = Ok p) ->
  wp (process_memory_event l e uid id now) (left_settled l rest) (left_failed l rest) ((l, Fresh) :: rest).
Proof.
  intros Hn He. pose proof (fun o => left_foreign_settled l rest o Hn) as Ho. pose proof (fun e => left_foreign l rest e Hn) as Hx.
  unfold process_memory_event. apply wp_bind. destruct He as [[H1 H2]|Hp].
  - apply wp_load_any; [|done]. intros st. apply wp_bind, wp_raise; [|done]. intros repair _.
    destruct (if repair then None else _); [apply Ho|]. unfold _PROVIDER_CONVERGENCE_ATTEMPTS. simpl. apply wp_bind.
    unfold _perform_authoritative_side_effect. destruct (event_type e); try done; apply Hx.
  - unfold _load_authoritative_projection_state. apply wp_bind, wp_load_fence, wp_bind, wp_load_control. intros c _.
    apply wp_bind. unfold _load_memory_item. destruct (item_ref uid id) as [p|x]; [|apply Hx].
    destruct Hp. by exists p.
Qed.

Lemma parsed_failed {A B} code (r : res A) (f : A -> prog B) Q (E : ghost -> error -> Prop) g :
  (forall a, r <> Ok a) -> (forall e, E g e) -> wp (parsed code (parse_snapshot_strict r) ≫= f) Q E g.
Proof. intros Hr HE. destruct r as [a|[]]; [by destruct (Hr a)|apply HE..]. Qed.

Lemma parsed_Ok {A B} code (r : res A) a (f : A -> prog B) Q (E : ghost -> error -> Prop) g :
  r = Ok a -> wp (f a) Q E g -> wp (parsed code (parse_snapshot_strict r) ≫= f) Q E g.
Proof. by intros ->. Qed.

(** A lease is left so that its settlement is right, whatever the event says. *)
Lemma wp_process l rest now :
  wp (_process_leased_event uid l now) (left_settled l rest) (left_failed l rest) ((l, Fresh) :: rest).
Proof.
  unfold _process_leased_event. destruct (memory_outbox_event (raw_event l) now) as [e|x] eqn:Er.
  2:{ apply parsed_failed; [done|]. intros err. apply left_foreign. intros t id e0 [H _].
      destruct (read_anew _ now _ H) as [n Hn]. congruence. }
  eapply parsed_Ok; [done|].
  assert (Hno : (forall t id, event_is t id (document_id l) e -> False) -> forall t id e0, ~ lease_about l t id e0)
    by (intros ?; by eapply not_about_read).
  assert (Hfail : forall err, (forall t id, event_is t id (document_id l) e -> False) -> left_failed l rest ((l, Fresh) :: rest) err)
    by (intros err H; by apply left_foreign, Hno).
  destruct (bool_decide (event_uid e = uid)) eqn:E1; simpl; [|apply Hfail; intros t id []; by apply bool_decide_eq_false in E1].
  destruct (bool_decide (event_id e = document_id l)) eqn:E2; simpl; [|apply Hfail; intros t id []; by apply bool_decide_eq_false in E2].
  destruct (v_is (dict_get "action" (event_payload e)) "barrier") eqn:E3.
  { destruct (bool_decide (is_Some (event_memory_id e))); simpl; [apply Hfail; intros t id []; congruence|].
    unfold process_barrier. apply wp_bind, wp_load_control. intros c _. simpl. apply left_foreign_settled, Hno.
    intros t id []. congruence. }
  apply wp_bind, wp_raise; [|intros x Hx; apply Hfail; intros t id []; congruence].
  intros known Hk. destruct known; simpl; [|apply Hfail; intros t id []; congruence].
  destruct (event_memory_id e) as [id|] eqn:E4; [|simpl; apply Hfail; intros t id []; congruence].
  destruct (v_is (dict_get "memory_id" (event_payload e)) id) eqn:E5; simpl; [|apply Hfail; intros t id' []; congruence].
  destruct (valid_event_fence e) eqn:E6; simpl.
  2:{ apply left_untouched. intros t id' e0 Ha Hv. destruct (about_read _ _ _ _ _ _ Er Ha) as [n ->]. 
      change (valid_event_fence e0 = false) in E6. congruence. }
  assert (Ht : (event_type e = projection_sync \/ event_type e = vector_sync)
    \/ ~ (event_type e = projection_sync \/ event_type e = vector_sync)) by (destruct (event_type e); intuition discriminate).
  destruct Ht as [Ht|Ht].
  2:{ apply wp_process_foreign; [|left; tauto]. apply Hno. intros t id' []. subst t. tauto. }
  destruct (item_ref uid id) as [p|x] eqn:Hp.
  2:{ apply wp_process_foreign; [|right; intros [p ?]; congruence]. apply Hno. intros t id' [].
      destruct ei_ref0 as [p Hp']. congruence. }
  destruct (read_about l now e (event_type e) id Er) as (n & e0 & -> & Ha).
  { apply bool_decide_eq_true in E1, E2. constructor; try done. by exists p. }
  eapply wp_process_memory; [exact Ha|exact E6|by exists n|exact Hp].
Qed.

(** ** Leases *)
Definition freshly (ls : list LeasedMemoryOutboxEvent) : ghost := (fun l => (l, Fresh)) <$> ls.

Lemma wp_collect (snapshots : gmap path fields) (queries : list outbox_query) (Q : ghost -> gmap path fields -> Prop) (E : ghost -> error -> Prop) g :
  Forall (query_of (outbox_of uid)) queries -> map_Forall (fun p _ => in_collection (outbox_of uid) p = true) snapshots ->
  (forall m, map_Forall (fun p _ => in_collection (outbox_of uid) p = true) m -> Q g m) -> (forall e, E g e) ->
  wp (collect_queries snapshots queries) Q E g.
Proof.
  intros Hq. revert snapshots. induction Hq as [|q queries Hq _ IH]; intros snapshots Hm HQ HE; [by apply HQ|].
  simpl. split_and!; [done|intros e; apply HE|]. intros rows Hrows. apply wp_bind, wp_raise; [|intros; apply HE].
  intros m Hc. apply IH; [|done..]. clear -Hm Hrows Hc. revert snapshots Hm Hc.
  induction Hrows as [|[p raw] rows Hr _ IH]; intros snapshots Hm Hc; simpl in Hc; [by injection Hc as <-|].
  apply res_bind_Ok in Hc as (b & _ & Hc). eapply IH; [|exact Hc]. destruct b; [|done]. by apply map_Forall_insert_2.
Qed.

Lemma wp_claim_candidates worker now expires n claimed ordered (Q : ghost -> list LeasedMemoryOutboxEvent -> Prop)
    (E : ghost -> error -> Prop) :
  Forall (fun r => in_collection (outbox_of uid) r.1 = true) ordered ->
  (forall ls, Q (freshly ls) ls) -> (forall g e, E g e) ->
  wp (claim_candidates worker now expires n claimed ordered) Q E (freshly claimed).
Proof.
  intros Ho HQ HE. revert claimed. induction Ho as [|[p raw] ordered Hp _ IH]; intros claimed; simpl; [apply HQ|].
  destruct (n <=? _); [apply HQ|]. simpl. split_and!; [exact Hp|intros e; apply HE|apply IH|].
  intros raw' epoch. change [(Lease p raw' worker epoch, Fresh)] with (freshly [Lease p raw' worker epoch]).
  unfold freshly. rewrite <-fmap_app. apply IH.
Qed.

Lemma wp_lease worker n scan seconds now (Q : ghost -> list LeasedMemoryOutboxEvent -> Prop) (E : ghost -> error -> Prop) :
  (forall ls, Q (freshly ls) ls) -> (forall g e, E g e) ->
  wp (lease_canonical_memory_outbox_events uid worker n scan seconds now) Q E [].
Proof.
  intros HQ HE. unfold lease_canonical_memory_outbox_events. destruct (negb _); [apply HE|].
  eapply wp_raise_Ok; [apply outbox_collection_is|]. apply wp_bind, wp_collect; [|done| |intros; apply HE].
  { repeat constructor. }
  intros m Hm. apply wp_bind, wp_raise; [|intros; apply HE]. intros d _. apply wp_bind, wp_raise; [|intros; apply HE].
  intros x _. apply (wp_claim_candidates _ _ _ _ []); [|done..]. apply Forall_forall. intros [p raw] Hr.
  rewrite merge_sort_Permutation in Hr. apply elem_of_map_to_list in Hr. exact (Hm p raw Hr).
Qed.

(** ** The tick *)
Lemma wp_ack l x rest patch (Q : ghost -> bool -> Prop) E :
  settles l x patch -> (forall b, Q rest b) -> wp (_ack_leased_event l patch) Q E ((l, x) :: rest).
Proof. intros Hs HQ. simpl. exists x, rest. split_and!; [done..|]. intros [b|e]; apply HQ. Qed.

Lemma wp_settle_failure l c x rest code now s (Q : ghost -> tick_summary -> Prop) (E : ghost -> error -> Prop) :
  (forall n now dead at_, settles l x (failure_updates code n now dead at_)) -> (forall s, Q rest s) -> (forall g e, E g e) ->
  wp (_settle_failure l c code now s) Q E ((l, x) :: rest).
Proof.
  intros Hs HQ HE. unfold _settle_failure. cbv zeta. apply wp_bind. destruct (max_attempts c <=? _).
  - apply wp_ret, wp_bind, wp_ack; [apply Hs|]. intros b. apply wp_ret, HQ.
  - apply wp_bind, wp_raise; [|intros; apply HE]. intros d _. apply wp_raise; [|intros; apply HE]. intros t _.
    apply wp_bind, wp_ack; [apply Hs|]. intros b. apply wp_ret, HQ.
Qed.

Lemma wp_processed l rest now (Q : ghost -> _ProcessOutcome + string -> Prop) E :
  (forall g o, left_settled l rest g o -> Q g (inl o)) ->
  (forall g e, left_failed l rest g e -> Q g (inr (error_code e))) ->
  wp (processed_outcome uid l now) Q E ((l, Fresh) :: rest).
Proof.
  intros HQ HE. unfold processed_outcome. apply wp_try, wp_bind. eapply wp_mono; [apply wp_process|exact HQ|exact HE].
Qed.

Lemma wp_process_leases c now ls s (Q : ghost -> tick_summary -> Prop) (E : ghost -> error -> Prop) :
  (forall s', Q [] s') -> (forall g e, E g e) -> wp (process_leases uid c now ls s) Q E (freshly ls).
Proof.
  intros HQ HE. revert s. induction ls as [|l ls IH]; intros s; [apply HQ|].
  simpl. apply wp_bind, wp_processed; intros g r (x & -> & Hx); apply wp_bind.
  - unfold settle_outcome. apply wp_bind, wp_ack; [apply Hx|]. intros b. apply IH.
  - apply wp_settle_failure; [apply Hx|exact IH|done].
Qed.

(** A tick holds no lease when it returns, or it leased nothing. *)
Definition tick_done (g : ghost) (s : tick_summary) : Prop := g = [] \/ leased_count s = 0.

Lemma wp_tick c now :
  wp (run_canonical_memory_outbox_worker_tick uid c now) tick_done (fun _ _ => True) [].
Proof.
  unfold run_canonical_memory_outbox_worker_tick. apply wp_bind, wp_raise; [|done]. intros [] _.
  apply wp_bind, wp_try, wp_bind, wp_lease; [|intros g e; by right].
  intros ls. simpl. apply wp_process_leases; [by left|done].
Qed.

Lemma wp_drain max_ticks c now n aggregate :
  1 <= limit c -> wp (drain_ticks max_ticks uid c now n aggregate) (fun _ _ => True) (fun _ _ => True) [].
Proof.
  intros Hc. revert n aggregate. induction max_ticks as [|max_ticks IH]; intros n aggregate; [done|].
  simpl. apply wp_bind. eapply wp_mono; [apply wp_tick| |done]. intros g s Hs.
  destruct (leased_count s <? limit c) eqn:El; [done|]. destruct Hs as [->|Hs]; [apply IH|].
  apply Z.ltb_ge in El. lia.
Qed.

(** Every program of a worker keeps its promises from the start. *)
Lemma worker_wp p : worker uid p -> wp p (fun _ _ => True) (fun _ _ => True) [].
Proof.
  intros []; unfold forget; apply wp_bind.
  - eapply wp_mono; [apply wp_tick|done|done].
  - eapply wp_mono; [by apply wp_drain|done|done].
Qed.
End Worker.
