(* ===== verification/OutboxInvariant.v ===== *)
(** * No memory is left behind

    In every interleaving of workers with each other and with the ledger, an index
    entry that is not the projection of its memory has an event that is not
    delivered.  The invariant names who is responsible for the entry: a lease of a
    worker, at its stage, or a document that no worker holds. *)

From S2P Require Import Prelude PyValue Firestore LegalHolds MemoryText MemoryOperations MemoryModels MemoryApply MemoryRecords MemoryReceipts MemoryStore MemoryProofs MemoryStoreProofs OutboxWorker OutboxWorld OutboxProofs.
From Stdlib Require Import QArith_base Ascii.
Local Open Scope Z_scope.

Section Invariant.
Context {T : TextEnv} {Md : ModelEnv}.
Variables (uid : string) (generation : Z).
Hypothesis Hslash : no_slash uid.
Hypothesis Hblank : nonblank uid = true.

Abbreviation indexed t := (t = projection_sync \/ t = vector_sync).
Abbreviation state_of := (state_of generation).
Abbreviation lease_about := (lease_about uid).

(** ** Rows and entries *)
Definition row (s : db) (id : string) : option item :=
  match item_ref uid id with Ok p => row_of (s !! p) | Raise _ => None end.

Definition state (s : db) (id : string) : _AuthoritativeProjectionState := state_of (row s id).

(** A row of another generation of the account. *)
Definition foreign (d : option item) : Prop :=
  exists d', d = Some d' /\ py_eq (doc_get d' "account_generation") (VInt generation) = false.

(** The entry is the projection of the memory, up to the fence of a delivery. *)
Definition in_step (w : world) (t : MemoryOutboxEventType) (id : string) : Prop :=
  foreign (row (store w) id) \/
  exists st, same_fence (state (store w) id) st = true /\ entry t uid id w = target t st.

(** ** Documents of the outbox *)
Definition name (q : path) : string := default "" (last q).

Definition open_document (raw : fields) : Prop := v_is (doc_get raw "status") "delivered" = false.

(** The event that [raw] holds still stands for its memory. *)
Definition stands (s : db) (id : string) (raw : fields) (e : MemoryOutboxEvent) : Prop :=
  stale_reason e (state s id) = None \/ (valid_event_fence e = true /\ repair_authoritative_state raw = Ok true).

Definition document_for (s : db) (q : path) (t : MemoryOutboxEventType) (id : string) : Prop :=
  exists raw e, s !! q = Some raw /\ in_collection (outbox_of uid) q = true /\ about uid (name q) raw t id e /\
    open_document raw /\ stands s id raw e.

(** The other reading of a document that only its delivery changed. *)
Definition same_event (raw raw' : fields) : Prop :=
  forall e, memory_outbox_event raw 0 = Ok e -> exists n, memory_outbox_event raw' 0 = Ok (at_time n e).

(** ** Leases *)
Definition held (s : db) (l : LeasedMemoryOutboxEvent) : Prop :=
  in_collection (outbox_of uid) (lease_path l) = true /\
  exists raw, s !! lease_path l = Some raw /\ v_is (doc_get raw "status") "processing" = true /\
    same_event (raw_event l) raw.

Definition busy (x : stage) : Prop := match x with Going _ | Wrote _ | Broken => True | _ => False end.

Definition lease_ok (l : LeasedMemoryOutboxEvent) (x : stage) : Prop :=
  busy x -> exists t id e, lease_about l t id e /\ valid_event_fence e = true.

Definition lease_for (w : world) (l : LeasedMemoryOutboxEvent) (x : stage) (t : MemoryOutboxEventType) (id : string) : Prop :=
  exists e, lease_about l t id e /\
    match x with
    | Fresh => stands (store w) id (raw_event l) e
    | Going st => st = state (store w) id
    | Wrote st => entry t uid id w = target t st
    | Broken => True
    | Leaving => False
    end.

Definition paths (L : ghost) : list path := (fun lx => lease_path lx.1) <$> L.

Definition covered (L : ghost) (w : world) (t : MemoryOutboxEventType) (id : string) : Prop :=
  in_step w t id \/ (exists l x, (l, x) ∈ L /\ lease_for w l x t id) \/
  exists q, (q ∉ paths L) /\ document_for (store w) q t id.

(** ** The outbox is apart from the documents that a worker reads *)
Lemma outbox_path q : in_collection (outbox_of uid) q = true -> exists x, q = ["users"; uid; "memory_outbox"; x].
Proof.
  unfold in_collection. intros [Hn Hq]%andb_true_iff. apply bool_decide_eq_true in Hn, Hq.
  destruct (exists_last Hn) as (q' & x & ->). rewrite removelast_app in Hq by done. rewrite app_nil_r in Hq.
  exists x. by rewrite Hq.
Qed.

Lemma outbox_not_memory q coll id p :
  in_collection (outbox_of uid) q = true -> no_slash coll -> coll <> "memory_outbox" ->
  memory_ref uid coll id = Ok p -> p <> q.
Proof.
  intros (x & ->)%outbox_path Hc Hne Hp. destruct (memory_ref_Ok _ _ _ _ Hslash Hc Hp) as (v & vs & -> & _). congruence.
Qed.

Lemma outbox_not_account q p : in_collection (outbox_of uid) q = true -> account_ref uid = Ok p -> p <> q.
Proof.
  intros (x & ->)%outbox_path Hp. unfold account_ref, _document in Hp.
  apply document_path_head in Hp as (v & vs & ->); [done|]. apply (bool_decide_unpack _). vm_compute. exact I.
Qed.

Lemma account_names : no_slash "memory_items" /\ no_slash "memory_state".
Proof. split; apply (bool_decide_unpack _); vm_compute; exact I. Qed.

Lemma row_outbox s q d id : in_collection (outbox_of uid) q = true -> row (<[q := d]> s) id = row s id.
Proof.
  intros Hq. unfold row. destruct (item_ref uid id) as [p|] eqn:Hp; [|done].
  rewrite lookup_insert_ne; [done|]. intros <-. by apply (outbox_not_memory q "memory_items" id q Hq (proj1 account_names)).
Qed.

Lemma steady_outbox s q d :
  in_collection (outbox_of uid) q = true -> steady uid generation s -> steady uid generation (<[q := d]> s).
Proof.
  intros Hq []. constructor.
  - destruct sd_control as (p & raw & Hp & Hs & Hc). exists p, raw. split; [done|]. split; [|done].
    rewrite lookup_insert_ne; [done|]. intros <-.
    by apply (outbox_not_memory q "memory_state" "apply_control" q Hq (proj2 account_names)).
  - intros p Hp. rewrite lookup_insert_ne; [auto|]. intros <-. by apply (outbox_not_account q q Hq).
  - intros id p raw Hp. rewrite lookup_insert_ne; [eauto|]. intros <-.
    by apply (outbox_not_memory q "memory_items" id q Hq (proj1 account_names)).
Qed.

(** ** Updates of a document *)
Definition event_keys : list string :=
  ["event_id"; "uid"; "event_type"; "commit_id"; "parent_commit_id"; "commit_sequence"; "memory_id"; "operation_id";
   "account_generation"; "source_generation"; "payload"].

Lemma required_kept {A} (d d' : fields) k (rd : value -> res A) : d' !! k = d !! k -> required d' k rd = required d k rd.
Proof. unfold required. by intros ->. Qed.

Lemma defaulted_kept {A} (d d' : fields) k (rd : value -> res A) a :
  d' !! k = d !! k -> defaulted d' k rd a = defaulted d k rd a.
Proof. unfold defaulted. by intros ->. Qed.

Definition reads_status (d : fields) : res string :=
  defaulted d "status" (rd_enum (fun s => s) ["pending"; "processing"; "delivered"; "retryable_failure"; "dead_letter"]) "pending".

(** What a reader makes of the parts of an event. *)
Lemma event_kept raw raw' :
  Forall (fun k => raw' !! k = raw !! k) event_keys -> is_ok (reads_status raw') = true ->
  raw' !! "available_at" = raw !! "available_at" \/ is_ok (defaulted raw' "available_at" (rd_time true) 0) = true ->
  raw' !! "attempt_count" = raw !! "attempt_count" \/ is_ok (defaulted raw' "attempt_count" rd_int 0) = true ->
  same_event raw raw'.
Proof.
  unfold event_keys. rewrite !Forall_cons. intros (K1 & K2 & K3 & K4 & K5 & K6 & K7 & K8 & K9 & K10 & K11 & _) Hs Ha Hn e He.
  assert (Ht' : is_ok (defaulted raw "available_at" (rd_time true) 0) = true ->
    exists t', defaulted raw' "available_at" (rd_time true) 0 = Ok t').
  { intros H. destruct Ha as [Ha|Ha]; [rewrite <-(defaulted_kept raw raw') in H by done|]; by apply is_ok_Ok. }
  assert (Hn' : is_ok (defaulted raw "attempt_count" rd_int 0) = true ->
    exists n', defaulted raw' "attempt_count" rd_int 0 = Ok n').
  { intros H. destruct Hn as [Hn|Hn]; [rewrite <-(defaulted_kept raw raw') in H by done|]; by apply is_ok_Ok. }
  unfold memory_outbox_event in *. fold (reads_status raw) in He. fold (reads_status raw'). apply is_ok_Ok in Hs as [st ->].
  rewrite !(required_kept raw raw'), !(defaulted_kept raw raw' "memory_id"), !(defaulted_kept raw raw' "payload") by done.
  destruct (required raw "event_id" rd_str); [|done]. destruct (required raw "uid" rd_str); [|done].
  destruct (required raw "event_type" _); [|done]. destruct (reads_status raw); [|done].
  destruct (required raw "commit_id" rd_str); [|done]. destruct (required raw "parent_commit_id" rd_str); [|done].
  destruct (required raw "commit_sequence" rd_int); [|done]. destruct (defaulted raw "memory_id" _ _); [|done].
  destruct (required raw "operation_id" rd_str); [|done]. destruct (required raw "account_generation" rd_int); [|done].
  destruct (required raw "source_generation" rd_int); [|done]. destruct (defaulted raw "payload" _ _); [|done].
  simpl in *. destruct (defaulted raw "available_at" _ _) as [t|]; [|done]. destruct (Ht' eq_refl) as [t' ->]. simpl in *.
  destruct (defaulted raw "attempt_count" _ _) as [n|]; [|done]. destruct (Hn' eq_refl) as [n' ->]. simpl in *.
  exists t'. destruct (_ && _); [|done]. by injection He as <-.
Qed.

Lemma patched_get raw (patch : updates) k : k ∉ patch.*1 -> apply_ops false raw patch !! k = raw !! k.
Proof. apply apply_ops_notin. Qed.

(** The keys of a patch, decided. *)
Ltac other_keys := apply (bool_decide_unpack _); vm_compute; exact I.

Lemma claim_same raw worker epoch now expires : same_event raw (apply_ops false raw (lease_updates worker epoch now expires)).
Proof.
  apply event_kept.
  - unfold event_keys. repeat (apply Forall_cons; split; [apply patched_get; other_keys|]). constructor.
  - unfold reads_status, defaulted. by rewrite apply_ops_lookup.
  - left. apply patched_get. other_keys.
  - left. apply patched_get. other_keys.
Qed.

Lemma failure_same raw code n now dead at_ : same_event raw (apply_ops false raw (failure_updates code n now dead at_)).
Proof.
  apply event_kept.
  - unfold event_keys. destruct dead; (repeat (apply Forall_cons; split; [apply patched_get; other_keys|]); constructor).
  - unfold reads_status, defaulted. rewrite apply_ops_lookup. by destruct dead.
  - destruct dead; [left; apply patched_get; other_keys|right]. unfold defaulted. by rewrite apply_ops_lookup.
  - right. unfold defaulted. rewrite apply_ops_lookup. by destruct dead.
Qed.

(** ** Facts on events and leases *)
Lemma about_kept nm raw raw' t id e :
  about uid nm raw t id e -> same_event raw raw' -> exists n, about uid nm raw' t id (at_time n e).
Proof. intros [H He] Hs. destruct (Hs e H) as [n Hn]. exists n. split; [done|]. by apply event_is_at_time. Qed.

Lemma about_unique nm raw t id e t' id' e' :
  about uid nm raw t id e -> about uid nm raw t' id' e' -> t = t' /\ id = id' /\ e = e'.
Proof.
  intros [H []] [H' []]. assert (e = e') as <- by congruence. split; [congruence|]. split; [congruence|done].
Qed.

Lemma lease_valid l x t id e : lease_ok l x -> busy x -> lease_about l t id e -> valid_event_fence e = true.
Proof. intros Hl Hb Ha. destruct (Hl Hb) as (t' & id' & e' & Ha' & Hv). by destruct (about_unique _ _ _ _ _ _ _ _ Ha Ha') as (_ & _ & ->). Qed.

Lemma processing_open raw : v_is (doc_get raw "status") "processing" = true -> open_document raw.
Proof. intros H%v_is_true. unfold open_document. by rewrite H. Qed.

Lemma processing_repairs raw :
  v_is (doc_get raw "status") "processing" = true -> repair_authoritative_state raw = Ok true.
Proof. intros H. unfold repair_authoritative_state. by rewrite H. Qed.

(** A lease that its worker gives up leaves its document responsible. *)
Lemma release_document w l x t id :
  lease_for w l x t id -> lease_ok l x -> held (store w) l -> document_for (store w) (lease_path l) t id.
Proof.
  intros (e & Ha & Hx) Hok (Hc & raw & Hs & Hp & Hsame). destruct (about_kept _ _ _ _ _ _ Ha Hsame) as [n Hn].
  exists raw, (at_time n e). split_and!; [done|done|exact Hn|by apply processing_open|].
  destruct x; try (right; split; [|by apply processing_repairs]; change (valid_event_fence e = true); eapply lease_valid; [exact Hok|exact I|exact Ha]).
  - destruct Hx as [Hx|[Hv _]]; [left; exact Hx|right]. split; [exact Hv|by apply processing_repairs].
  - done.
Qed.

(** ** Covered after a step *)
Lemma paths_app L1 L2 : paths (L1 ++ L2) = paths L1 ++ paths L2.
Proof. apply fmap_app. Qed.

Lemma paths_elem L l x : (l, x) ∈ L -> lease_path l ∈ paths L.
Proof. intros H. apply list_elem_of_fmap. by exists (l, x). Qed.

Lemma paths_not_head L1 l x L2 : NoDup (paths (L1 ++ (l, x) :: L2)) -> lease_path l ∉ paths (L1 ++ L2).
Proof.
  rewrite !paths_app. simpl. rewrite NoDup_app, NoDup_cons, elem_of_app. intros (_ & H1 & [H2 _]) [H|H]; [|done].
  by apply (H1 _ H), elem_of_cons; left.
Qed.

Lemma paths_rest L1 l x L2 : NoDup (paths (L1 ++ (l, x) :: L2)) -> NoDup (paths (L1 ++ L2)).
Proof. intros H. eapply sublist_NoDup; [exact H|]. rewrite !paths_app. simpl. apply sublist_app; [done|]. by apply sublist_cons. Qed.

Lemma covered_release L1 l x L2 w t id :
  NoDup (paths (L1 ++ (l, x) :: L2)) -> lease_ok l x -> held (store w) l ->
  covered (L1 ++ (l, x) :: L2) w t id -> covered (L1 ++ L2) w t id.
Proof.
  intros Hnd Hok Hh [H|[(l' & x' & Hin & Hf)|(q & Hq & Hd)]]; [by left| |].
  - apply elem_of_app in Hin as [Hin|[[= -> ->]|Hin]%elem_of_cons].
    + right; left. exists l', x'. split; [set_solver|done].
    + right; right. exists (lease_path l). split; [by eapply paths_not_head|by eapply release_document].
    + right; left. exists l', x'. split; [set_solver|done].
  - right; right. exists q. split; [|done]. rewrite paths_app in *. simpl in Hq. set_solver.
Qed.

Lemma covered_replace L1 l x y L2 w t id :
  (lease_for w l x t id -> covered (L1 ++ (l, y) :: L2) w t id) ->
  covered (L1 ++ (l, x) :: L2) w t id -> covered (L1 ++ (l, y) :: L2) w t id.
Proof.
  intros Hl [H|[(l' & x' & Hin & Hf)|(q & Hq & Hd)]]; [by left| |].
  - apply elem_of_app in Hin as [Hin|[[= -> ->]|Hin]%elem_of_cons]; [|by apply Hl|];
      (right; left; exists l', x'; split; [set_solver|done]).
  - right; right. exists q. split; [|done]. rewrite paths_app in *. exact Hq.
Qed.

Lemma covered_lease L1 l y L2 w t id : lease_for w l y t id -> covered (L1 ++ (l, y) :: L2) w t id.
Proof. intros H. right; left. exists l, y. split; [set_solver|done]. Qed.

(** A read moves a lease: what it was responsible for is projected, up to date or
    not its concern. *)
Lemma covered_saw L1 l x y L2 w p t id :
  saw uid generation p (store w !! p) l x y ->
  covered (L1 ++ (l, x) :: L2) w t id -> covered (L1 ++ (l, y) :: L2) w t id.
Proof.
  intros Hsaw. apply covered_replace. intros (e & Ha & Hx).
  assert (Hstate : forall id', item_ref uid id' = Ok p -> state_of (row_of (store w !! p)) = state (store w) id').
  { intros id' Hp. unfold state, row. by rewrite Hp. }
  destruct Hsaw as [t' id' e' Ha' Hv Hp|t' id' e' Ha' Hp Hr Hn|t' id' e' st Ha' Hp Hf];
    destruct (about_unique _ _ _ _ _ _ _ _ Ha Ha') as (<- & <- & <-); rewrite (Hstate _ Hp) in *.
  - apply covered_lease. by exists e.
  - destruct Hx as [Hx|[_ Hx]]; congruence.
  - left. right. by exists st.
Qed.

Lemma covered_broken L1 l x L2 w t id :
  covered (L1 ++ (l, x) :: L2) w t id -> covered (L1 ++ (l, Broken) :: L2) w t id.
Proof. apply covered_replace. intros (e & Ha & _). apply covered_lease. by exists e. Qed.

(** A call brings the entry of a memory to a state, or may have done so. *)
Lemma covered_perform L1 l x y L2 w eff t0 id0 e0 st t id :
  lease_about l t0 id0 e0 -> brings uid eff t0 id0 st -> y = Wrote st \/ y = Broken ->
  covered (L1 ++ (l, x) :: L2) w t id -> covered (L1 ++ (l, y) :: L2) (perform eff w) t id.
Proof.
  intros Ha Hb Hy Hc. destruct (Hb w) as (Hs & He & Hother).
  assert (Hdec : (t = t0 /\ id = id0) \/ (t <> t0 \/ id <> id0)).
  { destruct (decide (id = id0)); [|by right; right]. destruct t, t0; first [by left|by right; left]. }
  destruct Hdec as [[-> ->]|Hne].
  { apply covered_lease. exists e0. split; [done|]. destruct Hy as [-> | ->]; [exact He|done]. }
  specialize (Hother t id Hne).
  assert (Hkeep : covered (L1 ++ (l, x) :: L2) (perform eff w) t id).
  { unfold covered, in_step, lease_for, document_for in *. rewrite Hs, Hother. exact Hc. }
  revert Hkeep. apply covered_replace. intros (e & Ha' & _).
  destruct (about_unique _ _ _ _ _ _ _ _ Ha Ha') as (-> & -> & _). destruct Hne; done.
Qed.

(** A write to the outbox leaves rows and entries. *)
Lemma in_step_outbox w q d t id :
  in_collection (outbox_of uid) q = true -> in_step w t id -> in_step (with_store w (<[q := d]> (store w))) t id.
Proof. intros Hq. unfold in_step, state. simpl. rewrite row_outbox by done. by destruct t. Qed.

Lemma stands_outbox s q d id raw e :
  in_collection (outbox_of uid) q = true -> stands s id raw e -> stands (<[q := d]> s) id raw e.
Proof. intros Hq. unfold stands, state. by rewrite row_outbox. Qed.

Lemma lease_for_outbox w q d l x t id :
  in_collection (outbox_of uid) q = true -> lease_for w l x t id ->
  lease_for (with_store w (<[q := d]> (store w))) l x t id.
Proof.
  intros Hq (e & Ha & Hx). exists e. split; [done|]. destruct x; simpl in *;
    [by apply stands_outbox|unfold state; by rewrite row_outbox|by destruct t|done|done].
Qed.

Lemma document_for_outbox s q d q' t id :
  in_collection (outbox_of uid) q = true -> q' <> q -> document_for s q' t id -> document_for (<[q := d]> s) q' t id.
Proof.
  intros Hq Hne (raw & e & Hs & Hc & Ha & Ho & Hst). exists raw, e. rewrite lookup_insert_ne by done.
  split_and!; [done..|by apply stands_outbox].
Qed.

Lemma name_document p raw worker epoch : document_id (Lease p raw worker epoch) = name p.
Proof. done. Qed.

(** A claim: the lease stands for the document that it takes. *)
Lemma covered_claim L g L' w p raw worker epoch now expires t id :
  in_collection (outbox_of uid) p = true -> store w !! p = Some raw -> g = [(Lease p raw worker epoch, Fresh)] \/ g = [] ->
  covered (L ++ L') w t id ->
  covered (L ++ g ++ L') (with_store w (<[p := apply_ops false raw (lease_updates worker epoch now expires)]> (store w))) t id.
Proof.
  intros Hp Hraw Hg Hc. set (s' := <[p := _]> (store w)).
  destruct Hc as [H|[(l & x & Hin & Hf)|(q & Hq & Hd)]].
  - left. by apply in_step_outbox.
  - right; left. exists l, x. split; [set_solver|by apply lease_for_outbox].
  - destruct (decide (q = p)) as [->|Hne].
    + destruct Hd as (raw' & e & Hs & _ & Ha & Ho & Hst). assert (raw' = raw) as -> by congruence.
      destruct Hg as [-> | ->].
      * right; left. exists (Lease p raw worker epoch), Fresh. split; [set_solver|]. exists e. split; [done|].
        simpl. by apply stands_outbox.
      * right; right. exists p. split; [by rewrite app_nil_l|]. 
        assert (Hproc : v_is (doc_get (apply_ops false raw (lease_updates worker epoch now expires)) "status") "processing" = true)
          by (rewrite doc_get_apply; done).
        destruct (about_kept _ _ _ _ _ _ Ha (claim_same raw worker epoch now expires)) as [n Hn].
        eexists _, (at_time n e). unfold s'. simpl. rewrite lookup_insert_eq.
        split_and!; [done|done|exact Hn|by apply processing_open|].
        destruct Hst as [Hst|[Hv _]]; [left|right; split; [exact Hv|by apply processing_repairs]].
        unfold state. rewrite row_outbox by done. exact Hst.
    + right; right. exists q. split; [|by apply document_for_outbox].
      rewrite !paths_app in *. destruct Hg as [-> | ->]; simpl; set_solver.
Qed.

(** A settlement that the store accepts. *)
Lemma covered_settled L1 l x L2 w raw patch t id :
  NoDup (paths (L1 ++ (l, x) :: L2)) -> lease_ok l x -> held (store w) l -> store w !! lease_path l = Some raw ->
  settles uid l x patch -> covered (L1 ++ (l, x) :: L2) w t id ->
  covered (L1 ++ L2) (with_store w (<[lease_path l := apply_ops false raw patch]> (store w))) t id.
Proof.
  intros Hnd Hok (Hp & raw' & Hraw' & _ & Hsame) Hraw Hset Hc. assert (raw' = raw) as -> by congruence.
  destruct Hc as [H|[(l' & x' & Hin & Hf)|(q & Hq & Hd)]].
  - left. by apply in_step_outbox.
  - apply elem_of_app in Hin as [Hin|[[= -> ->]|Hin]%elem_of_cons];
      [right; left; exists l', x'; split; [set_solver|by apply lease_for_outbox]| |
       right; left; exists l', x'; split; [set_solver|by apply lease_for_outbox]].
    right; right. exists (lease_path l). split; [by eapply paths_not_head|].
    destruct Hf as (e & Ha & Hx). destruct Hset as [o now Hx'|code n now dead at_ Hx'].
    { destruct Hx' as [->|[-> Hno]]; [done|by destruct (Hno t id e)]. }
    destruct (about_kept _ _ _ _ _ _ Ha Hsame) as [m1 Hm1].
    destruct (about_kept _ _ _ _ _ _ Hm1 (failure_same raw code n now dead at_)) as [m2 Hm2].
    eexists _, (at_time m2 (at_time m1 e)). simpl. rewrite lookup_insert_eq. split_and!; [done|done|exact Hm2| |].
    { unfold open_document. rewrite doc_get_apply. by destruct dead. }
    assert (Hrep : code ∈ _PROVIDER_REPAIR_REQUIRED_ERROR_CODES ->
      repair_authoritative_state (apply_ops false raw (failure_updates code n now dead at_)) = Ok true).
    { intros Hcode. unfold repair_authoritative_state. rewrite !doc_get_apply.
      replace (default VNone (field_after "status" _ _)) with
        (VStr (if dead then "dead_letter" else "retryable_failure")) by (by destruct dead).
      replace (default VNone (field_after "last_error_code" _ _)) with (VStr code) by (by destruct dead).
      assert (v_is (VStr (if dead then "dead_letter" else "retryable_failure")) "processing" = false) as -> by (by destruct dead).
      clear -Hcode. repeat (apply elem_of_cons in Hcode as [->|Hcode]; [reflexivity|]). by apply elem_of_nil in Hcode. }
    destruct x; [|right; split; [change (valid_event_fence e = true); eapply lease_valid; [exact Hok|exact I|exact Ha]|apply Hrep]..|done].
    + destruct Hx as [Hx|[Hv Hr]].
      { left. unfold state. rewrite row_outbox by done. exact Hx. }
      destruct Hx' as [Hcode|[?|[_ Hno]]]; [right; split; [exact Hv|by apply Hrep]|done|].
      by destruct (Hno t id e Ha Hv).
    + destruct Hx' as [?|[?|[? _]]]; done.
    + destruct Hx' as [?|[?|[? _]]]; done.
    + destruct Hx' as [?|[?|[? _]]]; done.
  - right; right. rewrite paths_app in *. simpl in Hq. exists q. split; [set_solver|]. apply document_for_outbox; [done| |done].
    set_solver.
Qed.
End Invariant.
