(* ===== verification/OutboxTheorems.v ===== *)
(** * The outbox brings the indexes up to date

    The invariant of [OutboxInvariant] holds in every interleaving in which reads do
    not fail and no event is claimed while a live worker works on it; so an index
    entry that is not the projection of its memory has an event that is not
    delivered. *)

From S2P Require Import Prelude PyValue Firestore LegalHolds MemoryText MemoryOperations MemoryModels MemoryApply MemoryRecords MemoryReceipts MemoryStore MemoryProofs MemoryStoreProofs OutboxWorker OutboxWorld OutboxProofs OutboxInvariant.
From Stdlib Require Import QArith_base Ascii.
Local Open Scope Z_scope.

Section Pool.
Context {T : TextEnv} {Md : ModelEnv}.
Variables (uid : string) (generation : Z).
Hypothesis Hslash : no_slash uid.
Hypothesis Hblank : nonblank uid = true.

Abbreviation wp := (wp uid generation).
Abbreviation held := (held uid).
Abbreviation lease_ok := (lease_ok uid).
Abbreviation covered := (covered uid generation).
Abbreviation steady := (steady uid generation).

(** ** What the accesses do *)
Lemma with_same_store w : with_store w (store w) = w.
Proof. by destruct w. Qed.

Lemma claim_exec w p worker now expires :
  (exists r, exec (Claim p worker now expires) w = (r, w) /\ forall l, r <> Ok (Some l)) \/
  exists raw epoch, store w !! p = Some raw /\
    exec (Claim p worker now expires) w =
      (Ok (Some (Lease p raw worker epoch)),
       with_store w (<[p := apply_ops false raw (lease_updates worker epoch now expires)]> (store w))).
Proof.
  simpl. unfold run_on, run_txn, _claim_event_transaction. unfold mbind, txn_bind, txn_get. simpl.
  destruct (store w !! p) as [raw|] eqn:Hraw; simpl.
  2:{ left. eexists. rewrite with_same_store. split; [reflexivity|done]. }
  unfold lift. destruct (_is_claimable raw now) as [[]|e]; simpl.
  - right. exists raw. eexists. split; [done|]. unfold txn_update, txn_write. simpl. rewrite Hraw. reflexivity.
  - left. eexists. rewrite with_same_store. split; [reflexivity|done].
  - left. eexists. split; [reflexivity|done].
Qed.

Lemma ack_exec w l patch :
  (exists r, exec (Acknowledge l patch) w = (r, w)) \/
  exists raw, store w !! lease_path l = Some raw /\
    exec (Acknowledge l patch) w = (Ok true, with_store w (<[lease_path l := apply_ops false raw patch]> (store w))).
Proof.
  simpl. unfold run_on, run_txn, _ack_event_transaction. unfold mbind, txn_bind, txn_get. simpl.
  destruct (store w !! lease_path l) as [raw|] eqn:Hraw; simpl.
  2:{ left. eexists. rewrite with_same_store. reflexivity. }
  destruct (_ || _ || _); simpl.
  - left. eexists. rewrite with_same_store. reflexivity.
  - right. exists raw. split; [done|]. unfold txn_update, txn_write. simpl. rewrite Hraw. reflexivity.
Qed.

Lemma stream_rows q s :
  query_of (outbox_of uid) q -> Forall (fun r => in_collection (outbox_of uid) r.1 = true) (stream q s).
Proof.
  intros Hq. apply Forall_forall. intros r Hr.
  assert (Hf : forall k n wanted, r ∈ query_rows k n wanted s -> wanted r = true).
  { intros k n wanted H. unfold query_rows in H.
    assert (H' : forall l : list (path * fields), r ∈ take (Z.to_nat n) l -> r ∈ l)
      by (intros l Hl; rewrite <-(take_drop (Z.to_nat n) l); apply elem_of_app; by left).
    apply H' in H. rewrite sorting.merge_sort_Permutation in H.
    rewrite list_elem_of_In, filter_In in H. by destruct H. }
  destruct q; simpl in Hq; subst; apply Hf in Hr.
  - by apply andb_true_iff in Hr as [[Hr _]%andb_true_iff _].
  - by apply andb_true_iff in Hr as [[[Hr _]%andb_true_iff _]%andb_true_iff _].
Qed.

(** ** The invariant *)
Record thread_ok (s : db) (t : thread) (g : ghost) : Prop := {
  to_wp : wp (program t) (fun _ _ => True) (fun _ _ => True) g;
  to_leases : forall l x, (l, x) ∈ g -> lease_path l ∈ working t /\ held s l /\ lease_ok l x
}.

Record pool_ok (w : world) (ts : list thread) (gs : list ghost) : Prop := {
  po_steady : steady (store w);
  po_threads : Forall2 (thread_ok (store w)) ts gs;
  po_paths : NoDup (paths (concat gs));
  po_covered : forall t id, t = projection_sync \/ t = vector_sync -> covered (concat gs) w t id
}.

(** The place of one thread in the pool. *)
Lemma pool_split w ts1 t ts2 gs :
  pool_ok w (ts1 ++ t :: ts2) gs ->
  exists gs1 g gs2, gs = gs1 ++ g :: gs2 /\ Forall2 (thread_ok (store w)) ts1 gs1 /\ thread_ok (store w) t g /\
    Forall2 (thread_ok (store w)) ts2 gs2 /\ concat gs = concat gs1 ++ g ++ concat gs2.
Proof.
  intros H. destruct H as [_ Ht _ _]. apply Forall2_app_inv_l in Ht as (gs1 & gs' & H1 & H2 & ->).
  apply Forall2_cons_inv_l in H2 as (g & gs2 & Hg & H2 & ->).
  exists gs1, g, gs2. split_and!; [done..|]. by rewrite concat_app.
Qed.

(** Another store keeps the threads whose documents it keeps. *)
Lemma threads_keep s s' ts gs :
  Forall2 (thread_ok s) ts gs ->
  (forall g l x, g ∈ gs -> (l, x) ∈ g -> held s l -> held s' l) -> Forall2 (thread_ok s') ts gs.
Proof.
  induction 1 as [|t g ts gs [Hw Hl] _ IH]; intros Hk; constructor.
  - constructor; [done|]. intros l x Hin. destruct (Hl l x Hin) as (? & ? & ?). split_and!; [done| |done].
    eapply Hk; [by left|done..].
  - apply IH. intros g' l x Hg. eapply Hk. by right.
Qed.

Lemma pool_put w ts1 t ts2 gs1 g gs2 w' :
  Forall2 (thread_ok (store w)) ts1 gs1 -> Forall2 (thread_ok (store w)) ts2 gs2 ->
  steady (store w') -> thread_ok (store w') t g ->
  (forall l x, (l, x) ∈ concat gs1 ++ concat gs2 -> held (store w) l -> held (store w') l) ->
  NoDup (paths (concat gs1 ++ g ++ concat gs2)) ->
  (forall t id, t = projection_sync \/ t = vector_sync -> covered (concat gs1 ++ g ++ concat gs2) w' t id) ->
  pool_ok w' (ts1 ++ t :: ts2) (gs1 ++ g :: gs2).
Proof.
  intros H1 H2 Hs Ht Hk Hnd Hc. assert (Hcat : concat (gs1 ++ g :: gs2) = concat gs1 ++ g ++ concat gs2) by by rewrite concat_app.
  constructor; rewrite ?Hcat; [done| |done|done].
  apply Forall2_app; [|constructor; [done|]]; (eapply threads_keep; [done|]); intros g' l x Hg Hl; apply (Hk l x);
    apply elem_of_app; [left|right]; apply list_elem_of_In, in_concat; exists g'; by rewrite <-!list_elem_of_In.
Qed.

(** A write to the outbox at another path keeps a lease. *)
Lemma held_other s q d l : lease_path l <> q -> held s l -> held (<[q := d]> s) l.
Proof. intros Hne (Hc & raw & Hs & H). split; [done|]. exists raw. by rewrite lookup_insert_ne. Qed.

(** ** One access of one thread *)

(** A reply and the world it leaves. *)
Inductive outcome (c : access) (w : world) : res (reply c) -> world -> Prop :=
| outcome_call : outcome c w (exec c w).1 (exec c w).2
| outcome_lost_request r : may_fail (Regime (fun _ _ => False) (fun _ => False) False False) c ->
    failure_reply c r -> outcome c w r w
| outcome_lost_reply r : may_fail (Regime (fun _ _ => False) (fun _ => False) False False) c ->
    failure_reply c r -> outcome c w r (exec c w).2.

Section Access.
Variables (w : world) (ts1 ts2 : list thread) (gs1 gs2 : list ghost) (g : ghost) (working : list path).
Hypothesis Hsteady : steady (store w).
Hypothesis H1 : Forall2 (thread_ok (store w)) ts1 gs1.
Hypothesis H2 : Forall2 (thread_ok (store w)) ts2 gs2.
Hypothesis Hleases : forall l x, (l, x) ∈ g -> lease_path l ∈ working /\ held (store w) l /\ lease_ok l x.
Hypothesis Hpaths : NoDup (paths (concat gs1 ++ g ++ concat gs2)).
Hypothesis Hcovered : forall t id, t = projection_sync \/ t = vector_sync -> covered (concat gs1 ++ g ++ concat gs2) w t id.

Definition goes_on (w' : world) (p : prog unit) (working' : list path) : Prop :=
  exists gs', pool_ok w' (ts1 ++ Thread p working' :: ts2) gs'.

(** The store and the leases are as they were. *)
Lemma goes_on_same p :
  wp p (fun _ _ => True) (fun _ _ => True) g -> goes_on w p working.
Proof.
  intros Hp. exists (gs1 ++ g :: gs2). eapply pool_put; [exact H1|exact H2|exact Hsteady| | |exact Hpaths|exact Hcovered]. 2: auto.
  constructor; [exact Hp|exact Hleases].
Qed.

Lemma stream_goes_on q (k : res (reply (Stream q)) -> prog unit) r w' :
  wp (Do (Stream q) k) (fun _ _ => True) (fun _ _ => True) g -> outcome (Stream q) w r w' -> goes_on w' (k r) working.
Proof.
  intros (Hq & Herr & Hok) [|? _ [e ->]|? _ [e ->]]; apply goes_on_same; [|apply Herr..].
  apply Hok. by apply stream_rows.
Qed.

Lemma get_goes_on p (k : res (reply (Get p)) -> prog unit) r w' :
  wp (Do (Get p) k) (fun _ _ => True) (fun _ _ => True) g -> outcome (Get p) w r w' -> goes_on w' (k r) working.
Proof.
  intros Hw [|? []|? []]. destruct (Hw (store w) Hsteady) as (g' & Hl & Hk). simpl. exists (gs1 ++ g' :: gs2).
  assert (Hg : paths g' = paths g /\ (forall l x, (l, x) ∈ g' -> lease_path l ∈ working /\ held (store w) l /\ lease_ok l x) /\
    forall t id, t = projection_sync \/ t = vector_sync -> covered (concat gs1 ++ g' ++ concat gs2) w t id).
  { inversion Hl as [|l x y rest Hs]; [by subst|]. subst g g'. split_and!; [done|..].
    - intros l' x' [[= -> ->]|Hin]%elem_of_cons; [|apply Hleases; by right].
      destruct (Hleases l x ltac:(by left)) as (? & ? & _). split_and!; [done..|].
      destruct Hs as [t id e Ha Hv _| |]; [intros _; by exists t, id, e|by intros []..].
    - intros t id Ht. eapply (covered_saw uid generation Hslash Hblank); [exact Hs|]. by apply Hcovered. }
  destruct Hg as (Hp & Hle & Hc). eapply pool_put; [exact H1|exact H2|exact Hsteady|by constructor|done| |exact Hc].
  rewrite !paths_app in *. by rewrite Hp.
Qed.

Lemma perform_goes_on e (k : res (reply (Perform e)) -> prog unit) r w' :
  wp (Do (Perform e) k) (fun _ _ => True) (fun _ _ => True) g -> outcome (Perform e) w r w' -> goes_on w' (k r) working.
Proof.
  intros (l & x & rest & t0 & id0 & ev & st & Hg & Ha & Hv & _ & Hb & Hok & Hno) Hout. subst g.
  assert (Hleases' : forall y l' x', (l', x') ∈ (l, y) :: rest -> lease_path l' ∈ working /\ held (store w) l' /\ lease_ok l' x').
  { intros y l' x' [[= -> ->]|Hin]%elem_of_cons; [|apply Hleases; by right].
    destruct (Hleases l x ltac:(by left)) as (? & ? & _). split_and!; [done..|]. intros _. by exists t0, id0, ev. }
  destruct (Hb w) as [Hs _].
  assert (Hput : forall y p w', store w' = store w -> wp p (fun _ _ => True) (fun _ _ => True) ((l, y) :: rest) ->
    (forall t id, t = projection_sync \/ t = vector_sync -> covered (concat gs1 ++ ((l, y) :: rest) ++ concat gs2) w' t id) ->
    goes_on w' p working).
  { intros y p w2 Hs2 Hp Hc. exists (gs1 ++ ((l, y) :: rest) :: gs2). eapply pool_put; [exact H1|exact H2|..|exact Hc]; rewrite ?Hs2; [done| |done|].
    - constructor; [done|]. intros l' x' Hin. by apply (Hleases' y).
    - rewrite !paths_app in *. exact Hpaths. }
  destruct Hout as [|r _ Hr|r _ Hr]; simpl.
  - apply (Hput (Wrote st)); [done|exact Hok|]. intros t id Ht. simpl.
    eapply (covered_perform uid generation Hslash Hblank); [exact Ha|exact Hb|by left|by apply Hcovered].
  - apply (Hput Broken); [done|by apply Hno|]. intros t id Ht. simpl. eapply (covered_broken uid generation Hslash Hblank). by apply Hcovered.
  - apply (Hput Broken); [done|by apply Hno|]. intros t id Ht. simpl.
    eapply (covered_perform uid generation Hslash Hblank); [exact Ha|exact Hb|by right|by apply Hcovered].
Qed.

Lemma claim_goes_on p worker now expires (k : res (reply (Claim p worker now expires)) -> prog unit) r w' :
  wp (Do (Claim p worker now expires) k) (fun _ _ => True) (fun _ _ => True) g ->
  (p ∉ paths (concat gs1 ++ g ++ concat gs2)) ->
  outcome (Claim p worker now expires) w r w' -> goes_on w' (k r) (after_call (Claim p worker now expires) r working).
Proof.
  intros (Hp & Herr & Hnone & Hsome) Hfree Hout.
  assert (Hother : forall l x d, (l, x) ∈ concat gs1 ++ g ++ concat gs2 -> held (store w) l -> held (<[p := d]> (store w)) l).
  { intros l x d Hin. apply held_other. intros <-. apply Hfree. by eapply paths_elem. }
  assert (Hrest : forall (l : LeasedMemoryOutboxEvent) (x : stage), (l, x) ∈ concat gs1 ++ concat gs2 -> (l, x) ∈ concat gs1 ++ g ++ concat gs2) by set_solver.
  destruct (claim_exec w p worker now expires) as [(r' & He & Hr')|(raw & epoch & Hraw & He)].
  - assert (Hw : w' = w) by (destruct Hout; rewrite ?He; done). subst w'.
    assert (Hr : forall l, r <> Ok (Some l)) by (destruct Hout as [|? _ [e ->]|? _ [e ->]]; rewrite ?He; done).
    destruct r as [[l|]|e]; [by destruct (Hr l)|apply goes_on_same; exact Hnone|apply goes_on_same; apply Herr].
  - set (l := Lease p raw worker epoch) in *.
    destruct Hout as [|r _ [e ->]|r _ [e ->]]; [|apply goes_on_same, Herr|]; rewrite He; simpl.
    + exists (gs1 ++ (g ++ [(l, Fresh)]) :: gs2).
      eapply pool_put; [exact H1|exact H2|apply steady_outbox; [exact Hslash|exact Hp|exact Hsteady]| | | |].
      * constructor; [apply Hsome|]. intros l' x' [Hin|[= -> ->]%list_elem_of_singleton]%elem_of_app.
        -- destruct (Hleases _ _ Hin) as (? & ? & ?). split_and!; [apply elem_of_app; by left| |done].
           apply (Hother l' x'); [set_solver|done].
        -- split_and!; [apply elem_of_app; right; by left| |by intros []]. split; [done|].
           eexists. simpl. rewrite lookup_insert_eq. split; [done|]. split; [by rewrite doc_get_apply|apply claim_same].
      * intros l' x' Hin. apply (Hother l' x'). by apply Hrest.
      * rewrite !paths_app in *. simpl. rewrite <-!app_assoc. simpl.
        eapply (NoDup_Permutation_proper _ (p :: (paths (concat gs1) ++ paths g ++ paths (concat gs2))));
          [|by apply NoDup_cons]. rewrite app_assoc, (app_assoc (paths (concat gs1))). 
        symmetry. apply Permutation_middle.
      * intros t id Ht. rewrite <-app_assoc. rewrite (app_assoc (concat gs1)). eapply (covered_claim uid generation Hslash Hblank); [done..|by left|].
        rewrite <-app_assoc. by apply Hcovered.
    + exists (gs1 ++ g :: gs2). eapply pool_put; [exact H1|exact H2|apply steady_outbox; [exact Hslash|exact Hp|exact Hsteady]| | |exact Hpaths|].
      * constructor; [apply Herr|]. intros l' x' Hin. destruct (Hleases _ _ Hin) as (? & ? & ?). split_and!; [done| |done].
        apply (Hother l' x'); [set_solver|done].
      * intros l' x' Hin. apply (Hother l' x'). by apply Hrest.
      * intros t id Ht. rewrite <-(app_nil_l (g ++ concat gs2)). eapply (covered_claim uid generation Hslash Hblank); [done..|by right|]. by apply Hcovered.
Qed.

Lemma ack_goes_on l patch (k : res (reply (Acknowledge l patch)) -> prog unit) r w' :
  wp (Do (Acknowledge l patch) k) (fun _ _ => True) (fun _ _ => True) g -> outcome (Acknowledge l patch) w r w' ->
  goes_on w' (k r) (after_call (Acknowledge l patch) r working).
Proof.
  intros (x & rest & -> & Hset & Hk) Hout. specialize (Hk r). simpl.
  destruct (Hleases l x ltac:(by left)) as (_ & Hheld & Hlok).
  simpl in Hpaths. pose proof (paths_not_head _ _ _ _ Hpaths) as Hfree. pose proof (paths_rest _ _ _ _ Hpaths) as Hnd.
  assert (Hne : forall l' x', (l', x') ∈ concat gs1 ++ rest ++ concat gs2 -> lease_path l' <> lease_path l).
  { intros l' x' Hin He. apply Hfree. rewrite <-He. by eapply paths_elem. }
  assert (Hput : forall w2, steady (store w2) ->
    (forall l' x', (l', x') ∈ concat gs1 ++ rest ++ concat gs2 -> held (store w) l' -> held (store w2) l') ->
    (forall t id, t = projection_sync \/ t = vector_sync -> covered (concat gs1 ++ rest ++ concat gs2) w2 t id) ->
    goes_on w2 (k r) (List.filter (fun q => negb (bool_decide (q = lease_path l))) working)).
  { intros w2 Hs Hk2 Hc. exists (gs1 ++ rest :: gs2). eapply pool_put; [exact H1|exact H2|done| | |exact Hnd|done].
    - constructor; [done|]. intros l' x' Hin. destruct (Hleases l' x' ltac:(by right)) as (Hw & ? & ?).
      assert ((l', x') ∈ concat gs1 ++ rest ++ concat gs2) by set_solver. split_and!; [|by eapply Hk2|done].
      simpl. rewrite list_elem_of_In, filter_In, <-list_elem_of_In. split; [done|]. apply negb_true_iff, bool_decide_eq_false. by eapply Hne.
    - intros l' x' Hin. apply (Hk2 l' x'). set_solver. }
  assert (Hsame : goes_on w (k r) (List.filter (fun q => negb (bool_decide (q = lease_path l))) working)).
  { apply Hput; [done..|]. intros t id Ht. eapply (covered_release uid generation Hslash Hblank); [exact Hpaths|done|done|]. by apply Hcovered. }
  assert (Hexec : goes_on (exec (Acknowledge l patch) w).2 (k r) (List.filter (fun q => negb (bool_decide (q = lease_path l))) working)).
  { destruct (ack_exec w l patch) as [(r' & ->)|(raw & Hraw & ->)]; [done|]. apply Hput; simpl.
    - apply steady_outbox; [exact Hslash|apply Hheld|exact Hsteady].
    - intros l' x' Hin. apply held_other. by eapply Hne.
    - intros t id Ht. eapply (covered_settled uid generation Hslash Hblank); [exact Hpaths|exact Hlok|exact Hheld|exact Hraw|exact Hset|]. by apply Hcovered. }
  destruct Hout; [exact Hexec|exact Hsame|exact Hexec].
Qed.

Lemma access_goes_on c (k : res (reply c) -> prog unit) r w' :
  wp (Do c k) (fun _ _ => True) (fun _ _ => True) g ->
  (forall p worker now expires, c = Claim p worker now expires -> p ∉ paths (concat gs1 ++ g ++ concat gs2)) ->
  outcome c w r w' -> goes_on w' (k r) (after_call c r working).
Proof.
  destruct c; intros Hw Hc Ho.
  - by eapply stream_goes_on.
  - eapply claim_goes_on; [done| |done]. by eapply Hc.
  - by eapply get_goes_on.
  - by eapply perform_goes_on.
  - by eapply ack_goes_on.
Qed.
End Access.

(** ** The other actors

    What the rest of the backend does to the account: documents of the outbox are
    only added, and a row that changes comes with pending events that name it. *)
Record progress (s s' : db) : Prop := {
  pg_steady : steady s';
  pg_outbox : forall q raw, in_collection (outbox_of uid) q = true -> s !! q = Some raw -> s' !! q = Some raw;
  pg_rows : forall id, row uid s' id = row uid s id \/ foreign generation (row uid s' id) \/
    forall t, t = projection_sync \/ t = vector_sync ->
      exists q raw e, in_collection (outbox_of uid) q = true /\ s' !! q = Some raw /\
        v_is (doc_get raw "status") "pending" = true /\ about uid (name q) raw t id e /\
        stale_reason e (state uid generation s' id) = None
}.

Record fair (R : regime) : Prop := {
  fr_environment : forall s s', steady s -> environment R s s' -> progress s s';
  fr_starts : forall p, starts R p -> worker uid p;
  fr_reads : ~ reads_fail R;
  fr_leases : ~ leases_overrun R
}.

Lemma pending_open raw : v_is (doc_get raw "status") "pending" = true -> open_document raw.
Proof. intros H%v_is_true. unfold open_document. by rewrite H. Qed.

Lemma covered_progress L w s' t id :
  progress (store w) s' -> (forall l x, (l, x) ∈ L -> held (store w) l) -> t = projection_sync \/ t = vector_sync ->
  covered L w t id -> covered L (with_store w s') t id.
Proof.
  intros [_ Ho Hr] Hheld Ht Hc. destruct (Hr id) as [Hrow|[Hf|Hev]].
  - assert (Hst : state uid generation s' id = state uid generation (store w) id) by (unfold state; by rewrite Hrow).
    destruct Hc as [H|[(l & x & Hin & e & Ha & Hx)|(q & Hq & raw & e & Hs & Hc & Ha & Hopen & Hst')]].
    + left. unfold in_step in *. simpl. rewrite Hrow, Hst. by destruct Ht as [-> | ->].
    + right; left. exists l, x. split; [done|]. exists e. split; [done|]. unfold stands in *. simpl. rewrite Hst.
      destruct Ht as [-> | ->]; by destruct x.
    + right; right. exists q. split; [done|]. exists raw, e. split_and!; try done; [by apply Ho|].
      unfold stands in *. simpl. by rewrite Hst.
  - left. by left.
  - right; right. destruct (Hev t Ht) as (q & raw & e & Hc' & Hs & Hp & Ha & Hst).
    exists q. split; [|exists raw, e; split_and!; [done..|by apply pending_open|by left]].
    intros ([l x] & -> & Hin)%list_elem_of_fmap. destruct (Hheld l x Hin) as (Hq & raw' & Hs' & Hp' & _). simpl in *.
    rewrite (Ho _ _ Hq Hs') in Hs. injection Hs as ->. apply v_is_true in Hp, Hp'. congruence.
Qed.

Lemma held_progress s s' l : progress s s' -> held s l -> held s' l.
Proof. intros [_ Ho _] (Hc & raw & Hs & H). split; [done|]. exists raw. split; [by apply Ho|done]. Qed.

(** ** One step *)
Lemma pool_leases w ts gs l x :
  pool_ok w ts gs -> (l, x) ∈ concat gs -> exists t, t ∈ ts /\ lease_path l ∈ working t /\ held (store w) l /\ lease_ok l x.
Proof.
  intros [_ Hts _ _] (g & Hin & Hg)%list_elem_of_In%in_concat. rewrite <-!list_elem_of_In in *.
  induction Hts as [|t g' ts gs [_ Hl] _ IH]; [by apply elem_of_nil in Hin|].
  apply elem_of_cons in Hin as [->|Hin].
  - destruct (Hl l x Hg) as (? & ? & ?). exists t. split; [by left|done].
  - destruct (IH Hin) as (t' & ? & ?). exists t'. split; [by right|done].
Qed.

Lemma covered_drop L1 g L2 w t id :
  NoDup (paths (L1 ++ g ++ L2)) -> (forall l x, (l, x) ∈ g -> held (store w) l /\ lease_ok l x) ->
  covered (L1 ++ g ++ L2) w t id -> covered (L1 ++ L2) w t id.
Proof.
  induction g as [|[l x] g IH]; intros Hnd Hg Hc; [done|]. simpl in *. destruct (Hg l x ltac:(by left)) as [Hh Hok].
  apply IH; [by eapply paths_rest|intros l' x' Hin; apply Hg; by right|].
  eapply (covered_release uid generation Hslash Hblank); [exact Hnd|exact Hok|exact Hh|exact Hc].
Qed.

Lemma gone_ok w ts1 t ts2 gs : pool_ok w (ts1 ++ t :: ts2) gs -> exists gs', pool_ok w (ts1 ++ ts2) gs'.
Proof.
  intros H. destruct (pool_split _ _ _ _ _ H) as (gs1 & g & gs2 & -> & H1 & [_ Hl] & H2 & Hcat).
  destruct H as [Hs _ Hnd Hc]. rewrite Hcat in *. exists (gs1 ++ gs2). constructor; rewrite ?concat_app.
  - done.
  - by apply Forall2_app.
  - eapply sublist_NoDup; [exact Hnd|]. rewrite !paths_app. apply sublist_app; [done|]. by apply sublist_inserts_l.
  - intros t' id Ht. eapply covered_drop; [exact Hnd|intros l x Hin; by destruct (Hl l x Hin)|by apply Hc].
Qed.

Lemma start_ok w ts gs p : pool_ok w ts gs -> worker uid p -> pool_ok w (ts ++ [Thread p []]) (gs ++ [[]]).
Proof.
  intros [Hs Ht Hnd Hc] Hp. assert (Hcat : concat (gs ++ [[]]) = concat gs) by (rewrite concat_app; simpl; by rewrite app_nil_r).
  constructor; rewrite ?Hcat; [done| |done|done]. apply Forall2_app; [done|]. constructor; [|constructor].
  constructor; [by apply worker_wp|]. by intros l x ?%elem_of_nil.
Qed.

Lemma other_ok w ts gs s' : pool_ok w ts gs -> progress (store w) s' -> pool_ok (with_store w s') ts gs.
Proof.
  intros H Hp. pose proof (fun l x Hin => pool_leases _ _ _ l x H Hin) as Hl. destruct H as [Hs Ht Hnd Hc]. constructor; simpl.
  - apply Hp.
  - eapply threads_keep; [exact Ht|]. intros g l x _ _. by apply held_progress.
  - done.
  - intros t id Hti. apply covered_progress; [done| |done|by apply Hc]. intros l x Hin. by destruct (Hl l x Hin) as (? & _ & _ & ? & _).
Qed.

Lemma access_ok w ts1 c k held_ ts2 gs r w' :
  pool_ok w (ts1 ++ Thread (Do c k) held_ :: ts2) gs ->
  (forall p worker now expires, c = Claim p worker now expires ->
    Forall (fun t => p ∉ working t) (ts1 ++ Thread (Do c k) held_ :: ts2)) ->
  outcome c w r w' -> exists gs', pool_ok w' (ts1 ++ Thread (k r) (after_call c r held_) :: ts2) gs'.
Proof.
  intros H Hclaim Ho. pose proof (fun l x Hin => pool_leases _ _ _ l x H Hin) as Hl.
  destruct (pool_split _ _ _ _ _ H) as (gs1 & g & gs2 & -> & H1 & [Hw Hg] & H2 & Hcat).
  destruct H as [Hs _ Hnd Hc]. rewrite Hcat in *. eapply access_goes_on; [done..| |exact Ho].
  intros p worker now expires Hp ([l x] & -> & Hin)%list_elem_of_fmap.
  destruct (Hl l x Hin) as (t & Ht & Hwork & _). specialize (Hclaim _ _ _ _ Hp). rewrite Forall_forall in Hclaim.
  by apply (Hclaim t Ht).
Qed.

(** A claim that never reached the store. *)
Lemma claim_refused w ts1 p worker now expires k held_ ts2 gs e :
  pool_ok w (ts1 ++ Thread (Do (Claim p worker now expires) k) held_ :: ts2) gs ->
  exists gs', pool_ok w (ts1 ++ Thread (k (Raise e)) held_ :: ts2) gs'.
Proof.
  intros H. destruct (pool_split _ _ _ _ _ H) as (gs1 & g & gs2 & -> & H1 & [(_ & Herr & _) Hg] & H2 & Hcat).
  destruct H as [Hs _ Hnd Hc]. rewrite Hcat in *. eapply goes_on_same; [exact Hs|exact H1|exact H2|exact Hg|exact Hnd|exact Hc|apply Herr].
Qed.

Lemma step_ok R x y gs : fair R -> step R x y -> pool_ok x.1 x.2 gs -> exists gs', pool_ok y.1 y.2 gs'.
Proof.
  intros [He Hstart Hreads Hleases] Hstep H.
  assert (Hclaim : forall c ts, may_claim R ts c -> forall p worker now expires, c = Claim p worker now expires ->
    Forall (fun t => p ∉ working t) ts) by (intros c ts Hm p worker now expires ->; by destruct Hm).
  assert (Hfail : forall c, may_fail R c -> may_fail (Regime (fun _ _ => False) (fun _ => False) False False) c) by (by intros []).
  destruct Hstep; simpl in *.
  - eapply access_ok; [done|by apply Hclaim|apply outcome_call].
  - destruct c; try (eapply access_ok; [done|done|apply outcome_lost_request; auto]).
    destruct H1 as [e ->]. by eapply claim_refused.
  - eapply access_ok; [done|by apply Hclaim|apply outcome_lost_reply; auto].
  - by eapply gone_ok.
  - exists (gs ++ [[]]). apply start_ok; auto.
  - exists gs. apply other_ok; [done|]. apply He; [apply H|done].
Qed.

(** ** What is reachable *)

(** Every entry is the projection of its memory or has an event that stands. *)
Definition accounted (w : world) : Prop :=
  forall t id, t = projection_sync \/ t = vector_sync ->
    in_step uid generation w t id \/ exists q, document_for uid generation (store w) q t id.

Lemma reachable_ok R w0 w ts :
  fair R -> steady (store w0) -> accounted w0 -> rtc (step R) (w0, []) (w, ts) -> exists gs, pool_ok w ts gs.
Proof.
  intros HR Hs Ha Hsteps.
  assert (H0 : pool_ok w0 [] []).
  { constructor; simpl; [done|constructor|constructor|]. intros t id Ht.
    destruct (Ha t id Ht) as [H|[q H]]; [by left|right; right]. exists q. split; [by intros ?%elem_of_nil|done]. }
  assert (Hgen : forall x y, rtc (step R) x y -> forall gs, pool_ok x.1 x.2 gs -> exists gs', pool_ok y.1 y.2 gs').
  { clear -HR Hslash Hblank. induction 1 as [x|x y z Hxy _ IH]; intros gs H; [by exists gs|].
    destruct (step_ok _ _ _ _ HR Hxy H) as [gs' H']. by eapply IH. }
  by apply (Hgen _ _ Hsteps []).
Qed.

(** An event of the memory that is not delivered. *)
Definition open_event (s : db) (t : MemoryOutboxEventType) (id : string) : Prop :=
  exists q raw e, s !! q = Some raw /\ in_collection (outbox_of uid) q = true /\ about uid (name q) raw t id e /\
    open_document raw.

Lemma covered_open gs w ts t id :
  pool_ok w ts gs -> covered (concat gs) w t id -> in_step uid generation w t id \/ open_event (store w) t id.
Proof.
  intros H [Hs|[(l & x & Hin & e & Ha & _)|(q & _ & raw & e & Hs & Hc & Ha & Ho & _)]]; [by left|right..].
  - destruct (pool_leases _ _ _ l x H Hin) as (_ & _ & _ & (Hc & raw & Hs & Hp & Hsame) & _).
    destruct (about_kept _ _ _ _ _ _ _ Ha Hsame) as [n Hn]. exists (lease_path l), raw, (at_time n e).
    split_and!; [done|done|exact Hn|by apply processing_open].
  - by exists q, raw, e.
Qed.

(** C9: No memory is left behind.  From a store in which every index entry is in step
    or has its event, take any interleaving of the account's outbox workers with each
    other, with their crashes, and with queries, claims, acknowledgements and provider
    calls that fail before or after their effect.  The conditions ([fair]): no read
    of a single document fails, no event is claimed while a living worker works on
    it, and every other change of the store leaves the account in its generation and
    its events in place and comes with pending events that name the new state of each
    row it changes, as every apply of the ledger does
    ([OutboxLedger.apply_makes_progress]).  Then an entry of the search or the vector
    index that is not the projection of its memory has an event in the outbox that is
    not delivered, unless the row is of another generation of the account.  Without
    the condition on reads this fails ([OutboxDemo.failed_verification_loses_the_repair]). *)
Theorem stale_entry_has_an_open_event R w0 w ts t id :
  fair R -> steady (store w0) -> accounted w0 -> rtc (step R) (w0, []) (w, ts) ->
  t = projection_sync \/ t = vector_sync ->
  in_step uid generation w t id \/ open_event (store w) t id.
Proof.
  intros HR Hs Ha Hsteps Ht. destruct (reachable_ok _ _ _ _ HR Hs Ha Hsteps) as [gs H].
  eapply covered_open; [exact H|]. by apply (po_covered _ _ _ H).
Qed.

(** ** What a drained index serves *)
Lemma py_eq_cons x l y m : py_eq (VList (x :: l)) (VList (y :: m)) = py_eq x y && py_eq (VList l) (VList m).
Proof. done. Qed.

Lemma py_eq_text v s : py_eq v (VStr s) = true -> v = VStr s.
Proof. destruct v; simpl; try done. by intros ->%bool_decide_eq_true. Qed.

Definition fence_keys : list string :=
  ["uid"; "account_generation"; "item_revision"; "content_hash"; "ledger_commit_id"; "tier"; "status"; "processing_state";
   "source_state"].

Lemma same_fence_item d st :
  same_fence (OutboxProofs.state_of generation (Some d)) st = true ->
  match ps_item st with
  | None => False
  | Some d' => Forall (fun k => py_eq (doc_get d k) (doc_get d' k) = true) fence_keys /\
      py_eq (sorted_labels d) (sorted_labels d') = true
  end.
Proof.
  unfold same_fence, fence. simpl ps_item. rewrite <-!app_comm_cons, !py_eq_cons, !app_nil_l.
  intros [_ [_ H]%andb_true_iff]%andb_true_iff. destruct (ps_item st) as [d'|]; simpl fmap in H; simpl app in H; [|by destruct (doc_get d "uid")].
  rewrite !py_eq_cons in H. repeat (apply andb_true_iff in H as [? H]).
  split; [|done]. unfold fence_keys. by repeat (apply Forall_cons; split; [done|]).
Qed.

Lemma same_fence_none st : same_fence (OutboxProofs.state_of generation None) st = true -> ps_item st = None.
Proof.
  unfold same_fence, fence. simpl ps_item. rewrite <-!app_comm_cons, !py_eq_cons, !app_nil_l.
  intros [_ [_ H]%andb_true_iff]%andb_true_iff. destruct (ps_item st) as [d'|]; [|done].
  simpl fmap in H. simpl app in H. rewrite py_eq_cons in H. by apply andb_true_iff in H as [_ H].
Qed.

Lemma restricted_texts d :
  _has_restricted_sensitivity d = true <-> exists s, s ∈ texts (labels_of d) /\ s ∈ RESTRICTED_SENSITIVITY_LABELS.
Proof.
  unfold _has_restricted_sensitivity. rewrite existsb_exists. split.
  - intros (v & Hv & Hin). unfold v_in in Hin. apply existsb_exists in Hin as (s & Hs & ->%v_is_true).
    rewrite <-list_elem_of_In in Hv. rewrite <-list_elem_of_In in Hs. exists s. split; [|exact Hs]. apply list_elem_of_omap. by exists (VStr s).
  - intros (s & (v & Hv & Hs)%list_elem_of_omap & Hr). destruct v; try done. injection Hs as ->.
    rewrite list_elem_of_In in Hv. exists (VStr s). split; [done|]. unfold v_in. apply existsb_exists. exists s.
    rewrite list_elem_of_In in Hr. split; [done|]. by apply v_is_true.
Qed.

Lemma py_eq_texts l m : py_eq (VList (VStr <$> l)) (VList (VStr <$> m)) = true -> l = m.
Proof.
  revert m. induction l as [|s l IH]; intros [|s' m]; simpl fmap; [done|done|done|].
  rewrite py_eq_cons. intros [->%bool_decide_eq_true H]%andb_true_iff. f_equal. by apply IH.
Qed.

Lemma same_labels d d' :
  py_eq (sorted_labels d) (sorted_labels d') = true -> _has_restricted_sensitivity d = _has_restricted_sensitivity d'.
Proof.
  intros H%py_eq_texts. apply eq_bool_prop_intro. rewrite !Is_true_true, !restricted_texts.
  assert (Hp : texts (labels_of d) ≡ₚ texts (labels_of d')).
  { rewrite <-(sorting.merge_sort_Permutation str_le (texts (labels_of d))),
      <-(sorting.merge_sort_Permutation str_le (texts (labels_of d'))). unfold sorted_strs in H. by rewrite H. }
  by setoid_rewrite Hp.
Qed.

(** What a served entry says of the row. *)
Record live_row (d d' : item) : Prop := {
  lr_status : doc_get d "status" = VStr "active";
  lr_processed : doc_get d "processing_state" = VStr "processed";
  lr_source : doc_get d "source_state" = VStr "active";
  lr_tier : v_in (doc_get d "tier") ["short_term"; "long_term"] = true;
  lr_labels : _has_restricted_sensitivity d = false;
  lr_revision : py_eq (doc_get d "item_revision") (doc_get d' "item_revision") = true;
  lr_hash : py_eq (doc_get d "content_hash") (doc_get d' "content_hash") = true
}.

Lemma in_step_live w t id d' :
  in_step uid generation w t id -> entry t uid id w = Some d' ->
  foreign generation (row uid (store w) id) \/ exists d, row uid (store w) id = Some d /\ live_row d d'.
Proof.
  intros [Hf|(st & Hfence & He)] Hd; [by left|right]. rewrite Hd in He. unfold target in He.
  destruct (publishable st) as [x|] eqn:Ep; [|done]. destruct (indexable t x) eqn:Ei; [|done]. injection He as <-.
  apply publishable_item in Ep. unfold state in Hfence. destruct (row uid (store w) id) as [d|].
  2:{ apply same_fence_none in Hfence. congruence. }
  exists d. split; [done|]. apply same_fence_item in Hfence. rewrite Ep in Hfence. destruct Hfence as [Hk Hl].
  unfold fence_keys in Hk. rewrite !Forall_cons in Hk. destruct Hk as (_ & _ & Hrev & Hhash & _ & Htier & Hst & Hps & Hss & _).
  assert (Hx : v_in (doc_get d' "tier") ["short_term"; "long_term"] = true /\ v_is (doc_get d' "status") "active" = true /\
    v_is (doc_get d' "processing_state") "processed" = true /\ v_is (doc_get d' "source_state") "active" = true /\
    _has_restricted_sensitivity d' = false).
  { destruct t; try done; simpl in Ei; unfold _is_search_projection_indexable, _is_vector_indexable in Ei;
      repeat (apply andb_true_iff in Ei as [Ei ?]); split_and!; try done; by apply negb_true_iff. }
  destruct Hx as (X1 & X2%v_is_true & X3%v_is_true & X4%v_is_true & X5). rewrite X2 in Hst. rewrite X3 in Hps. rewrite X4 in Hss.
  constructor; [by apply py_eq_text..| | |done|done].
  - unfold v_in in *. apply existsb_exists in X1 as (s & Hs & Ht%v_is_true). rewrite Ht in Htier.
    apply py_eq_text in Htier. rewrite Htier. apply existsb_exists. exists s. split; [done|]. by apply v_is_true.
  - by rewrite (same_labels _ _ Hl).
Qed.

(** C10: A drained index serves live memories only.  In the interleavings of
    [stale_entry_has_an_open_event], under the same conditions ([fair]: no failing
    read of a document, no event claimed while a living worker works on it, every
    other change of the store announced by pending events), once every event of the
    account is delivered an entry of the search or the vector index is of a row that
    is active, processed, from an active source, without a restricted label, at the
    revision and content hash of the entry, or of a row of another generation of the
    account. *)
Theorem drained_index_serves_live_memories R w0 w ts t id d' :
  fair R -> steady (store w0) -> accounted w0 -> rtc (step R) (w0, []) (w, ts) ->
  (forall q raw, store w !! q = Some raw -> in_collection (outbox_of uid) q = true ->
    v_is (doc_get raw "status") "delivered" = true) ->
  t = projection_sync \/ t = vector_sync -> entry t uid id w = Some d' ->
  foreign generation (row uid (store w) id) \/ exists d, row uid (store w) id = Some d /\ live_row d d'.
Proof.
  intros HR Hs Ha Hsteps Hdrained Ht. destruct (reachable_ok _ _ _ _ HR Hs Ha Hsteps) as [gs H].
  apply in_step_live. destruct (covered_open _ _ _ t id H (po_covered _ _ _ H t id Ht)) as [?|(q & raw & e & Hq & Hc & _ & Ho)]; [done|].
  unfold open_document in Ho. by rewrite (Hdrained q raw Hq Hc) in Ho.
Qed.
End Pool.
