(* ===== verification/OutboxLedger.v ===== *)
(** * The ledger announces what it changes

    The theorems of [OutboxTheorems] ask of every other actor that an account's rows
    change together with pending events that name their new state.  An apply of the
    ledger does: each row it writes comes with an event for each index, which reads
    back and carries the row's revision and content hash. *)

From S2P Require Import Prelude PyValue Firestore LegalHolds MemoryText MemoryOperations MemoryModels MemoryApply MemoryRecords MemoryReceipts MemoryStore MemoryPrivacy MemoryReplacement MemoryProofs MemoryItemProofs MemoryStoreProofs MemoryPrivacyProofs MemoryReplacementProofs MemoryHistory OutboxWorker OutboxWorld OutboxProofs OutboxInvariant OutboxTheorems.
From Stdlib Require Import QArith_base Ascii.
Local Open Scope Z_scope.

#[local] Opaque deterministic_contract_id json_text.

(** ** Events read back *)
Lemma rd_event_type (t : MemoryOutboxEventType) :
  rd_enum event_type_value [projection_sync; vector_sync; export_sync; delete_sync] (VStr (event_type_value t)) = Ok t.
Proof. by destruct t. Qed.

Lemma rd_pending :
  rd_enum (fun s : string => s) ["pending"; "processing"; "delivered"; "retryable_failure"; "dead_letter"] (VStr "pending") = Ok "pending".
Proof. done. Qed.

#[local] Hint Resolve rd_event_type rd_pending : records.

Definition named_event (e : MemoryOutboxEvent) : bool :=
  forallb nonblank [event_id e; event_uid e; event_commit_id e; event_operation_id e].

Lemma event_roundtrip e now : named_event e = true -> memory_outbox_event (event_data e) now = Ok e.
Proof.
  intros Hv. unfold memory_outbox_event, event_data. read_back.
  unfold named_event in Hv. rewrite Hv. by destruct e.
Qed.

Lemma NoDup_names {A B} (f : A -> B) (l : list A) x y : NoDup (f <$> l) -> x ∈ l -> y ∈ l -> f x = f y -> x = y.
Proof.
  intros Hn [i Hi]%list_elem_of_lookup [j Hj]%list_elem_of_lookup E.
  assert (i = j) as ->; [|congruence].
  eapply NoDup_lookup; [exact Hn|rewrite list_lookup_fmap, Hi; reflexivity|].
  rewrite list_lookup_fmap, Hj. simpl. by rewrite E.
Qed.

Section Ledger.
Context {T : TextEnv} {Md : ModelEnv} {St : StoreEnv}.
Variables (uid : string) (generation : Z).
Hypothesis Hslash : no_slash uid.
Hypothesis Hblank : nonblank uid = true.

Abbreviation steady := (steady uid generation).
Abbreviation progress := (progress uid generation).

(** ** The step of the environment *)

(** What a delivery compares of a row. *)
Definition compared_keys : list string := ["memory_id"; "item_revision"; "content_hash"].

Definition reads_back (d : item) : Prop :=
  forall d', parse_item d = Ok d' -> Forall (fun k => py_eq (doc_get d' k) (doc_get d k) = true) compared_keys.

(** The name of a new event, a hash, is one segment of a path, and no document has it. *)
Record new_event (s : db) (e : MemoryOutboxEvent) : Prop := {
  ne_segment : no_slash (event_id e);
  ne_blank : nonblank (event_id e) = true;
  ne_free : s !! ["users"; uid; "memory_outbox"; event_id e] = None
}.

(** A call of the ledger's apply, for any account, that leaves the account in its
    generation; on the account itself its events have names of their own and its
    rows read back as they were written. *)
Definition ledger_apply (s s' : db) : Prop :=
  exists mode rq now r,
    no_slash (rq_uid rq) /\ apply_long_term_patch_firestore mode rq now s = Ok (r, s') /\ steady s' /\
    (rq_uid rq = uid -> Forall (new_event s) (outbox_events r) /\ NoDup (event_id <$> outbox_events r) /\
       Forall reads_back (memory_items r)).

(** ** Documents that an apply leaves alone *)
Lemma row_same s s' id : (forall p, item_ref uid id = Ok p -> s' !! p = s !! p) -> row uid s' id = row uid s id.
Proof. intros H. unfold row. destruct (item_ref uid id) as [p|]; [|done]. by rewrite (H p). Qed.

Lemma progress_aside s p d uid' coll id :
  no_slash uid' -> no_slash coll -> coll <> "memory_items" -> coll <> "memory_outbox" ->
  memory_ref uid' coll id = Ok p -> steady (<[p := d]> s) -> progress s (<[p := d]> s).
Proof.
  intros Hu Hc H1 H2 Hp Hs. destruct (memory_ref_Ok _ _ _ _ Hu Hc Hp) as (v & vs & -> & _). split; [done| |].
  - intros q raw (x & ->)%outbox_path Hq. rewrite lookup_insert_ne; congruence.
  - intros i. left. apply row_same. intros q Hq. rewrite lookup_insert_ne; [done|].
    destruct (memory_ref_Ok _ _ _ _ Hslash (proj1 account_names) Hq) as (w & ws & -> & _). congruence.
Qed.

Lemma progress_same s : steady s -> progress s s.
Proof. intros Hs. split; [done|done|by left]. Qed.

(** Every write of a commit is to a document of its account. *)
Lemma write_place uid' op_ref op_id r w :
  operation_ref uid' op_id = Ok op_ref -> ledger_write uid' op_ref r w ->
  exists coll id, coll ∈ collections /\ memory_ref uid' coll id = Ok (write_path w).
Proof.
  intros Hop [Hk|i q d Hq ->]; [|by exists "memory_evidence", i; split; [decide_all|]].
  destruct Hk as [|q Hq|q d Hq|q Hq|q d _ Hq|q e _ Hq|d a q _ _ Hq|d q _ _ Hq|coll i q d Hc Hq];
    [eexists _, _; split; [|exact Hop]|..|exists coll, i; split; [by apply derived_collection|exact Hq]];
    first [decide_all | eexists _, _; split; [|exact Hq]; decide_all].
Qed.

Section Commit.
Variables (s s' : db) (rq : apply_request) (now : Z) (c : MemoryControlState) (op : MemoryOperation) (r : ApplyResult)
  (op_ref : path) (ws : list write).
Hypothesis Hstep : commit_step s s' (rq_uid rq) now c op r op_ref ws.
Hypothesis Hnew : rq_uid rq = uid -> Forall (new_event s) (outbox_events r) /\ NoDup (event_id <$> outbox_events r) /\
  Forall reads_back (memory_items r).

Lemma outbox_kept q raw : in_collection (outbox_of uid) q = true -> s !! q = Some raw -> s' !! q = Some raw.
Proof.
  intros Hq Hs. destruct (outbox_path _ _ Hq) as (x & ->).
  destruct (commit_last _ _ _ ["users"; uid; "memory_outbox"; x] (cs_commit _ _ _ _ _ _ _ _ _ Hstep)) as [[-> _]|(w & Hw & Hwp & Hl)]; [done|exfalso].
  pose proof (proj1 (Forall_forall _ _) (cw_kinds _ _ _ _ (cs_writes _ _ _ _ _ _ _ _ _ Hstep)) w Hw) as Hk.
  pose proof (cs_uid _ _ _ _ _ _ _ _ _ Hstep) as Hu.
  destruct (write_place _ _ _ _ _ (cs_path _ _ _ _ _ _ _ _ _ Hstep) Hk) as (coll & i & Hcoll & Hp).
  rewrite Hwp in Hp. destruct (memory_ref_Ok _ _ _ _ Hu (collection_no_slash _ Hcoll) Hp) as (v & vs & E & _).
  injection E as Huid Hc _ _. subst coll.
  destruct (outbox_write _ _ _ _ _ Hu (cs_path _ _ _ _ _ _ _ _ _ Hstep)
    (cw_kinds _ _ _ _ (cs_writes _ _ _ _ _ _ _ _ _ Hstep)) _ _ _ _ Hu Hp Hw Hwp) as (_ & e & He & Hid & _).
  destruct (Hnew (eq_sym Huid)) as (Hfree & _). pose proof (proj1 (Forall_forall _ _) Hfree e He) as [Hseg _ Hn].
  rewrite Hid in Hseg, Hn. assert (Hp' : memory_ref (rq_uid rq) "memory_outbox" i = Ok ["users"; uid; "memory_outbox"; i]).
  { rewrite <-Huid. apply memory_ref_is; [by rewrite Huid|decide_all|exact Hseg]. }
  rewrite Hp in Hp'. injection Hp' as ->. congruence.
Qed.

(** The row that a commit writes has its events. *)
Lemma row_announced id d d' t :
  rq_uid rq = uid -> account_generation c = generation -> nonblank (operation_id op) = true ->
  nonblank (next_commit_id c (operation_id op)) = true ->
  d ∈ memory_items r -> text_or d "memory_id" = id -> (exists p, item_ref uid id = Ok p) ->
  outbox_events r = (memory_items r ≫= item_events op c (next_commit_id c (operation_id op)) (commit_sequence c + 1) now) ->
  parse_item d = Ok d' -> doc_get d' "memory_id" = VStr id -> py_eq (doc_get d' "account_generation") (VInt generation) = true ->
  row uid s' id = Some d' -> t = projection_sync \/ t = vector_sync ->
  exists q raw e, in_collection (outbox_of uid) q = true /\ s' !! q = Some raw /\
    v_is (doc_get raw "status") "pending" = true /\ about uid (name q) raw t id e /\
    stale_reason e (state uid generation s' id) = None.
Proof.
  intros Huid Hgen Hopn Hcn Hd Hid Hp Hev Hparse Hname Hacc Hrow Ht.
  destruct (Hnew Huid) as (Hfresh & Hnd & Hback).
  pose proof (proj1 (Forall_forall _ _) Hback d Hd d' Hparse) as Hkeys. unfold compared_keys in Hkeys.
  rewrite !Forall_cons in Hkeys. destruct Hkeys as (Kid & Krev & Khash & _). rewrite Hname in Kid.
  assert (Hdid : doc_get d "memory_id" = VStr id).
  { destruct (doc_get d "memory_id"); try done. simpl in Kid. by apply bool_decide_eq_true in Kid as ->. }
  set (e := outbox_event op c (next_commit_id c (operation_id op)) (commit_sequence c + 1) (Some id)
    [("memory_id", doc_get d "memory_id"); ("tier", doc_get d "tier");
     ("action", VStr (if projection_eligible d then "upsert" else "delete"));
     ("item_revision", doc_get d "item_revision"); ("content_hash", doc_get d "content_hash")] now t).
  assert (He : e ∈ outbox_events r).
  { rewrite Hev. apply list_elem_of_bind. exists d. split; [|exact Hd]. unfold item_events. rewrite Hid.
    apply list_elem_of_fmap. exists t. split; [done|]. destruct Ht as [-> | ->]; set_solver. }
  destruct (step_event _ _ _ _ _ _ _ _ _ Hstep e He) as (q & e' & Hq & Hs & He' & Heid).
  assert (e' = e) as -> by by eapply NoDup_names.
  pose proof (proj1 (Forall_forall _ _) Hfresh e He) as [Hseg Hnb _].
  rewrite Huid in Hq. unfold outbox_ref in Hq. rewrite memory_ref_is in Hq; [|exact Hslash|decide_all|exact Hseg].
  injection Hq as <-. exists ["users"; uid; "memory_outbox"; event_id e], (event_data e), e.
  assert (Howner : op_uid op = uid) by (rewrite (cs_owner _ _ _ _ _ _ _ _ _ Hstep); exact Huid).
  split_and!; [|exact Hs| | |].
  - unfold in_collection. rewrite !bool_decide_true; done.
  - unfold event_data. by rewrite doc_get_list.
  - split.
    + apply event_roundtrip. unfold named_event. simpl. change (_event_id t _ _ _) with (event_id e).
      rewrite Hnb, Howner, Hblank, Hcn, Hopn. done.
    + split; try done; simpl.
      * by destruct (projection_eligible d).
      * by destruct (projection_eligible d).
      * unfold dict_get. simpl. rewrite Hdid. by apply v_is_true.
  - unfold stale_reason, state, state_of. rewrite Hrow. cbn [ps_account_generation ps_item].
    change (event_account_generation e) with (account_generation c).
    change (dict_get "item_revision" (event_payload e)) with (doc_get d "item_revision").
    change (dict_get "content_hash" (event_payload e)) with (doc_get d "content_hash").
    by rewrite Hgen, Z.eqb_refl, Hacc, Krev, Khash.
Qed.
End Commit.

Lemma steady_generation s now c : steady s -> stored_control s uid now c -> account_generation c = generation.
Proof.
  intros Hs (p & d & Hp & Hd & Hc). destruct (sd_control _ _ _ Hs) as (q & raw & Hq & Hraw & Hg).
  assert (q = p) as -> by congruence. assert (raw = d) as -> by congruence.
  destruct (Hg now) as (c' & Hc' & <-). congruence.
Qed.

(** An apply of the ledger makes progress: it keeps the events there are, and each row
    it changes comes with pending events that name its new state. *)
Theorem apply_makes_progress s s' : steady s -> ledger_apply s s' -> progress s s'.
Proof.
  intros Hs (mode & rq & now & r & Hu & H & Hs' & Hnew).
  destruct (apply_store_run _ _ _ _ _ _ H) as (ws & op_ref & c & op & Hrun & Hcm).
  destruct (decide (result_status r = apply_committed)) as [Hr|Hr].
  2:{ destruct (refused_writes _ _ _ _ _ _ (pr_writes _ _ _ _ _ _ _ _ (ar_promised _ _ _ _ _ _ _ _ Hrun)) Hr Hcm)
        as [->| ->]; [by apply progress_same|].
      eapply (progress_aside _ _ _ (rq_uid rq) "memory_operations"); [done|decide_all|done|done|apply Hrun|exact Hs']. }
  pose proof (apply_commit_step _ _ _ _ _ _ _ _ _ Hu Hrun Hr Hcm) as Hstep. split; [done| |].
  { intros q raw. by eapply outbox_kept. }
  intros id. destruct (item_ref uid id) as [p|e] eqn:Hp.
  2:{ left. apply row_same. congruence. }
  destruct (step_document _ _ _ _ _ _ _ _ _ Hstep uid "memory_items" id p Hslash ltac:(decide_all) Hp)
    as [E|(Huid & d & Hd & Hk)].
  { left. apply row_same. intros q Hq. by assert (q = p) as -> by congruence. }
  right. symmetry in Huid. destruct (sd_rows _ _ _ Hs' id p d Hp Hd) as (d' & Hparse & _ & Hname).
  assert (Hrow : row uid s' id = Some d') by (unfold row, row_of; by rewrite Hp, Hd, Hparse).
  destruct (py_eq (doc_get d' "account_generation") (VInt generation)) eqn:Hacc; [right|left; by exists d'].
  assert (Hitem : d ∈ memory_items r /\ text_or d "memory_id" = id) by (inversion Hk; simplify_eq; done).
  destruct Hitem as [Hin Hid]. intros t Ht.
  destruct (pr_commit _ _ _ _ _ _ _ _ (ar_promised _ _ _ _ _ _ _ _ Hrun) Hr) as (r0 & es & ex & ss & Hf).
  pose proof (cf_counted _ _ _ _ _ _ _ _ _ _ Hf) as Hcount.
  assert (Hsame : memory_items r = memory_items r0 /\ outbox_events r = outbox_events r0).
  { rewrite Hcount. unfold count_migration. case_match; [|done]. by case_match. }
  destruct Hsame as [Hitems Hevents].
  destruct (apply_cases _ _ _ _ _ _ (cf_apply _ _ _ _ _ _ _ _ _ _ Hf)) as [[Hn _]|(pt & ev & _ & Hres & Hsh)];
    [exfalso; apply Hn, Hf|].
  destruct Hsh as [_ Hnone _ _|existing d0 dn assertions items _ _ _ _ _ Hit _ Hev].
  { rewrite Hitems, Hnone in Hin. by apply elem_of_nil in Hin. }
  eapply (row_announced s s' rq now c op r op_ref ws Hstep Hnew id d d' t); try done.
  - apply (steady_generation s now); [done|]. rewrite <-Huid. apply Hrun.
  - pose proof (cr_valid _ _ _ _ Hres) as Hv. destruct (cr_identity _ _ _ _ Hres) as (Hoid & _). rewrite <-Hoid.
    unfold valid_operation in Hv. repeat (apply andb_true_iff in Hv as [Hv _]). exact Hv.
  - apply Hres.
  - by exists p.
  - by rewrite Hevents, Hev, Hitems.
Qed.

(** ** Fair interleavings of workers and applies *)
Definition ledger_regime : regime := Regime ledger_apply (worker uid) False False.

Lemma ledger_regime_fair : fair uid generation ledger_regime.
Proof. split; [exact apply_makes_progress|auto|by intros []|by intros []]. Qed.
End Ledger.
