(* ===== verification/OutboxDeletion.v ===== *)
(** * The events of a deletion

    A privacy deletion clears the content hash of a row before it announces the row,
    and the worker refuses an event without a content hash.  So no event of a
    deletion is ever delivered, in any interleaving and whatever fails: the indexes
    are cleared by other means or not at all. *)

From S2P Require Import Prelude PyValue Firestore LegalHolds MemoryText MemoryOperations MemoryModels MemoryApply MemoryRecords MemoryReceipts MemoryStore MemoryPrivacy MemoryReplacement MemoryProofs MemoryItemProofs MemoryStoreProofs MemoryPrivacyProofs MemoryReplacementProofs MemoryHistory OutboxWorker OutboxWorld OutboxProofs OutboxInvariant OutboxTheorems.
From Stdlib Require Import QArith_base Ascii.
From stdpp Require Import sorting.
Local Open Scope Z_scope.

#[local] Opaque deterministic_contract_id json_text.

(** ** Events without a content hash *)
Definition without_hash (raw : fields) : Prop :=
  exists payload, raw !! "payload" = Some (VDict payload) /\ dict_get "content_hash" payload = VNone /\
    dict_get "action" payload = VStr "delete".

Lemma without_hash_patch raw (patch : updates) :
  "payload" ∉ patch.*1 -> without_hash raw -> without_hash (apply_ops false raw patch).
Proof. intros Hk (payload & H & Hp). exists payload. split; [|done]. by rewrite apply_ops_notin. Qed.

Section Refusal.
Context {T : TextEnv} {Md : ModelEnv}.

Lemma read_payload raw payload now e :
  raw !! "payload" = Some (VDict payload) -> memory_outbox_event raw now = Ok e -> event_payload e = payload.
Proof.
  unfold memory_outbox_event. intros Hp H. unfold defaulted in H at 3. rewrite Hp in H. simpl rd_dict in H.
  repeat (let E := fresh "E" in apply res_bind_Ok in H as (? & E & H)). destruct (forallb _ _); [|discriminate H].
  injection H as <-. simpl. congruence.
Qed.

(** The worker raises before it reads anything. *)
Lemma deletion_refused uid l now : without_hash (raw_event l) -> exists e, _process_leased_event uid l now = Throw e.
Proof.
  intros (payload & Hp & Hhash & Haction). unfold _process_leased_event.
  destruct (parse_snapshot_strict _) as [e|x] eqn:He; simpl; [|by destruct x; eexists].
  apply parse_snapshot_strict_Ok in He. rewrite (read_payload _ _ _ _ Hp He), Haction. simpl.
  destruct (negb _); [by eexists|]. destruct (negb _); [by eexists|]. simpl.
  destruct (event_memory_id e) as [id|]; [|by eexists]. destruct (negb _); [by eexists|].
  assert (Hv : valid_event_fence e = false).
  { unfold valid_event_fence. rewrite (read_payload _ _ _ _ Hp He), Hhash. by case_match. }
  rewrite Hv. simpl. by eexists.
Qed.
End Refusal.

(** ** What the workers do to such an event *)
Section Kept.
Context {T : TextEnv} {Md : ModelEnv}.
Variable q : path.

(** A lease of [q] is of an event without a content hash. *)
Definition fine (l : LeasedMemoryOutboxEvent) : Prop := lease_path l = q -> without_hash (raw_event l).

Definition access_fine (c : access) : Prop :=
  match c with
  | Acknowledge l patch => lease_path l = q -> exists code n now dead at_, patch = failure_updates code n now dead at_
  | _ => True
  end.

Definition reply_fine (c : access) (r : res (reply c)) : Prop :=
  match c as c0 return res (reply c0) -> Prop with
  | Claim p _ _ _ => fun r => forall l, r = Ok (Some l) -> fine l
  | _ => fun _ => True
  end r.

(** Whatever the accesses reply, the program makes fine accesses and returns what [Q] says. *)
Fixpoint safe {A} (p : prog A) (Q : A -> Prop) : Prop :=
  match p with
  | Ret a => Q a
  | Throw _ => True
  | Do c k => access_fine c /\ forall r, reply_fine c r -> safe (k r) Q
  end.

Lemma safe_weaken {A} (p : prog A) (Q Q' : A -> Prop) : safe p Q -> (forall a, Q a -> Q' a) -> safe p Q'.
Proof. intros H HQ. induction p as [a|e|c k IH]; simpl in *; [auto|done|]. destruct H as [Hc H]. split; [done|]. auto. Qed.

Lemma safe_bind {A B} (p : prog A) (f : A -> prog B) Q R :
  safe p Q -> (forall a, Q a -> safe (f a) R) -> safe (p ≫= f) R.
Proof. intros H Hf. induction p as [a|e|c k IH]; simpl in *; [auto|done|]. destruct H as [Hc H]. split; [done|]. auto. Qed.

Lemma safe_then {A B} (p : prog A) (f : A -> prog B) R :
  safe p (fun _ => True) -> (forall a, safe (f a) R) -> safe (p ≫= f) R.
Proof. intros H Hf. eapply safe_bind; [exact H|auto]. Qed.

Lemma safe_try {A} (p : prog A) h Q : safe p Q -> (forall e, safe (h e) Q) -> safe (try_except p h) Q.
Proof. intros H Hh. induction p as [a|e|c k IH]; simpl in *; [done|auto|]. destruct H as [Hc H]. split; [done|]. auto. Qed.

Lemma safe_raise {A} (r : res A) : safe (raise r) (fun _ => True).
Proof. by destruct r. Qed.

Lemma safe_parsed {A} code (r : res A) : safe (parsed code r) (fun _ => True).
Proof. destruct r as [a|e]; [done|]. by destruct e. Qed.

Lemma safe_stream q' : safe (call (Stream q')) (fun _ => True).
Proof. split; [done|]. intros r _. apply safe_raise. Qed.

Lemma safe_get p : safe (call (Get p)) (fun _ => True).
Proof. split; [done|]. intros r _. apply safe_raise. Qed.

Lemma safe_effect e code : safe (_require_side_effect_success e code) (fun _ => True).
Proof. split; [done|]. by intros [[]|] _. Qed.

(** Programs that only read and write the indexes. *)
Ltac walk_with known :=
  repeat first
    [ done | known
    | apply safe_get | apply safe_stream | apply safe_raise | apply safe_parsed | apply safe_effect
    | apply safe_then; [|intros ?]
    | apply safe_try; [|intros ?]
    | case_match ].
Ltac walk := walk_with fail.

Lemma safe_load uid id now : safe (_load_authoritative_projection_state uid id now) (fun _ => True).
Proof.
  unfold _load_authoritative_projection_state, read_account_deletion_projection_fence, _load_control_state, _load_memory_item.
  walk.
Qed.

Lemma safe_perform event uid id st first :
  safe (_perform_authoritative_side_effect event uid id st first) (fun _ => True).
Proof. unfold _perform_authoritative_side_effect. walk. Qed.

Lemma safe_deliver attempts event uid id st first now :
  safe (_deliver_authoritative_projection_state attempts event uid id st first now) (fun _ => True).
Proof.
  revert st first. induction attempts as [|n IH]; intros st first; simpl; [done|].
  apply safe_then; [apply safe_perform|intros action]. apply safe_then.
  - apply safe_try; [apply safe_load|]. by intros [].
  - intros observed. case_match; [done|apply IH].
Qed.

Lemma safe_process uid l now : safe (_process_leased_event uid l now) (fun _ => True).
Proof.
  unfold _process_leased_event, process_barrier, process_memory_event, _load_control_state.
  walk_with ltac:(first [apply safe_deliver | apply safe_load]).
Qed.

Lemma safe_failure l c code now s : safe (_settle_failure l c code now s) (fun _ => True).
Proof.
  unfold _settle_failure. apply safe_then; [walk|intros at_]. apply safe_then; [|done].
  split; [intros _; by eexists _, _, _, _, _|]. by intros [] _.
Qed.

(** Only an event of another path is settled as delivered. *)
Lemma safe_settle uid l c now s :
  fine l ->
  safe (outcome ← processed_outcome uid l now;
        match outcome with inl o => settle_outcome l o now s | inr code => _settle_failure l c code now s end)
    (fun _ => True).
Proof.
  intros Hl. destruct (decide (lease_path l = q)) as [Hq|Hq].
  - destruct (deletion_refused uid l now (Hl Hq)) as [e He]. unfold processed_outcome. rewrite He. apply safe_failure.
  - apply safe_then.
    + unfold processed_outcome. apply safe_try; [|done]. apply safe_then; [apply safe_process|done].
    + intros [o|code]; [|apply safe_failure]. unfold settle_outcome. apply safe_then; [|done].
      split; [by intros ?|]. by intros [] _.
Qed.

Lemma safe_leases uid c now leases s : Forall fine leases -> safe (process_leases uid c now leases s) (fun _ => True).
Proof.
  intros H. revert s. induction H as [|l leases Hl _ IH]; intros s; [done|].
  pose proof (safe_settle uid l c now s Hl) as Hs. simpl. revert Hs.
  generalize (processed_outcome uid l now). intros p. induction p as [x|e|a k IHp]; simpl; intros Hs.
  - by eapply safe_then; [exact Hs|].
  - done.
  - destruct Hs as [Ha Hs]. split; [done|]. auto.
Qed.

Lemma safe_candidates worker now expires limit claimed ordered :
  Forall fine claimed -> safe (claim_candidates worker now expires limit claimed ordered) (Forall fine).
Proof.
  revert claimed. induction ordered as [|[p raw] ordered IH]; intros claimed Hc; simpl; [done|].
  case_match; [done|]. split; [done|]. intros [[l|]|e] Hr; simpl; [|by apply IH|done].
  apply IH, Forall_app. split; [done|]. constructor; [by apply Hr|done].
Qed.

Lemma safe_queries snapshots queries : safe (collect_queries snapshots queries) (fun _ => True).
Proof. revert snapshots. induction queries as [|x queries IH]; intros snapshots; [done|].
  change (safe (rows ← call (Stream x); snapshots ← raise (_collect_supported_snapshots snapshots rows);
    collect_queries snapshots queries) (fun _ => True)).
  apply safe_then; [apply safe_stream|intros rows]. apply safe_then; [apply safe_raise|intros s]. apply IH.
Qed.

Lemma safe_tick uid c now : safe (run_canonical_memory_outbox_worker_tick uid c now) (fun _ => True).
Proof.
  unfold run_canonical_memory_outbox_worker_tick. apply safe_then; [apply safe_raise|intros _].
  apply (safe_bind _ _ (fun o => match o with Some l => Forall fine l | None => True end)).
  - apply safe_try; [|done]. eapply (safe_bind _ _ (Forall fine)); [|done].
    unfold lease_canonical_memory_outbox_events. case_match; [done|].
    apply safe_then; [apply safe_raise|intros collection]. apply safe_then; [apply safe_queries|intros snapshots].
    apply safe_then; [apply safe_raise|intros duration]. apply safe_then; [apply safe_raise|intros expires].
    by apply safe_candidates.
  - intros [l|] Hl; [by apply safe_leases|done].
Qed.

Lemma safe_drain uid c now n ticks s : safe (drain_ticks n uid c now ticks s) (fun _ => True).
Proof.
  revert ticks s. induction n as [|n IH]; intros ticks s; simpl; [done|].
  apply safe_then; [apply safe_tick|intros summary]. case_match; [done|apply IH].
Qed.

Lemma safe_worker uid p : worker uid p -> safe p (fun _ => True).
Proof.
  intros [c now|run_id now n]; unfold forget; (apply safe_then; [|done]); [apply safe_tick|apply safe_drain].
Qed.

(** ** Every interleaving *)

(** The document [q] is an event that was not delivered. *)
Definition waiting (s : db) : Prop :=
  exists raw, s !! q = Some raw /\ without_hash raw /\ v_is (doc_get raw "status") "delivered" = false.

(** Programs start as workers, and the rest of the backend leaves [q] alone. *)
Record leaves_alone (R : regime) : Prop := {
  la_starts : forall p, starts R p -> exists uid, worker uid p;
  la_environment : forall s s', environment R s s' -> s' !! q = s !! q
}.

Lemma waiting_other s p d : p <> q -> waiting s -> waiting (<[p := d]> s).
Proof. intros Hne (raw & H & Hr). exists raw. by rewrite lookup_insert_ne. Qed.

Lemma exec_waiting c w :
  access_fine c -> waiting (store w) -> waiting (store (exec c w).2) /\ reply_fine c (exec c w).1.
Proof.
  intros Hc (raw & Hraw & Hh & Hs). destruct c as [x|p worker now expires|p|e|l patch].
  - split; [by exists raw|done].
  - destruct (claim_exec w p worker now expires) as [(r & He & Hr)|(raw' & epoch & Hraw' & He)]; rewrite He; simpl.
    + split; [by exists raw|]. intros l ->. by destruct (Hr l).
    + split; [|by intros l [= <-] Hp; simpl in Hp; subst p; simpl; assert (raw' = raw) as -> by congruence].
      destruct (decide (p = q)) as [->|Hne]; [|apply waiting_other; [done|by exists raw]].
      assert (raw' = raw) as -> by congruence. eexists. rewrite lookup_insert_eq. split; [done|].
      split; [apply without_hash_patch; [apply (bool_decide_unpack _); vm_compute; exact I|done]|]. by rewrite doc_get_apply.
  - split; [by exists raw|done].
  - split; [|done]. exists raw. by destruct e.
  - split; [|done]. destruct (ack_exec w l patch) as [(r & ->)|(raw' & Hraw' & ->)]; simpl; [by exists raw|].
    destruct (decide (lease_path l = q)) as [Hq|Hne]; [|apply waiting_other; [done|by exists raw]].
    destruct (Hc Hq) as (code & n & now & dead & at_ & ->). rewrite Hq in *. assert (raw' = raw) as -> by congruence.
    eexists. rewrite lookup_insert_eq. split; [done|]. split; [|rewrite doc_get_apply; by destruct dead].
    apply without_hash_patch; [|done]. destruct dead; apply (bool_decide_unpack _); vm_compute; exact I.
Qed.

Definition all_safe (ts : list thread) : Prop := Forall (fun t => safe (program t) (fun _ => True)) ts.

Lemma waiting_step R x y :
  leaves_alone R -> step R x y -> waiting (store x.1) /\ all_safe x.2 -> waiting (store y.1) /\ all_safe y.2.
Proof.
  intros [Hstart Henv] Hstep [Hw Hts]. unfold all_safe in *.
  assert (Hat : forall ts1 t ts2, Forall (fun t => safe (program t) (fun _ => True)) (ts1 ++ t :: ts2) ->
    safe (program t) (fun _ => True) /\ forall t', safe (program t') (fun _ => True) ->
      Forall (fun t => safe (program t) (fun _ => True)) (ts1 ++ t' :: ts2)).
  { intros ts1 t ts2 [H1 [Ht H2]%Forall_cons]%Forall_app. split; [done|]. intros t' Ht'. apply Forall_app. split; [done|].
    by constructor. }
  destruct Hstep as [w ts1 c k held ts2 t Hm|w ts1 c k held r ts2 Hf Hr|w ts1 c k held r ts2 t Hm Hf Hr|w ts1 t ts2|w ts p Hp|w s ts He];
    simpl in *.
  - destruct (Hat _ _ _ Hts) as [[Hc Hk] Hput]. destruct (exec_waiting c w Hc Hw) as [Hw' Hr]. split; [done|].
    apply Hput. simpl. by apply Hk.
  - destruct (Hat _ _ _ Hts) as [[Hc Hk] Hput]. split; [done|]. apply Hput, Hk. destruct c; try done.
    destruct Hr as [e ->]. done.
  - destruct (Hat _ _ _ Hts) as [[Hc Hk] Hput]. destruct (exec_waiting c w Hc Hw) as [Hw' _]. split; [done|].
    apply Hput, Hk. destruct c; try done. destruct Hr as [e ->]. done.
  - split; [done|]. apply Forall_app in Hts as [H1 [_ H2]%Forall_cons]. by apply Forall_app.
  - split; [done|]. apply Forall_app. split; [done|]. constructor; [|done]. destruct (Hstart p Hp) as [uid Hu]. by eapply safe_worker.
  - split; [|done]. destruct Hw as (raw & Hraw & H). exists raw. split; [|done]. by rewrite (Henv _ _ He).
Qed.

Lemma waiting_steps R w0 w ts :
  leaves_alone R -> rtc (step R) (w0, []) (w, ts) -> waiting (store w0) -> waiting (store w).
Proof.
  intros HR Hsteps Hw.
  assert (H : forall x y, rtc (step R) x y -> waiting (store x.1) /\ all_safe x.2 -> waiting (store y.1) /\ all_safe y.2).
  { induction 1 as [|x y z Hxy _ IH]; [done|]. intros Hx. apply IH. by eapply waiting_step. }
  apply (H _ _ Hsteps). split; [done|constructor].
Qed.
End Kept.

(** ** The events of a privacy deletion *)
Section Deletion.
Context {T : TextEnv} {Md : ModelEnv} {St : StoreEnv}.

Lemma deletion_event_data uid d committed op_id reason now e :
  doc_get d "content_hash" = VNone -> e ∈ _privacy_delete_events uid d committed op_id reason now ->
  without_hash (event_data e) /\ v_is (doc_get (event_data e) "status") "delivered" = false.
Proof.
  intros Hd (t & -> & _)%list_elem_of_fmap. split; [|done]. eexists. split; [reflexivity|]. simpl. by rewrite Hd.
Qed.

(** C11: No privacy deletion reaches the indexes through the outbox.  For each row that
    a deletion reports, its search and vector events are in the outbox when the
    deletion returns, and no worker ever settles them as delivered, in any
    interleaving, with any failures and retries: the deletion has cleared the content
    hash that the worker requires of an event. *)
Theorem deletions_never_reach_the_indexes uid reason observed expected preserved token review now s t s1 d type_ :
  no_slash uid ->
  tombstone_memory_items_firestore uid reason observed expected preserved token review now s = Ok (t, s1) ->
  d ∈ tombstone_items t -> type_ ∈ [projection_sync; vector_sync] ->
  exists why op_id e q, e ∈ _privacy_delete_events uid d (tombstone_control t) op_id why now /\ event_type e = type_ /\
    outbox_ref uid (event_id e) = Ok q /\ waiting q s1 /\
    forall R pr vs w ts, leaves_alone q R -> rtc (step R) (World s1 pr vs, []) (w, ts) -> waiting q (store w).
Proof.
  intros Hu H Hd Ht.
  destruct (tombstone_store_run _ _ _ _ _ _ _ _ _ _ _ H) as (ws & op_ref & c & op & r & ids & items & Hrun & Hc).
  pose proof (deletion_commit_step _ _ _ _ _ _ _ _ _ _ _ _ _ Hu Hrun Hc) as Hstep.
  pose proof (tr_commit _ _ _ _ _ _ _ _ _ _ _ _ Hrun) as Hdc.
  rewrite (tr_items _ _ _ _ _ _ _ _ _ _ _ _ Hrun) in Hd. rewrite (tr_control _ _ _ _ _ _ _ _ _ _ _ _ Hrun).
  destruct (dc_events _ _ _ _ _ _ _ _ _ Hdc) as [why Hev].
  assert (He : exists e, e ∈ _privacy_delete_events uid d (control_state r) (operation_id op) why now /\ event_type e = type_).
  { eexists. split; [apply list_elem_of_fmap; exists type_; split; [reflexivity|exact Ht]|done]. }
  destruct He as (e & He & Hty).
  assert (Hin : e ∈ outbox_events r) by (rewrite Hev; apply list_elem_of_bind; by exists d).
  destruct (step_event _ _ _ _ _ _ _ _ _ Hstep e Hin) as (q & e' & Hq & Hs & He' & _).
  assert (Hw : waiting q s1).
  { rewrite Hev in He'. apply list_elem_of_bind in He' as (d' & He' & Hd').
    assert (Hh : doc_get d' "content_hash" = VNone).
    { apply list_elem_of_lookup in Hd' as [n Hn].
      by destruct (Forall2_lookup_r _ _ _ _ _ (dc_items _ _ _ _ _ _ _ _ _ Hdc) Hn) as (x & _ & _ & _ & _ & ?). }
    destruct (deletion_event_data _ _ _ _ _ _ _ Hh He'). by exists (event_data e'). }
  exists why, (operation_id op), e, q. split_and!; [done..|]. intros R pr vs w ts HR Hsteps. by eapply waiting_steps.
Qed.
End Deletion.
