(* ===== verification/OutboxDemo.v ===== *)
(** * Concrete runs of the outbox worker

    A memory is added to an account, a worker brings the indexes up to date, the
    ledger corrects the memory and the worker runs again; the theorems on the outbox
    are applied to this run; then a run whose verification read fails. *)

From S2P Require Import Prelude PyValue Firestore LegalHolds LegalHoldProofs Sha256 MemoryText MemoryOperations MemoryModels MemoryPromotion MemoryApply MemoryRecords MemoryReceipts MemoryStore MemoryPrivacy MemoryReplacement MemoryProofs MemoryItemProofs MemoryTheorems MemoryStoreProofs MemoryPrivacyProofs MemoryReplacementProofs MemoryHistory MemoryRows MemoryStoreTheorems MemoryDeletion MemoryDemo MemoryStoreDemo OutboxWorker OutboxWorld OutboxProofs OutboxInvariant OutboxTheorems OutboxLedger OutboxDeletion.
From Stdlib Require Import QArith_base Ascii.
Local Open Scope Z_scope.

(** ** A thread on its own *)
Section Solo.
Context {T : TextEnv} {Md : ModelEnv}.

(** The world when the thread returns, if it claims nothing twice. *)
Fixpoint solo {A} (p : prog A) (working : list path) (w : world) : option (A * list path * world) :=
  match p with
  | Ret a => Some (a, working, w)
  | Throw _ => None
  | Do c k =>
      let free := match c with Claim q _ _ _ => negb (bool_decide (q ∈ working)) | _ => true end in
      if free then let '(r, w') := exec c w in solo (k r) (after_call c r working) w' else None
  end.

Lemma solo_steps R (p : prog unit) working w a working' w' :
  solo p working w = Some (a, working', w') ->
  rtc (step R) (w, [Thread p working]) (w', [Thread (Ret a) working']).
Proof.
  revert working w. induction p as [b|e|c k IH]; intros working w H; simpl in H.
  - injection H as -> -> ->. apply rtc_refl.
  - discriminate H.
  - destruct (match c with Claim q _ _ _ => _ | _ => _ end) eqn:Hfree; [|discriminate H].
    destruct (exec c w) as [r w1] eqn:E. eapply rtc_l; [|exact (IH r _ w1 H)].
    pose proof (step_call R w [] c k working []) as Hstep. rewrite E in Hstep. simpl in Hstep. apply Hstep.
    destruct c; simpl; try exact I. right. repeat constructor.
    apply negb_true_iff, bool_decide_eq_false in Hfree. exact Hfree.
Qed.
End Solo.

Section Demo.
#[local] Existing Instance plain_text.
#[local] Existing Instance plain_models.
#[local] Existing Instance plain_store.

Definition demo_config : CanonicalMemoryOutboxWorkerConfig := WorkerConfig "worker-1" 10 50 300 5 30 1800.

Definition demo_tick : prog unit := forget (run_canonical_memory_outbox_worker_tick "u" demo_config (now + 1)).

Abbreviation stored_add := (apply_long_term_patch_firestore "write" demo_request now demo_store) (only parsing).

Definition fresh_world {A} (x : res (A * db)) : option world :=
  match x with Ok (_, s) => Some (World s ∅ ∅) | Raise _ => None end.

Definition after_add : option world := fresh_world stored_add.
Definition after_tick : option (unit * list path * world) := after_add ≫= solo demo_tick [].

(** ** The world after the addition *)
Definition item_path : path := ["users"; "u"; "memory_items"; "m1"].

Definition event_is_b (t : MemoryOutboxEventType) (name : string) (e : MemoryOutboxEvent) : bool :=
  bool_decide (event_uid e = "u") && bool_decide (event_id e = name) && bool_decide (event_type_value (event_type e) = event_type_value t)
  && negb (v_is (dict_get "action" (event_payload e)) "barrier")
  && match v_in_set (dict_get "action" (event_payload e)) ["upsert"; "delete"] with Ok b => b | Raise _ => false end
  && bool_decide (event_memory_id e = Some "m1") && v_is (dict_get "memory_id" (event_payload e)) "m1".

(** A document of [s] is an open event of the type on the memory. *)
Definition announces (s : db) (t : MemoryOutboxEventType) : bool :=
  existsb (fun '(q, raw) =>
    in_collection (outbox_of "u") q && negb (v_is (doc_get raw "status") "delivered")
    && match memory_outbox_event raw 0 with
       | Ok e => event_is_b t (name q) e && bool_decide (stale_reason e (state "u" 1 s "m1") = None)
       | Raise _ => false
       end) (map_to_list s).

(** Every row of the account is the row of [m1]. *)
Definition only_m1 (s : db) : bool :=
  forallb (fun '(p, raw) =>
    negb (bool_decide (take 3 p = ["users"; "u"; "memory_items"]))
    || bool_decide (p = item_path) &&
       match parse_item raw with
       | Ok d => bool_decide (doc_get d "uid" = VStr "u") && bool_decide (doc_get d "memory_id" = VStr "m1")
       | Raise _ => false
       end) (map_to_list s).

Definition ready (s : db) : bool :=
  announces s projection_sync && announces s vector_sync && only_m1 s
  && negb (account_deletion_blocks_access (account_status (s !! ["account_deletions"; "u"])))
  && match s !! control_path with
     | Some raw => match memory_control_state raw 0 with
               | Ok c => (account_generation c =? 1) && valid_control c && bool_decide (raw = control_data c)
               | Raise _ => false
               end
     | None => false
     end.

Lemma ready_after_add : match after_add with Some w => ready (store w) | None => false end = true.
Proof. vm_compute. reflexivity. Qed.

Lemma items_of_m1 s id p raw :
  only_m1 s = true -> item_ref "u" id = Ok p -> s !! p = Some raw ->
  id = "m1" /\ exists d, parse_item raw = Ok d /\ doc_get d "uid" = VStr "u" /\ doc_get d "memory_id" = VStr id.
Proof.
  unfold only_m1. rewrite forallb_forall. intros H Hp Hs.
  specialize (H (p, raw)). rewrite <-list_elem_of_In, elem_of_map_to_list in H. specialize (H Hs). cbv beta iota in H.
  assert (Hpre : take 3 p = ["users"; "u"; "memory_items"]).
  { destruct (memory_ref_Ok "u" "memory_items" id p) as (w & ws & -> & _);
      [exact plain_uid|apply (bool_decide_unpack _); vm_compute; exact I|exact Hp|reflexivity]. }
  rewrite bool_decide_true in H by exact Hpre. rewrite orb_false_l in H. apply andb_true_iff in H as [->%bool_decide_eq_true H].
  assert (id = "m1") as ->.
  { destruct (same_document "u" "memory_items" id "u" "memory_items" "m1" item_path Hp eq_refl plain_uid plain_uid)
      as (_ & _ & E); try (apply (bool_decide_unpack _); vm_compute; exact I). exact E. }
  split; [done|]. destruct (parse_item raw) as [d|]; [|discriminate H]. exists d.
  apply andb_true_iff in H as [?%bool_decide_eq_true ?%bool_decide_eq_true]. done.
Qed.

Lemma announced s t :
  t = projection_sync \/ t = vector_sync -> announces s t = true -> exists q, document_for "u" 1 s q t "m1".
Proof.
  intros Ht. unfold announces. rewrite existsb_exists. intros ([q raw] & Hin & H). cbv beta iota in H.
  rewrite <-list_elem_of_In, elem_of_map_to_list in Hin. apply andb_true_iff in H as [[Hq Ho]%andb_true_iff H].
  destruct (memory_outbox_event raw 0) as [e|] eqn:He; [|discriminate H].
  apply andb_true_iff in H as [H Hst%bool_decide_eq_true]. exists q, raw, e.
  split_and!; [done|done| |by apply negb_true_iff|by left]. split; [done|].
  unfold event_is_b in H. repeat (apply andb_true_iff in H as [H ?]).
  repeat match goal with H : bool_decide _ = true |- _ => apply bool_decide_eq_true in H end.
  split; try done; [by destruct (event_type e), t|by apply negb_true_iff| |by exists item_path].
  by destruct (v_in_set _ _) as [[]|].
Qed.

Lemma ready_steady s : ready s = true -> steady "u" 1 s.
Proof.
  unfold ready. intros [[[_ Hi]%andb_true_iff Hm]%andb_true_iff Hc]%andb_true_iff.
  destruct (s !! control_path) as [raw|] eqn:Hraw; [|discriminate Hc].
  destruct (memory_control_state raw 0) as [c|] eqn:Hctl; [|discriminate Hc].
  apply andb_true_iff in Hc as [[Hg%Z.eqb_eq Hv]%andb_true_iff ->%bool_decide_eq_true]. split.
  - exists control_path, (control_data c). split_and!; [done|done|]. intros at_. exists c. split; [|exact Hg].
    by apply control_roundtrip.
  - intros p [= <-]. by apply negb_true_iff.
  - intros id p raw' Hp Hs. by destruct (items_of_m1 s id p raw' Hi Hp Hs).
Qed.

Lemma ready_accounted s : ready s = true -> accounted "u" 1 (World s ∅ ∅).
Proof.
  unfold ready. intros [[[[Ha Hb]%andb_true_iff Hi]%andb_true_iff _]%andb_true_iff _]%andb_true_iff t id Ht.
  destruct (row "u" s id) as [d|] eqn:Hrow.
  - right. unfold row in Hrow. destruct (item_ref "u" id) as [p|] eqn:Hp; [|discriminate Hrow].
    unfold row_of in Hrow. destruct (s !! p) as [raw|] eqn:Hs; [|discriminate Hrow].
    destruct (items_of_m1 s id p raw Hi Hp Hs) as [-> _]. apply announced; [done|]. by destruct Ht as [-> | ->].
  - left. right. exists (OutboxProofs.state_of 1 None). simpl store. unfold state. rewrite Hrow. split; [reflexivity|].
    destruct Ht as [-> | ->]; reflexivity.
Qed.
(** ** The end of a run *)
Definition drained (s : db) : bool :=
  forallb (fun '(q, raw) => negb (in_collection (outbox_of "u") q) || v_is (doc_get raw "status") "delivered")
    (map_to_list s).

Lemma drained_all s q raw :
  drained s = true -> s !! q = Some raw -> in_collection (outbox_of "u") q = true ->
  v_is (doc_get raw "status") "delivered" = true.
Proof.
  unfold drained. rewrite forallb_forall. intros H Hs Hq. specialize (H (q, raw)).
  rewrite <-list_elem_of_In, elem_of_map_to_list in H. specialize (H Hs). cbv beta iota in H. rewrite Hq in H. exact H.
Qed.

(** ** The events of a deletion *)
Abbreviation gated_add := (apply_long_term_patch_firestore "write" demo_request now gated_store) (only parsing).

Lemma deletions_never_reach_the_indexes_witness :
  exists r s t s1 d e q, gated_add = Ok (r, s) /\ deletes r s = Ok (t, s1) /\ d ∈ tombstone_items t /\
    event_type e = vector_sync /\ outbox_ref "u" (event_id e) = Ok q /\ waiting q s1.
Proof.
  destruct (commits_store_Ok _ gated_add_commits) as (r & s & d0 & items & E & Hc & Hi).
  pose proof gated_deletes as H. rewrite E in H. destruct (deletes r s) as [[t s1]|] eqn:Ed; [|discriminate H].
  apply bool_decide_eq_true in H. destruct (tombstone_items t) as [|d ds] eqn:Et; [discriminate H|].
  destruct (deletions_never_reach_the_indexes "u" "user request" (control_state r) (memory_items r) ∅ "token" None now s t s1
    d vector_sync plain_uid Ed ltac:(rewrite Et; by left) ltac:(by right; left)) as (why & op_id & e & q & _ & Ht & Hq & Hw & _).
  exists r, s, t, s1, d, e, q. rewrite Et. split_and!; [exact E|exact Ed|by left|exact Ht|exact Hq|exact Hw].
Defined.
End Demo.

(** ** An addition, a delivery, a correction and its delivery *)
Section Corrected.
#[local] Existing Instance plain_text.
#[local] Existing Instance plain_models.
#[local] Existing Instance plain_store.

(** The addition [r] is followed by a correction of the memory. *)
Definition update_payload : fields := list_to_map
  [("patch_id", VStr "p2"); ("packet_id", VStr "k1"); ("run_id", VStr "r1"); ("idempotency_key", VStr "i2");
   ("decision", VStr "update"); ("result_status", VStr "active"); ("target_memory_id", VStr "m1");
   ("memory_text", VStr "likes coffee"); ("evidence_ids", VList [VStr "e1"])].

Definition update_operation (c : MemoryControlState) : res MemoryOperation :=
  new "u" user_mutation (Some "k1") (Some "m1") ["e1"] (demo_payload "update" (Some "likes coffee") (Some "m1") None) 1 1
    (Some (head_commit_id c)) None now.

Definition update_request (op : MemoryOperation) : apply_request :=
  Request "u" (operation_id op) update_payload (Some op) (Some [demo_evidence]) None None None None false false.

Definition update_with (x : res MemoryOperation) (s : db) : res (ApplyResult * db) :=
  match x with Ok op => apply_long_term_patch_firestore "write" (update_request op) now s | Raise e => Raise e end.

Definition updates_memory (r : ApplyResult) (s : db) : res (ApplyResult * db) :=
  update_with (update_operation (control_state r)) s.

Definition tick_at (now : Z) : prog unit := forget (run_canonical_memory_outbox_worker_tick "u" demo_config now).

Definition text_of (d : option item) : value := match d with Some d => doc_get d "content" | None => VNone end.

Lemma updates_apply r s r' s' :
  updates_memory r s = Ok (r', s') ->
  exists rq, rq_uid rq = "u" /\ apply_long_term_patch_firestore "write" rq now s = Ok (r', s').
Proof.
  unfold updates_memory, update_with. destruct (update_operation (control_state r)) as [op|e]; [|discriminate].
  intros E. by exists (update_request op).
Qed.

(** What [ledger_apply] asks of the result [r] of an apply on [s]. *)
Definition applies_cleanly (s : db) (r : ApplyResult) : bool :=
  forallb (fun e => bool_decide (no_slash (event_id e)) && nonblank (event_id e)
                    && bool_decide (s !! ["users"; "u"; "memory_outbox"; event_id e] = None)) (outbox_events r)
  && bool_decide (NoDup (event_id <$> outbox_events r))
  && forallb (fun d => match parse_item d with
                       | Ok d' => forallb (fun k => py_eq (doc_get d' k) (doc_get d k)) compared_keys
                       | Raise _ => true
                       end) (memory_items r).

Lemma cleanly_apply r s r' s' :
  updates_memory r s = Ok (r', s') -> applies_cleanly s r' = true -> ready s' = true -> ledger_apply "u" 1 s s'.
Proof.
  intros (rq & Hu & H)%updates_apply [[He Hn%bool_decide_eq_true]%andb_true_iff Hi]%andb_true_iff Hr%ready_steady.
  exists "write", rq, now, r'. rewrite Hu. split_and!; [exact plain_uid|exact H|exact Hr|]. intros _. split_and!; [|exact Hn|].
  - apply Forall_forall. intros e Hin%list_elem_of_In. rewrite forallb_forall in He.
    pose proof (He e Hin) as [[H1%bool_decide_eq_true H2]%andb_true_iff H3%bool_decide_eq_true]%andb_true_iff. by split.
  - apply Forall_forall. intros d Hin%list_elem_of_In d' Hd. rewrite forallb_forall in Hi. specialize (Hi d Hin).
    cbv beta in Hi. rewrite Hd in Hi. apply Forall_forall. intros k Hk%list_elem_of_In. rewrite forallb_forall in Hi. by apply Hi.
Qed.

#[local] Opaque updates_memory.

(** The worlds after the addition, its delivery, the correction and its delivery. *)
Definition corrected (x : res (ApplyResult * db)) : option (db * world * db * world) :=
  match x with
  | Ok (r, s) =>
      '(_, _, w) ← solo demo_tick [] (World s ∅ ∅);
      match updates_memory r (store w) with
      | Ok (r', s') =>
          if applies_cleanly (store w) r' && ready s && ready s'
          then '(_, _, w') ← solo (tick_at (now + 2)) [] (with_store w s'); Some (s, w, s', w')
          else None
      | Raise _ => None
      end
  | Raise _ => None
  end.

Lemma one_tick R p w w' u wk : worker "u" p -> (forall q, worker "u" q -> starts R q) -> solo p [] w = Some (u, wk, w') ->
  rtc (step R) (w, []) (w', []).
Proof.
  intros Hp HR Hs. eapply rtc_l; [apply (step_start R w [] p), HR, Hp|].
  eapply rtc_r; [by apply solo_steps|]. exact (step_gone R w' [] (Thread (Ret u) wk) []).
Qed.

Lemma corrected_run x s w s' w' :
  corrected x = Some (s, w, s', w') ->
  ready s = true /\ rtc (step (ledger_regime "u" 1)) (World s ∅ ∅, []) (w', []) /\ ledger_apply "u" 1 (store w) s'.
Proof.
  unfold corrected. destruct x as [[r s0]|]; [|discriminate].
  destruct (solo demo_tick [] (World s0 ∅ ∅)) as [[[u wk] w0]|] eqn:E0; [|discriminate].
  unfold mbind, option_bind. destruct (updates_memory r (store w0)) as [[r' s1]|] eqn:Eu; [|discriminate].
  destruct (applies_cleanly (store w0) r' && ready s0 && ready s1) eqn:Ec; [|discriminate].
  destruct (solo (tick_at (now + 2)) [] (with_store w0 s1)) as [[[u' wk'] w1]|] eqn:E1; [|discriminate].
  intros [= -> -> -> ->]. apply andb_true_iff in Ec as [[Hc H0]%andb_true_iff H1].
  pose proof (cleanly_apply _ _ _ _ Eu Hc H1) as Hl. split_and!; [exact H0| |exact Hl].
  etransitivity; [eapply (one_tick _ demo_tick); [apply worker_tick|auto|exact E0]|].
  eapply rtc_l; [exact (step_other (ledger_regime "u" 1) w s' [] Hl)|].
  eapply (one_tick _ (tick_at (now + 2))); [apply worker_tick|auto|exact E1].
Qed.

Definition corrected_well : bool :=
  match corrected (apply_long_term_patch_firestore "write" demo_request now demo_store) with
  | Some (_, w, _, w') =>
      drained (store w') && bool_decide (text_of (entry vector_sync "u" "m1" w) = VStr "likes tea")
      && bool_decide (text_of (entry vector_sync "u" "m1" w') = VStr "likes coffee")
  | None => false
  end.

Lemma corrected_well_true : corrected_well = true.
Proof. vm_compute. reflexivity. Qed.

Lemma corrected_Ok :
  exists s w s' w', corrected (apply_long_term_patch_firestore "write" demo_request now demo_store) = Some (s, w, s', w') /\
    drained (store w') = true /\ text_of (entry vector_sync "u" "m1" w) = VStr "likes tea" /\
    text_of (entry vector_sync "u" "m1" w') = VStr "likes coffee".
Proof.
  pose proof corrected_well_true as H. unfold corrected_well in H.
  destruct (corrected _) as [[[[s w] s'] w']|]; [|discriminate H].
  apply andb_true_iff in H as [[Hd Ht%bool_decide_eq_true]%andb_true_iff Hc%bool_decide_eq_true]. by exists s, w, s', w'.
Qed.

(** ** The theorems on this run *)
Lemma stale_entry_has_an_open_event_witness :
  exists s w s' w', corrected (apply_long_term_patch_firestore "write" demo_request now demo_store) = Some (s, w, s', w') /\
    ledger_apply "u" 1 (store w) s' /\
    (in_step "u" 1 w' projection_sync "m1" \/ open_event "u" (store w') projection_sync "m1").
Proof.
  destruct corrected_Ok as (s & w & s' & w' & E & _). destruct (corrected_run _ _ _ _ _ E) as (Hr & Hrun & Hl).
  exists s, w, s', w'. split_and!; [exact E|exact Hl|].
  apply (stale_entry_has_an_open_event "u" 1 plain_uid eq_refl (ledger_regime "u" 1) (World s ∅ ∅) w' [] projection_sync "m1");
    [exact (ledger_regime_fair "u" 1 plain_uid eq_refl)|exact (ready_steady _ Hr)|by apply ready_accounted|exact Hrun|by left].
Defined.

Lemma drained_index_serves_live_memories_witness :
  exists s w s' w' d, corrected (apply_long_term_patch_firestore "write" demo_request now demo_store) = Some (s, w, s', w') /\
    ledger_apply "u" 1 (store w) s' /\ entry vector_sync "u" "m1" w' = Some d /\ doc_get d "content" = VStr "likes coffee" /\
    (foreign 1 (row "u" (store w') "m1") \/ exists d', row "u" (store w') "m1" = Some d' /\ live_row d' d).
Proof.
  destruct corrected_Ok as (s & w & s' & w' & E & Hd & _ & Hc). destruct (corrected_run _ _ _ _ _ E) as (Hr & Hrun & Hl).
  destruct (entry vector_sync "u" "m1" w') as [d|] eqn:Hv; [|discriminate Hc].
  exists s, w, s', w', d. split_and!; [exact E|exact Hl|exact Hv|exact Hc|].
  apply (drained_index_serves_live_memories "u" 1 plain_uid eq_refl (ledger_regime "u" 1) (World s ∅ ∅) w' [] vector_sync "m1" d);
    [exact (ledger_regime_fair "u" 1 plain_uid eq_refl)|exact (ready_steady _ Hr)|by apply ready_accounted|exact Hrun
    | |by right|exact Hv].
  intros q raw. by apply drained_all.
Defined.
End Corrected.

(** ** A verification read that fails

    The theorems of [OutboxTheorems] assume that reads do not fail.  This run shows
    that they need it: a worker whose verification read breaks off with a transport
    error leaves the old text of a memory in the vector index while every event of the
    account is delivered. *)

(** Workers, the ledger and reads that may fail. *)
Definition failing_reads {T : TextEnv} {Md : ModelEnv} {St : StoreEnv} : regime :=
  Regime (ledger_step any_request) (worker "u") True False.

(** ** Schedules *)
Section Schedule.
#[local] Existing Instance plain_text.
#[local] Existing Instance plain_models.
#[local] Existing Instance plain_store.

Abbreviation pool := (world * list thread)%type.

Inductive move :=
| Begin (now : Z)
| Call (i : nat)
| LoseRead (i : nat)
| UpdateMemory (r : ApplyResult).

Definition unclaimed (ts : list thread) (c : access) : bool :=
  match c with Claim q _ _ _ => forallb (fun t => negb (bool_decide (q ∈ working t))) ts | _ => true end.

Definition put (ts : list thread) (i : nat) (t : thread) : list thread := take i ts ++ t :: drop (S i) ts.

(** A thread that returned has nothing to do. *)
Definition play (m : move) (x : pool) : option pool :=
  match m with
  | Begin at_ => Some (x.1, x.2 ++ [Thread (tick_at at_) []])
  | Call i =>
      match x.2 !! i with
      | Some (Thread (Do c k) working) =>
          if unclaimed x.2 c
          then let y := exec c x.1 in Some (y.2, put x.2 i (Thread (k y.1) (after_call c y.1 working)))
          else None
      | _ => Some x
      end
  | LoseRead i =>
      match x.2 !! i with
      | Some (Thread (Do (Get p) k) working) => Some (x.1, put x.2 i (Thread (k (Raise RuntimeError)) working))
      | _ => None
      end
  | UpdateMemory r =>
      match updates_memory r (store x.1) with Ok (_, s) => Some (with_store x.1 s, x.2) | Raise _ => None end
  end.

Fixpoint plays (ms : list move) (x : pool) : option pool :=
  match ms with [] => Some x | m :: ms' => y ← play m x; plays ms' y end.

Lemma update_step x s y : update_with x s = Ok y -> ledger_step any_request s y.2.
Proof.
  unfold update_with. destruct x as [op|e]; [|discriminate]. destruct y as [r' s']. intros E.
  exact (step_apply any_request "write" (update_request op) now s r' s' plain_uid I E).
Qed.

Lemma updates_step r s y : updates_memory r s = Ok y -> ledger_step any_request s y.2.
Proof. exact (update_step (update_operation (control_state r)) s y). Qed.

#[local] Opaque updates_memory.

Lemma play_steps m x y : play m x = Some y -> rtc (step failing_reads) x y.
Proof.
  destruct x as [w ts]. destruct m as [at_|i|i|r]; unfold play, fst, snd.
  - intros H. injection H as <-. apply rtc_once, step_start. exact (worker_tick "u" demo_config at_).
  - destruct (ts !! i) as [[p working]|] eqn:E; [|intros [= <-]; apply rtc_refl].
    destruct p as [a|e|c k]; [intros [= <-]; apply rtc_refl..|].
    destruct (unclaimed ts c) eqn:Hfree; [|discriminate]. intros [= <-]. apply rtc_once.
    rewrite <-(take_drop_middle _ _ _ E) at 1. apply step_call. rewrite (take_drop_middle _ _ _ E).
    destruct c; try exact I. right. unfold unclaimed in Hfree. rewrite forallb_forall in Hfree.
    apply Forall_forall. intros t Ht%list_elem_of_In. apply Hfree in Ht. by apply negb_true_iff, bool_decide_eq_false in Ht.
  - destruct (ts !! i) as [[p working]|] eqn:E; [|discriminate]. destruct p as [a|e|[] k]; try discriminate.
    intros [= <-]. apply rtc_once. rewrite <-(take_drop_middle _ _ _ E) at 1.
    apply (step_lost_request failing_reads w (take i ts) (Get p) k working (Raise RuntimeError)); [exact I|by exists RuntimeError].
  - destruct (updates_memory r (store w)) as [[r' s]|] eqn:E; [|discriminate]. intros [= <-]. apply rtc_once, step_other.
    exact (updates_step r (store w) (r', s) E).
Qed.

Lemma plays_steps ms x y : plays ms x = Some y -> rtc (step failing_reads) x y.
Proof.
  revert x. induction ms as [|m ms IH]; simpl; intros x H; [injection H as <-; apply rtc_refl|].
  destruct (play m x) as [z|] eqn:E; [|discriminate H]. etransitivity; [by eapply play_steps|by apply IH].
Qed.
End Schedule.

Section Race.
#[local] Existing Instance plain_text.
#[local] Existing Instance plain_models.
#[local] Existing Instance plain_store.

(** The first worker reads the row; the memory is corrected and a second worker brings
    the indexes up to date; the first worker writes what it read and its verification
    fails; a third worker retries the event. *)
Definition schedule (r : ApplyResult) : list move :=
  [Begin (now + 1)] ++ replicate 9 (Call 0) ++ [UpdateMemory r; Begin (now + 2)] ++ replicate 30 (Call 1)
  ++ [Call 0; LoseRead 0] ++ replicate 30 (Call 0) ++ [Begin (now + 120 * 1000000)] ++ replicate 30 (Call 2).

Definition race (x : res (ApplyResult * db)) : option (world * list thread) :=
  match x with Ok (r, s) => plays (schedule r) (World s ∅ ∅, []) | Raise _ => None end.

Abbreviation stored_add := (apply_long_term_patch_firestore "write" demo_request now demo_store) (only parsing).

Definition raced : bool :=
  match race stored_add with
  | Some (w, ts) =>
      drained (store w) && bool_decide (text_of (entry vector_sync "u" "m1" w) = VStr "likes tea")
      && bool_decide (text_of (row "u" (store w) "m1") = VStr "likes coffee")
  | None => false
  end.

Lemma raced_true : raced = true.
Proof. vm_compute. reflexivity. Qed.

(** The theorems need reads that do not fail.  After an addition and a correction,
    with no lease taken from a live worker, one verification read that ends in a
    transport error leaves the index at the old text while every event is delivered:
    the failure is recorded as processing_failed, which the retry does not repair. *)
Theorem failed_verification_loses_the_repair :
  exists w0 w ts, fresh_world stored_add = Some w0 /\ rtc (step failing_reads) (w0, []) (w, ts) /\
    (forall q raw, store w !! q = Some raw -> in_collection (outbox_of "u") q = true ->
      v_is (doc_get raw "status") "delivered" = true) /\
    text_of (entry vector_sync "u" "m1" w) = VStr "likes tea" /\
    text_of (row "u" (store w) "m1") = VStr "likes coffee".
Proof.
  pose proof raced_true as H. unfold raced, race in H. destruct stored_add as [[r s]|]; [|discriminate H].
  destruct (plays (schedule r) (World s ∅ ∅, [])) as [[w ts]|] eqn:E; [|discriminate H].
  apply andb_true_iff in H as [[Hd Hv%bool_decide_eq_true]%andb_true_iff Hr%bool_decide_eq_true].
  exists (World s ∅ ∅), w, ts. split_and!; [done|by eapply plays_steps| |exact Hv|exact Hr].
  intros q raw. by apply drained_all.
Qed.
End Race.
