(* ===== verification/AccountCutover.v ===== *)
(** * Account cutover: states, transitions, write fence and stored record
    (backend/models/account_cutover.py, config/account_cutover.py,
    utils/account_cutover/state.py, utils/account_cutover/fence.py,
    database/account_cutover.py)

    The move of a whole account from the legacy data plane to a new one.  A
    pydantic model that refuses its arguments raises [ValueError], of which
    [ValidationError] is a subclass. *)

From S2P Require Import Prelude PyValue Firestore MemoryText MemoryRecords.
From Stdlib Require Import QArith_base Ascii.
Local Open Scope Z_scope.

(** ** Configuration *)
Definition ACCOUNT_CUTOVER_COHORT : gset string := ∅.

Definition MINIMUM_SUPPORTED_BUILDS : gmap string Z :=
  list_to_map [("ios", 0); ("android", 0); ("macos", 0); ("windows", 0); ("linux", 0); ("web", 0)].

Definition DEFAULT_UI_GENERATION : Z := 0.
Definition DEFAULT_API_GENERATION : Z := 0.
Definition ACCOUNT_CUTOVER_SCHEMA_VERSION : Z := 1.

Definition is_account_cutover_cohort_member (cohort : gset string) (uid : string) : bool :=
  negb (bool_decide (uid = "")) && bool_decide (uid ∈ cohort).

(** ** Models *)
Inductive AccountCutoverState := legacy | migrating | new | rolled_back_stranded.
#[global] Instance cutover_state_eq_dec : EqDecision AccountCutoverState.
Proof. solve_decision. Defined.

Definition state_value (s : AccountCutoverState) : string :=
  match s with
  | legacy => "legacy" | migrating => "migrating" | new => "new" | rolled_back_stranded => "rolled_back_stranded"
  end.

Inductive OfflineQueueInstruction := offline_none | drain | quarantine.
#[global] Instance offline_eq_dec : EqDecision OfflineQueueInstruction.
Proof. solve_decision. Defined.

Definition offline_value (i : OfflineQueueInstruction) : string :=
  match i with offline_none => "none" | drain => "drain" | quarantine => "quarantine" end.

Inductive AccountCutoverClientAction := action_none | force_upgrade | migration_maintenance.
#[global] Instance client_action_eq_dec : EqDecision AccountCutoverClientAction.
Proof. solve_decision. Defined.

Definition action_value (a : AccountCutoverClientAction) : string :=
  match a with
  | action_none => "none" | force_upgrade => "force_upgrade" | migration_maintenance => "migration_maintenance"
  end.

Inductive AccountCutoverCheckpointPhase :=
| not_started | inventory | offline_queue_fenced | exporting | importing | verifying | cutover_ready | completed
| failed | paused.
#[global] Instance phase_eq_dec : EqDecision AccountCutoverCheckpointPhase.
Proof. solve_decision. Defined.

Definition phase_value (p : AccountCutoverCheckpointPhase) : string :=
  match p with
  | not_started => "not_started" | inventory => "inventory" | offline_queue_fenced => "offline_queue_fenced"
  | exporting => "exporting" | importing => "importing" | verifying => "verifying"
  | cutover_ready => "cutover_ready" | completed => "completed" | failed => "failed" | paused => "paused"
  end.

(** The pattern [^[A-Za-z0-9][A-Za-z0-9._:-]*$] of at most 128 characters. *)
Definition alphanumeric (c : ascii) : bool :=
  let b := byte_of c in
  ((48 <=? b) && (b <=? 57)) || ((65 <=? b) && (b <=? 90)) || ((97 <=? b) && (b <=? 122)).

Definition id_char (c : ascii) : bool := alphanumeric c || bool_decide (c ∈ ["."; "_"; ":"; "-"]%char).

Definition StableId (s : string) : bool :=
  match String.list_ascii_of_string s with
  | c :: l => alphanumeric c && forallb id_char l && (py_len s <=? 128)
  | [] => false
  end.

Record AccountCutoverRecord := CutoverRecord {
  cr_uid : string;
  cr_state : AccountCutoverState;
  cr_account_generation : Z;
  cr_ui_generation : Z;
  cr_api_generation : Z;
  cr_stranded_new_data : bool;
  cr_offline_queue_instruction : OfflineQueueInstruction;
  cr_checkpoint_phase : AccountCutoverCheckpointPhase;
  cr_checkpoint_token : option string;
  cr_manifest_id : option string;
  cr_destination_backend_bound : bool
}.

(** The constraints of the fields, which the constructor checks and [model_copy]
    does not. *)
Definition token_fits (t : option string) : bool := match t with Some s => py_len s <=? 128 | None => true end.
Definition id_fits (m : option string) : bool := match m with Some s => StableId s | None => true end.

Definition record_valid (r : AccountCutoverRecord) : bool :=
  negb (bool_decide (cr_uid r = "")) && (0 <=? cr_account_generation r) && (0 <=? cr_ui_generation r)
  && (0 <=? cr_api_generation r) && token_fits (cr_checkpoint_token r) && id_fits (cr_manifest_id r).

Definition validated_record (r : AccountCutoverRecord) : res AccountCutoverRecord :=
  if record_valid r then Ok r else Raise ValueError.

Definition persisted_payload (r : AccountCutoverRecord) : dict :=
  [("schema_version", VInt ACCOUNT_CUTOVER_SCHEMA_VERSION); ("uid", VStr (cr_uid r));
   ("state", VStr (state_value (cr_state r))); ("account_generation", VInt (cr_account_generation r));
   ("ui_generation", VInt (cr_ui_generation r)); ("api_generation", VInt (cr_api_generation r));
   ("stranded_new_data", VBool (cr_stranded_new_data r));
   ("offline_queue_instruction", VStr (offline_value (cr_offline_queue_instruction r)));
   ("checkpoint_phase", VStr (phase_value (cr_checkpoint_phase r)));
   ("checkpoint_token", opt_str (cr_checkpoint_token r)); ("manifest_id", opt_str (cr_manifest_id r));
   ("destination_backend_bound", VBool (cr_destination_backend_bound r))].

(** The reader of a stored record; [extra='forbid'] refuses every other field. *)
Definition rd_literal_1 (v : value) : res Z := n ← rd_int v; if n =? 1 then Ok n else Raise ValueError.
Definition rd_flag (v : value) : res bool :=
  match v with
  | VBool b => Ok b
  | VInt _ | VFloat _ | VStr _ => Raise Unmodelled
  | _ => Raise ValueError
  end.

Definition record_fields : gset string :=
  list_to_set ["schema_version"; "uid"; "state"; "account_generation"; "ui_generation"; "api_generation";
               "stranded_new_data"; "offline_queue_instruction"; "checkpoint_phase"; "checkpoint_token";
               "manifest_id"; "destination_backend_bound"].

Definition account_cutover_record (d : fields) : res AccountCutoverRecord :=
  if negb (bool_decide (dom d ⊆ record_fields)) then Raise ValueError
  else
    _ ← defaulted d "schema_version" rd_literal_1 1;
    uid ← required d "uid" rd_str;
    state ← defaulted d "state" (rd_enum state_value [legacy; migrating; new; rolled_back_stranded]) legacy;
    account ← defaulted d "account_generation" rd_int 0;
    ui ← defaulted d "ui_generation" rd_int 0;
    api ← defaulted d "api_generation" rd_int 0;
    stranded ← defaulted d "stranded_new_data" rd_flag false;
    offline ← defaulted d "offline_queue_instruction" (rd_enum offline_value [offline_none; drain; quarantine])
                offline_none;
    phase ← defaulted d "checkpoint_phase"
              (rd_enum phase_value [not_started; inventory; offline_queue_fenced; exporting; importing; verifying;
                                    cutover_ready; completed; failed; paused]) not_started;
    token ← defaulted d "checkpoint_token" (rd_opt rd_str) None;
    manifest ← defaulted d "manifest_id" (rd_opt rd_str) None;
    bound ← defaulted d "destination_backend_bound" rd_flag false;
    validated_record (CutoverRecord uid state account ui api stranded offline phase token manifest bound).

Record AccountCutoverTransitionRequest := TransitionRequest {
  tr_target_state : AccountCutoverState;
  tr_expected_account_generation : Z;
  tr_next_account_generation : option Z;
  tr_stranded_new_data : option bool;
  tr_offline_queue_instruction : option OfflineQueueInstruction;
  tr_checkpoint_phase : option AccountCutoverCheckpointPhase;
  tr_checkpoint_token : option string;
  tr_manifest_id : option string;
  tr_reason : string
}.

Definition transition_request (q : AccountCutoverTransitionRequest) : res AccountCutoverTransitionRequest :=
  if (0 <=? tr_expected_account_generation q)
     && match tr_next_account_generation q with Some n => 0 <=? n | None => true end
     && token_fits (tr_checkpoint_token q) && id_fits (tr_manifest_id q)
     && (1 <=? py_len (tr_reason q)) && (py_len (tr_reason q) <=? 64)
  then Ok q else Raise ValueError.

(** ** Transitions (state.py) *)
Definition legal_transitions (s : AccountCutoverState) : list AccountCutoverState :=
  match s with
  | legacy => [migrating]
  | migrating => [new; rolled_back_stranded]
  | new => [rolled_back_stranded]
  | rolled_back_stranded => [migrating]
  end.

Definition _QUARANTINE_REQUIRED_STATES : list AccountCutoverState := [migrating; new].
Definition _GENERATION_BUMP_STATES : list AccountCutoverState := [migrating; new].

Definition _assert_offline_instruction_legal (s : AccountCutoverState) (i : OfflineQueueInstruction) : res unit :=
  if bool_decide (s ∈ _QUARANTINE_REQUIRED_STATES) && negb (bool_decide (i = quarantine))
  then Raise (AccountCutoverTransitionError "illegal_offline_queue_instruction")
  else if bool_decide (s = rolled_back_stranded) && bool_decide (i = drain)
  then Raise (AccountCutoverTransitionError "illegal_offline_queue_instruction")
  else Ok tt.

Definition _refresh_same_state (r : AccountCutoverRecord) (q : AccountCutoverTransitionRequest)
    : res AccountCutoverRecord :=
  match tr_offline_queue_instruction q with
  | Some i => _assert_offline_instruction_legal (cr_state r) i
  | None => Ok tt
  end;;
  Ok (CutoverRecord (cr_uid r) (cr_state r) (cr_account_generation r) (cr_ui_generation r) (cr_api_generation r)
        (default (cr_stranded_new_data r) (tr_stranded_new_data q))
        (default (cr_offline_queue_instruction r) (tr_offline_queue_instruction q))
        (default (cr_checkpoint_phase r) (tr_checkpoint_phase q))
        (match tr_checkpoint_token q with Some t => Some t | None => cr_checkpoint_token r end)
        (match tr_manifest_id q with Some m => Some m | None => cr_manifest_id r end)
        (cr_destination_backend_bound r)).

Definition next_generation (r : AccountCutoverRecord) (q : AccountCutoverTransitionRequest) : Z :=
  match tr_next_account_generation q with
  | Some n => n
  | None => if bool_decide (tr_target_state q ∈ _GENERATION_BUMP_STATES) then cr_account_generation r + 1
            else cr_account_generation r
  end.

Definition next_offline (r : AccountCutoverRecord) (q : AccountCutoverTransitionRequest) : OfflineQueueInstruction :=
  match tr_offline_queue_instruction q with
  | Some i => i
  | None => match tr_target_state q with
            | migrating | new | rolled_back_stranded => quarantine
            | legacy => offline_none
            end
  end.

Definition apply_cutover_transition (r : AccountCutoverRecord) (q : AccountCutoverTransitionRequest)
    : res AccountCutoverRecord :=
  if negb (tr_expected_account_generation q =? cr_account_generation r)
  then Raise (AccountCutoverTransitionError "account_generation_mismatch")
  else if bool_decide (tr_target_state q = cr_state r) then _refresh_same_state r q
  else if bool_decide (tr_target_state q ∉ legal_transitions (cr_state r))
  then Raise (AccountCutoverTransitionError "illegal_cutover_transition")
  else if bool_decide (tr_target_state q ∈ _GENERATION_BUMP_STATES)
          && (next_generation r q <=? cr_account_generation r)
  then Raise (AccountCutoverTransitionError "account_generation_regression")
  else if bool_decide (tr_target_state q ∉ _GENERATION_BUMP_STATES)
          && (next_generation r q <? cr_account_generation r)
  then Raise (AccountCutoverTransitionError "account_generation_regression")
  else
    let stranded := match tr_stranded_new_data q with
                    | Some b => b
                    | None => if bool_decide (tr_target_state q = rolled_back_stranded) then true
                              else cr_stranded_new_data r
                    end in
    _assert_offline_instruction_legal (tr_target_state q) (next_offline r q);;
    Ok (CutoverRecord (cr_uid r) (tr_target_state q) (next_generation r q) (cr_ui_generation r) (cr_api_generation r)
          stranded (next_offline r q) (default (cr_checkpoint_phase r) (tr_checkpoint_phase q))
          (match tr_checkpoint_token q with Some t => Some t | None => cr_checkpoint_token r end)
          (match tr_manifest_id q with Some m => Some m | None => cr_manifest_id r end)
          (cr_destination_backend_bound r)).

(** ** The write fence (fence.py) *)
Definition legacy_writes_allowed_for_state (s : AccountCutoverState) : bool :=
  bool_decide (s ∈ [legacy; rolled_back_stranded]).

Record fence_decision := FenceDecision {
  fd_allowed : bool; fd_state : AccountCutoverState; fd_account_generation : Z; fd_reason : string
}.

Definition evaluate_write_fence (r : AccountCutoverRecord) (expected : option Z) : fence_decision :=
  let decision allowed reason := FenceDecision allowed (cr_state r) (cr_account_generation r) reason in
  if negb (legacy_writes_allowed_for_state (cr_state r)) then decision false ("blocked_" +:+ state_value (cr_state r))
  else if (0 <? cr_account_generation r) && bool_decide (expected = None) then decision false "generation_mismatch"
  else
    let ok := match expected with Some n => n =? cr_account_generation r | None => true end in
    decision ok (if ok then "allowed" else "generation_mismatch").

Definition assert_legacy_product_write_allowed (r : AccountCutoverRecord) (expected : option Z) : res unit :=
  if fd_allowed (evaluate_write_fence r expected) then Ok tt else Raise AccountCutoverGenerationMismatchError.

Definition background_job_should_skip_account (r : AccountCutoverRecord) : bool :=
  bool_decide (cr_state r ∈ [migrating; new]).

(** ** The stored record (database/account_cutover.py) *)
Definition CONTROL_COLLECTION : string := "account_cutover".
Definition CONTROL_DOCUMENT : string := "state".

Definition _control_ref (uid : string) : path := ["users"; uid; CONTROL_COLLECTION; CONTROL_DOCUMENT].

Definition default_legacy_record (uid : string) : res AccountCutoverRecord :=
  validated_record (CutoverRecord uid legacy 0 0 0 false offline_none not_started None None false).

Definition _parse_bound_record (uid : string) (d : fields) : res AccountCutoverRecord :=
  r ← parse_snapshot_strict (account_cutover_record d);
  if bool_decide (cr_uid r = uid) then Ok r else Raise MalformedDocError.

Definition _read_current_generation_and_token (uid : string) (snapshot : option fields) (require_existing : bool)
    : res (Z * option string) :=
  match snapshot with
  | None => if require_existing then Raise (AccountCutoverConcurrencyError "cutover_missing_during_cas")
            else Ok (0, None)
  | Some d => r ← _parse_bound_record uid d; Ok (cr_account_generation r, cr_checkpoint_token r)
  end.

Definition _assert_cas_matches (current_generation : Z) (current_token : option string)
    (expected_account_generation : Z) (expected_checkpoint_token : option string) (document_exists : bool)
    : res unit :=
  if negb (current_generation =? expected_account_generation)
  then Raise (AccountCutoverConcurrencyError "cutover_generation_cas_mismatch")
  else if document_exists && negb (bool_decide (current_token = None)) then
    if bool_decide (expected_checkpoint_token = None) || negb (bool_decide (current_token = expected_checkpoint_token))
    then Raise (AccountCutoverConcurrencyError "cutover_checkpoint_cas_mismatch")
    else Ok tt
  else if negb (bool_decide (expected_checkpoint_token = None))
          && negb (bool_decide (current_token = expected_checkpoint_token))
  then Raise (AccountCutoverConcurrencyError "cutover_checkpoint_cas_mismatch")
  else Ok tt.

Definition get_account_cutover_record_optional (uid : string) (s : db) : res (option AccountCutoverRecord) :=
  match s !! _control_ref uid with
  | None => Ok None
  | Some d => r ← _parse_bound_record uid d; Ok (Some r)
  end.

Definition get_account_cutover_record (uid : string) (s : db) : res AccountCutoverRecord :=
  match s !! _control_ref uid with
  | None => default_legacy_record uid
  | Some d => _parse_bound_record uid d
  end.

Definition set_account_cutover_record (uid : string) (r : AccountCutoverRecord) (s : db) : res (unit * db) :=
  if negb (bool_decide (cr_uid r = uid)) then Raise ValueError
  else Ok (tt, <[_control_ref uid := list_to_map (persisted_payload r)]> s).

(** The transaction [_txn] of [cas_set_account_cutover_record]. *)
Definition cas_transaction (uid : string) (r : AccountCutoverRecord) (expected_account_generation : Z)
    (expected_checkpoint_token : option string) (require_existing : bool) : Txn AccountCutoverRecord :=
  snapshot ← txn_get (_control_ref uid);
  current ← lift (_read_current_generation_and_token uid snapshot require_existing);
  lift (_assert_cas_matches (fst current) (snd current) expected_account_generation expected_checkpoint_token
          (negb (bool_decide (snapshot = None))));;
  txn_set (_control_ref uid) (list_to_map (persisted_payload r));;
  mret r.

Definition cas_set_account_cutover_record (uid : string) (r : AccountCutoverRecord) (expected_account_generation : Z)
    (expected_checkpoint_token : option string) (require_existing : bool) (s : db)
    : res (AccountCutoverRecord * db) :=
  if negb (bool_decide (cr_uid r = uid)) then Raise ValueError
  else run_txn (cas_transaction uid r expected_account_generation expected_checkpoint_token require_existing) s.
