(* ===== verification/CutoverCoordinator.v ===== *)
(** * The coordinator of an account's cutover
    (backend/utils/account_cutover/coordinator.py)

    Each method reads the stored record, decides, and writes the next record by a
    compare and set; between the two accesses other calls may run.  The methods are
    programs over these two accesses, and [exec_cutover] says what an access does
    to the store.  The random texts of [secrets] and the set of enrolled accounts
    are arguments; telemetry is left out. *)

From S2P Require Import Prelude PyValue Firestore MemoryText AccountCutover.
From Stdlib Require Import QArith_base Ascii.
Local Open Scope Z_scope.

(** ** Programs *)
Inductive cutover_access :=
| GetRecord (uid : string)
| CasSet (uid : string) (r : AccountCutoverRecord) (generation : Z) (token : option string) (require_existing : bool).

(** Both accesses return a record. *)
Inductive prog (A : Type) : Type :=
| Done (r : res A)
| Call (c : cutover_access) (k : AccountCutoverRecord -> prog A).
Arguments Done {A} r.
Arguments Call {A} c k.

#[global] Instance prog_ret : MRet prog := fun A a => Done (Ok a).

#[global] Instance prog_bind : MBind prog := fun A B f =>
  fix go (m : prog A) : prog B :=
    match m with
    | Done (Ok a) => f a
    | Done (Raise e) => Done (Raise e)
    | Call c k => Call c (fun b => go (k b))
    end.

Definition check {A} (r : res A) : prog A := Done r.
Definition refuse {A} (code : string) : prog A := Done (Raise (AccountCutoverTransitionError code)).
Definition perform (c : cutover_access) : prog AccountCutoverRecord := Call c (fun b => Done (Ok b)).

Definition exec_cutover (c : cutover_access) (s : db) : res (AccountCutoverRecord * db) :=
  match c with
  | GetRecord uid => r ← get_account_cutover_record uid s; Ok (r, s)
  | CasSet uid r generation token existing => cas_set_account_cutover_record uid r generation token existing s
  end.

(** One call with no other between its accesses. *)
Fixpoint run_cutover {A} (p : prog A) (s : db) : res A * db :=
  match p with
  | Done r => (r, s)
  | Call c k =>
      match exec_cutover c s with
      | Ok (b, s') => run_cutover (k b) s'
      | Raise e => (Raise e, s)
      end
  end.

(** ** Checkpoints *)
Definition _CHECKPOINT_FORWARD (p : AccountCutoverCheckpointPhase) : list AccountCutoverCheckpointPhase :=
  match p with
  | not_started => [inventory; paused; failed]
  | inventory => [offline_queue_fenced; paused; failed]
  | offline_queue_fenced => [exporting; paused; failed]
  | exporting => [importing; paused; failed]
  | importing => [verifying; paused; failed]
  | verifying => [cutover_ready; paused; failed]
  | cutover_ready => [paused; failed]
  | completed => []
  | failed => [inventory; offline_queue_fenced; exporting; paused]
  | paused => [inventory; offline_queue_fenced; exporting; importing; verifying; failed]
  end.

Definition _MAX_CHECKPOINT_TOKEN_LEN : Z := 128.

Record CoordinatorResult := CoordResult { cor_record : AccountCutoverRecord; cor_created : bool; cor_resumed : bool }.

(** [minted] is the text [secrets.token_hex(8)] would return. *)
Definition _mint_checkpoint_token (minted : string) (explicit : option string) : res string :=
  match explicit with
  | None => Ok minted
  | Some t =>
      if bool_decide (t = "") || (_MAX_CHECKPOINT_TOKEN_LEN <? py_len t)
      then Raise (AccountCutoverTransitionError "invalid_checkpoint_token") else Ok t
  end.

(** [_rebuild_record] with the fields the callers update. *)
Definition _rebuild_record (r : AccountCutoverRecord) (offline : OfflineQueueInstruction)
    (phase : AccountCutoverCheckpointPhase) (ui api : Z) (token : string) : res AccountCutoverRecord :=
  validated_record
    (CutoverRecord (cr_uid r) (cr_state r) (cr_account_generation r) ui api (cr_stranded_new_data r) offline phase
       (Some token) (cr_manifest_id r) (cr_destination_backend_bound r)).

Definition open_states : list AccountCutoverState := [legacy; rolled_back_stranded].

Definition _persist_cas (uid : string) (next : AccountCutoverRecord) (expected_account_generation : Z)
    (expected_checkpoint_token : option string) (require_existing : bool) : prog AccountCutoverRecord :=
  perform (CasSet uid next expected_account_generation expected_checkpoint_token require_existing).

(** ** The methods *)
Definition prepare_offline_drain (uid minted : string) : prog AccountCutoverRecord :=
  current ← perform (GetRecord uid);
  if bool_decide (cr_state current ∉ open_states) then refuse "offline_drain_after_fence"
  else if bool_decide (cr_offline_queue_instruction current = drain) then mret current
  else
    token ← check (_mint_checkpoint_token minted None);
    updated ← check (_rebuild_record current drain (cr_checkpoint_phase current) (cr_ui_generation current)
                       (cr_api_generation current) token);
    _persist_cas uid updated (cr_account_generation current) (cr_checkpoint_token current) false.

(** [manifest_hex] is the text of [secrets.token_hex(4)]. *)
Definition begin (cohort : gset string) (uid reason minted manifest_hex : string) : prog CoordinatorResult :=
  if negb (is_account_cutover_cohort_member cohort uid) then refuse "cutover_not_enrolled"
  else
    current ← perform (GetRecord uid);
    if bool_decide (cr_state current = migrating) && truthy (opt_str (cr_manifest_id current))
    then mret (CoordResult current false true)
    else if bool_decide (cr_state current ∉ open_states) then refuse "illegal_cutover_transition"
    else
      token ← check (_mint_checkpoint_token minted None);
      request ← check (transition_request
        (TransitionRequest migrating (cr_account_generation current) None None (Some quarantine) (Some inventory)
           (Some token) (Some ("cutover-" +:+ py_take 8 uid +:+ "-" +:+ manifest_hex)) (py_take 64 reason)));
      next ← check (apply_cutover_transition current request);
      persisted ← _persist_cas uid next (cr_account_generation current) (cr_checkpoint_token current) false;
      mret (CoordResult persisted true false).

Definition checkpoint (uid : string) (phase : AccountCutoverCheckpointPhase)
    (expected_checkpoint_token next_checkpoint_token : option string) (minted : string)
    : prog AccountCutoverRecord :=
  current ← perform (GetRecord uid);
  if negb (bool_decide (cr_state current = migrating)) then refuse "illegal_cutover_transition"
  else if negb (bool_decide (expected_checkpoint_token = None))
          && negb (bool_decide (cr_checkpoint_token current = expected_checkpoint_token))
  then refuse "checkpoint_token_mismatch"
  else if bool_decide (phase = cr_checkpoint_phase current) then mret current
  else if bool_decide (phase = completed) then refuse "illegal_checkpoint_transition"
  else if bool_decide (phase ∉ _CHECKPOINT_FORWARD (cr_checkpoint_phase current))
  then refuse "illegal_checkpoint_transition"
  else if bool_decide (phase ∈ [importing; verifying]) && negb (cr_destination_backend_bound current)
  then refuse "destination_backend_unbound"
  else
    token ← check (_mint_checkpoint_token minted next_checkpoint_token);
    updated ← check (_rebuild_record current (cr_offline_queue_instruction current) phase (cr_ui_generation current)
                       (cr_api_generation current) token);
    _persist_cas uid updated (cr_account_generation current) (cr_checkpoint_token current) true.

Definition bind_destination_product_generations (uid : string) (ui api expected_account_generation : Z)
    (minted : string) : prog AccountCutoverRecord :=
  if (ui <? 0) || (api <? 0) then refuse "invalid_product_generation"
  else
    current ← perform (GetRecord uid);
    if negb (cr_account_generation current =? expected_account_generation) then refuse "account_generation_mismatch"
    else if negb (cr_destination_backend_bound current) then refuse "destination_backend_unbound"
    else if (ui <? cr_ui_generation current) || (api <? cr_api_generation current)
    then refuse "product_generation_regression"
    else
      token ← check (_mint_checkpoint_token minted None);
      updated ← check (_rebuild_record current (cr_offline_queue_instruction current) (cr_checkpoint_phase current)
                         ui api token);
      _persist_cas uid updated (cr_account_generation current) (cr_checkpoint_token current) true.

Definition complete_to_new (uid : string) (expected_account_generation : Z) (minted : string)
    : prog AccountCutoverRecord :=
  current ← perform (GetRecord uid);
  if bool_decide (cr_state current = new) && bool_decide (cr_checkpoint_phase current = completed) then
    if negb (cr_account_generation current =? expected_account_generation) then refuse "account_generation_mismatch"
    else mret current
  else if negb (bool_decide (cr_checkpoint_phase current = cutover_ready)) then refuse "checkpoint_not_ready"
  else if negb (cr_destination_backend_bound current) then refuse "destination_backend_unbound"
  else
    token ← check (_mint_checkpoint_token minted None);
    request ← check (transition_request
      (TransitionRequest new expected_account_generation None None (Some quarantine) (Some completed)
         (Some token) None "complete_forward_migration"));
    next ← check (apply_cutover_transition current request);
    _persist_cas uid next (cr_account_generation current) (cr_checkpoint_token current) true.

Definition rollback_lossy (uid : string) (expected_account_generation : Z) (stranded_new_data : bool)
    (minted : string) : prog AccountCutoverRecord :=
  current ← perform (GetRecord uid);
  token ← check (_mint_checkpoint_token minted None);
  request ← check (transition_request
    (TransitionRequest rolled_back_stranded expected_account_generation None (Some stranded_new_data)
       (Some quarantine) None (Some token) None "lossy_rollback"));
  next ← check (apply_cutover_transition current request);
  _persist_cas uid next (cr_account_generation current) (cr_checkpoint_token current) true.

(** The module's functions. *)
Definition begin_forward_migration (cohort : gset string) (uid minted manifest_hex : string)
    : prog CoordinatorResult :=
  begin cohort uid "begin_forward_migration" minted manifest_hex.

Definition apply_forward_checkpoint (uid : string) (phase : AccountCutoverCheckpointPhase)
    (expected_checkpoint_token : option string) (minted : string) : prog AccountCutoverRecord :=
  checkpoint uid phase expected_checkpoint_token None minted.

(** ** Calls in flight

    A call runs its accesses one by one; any other call may run between them, an
    access may fail before or after its effect, and a process may die.  The other
    actors of the store leave the record of the account alone.  [used] are the
    tokens of the calls started so far: those of different calls differ. *)
Definition forget {A} (p : prog A) : prog unit := _ ← p; mret tt.

Inductive coordinator_call (cohort : gset string) (uid : string) : string -> prog unit -> Prop :=
| call_drain t : coordinator_call cohort uid t (forget (prepare_offline_drain uid t))
| call_begin reason t hex : coordinator_call cohort uid t (forget (begin cohort uid reason t hex))
| call_checkpoint phase expected next t :
    coordinator_call cohort uid (default t next) (forget (checkpoint uid phase expected next t))
| call_bind ui api generation t :
    coordinator_call cohort uid t (forget (bind_destination_product_generations uid ui api generation t))
| call_complete generation t : coordinator_call cohort uid t (forget (complete_to_new uid generation t))
| call_rollback generation stranded t :
    coordinator_call cohort uid t (forget (rollback_lossy uid generation stranded t)).

Record system := System { sys_store : db; sys_calls : list (prog unit); sys_used : gset string }.

Inductive system_step (cohort : gset string) (uid : string) : system -> system -> Prop :=
| call_access s c k b s' ts1 ts2 used :
    exec_cutover c s = Ok (b, s') ->
    system_step cohort uid (System s (ts1 ++ Call c k :: ts2) used) (System s' (ts1 ++ k b :: ts2) used)
| call_refused s c k e ts1 ts2 used :
    exec_cutover c s = Raise e ->
    system_step cohort uid (System s (ts1 ++ Call c k :: ts2) used) (System s (ts1 ++ Done (Raise e) :: ts2) used)
| call_lost_request s c k e ts1 ts2 used :
    system_step cohort uid (System s (ts1 ++ Call c k :: ts2) used) (System s (ts1 ++ Done (Raise e) :: ts2) used)
| call_lost_reply s c k b s' e ts1 ts2 used :
    exec_cutover c s = Ok (b, s') ->
    system_step cohort uid (System s (ts1 ++ Call c k :: ts2) used) (System s' (ts1 ++ Done (Raise e) :: ts2) used)
| call_gone s t ts1 ts2 used :
    system_step cohort uid (System s (ts1 ++ t :: ts2) used) (System s (ts1 ++ ts2) used)
| call_start s ts t p used :
    coordinator_call cohort uid t p -> t ∉ used ->
    system_step cohort uid (System s ts used) (System s (ts ++ [p]) ({[t]} ∪ used))
| call_other s s' ts used :
    s' !! _control_ref uid = s !! _control_ref uid ->
    system_step cohort uid (System s ts used) (System s' ts used).
