(* ===== verification/CutoverAccess.v ===== *)
(** * Who may use the product during a cutover
    (backend/utils/account_cutover/control.py, utils/account_cutover/access.py,
    routers/account_cutover.py)

    The control projection that a client reads, and the check of every product
    request and WebSocket session.  Headers are the list of their names and values;
    the environment variable is an argument.  HTTP methods are ASCII.  Telemetry is
    left out. *)

From S2P Require Import Prelude PyValue Firestore MemoryText AccountCutover.
From Stdlib Require Import QArith_base Ascii.
From stdpp Require Import sorting.
Local Open Scope Z_scope.

(** ** Texts *)

(** [text.rsplit('+', 1)[-1]] *)
Fixpoint after_last_plus (l : list ascii) : list ascii :=
  match l with
  | [] => []
  | c :: l' => if bool_decide ("+"%char ∈ l') then after_last_plus l'
               else if bool_decide (c = "+"%char) then l' else l
  end.

(** [text.split('?', 1)[0]] *)
Fixpoint before_question_mark (l : list ascii) : list ascii :=
  match l with
  | [] => []
  | c :: l' => if bool_decide (c = "?"%char) then [] else c :: before_question_mark l'
  end.

Definition starts_with (text prefix : string) : bool :=
  is_prefix (String.list_ascii_of_string prefix) (String.list_ascii_of_string text).

Definition ascii_upper (s : string) : string :=
  String.string_of_list_ascii
    ((fun c => let b := byte_of c in
               if (97 <=? b) && (b <=? 122) then ascii_of_N (Z.to_N (b - 32)) else c)
       <$> String.list_ascii_of_string s).

Definition nonnegative (o : option Z) : option Z := n ← o; if 0 <=? n then Some n else None.

(** ** The control projection (control.py) *)
Definition parse_client_build (raw : option string) : option Z :=
  text ← raw;
  let text := strip text in
  if bool_decide (text = "") then None
  else nonnegative (parse_int (String.string_of_list_ascii (after_last_plus (String.list_ascii_of_string text)))).

Record PlatformMinimumBuild := MinimumBuild { pm_platform : string; pm_minimum_supported_build : Z }.

Definition by_platform (a b : string * Z) : Prop := String.leb a.1 b.1 = true.
#[global] Instance by_platform_dec : RelDecision by_platform.
Proof. intros a b. unfold by_platform. apply _. Defined.

Section Control.
Context {T : TextEnv}.

Definition platform_key (raw : string) : string := lower (strip raw).

Definition minimum_builds_projection (overrides : list (string * Z)) : list PlatformMinimumBuild :=
  let merged := foldl (fun m kv => if 0 <=? kv.2 then <[platform_key kv.1 := kv.2]> m else m)
                  MINIMUM_SUPPORTED_BUILDS overrides in
  (fun kv => MinimumBuild kv.1 kv.2) <$> merge_sort by_platform (map_to_list merged).

Definition resolve_client_action (r : AccountCutoverRecord) (platform : option string) (client_build : option Z)
    (minimum_builds : list (string * Z)) : AccountCutoverClientAction :=
  let key := platform_key (default "" platform) in
  let floors := foldl (fun m kv => <[platform_key kv.1 := kv.2]> m) MINIMUM_SUPPORTED_BUILDS minimum_builds in
  let outdated :=
    if bool_decide (key = "") then false
    else match floors !! key with
         | Some floor => (0 <? floor) && match client_build with Some b => b <? floor | None => true end
         | None => false
         end in
  if outdated then force_upgrade
  else match cr_state r with
       | migrating | new => migration_maintenance
       | _ => action_none
       end.

Definition product_traffic_allowed (r : AccountCutoverRecord) (action : AccountCutoverClientAction) : bool :=
  if negb (bool_decide (action = action_none)) then false
  else negb (bool_decide (cr_state r ∈ [migrating; new])).

Record AccountCutoverManifestSummary := ManifestSummary {
  ms_manifest_id : option string;
  ms_schema_version : Z;
  ms_checkpoint_phase : AccountCutoverCheckpointPhase;
  ms_checkpoint_token : option string;
  ms_destination_backend_bound : bool;
  ms_stranded_new_data : bool
}.

Record AccountCutoverControl := CutoverControl {
  cc_state : AccountCutoverState;
  cc_account_generation : Z;
  cc_ui_generation : Z;
  cc_api_generation : Z;
  cc_client_action : AccountCutoverClientAction;
  cc_offline_queue_instruction : OfflineQueueInstruction;
  cc_stranded_new_data : bool;
  cc_legacy_writes_allowed : bool;
  cc_product_traffic_allowed : bool;
  cc_auth_bootstrap_reachable : bool;
  cc_minimum_supported_builds : list PlatformMinimumBuild;
  cc_migration : AccountCutoverManifestSummary
}.

Definition client_build_of (client_build : option Z) (x_app_build x_app_version : option string) : option Z :=
  match client_build with
  | Some b => Some b
  | None => match parse_client_build x_app_build with Some b => Some b | None => parse_client_build x_app_version end
  end.

Definition build_account_cutover_control (r : AccountCutoverRecord) (platform : option string)
    (client_build : option Z) (x_app_build x_app_version : option string) (minimum_builds : list (string * Z))
    : AccountCutoverControl :=
  let build := client_build_of client_build x_app_build x_app_version in
  let action := resolve_client_action r platform build minimum_builds in
  let legacy_state := bool_decide (cr_state r = legacy) in
  CutoverControl (cr_state r) (cr_account_generation r)
    (if legacy_state then DEFAULT_UI_GENERATION else cr_ui_generation r)
    (if legacy_state then DEFAULT_API_GENERATION else cr_api_generation r)
    action
    (if bool_decide (cr_state r ∈ [migrating; new; rolled_back_stranded])
        && negb (bool_decide (cr_offline_queue_instruction r = quarantine))
     then quarantine else cr_offline_queue_instruction r)
    (cr_stranded_new_data r)
    (legacy_writes_allowed_for_state (cr_state r) && bool_decide (action = action_none))
    (product_traffic_allowed r action) true (minimum_builds_projection minimum_builds)
    (ManifestSummary (cr_manifest_id r) 1 (cr_checkpoint_phase r) (cr_checkpoint_token r)
       (cr_destination_backend_bound r) (cr_stranded_new_data r)).

(** ** Admission of requests (access.py) *)
Definition cutover_enforcement_enabled (raw : option string) : bool :=
  bool_decide (lower (strip (default "off" raw)) ∈ ["1"; "true"; "on"; "yes"]).

Definition _ALWAYS_REACHABLE_PREFIXES : list string :=
  ["/v1/auth"; "/v1/users/delete-account"; "/v1/account/cutover"; "/v2/desktop/update-policy"; "/v1/updates";
   "/health"; "/v1/health"].

Definition _MUTATING_METHODS : list string := ["POST"; "PUT"; "PATCH"; "DELETE"].

Record AccountCutoverAccessDenial := Denial {
  dn_code : string;
  dn_client_action : AccountCutoverClientAction;
  dn_detail : dict
}.

Definition is_cutover_control_path (path : string) : bool :=
  let normalized := String.string_of_list_ascii (before_question_mark (String.list_ascii_of_string path)) in
  existsb (fun prefix => bool_decide (normalized = prefix) || starts_with normalized (prefix +:+ "/"))
    _ALWAYS_REACHABLE_PREFIXES.

Fixpoint _headers_get (headers : list (string * string)) (name : string) : option string :=
  match headers with
  | [] => None
  | (key, v) :: headers' => if bool_decide (lower key = lower name) then Some v else _headers_get headers' name
  end.

Definition parse_account_generation_header (headers : list (string * string)) : option Z :=
  raw ← _headers_get headers "X-Account-Generation";
  let text := strip raw in
  if bool_decide (text = "") then None else nonnegative (parse_int text).

Definition _deny_generation_mismatch (r : AccountCutoverRecord) (client_generation : option Z)
    : AccountCutoverAccessDenial :=
  Denial "account_generation_mismatch" action_none
    [("code", VStr "account_generation_mismatch"); ("state", VStr (state_value (cr_state r)));
     ("account_generation", VInt (cr_account_generation r));
     ("client_account_generation", opt_int client_generation); ("retryable", VBool false)].

Definition deny_force_upgrade (r : AccountCutoverRecord) (control : AccountCutoverControl)
    : AccountCutoverAccessDenial :=
  Denial "force_upgrade_required" (cc_client_action control)
    [("code", VStr "force_upgrade_required"); ("client_action", VStr (action_value (cc_client_action control)));
     ("state", VStr (state_value (cr_state r))); ("account_generation", VInt (cr_account_generation r));
     ("retryable", VBool false)].

Definition deny_maintenance (r : AccountCutoverRecord) (control : AccountCutoverControl)
    : AccountCutoverAccessDenial :=
  Denial "migration_maintenance" (cc_client_action control)
    [("code", VStr "migration_maintenance"); ("client_action", VStr (action_value (cc_client_action control)));
     ("state", VStr (state_value (cr_state r))); ("account_generation", VInt (cr_account_generation r));
     ("offline_queue_instruction", VStr (offline_value (cc_offline_queue_instruction control)));
     ("stranded_new_data", VBool (cc_stranded_new_data control)); ("retryable", VBool true)].

Definition deny_legacy_plane (r : AccountCutoverRecord) : AccountCutoverAccessDenial :=
  Denial "legacy_plane_closed" action_none
    [("code", VStr "legacy_plane_closed"); ("state", VStr (state_value (cr_state r)));
     ("account_generation", VInt (cr_account_generation r)); ("retryable", VBool false)].

Definition deny_unavailable : AccountCutoverAccessDenial :=
  Denial "account_cutover_state_unavailable" migration_maintenance
    [("code", VStr "account_cutover_state_unavailable"); ("retryable", VBool true)].

Definition header_platform (headers : list (string * string)) : option string :=
  let platform := platform_key (default "" (_headers_get headers "X-App-Platform")) in
  if bool_decide (platform = "") then None else Some platform.

Definition header_build (headers : list (string * string)) : option Z :=
  match parse_client_build (_headers_get headers "X-App-Build") with
  | Some b => Some b
  | None => parse_client_build (_headers_get headers "X-App-Version")
  end.

Definition request_mutates (method : string) (mutating : option bool) : bool :=
  match mutating with Some b => b | None => bool_decide (ascii_upper method ∈ _MUTATING_METHODS) end.

(** The decision on a record that could be read; [None] lets the request pass. *)
Definition evaluate_record (r : AccountCutoverRecord) (mutating : bool) (headers : list (string * string))
    : option AccountCutoverAccessDenial :=
  let client_generation := parse_account_generation_header headers in
  let control := build_account_cutover_control r (header_platform headers) (header_build headers) None None [] in
  if mutating && (0 <? cr_account_generation r)
     && match client_generation with Some g => negb (g =? cr_account_generation r) | None => true end
  then Some (_deny_generation_mismatch r client_generation)
  else if bool_decide (cr_state r = legacy) && (cr_account_generation r =? 0) then
    if bool_decide (cc_client_action control = force_upgrade) then Some (deny_force_upgrade r control) else None
  else if bool_decide (cc_client_action control = force_upgrade) then Some (deny_force_upgrade r control)
  else if bool_decide (cc_client_action control = migration_maintenance)
          && negb (bool_decide (cr_state r = rolled_back_stranded))
  then Some (deny_maintenance r control)
  else if bool_decide (cr_state r = new) && mutating then Some (deny_legacy_plane r)
  else None.

Definition evaluate_account_cutover_access (enforcement : option string) (uid method path : string)
    (headers : list (string * string)) (force : bool) (mutating : option bool) (s : db)
    : res (option AccountCutoverAccessDenial) :=
  if negb force && negb (cutover_enforcement_enabled enforcement) then Ok None
  else if is_cutover_control_path path then Ok None
  else match get_account_cutover_record uid s with
       | Raise MalformedDocError => Ok (Some deny_unavailable)
       | Raise e => Raise e
       | Ok r => Ok (evaluate_record r (request_mutates method mutating) headers)
       end.

(** The HTTP status and detail of a refused request; the close code and reason of
    a refused session. *)
Definition enforce_account_cutover_http_access (enforcement : option string) (uid method path : string)
    (headers : list (string * string)) (s : db) : res (option (Z * dict)) :=
  denial ← evaluate_account_cutover_access enforcement uid method path headers false None s;
  Ok (d ← denial;
      Some (if bool_decide (dn_code d = "force_upgrade_required") then 426
            else if bool_decide (dn_code d = "account_cutover_state_unavailable") then 503 else 403,
            dn_detail d)).

Definition WS_AUTH_CODE_ACCOUNT_CUTOVER : Z := 4006.

Definition enforce_account_cutover_ws_access (enforcement : option string) (uid path : string)
    (headers : list (string * string)) (s : db) : res (option (Z * string)) :=
  denial ← evaluate_account_cutover_access enforcement uid "GET" path headers false (Some true) s;
  Ok (d ← denial; Some (WS_AUTH_CODE_ACCOUNT_CUTOVER, dn_code d)).

Definition should_skip_background_account_mutation (enforcement : option string) (uid : string) (s : db)
    : res bool :=
  if negb (cutover_enforcement_enabled enforcement) then Ok false
  else match get_account_cutover_record uid s with
       | Ok r => Ok (background_job_should_skip_account r)
       | Raise MalformedDocError => Ok true
       | Raise e => Raise e
       end.

(** ** The bootstrap route (routers/account_cutover.py) *)
Definition get_account_cutover_control (uid : string) (x_app_platform x_app_build x_app_version : option string)
    (s : db) : res (AccountCutoverControl + Z * dict) :=
  match get_account_cutover_record uid s with
  | Raise MalformedDocError =>
      Ok (inr (503, [("code", VStr "account_cutover_state_unavailable"); ("retryable", VBool true)]))
  | Raise e => Raise e
  | Ok r => Ok (inl (build_account_cutover_control r x_app_platform None x_app_build x_app_version []))
  end.
End Control.
