(* ===== verification/CutoverProofs.v ===== *)
(** * Proofs about the cutover of an account

    The stored record reads back as written; every call of the coordinator reads
    once and then either stops or writes one [moves] step of the record it read. *)

From S2P Require Import Prelude PyValue Firestore MemoryText MemoryRecords AccountCutover CutoverCoordinator.
From Stdlib Require Import QArith_base Ascii.
Local Open Scope Z_scope.

(** ** The stored record *)
Lemma validated_record_Ok r r' : validated_record r = Ok r' -> r' = r /\ record_valid r = true.
Proof. unfold validated_record. case_match; [|done]. by intros [= <-]. Qed.

Lemma optional_text_reads_back o : rd_opt rd_str (opt_str o) = Ok o.
Proof. by destruct o. Qed.

Lemma record_read_back r :
  record_valid r = true -> account_cutover_record (list_to_map (persisted_payload r)) = Ok r.
Proof.
  intros Hv. unfold account_cutover_record. rewrite bool_decide_true by by rewrite dom_list_to_map_L.
  simpl negb. cbv iota. unfold defaulted, required. rewrite !list_to_map_get.
  repeat match goal with |- context [dict_lookup ?k (persisted_payload r)] =>
    let v := eval cbv -[state_value offline_value phase_value opt_str
                        cr_uid cr_state cr_account_generation cr_ui_generation cr_api_generation cr_stranded_new_data
                        cr_offline_queue_instruction cr_checkpoint_phase cr_checkpoint_token cr_manifest_id
                        cr_destination_backend_bound] in (dict_lookup k (persisted_payload r)) in
    change (dict_lookup k (persisted_payload r)) with v end.
  cbv beta iota. rewrite !optional_text_reads_back.
  assert (rd_enum state_value [legacy; migrating; new; rolled_back_stranded] (VStr (state_value (cr_state r)))
          = Ok (cr_state r)) as -> by by destruct (cr_state r).
  assert (rd_enum offline_value [offline_none; drain; quarantine] (VStr (offline_value (cr_offline_queue_instruction r)))
          = Ok (cr_offline_queue_instruction r)) as -> by by destruct (cr_offline_queue_instruction r).
  assert (rd_enum phase_value [not_started; inventory; offline_queue_fenced; exporting; importing; verifying;
            cutover_ready; completed; failed; paused] (VStr (phase_value (cr_checkpoint_phase r)))
          = Ok (cr_checkpoint_phase r)) as -> by by destruct (cr_checkpoint_phase r).
  cbn -[validated_record]. unfold validated_record. destruct r; cbn -[record_valid] in *. by rewrite Hv.
Qed.

Lemma bound_read_back uid r :
  record_valid r = true -> cr_uid r = uid -> _parse_bound_record uid (list_to_map (persisted_payload r)) = Ok r.
Proof. intros Hv Hu. unfold _parse_bound_record. rewrite record_read_back by done. simpl. by rewrite bool_decide_true. Qed.

Lemma account_cutover_record_valid d r : account_cutover_record d = Ok r -> record_valid r = true.
Proof.
  unfold account_cutover_record. case_match; [done|]. intros Hr. inv_res.
  apply validated_record_Ok in Hr as [-> Hv]. done.
Qed.

Lemma parse_bound_valid uid d r : _parse_bound_record uid d = Ok r -> record_valid r = true /\ cr_uid r = uid.
Proof.
  unfold _parse_bound_record, parse_snapshot_strict. intros H. inv_res.
  repeat case_match; simplify_eq. case_bool_decide; [|done]. inv_res.
  split; [by eapply account_cutover_record_valid|done].
Qed.

Lemma get_record_valid uid s r :
  get_account_cutover_record uid s = Ok r -> record_valid r = true /\ cr_uid r = uid.
Proof.
  unfold get_account_cutover_record. case_match; [apply parse_bound_valid|].
  intros Hr. apply validated_record_Ok in Hr as [-> Hv]. done.
Qed.

(** ** One step of an account

    [moves cohort t r r']: what a write of a call with the token [t] makes of the
    record [r]. *)
Definition fenced (s : AccountCutoverState) : bool := bool_decide (s ∈ [migrating; new]).

Record moves (cohort : gset string) (t : string) (r r' : AccountCutoverRecord) : Prop := {
  mv_uid : cr_uid r' = cr_uid r;
  mv_valid : record_valid r' = true;
  mv_token : cr_checkpoint_token r' = Some t;
  mv_bound : cr_destination_backend_bound r' = cr_destination_backend_bound r;
  mv_state : (cr_state r' = cr_state r /\ cr_account_generation r' = cr_account_generation r)
    \/ (cr_state r' ∈ legal_transitions (cr_state r)
        /\ cr_account_generation r' = cr_account_generation r + if fenced (cr_state r') then 1 else 0);
  mv_quarantine : fenced (cr_state r') = true ->
    cr_offline_queue_instruction r' = quarantine
    \/ (cr_state r' = cr_state r /\ cr_offline_queue_instruction r' = cr_offline_queue_instruction r);
  mv_enrolled : cr_state r' = migrating -> cr_state r = migrating \/ cr_uid r ∈ cohort;
  mv_new : cr_state r' = new ->
    cr_state r = new
    \/ (cr_state r = migrating /\ cr_checkpoint_phase r = cutover_ready /\ cr_destination_backend_bound r = true);
  mv_product : cr_ui_generation r <= cr_ui_generation r' /\ cr_api_generation r <= cr_api_generation r'
    /\ (cr_destination_backend_bound r = false ->
        cr_ui_generation r' = cr_ui_generation r /\ cr_api_generation r' = cr_api_generation r);
  mv_phase : cr_checkpoint_phase r' = cr_checkpoint_phase r
    \/ (cr_checkpoint_phase r' = inventory /\ cr_state r <> migrating /\ cr_state r' = migrating)
    \/ (cr_checkpoint_phase r' = completed /\ cr_checkpoint_phase r = cutover_ready
        /\ cr_destination_backend_bound r = true)
    \/ (cr_checkpoint_phase r' ∈ _CHECKPOINT_FORWARD (cr_checkpoint_phase r) /\ cr_state r = migrating
        /\ cr_state r' = migrating
        /\ (cr_checkpoint_phase r' ∈ [importing; verifying] -> cr_destination_backend_bound r = true))
}.

(** What is left of a call that has read [r]. *)
Inductive residual (cohort : gset string) (t uid : string) (r : AccountCutoverRecord) : prog unit -> Prop :=
| residual_done e : residual cohort t uid r (Done e)
| residual_write next existing k :
    moves cohort t r next -> (forall b, exists e, k b = Done e) ->
    residual cohort t uid r
      (Call (CasSet uid next (cr_account_generation r) (cr_checkpoint_token r) existing) k).

Lemma rebuild_moves cohort r offline phase ui api t r' :
  _rebuild_record r offline phase ui api t = Ok r' ->
  (fenced (cr_state r) = true -> offline = cr_offline_queue_instruction r) ->
  cr_ui_generation r <= ui /\ cr_api_generation r <= api
  /\ (cr_destination_backend_bound r = false -> ui = cr_ui_generation r /\ api = cr_api_generation r) ->
  phase = cr_checkpoint_phase r
  \/ (phase ∈ _CHECKPOINT_FORWARD (cr_checkpoint_phase r) /\ cr_state r = migrating
      /\ (phase ∈ [importing; verifying] -> cr_destination_backend_bound r = true)) ->
  moves cohort t r r'.
Proof.
  intros H Ho Hg Hp. apply validated_record_Ok in H as [-> Hv].
  constructor; simpl; try done; tauto.
Qed.

Lemma request_fits q : transition_request q = Ok q -> token_fits (tr_checkpoint_token q) = true /\ id_fits (tr_manifest_id q) = true.
Proof. unfold transition_request. case_match; [|done]. intros _. py_bools. done. Qed.

Lemma record_fits r : record_valid r = true ->
  cr_uid r <> "" /\ 0 <= cr_account_generation r /\ 0 <= cr_ui_generation r /\ 0 <= cr_api_generation r
  /\ token_fits (cr_checkpoint_token r) = true /\ id_fits (cr_manifest_id r) = true.
Proof. unfold record_valid. intros H. py_bools. by case_bool_decide. Qed.

Lemma record_valid_intro r :
  cr_uid r <> "" -> 0 <= cr_account_generation r -> 0 <= cr_ui_generation r -> 0 <= cr_api_generation r ->
  token_fits (cr_checkpoint_token r) = true -> id_fits (cr_manifest_id r) = true -> record_valid r = true.
Proof.
  intros Hu H1%Z.leb_le H2%Z.leb_le H3%Z.leb_le H4 H5. unfold record_valid.
  rewrite bool_decide_false by done. by rewrite H1, H2, H3, H4, H5.
Qed.

(** The fields of the record a transition returns. *)
Record transition_result (r : AccountCutoverRecord) (q : AccountCutoverTransitionRequest)
    (r' : AccountCutoverRecord) : Prop := {
  ts_uid : cr_uid r' = cr_uid r;
  ts_state : cr_state r' = tr_target_state q;
  ts_generation : cr_account_generation r' =
    cr_account_generation r
    + if bool_decide (tr_target_state q <> cr_state r) && fenced (tr_target_state q) then 1 else 0;
  ts_legal : tr_target_state q = cr_state r \/ tr_target_state q ∈ legal_transitions (cr_state r);
  ts_ui : cr_ui_generation r' = cr_ui_generation r;
  ts_api : cr_api_generation r' = cr_api_generation r;
  ts_offline : forall i, tr_offline_queue_instruction q = Some i -> cr_offline_queue_instruction r' = i;
  ts_phase : cr_checkpoint_phase r' = default (cr_checkpoint_phase r) (tr_checkpoint_phase q);
  ts_token : forall t, tr_checkpoint_token q = Some t -> cr_checkpoint_token r' = Some t;
  ts_bound : cr_destination_backend_bound r' = cr_destination_backend_bound r;
  ts_valid : record_valid r' = true
}.

Lemma transition_fields r q r' :
  record_valid r = true -> transition_request q = Ok q -> tr_next_account_generation q = None ->
  apply_cutover_transition r q = Ok r' -> transition_result r q r'.
Proof.
  intros (Hu & Hg & Hui & Hapi & Ht & Hm)%record_fits [Hqt Hqm]%request_fits Hn.
  assert (Hfit : token_fits (match tr_checkpoint_token q with Some t => Some t | None => cr_checkpoint_token r end) = true
    /\ id_fits (match tr_manifest_id q with Some m => Some m | None => cr_manifest_id r end) = true)
    by (split; by case_match).
  unfold apply_cutover_transition, next_generation. rewrite Hn. unfold fenced, _GENERATION_BUMP_STATES.
  destruct (tr_expected_account_generation q =? cr_account_generation r); [|done]. simpl negb. cbv iota.
  destruct (decide (tr_target_state q = cr_state r)) as [Hs|Hs].
  - rewrite bool_decide_true by done. unfold _refresh_same_state. intros H. inv_res.
    constructor; simpl; try done; try (by left);
      [rewrite bool_decide_false by (intros Hne; by apply Hne); simpl; lia|by intros ? ->|by intros ? ->|].
    apply record_valid_intro; simpl; try done; apply Hfit.
  - rewrite bool_decide_false by done. case_bool_decide as Hl; [done|].
    destruct (bool_decide (tr_target_state q ∈ [migrating; new])) eqn:Hb;
      (rewrite bool_decide_eq_true in Hb || rewrite bool_decide_eq_false in Hb);
      [rewrite (bool_decide_false (_ ∉ _)) by (by intros ?)|rewrite (bool_decide_true (_ ∉ _)) by done]; simpl andb;
      simpl; intros H; 
      first [destruct (_ <=? _) in H; [done|] | destruct (_ <? _) in H; [done|]]; inv_res.
    all: constructor; simpl; try done; try (by right).
    all: try (unfold fenced; rewrite (bool_decide_true (_ <> _)) by done;
              first [rewrite bool_decide_true by done | rewrite bool_decide_false by done]; simpl; lia).
    all: try (by intros ? ->).
    all: try (unfold next_offline; by intros ? ->).
    all: apply record_valid_intro; simpl; try done; try lia; apply Hfit.
Qed.

(** What a transition writes, when it names a token and an instruction. *)
Lemma transition_call_moves cohort r q t r' :
  record_valid r = true -> transition_request q = Ok q -> apply_cutover_transition r q = Ok r' ->
  tr_checkpoint_token q = Some t -> tr_offline_queue_instruction q = Some quarantine ->
  tr_next_account_generation q = None ->
  (tr_target_state q = migrating -> cr_state r <> migrating /\ cr_uid r ∈ cohort
     /\ tr_checkpoint_phase q = Some inventory) ->
  (tr_target_state q = new -> cr_checkpoint_phase r = cutover_ready /\ cr_destination_backend_bound r = true
     /\ tr_checkpoint_phase q = Some completed) ->
  (tr_target_state q ∉ [migrating; new] -> tr_checkpoint_phase q = None) ->
  moves cohort t r r'.
Proof.
  intros Hv Hq Ha Ht Ho Hn Hmig Hnew Hother.
  destruct (transition_fields r q r' Hv Hq Hn Ha) as [Hu Hs Hg Hl Hui Hapi Hoff Hph Htok Hbd Hval].
  specialize (Hoff _ Ho). specialize (Htok _ Ht). rewrite <-Hs in *.
  constructor; try done.
  - rewrite Hg. destruct (decide (cr_state r' = cr_state r)) as [Hc|Hc].
    + left. split; [done|]. rewrite bool_decide_false by (intros Hne; by apply Hne). simpl. lia.
    + right. rewrite bool_decide_true by done. destruct Hl; [done|]. done.
  - by left.
  - intros Hm. right. by apply Hmig.
  - intros Hm. destruct (decide (cr_state r = new)) as [|Hc]; [by left|]. right.
    destruct (Hnew Hm) as (? & ? & ?). split_and!; [|done|done].
    destruct Hl as [Hl|Hl]; [congruence|]. rewrite Hm in Hl. destruct (cr_state r); set_solver.
  - rewrite Hui, Hapi. split_and!; [lia|lia|done].
  - rewrite Hph. destruct (decide (cr_state r' = migrating)) as [Hm|Hm].
    { destruct (Hmig Hm) as (? & ? & ->). simpl. right; left. done. }
    destruct (decide (cr_state r' = new)) as [Hm'|Hm'].
    { destruct (Hnew Hm') as (? & ? & ->). simpl. right; right; left. done. }
    rewrite Hother by set_solver. by left.
Qed.

(** ** The calls

    [call_shape]: a call stops, or reads the record of its account and then stops
    or writes one step of it. *)
Inductive call_shape (cohort : gset string) (t uid : string) : prog unit -> Prop :=
| shape_done e : call_shape cohort t uid (Done e)
| shape_read k :
    (forall r, record_valid r = true -> cr_uid r = uid -> residual cohort t uid r (k r)) ->
    call_shape cohort t uid (Call (GetRecord uid) k).

Lemma minted_Ok minted explicit t : _mint_checkpoint_token minted explicit = Ok t -> t = default minted explicit.
Proof. unfold _mint_checkpoint_token. destruct explicit; [case_match; [done|]|]; by intros [= ->]. Qed.

Lemma open_not_fenced s : s ∈ open_states -> fenced s = false.
Proof. unfold open_states. intros H. destruct s; try done; set_solver. Qed.

Lemma drain_shape cohort uid t : call_shape cohort t uid (forget (prepare_offline_drain uid t)).
Proof.
  apply shape_read. intros r Hv Hu. simpl.
  case_bool_decide as Hs; [apply residual_done|]. case_bool_decide; [apply residual_done|].
  simpl. destruct (_rebuild_record _ _ _ _ _ _) as [r'|] eqn:E; [|apply residual_done]. simpl.
  apply residual_write; [|by eexists].
  eapply rebuild_moves; [exact E| |lia|by left].
  rewrite open_not_fenced by done. done.
Qed.

Lemma checkpoint_shape cohort uid phase expected explicit t :
  call_shape cohort (default t explicit) uid (forget (checkpoint uid phase expected explicit t)).
Proof.
  apply shape_read. intros r Hv Hu. simpl.
  destruct (bool_decide (cr_state r = migrating)) eqn:Hs; [|apply residual_done].
  apply bool_decide_eq_true in Hs. simpl.
  destruct (_ && _); [apply residual_done|]. case_bool_decide; [apply residual_done|].
  case_bool_decide; [apply residual_done|]. case_bool_decide as Hf; [apply residual_done|].
  destruct (bool_decide (phase ∈ [importing; verifying]) && _) eqn:Hb; [apply residual_done|].
  destruct (_mint_checkpoint_token t explicit) as [token|] eqn:Et; [|apply residual_done].
  apply minted_Ok in Et as ->. simpl.
  destruct (_rebuild_record _ _ _ _ _ _) as [r'|] eqn:E; [|apply residual_done]. simpl.
  apply residual_write; [|by eexists].
  eapply rebuild_moves; [exact E|done|lia|]. right. split_and!; [by destruct (decide (phase ∈ _CHECKPOINT_FORWARD (cr_checkpoint_phase r)))|done|].
  intros Hin. rewrite bool_decide_true in Hb by done. by apply negb_false_iff in Hb.
Qed.

Lemma bind_shape cohort uid ui api generation t :
  call_shape cohort t uid (forget (bind_destination_product_generations uid ui api generation t)).
Proof.
  unfold bind_destination_product_generations. destruct (_ || _); [apply shape_done|].
  apply shape_read. intros r Hv Hu. simpl.
  destruct (negb (cr_account_generation r =? generation)); [apply residual_done|].
  destruct (cr_destination_backend_bound r) eqn:Hb; [|apply residual_done]. simpl.
  destruct ((ui <? cr_ui_generation r) || (api <? cr_api_generation r)) eqn:Hg; [apply residual_done|]. simpl.
  destruct (_rebuild_record _ _ _ _ _ _) as [r'|] eqn:E; [|apply residual_done]. simpl.
  apply residual_write; [|by eexists]. apply orb_false_iff in Hg as [H1%Z.ltb_ge H2%Z.ltb_ge].
  eapply rebuild_moves; [exact E|done| |by left]. split_and!; [lia|lia|congruence].
Qed.

(** The three methods that go through a transition: [transition_call] runs its two
    fallible steps and leaves the step that the write makes. *)
Lemma request_same q q' : transition_request q = Ok q' -> q' = q.
Proof. unfold transition_request. case_match; [by intros [= ->]|done]. Qed.

Ltac transition_call :=
  simpl;
  match goal with |- context [transition_request ?q] =>
    let Hq := fresh "Hq" in let q' := fresh "q" in
    destruct (transition_request q) as [q'|] eqn:Hq; [|apply residual_done]; simpl;
    pose proof (request_same _ _ Hq); subst q'
  end;
  match goal with |- context [apply_cutover_transition ?r ?q] =>
    let Ha := fresh "Ha" in
    destruct (apply_cutover_transition r q) eqn:Ha; [|apply residual_done]; simpl
  end;
  apply residual_write; [eapply transition_call_moves; try done; simpl; try done; try set_solver|by eexists].

Lemma begin_shape cohort uid reason t hex : call_shape cohort t uid (forget (begin cohort uid reason t hex)).
Proof.
  unfold begin. destruct (is_account_cutover_cohort_member cohort uid) eqn:Hm; [|apply shape_done].
  apply shape_read. intros r Hv Hu. simpl. destruct (_ && _); [apply residual_done|].
  case_bool_decide as Hs; [apply residual_done|].
  assert (Hin : uid ∈ cohort).
  { unfold is_account_cutover_cohort_member in Hm. apply andb_true_iff in Hm as [_ Hm]. by case_bool_decide. }
  transition_call. intros _. rewrite Hu. split_and!; [|done|done].
  intros Hm'. apply open_not_fenced in Hs. by rewrite Hm' in Hs.
Qed.

Lemma complete_shape cohort uid generation t : call_shape cohort t uid (forget (complete_to_new uid generation t)).
Proof.
  apply shape_read. intros r Hv Hu. simpl. destruct (_ && _).
  { destruct (negb (cr_account_generation r =? generation)); apply residual_done. }
  destruct (bool_decide (cr_checkpoint_phase r = cutover_ready)) eqn:Hp; [|apply residual_done].
  apply bool_decide_eq_true in Hp. simpl.
  destruct (cr_destination_backend_bound r) eqn:Hb; [|apply residual_done].
  transition_call.
Qed.

Lemma rollback_shape cohort uid generation stranded t :
  call_shape cohort t uid (forget (rollback_lossy uid generation stranded t)).
Proof. apply shape_read. intros r Hv Hu. transition_call. Qed.

Lemma coordinator_call_shape cohort uid t p : coordinator_call cohort uid t p -> call_shape cohort t uid p.
Proof.
  intros [].
  - apply drain_shape.
  - apply begin_shape.
  - apply checkpoint_shape.
  - apply bind_shape.
  - apply complete_shape.
  - apply rollback_shape.
Qed.

(** ** The compare and set *)
Lemma cas_match g t g' t' b u :
  (b = false -> t = None) -> _assert_cas_matches g t g' t' b = Ok u -> g = g' /\ t = t'.
Proof.
  intros Hb. unfold _assert_cas_matches. destruct (g =? g') eqn:Hg; [|done]. apply Z.eqb_eq in Hg as ->. simpl.
  intros H. split; [done|].
  destruct (decide (t = t')) as [|Hne]; [done|]. rewrite (bool_decide_false (t = t')) in H by done.
  rewrite orb_true_r in H. simpl in H. rewrite andb_true_r in H.
  destruct b; simpl in H; repeat (case_bool_decide; simpl in H); try congruence.
  by rewrite Hb, H0.
Qed.

(** The record a read of the document [cur] returns. *)
Definition record_at (uid : string) (cur : option fields) : res AccountCutoverRecord :=
  match cur with Some d => _parse_bound_record uid d | None => default_legacy_record uid end.

Lemma get_record_at uid s : get_account_cutover_record uid s = record_at uid (s !! _control_ref uid).
Proof. done. Qed.

Lemma cas_Ok uid next g tok existing s b s' :
  cas_set_account_cutover_record uid next g tok existing s = Ok (b, s') ->
  cr_uid next = uid /\ b = next /\ s' = <[_control_ref uid := list_to_map (persisted_payload next)]> s
  /\ match s !! _control_ref uid with
     | Some d => exists r, _parse_bound_record uid d = Ok r /\ cr_account_generation r = g /\ cr_checkpoint_token r = tok
     | None => g = 0 /\ tok = None
     end.
Proof.
  unfold cas_set_account_cutover_record. case_bool_decide as Hu; [|done]. simpl.
  unfold cas_transaction. txn_eval.
  destruct (_read_current_generation_and_token _ _ _) as [[cg ct]|] eqn:Hr; [|done]. simpl.
  destruct (_assert_cas_matches _ _ _ _ _) eqn:Hc; [|done]. simpl. intros [= <- <-].
  unfold _read_current_generation_and_token in Hr. destruct (s !! _) as [d|].
  - inv_res. apply cas_match in Hc as [<- <-]; [|by rewrite bool_decide_false]. eauto 10.
  - case_match; [done|]. simplify_eq. apply cas_match in Hc as [<- <-]; done.
Qed.

(** ** Calls in flight

    [stale]: the record a call has read was replaced, and no call that can still
    write has its token.  [dead] are the tokens that were written or given up. *)
Definition stale (cur : option fields) (uid : string) (dead : gset string) (r : AccountCutoverRecord) : Prop :=
  (exists c, cur <> None /\ record_at uid cur = Ok c /\ cr_checkpoint_token c <> None
             /\ cr_checkpoint_token c <> cr_checkpoint_token r)
  /\ (forall t, cr_checkpoint_token r = Some t -> t ∈ dead).

(** The state of one call in flight, [own] its token until it writes. *)
Inductive in_flight (cohort : gset string) (uid : string) (cur : option fields) (dead : gset string)
  : prog unit -> option string -> Prop :=
| flight_done e own : in_flight cohort uid cur dead (Done e) own
| flight_unread t p : coordinator_call cohort uid t p -> in_flight cohort uid cur dead p (Some t)
| flight_read t k d r :
    coordinator_call cohort uid t (Call (GetRecord uid) k) -> record_at uid d = Ok r ->
    cur = d \/ stale cur uid dead r ->
    in_flight cohort uid cur dead (k r) (Some t).

Definition flights (cohort : gset string) (uid : string) (s : system) (own : list (option string))
    (dead : gset string) : Prop :=
  let cur := sys_store s !! _control_ref uid in
  Forall2 (in_flight cohort uid cur dead) (sys_calls s) own
  /\ NoDup (omap id own)
  /\ (forall t, Some t ∈ own -> t ∈ sys_used s /\ t ∉ dead)
  /\ dead ⊆ sys_used s
  /\ (forall r t, cur <> None -> record_at uid cur = Ok r -> cr_checkpoint_token r = Some t -> t ∈ dead).

(** One call with no other between its accesses, or a step of another actor. *)
Inductive atomic_step (cohort : gset string) (uid : string) : db -> db -> Prop :=
| atomic_call t p s : coordinator_call cohort uid t p -> atomic_step cohort uid s (run_cutover p s).2
| atomic_other s s' : s' !! _control_ref uid = s !! _control_ref uid -> atomic_step cohort uid s s'.

(** A write of the document keeps the other calls in flight: their reads go stale. *)
Lemma in_flight_overwritten cohort uid cur dead next t p own :
  in_flight cohort uid cur dead p own -> t ∉ dead ->
  record_valid next = true -> cr_uid next = uid -> cr_checkpoint_token next = Some t ->
  (forall r t, cur <> None -> record_at uid cur = Ok r -> cr_checkpoint_token r = Some t -> t ∈ dead) ->
  in_flight cohort uid (Some (list_to_map (persisted_payload next))) ({[t]} ∪ dead) p own.
Proof.
  intros Hp Ht Hv Hu Htok Hcur. destruct Hp as [|t' p Hc|t' k d r Hc Hr Hs]; [by constructor|by constructor|].
  apply (flight_read _ _ _ _ t' k d r Hc Hr). right.
  assert (Hdead : forall u, cr_checkpoint_token r = Some u -> u ∈ dead).
  { intros u Htu. destruct Hs as [->|[_ Hs]]; [|by apply Hs]. destruct d as [d|]; [by eapply Hcur|].
    apply validated_record_Ok in Hr as [-> _]. done. }
  split; [|set_solver]. exists next. split_and!; [done|by apply bound_read_back|by rewrite Htok|].
  rewrite Htok. intros Heq. symmetry in Heq. by apply Hdead in Heq.
Qed.

Lemma in_flight_dead cohort uid cur dead dead' p own :
  in_flight cohort uid cur dead p own -> dead ⊆ dead' -> in_flight cohort uid cur dead' p own.
Proof.
  intros Hp Hd. destruct Hp as [|t' p Hc|t' k d r Hc Hr Hs]; [by constructor|by constructor|].
  apply (flight_read _ _ _ _ t' k d r Hc Hr). destruct Hs as [?|[? Hs]]; [by left|right]. split; [done|]. set_solver.
Qed.

Lemma flights_finish cohort uid s ts1 p ts2 used own dead e :
  flights cohort uid (System s (ts1 ++ p :: ts2) used) own dead ->
  flights cohort uid (System s (ts1 ++ Done e :: ts2) used) own dead.
Proof.
  intros (Hf & Hrest). split; [|exact Hrest]. simpl in *.
  apply Forall2_app_inv_l in Hf as (own1 & own2 & H1 & H2 & ->).
  apply Forall2_cons_inv_l in H2 as (o & own2' & _ & H2 & ->).
  apply Forall2_app; [done|]. constructor; [constructor|done].
Qed.

(** A call that reads. *)
Lemma flights_read cohort uid s ts1 k r t ts2 used own1 own2 dead :
  coordinator_call cohort uid t (Call (GetRecord uid) k) -> get_account_cutover_record uid s = Ok r ->
  flights cohort uid (System s (ts1 ++ Call (GetRecord uid) k :: ts2) used) (own1 ++ Some t :: own2) dead ->
  length ts1 = length own1 ->
  flights cohort uid (System s (ts1 ++ k r :: ts2) used) (own1 ++ Some t :: own2) dead.
Proof.
  intros Hc Hr (Hf & Hrest) Hlen. split; [|exact Hrest]. simpl in *.
  apply Forall2_app_inv in Hf as [H1 H2]; [|done]. apply Forall2_cons_1 in H2 as [_ H2].
  apply Forall2_app; [done|]. constructor; [|done].
  eapply flight_read; [exact Hc|exact Hr|by left].
Qed.

(** A call that writes; its token is no longer its own. *)
Lemma flights_write cohort uid s ts1 p p' t ts2 used own1 own2 dead next :
  flights cohort uid (System s (ts1 ++ p :: ts2) used) (own1 ++ Some t :: own2) dead ->
  length ts1 = length own1 -> (exists e, p' = Done e) ->
  record_valid next = true -> cr_uid next = uid -> cr_checkpoint_token next = Some t ->
  flights cohort uid
    (System (<[_control_ref uid := list_to_map (persisted_payload next)]> s) (ts1 ++ p' :: ts2) used)
    (own1 ++ None :: own2) ({[t]} ∪ dead).
Proof.
  intros (Hf & Hnd & Hown & Hdead & Hcur) Hlen [e ->] Hv Hu Ht. unfold flights. cbn [sys_store sys_calls sys_used] in *.
  apply Forall2_app_inv in Hf as [H1 H2]; [|done]. apply Forall2_cons_1 in H2 as [_ H2].
  destruct (Hown t) as [Hused Hnt]; [set_solver|].
  rewrite omap_app in Hnd. simpl in Hnd. apply NoDup_app in Hnd as (Hnd1 & Hdis & Hnd2).
  apply NoDup_cons in Hnd2 as [Hnt2 Hnd2].
  rewrite lookup_insert_eq. split_and!.
  - apply Forall2_app; [|constructor; [constructor|]].
    + eapply Forall2_impl; [exact H1|]. intros q o Hq. by eapply in_flight_overwritten.
    + eapply Forall2_impl; [exact H2|]. intros q o Hq. by eapply in_flight_overwritten.
  - rewrite omap_app. simpl. apply NoDup_app. split_and!; [done| |done]. set_solver.
  - intros u Hin. assert (Hin' : Some u ∈ own1 ++ Some t :: own2) by set_solver.
    destruct (Hown u Hin'). split; [done|]. assert (u <> t); [|set_solver]. intros ->.
    assert (t ∈ omap id own1 \/ t ∈ omap id own2) as [Ho|Ho].
    { rewrite !list_elem_of_omap. apply elem_of_app in Hin as [Hin|Hin]; [left; by exists (Some t)|].
      right. exists (Some t). set_solver. }
    + eapply Hdis; [exact Ho|]. by constructor.
    + done.
  - set_solver.
  - intros r u _ Hr Htu. unfold record_at in Hr. rewrite bound_read_back in Hr by done. simplify_eq. set_solver.
Qed.

Lemma run_read cohort uid k r s next g tok existing k' b s' :
  get_account_cutover_record uid s = Ok r -> k r = Call (CasSet uid next g tok existing) k' ->
  cas_set_account_cutover_record uid next g tok existing s = Ok (b, s') -> (forall b, exists e, k' b = Done e) ->
  coordinator_call cohort uid (default "" (cr_checkpoint_token next)) (Call (GetRecord uid) k) ->
  atomic_step cohort uid s s'.
Proof.
  intros Hr Hk Hcas Hdone Hc. destruct (Hdone b) as [e He].
  assert (s' = (run_cutover (Call (GetRecord uid) k) s).2) as ->; [|by eapply atomic_call].
  simpl. rewrite Hr. simpl. rewrite Hk. simpl. rewrite Hcas. by rewrite He.
Qed.

(** An access of a call that succeeds. *)
Lemma flights_access cohort uid s ts1 c k ts2 used own dead b s' :
  flights cohort uid (System s (ts1 ++ Call c k :: ts2) used) own dead -> exec_cutover c s = Ok (b, s') ->
  (exists own' dead', flights cohort uid (System s' (ts1 ++ k b :: ts2) used) own' dead')
  /\ rtc (atomic_step cohort uid) s s'.
Proof.
  intros Hfl He. pose proof Hfl as (Hf & Hnd & Hown & Hdead & Hcur). cbn [sys_store sys_calls sys_used] in *.
  apply Forall2_app_inv_l in Hf as (own1 & own2 & H1 & H2 & ->).
  apply Forall2_cons_inv_l in H2 as (o & own2' & Hp & H2 & ->).
  pose proof (Forall2_length _ _ _ H1) as Hlen.
  remember (Call c k) as p eqn:Ep. destruct Hp as [e own|t p Hc|t k0 d r Hc Hr Hs]; [done| |].
  - subst p. pose proof (coordinator_call_shape _ _ _ _ Hc) as Hsh. inversion Hsh; subst.
    simpl in He. apply res_bind_Ok in He as (r & Hr & [= <- <-]).
    split; [|reflexivity]. eexists _, _. by eapply flights_read.
  - pose proof (coordinator_call_shape _ _ _ _ Hc) as Hsh. inversion Hsh as [|k1 Hres E1]; subst.
    assert (Hval : record_valid r = true /\ cr_uid r = uid).
    { destruct d; [by eapply parse_bound_valid|]. by apply validated_record_Ok in Hr as [-> ?]. }
    specialize (Hres r (proj1 Hval) (proj2 Hval)). rewrite Ep in Hres.
    inversion Hres as [|next existing k' Hm Hdone E1]; subst. simpl in He.
    pose proof (cas_Ok _ _ _ _ _ _ _ _ He) as (Hu & -> & -> & Hmatch).
    assert (Hsame : s !! _control_ref uid = d).
    { destruct Hs as [->|[(c & Hne & Hc' & Htn & Htd) _]]; [done|]. exfalso.
      destruct (s !! _control_ref uid) as [d'|]; [|done].
      destruct Hmatch as (r1 & Hr1 & _ & Ht1). simpl in Hc'. rewrite Hr1 in Hc'. simplify_eq. }
    split.
    + eexists _, _. eapply flights_write; [exact Hfl|done|apply Hdone|apply Hm|exact Hu|apply Hm].
    + apply rtc_once. eapply run_read; [|exact Ep|exact He|exact Hdone|].
      * by rewrite get_record_at, Hsame.
      * by rewrite (mv_token _ _ _ _ Hm).
Qed.

Lemma flights_gone cohort uid s ts1 p ts2 used own dead :
  flights cohort uid (System s (ts1 ++ p :: ts2) used) own dead ->
  exists own', flights cohort uid (System s (ts1 ++ ts2) used) own' dead.
Proof.
  intros (Hf & Hnd & Hown & Hrest). cbn [sys_store sys_calls sys_used] in *.
  apply Forall2_app_inv_l in Hf as (own1 & own2 & H1 & H2 & ->).
  apply Forall2_cons_inv_l in H2 as (o & own2' & _ & H2 & ->).
  exists (own1 ++ own2'). split; [by apply Forall2_app|]. split_and!; [|set_solver|apply Hrest..].
  revert Hnd. rewrite !omap_app. destruct o; simpl; [|done].
  intros (? & Hd & [_ ?]%NoDup_cons)%NoDup_app. apply NoDup_app. split_and!; [done|set_solver|done].
Qed.

Lemma flights_start cohort uid s ts t p used own dead :
  flights cohort uid (System s ts used) own dead -> coordinator_call cohort uid t p -> t ∉ used ->
  flights cohort uid (System s (ts ++ [p]) ({[t]} ∪ used)) (own ++ [Some t]) dead.
Proof.
  intros (Hf & Hnd & Hown & Hdead & Hcur) Hp Ht. cbn [sys_store sys_calls sys_used] in *.
  split; [apply Forall2_app; [done|]; constructor; [by apply flight_unread|constructor]|].
  cbn [sys_store sys_calls sys_used]. split_and!; [| |set_solver|done].
  - rewrite omap_app. apply NoDup_app. split_and!; [done| |apply NoDup_singleton].
    intros u Hu. rewrite list_elem_of_omap in Hu. destruct Hu as (o & Ho & Hid). unfold id in Hid. subst o.
    apply Hown in Ho. simpl. set_solver.
  - intros u [Hu|Hu]%elem_of_app.
    + apply Hown in Hu. set_solver.
    + apply list_elem_of_singleton in Hu. simplify_eq. set_solver.
Qed.

(** A step of the calls in flight keeps them apart and is a step of atomic calls. *)
Lemma flights_step cohort uid sys sys' own dead :
  system_step cohort uid sys sys' -> flights cohort uid sys own dead ->
  (exists own' dead', flights cohort uid sys' own' dead')
  /\ rtc (atomic_step cohort uid) (sys_store sys) (sys_store sys').
Proof.
  intros Hst Hfl. destruct Hst as [s c k b s' ts1 ts2 used He|s c k e ts1 ts2 used He|s c k e ts1 ts2 used
    |s c k b s' e ts1 ts2 used He|s t ts1 ts2 used|s ts t p used Hp Ht|s s' ts used Hs].
  - by eapply flights_access.
  - split; [|reflexivity]. eexists _, _. by eapply flights_finish.
  - split; [|reflexivity]. eexists _, _. by eapply flights_finish.
  - destruct (flights_access _ _ _ _ _ _ _ _ _ _ _ _ Hfl He) as [(own' & dead' & Hfl') Hr]. split; [|done].
    eexists _, _. by eapply flights_finish.
  - split; [|reflexivity]. destruct (flights_gone _ _ _ _ _ _ _ _ _ Hfl) as [own' ?]. by eexists _, _.
  - split; [|reflexivity]. eexists _, _. by eapply flights_start.
  - split; [|by apply rtc_once, atomic_other]. exists own, dead.
    unfold flights in *. cbn [sys_store sys_calls sys_used] in *. by rewrite Hs.
Qed.

(** No call is in flight and the token of the record is used. *)
Definition quiet (uid : string) (s : db) (used : gset string) : Prop :=
  forall r t, get_account_cutover_record uid s = Ok r -> cr_checkpoint_token r = Some t -> t ∈ used.

Lemma flights_steps cohort uid sys sys' own dead :
  rtc (system_step cohort uid) sys sys' -> flights cohort uid sys own dead ->
  (exists own' dead', flights cohort uid sys' own' dead')
  /\ rtc (atomic_step cohort uid) (sys_store sys) (sys_store sys').
Proof.
  intros Hr. revert own dead. induction Hr as [|sys1 sys2 sys3 Hst _ IH]; intros own dead Hfl; [by split; [eauto|]|].
  destruct (flights_step _ _ _ _ _ _ Hst Hfl) as [(own' & dead' & Hfl') Hat].
  destruct (IH _ _ Hfl') as [Hend Hrest]. split; [done|]. by etrans.
Qed.

Lemma quiet_flights cohort uid s used : quiet uid s used -> flights cohort uid (System s [] used) [] used.
Proof.
  intros Hq. split; [constructor|]. cbn [sys_store sys_calls sys_used].
  split_and!; [apply NoDup_nil_2|set_solver|done|]. intros r t _ Hr'. by apply Hq.
Qed.

Lemma flights_history cohort uid s used sys :
  quiet uid s used -> rtc (system_step cohort uid) (System s [] used) sys ->
  rtc (atomic_step cohort uid) s (sys_store sys).
Proof. intros Hq Hr. apply (flights_steps _ _ _ _ _ _ Hr (quiet_flights _ _ _ _ Hq)). Qed.

(** ** Histories of the record *)
Lemma atomic_moves cohort uid s s' :
  atomic_step cohort uid s s' ->
  s' !! _control_ref uid = s !! _control_ref uid
  \/ exists t r r', get_account_cutover_record uid s = Ok r /\ get_account_cutover_record uid s' = Ok r'
                   /\ moves cohort t r r'.
Proof.
  intros [t p s0 Hc|]; [|by left].
  destruct (coordinator_call_shape _ _ _ _ Hc) as [e|k Hk]; [by left|]. simpl.
  destruct (get_account_cutover_record uid s0) as [r|] eqn:Hr; [|by left]. simpl.
  destruct (get_record_valid _ _ _ Hr) as [Hv Hu].
  destruct (Hk r Hv Hu) as [e|next existing k' Hm Hdone]; [by left|]. simpl.
  destruct (cas_set_account_cutover_record _ _ _ _ _ _) as [[b s1]|] eqn:Hcas; [|by left].
  destruct (Hdone b) as [e ->]. simpl. right. exists t, r, next. split; [done|].
  destruct (cas_Ok _ _ _ _ _ _ _ _ Hcas) as (Hu' & -> & -> & _). split; [|exact Hm].
  rewrite get_record_at, lookup_insert_eq. apply bound_read_back; [apply Hm|done].
Qed.

Definition record_step (cohort : gset string) (r r' : AccountCutoverRecord) : Prop := exists t, moves cohort t r r'.

Lemma atomic_history cohort uid s s' r :
  rtc (atomic_step cohort uid) s s' -> get_account_cutover_record uid s = Ok r ->
  exists r', get_account_cutover_record uid s' = Ok r' /\ rtc (record_step cohort) r r'.
Proof.
  intros Hr. revert r. induction Hr as [|s1 s2 s3 Hst _ IH]; intros r Hget; [by exists r|].
  destruct (atomic_moves _ _ _ _ Hst) as [Hs|(t & r1 & r2 & H1 & H2 & Hm)].
  - apply IH. by rewrite get_record_at, Hs, <-get_record_at.
  - rewrite H1 in Hget. injection Hget as ->. destruct (IH _ H2) as (r' & Hr' & Hrtc). exists r'. split; [done|].
    eapply rtc_l; [exists t; exact Hm|exact Hrtc].
Qed.

(** The history from a later point of a run. *)
Lemma flights_suffix cohort uid s used sys1 sys2 r :
  quiet uid s used -> rtc (system_step cohort uid) (System s [] used) sys1 -> rtc (system_step cohort uid) sys1 sys2 ->
  get_account_cutover_record uid (sys_store sys1) = Ok r ->
  exists r', get_account_cutover_record uid (sys_store sys2) = Ok r' /\ rtc (record_step cohort) r r'.
Proof.
  intros Hq H1 H2 Hr. destruct (flights_steps _ _ _ _ _ _ H1 (quiet_flights _ _ _ _ Hq)) as [(own & dead & Hfl) _].
  eapply atomic_history; [|exact Hr]. apply (flights_steps _ _ _ _ _ _ H2 Hfl).
Qed.
