(* ===== verification/CutoverTheorems.v ===== *)
(** * Theorems about the cutover of an account

    The concurrent calls of the coordinator are atomic, what their histories can do
    to the record of an account, and what a request may do at each point of such a
    history. *)

From S2P Require Import Prelude PyValue Firestore MemoryText MemoryRecords AccountCutover CutoverCoordinator CutoverAccess CutoverProofs.
From Stdlib Require Import QArith_base Ascii.
Local Open Scope Z_scope.

(** ** Facts kept along a history of the record *)
Definition legal_step (a b : AccountCutoverState) : Prop := b ∈ legal_transitions a.

Definition quarantined (r : AccountCutoverRecord) : Prop :=
  fenced (cr_state r) = true -> cr_offline_queue_instruction r = quarantine.

Lemma step_generation cohort r r' : record_step cohort r r' -> cr_account_generation r <= cr_account_generation r'.
Proof. intros [t Hm]. destruct (mv_state _ _ _ _ Hm) as [[_ ->]|[_ ->]]; [lia|]. case_match; lia. Qed.

Lemma history_generation cohort r r' :
  rtc (record_step cohort) r r' -> cr_account_generation r <= cr_account_generation r'.
Proof. induction 1 as [|x y z Hxy _ IH]; [lia|]. apply step_generation in Hxy. lia. Qed.

(** Entering a fenced state takes a new generation. *)
Lemma history_fence cohort r r' :
  rtc (record_step cohort) r r' -> fenced (cr_state r) = false -> fenced (cr_state r') = true ->
  cr_account_generation r < cr_account_generation r'.
Proof.
  induction 1 as [|x y z Hxy Hyz IH]; [congruence|]. intros Hx Hz.
  destruct (fenced (cr_state y)) eqn:Hy.
  - apply history_generation in Hyz. destruct Hxy as [t Hm].
    destruct (mv_state _ _ _ _ Hm) as [[Hs _]|[_ Hg]]; [congruence|]. rewrite Hy in Hg. lia.
  - apply step_generation in Hxy. specialize (IH eq_refl Hz). lia.
Qed.

Lemma history_legal cohort r r' : rtc (record_step cohort) r r' -> rtc legal_step (cr_state r) (cr_state r').
Proof.
  induction 1 as [|x y z [t Hm] _ IH]; [reflexivity|].
  destruct (mv_state _ _ _ _ Hm) as [[<- _]|[Hl _]]; [done|]. by eapply rtc_l.
Qed.

Lemma history_quarantined cohort r r' : rtc (record_step cohort) r r' -> quarantined r -> quarantined r'.
Proof.
  induction 1 as [|x y z [t Hm] _ IH]; [done|]. intros Hq. apply IH. intros Hf.
  destruct (mv_quarantine _ _ _ _ Hm Hf) as [|[Hs Ho]]; [done|]. rewrite Ho. apply Hq. by rewrite <-Hs.
Qed.

Lemma history_product cohort r r' :
  rtc (record_step cohort) r r' ->
  cr_ui_generation r <= cr_ui_generation r' /\ cr_api_generation r <= cr_api_generation r'
  /\ cr_destination_backend_bound r' = cr_destination_backend_bound r /\ cr_uid r' = cr_uid r.
Proof.
  induction 1 as [|x y z [t Hm] _ IH]; [done|].
  destruct (mv_product _ _ _ _ Hm) as (? & ? & _). rewrite <-(mv_bound _ _ _ _ Hm), <-(mv_uid _ _ _ _ Hm).
  destruct IH as (? & ? & -> & ->). split_and!; [lia|lia|done|done].
Qed.

(** Nothing of the forward migration past the export is reached without a
    destination. *)
Definition destination_phases : list AccountCutoverCheckpointPhase := [importing; verifying; cutover_ready; completed].

Definition before_destination (r : AccountCutoverRecord) : Prop :=
  cr_destination_backend_bound r = false /\ cr_state r <> new /\ cr_checkpoint_phase r ∉ destination_phases.

Lemma step_before_destination cohort t r r' :
  moves cohort t r r' -> before_destination r ->
  before_destination r' /\ cr_ui_generation r' = cr_ui_generation r /\ cr_api_generation r' = cr_api_generation r.
Proof.
  intros Hm (Hb & Hs & Hp). destruct (mv_product _ _ _ _ Hm) as (_ & _ & Hg). destruct (Hg Hb) as [-> ->].
  split; [|done]. split_and!.
  - by rewrite (mv_bound _ _ _ _ Hm).
  - intros Hn. destruct (mv_new _ _ _ _ Hm Hn) as [|(_ & _ & ?)]; congruence.
  - destruct (mv_phase _ _ _ _ Hm) as [->|[(-> & _)|[(_ & _ & ?)|(Hf & _ & _ & Hd)]]]; [done| |congruence|].
    + unfold destination_phases. set_solver.
    + intros Hin. assert (Hnd : cr_checkpoint_phase r' ∉ [importing; verifying]).
      { intros Hi. apply Hd in Hi. congruence. }
      destruct (cr_checkpoint_phase r); simpl in Hf;
        repeat (apply elem_of_cons in Hf as [Hf|Hf]; [rewrite Hf in *; unfold destination_phases in *; set_solver|]);
        by apply elem_of_nil in Hf.
Qed.

Lemma history_before_destination cohort r r' :
  rtc (record_step cohort) r r' -> before_destination r ->
  before_destination r' /\ cr_ui_generation r' = cr_ui_generation r /\ cr_api_generation r' = cr_api_generation r.
Proof.
  induction 1 as [|x y z [t Hm] _ IH]; [done|]. intros Hx.
  destruct (step_before_destination _ _ _ _ Hm Hx) as (Hy & <- & <-). by apply IH.
Qed.

(** An account that is not enrolled stays as it is. *)
Lemma history_not_enrolled cohort r r' :
  rtc (record_step cohort) r r' -> cr_uid r ∉ cohort -> cr_state r = legacy ->
  cr_state r' = legacy /\ cr_account_generation r' = cr_account_generation r.
Proof.
  induction 1 as [|x y z [t Hm] _ IH]; [done|]. intros Hu Hs.
  rewrite <-(mv_uid _ _ _ _ Hm) in Hu. destruct (mv_state _ _ _ _ Hm) as [[Hy <-]|[Hl _]].
  - apply IH; [done|congruence].
  - exfalso. rewrite Hs in Hl. simpl in Hl. apply list_elem_of_singleton in Hl.
    destruct (mv_enrolled _ _ _ _ Hm Hl) as [?|Hc]; [congruence|]. by rewrite (mv_uid _ _ _ _ Hm) in Hu.
Qed.

(** ** The calls *)

(** A run of the calls in flight from a quiet store. *)
Definition coordinator_run (cohort : gset string) (uid : string) (s : db) (sys : system) : Prop :=
  exists used, quiet uid s used /\ rtc (system_step cohort uid) (System s [] used) sys.

Lemma run_history cohort uid s sys r :
  coordinator_run cohort uid s sys -> get_account_cutover_record uid s = Ok r ->
  exists r', get_account_cutover_record uid (sys_store sys) = Ok r' /\ rtc (record_step cohort) r r'.
Proof. intros (used & Hq & Hr) Hget. eapply atomic_history; [by eapply flights_history|done]. Qed.

(** C13: (refinement) However the calls of the coordinator on an account interleave,
    are lost or die between their read and their write, the stores they produce are
    those of a sequence of whole calls, each run with no other between its two
    accesses, provided no two calls use the same checkpoint token. *)
Theorem coordinator_calls_are_atomic cohort uid s sys :
  coordinator_run cohort uid s sys -> rtc (atomic_step cohort uid) s (sys_store sys).
Proof. intros (used & Hq & Hr). by eapply flights_history. Qed.

(** C15: (invariant) In every interleaving of the coordinator's calls in which no two
    calls use the same checkpoint token ([coordinator_run]), the account moves along
    legal transitions only; its generation and its product generations never
    decrease; leaving the open states takes a larger generation; the destination
    binding does not change; and in [migrating] and [new] the offline queues stay
    quarantined.  The condition on tokens is needed: a call accepts an explicit token
    that is in use, and two calls may then overwrite each other
    ([CutoverDemo.reused_token_defeats_the_cas]). *)
Theorem cutover_moves_along_legal_transitions cohort uid s sys r :
  coordinator_run cohort uid s sys -> get_account_cutover_record uid s = Ok r ->
  exists r', get_account_cutover_record uid (sys_store sys) = Ok r'
    /\ rtc legal_step (cr_state r) (cr_state r')
    /\ cr_account_generation r <= cr_account_generation r'
    /\ (fenced (cr_state r) = false -> fenced (cr_state r') = true ->
        cr_account_generation r < cr_account_generation r')
    /\ cr_ui_generation r <= cr_ui_generation r' /\ cr_api_generation r <= cr_api_generation r'
    /\ cr_destination_backend_bound r' = cr_destination_backend_bound r
    /\ (quarantined r -> quarantined r').
Proof.
  intros Hrun Hr. destruct (run_history _ _ _ _ _ Hrun Hr) as (r' & Hr' & Hh). exists r'.
  destruct (history_product _ _ _ Hh) as (? & ? & ? & _).
  split_and!; try done; [by eapply history_legal|by eapply history_generation|by eapply history_fence
    |by eapply history_quarantined].
Qed.

(** C35: (safety) As long as no destination backend is bound, no interleaving of the
    coordinator's calls reaches [new], a phase from [importing] on, or other product
    generations, and [complete_to_new] is refused. *)
Theorem unbound_cutover_never_completes cohort uid s sys r :
  coordinator_run cohort uid s sys -> get_account_cutover_record uid s = Ok r -> before_destination r ->
  exists r', get_account_cutover_record uid (sys_store sys) = Ok r' /\ before_destination r'
    /\ cr_ui_generation r' = cr_ui_generation r /\ cr_api_generation r' = cr_api_generation r
    /\ forall generation t,
       run_cutover (complete_to_new uid generation t) (sys_store sys)
       = (Raise (AccountCutoverTransitionError "checkpoint_not_ready"), sys_store sys).
Proof.
  intros Hrun Hr Hb. destruct (run_history _ _ _ _ _ Hrun Hr) as (r' & Hr' & Hh). exists r'.
  destruct (history_before_destination _ _ _ Hh Hb) as (Hb' & ? & ?). split_and!; try done.
  intros generation t. simpl. rewrite Hr'. simpl. destruct Hb' as (_ & Hn & Hp).
  rewrite (bool_decide_false (cr_state r' = new)) by done. simpl.
  rewrite (bool_decide_false (cr_checkpoint_phase r' = cutover_ready)); [done|].
  intros Heq. rewrite Heq in Hp. apply Hp. unfold destination_phases. set_solver.
Qed.

(** ** Requests *)
Section Requests.
Context {T : TextEnv}.

(** The control projection that the check of a request computes. *)
Definition request_control (r : AccountCutoverRecord) (headers : list (string * string)) : AccountCutoverControl :=
  build_account_cutover_control r (header_platform headers) (header_build headers) None None [].

Lemma default_floors k floor : MINIMUM_SUPPORTED_BUILDS !! k = Some floor -> floor = 0.
Proof.
  assert (H : map_Forall (fun (_ : string) (f : Z) => f = 0) MINIMUM_SUPPORTED_BUILDS)
    by (apply (bool_decide_eq_true_1 _); vm_compute; reflexivity).
  intros Hk. exact (H k floor Hk).
Qed.

(** Nobody is forced to upgrade by the floors as they are shipped. *)
Lemma shipped_action r platform build :
  resolve_client_action r platform build [] = if fenced (cr_state r) then migration_maintenance else action_none.
Proof.
  unfold resolve_client_action. simpl.
  assert ((if bool_decide (platform_key (default "" platform) = "") then false
     else match MINIMUM_SUPPORTED_BUILDS !! platform_key (default "" platform) with
          | Some floor => (0 <? floor) && match build with Some b => b <? floor | None => true end
          | None => false end) = false) as ->; [|by destruct (cr_state r)].
  case_bool_decide; [done|]. destruct (MINIMUM_SUPPORTED_BUILDS !! _) as [floor|] eqn:Hf; [|done].
  by apply default_floors in Hf as ->.
Qed.

Lemma traffic_iff r action :
  product_traffic_allowed r action = true <-> action = action_none /\ fenced (cr_state r) = false.
Proof.
  unfold product_traffic_allowed, fenced. case_bool_decide as Ha; simpl; [|by split; [|intros [? _]]].
  rewrite negb_true_iff. tauto.
Qed.

Lemma open_state s : legacy_writes_allowed_for_state s = negb (fenced s).
Proof. by destruct s. Qed.

Lemma fence_allowed r expected :
  0 < cr_account_generation r ->
  fd_allowed (evaluate_write_fence r expected) = true
  <-> fenced (cr_state r) = false /\ expected = Some (cr_account_generation r).
Proof.
  intros Hg%Z.ltb_lt. unfold evaluate_write_fence. rewrite open_state, Hg.
  destruct (fenced (cr_state r)); simpl; [by split; [|intros [? _]]|].
  destruct expected as [g|].
  - rewrite (bool_decide_false (Some g = None)) by done. simpl. rewrite Z.eqb_eq.
    split; [by intros ->|by intros [_ [= ->]]].
  - rewrite bool_decide_true by done. by split; [|intros [_ ?]].
Qed.

Definition generation_matches (r : AccountCutoverRecord) (mutating : bool) (headers : list (string * string)) : Prop :=
  mutating = true -> 0 < cr_account_generation r ->
  parse_account_generation_header headers = Some (cr_account_generation r).

Lemma mismatch_iff r mutating headers :
  mutating && (0 <? cr_account_generation r)
    && match parse_account_generation_header headers with
       | Some g => negb (g =? cr_account_generation r) | None => true end = false
  <-> generation_matches r mutating headers.
Proof.
  unfold generation_matches. destruct mutating; simpl; [|by split].
  destruct (Z.ltb_spec 0 (cr_account_generation r)) as [Hg|Hg]; simpl; [|by split; [intros _ _ ?; lia|]].
  destruct (parse_account_generation_header headers) as [g|]; [rewrite negb_false_iff, Z.eqb_eq|];
    (split; [intros H _ _|intros H; specialize (H eq_refl Hg)]); by simplify_eq.
Qed.

Lemma evaluate_passes r mutating headers :
  evaluate_record r mutating headers = None
  <-> cc_product_traffic_allowed (request_control r headers) = true /\ generation_matches r mutating headers.
Proof.
  unfold request_control. simpl cc_product_traffic_allowed. rewrite traffic_iff, <-mismatch_iff.
  unfold evaluate_record. simpl cc_client_action.
  set (action := resolve_client_action _ _ _ _).
  assert (Hfen : fenced (cr_state r) = true -> action <> action_none).
  { unfold action, resolve_client_action. intros Hf.
    match goal with |- context [if ?b then force_upgrade else _] => destruct b end; [done|].
    destruct (cr_state r); done. }
  destruct (mutating && _ && _); [by split; [|intros [_ ?]]|].
  assert (Hmain : action = migration_maintenance -> fenced (cr_state r) = true).
  { unfold action, resolve_client_action.
    match goal with |- context [if ?b then force_upgrade else _] => destruct b end; [done|]. by destruct (cr_state r). }
  destruct (cr_account_generation r =? 0), (cr_state r) eqn:Hs, action eqn:Ha; simpl;
    (split; [intros H|intros [[? ?] _]]); try done; by first [specialize (Hmain eq_refl)|specialize (Hfen eq_refl)].
Qed.

Lemma denial_codes r mutating headers d :
  evaluate_record r mutating headers = Some d -> dn_code d <> "legacy_plane_closed".
Proof.
  unfold evaluate_record. simpl cc_client_action. set (action := resolve_client_action _ _ _ _).
  assert (Hfen : fenced (cr_state r) = true -> action <> action_none).
  { unfold action, resolve_client_action. intros Hf.
    match goal with |- context [if ?b then force_upgrade else _] => destruct b end; [done|].
    destruct (cr_state r); done. }
  destruct (mutating && _ && _); [by intros [= <-]|].
  destruct (cr_account_generation r =? 0), (cr_state r) eqn:Hs, action eqn:Ha; simpl; try done;
    try (by intros [= <-]); by specialize (Hfen eq_refl).
Qed.

Lemma admitted_or_denied enforcement uid method path headers force mutating s r :
  force = true \/ cutover_enforcement_enabled enforcement = true -> is_cutover_control_path path = false ->
  get_account_cutover_record uid s = Ok r ->
  evaluate_account_cutover_access enforcement uid method path headers force mutating s
  = Ok (evaluate_record r (request_mutates method mutating) headers).
Proof.
  intros He Hp Hr. unfold evaluate_account_cutover_access. rewrite Hp, Hr.
  destruct He as [->| ->]; [done|]. by rewrite andb_false_r.
Qed.

Lemma fence_iff r mutating headers :
  fenced (cr_state r) = false ->
  generation_matches r mutating headers <->
  (mutating = true -> 0 < cr_account_generation r ->
   fd_allowed (evaluate_write_fence r (parse_account_generation_header headers)) = true).
Proof.
  intros Hf. unfold generation_matches. split; intros H Hm Hg; specialize (H Hm Hg).
  - by apply fence_allowed.
  - by apply fence_allowed in H as [_ ?].
Qed.

(** C34: (equivalence) Where the record of the account can be read, a request passes
    exactly when nothing checks it (enforcement is off and not forced, or its path is
    one of the always reachable ones), or the control projection for its platform and
    build allows product traffic and, if it mutates and the account has a generation
    above 0, the write fence admits the generation that its header carries; at
    generation 0 the header is not looked at.  No request is ever refused with
    [legacy_plane_closed]: the states it guards are refused before. *)
Theorem access_agrees_with_control_and_fence enforcement uid method path headers force mutating s r :
  get_account_cutover_record uid s = Ok r ->
  (evaluate_account_cutover_access enforcement uid method path headers force mutating s = Ok None
   <-> (force = false /\ cutover_enforcement_enabled enforcement = false) \/ is_cutover_control_path path = true \/
       (cc_product_traffic_allowed (request_control r headers) = true /\
        (request_mutates method mutating = true -> 0 < cr_account_generation r ->
         fd_allowed (evaluate_write_fence r (parse_account_generation_header headers)) = true)))
  /\ forall d, evaluate_account_cutover_access enforcement uid method path headers force mutating s = Ok (Some d) ->
      dn_code d <> "legacy_plane_closed".
Proof.
  intros Hr.
  assert (Hoff : force = false /\ cutover_enforcement_enabled enforcement = false ->
    evaluate_account_cutover_access enforcement uid method path headers force mutating s = Ok None).
  { intros [-> He]. unfold evaluate_account_cutover_access. by rewrite He. }
  assert (Hexempt : is_cutover_control_path path = true ->
    evaluate_account_cutover_access enforcement uid method path headers force mutating s = Ok None).
  { intros Hp. unfold evaluate_account_cutover_access. rewrite Hp. by destruct (_ && _). }
  destruct (is_cutover_control_path path) eqn:Hp.
  { rewrite Hexempt by done. split; [by split; auto|done]. }
  assert (Hcase : (force = true \/ cutover_enforcement_enabled enforcement = true) \/
    (force = false /\ cutover_enforcement_enabled enforcement = false))
    by (destruct force, (cutover_enforcement_enabled enforcement); auto).
  destruct Hcase as [He|He]; [|rewrite Hoff by done; split; [by split; auto|done]].
  rewrite (admitted_or_denied _ _ _ _ _ _ _ _ r) by done. split; [|intros d [= Hd]; by eapply denial_codes].
  assert (Hpass : Ok (evaluate_record r (request_mutates method mutating) headers) = Ok None <->
    cc_product_traffic_allowed (request_control r headers) = true /\
    generation_matches r (request_mutates method mutating) headers).
  { rewrite <-evaluate_passes. split; [by intros [= ->]|by intros ->]. }
  rewrite Hpass. split.
  - intros [Ht Hm]. right; right. split; [done|]. apply fence_iff; [|done]. by apply traffic_iff in Ht as [_ ?].
  - intros [[-> E]|[?|[Ht Hm]]]; [destruct He; congruence|done|]. split; [done|].
    apply fence_iff; [|done]. by apply traffic_iff in Ht as [_ ?].
Qed.

(** C14: (safety) Once an account has been in [migrating], no mutating request or
    session that is checked passes any more with the generation that was current
    before (or an older one, or none), in any later state of any interleaving of the
    coordinator's calls in which no two use the same checkpoint token: not during the
    migration, not after it completed, and not after a rollback has reopened the
    legacy plane.  A request is checked when enforcement is switched on (or the check
    is forced) and its path is not one of the always reachable ones; an HTTP request
    mutates by its method, a WebSocket session is checked as a mutation. *)
Theorem fenced_generation_is_dead cohort uid s0 sys1 sys2 r0 r1 enforcement method path headers force mutating :
  coordinator_run cohort uid s0 sys1 -> rtc (system_step cohort uid) sys1 sys2 ->
  get_account_cutover_record uid s0 = Ok r0 -> fenced (cr_state r0) = false ->
  get_account_cutover_record uid (sys_store sys1) = Ok r1 -> cr_state r1 = migrating ->
  force = true \/ cutover_enforcement_enabled enforcement = true -> is_cutover_control_path path = false ->
  request_mutates method mutating = true ->
  (forall g, parse_account_generation_header headers = Some g -> g <= cr_account_generation r0) ->
  (exists d, evaluate_account_cutover_access enforcement uid method path headers force mutating (sys_store sys2)
             = Ok (Some d)) /\
  (cutover_enforcement_enabled enforcement = true -> request_mutates method None = true ->
   exists code detail, enforce_account_cutover_http_access enforcement uid method path headers (sys_store sys2)
                       = Ok (Some (code, detail))) /\
  (cutover_enforcement_enabled enforcement = true ->
   exists code, enforce_account_cutover_ws_access enforcement uid path headers (sys_store sys2)
                = Ok (Some (WS_AUTH_CODE_ACCOUNT_CUTOVER, code))).
Proof.
  intros (used & Hq & H01) H12 Hr0 Hf0 Hr1 Hs1 He Hp Hmut Hg.
  destruct (atomic_history _ _ _ _ _ (flights_history _ _ _ _ _ Hq H01) Hr0) as (r1' & Hr1' & Hh1).
  rewrite Hr1 in Hr1'. injection Hr1' as <-.
  assert (Hfence : cr_account_generation r0 < cr_account_generation r1)
    by (eapply history_fence; [exact Hh1|done|by rewrite Hs1]).
  destruct (flights_suffix _ _ _ _ _ _ _ Hq H01 H12 Hr1) as (r2 & Hr2 & Hh2).
  apply history_generation in Hh2. destruct (get_record_valid _ _ _ Hr0) as [(_ & H0 & _)%record_fits _].
  assert (Hdenied : forall m f mu, f = true \/ cutover_enforcement_enabled enforcement = true ->
    request_mutates m mu = true ->
    exists d, evaluate_account_cutover_access enforcement uid m path headers f mu (sys_store sys2) = Ok (Some d)).
  { intros m f mu Hf Hm. rewrite (admitted_or_denied _ _ _ _ _ _ _ _ r2) by auto. rewrite Hm.
    destruct (evaluate_record r2 true headers) as [d|] eqn:Hd; [by exists d|].
    apply evaluate_passes in Hd as [_ Hmatch]. specialize (Hg _ (Hmatch eq_refl ltac:(lia))). lia. }
  split_and!; [by apply Hdenied| |].
  - intros Hen Hm. unfold enforce_account_cutover_http_access.
    destruct (Hdenied method false None ltac:(auto) Hm) as [d ->]. simpl. eauto.
  - intros Hen. unfold enforce_account_cutover_ws_access.
    destruct (Hdenied "GET" false (Some true) ltac:(auto) eq_refl) as [d ->]. simpl. eauto.
Qed.

(** (safety) As the program is shipped, with an empty cohort and no build floors, a
    legacy account of generation 0 is never refused a request, and no interleaving of
    the coordinator's calls changes that. *)
Theorem shipped_cutover_refuses_nothing uid s sys r enforcement method path headers force mutating :
  coordinator_run ACCOUNT_CUTOVER_COHORT uid s sys ->
  get_account_cutover_record uid s = Ok r -> cr_state r = legacy -> cr_account_generation r = 0 ->
  evaluate_account_cutover_access enforcement uid method path headers force mutating (sys_store sys) = Ok None
  /\ should_skip_background_account_mutation enforcement uid (sys_store sys) = Ok false.
Proof.
  intros Hrun Hr Hs Hg. destruct (run_history _ _ _ _ _ Hrun Hr) as (r' & Hr' & Hh).
  destruct (history_not_enrolled _ _ _ Hh) as [Hs' Hg']; [set_solver|done|].
  unfold should_skip_background_account_mutation, background_job_should_skip_account. rewrite Hr', Hs'.
  split; [|by destruct (negb _)].
  unfold evaluate_account_cutover_access. destruct (_ && _); [done|]. destruct (is_cutover_control_path path); [done|].
  rewrite Hr'. f_equal. apply evaluate_passes. split.
  - apply traffic_iff. rewrite shipped_action, Hs'. done.
  - intros _ Hpos. lia.
Qed.
End Requests.

(** ** The store *)

(** C36: (roundtrip) A valid record is stored and read back as it is, by every reader,
    and the records of the other accounts are left alone. *)
Theorem cutover_record_reads_back uid r s :
  record_valid r = true -> cr_uid r = uid ->
  exists s', set_account_cutover_record uid r s = Ok (tt, s')
    /\ get_account_cutover_record uid s' = Ok r
    /\ get_account_cutover_record_optional uid s' = Ok (Some r)
    /\ forall other, other <> uid -> get_account_cutover_record other s' = get_account_cutover_record other s.
Proof.
  intros Hv Hu. unfold set_account_cutover_record. rewrite bool_decide_true by done.
  eexists. split; [done|]. rewrite get_record_at. unfold get_account_cutover_record_optional.
  rewrite lookup_insert_eq. unfold record_at. rewrite bound_read_back by done. split_and!; [done|done|].
  intros other Hne. rewrite !get_record_at, lookup_insert_ne; [done|]. unfold _control_ref. congruence.
Qed.
