(* ===== verification/CutoverDemo.v ===== *)
(** * Concrete cutovers

    Calls of the coordinator race on one account, one of them begins its migration and
    a rollback ends it; the theorems on the cutover are applied to these runs. *)

From S2P Require Import Prelude PyValue Firestore MemoryText AccountCutover CutoverCoordinator CutoverAccess CutoverProofs CutoverTheorems.
From Stdlib Require Import QArith_base Ascii.
Local Open Scope Z_scope.
#[local] Existing Instance plain_text.

(** ** Running calls in flight *)

(** The next access of the call [i]. *)
Definition fire (i : nat) (sys : system) : system :=
  match sys_calls sys !! i with
  | Some (Call c k) =>
      match exec_cutover c (sys_store sys) with
      | Ok (b, s') => System s' (<[i := k b]> (sys_calls sys)) (sys_used sys)
      | Raise e => System (sys_store sys) (<[i := Done (Raise e)]> (sys_calls sys)) (sys_used sys)
      end
  | _ => sys
  end.

Definition start (t : string) (p : prog unit) (sys : system) : system :=
  System (sys_store sys) (sys_calls sys ++ [p]) ({[t]} ∪ sys_used sys).

Lemma fire_steps cohort uid i sys : rtc (system_step cohort uid) sys (fire i sys).
Proof.
  unfold fire. destruct (sys_calls sys !! i) as [[e|c k]|] eqn:Hi; [done| |done].
  destruct sys as [s ts used]. simpl in *. pose proof (take_drop_middle ts i _ Hi) as Hts.
  pose proof (lookup_lt_Some _ _ _ Hi) as Hlt.
  destruct (exec_cutover c s) as [[b s']|e] eqn:He; apply rtc_once; rewrite insert_take_drop by done;
    rewrite <-Hts at 1; [by apply call_access|by apply call_refused].
Qed.

Lemma start_steps cohort uid t p sys :
  coordinator_call cohort uid t p -> t ∉ sys_used sys -> rtc (system_step cohort uid) sys (start t p sys).
Proof. intros. destruct sys. by apply rtc_once, call_start. Qed.

(** ** Two calls race *)
Definition demo_cohort : gset string := {["u1"]}.
Definition demo_uid : string := "u1".

Definition demo_drain : prog unit := forget (prepare_offline_drain demo_uid "t1").
Definition demo_begin : prog unit := forget (begin demo_cohort demo_uid "ceremony" "t2" "00c0ffee").
Definition demo_rollback : prog unit := forget (rollback_lossy demo_uid 1 true "t3").

(** Both calls read the account without a record; the migration begins and the drain
    is refused. *)
Definition raced : system :=
  fire 0 (fire 1 (fire 1 (fire 0 (start "t2" demo_begin (start "t1" demo_drain (System ∅ [] ∅)))))).

Definition rolled_back : system := fire 2 (fire 2 (start "t3" demo_rollback raced)).

Lemma raced_steps : rtc (system_step demo_cohort demo_uid) (System ∅ [] ∅) raced.
Proof.
  unfold raced. etrans; [|apply fire_steps]. etrans; [|apply fire_steps].
  etrans; [|apply fire_steps]. etrans; [|apply fire_steps].
  etrans; [|apply start_steps; [apply call_begin|vm_compute; set_solver]].
  apply start_steps; [apply call_drain|set_solver].
Qed.

Lemma rolled_back_steps : rtc (system_step demo_cohort demo_uid) raced rolled_back.
Proof.
  unfold rolled_back. etrans; [|apply fire_steps]. etrans; [|apply fire_steps].
  apply start_steps; [apply call_rollback|]. apply (bool_decide_eq_true_1 _). vm_compute. reflexivity.
Qed.

Lemma empty_quiet uid : quiet uid ∅ ∅.
Proof. intros r t Hr. apply validated_record_Ok in Hr as [-> _]. done. Qed.

Lemma raced_run : coordinator_run demo_cohort demo_uid ∅ raced.
Proof. exists ∅. split; [apply empty_quiet|apply raced_steps]. Qed.

Definition empty_record : AccountCutoverRecord :=
  CutoverRecord demo_uid legacy 0 0 0 false offline_none not_started None None false.

Definition begun_record : AccountCutoverRecord :=
  CutoverRecord demo_uid migrating 1 0 0 false quarantine inventory (Some "t2") (Some "cutover-u1-00c0ffee") false.

Lemma raced_result :
  sys_calls raced = [Done (Raise (AccountCutoverConcurrencyError "cutover_generation_cas_mismatch")); Done (Ok tt)]
  /\ get_account_cutover_record demo_uid (sys_store raced) = Ok begun_record.
Proof. split; vm_compute; reflexivity. Qed.

Lemma rolled_back_result :
  exists r, get_account_cutover_record demo_uid (sys_store rolled_back) = Ok r /\ cr_state r = rolled_back_stranded.
Proof. eexists. split; vm_compute; reflexivity. Qed.

Lemma empty_reads : get_account_cutover_record demo_uid ∅ = Ok empty_record.
Proof. vm_compute. reflexivity. Qed.

Lemma empty_unbound : before_destination empty_record.
Proof. split_and!; [reflexivity|done|]. apply (bool_decide_eq_true_1 _). reflexivity. Qed.

Definition shipped_drain : system := fire 0 (fire 0 (start "t1" demo_drain (System ∅ [] ∅))).

Lemma shipped_run : coordinator_run ACCOUNT_CUTOVER_COHORT demo_uid ∅ shipped_drain.
Proof.
  exists ∅. split; [apply empty_quiet|]. unfold shipped_drain.
  etrans; [|apply fire_steps]. etrans; [|apply fire_steps].
  apply start_steps; [apply call_drain|set_solver].
Qed.

Definition begun_store : db := sys_store raced.

(** The runs are opaque from here on. *)
#[local] Opaque raced rolled_back shipped_drain.

(** ** Witnesses *)
Lemma coordinator_calls_are_atomic_witness :
  coordinator_run demo_cohort demo_uid ∅ raced /\ rtc (atomic_step demo_cohort demo_uid) ∅ (sys_store raced).
Proof. split; [apply raced_run|]. apply (coordinator_calls_are_atomic demo_cohort demo_uid ∅ raced), raced_run. Defined.

Lemma cutover_moves_along_legal_transitions_witness :
  exists r', get_account_cutover_record demo_uid (sys_store raced) = Ok r' /\ 0 < cr_account_generation r'.
Proof.
  destruct (cutover_moves_along_legal_transitions demo_cohort demo_uid ∅ raced empty_record raced_run empty_reads)
    as (r' & Hr' & _ & _ & Hg & _).
  exists r'. split; [exact Hr'|]. apply Hg; [reflexivity|].
  rewrite (proj2 raced_result) in Hr'. injection Hr' as <-. reflexivity.
Defined.

Lemma unbound_cutover_never_completes_witness :
  exists r', get_account_cutover_record demo_uid (sys_store raced) = Ok r' /\ before_destination r'.
Proof.
  pose proof (unbound_cutover_never_completes demo_cohort demo_uid ∅ raced empty_record raced_run empty_reads
                empty_unbound) as (r' & Hr' & Hb & _).
  exists r'. split; [exact Hr'|exact Hb].
Defined.

Lemma fenced_generation_is_dead_witness :
  (exists d, evaluate_account_cutover_access (Some "on") demo_uid "POST" "/v1/conversations" [] false None
               (sys_store rolled_back) = Ok (Some d)) /\
  (exists code, enforce_account_cutover_ws_access (Some "on") demo_uid "/v4/listen" [] (sys_store rolled_back)
                = Ok (Some (WS_AUTH_CODE_ACCOUNT_CUTOVER, code))).
Proof.
  assert (H : forall method path mutating, is_cutover_control_path path = false ->
    request_mutates method mutating = true ->
    (exists d, evaluate_account_cutover_access (Some "on") demo_uid method path [] false mutating (sys_store rolled_back)
               = Ok (Some d)) /\
    (exists code, enforce_account_cutover_ws_access (Some "on") demo_uid path [] (sys_store rolled_back)
                  = Ok (Some (WS_AUTH_CODE_ACCOUNT_CUTOVER, code)))).
  { intros method path mutating Hp Hm.
    assert (Hon : cutover_enforcement_enabled (Some "on") = true) by (vm_compute; reflexivity).
    destruct (fenced_generation_is_dead demo_cohort demo_uid ∅ raced rolled_back empty_record begun_record
                (Some "on") method path [] false mutating raced_run rolled_back_steps empty_reads eq_refl
                (proj2 raced_result) eq_refl (or_intror Hon) Hp Hm ltac:(done)) as (Ha & _ & Hb).
    split; [exact Ha|by apply Hb]. }
  split; [apply (H "POST" "/v1/conversations" None)|apply (H "GET" "/v4/listen" (Some true))]; vm_compute; reflexivity.
Defined.

Lemma access_agrees_with_control_and_fence_witness :
  evaluate_account_cutover_access (Some "on") demo_uid "POST" "/v1/conversations" [] false None ∅ = Ok None /\
  evaluate_account_cutover_access (Some "on") demo_uid "POST" "/v1/conversations" [] false None begun_store <> Ok None.
Proof.
  split.
  - apply (access_agrees_with_control_and_fence (Some "on") demo_uid "POST" "/v1/conversations" [] false None ∅ empty_record
      empty_reads). right; right. split; [vm_compute; reflexivity|done].
  - intros H. apply (access_agrees_with_control_and_fence (Some "on") demo_uid "POST" "/v1/conversations" [] false None
      begun_store begun_record (proj2 raced_result)) in H as [[_ H]|[H|[H _]]]; vm_compute in H; discriminate H.
Defined.

Lemma shipped_cutover_refuses_nothing_witness :
  evaluate_account_cutover_access (Some "on") demo_uid "POST" "/v1/conversations" [] false None
    (sys_store shipped_drain) = Ok None.
Proof.
  apply (shipped_cutover_refuses_nothing demo_uid ∅ shipped_drain empty_record);
    [exact shipped_run|exact empty_reads|reflexivity..].
Defined.

Lemma cutover_record_reads_back_witness :
  exists s', set_account_cutover_record demo_uid begun_record ∅ = Ok (tt, s')
    /\ get_account_cutover_record demo_uid s' = Ok begun_record.
Proof.
  destruct (cutover_record_reads_back demo_uid begun_record ∅ eq_refl eq_refl) as (s' & H1 & H2 & _).
  by exists s'.
Defined.

#[local] Transparent raced.

(** ** A token used twice

    [checkpoint] accepts an explicit next token that is the current one.  Then the
    record that a call has read can be replaced under the same token, and both of two
    concurrent checkpoints succeed: the second overwrites the first. *)
Definition fenced_checkpoint : prog unit :=
  forget (checkpoint demo_uid offline_queue_fenced (Some "t2") (Some "t2") "t4").
Definition paused_checkpoint : prog unit := forget (checkpoint demo_uid paused (Some "t2") (Some "t2") "t5").

Theorem reused_token_defeats_the_cas :
  let sys := fire 1 (fire 0 (fire 1 (fire 0 (System begun_store [fenced_checkpoint; paused_checkpoint] ∅)))) in
  sys_calls sys = [Done (Ok tt); Done (Ok tt)]
  /\ exists r, get_account_cutover_record demo_uid (sys_store sys) = Ok r /\ cr_checkpoint_phase r = paused.
Proof. split; [|eexists; split]; vm_compute; reflexivity. Qed.
