(* ===== verification/FrameRequests.v ===== *)
(** * Frame requests: the model and its policy
    (backend/models/frame_request.py, utils/retrieval/frame_request_policy.py)

    A request of the backend for one screen frame of a user's device.  A row carries
    metadata only; the pixels are objects of the storage that the row names.  Instants
    are microseconds in UTC. *)

From S2P Require Import Prelude PyValue Firestore Sha256 MemoryText MemoryOperations MemoryRecords.
From Stdlib Require Import QArith_base Ascii.
From stdpp Require Import pretty.
Local Open Scope Z_scope.

(** ** States *)
Inductive FrameRequestState :=
| requested | claimed | uploaded | attached | offline | pruned | failed | expired | cancelled.
#[global] Instance frame_state_eq_dec : EqDecision FrameRequestState.
Proof. solve_decision. Defined.

Definition state_value (s : FrameRequestState) : string :=
  match s with
  | requested => "requested" | claimed => "claimed" | uploaded => "uploaded" | attached => "attached"
  | offline => "offline" | pruned => "pruned" | failed => "failed" | expired => "expired" | cancelled => "cancelled"
  end.

Inductive FrameRequestCleanupState := not_required | pending | cleanup_failed | deleted | permanent.
#[global] Instance frame_cleanup_eq_dec : EqDecision FrameRequestCleanupState.
Proof. solve_decision. Defined.

Definition cleanup_value (s : FrameRequestCleanupState) : string :=
  match s with
  | not_required => "not_required" | pending => "pending" | cleanup_failed => "failed" | deleted => "deleted"
  | permanent => "permanent"
  end.

Definition TERMINAL_FRAME_REQUEST_STATES : list FrameRequestState :=
  [attached; offline; pruned; failed; expired; cancelled].

Definition is_terminal (s : FrameRequestState) : bool := bool_decide (s ∈ TERMINAL_FRAME_REQUEST_STATES).

(** ** Rows *)
Record FrameRequest := Frame {
  fr_request_id : string;
  fr_uid : string;
  fr_device_id : string;
  fr_account_generation : Z;
  fr_dedupe_key : string;
  fr_dedupe_window : Z;
  fr_attempt_number : Z;
  fr_conversation_id : option string;
  fr_screenshot_id : option string;
  fr_state : FrameRequestState;
  fr_created_at : Z;
  fr_expires_at : Z;
  fr_claimed_at : option Z;
  fr_uploaded_at : option Z;
  fr_attached_at : option Z;
  fr_terminal_reason : option string;
  fr_byte_count : Z;
  fr_content_type : option string;
  fr_storage_id : option string;
  fr_cleanup_state : FrameRequestCleanupState;
  fr_cleanup_attempts : Z;
  fr_cleanup_next_attempt_at : option Z
}.

(** [_strip_required_strings] and [_strip_optional_strings] *)
Definition rd_required_text (max : Z) (v : value) : res string :=
  match v with
  | VStr s =>
      let s := strip s in
      if bool_decide (s = "") || (max <? py_len s) then Raise ValueError else Ok s
  | _ => Raise TypeError
  end.

Definition rd_optional_text (max : Z) (v : value) : res (option string) :=
  match v with
  | VNone => Ok None
  | VStr s =>
      let s := strip s in
      if bool_decide (s = "") then Ok None else if max <? py_len s then Raise ValueError else Ok (Some s)
  | _ => Raise TypeError
  end.

Definition has_char (c : ascii) (s : string) : bool := bool_decide (c ∈ String.list_ascii_of_string s).
Definition starts_with (text prefix : string) : bool :=
  is_prefix (String.list_ascii_of_string prefix) (String.list_ascii_of_string text).

Definition backslash : ascii := "092"%char.
Definition one_segment (s : string) : bool := negb (has_char "/" s) && negb (has_char backslash s).

Definition _validate_request_id (s : string) : res string := if one_segment s then Ok s else Raise ValueError.
Definition _validate_storage_id (o : option string) : res (option string) :=
  match o with
  | None => Ok None
  | Some s => if one_segment s && negb (starts_with s "http:") && negb (starts_with s "https:") then Ok (Some s)
              else Raise ValueError
  end.

Definition rd_count (v : value) : res Z := n ← rd_int v; if 0 <=? n then Ok n else Raise ValueError.
Definition rd_bounded (max : Z) (v : value) : res Z := n ← rd_count v; if n <=? max then Ok n else Raise ValueError.

Definition _validate_lifecycle (r : FrameRequest) : res FrameRequest :=
  let at_ s := bool_decide (fr_state r = s) in
  if fr_expires_at r <? fr_created_at r then Raise ValueError
  else if at_ attached && negb (given (fr_conversation_id r)) then Raise ValueError
  else if at_ attached && negb (fr_expires_at r =? fr_created_at r) then Raise ValueError
  else if at_ attached && given (fr_terminal_reason r) then Raise ValueError
  else if is_terminal (fr_state r) && negb (at_ attached) && negb (given (fr_terminal_reason r)) then Raise ValueError
  else if at_ uploaded && negb (given (fr_storage_id r)) then Raise ValueError
  else Ok r.

Definition MAX_BYTES : Z := 10 * 1024 * 1024.

Definition frame_fields : gset string :=
  list_to_set ["request_id"; "uid"; "device_id"; "account_generation"; "dedupe_key"; "dedupe_window"; "attempt_number";
               "conversation_id"; "screenshot_id"; "state"; "created_at"; "expires_at"; "claimed_at"; "uploaded_at";
               "attached_at"; "terminal_reason"; "byte_count"; "content_type"; "storage_id"; "cleanup_state";
               "cleanup_attempts"; "cleanup_next_attempt_at"].

Definition frame_states : list FrameRequestState :=
  [requested; claimed; uploaded; attached; offline; pruned; failed; expired; cancelled].
Definition cleanup_states : list FrameRequestCleanupState := [not_required; pending; cleanup_failed; deleted; permanent].

(** [FrameRequest.model_validate] *)
Definition frame_request (d : fields) : res FrameRequest :=
  if negb (bool_decide (dom d ⊆ frame_fields)) then Raise ValueError
  else
    id ← required d "request_id" (rd_required_text 128); id ← _validate_request_id id;
    uid ← required d "uid" (rd_required_text 256); device ← required d "device_id" (rd_required_text 256);
    generation ← defaulted d "account_generation" rd_count 0;
    dedupe ← required d "dedupe_key" (rd_required_text 256);
    window ← defaulted d "dedupe_window" rd_count 0; attempt ← defaulted d "attempt_number" rd_count 0;
    conversation ← defaulted d "conversation_id" (rd_optional_text 256) None;
    screenshot ← defaulted d "screenshot_id" (rd_optional_text 256) None;
    state ← defaulted d "state" (rd_enum state_value frame_states) requested;
    created ← required d "created_at" (rd_time true); expires ← required d "expires_at" (rd_time true);
    claimed_at ← defaulted d "claimed_at" (rd_opt (rd_time true)) None;
    uploaded_at ← defaulted d "uploaded_at" (rd_opt (rd_time true)) None;
    attached_at ← defaulted d "attached_at" (rd_opt (rd_time true)) None;
    reason ← defaulted d "terminal_reason" (rd_optional_text 240) None;
    bytes ← defaulted d "byte_count" (rd_bounded MAX_BYTES) 0;
    content ← defaulted d "content_type" (rd_optional_text 100) None;
    storage ← defaulted d "storage_id" (rd_optional_text 256) None; storage ← _validate_storage_id storage;
    cleanup ← defaulted d "cleanup_state" (rd_enum cleanup_value cleanup_states) not_required;
    attempts ← defaulted d "cleanup_attempts" (rd_bounded 1000) 0;
    next ← defaulted d "cleanup_next_attempt_at" (rd_opt (rd_time true)) None;
    _validate_lifecycle
      (Frame id uid device generation dedupe window attempt conversation screenshot state created expires claimed_at
         uploaded_at attached_at reason bytes content storage cleanup attempts next).

(** [_request_data]: the fields of a row that are not [None]. *)
Definition opt_field (k : string) (v : value) : dict := match v with VNone => [] | _ => [(k, v)] end.

Definition _request_data (r : FrameRequest) : dict :=
  [("request_id", VStr (fr_request_id r)); ("uid", VStr (fr_uid r)); ("device_id", VStr (fr_device_id r));
   ("account_generation", VInt (fr_account_generation r)); ("dedupe_key", VStr (fr_dedupe_key r));
   ("dedupe_window", VInt (fr_dedupe_window r)); ("attempt_number", VInt (fr_attempt_number r))]
  ++ opt_field "conversation_id" (opt_str (fr_conversation_id r))
  ++ opt_field "screenshot_id" (opt_str (fr_screenshot_id r))
  ++ [("state", VStr (state_value (fr_state r))); ("created_at", instant (fr_created_at r));
      ("expires_at", instant (fr_expires_at r))]
  ++ opt_field "claimed_at" (opt_time (fr_claimed_at r)) ++ opt_field "uploaded_at" (opt_time (fr_uploaded_at r))
  ++ opt_field "attached_at" (opt_time (fr_attached_at r))
  ++ opt_field "terminal_reason" (opt_str (fr_terminal_reason r))
  ++ [("byte_count", VInt (fr_byte_count r))]
  ++ opt_field "content_type" (opt_str (fr_content_type r)) ++ opt_field "storage_id" (opt_str (fr_storage_id r))
  ++ [("cleanup_state", VStr (cleanup_value (fr_cleanup_state r)));
      ("cleanup_attempts", VInt (fr_cleanup_attempts r))]
  ++ opt_field "cleanup_next_attempt_at" (opt_time (fr_cleanup_next_attempt_at r)).

(** ** Policy *)
Definition FRAME_REQUEST_MAX_TTL_SECONDS : Z := 6 * 24 * 60 * 60.
Definition FRAME_REQUEST_MAX_BYTES : Z := 10 * 1024 * 1024.
Definition FRAME_REQUEST_MAX_BATCH : Z := 32.
Definition FRAME_REQUEST_MAX_PENDING_PER_DEVICE : Z := 8.
Definition FRAME_REQUEST_MAX_BYTES_PER_DEVICE : Z := 50 * 1024 * 1024.
Definition FRAME_REQUEST_DEDUPE_WINDOW_SECONDS : Z := 60.
Definition FRAME_REQUEST_MAX_ATTACHED_PER_CONVERSATION : Z := 1.
Definition FRAME_REQUEST_MAX_BYTES_PER_CONVERSATION : Z := 10 * 1024 * 1024.

(** [configurable] is the mapping of a request, or another value. *)
Definition explicit_frame_requests_enabled (configurable : value) : bool :=
  match configurable with
  | VDict d =>
      match py_or (dict_get "uid" d) (dict_get "user_id" d), dict_get "frame_requests_enabled" d with
      | VStr uid, VBool decision => if bool_decide (strip uid = "") then false else decision
      | _, _ => false
      end
  | _ => false
  end.

Definition nul : string := String.String "000"%char "".
Definition text_digest (s : string) : string := hexdigest (sha256 (encode s)).

Definition canonical_dedupe_key (uid device_id : string) (screenshot_id conversation_id : option string)
    (intent_key : string) (account_generation : Z) : res string :=
  if bool_decide (strip uid = "") || bool_decide (strip device_id = "") || bool_decide (strip intent_key = "")
     || negb (given screenshot_id || given conversation_id) then Raise ValueError
  else if account_generation <? 0 then Raise ValueError
  else Ok (text_digest (String.concat nul [strip uid; strip device_id; pretty account_generation;
                                           default "" screenshot_id; default "" conversation_id; strip intent_key])).

(** The sum of an instant and a duration may leave the range of instants. *)
Definition request_expiry (created_at : Z) (requested_ttl_seconds device_retention_seconds : option Z) : res Z :=
  let wanted := default FRAME_REQUEST_MAX_TTL_SECONDS requested_ttl_seconds in
  if wanted <? 1 then Raise ValueError
  else
    let ttl := Z.min wanted FRAME_REQUEST_MAX_TTL_SECONDS in
    match device_retention_seconds with
    | Some kept => if kept <? 1 then Raise ValueError else dt_add created_at (seconds (Z.min ttl kept))
    | None => dt_add created_at (seconds ttl)
    end.

Definition conversation_lifetime_expiry (created_at : Z) : Z := created_at.

Definition is_expired (r : FrameRequest) (now : Z) : bool :=
  if given (fr_conversation_id r) && bool_decide (fr_state r = attached) then false
  else (fr_expires_at r <=? now) && negb (is_terminal (fr_state r)).

Definition device_may_claim (r : FrameRequest) (uid device_id : string) (account_generation : Z) : bool :=
  bool_decide (fr_uid r = uid) && bool_decide (fr_device_id r = device_id)
  && (fr_account_generation r =? account_generation) && bool_decide (fr_state r = requested).

Definition allowed_transitions (s : FrameRequestState) : list FrameRequestState :=
  match s with
  | requested => [claimed; offline; pruned; failed; expired; cancelled]
  | claimed => [uploaded; offline; pruned; failed; expired; cancelled]
  | uploaded => [attached; failed; pruned]
  | _ => []
  end.

Definition owned_by (r : FrameRequest) (uid device_id : string) (account_generation : Z) : bool :=
  bool_decide (fr_uid r = uid) && bool_decide (fr_device_id r = device_id)
  && (fr_account_generation r =? account_generation).

Definition validate_transition (r : FrameRequest) (next : FrameRequestState) (uid device_id : string)
    (account_generation now : Z) : res unit :=
  if negb (owned_by r uid device_id account_generation) then Raise PermissionError
  else if is_terminal (fr_state r) then Raise ValueError
  else if is_expired r now then Raise ValueError
  else if bool_decide (next ∉ allowed_transitions (fr_state r)) then Raise ValueError
  else if bool_decide (next = attached) && negb (given (fr_conversation_id r)) then Raise ValueError
  else Ok tt.

Record QuotaDecision := Quota { qd_allowed : bool; qd_reason : string; qd_pending_count : Z; qd_pending_bytes : Z }.

Definition sum_bytes (l : list FrameRequest) : Z := foldr (fun r n => fr_byte_count r + n) 0 l.

(** The rows that count against the quota of a device. *)
Definition live_rows (rows : list FrameRequest) (uid device_id : string) (now : Z) : list FrameRequest :=
  List.filter (fun r => bool_decide (fr_uid r = uid) && bool_decide (fr_device_id r = device_id)
                        && negb (is_terminal (fr_state r)) && negb (is_expired r now)) rows.

Definition check_device_quota (rows : list FrameRequest) (uid device_id : string) (now additional_bytes : Z)
    : QuotaDecision :=
  if (additional_bytes <? 0) || (FRAME_REQUEST_MAX_BYTES <? additional_bytes) then Quota false "invalid_bytes" 0 0
  else
    let live := live_rows rows uid device_id now in
    let count := Z.of_nat (length live) in
    let bytes := sum_bytes live in
    if FRAME_REQUEST_MAX_PENDING_PER_DEVICE <=? count then Quota false "pending_count" count bytes
    else if FRAME_REQUEST_MAX_BYTES_PER_DEVICE <? bytes + additional_bytes then Quota false "pending_bytes" count bytes
    else Quota true "ok" count bytes.
