(* ===== verification/FrameStore.v ===== *)
(** * Frame requests: the Firestore adapter (backend/database/frame_requests.py)

    Transactions are [Txn]; a call outside a transaction is a function of the store.
    The page workers read a page of rows and then treat them one by one; [erase] says
    for which objects the call of the storage returns, and a row is treated in the store
    as it is by then.  The index definitions of the two expiry queries are of
    backend/database/firestore_index_registry.py. *)

From S2P Require Import Prelude PyValue Firestore Sha256 MemoryText MemoryOperations MemoryRecords FrameRequests.
From Stdlib Require Import QArith_base Ascii.
From stdpp Require Import sorting pretty.
Local Open Scope Z_scope.

(** ** References *)
Definition USERS_COLLECTION : string := "users".
Definition FRAME_REQUESTS_COLLECTION : string := "frame_requests".
Definition FRAME_UPLOAD_ORPHANS_COLLECTION : string := "frame_upload_orphans".
Definition FRAME_DELETION_OUTBOX_COLLECTION : string := "frame_deletion_outbox".
Definition FRAME_VISION_RECEIPTS_COLLECTION : string := "frame_vision_receipts".

Definition owner_collection (uid name : string) : res path :=
  let owner := strip uid in
  if bool_decide (owner = "") then Raise ValueError else Ok [USERS_COLLECTION; owner; name].

Definition _collection (uid : string) : res path := owner_collection uid FRAME_REQUESTS_COLLECTION.
Definition _orphan_collection (uid : string) : res path := owner_collection uid FRAME_UPLOAD_ORPHANS_COLLECTION.
Definition _deletion_outbox_collection (uid : string) : res path :=
  owner_collection uid FRAME_DELETION_OUTBOX_COLLECTION.

Definition document (c : path) (id : string) : path := c ++ [id].

Definition frame_ref (uid request_id : string) : res path := c ← _collection uid; Ok (document c request_id).
Definition orphan_ref (uid storage_id : string) : res path :=
  c ← _orphan_collection uid; Ok (document c (text_digest storage_id)).
Definition vision_ref (uid authority_key : string) : path :=
  [USERS_COLLECTION; uid; FRAME_VISION_RECEIPTS_COLLECTION; text_digest authority_key].

Definition _deletion_receipt_id (conversation_id storage_id : string) : string :=
  text_digest (conversation_id +:+ nul +:+ storage_id).

(** ** Queries

    The documents of a collection in the order of their names; a query filters them,
    may order them by a field first, and takes a number of them. *)
Definition row : Type := path * fields.

Definition name_le (a b : row) : Prop := String.leb (List.last a.1 "") (List.last b.1 "") = true.
#[global] Instance name_le_dec : RelDecision name_le.
Proof. intros a b. unfold name_le. apply _. Defined.

Definition in_collection (c p : path) : bool := bool_decide (p <> []) && bool_decide (removelast p = c).

Definition collection_rows (c : path) (s : db) : list row :=
  merge_sort name_le (List.filter (fun r => in_collection c r.1) (map_to_list s)).

Definition field_is (k : string) (v : value) (r : row) : bool := bool_decide (r.2 !! k = Some v).
Definition field_in (k : string) (vs : list string) (r : row) : bool :=
  match r.2 !! k with Some (VStr s) => bool_decide (s ∈ vs) | _ => false end.
Definition time_at_most (k : string) (t : Z) (r : row) : bool :=
  match r.2 !! k with Some (VTime _ us) => us <=? t | _ => false end.

Definition number_field (k : string) (r : row) : Z :=
  match doc_get r.2 k with VInt z => z | VTime _ us => us | _ => 0 end.
Definition has_field (k : string) (r : row) : bool := if r.2 !! k then true else false.

(** [order_by(k)], ascending or descending; ties are in the order of names. *)
Definition field_le (k : string) (a b : row) : Prop := number_field k a <= number_field k b.
#[global] Instance field_le_dec k : RelDecision (field_le k).
Proof. intros a b. unfold field_le. apply _. Defined.

Definition order_by (k : string) (l : list row) : list row := merge_sort (field_le k) (List.filter (has_field k) l).
Definition order_by_descending (k : string) (l : list row) : list row :=
  merge_sort (flip (field_le k)) (List.filter (has_field k) (rev l)).

Definition limited (n : Z) (l : list row) : list row := take (Z.to_nat n) l.

(** A query inside a transaction. *)
Definition txn_query (q : db -> list row) : Txn (list row) := fun st =>
  match writes st with
  | [] => Ok (q (snapshot st), st)
  | _ :: _ => Raise ReadAfterWriteError
  end.

(** [transaction.create]: the commit fails when the document exists. *)
Definition txn_create (r : path) (d : fields) : Txn unit := fun st =>
  match snapshot st !! r with
  | Some _ => Raise AlreadyExists
  | None => txn_set r d st
  end.

(** ** Reading rows *)
Definition with_default_id (id : string) (d : fields) : fields :=
  match d !! "request_id" with Some _ => d | None => <["request_id" := VStr id]> d end.

Definition _request_from_snapshot (r : row) : res FrameRequest :=
  parse_snapshot_strict (frame_request (with_default_id (List.last r.1 "") r.2)).

Definition _request_from_payload (payload : dict) : res FrameRequest :=
  parse_snapshot_strict (frame_request (list_to_map payload)).

Definition requests_of (l : list row) : res (list FrameRequest) := mapM _request_from_snapshot l.

(** [{**data, **update}] *)
Definition candidate (r : FrameRequest) (update : dict) : res FrameRequest :=
  _request_from_payload (dict_update (_request_data r) update).

Definition values (d : dict) : updates := (fun kv => (kv.1, FValue kv.2)) <$> d.

(** A plain write. *)
Definition plain (w : write) (s : db) : res unit * db :=
  match apply_write w s with Some s' => (Ok tt, s') | None => (Raise NotFound, s) end.

Definition get_frame_request (uid request_id : string) (s : db) : res FrameRequest :=
  ref ← frame_ref uid request_id;
  match s !! ref with
  | None => Raise KeyError
  | Some d => _request_from_snapshot (ref, d)
  end.

Definition attached_query (c : path) (conversation_id : string) (n : Z) (s : db) : list row :=
  limited n (List.filter (fun r => field_is "conversation_id" (VStr conversation_id) r
                                   && field_is "state" (VStr "attached") r) (collection_rows c s)).

Definition list_attached_frame_requests (uid conversation_id : string) (limit : Z) (s : db) : res (list FrameRequest) :=
  if bool_decide (strip conversation_id = "") || negb ((1 <=? limit) && (limit <=? 2)) then Raise ValueError
  else c ← _collection uid; requests_of (attached_query c conversation_id limit s).

(** ** Paid vision calls *)
Definition receipt_matches (d : fields) (request_id : string) (account_generation : Z) : bool :=
  v_is (doc_get d "request_id") request_id && py_eq (doc_get d "account_generation") (VInt account_generation).

Definition new_vision_receipt (request_id : string) (account_generation now : Z) : fields :=
  list_to_map [("request_id", VStr request_id); ("account_generation", VInt account_generation);
               ("state", VStr "invoked"); ("created_at", instant now);
               ("lease_expires_at", instant (now + seconds (5 * 60)))].

Definition _reserve (uid authority_key request_id : string) (account_generation now : Z) : Txn fields :=
  snapshot ← txn_get (vision_ref uid authority_key);
  match snapshot with
  | Some d => if receipt_matches d request_id account_generation then mret d else lift (Raise PermissionError)
  | None =>
      txn_create (vision_ref uid authority_key) (new_vision_receipt request_id account_generation now);;
      mret (<["reserved" := VBool true]> (new_vision_receipt request_id account_generation now))
  end.

Definition reserve_frame_vision_invocation (uid authority_key request_id : string) (account_generation now : Z)
    (s : db) : res (fields * db) :=
  if bool_decide (strip authority_key = "") then Raise ValueError
  else run_txn (_reserve uid authority_key request_id account_generation now) s.

(** The receipt is read in [s] and updated in [s']. *)
Definition complete_frame_vision_invocation (uid authority_key request_id : string) (account_generation : Z)
    (description : string) (now : Z) (s s' : db) : res unit * db :=
  let d := default ∅ (s !! vision_ref uid authority_key) in
  if negb (receipt_matches d request_id account_generation) then (Raise PermissionError, s')
  else plain (WUpdate (vision_ref uid authority_key)
                (values [("state", VStr "completed"); ("description", VStr (py_take 4000 description));
                         ("completed_at", instant now);
                         ("output_expires_at", instant (now + seconds FRAME_REQUEST_MAX_TTL_SECONDS))])) s'.

(** ** The deletion outbox of a conversation *)
Definition opaque_storage_id (s : string) : bool := negb (bool_decide (s = "")) && one_segment s.

Fixpoint persist_receipts (c : path) (conversation_id : string) (now : Z) (ids : list string) (s : db)
    : res unit * db :=
  match ids with
  | [] => (Ok tt, s)
  | id :: ids' =>
      if negb (opaque_storage_id id) then (Raise ValueError, s)
      else match plain (WMerge (document c (_deletion_receipt_id conversation_id id))
                          (values [("conversation_id", VStr conversation_id); ("storage_id", VStr id);
                                   ("cleanup_next_attempt_at", instant now); ("cleanup_attempts", VInt 0)])) s with
           | (Ok _, s') => persist_receipts c conversation_id now ids' s'
           | (Raise e, s') => (Raise e, s')
           end
  end.

(** [dict.fromkeys(l)] keeps the first of equal elements. *)
Definition unique (l : list string) : list string :=
  foldl (fun acc x => if bool_decide (x ∈ acc) then acc else acc ++ [x]) [] l.

Definition persist_conversation_frame_deletion_outbox (uid conversation_id : string) (storage_ids : list string)
    (now : Z) (s : db) : res unit * db :=
  if bool_decide (strip conversation_id = "") then (Raise ValueError, s)
  else match _deletion_outbox_collection uid with
       | Raise e => (Raise e, s)
       | Ok c => persist_receipts c conversation_id now (unique storage_ids) s
       end.

Definition acknowledge_conversation_frame_deletion (uid conversation_id storage_id : string) (s : db)
    : res (unit * db) :=
  c ← _deletion_outbox_collection uid;
  Ok (tt, delete (document c (_deletion_receipt_id conversation_id storage_id)) s).

(** ** Page workers *)
Record FrameCleanupPage := CleanupPage { page_processed : Z; page_cleaned : Z }.

Fixpoint page_loop (treat : row -> db -> res (Z * Z) * db) (rows : list row) (page : FrameCleanupPage) (s : db)
    : res FrameCleanupPage * db :=
  match rows with
  | [] => (Ok page, s)
  | r :: rows' =>
      match treat r s with
      | (Ok (p, c), s') => page_loop treat rows' (CleanupPage (page_processed page + p) (page_cleaned page + c)) s'
      | (Raise e, s') => (Raise e, s')
      end
  end.

Definition settled (counts : Z * Z) (result : res unit * db) : res (Z * Z) * db :=
  match result with (Ok _, s) => (Ok counts, s) | (Raise e, s) => (Raise e, s) end.

Definition window_ok (limit : Z) : bool := (1 <=? limit) && (limit <=? FRAME_REQUEST_MAX_BATCH).

(** [current + timedelta(seconds=min(86400, 2 ** min(attempts, 16)))] *)
Definition retry_at (now attempts : Z) : Z := now + seconds (Z.min (24 * 60 * 60) (2 ^ Z.min attempts 16)).

(** [max(0, int(row.get("cleanup_attempts") or 0))] *)
Definition attempts_of (d : fields) : res Z :=
  n ← py_int (py_or (doc_get d "cleanup_attempts") (VInt 0)); Ok (Z.max 0 n).

Definition due_rows (c : path) (now limit : Z) (s : db) : list row :=
  limited limit (order_by "cleanup_next_attempt_at"
    (List.filter (time_at_most "cleanup_next_attempt_at" now) (collection_rows c s))).

Definition treat_deletion_receipt (erase : string -> bool) (now : Z) (r : row) (s : db) : res (Z * Z) * db :=
  match attempts_of r.2 with
  | Raise e => (Raise e, s)
  | Ok attempts =>
      match doc_get r.2 "storage_id" with
      | VStr id =>
          if negb (opaque_storage_id id) then (Ok (1, 0), delete r.1 s)
          else if erase id then (Ok (1, 1), delete r.1 s)
          else settled (1, 0) (plain (WUpdate r.1 (values [("cleanup_attempts", VInt (attempts + 1));
                                        ("cleanup_next_attempt_at", instant (retry_at now attempts))])) s)
      | _ => (Ok (1, 0), delete r.1 s)
      end
  end.

Definition cleanup_conversation_frame_deletion_outbox (uid : string) (erase : string -> bool) (now limit : Z)
    (s : db) : res FrameCleanupPage * db :=
  match _deletion_outbox_collection uid with
  | Raise e => (Raise e, s)
  | Ok c => page_loop (treat_deletion_receipt erase now) (due_rows c now limit s) (CleanupPage 0 0) s
  end.

(** ** Attachment *)
Class PhotoEnv := { encrypt : string -> string -> string }.

(** [level] is the protection level of the conversation, whatever it holds. *)
Definition prepare_photo_for_write `{PhotoEnv} (data : dict) (uid : string) (level : value) : dict :=
  let data := dict_set "data_protection_level" level data in
  match dict_get "base64" data with
  | VStr text => if v_is level "enhanced" then dict_set "base64" (VStr (encrypt text uid)) data else data
  | _ => data
  end.

Section Attach.
Context `{PhotoEnv}.

Definition photo_data (r : FrameRequest) (permanent_storage_id : string) : dict :=
  [("id", VStr (fr_request_id r)); ("base64", VStr ""); ("storage_id", VStr permanent_storage_id);
   ("content_type", opt_str (fr_content_type r)); ("description", VStr "Just-in-time frame evidence");
   ("discarded", VBool false); ("created_at", instant (fr_created_at r))].

Definition conversation_path (uid conversation_id : string) : path :=
  [USERS_COLLECTION; strip uid; "conversations"; conversation_id].

(** The one-photo invariant, read with the attached rows of the conversation. *)
Definition check_conversation_budget (c : path) (r : FrameRequest) (request_id conversation_id : string) : Txn unit :=
  rows ← txn_query (attached_query c conversation_id (FRAME_REQUEST_MAX_ATTACHED_PER_CONVERSATION + 1));
  attached_rows ← lift (requests_of rows);
  if existsb (fun x => negb (bool_decide (fr_request_id x = request_id))) attached_rows then lift (Raise ValueError)
  else if FRAME_REQUEST_MAX_BYTES_PER_CONVERSATION <? sum_bytes attached_rows + fr_byte_count r
  then lift (Raise ValueError)
  else mret tt.

Definition attachment (r : FrameRequest) (permanent_storage_id : string) (now : Z) : dict :=
  [("state", VStr "attached"); ("attached_at", instant now); ("expires_at", instant (fr_created_at r));
   ("cleanup_state", VStr "permanent"); ("cleanup_next_attempt_at", VNone);
   ("storage_id", VStr permanent_storage_id)].

Definition _attach (uid request_id device_id : string) (account_generation : Z)
    (conversation_id permanent_storage_id : string) (now : Z) : Txn FrameRequest :=
  c ← lift (_collection uid);
  receipt ← lift (orphan_ref uid permanent_storage_id);
  let ref := document c request_id in
  let conversation_ref := conversation_path uid conversation_id in
  let photo_ref := conversation_ref ++ ["photos"; request_id] in
  snapshot ← txn_get ref;
  d ← lift (match snapshot with Some d => Ok d | None => Raise KeyError end);
  r ← lift (_request_from_snapshot (ref, d));
  if negb (owned_by r uid device_id account_generation) then lift (Raise PermissionError)
  else if negb (bool_decide (fr_conversation_id r = Some conversation_id)) then lift (Raise PermissionError)
  else if bool_decide (fr_state r = attached) then
    if negb (bool_decide (fr_storage_id r = Some permanent_storage_id)) then lift (Raise ValueError)
    else txn_delete receipt;; mret r
  else if negb (bool_decide (fr_state r = uploaded)) || negb (given (fr_storage_id r)) then lift (Raise ValueError)
  else
    conversation ← txn_get conversation_ref;
    conversation ← lift (match conversation with Some x => Ok x | None => Raise KeyError end);
    check_conversation_budget c r request_id conversation_id;;
    existing_photo ← txn_get photo_ref;
    (match existing_photo with
     | Some photo => if v_is (doc_get photo "storage_id") permanent_storage_id then mret tt else lift (Raise ValueError)
     | None =>
         let level := default (VStr "standard") (conversation !! "data_protection_level") in
         txn_set photo_ref (list_to_map (prepare_photo_for_write (photo_data r permanent_storage_id) uid level))
     end);;
    txn_update conversation_ref (values [("has_content", VBool true); ("has_photos", VBool true)]);;
    new ← lift (candidate r (attachment r permanent_storage_id now));
    txn_update ref (values (_request_data new));;
    txn_delete receipt;;
    mret new.

Definition attach_frame_request_to_conversation (uid request_id device_id : string) (account_generation : Z)
    (conversation_id permanent_storage_id : string) (now : Z) (s : db) : res (FrameRequest * db) :=
  if bool_decide (strip conversation_id = "") || bool_decide (strip permanent_storage_id = "") then Raise ValueError
  else run_txn (_attach uid request_id device_id account_generation conversation_id permanent_storage_id now) s.
End Attach.

(** ** Receipts of stored objects *)
Definition copy_receipt (request_id storage_id kind : string) (now : Z) : fields :=
  list_to_map [("storage_id", VStr storage_id); ("request_id", VStr request_id); ("cleanup_state", VStr "pending");
               ("cleanup_attempts", VInt 0); ("cleanup_next_attempt_at", instant (now + seconds (60 * 60)));
               ("created_at", instant now); ("kind", VStr kind)].

Definition reserve_frame_promotion_copy (uid request_id permanent_storage_id : string) (now : Z) (s : db)
    : res (unit * db) :=
  if bool_decide (strip request_id = "") || bool_decide (strip permanent_storage_id = "") then Raise ValueError
  else
    ref ← orphan_ref uid permanent_storage_id;
    Ok (tt, <[ref := copy_receipt request_id permanent_storage_id "promotion_copy" now]> s).

Definition reserve_frame_storage_cleanup (uid request_id storage_id : string) (now : Z) (s : db) : res (unit * db) :=
  ref ← orphan_ref uid storage_id;
  Ok (tt, <[ref := copy_receipt request_id storage_id "displaced_temporary" now]> s).

Definition acknowledge_frame_storage_cleanup (uid storage_id : string) (s : db) : res (unit * db) :=
  ref ← orphan_ref uid storage_id; Ok (tt, delete ref s).

(** ** Creation *)
Definition active_states : list string := ["requested"; "claimed"; "uploaded"].

Definition attempts_query (c : path) (device_id dedupe_identity : string) (generation : Z) (s : db) : list row :=
  limited FRAME_REQUEST_MAX_BATCH (order_by_descending "attempt_number"
    (List.filter (fun r => field_is "device_id" (VStr device_id) r && field_is "account_generation" (VInt generation) r
                           && field_is "dedupe_key" (VStr dedupe_identity) r) (collection_rows c s))).

Definition conversation_query (c : path) (conversation_id : string) (s : db) : list row :=
  limited (FRAME_REQUEST_MAX_ATTACHED_PER_CONVERSATION + 1)
    (List.filter (fun r => field_is "conversation_id" (VStr conversation_id) r
                           && field_in "state" (active_states ++ ["attached"]) r) (collection_rows c s)).

Definition active_query (c : path) (device_id : string) (generation : Z) (s : db) : list row :=
  limited FRAME_REQUEST_MAX_BATCH
    (List.filter (fun r => field_is "device_id" (VStr device_id) r && field_is "account_generation" (VInt generation) r
                           && field_in "state" active_states r) (collection_rows c s)).

Definition is_active (s : FrameRequestState) : bool := bool_decide (s ∈ [requested; claimed; uploaded]).

Definition dedupe_window_of (created : Z) : Z := Z.quot created 1000000 / FRAME_REQUEST_DEDUPE_WINDOW_SECONDS.

Definition dedupe_identity (dedupe_key : string) (conversation_id screenshot_id : option string) : string :=
  text_digest (String.concat nul [strip dedupe_key; default "" conversation_id; default "" screenshot_id]).

Definition next_attempt (attempts : list FrameRequest) : Z :=
  foldr (fun r n => Z.max (fr_attempt_number r) n) (-1) attempts + 1.

Definition new_request_id (identity : string) (generation window attempt : Z) : string :=
  "frame-" +:+ text_digest (identity +:+ ":" +:+ pretty generation +:+ ":" +:+ pretty window +:+ ":" +:+ pretty attempt).

(** [FrameRequest(...)]: the constructor runs the validators on its arguments. *)
Definition new_request (id uid device identity : string) (generation window attempt : Z)
    (conversation_id screenshot_id : option string) (created expires : Z) : res FrameRequest :=
  frame_request (list_to_map
    [("request_id", VStr id); ("uid", VStr uid); ("device_id", VStr device); ("account_generation", VInt generation);
     ("dedupe_key", VStr identity); ("dedupe_window", VInt window); ("attempt_number", VInt attempt);
     ("conversation_id", opt_str conversation_id); ("screenshot_id", opt_str screenshot_id);
     ("state", VStr "requested"); ("created_at", instant created); ("expires_at", instant expires)]).

Definition _create (c : path) (uid device identity : string) (conversation_id screenshot_id : option string)
    (generation created expires : Z) : Txn (FrameRequest * bool) :=
  rows ← txn_query (attempts_query c device identity generation);
  attempts ← lift (requests_of rows);
  match List.find (fun r => is_active (fr_state r) && negb (is_expired r created)) attempts with
  | Some existing => mret (existing, true)
  | None =>
      (if given conversation_id then
         found ← txn_query (conversation_query c (default "" conversation_id));
         found ← lift (requests_of found);
         match found with [] => mret tt | _ :: _ => lift (Raise ValueError) end
       else mret tt);;
      let window := dedupe_window_of created in
      let attempt := next_attempt attempts in
      r ← lift (new_request (new_request_id identity generation window attempt) uid device identity generation window
                  attempt conversation_id screenshot_id created expires);
      active ← txn_query (active_query c device generation);
      active ← lift (requests_of active);
      if negb (qd_allowed (check_device_quota active uid device created 0)) then lift (Raise ValueError)
      else
        txn_create (document c (fr_request_id r)) (list_to_map (_request_data r));;
        mret (r, false)
  end.

Definition enqueue_frame_request (uid device_id dedupe_key : string) (conversation_id screenshot_id : option string)
    (account_generation : Z) (requested_ttl_seconds device_retention_seconds : option Z) (now : Z) (s : db)
    : res ((FrameRequest * bool) * db) :=
  if bool_decide (strip uid = "") || bool_decide (strip device_id = "") || bool_decide (strip dedupe_key = "")
  then Raise ValueError
  else if account_generation <? 0 then Raise ValueError
  else
    expires ← request_expiry now requested_ttl_seconds device_retention_seconds;
    c ← _collection uid;
    run_txn (_create c (strip uid) (strip device_id) (dedupe_identity dedupe_key conversation_id screenshot_id)
               conversation_id screenshot_id account_generation now expires) s.

(** ** Transitions *)
Definition check_transition_arguments (r : FrameRequest) (next : FrameRequestState)
    (terminal_reason storage_id : option string) (byte_count : Z) (content_type : option string) : res unit :=
  let to s := bool_decide (next = s) in
  if (byte_count <? 0) || (MAX_BYTES <? byte_count) then Raise ValueError
  else if negb (to uploaded) && negb (byte_count =? 0) then Raise ValueError
  else if negb (to uploaded) && (given storage_id || given content_type) then Raise ValueError
  else if to uploaded && negb (given storage_id) then Raise ValueError
  else if is_terminal next && negb (to attached) && negb (given terminal_reason) then Raise ValueError
  else if negb (is_terminal next) && given terminal_reason then Raise ValueError
  else if to attached && negb (given (fr_conversation_id r)) then Raise ValueError
  else if to attached && (given storage_id || negb (byte_count =? 0) || given content_type) then Raise ValueError
  else Ok tt.

Definition check_upload_quota (c : path) (uid device_id : string) (generation now byte_count : Z) : Txn unit :=
  rows ← txn_query (active_query c device_id generation);
  active ← lift (requests_of rows);
  if FRAME_REQUEST_MAX_BYTES_PER_DEVICE
     <? qd_pending_bytes (check_device_quota active uid device_id now byte_count) + byte_count
  then lift (Raise ValueError) else mret tt.

Definition transition_update (r : FrameRequest) (next : FrameRequestState) (terminal_reason storage_id : option string)
    (byte_count : Z) (content_type : option string) (now : Z) : dict :=
  let to s := bool_decide (next = s) in
  let due := [("cleanup_state", VStr "pending"); ("cleanup_next_attempt_at", instant now)] in
  [("state", VStr (state_value next)); ("terminal_reason", opt_str terminal_reason)]
  ++ (if to claimed then [("claimed_at", instant now)] else [])
  ++ (if to uploaded then [("uploaded_at", instant now); ("storage_id", opt_str storage_id);
                           ("byte_count", VInt byte_count); ("content_type", opt_str content_type)] else [])
  ++ (if to attached then [("attached_at", instant now); ("expires_at", instant (fr_created_at r));
                           ("cleanup_state", VStr "permanent")]
      else if given (fr_storage_id r) && is_terminal next then due
      else if to uploaded then due else []).

Definition _transition (uid request_id : string) (next : FrameRequestState) (device_id : string)
    (account_generation : Z) (terminal_reason storage_id : option string) (byte_count : Z)
    (content_type : option string) (now : Z) : Txn FrameRequest :=
  c ← lift (_collection uid);
  let ref := document c request_id in
  snapshot ← txn_get ref;
  d ← lift (match snapshot with Some d => Ok d | None => Raise KeyError end);
  r ← lift (_request_from_snapshot (ref, d));
  lift (validate_transition r next uid device_id account_generation now);;
  lift (check_transition_arguments r next terminal_reason storage_id byte_count content_type);;
  (if bool_decide (next = uploaded) then check_upload_quota c uid device_id account_generation now byte_count
   else mret tt);;
  new ← lift (candidate r (transition_update r next terminal_reason storage_id byte_count content_type now));
  txn_update ref (values (_request_data new));;
  mret new.

Definition transition_frame_request (uid request_id : string) (next : FrameRequestState) (device_id : string)
    (account_generation : Z) (terminal_reason storage_id : option string) (byte_count : Z)
    (content_type : option string) (now : Z) (s : db) : res (FrameRequest * db) :=
  run_txn (_transition uid request_id next device_id account_generation terminal_reason storage_id byte_count
             content_type now) s.

(** ** Ambiguous uploads *)
Definition orphan_data (storage_id request_id : string) (now : Z) : fields :=
  list_to_map [("storage_id", VStr storage_id); ("request_id", VStr request_id); ("cleanup_state", VStr "pending");
               ("cleanup_attempts", VInt 0); ("cleanup_next_attempt_at", instant now); ("created_at", instant now)].

Definition ensure_orphan_receipt (receipt : path) (found : option fields) (storage_id request_id : string) (now : Z)
    : Txn unit :=
  match found with
  | Some _ => mret tt
  | None => txn_set receipt (orphan_data storage_id request_id now)
  end.

Definition ambiguous_failure : dict := [("state", VStr "failed"); ("terminal_reason", VStr "upload_commit_ambiguous")].

Definition _reconcile (uid request_id device_id : string) (account_generation : Z) (storage_id : string) (now : Z)
    : Txn (option FrameRequest) :=
  c ← lift (_collection uid);
  receipt ← lift (orphan_ref uid storage_id);
  let ref := document c request_id in
  snapshot ← txn_get ref;
  orphan ← txn_get receipt;
  let ensure := ensure_orphan_receipt receipt orphan storage_id request_id now in
  match snapshot with
  | None => ensure;; mret None
  | Some d =>
      r ← lift (_request_from_snapshot (ref, d));
      if negb (owned_by r uid device_id account_generation) then ensure;; mret None
      else if bool_decide (fr_storage_id r = Some storage_id) then mret (Some r)
      else
        ensure;;
        if is_terminal (fr_state r) || given (fr_storage_id r) then mret (Some r)
        else
          new ← lift (candidate r ambiguous_failure);
          txn_update ref (values (_request_data new));;
          mret (Some new)
  end.

Definition reconcile_ambiguous_frame_upload (uid request_id device_id : string) (account_generation : Z)
    (storage_id : string) (now : Z) (s : db) : res (option FrameRequest * db) :=
  run_txn (_reconcile uid request_id device_id account_generation storage_id now) s.

Definition treat_orphan (erase : string -> bool) (now : Z) (r : row) (s : db) : res (Z * Z) * db :=
  let malformed := (Ok (1, 0), delete r.1 s) in
  match doc_get r.2 "storage_id" with
  | VStr id =>
      if bool_decide (strip id = "") || negb (one_segment id)
         || negb (v_in (doc_get r.2 "cleanup_state") ["pending"; "failed"]) then malformed
      else match attempts_of r.2 with
           | Raise e => (Raise e, s)
           | Ok attempts =>
               let write state next := plain (WUpdate r.1 (values
                 [("cleanup_state", VStr state); ("cleanup_attempts", VInt (attempts + 1));
                  ("cleanup_next_attempt_at", next)])) s in
               if erase id then settled (1, 1) (write "deleted" VNone)
               else settled (1, 0) (write "failed" (instant (retry_at now attempts)))
           end
  | _ => malformed
  end.

Definition cleanup_ambiguous_frame_upload_pixels (uid : string) (erase : string -> bool) (now limit : Z) (s : db)
    : res FrameCleanupPage * db :=
  if negb (window_ok limit) then (Raise ValueError, s)
  else match _orphan_collection uid with
       | Raise e => (Raise e, s)
       | Ok c => page_loop (treat_orphan erase now) (due_rows c now limit s) (CleanupPage 0 0) s
       end.

(** ** Expiry *)
Definition prune_update (r : FrameRequest) (now : Z) : dict :=
  [("state", VStr "pruned"); ("terminal_reason", VStr "retention_expired");
   ("cleanup_state", VStr (if given (fr_storage_id r) then "pending" else "not_required"));
   ("cleanup_next_attempt_at", instant now)].

Definition _prune_one (ref : path) (now : Z) : Txn bool :=
  snapshot ← txn_get ref;
  match snapshot with
  | None => mret false
  | Some d =>
      r ← lift (_request_from_snapshot (ref, d));
      if bool_decide (fr_state r = attached) || negb (is_expired r now) then mret false
      else
        new ← lift (candidate r (prune_update r now));
        txn_update ref (values (_request_data new));;
        mret true
  end.

(** A transaction per row. *)
Definition treat_in_transaction (t : path -> Txn bool) (r : row) (s : db) : res (Z * Z) * db :=
  match run_txn (t r.1) s with
  | Ok (done, s') => (Ok (1, if done then 1 else 0), s')
  | Raise e => (Raise e, s)
  end.

Definition expiry_query (c : path) (account_generation : option Z) (limit : Z) (s : db) : list row :=
  limited limit (order_by "expires_at"
    (List.filter (fun r => field_in "state" active_states r
                           && match account_generation with
                              | Some g => field_is "account_generation" (VInt g) r | None => true end)
       (collection_rows c s))).

(** The rows that changed are the cleaned ones of the page. *)
Definition prune_expired_frame_requests (uid : string) (account_generation : option Z) (now limit : Z) (s : db)
    : res FrameCleanupPage * db :=
  if negb (window_ok limit) then (Raise ValueError, s)
  else match _collection uid with
       | Raise e => (Raise e, s)
       | Ok c => page_loop (treat_in_transaction (fun ref => _prune_one ref now))
                   (expiry_query c account_generation limit s) (CleanupPage 0 0) s
       end.

Definition terminal_unattached : list string := ["offline"; "pruned"; "failed"; "expired"; "cancelled"].

Definition pixel_query (c : path) (now limit : Z) (s : db) : list row :=
  limited limit (order_by "cleanup_next_attempt_at"
    (List.filter (fun r => field_in "state" terminal_unattached r && field_in "cleanup_state" ["pending"; "failed"] r
                           && time_at_most "cleanup_next_attempt_at" now r) (collection_rows c s))).

Definition treat_pixels (erase : string -> bool) (now : Z) (r : row) (s : db) : res (Z * Z) * db :=
  match _request_from_snapshot r with
  | Raise e => (Raise e, s)
  | Ok q =>
      if negb (given (fr_storage_id q)) || bool_decide (fr_cleanup_state q ∉ [pending; cleanup_failed])
      then (Ok (0, 0), s)
      else
        let write state next := plain (WUpdate r.1 (values
          [("cleanup_state", VStr state); ("cleanup_attempts", VInt (fr_cleanup_attempts q + 1));
           ("cleanup_next_attempt_at", next)])) s in
        if erase (default "" (fr_storage_id q)) then settled (1, 1) (write "deleted" VNone)
        else settled (1, 0) (write "failed" (instant (retry_at now (fr_cleanup_attempts q))))
  end.

Definition cleanup_frame_request_pixels (uid : string) (erase : string -> bool) (now limit : Z) (s : db)
    : res FrameCleanupPage * db :=
  if negb (window_ok limit) then (Raise ValueError, s)
  else match _collection uid with
       | Raise e => (Raise e, s)
       | Ok c => page_loop (treat_pixels erase now) (pixel_query c now limit s) (CleanupPage 0 0) s
       end.

Definition _strip_one (ref : path) (now : Z) : Txn bool :=
  snapshot ← txn_get ref;
  match snapshot with
  | None => mret false
  | Some d =>
      match doc_get d "output_expires_at" with
      | VTime _ us =>
          if now <? us then mret false
          else
            txn_update ref [("state", FValue (VStr "payload_expired")); ("description", FDelete);
                            ("completed_at", FDelete); ("output_expires_at", FDelete)];;
            mret true
      | _ => mret false
      end
  end.

Definition cleanup_expired_frame_vision_outputs (uid : string) (now limit : Z) (s : db)
    : res FrameCleanupPage * db :=
  if negb (window_ok limit) then (Raise ValueError, s)
  else
    let c := [USERS_COLLECTION; uid; FRAME_VISION_RECEIPTS_COLLECTION] in
    let rows := limited limit (order_by "output_expires_at"
                  (List.filter (time_at_most "output_expires_at" now) (collection_rows c s))) in
    page_loop (treat_in_transaction (fun ref => _strip_one ref now)) rows (CleanupPage 0 0) s.

Definition _delete_one (ref : path) (now : Z) : Txn bool :=
  snapshot ← txn_get ref;
  match snapshot with
  | None => mret false
  | Some d =>
      if v_in (doc_get d "state") terminal_unattached && v_in (doc_get d "cleanup_state") ["not_required"; "deleted"]
         && match doc_get d "expires_at" with VTime _ us => us <=? now | _ => false end
      then txn_delete ref;; mret true
      else mret false
  end.

Definition metadata_query (c : path) (now limit : Z) (s : db) : list row :=
  limited limit (order_by "expires_at"
    (List.filter (fun r => field_in "state" terminal_unattached r
                           && field_in "cleanup_state" ["not_required"; "deleted"] r
                           && time_at_most "expires_at" now r) (collection_rows c s))).

Definition delete_expired_frame_request_metadata (uid : string) (now limit : Z) (s : db)
    : res FrameCleanupPage * db :=
  if negb (window_ok limit) then (Raise ValueError, s)
  else match _collection uid with
       | Raise e => (Raise e, s)
       | Ok c => page_loop (treat_in_transaction (fun ref => _delete_one ref now)) (metadata_query c now limit s)
                   (CleanupPage 0 0) s
       end.

(** ** Lists *)
Definition list_pending_frame_requests (uid device_id : string) (account_generation now limit : Z) (s : db)
    : res (list FrameRequest) * db :=
  if negb (window_ok limit) then (Raise ValueError, s)
  else match prune_expired_frame_requests uid (Some account_generation) now FRAME_REQUEST_MAX_BATCH s with
       | (Raise e, s') => (Raise e, s')
       | (Ok _, s') =>
           (c ← _collection uid;
            rows ← requests_of (limited limit (order_by "created_at"
              (List.filter (fun r => field_is "device_id" (VStr device_id) r
                                     && field_is "account_generation" (VInt account_generation) r
                                     && field_is "state" (VStr "requested") r) (collection_rows c s'))));
            Ok (List.filter (fun r => negb (is_expired r now)) rows), s')
       end.

Definition list_recoverable_frame_requests (uid device_id : string) (account_generation now limit : Z) (s : db)
    : res (list FrameRequest) :=
  if negb (window_ok limit) then Raise ValueError
  else
    c ← _collection uid;
    rows ← requests_of (limited limit (order_by "created_at"
      (List.filter (fun r => field_is "device_id" (VStr device_id) r
                             && field_is "account_generation" (VInt account_generation) r
                             && field_in "state" active_states r) (collection_rows c s))));
    Ok (List.filter (fun r => negb (is_expired r now)) rows).

(** ** Deletion of a conversation or an account *)
Definition conversation_rows (c : path) (conversation_id : string) (n : Z) (s : db) : list row :=
  limited n (List.filter (field_is "conversation_id" (VStr conversation_id)) (collection_rows c s)).

Definition delete_rows (rows : list row) (s : db) : db := foldl (fun s r => delete r.1 s) s rows.

Fixpoint delete_pages (pages : nat) (c keyframe_job : path) (conversation_id : string) (batch_size count : Z) (s : db)
    : res Z * db :=
  match pages with
  | O => (Raise RuntimeError, s)
  | S pages' =>
      match conversation_rows c conversation_id batch_size s with
      | [] => (Ok count, delete keyframe_job s)
      | rows => delete_pages pages' c keyframe_job conversation_id batch_size (count + Z.of_nat (length rows))
                  (delete_rows rows s)
      end
  end.

Definition delete_frame_requests_for_conversation (uid conversation_id : string) (batch_size : Z) (s : db)
    : res Z * db :=
  if bool_decide (strip conversation_id = "") then (Raise ValueError, s)
  else match _collection uid with
       | Raise e => (Raise e, s)
       | Ok c => delete_pages 1000 c [USERS_COLLECTION; uid; "conversation_keyframe_jobs"; conversation_id]
                   conversation_id batch_size 0 s
       end.

Definition storage_ids_of (rows : list row) : list string :=
  omap (fun r => match doc_get r.2 "storage_id" with
                 | VStr id => if negb (bool_decide (strip id = "")) && one_segment id then Some (strip id) else None
                 | _ => None
                 end) rows.

Definition scope (conversation_id : option string) (rows : list row) : res (list row) :=
  match conversation_id with
  | None => Ok rows
  | Some id => if bool_decide (strip id = "") then Raise ValueError
               else Ok (List.filter (field_is "conversation_id" (VStr id)) rows)
  end.

Definition list_frame_request_storage_ids (uid : string) (conversation_id : option string) (limit : Z) (s : db)
    : res (list string) :=
  if negb ((1 <=? limit) && (limit <=? 10000)) then Raise ValueError
  else
    c ← _collection uid; rows ← scope conversation_id (collection_rows c s);
    if limit <? Z.of_nat (length (limited (limit + 1) rows)) then Raise RuntimeError else Ok (storage_ids_of rows).

(** Pages of a query, each after the last row of the one before; a page of no rows that
    is not short has no last row. *)
Fixpoint id_pages (pages : nat) (page_size : Z) (rows : list row) : res (list string) :=
  match pages with
  | O => Raise RuntimeError
  | S pages' =>
      let page := limited page_size rows in
      if Z.of_nat (length page) <? page_size then Ok (storage_ids_of page)
      else if bool_decide (page = []) then Raise IndexError
      else rest ← id_pages pages' page_size (drop (Z.to_nat page_size) rows); Ok (storage_ids_of page ++ rest)
  end.

Definition page_bounds_ok (page_size max_pages : Z) : bool :=
  (1 <=? page_size) && (page_size <=? 10000) && (1 <=? max_pages) && (max_pages <=? 10000).

Definition list_all_frame_request_storage_ids (uid : string) (conversation_id : option string)
    (page_size max_pages : Z) (s : db) : res (list string) :=
  if negb (page_bounds_ok page_size max_pages) then Raise ValueError
  else
    c ← _collection uid; rows ← scope conversation_id (collection_rows c s);
    id_pages (Z.to_nat max_pages) page_size rows.

Definition list_all_frame_upload_orphan_storage_ids (uid : string) (page_size max_pages : Z) (s : db)
    : res (list string) :=
  if negb (page_bounds_ok page_size max_pages) then Raise ValueError
  else c ← _orphan_collection uid; id_pages (Z.to_nat max_pages) page_size (collection_rows c s).

Definition list_all_frame_deletion_outbox_storage_ids (uid : string) (page_size max_pages : Z) (s : db)
    : res (list string) :=
  c ← _deletion_outbox_collection uid; id_pages (Z.to_nat max_pages) page_size (collection_rows c s).
