(* ===== verification/FrameRows.v ===== *)
(** * Reading and rewriting the rows of frame requests

    [reads_as d r]: the document [d] reads as the row [r], field by field.  A row that
    was read writes a document that reads back as it; an update with the data of a row
    leaves a document that reads as this row, up to the next attempt of its clean-up,
    which an update with no such field leaves alone. *)

From S2P Require Import Prelude PyValue Firestore Sha256 MemoryText MemoryOperations MemoryRecords FrameRequests FrameStore.
From Stdlib Require Import QArith_base Ascii.
Local Open Scope Z_scope.

(** ** Stripping *)
Lemma drop_spaces_idem l : drop_spaces (drop_spaces l) = drop_spaces l.
Proof. induction l as [|c l IH]; [done|]. simpl. destruct (is_space c) eqn:E; [done|]. simpl. by rewrite E. Qed.

Lemma drop_spaces_suffix l : exists p, l = p ++ drop_spaces l.
Proof.
  induction l as [|c l [p IH]]; [by exists []|]. simpl. destruct (is_space c); [|by exists []].
  exists (c :: p). simpl. by rewrite <- IH.
Qed.

(** A text that starts with no space still does after its end is cut. *)
Lemma drop_spaces_keep l p : drop_spaces l = l -> forall s, l = p ++ s -> drop_spaces p = p.
Proof.
  intros Hl s ->. destruct p as [|c p]; [done|]. simpl in *. destruct (is_space c) eqn:E; [|done].
  exfalso. destruct (drop_spaces_suffix (p ++ s)) as [q Hq]. rewrite Hl in Hq.
  apply (f_equal length) in Hq. rewrite !length_app in Hq. simpl in Hq. rewrite ?length_app in Hq. lia.
Qed.

Lemma strip_list_idem l : strip_list (strip_list l) = strip_list l.
Proof.
  unfold strip_list. set (m := drop_spaces l). set (n := drop_spaces (rev m)).
  assert (Hm : drop_spaces m = m) by apply drop_spaces_idem.
  assert (Hn : drop_spaces n = n) by apply drop_spaces_idem.
  destruct (drop_spaces_suffix (rev m)) as [p Hp]. fold n in Hp.
  assert (Hr : m = rev n ++ rev p) by by rewrite <- (rev_involutive m), Hp, rev_app_distr.
  rewrite (drop_spaces_keep m (rev n) Hm (rev p) Hr), rev_involutive. by rewrite Hn.
Qed.

Lemma strip_idem s : strip (strip s) = strip s.
Proof. unfold strip. by rewrite String.list_ascii_of_string_of_list_ascii, strip_list_idem. Qed.

(** ** Readers give what they read back *)
Lemma rd_required_text_again max v s : rd_required_text max v = Ok s -> rd_required_text max (VStr s) = Ok s.
Proof.
  destruct v; simpl; try done. case_match eqn:E; [done|]. intros [= <-]. simpl.
  by rewrite strip_idem, E.
Qed.

Lemma rd_optional_text_again max v s : rd_optional_text max v = Ok (Some s) -> rd_optional_text max (VStr s) = Ok (Some s).
Proof.
  destruct v; simpl; try done. case_bool_decide; [done|]. case_match eqn:E; [done|]. intros [= <-].
  rewrite strip_idem, bool_decide_false by done. by rewrite E.
Qed.

Lemma rd_enum_again {A} (name : A -> string) all v a :
  (forall a b, name a = name b -> a = b) -> rd_enum name all v = Ok a -> rd_enum name all (VStr (name a)) = Ok a.
Proof.
  intros Hinj. unfold rd_enum. destruct (List.find _ all) as [b|] eqn:E; [|done]. intros [= <-].
  apply List.find_some in E as [Hin _].
  induction all as [|c all IH]; [done|]. cbn. case_bool_decide as Hc.
  - f_equal. by apply Hinj.
  - destruct Hin as [->|Hin]; [done|]. by apply IH.
Qed.

Lemma state_value_inj a b : state_value a = state_value b -> a = b.
Proof. by destruct a, b. Qed.
Lemma cleanup_value_inj a b : cleanup_value a = cleanup_value b -> a = b.
Proof. by destruct a, b. Qed.

Lemma rd_count_again v n : rd_count v = Ok n -> rd_count (VInt n) = Ok n.
Proof.
  unfold rd_count. destruct (rd_int v) as [m|]; [|done]. simpl. destruct (0 <=? m) eqn:E; [|done].
  intros [= <-]. by rewrite E.
Qed.

Lemma rd_bounded_again max v n : rd_bounded max v = Ok n -> rd_bounded max (VInt n) = Ok n.
Proof.
  unfold rd_bounded. destruct (rd_count v) as [m|] eqn:Hm; [|done]. simpl.
  destruct (m <=? max) eqn:E; [|done]. intros [= <-]. rewrite (rd_count_again _ _ Hm). simpl. by rewrite E.
Qed.

(** ** A document as a row *)
Definition text_of (max : Z) (d : fields) (k s : string) : Prop := required d k (rd_required_text max) = Ok s.
Definition optional_of (max : Z) (d : fields) (k : string) (o : option string) : Prop :=
  defaulted d k (rd_optional_text max) None = Ok o.
Definition time_of (d : fields) (k : string) (t : Z) : Prop := required d k (rd_time true) = Ok t.
Definition maybe_time_of (d : fields) (k : string) (o : option Z) : Prop :=
  defaulted d k (rd_opt (rd_time true)) None = Ok o.

Record reads_as (d : fields) (r : FrameRequest) : Prop := {
  ra_fields : dom d ⊆ frame_fields;
  ra_id : text_of 128 d "request_id" (fr_request_id r);
  ra_segment : one_segment (fr_request_id r) = true;
  ra_uid : text_of 256 d "uid" (fr_uid r);
  ra_device : text_of 256 d "device_id" (fr_device_id r);
  ra_generation : defaulted d "account_generation" rd_count 0 = Ok (fr_account_generation r);
  ra_dedupe : text_of 256 d "dedupe_key" (fr_dedupe_key r);
  ra_window : defaulted d "dedupe_window" rd_count 0 = Ok (fr_dedupe_window r);
  ra_attempt : defaulted d "attempt_number" rd_count 0 = Ok (fr_attempt_number r);
  ra_conversation : optional_of 256 d "conversation_id" (fr_conversation_id r);
  ra_screenshot : optional_of 256 d "screenshot_id" (fr_screenshot_id r);
  ra_state : defaulted d "state" (rd_enum state_value frame_states) requested = Ok (fr_state r);
  ra_created : time_of d "created_at" (fr_created_at r);
  ra_expires : time_of d "expires_at" (fr_expires_at r);
  ra_claimed : maybe_time_of d "claimed_at" (fr_claimed_at r);
  ra_uploaded : maybe_time_of d "uploaded_at" (fr_uploaded_at r);
  ra_attached : maybe_time_of d "attached_at" (fr_attached_at r);
  ra_reason : optional_of 240 d "terminal_reason" (fr_terminal_reason r);
  ra_bytes : defaulted d "byte_count" (rd_bounded MAX_BYTES) 0 = Ok (fr_byte_count r);
  ra_content : optional_of 100 d "content_type" (fr_content_type r);
  ra_storage : optional_of 256 d "storage_id" (fr_storage_id r);
  ra_opaque : _validate_storage_id (fr_storage_id r) = Ok (fr_storage_id r);
  ra_cleanup : defaulted d "cleanup_state" (rd_enum cleanup_value cleanup_states) not_required = Ok (fr_cleanup_state r);
  ra_attempts : defaulted d "cleanup_attempts" (rd_bounded 1000) 0 = Ok (fr_cleanup_attempts r);
  ra_next : maybe_time_of d "cleanup_next_attempt_at" (fr_cleanup_next_attempt_at r);
  ra_lifecycle : _validate_lifecycle r = Ok r
}.

Lemma validate_lifecycle_Ok r r' : _validate_lifecycle r = Ok r' -> r' = r.
Proof. unfold _validate_lifecycle. intros H. repeat (case_match; [done|]). by injection H. Qed.

Lemma validate_storage_Ok o o' : _validate_storage_id o = Ok o' -> o' = o.
Proof. destruct o; simpl; repeat case_match; by intros [=]. Qed.

Lemma frame_request_reads d r : frame_request d = Ok r -> reads_as d r.
Proof.
  unfold frame_request. case_bool_decide as Hd; [|done]. simpl negb. cbv iota. intros H. inv_res.
  pose proof (validate_lifecycle_Ok _ _ H) as ->.
  repeat match goal with H : _validate_storage_id _ = Ok _ |- _ => pose proof (validate_storage_Ok _ _ H) as ->; revert H end.
  repeat match goal with H : _validate_request_id _ = Ok _ |- _ =>
    unfold _validate_request_id in H; case_match eqn:Hs; [injection H as <-|done] end.
  intros. constructor; simpl; try done.
Qed.

Lemma reads_frame_request d r : reads_as d r -> frame_request d = Ok r.
Proof.
  intros []. unfold frame_request, text_of, optional_of, time_of, maybe_time_of in *.
  rewrite bool_decide_true by done. simpl negb. cbv iota.
  repeat match goal with E : ?m = Ok _ |- context [?m ≫= _] => rewrite E, ok_bind end.
  unfold _validate_request_id. rewrite ra_segment0, ok_bind.
  repeat match goal with E : ?m = Ok _ |- context [?m ≫= _] => rewrite E, ok_bind end.
  by destruct r.
Qed.

Lemma frame_request_iff d r : frame_request d = Ok r <-> reads_as d r.
Proof. split; [apply frame_request_reads|apply reads_frame_request]. Qed.

(** ** An update with the data of a row *)
Lemma field_after_app k (u1 u2 : updates) o : field_after k (u1 ++ u2) o = field_after k u2 (field_after k u1 o).
Proof. apply foldl_app. Qed.

Definition after_optional (k k' : string) (v : value) (o : option value) : option value :=
  if decide (k' = k) then match v with VNone => o | _ => Some v end else o.
Definition after_value (k k' : string) (v : value) (o : option value) : option value :=
  if decide (k' = k) then Some v else o.

Lemma field_after_optional k k' v o : field_after k (values (opt_field k' v)) o = after_optional k k' v o.
Proof. destruct v; unfold after_optional; cbn; by case_decide. Qed.

(** The field [k] of a document after an update with the data of [r]. *)
Definition written_field (r : FrameRequest) (k : string) (old : option value) : option value :=
  let text v := Some (VStr v) in
  let number v := Some (VInt v) in
  let maybe (v : value) := match v with VNone => old | _ => Some v end in
  if decide (k = "request_id") then text (fr_request_id r) else if decide (k = "uid") then text (fr_uid r)
  else if decide (k = "device_id") then text (fr_device_id r)
  else if decide (k = "account_generation") then number (fr_account_generation r)
  else if decide (k = "dedupe_key") then text (fr_dedupe_key r)
  else if decide (k = "dedupe_window") then number (fr_dedupe_window r)
  else if decide (k = "attempt_number") then number (fr_attempt_number r)
  else if decide (k = "conversation_id") then maybe (opt_str (fr_conversation_id r))
  else if decide (k = "screenshot_id") then maybe (opt_str (fr_screenshot_id r))
  else if decide (k = "state") then text (state_value (fr_state r))
  else if decide (k = "created_at") then Some (instant (fr_created_at r))
  else if decide (k = "expires_at") then Some (instant (fr_expires_at r))
  else if decide (k = "claimed_at") then maybe (opt_time (fr_claimed_at r))
  else if decide (k = "uploaded_at") then maybe (opt_time (fr_uploaded_at r))
  else if decide (k = "attached_at") then maybe (opt_time (fr_attached_at r))
  else if decide (k = "terminal_reason") then maybe (opt_str (fr_terminal_reason r))
  else if decide (k = "byte_count") then number (fr_byte_count r)
  else if decide (k = "content_type") then maybe (opt_str (fr_content_type r))
  else if decide (k = "storage_id") then maybe (opt_str (fr_storage_id r))
  else if decide (k = "cleanup_state") then text (cleanup_value (fr_cleanup_state r))
  else if decide (k = "cleanup_attempts") then number (fr_cleanup_attempts r)
  else if decide (k = "cleanup_next_attempt_at") then maybe (opt_time (fr_cleanup_next_attempt_at r))
  else old.

Lemma values_app u v : values (u ++ v) = values u ++ values v.
Proof. apply fmap_app. Qed.

Lemma field_after_cons k k' v (u : dict) o :
  field_after k (values ((k', v) :: u)) o = field_after k (values u) (after_value k k' v o).
Proof. done. Qed.

Definition frame_names : list string :=
  ["request_id"; "uid"; "device_id"; "account_generation"; "dedupe_key"; "dedupe_window"; "attempt_number";
   "conversation_id"; "screenshot_id"; "state"; "created_at"; "expires_at"; "claimed_at"; "uploaded_at"; "attached_at";
   "terminal_reason"; "byte_count"; "content_type"; "storage_id"; "cleanup_state"; "cleanup_attempts";
   "cleanup_next_attempt_at"].

Ltac each_name Hk :=
  repeat (apply elem_of_cons in Hk as [->|Hk]; [|]); [..|by apply not_elem_of_nil in Hk].

Lemma field_after_data r k o : k ∈ frame_names -> field_after k (values (_request_data r)) o = written_field r k o.
Proof.
  intros Hk. unfold _request_data.
  repeat first [rewrite values_app | rewrite field_after_app | rewrite field_after_optional | rewrite field_after_cons].
  change (field_after k (values []) ?x) with x. unfold frame_names in Hk. each_name Hk; vm_compute; reflexivity.
Qed.

Lemma dict_lookup_app k (a b : dict) :
  dict_lookup k (a ++ b) = match dict_lookup k a with Some v => Some v | None => dict_lookup k b end.
Proof. induction a as [|[k' v] a IH]; [done|]. simpl. by destruct (decide (k = k')). Qed.

Definition first_optional (k k' : string) (v : value) : option value :=
  if decide (k = k') then match v with VNone => None | _ => Some v end else None.

Lemma dict_lookup_optional k k' v : dict_lookup k (opt_field k' v) = first_optional k k' v.
Proof. unfold first_optional. by destruct v; simpl; case_decide. Qed.

Lemma data_lookup r k :
  k ∈ frame_names -> (list_to_map (_request_data r) : fields) !! k = written_field r k None.
Proof.
  intros Hk. rewrite list_to_map_get. unfold _request_data.
  repeat first [rewrite dict_lookup_app | rewrite dict_lookup_optional].
  unfold frame_names in Hk. each_name Hk; vm_compute; repeat case_match; reflexivity.
Qed.

Lemma optional_names (P : string -> Prop) k v : P k -> Forall P (opt_field k v).*1.
Proof. destruct v; simpl; auto. Qed.

Lemma data_names r : Forall (.∈ frame_names) (_request_data r).*1.
Proof.
  unfold _request_data. rewrite !fmap_app, !Forall_app.
  split_and!; try apply optional_names.
  all: try (apply (bool_decide_eq_true_1 _); vm_compute; reflexivity).
Qed.

Lemma values_names (u : dict) : (values u).*1 = u.*1.
Proof. unfold values. rewrite <- list_fmap_compose. by apply list_fmap_ext. Qed.

(** ** Rows under an update *)
Definition with_next (r : FrameRequest) (next : option Z) : FrameRequest :=
  Frame (fr_request_id r) (fr_uid r) (fr_device_id r) (fr_account_generation r) (fr_dedupe_key r) (fr_dedupe_window r)
    (fr_attempt_number r) (fr_conversation_id r) (fr_screenshot_id r) (fr_state r) (fr_created_at r) (fr_expires_at r)
    (fr_claimed_at r) (fr_uploaded_at r) (fr_attached_at r) (fr_terminal_reason r) (fr_byte_count r)
    (fr_content_type r) (fr_storage_id r) (fr_cleanup_state r) (fr_cleanup_attempts r) next.

(** What [new] leaves out, [old] has not either. *)
Definition covers (new old : FrameRequest) : Prop :=
  (fr_conversation_id new = None -> fr_conversation_id old = None) /\
  (fr_screenshot_id new = None -> fr_screenshot_id old = None) /\
  (fr_claimed_at new = None -> fr_claimed_at old = None) /\ (fr_uploaded_at new = None -> fr_uploaded_at old = None) /\
  (fr_attached_at new = None -> fr_attached_at old = None) /\
  (fr_terminal_reason new = None -> fr_terminal_reason old = None) /\
  (fr_content_type new = None -> fr_content_type old = None) /\ (fr_storage_id new = None -> fr_storage_id old = None).

Definition next_after (new old : FrameRequest) : option Z :=
  match fr_cleanup_next_attempt_at new with Some t => Some t | None => fr_cleanup_next_attempt_at old end.

Section Written.
Context (src d d' : fields) (k : string).

Lemma text_written max s : text_of max src k s -> d' !! k = Some (VStr s) -> text_of max d' k s.
Proof. unfold text_of, required. intros H ->. destruct (src !! k); [by eapply rd_required_text_again|done]. Qed.

Lemma time_written t : d' !! k = Some (instant t) -> time_of d' k t.
Proof. unfold time_of, required. by intros ->. Qed.

Lemma count_written n : defaulted src k rd_count 0 = Ok n -> d' !! k = Some (VInt n) -> defaulted d' k rd_count 0 = Ok n.
Proof.
  unfold defaulted. intros H ->. destruct (src !! k); [by eapply rd_count_again|]. by injection H as <-.
Qed.

Lemma bounded_written max n :
  0 <= max -> defaulted src k (rd_bounded max) 0 = Ok n -> d' !! k = Some (VInt n) ->
  defaulted d' k (rd_bounded max) 0 = Ok n.
Proof.
  unfold defaulted. intros Hm H ->. destruct (src !! k); [by eapply rd_bounded_again|]. injection H as <-.
  unfold rd_bounded, rd_count. simpl. by rewrite (proj2 (Z.leb_le 0 max)).
Qed.

Lemma enum_written {A} (name : A -> string) all (a0 a : A) :
  (forall a b, name a = name b -> a = b) -> rd_enum name all (VStr (name a0)) = Ok a0 ->
  defaulted src k (rd_enum name all) a0 = Ok a -> d' !! k = Some (VStr (name a)) ->
  defaulted d' k (rd_enum name all) a0 = Ok a.
Proof.
  unfold defaulted. intros Hi H0 H ->. destruct (src !! k); [by eapply rd_enum_again|]. by injection H as <-.
Qed.

Lemma optional_written max o old :
  optional_of max src k o -> optional_of max d k old -> (o = None -> old = None) ->
  d' !! k = (match opt_str o with VNone => d !! k | _ => Some (opt_str o) end) -> optional_of max d' k o.
Proof.
  unfold optional_of, defaulted. intros H Hold Ho ->. destruct o as [s|]; simpl.
  - destruct (src !! k); [exact (rd_optional_text_again _ _ _ H)|discriminate H].
  - pose proof (Ho eq_refl) as ->. done.
Qed.

Lemma maybe_time_written o old :
  maybe_time_of d k old -> d' !! k = (match opt_time o with VNone => d !! k | _ => Some (opt_time o) end) ->
  maybe_time_of d' k (match o with Some t => Some t | None => old end).
Proof. unfold maybe_time_of, defaulted. intros Hold ->. by destruct o. Qed.
End Written.

Lemma merged_time (o old : option Z) : (o = None -> old = None) -> match o with Some t => Some t | None => old end = o.
Proof. destruct o; [done|]. intros H. by rewrite H. Qed.

Lemma lifecycle_next r o : _validate_lifecycle r = Ok r -> _validate_lifecycle (with_next r o) = Ok (with_next r o).
Proof. unfold _validate_lifecycle. destruct r; simpl. intros H. repeat (case_match; [discriminate H|]). done. Qed.

Ltac look_up H := match goal with |- _ !! ?k = _ => exact (H k eq_refl) end.

Lemma rewritten_reads d d' src old new :
  reads_as d old -> reads_as src new -> covers new old -> dom d' ⊆ frame_fields ->
  (forall k, k ∈ frame_names -> d' !! k = written_field new k (d !! k)) ->
  reads_as d' (with_next new (next_after new old)).
Proof.
  intros Hold Hnew (C1 & C2 & C3 & C4 & C5 & C6 & C7 & C8) Hdom Hw.
  assert (Hin : forall k, bool_decide (k ∈ frame_names) = true -> d' !! k = written_field new k (d !! k)).
  { intros k Hk. apply Hw. by apply bool_decide_eq_true in Hk. }
  clear Hw. destruct Hold, Hnew. constructor; cbn [with_next fr_request_id fr_uid fr_device_id fr_account_generation
    fr_dedupe_key fr_dedupe_window fr_attempt_number fr_conversation_id fr_screenshot_id fr_state fr_created_at
    fr_expires_at fr_claimed_at fr_uploaded_at fr_attached_at fr_terminal_reason fr_byte_count fr_content_type
    fr_storage_id fr_cleanup_state fr_cleanup_attempts fr_cleanup_next_attempt_at]; try done.
  all: try by (eapply text_written; [done|look_up Hin]).
  all: try by (apply time_written; look_up Hin).
  all: try by (eapply count_written; [done|look_up Hin]).
  all: try by (eapply bounded_written; [|done|look_up Hin]; done).
  all: try by (eapply (optional_written src d); [done|done|done|look_up Hin]).
  all: try by (erewrite <- merged_time by eassumption; eapply (maybe_time_written d); [done|look_up Hin]).
  - eapply enum_written; [apply state_value_inj|done|done|look_up Hin].
  - eapply enum_written; [apply cleanup_value_inj|done|done|look_up Hin].
  - unfold next_after. eapply (maybe_time_written d); [done|look_up Hin].
  - by apply lifecycle_next.
Qed.

(** The row that is left reads back as written. *)
Lemma empty_reads_nothing max k : optional_of max ∅ k None.
Proof. done. Qed.

Lemma written_reads src new : reads_as src new -> reads_as (list_to_map (_request_data new)) new.
Proof.
  intros H. pose proof H as []. assert (Hin : forall k, bool_decide (k ∈ frame_names) = true ->
    (list_to_map (_request_data new) : fields) !! k = written_field new k ((∅ : fields) !! k)).
  { intros k Hk. apply data_lookup. by apply bool_decide_eq_true in Hk. }
  constructor; try done.
  { intros k. rewrite dom_list_to_map_L, elem_of_list_to_set. intros Hk.
    pose proof (data_names new) as Hn. rewrite Forall_forall in Hn. apply elem_of_list_to_set. by apply Hn. }
  all: try by (eapply text_written; [done|look_up Hin]).
  all: try by (apply time_written; look_up Hin).
  all: try by (eapply count_written; [done|look_up Hin]).
  all: try by (eapply bounded_written; [|done|look_up Hin]; done).
  all: try by (eapply (optional_written src ∅); [done|apply empty_reads_nothing|done|look_up Hin]).
  all: try by (erewrite <- (merged_time _ None) by done; eapply (maybe_time_written ∅); [done|look_up Hin]).
  - eapply enum_written; [apply state_value_inj|done|done|look_up Hin].
  - eapply enum_written; [apply cleanup_value_inj|done|done|look_up Hin].
Qed.

Lemma updated_dom d new : dom d ⊆ frame_fields -> dom (apply_ops false d (values (_request_data new))) ⊆ frame_fields.
Proof.
  intros Hd k Hk. destruct (decide (k ∈ frame_names)) as [Hin|Hn]; [by apply elem_of_list_to_set|].
  apply Hd. apply elem_of_dom. apply elem_of_dom in Hk. rewrite apply_ops_notin in Hk; [done|].
  rewrite values_names. intros Hk'. apply Hn. pose proof (data_names new) as Ha. rewrite Forall_forall in Ha. by apply Ha.
Qed.

Lemma updated_field d new k :
  k ∈ frame_names -> apply_ops false d (values (_request_data new)) !! k = written_field new k (d !! k).
Proof. intros. by rewrite apply_ops_lookup, field_after_data. Qed.

Lemma updated_reads d src old new :
  reads_as d old -> reads_as src new -> covers new old ->
  reads_as (apply_ops false d (values (_request_data new))) (with_next new (next_after new old)).
Proof.
  intros Ho Hn Hc. eapply rewritten_reads; try done.
  - apply updated_dom. by destruct Ho.
  - intros k. apply updated_field.
Qed.

(** A document of a row names its request. *)
Lemma default_id_updated id d new :
  with_default_id id (apply_ops false d (values (_request_data new)))
  = apply_ops false (with_default_id id d) (values (_request_data new)).
Proof.
  assert (Hr : apply_ops false d (values (_request_data new)) !! "request_id" = Some (VStr (fr_request_id new))).
  { rewrite updated_field by (apply (bool_decide_eq_true_1 _); vm_compute; reflexivity). done. }
  unfold with_default_id at 1. rewrite Hr. apply map_eq. intros k.
  rewrite !apply_ops_lookup. destruct (decide (k = "request_id")) as [->|Hk].
  - by rewrite !field_after_data by (apply (bool_decide_eq_true_1 _); vm_compute; reflexivity).
  - f_equal. unfold with_default_id. destruct (d !! "request_id"); [done|]. by rewrite lookup_insert_ne.
Qed.

(** ** The outcome of a clean-up *)
Definition cleanup_writes (state : FrameRequestCleanupState) (attempts : Z) (next : option Z) : dict :=
  [("cleanup_state", VStr (cleanup_value state)); ("cleanup_attempts", VInt attempts);
   ("cleanup_next_attempt_at", opt_time next)].

Definition with_cleanup (r : FrameRequest) (state : FrameRequestCleanupState) (attempts : Z) (next : option Z)
    : FrameRequest :=
  Frame (fr_request_id r) (fr_uid r) (fr_device_id r) (fr_account_generation r) (fr_dedupe_key r) (fr_dedupe_window r)
    (fr_attempt_number r) (fr_conversation_id r) (fr_screenshot_id r) (fr_state r) (fr_created_at r) (fr_expires_at r)
    (fr_claimed_at r) (fr_uploaded_at r) (fr_attached_at r) (fr_terminal_reason r) (fr_byte_count r)
    (fr_content_type r) (fr_storage_id r) state attempts next.

Lemma lifecycle_cleanup r st n o : _validate_lifecycle r = Ok r -> _validate_lifecycle (with_cleanup r st n o) = Ok (with_cleanup r st n o).
Proof. unfold _validate_lifecycle. destruct r; simpl. intros H. repeat (case_match; [discriminate H|]). done. Qed.

Lemma cleanup_reads d r st n o :
  reads_as d r -> 0 <= n <= 1000 -> reads_as (apply_ops false d (values (cleanup_writes st n o))) (with_cleanup r st n o).
Proof.
  intros [] [Hn Hn']. set (d' := apply_ops false d (values (cleanup_writes st n o))).
  assert (Hk : forall k, bool_decide (k ∉ ["cleanup_state"; "cleanup_attempts"; "cleanup_next_attempt_at"]) = true -> d' !! k = d !! k).
  { intros k Hk. apply apply_ops_notin. rewrite values_names. by apply bool_decide_eq_true in Hk. }
  assert (Hs : d' !! "cleanup_state" = Some (VStr (cleanup_value st))) by (unfold d'; by rewrite apply_ops_lookup).
  assert (Ha : d' !! "cleanup_attempts" = Some (VInt n)) by (unfold d'; by rewrite apply_ops_lookup).
  assert (Hx : d' !! "cleanup_next_attempt_at" = Some (opt_time o)) by (unfold d'; by rewrite apply_ops_lookup).
  constructor; cbn [with_cleanup fr_request_id fr_uid fr_device_id fr_account_generation
    fr_dedupe_key fr_dedupe_window fr_attempt_number fr_conversation_id fr_screenshot_id fr_state fr_created_at
    fr_expires_at fr_claimed_at fr_uploaded_at fr_attached_at fr_terminal_reason fr_byte_count fr_content_type
    fr_storage_id fr_cleanup_state fr_cleanup_attempts fr_cleanup_next_attempt_at]; try done.
  { intros k Hd. destruct (decide (k ∈ ["cleanup_state"; "cleanup_attempts"; "cleanup_next_attempt_at"])) as [Hin|Hin].
    - revert Hin. rewrite !elem_of_cons, elem_of_nil. intros [->|[->|[->|[]]]]; by apply elem_of_list_to_set, (bool_decide_eq_true_1 _).
    - apply ra_fields0. apply elem_of_dom. apply elem_of_dom in Hd. rewrite Hk in Hd; [done|by apply bool_decide_eq_true]. }
  all: unfold text_of, optional_of, time_of, maybe_time_of, required, defaulted in *.
  all: try (match goal with |- context [_ !! ?k] => rewrite (Hk k eq_refl) end; done).
  - rewrite Hs. by destruct st.
  - rewrite Ha. unfold rd_bounded, rd_count. simpl. rewrite (proj2 (Z.leb_le 0 n) Hn). simpl. by rewrite (proj2 (Z.leb_le n 1000) Hn').
  - rewrite Hx. by destruct o.
  - by apply lifecycle_cleanup.
Qed.
