(* ===== verification/FrameProofs.v ===== *)
(** * Proofs about the operations on frame requests

    For each transaction, what it read and the one store it leaves. *)

From S2P Require Import Prelude PyValue Firestore Sha256 MemoryText MemoryOperations MemoryRecords FrameRequests FrameStore FrameRows.
From Stdlib Require Import QArith_base Ascii.
Local Open Scope Z_scope.

Lemma runs_query q (Q : list row -> list write -> Prop) s : Q (q s) [] -> runs (txn_query q) Q s [].
Proof. intros HQ a st [= <- <-]. done. Qed.

Lemma runs_create r d (Q : unit -> list write -> Prop) s ws :
  (s !! r = None -> Q tt (ws ++ [WSet r d])) -> runs (txn_create r d) Q s ws.
Proof. intros HQ a st. unfold txn_create. simpl. case_match eqn:E; [done|]. intros [= <- <-]. auto. Qed.

Lemma runs_if (b : bool) {A} (t1 t2 : Txn A) Q s ws :
  (b = true -> runs t1 Q s ws) -> (b = false -> runs t2 Q s ws) -> runs (if b then t1 else t2) Q s ws.
Proof. destruct b; auto. Qed.

Lemma found_Ok {A} (o : option A) e a : match o with Some d => Ok d | None => Raise e end = Ok a -> o = Some a.
Proof. destruct o; [|done]. by intros [= ->]. Qed.

#[local] Opaque _request_data.
#[local] Arguments values : simpl never.
#[local] Arguments txn_update : simpl never.

(** [found] reads the facts that the steps of a transaction leave. *)
Ltac found :=
  repeat match goal with
  | H : match ?o with Some d => Ok d | None => Raise _ end = Ok _ |- _ => apply found_Ok in H
  | u : () |- _ => destruct u
  | H : negb _ = false |- _ => apply negb_false_iff in H
  | H : negb _ = true |- _ => apply negb_true_iff in H
  | H : _ || _ = false |- _ => apply orb_false_iff in H as [? ?]
  | H : bool_decide _ = true |- _ => apply bool_decide_eq_true in H
  | H : bool_decide _ = false |- _ => apply bool_decide_eq_false in H
  end; simplify_eq/=.

Ltac frame_step :=
  lazymatch goal with
  | |- runs (txn_query _) _ _ _ => apply runs_query
  | |- runs (txn_create _ _) _ _ _ => apply runs_create; intros ?
  | |- runs (match ?x with _ => _ end) _ _ _ =>
      lazymatch type of x with
      | bool => let E := fresh "Hif" in apply runs_if; intros E
      | _ => let E := fresh "Hcase" in destruct x eqn:E
      end
  | _ => runs_step
  end.

(** A transaction that rewrites the row at [ref]. *)
Definition rewrites (ref : path) (d : fields) (new : FrameRequest) (s s' : db) : Prop :=
  s !! ref = Some d /\ s' = <[ref := apply_ops false d (values (_request_data new))]> s.

Lemma commit_update ref u s s' :
  commit [WUpdate ref u] s = Some s' -> exists d, s !! ref = Some d /\ s' = <[ref := apply_ops false d u]> s.
Proof. simpl. destruct (s !! ref) as [d|]; [|done]. intros [= <-]. eauto. Qed.

Section Transition.
Context (uid request_id : string) (next : FrameRequestState) (device_id : string) (generation : Z)
  (reason storage : option string) (bytes : Z) (content : option string) (now : Z).

Lemma transition_spec s new s' :
  transition_frame_request uid request_id next device_id generation reason storage bytes content now s = Ok (new, s') ->
  exists c d r,
    _collection uid = Ok c /\ _request_from_snapshot (document c request_id, d) = Ok r /\
    validate_transition r next uid device_id generation now = Ok tt /\
    check_transition_arguments r next reason storage bytes content = Ok tt /\
    (next = uploaded ->
     exists active, requests_of (active_query c device_id generation s) = Ok active /\
       (FRAME_REQUEST_MAX_BYTES_PER_DEVICE
        <? qd_pending_bytes (check_device_quota active uid device_id now bytes) + bytes) = false) /\
    candidate r (transition_update r next reason storage bytes content now) = Ok new /\
    rewrites (document c request_id) d new s s'.
Proof.
  intros H. apply (run_txn_runs _ (fun new ws => exists c d r,
    _collection uid = Ok c /\ s !! document c request_id = Some d /\
    _request_from_snapshot (document c request_id, d) = Ok r /\
    validate_transition r next uid device_id generation now = Ok tt /\
    check_transition_arguments r next reason storage bytes content = Ok tt /\
    (next = uploaded ->
     exists active, requests_of (active_query c device_id generation s) = Ok active /\
       (FRAME_REQUEST_MAX_BYTES_PER_DEVICE
        <? qd_pending_bytes (check_device_quota active uid device_id now bytes) + bytes) = false) /\
    candidate r (transition_update r next reason storage bytes content now) = Ok new /\
    ws = [WUpdate (document c request_id) (values (_request_data new))])) in H.
  - destruct H as (ws & (c & d & r & Hc & Hd & Hr & Hv & Ha & Hq & Hn & ->) & Hcommit).
    apply commit_update in Hcommit as (d' & Hd' & ->). exists c, d, r. rewrite Hd in Hd'. injection Hd' as <-.
    split_and!; done.
  - unfold _transition, check_upload_quota. repeat frame_step; found; simpl; do 3 eexists; split_and!; eauto; done.
Qed.
End Transition.

(** ** Paths *)
Definition frame_row (p : path) : Prop := exists owner id, p = [USERS_COLLECTION; owner; FRAME_REQUESTS_COLLECTION; id].

Lemma owner_collection_Ok uid name c :
  owner_collection uid name = Ok c -> c = [USERS_COLLECTION; strip uid; name] /\ strip uid <> "".
Proof. unfold owner_collection. case_bool_decide; [done|]. by intros [= <-]. Qed.

Lemma collection_Ok uid c :
  _collection uid = Ok c -> c = [USERS_COLLECTION; strip uid; FRAME_REQUESTS_COLLECTION] /\ strip uid <> "".
Proof. apply owner_collection_Ok. Qed.

Lemma orphan_Ok uid id r :
  orphan_ref uid id = Ok r -> r = [USERS_COLLECTION; strip uid; FRAME_UPLOAD_ORPHANS_COLLECTION; text_digest id].
Proof.
  unfold orphan_ref. intros H. inv_res.
  match goal with H : _orphan_collection _ = Ok _ |- _ => apply owner_collection_Ok in H as [-> _] end. done.
Qed.

Lemma orphan_not_row uid id r : orphan_ref uid id = Ok r -> ~ frame_row r.
Proof. intros ->%orphan_Ok (o & i & [=]). Qed.

Lemma conversation_not_row uid id : ~ frame_row (conversation_path uid id).
Proof. intros (o & i & [=]). Qed.

Lemma photo_not_row uid id ps : ~ frame_row (conversation_path uid id ++ ["photos"; ps]).
Proof. intros (o & i & [=]). Qed.

(** ** The attachment *)
Section Attach.
Context `{PhotoEnv} (uid request_id device_id : string) (generation : Z) (conversation_id permanent_id : string) (now : Z).

Definition may_attach (c : path) (r : FrameRequest) (s : db) : Prop :=
  fr_state r = uploaded /\ given (fr_storage_id r) = true /\
  exists found,
    requests_of (attached_query c conversation_id (FRAME_REQUEST_MAX_ATTACHED_PER_CONVERSATION + 1) s) = Ok found /\
    existsb (fun x => negb (bool_decide (fr_request_id x = request_id))) found = false /\
    (FRAME_REQUEST_MAX_BYTES_PER_CONVERSATION <? sum_bytes found + fr_byte_count r) = false.

Lemma attach_commit c receipt photo marks u s s' :
  commit (photo ++ [WUpdate (conversation_path uid conversation_id) marks; WUpdate (document c request_id) u;
                    WDelete receipt]) s = Some s' -> s' !! receipt = None.
Proof.
  rewrite commit_app. destruct (commit photo s) as [s1|]; [|done]. simpl.
  repeat (case_match; [|done]). intros [= <-]. by rewrite lookup_delete_eq.
Qed.

Lemma attach_row c receipt photo marks u s s' d :
  _collection uid = Ok c -> orphan_ref uid permanent_id = Ok receipt -> s !! document c request_id = Some d ->
  Forall (fun w => write_path w = conversation_path uid conversation_id ++ ["photos"; request_id]) photo ->
  commit (photo ++ [WUpdate (conversation_path uid conversation_id) marks; WUpdate (document c request_id) u;
                    WDelete receipt]) s = Some s' ->
  s' !! document c request_id = Some (apply_ops false d u).
Proof.
  intros [-> _]%collection_Ok ->%orphan_Ok Hd Hphoto. rewrite commit_app. destruct (commit photo s) as [s1|] eqn:E; [|done].
  assert (H1 : s1 !! document [USERS_COLLECTION; strip uid; FRAME_REQUESTS_COLLECTION] request_id = Some d).
  { rewrite (commit_other _ _ _ _ E), Hd; [done|]. intros (w & Hw & Hin)%list_elem_of_fmap.
    rewrite Forall_forall in Hphoto. rewrite (Hphoto w Hin) in Hw. done. }
  simpl. destruct (s1 !! conversation_path uid conversation_id); [|done].
  rewrite lookup_insert_ne by done. rewrite H1. intros [= <-].
  by rewrite lookup_delete_ne, lookup_insert_eq by done.
Qed.

Lemma attach_spec s new s' :
  attach_frame_request_to_conversation uid request_id device_id generation conversation_id permanent_id now s = Ok (new, s') ->
  exists c receipt d r,
    _collection uid = Ok c /\ orphan_ref uid permanent_id = Ok receipt /\ s !! document c request_id = Some d /\
    _request_from_snapshot (document c request_id, d) = Ok r /\ owned_by r uid device_id generation = true /\
    fr_conversation_id r = Some conversation_id /\ s' !! receipt = None /\
    ((fr_state r = attached /\ fr_storage_id r = Some permanent_id /\ new = r /\ s' = delete receipt s) \/
     (may_attach c r s /\ candidate r (attachment r permanent_id now) = Ok new /\
      s' !! document c request_id = Some (apply_ops false d (values (_request_data new))) /\
      forall p, p <> document c request_id -> p <> receipt -> p <> conversation_path uid conversation_id ->
        p <> conversation_path uid conversation_id ++ ["photos"; request_id] -> s' !! p = s !! p)).
Proof.
  unfold attach_frame_request_to_conversation. case_match; [done|]. intros Hrun.
  apply (run_txn_runs _ (fun new ws => exists c receipt d r,
    _collection uid = Ok c /\ orphan_ref uid permanent_id = Ok receipt /\ s !! document c request_id = Some d /\
    _request_from_snapshot (document c request_id, d) = Ok r /\ owned_by r uid device_id generation = true /\
    fr_conversation_id r = Some conversation_id /\
    ((fr_state r = attached /\ fr_storage_id r = Some permanent_id /\ new = r /\ ws = [WDelete receipt]) \/
     (may_attach c r s /\ candidate r (attachment r permanent_id now) = Ok new /\ exists photo marks,
      ws = photo ++ [WUpdate (conversation_path uid conversation_id) marks;
            WUpdate (document c request_id) (values (_request_data new)); WDelete receipt] /\
      Forall (fun w => write_path w = conversation_path uid conversation_id ++ ["photos"; request_id]) photo)))) in Hrun.
  - destruct Hrun as (ws & (c & receipt & d & r & Hc & Hr & Hd & Hp & Ho & Hv & Hws) & Hcommit).
    exists c, receipt, d, r. split_and!; try done.
    + destruct Hws as [(_ & _ & _ & ->)|(_ & _ & photo & marks & -> & _)].
      * injection Hcommit as <-. by rewrite lookup_delete_eq.
      * by apply attach_commit in Hcommit.
    + destruct Hws as [(Hs & Hst & -> & ->)|(Hm & Hn & photo & marks & -> & Hphoto)].
      * left. by injection Hcommit as <-.
      * right. split_and!; [done|done| |].
        -- by eapply attach_row.
        -- intros p H1 H2 H3 H4. eapply commit_other; [done|]. rewrite fmap_app, elem_of_app. simpl.
           rewrite !elem_of_cons, elem_of_nil. intros [(w & -> & Hw)%list_elem_of_fmap|Hin]; [|naive_solver].
           rewrite Forall_forall in Hphoto. exact (H4 (Hphoto w Hw)).
  - unfold _attach, check_conversation_budget. repeat frame_step; found; simpl.
    + exists a, a0, a1, a2. split_and!; auto.
    + exists a, a0, a1, a2. split_and!; try done. right. split_and!; [by split_and!; [..|eexists]; eauto|done|].
      eexists [], _. split; [reflexivity|constructor].
    + exists a, a0, a1, a2. split_and!; try done. right. split_and!; [by split_and!; [..|eexists]; eauto|done|].
      eexists [_], _. split; [done|]. by repeat constructor.
Qed.
End Attach.

(** ** The other transactions on a row *)
Definition ensured (receipt : path) (found : option fields) (storage_id request_id : string) (now : Z) : list write :=
  match found with Some _ => [] | None => [WSet receipt (orphan_data storage_id request_id now)] end.

Lemma runs_ensure receipt found storage_id request_id now (Q : unit -> list write -> Prop) s ws :
  Q tt (ws ++ ensured receipt found storage_id request_id now) ->
  runs (ensure_orphan_receipt receipt found storage_id request_id now) Q s ws.
Proof. destruct found; simpl; [rewrite app_nil_r; apply runs_ret|apply runs_write]. Qed.

Lemma reconcile_spec uid request_id device_id generation storage_id now s found s' :
  reconcile_ambiguous_frame_upload uid request_id device_id generation storage_id now s = Ok (found, s') ->
  exists c receipt, _collection uid = Ok c /\ orphan_ref uid storage_id = Ok receipt /\
    (forall q, q <> receipt -> q <> document c request_id -> s' !! q = s !! q) /\
    ((exists d r, s !! document c request_id = Some d /\ _request_from_snapshot (document c request_id, d) = Ok r /\
        found = Some r /\ fr_storage_id r = Some storage_id /\ s' = s) \/
     (s' !! receipt = Some (default (orphan_data storage_id request_id now) (s !! receipt)) /\
      (s' !! document c request_id = s !! document c request_id \/
       exists d r new, s !! document c request_id = Some d /\ _request_from_snapshot (document c request_id, d) = Ok r /\
        is_terminal (fr_state r) = false /\ given (fr_storage_id r) = false /\
        candidate r ambiguous_failure = Ok new /\ found = Some new /\
        s' !! document c request_id = Some (apply_ops false d (values (_request_data new)))))).
Proof.
  intros Hrun. apply (run_txn_runs _ (fun found ws => exists c receipt ens,
    _collection uid = Ok c /\ orphan_ref uid storage_id = Ok receipt /\
    ens = ensured receipt (s !! receipt) storage_id request_id now /\
    ((exists d r, s !! document c request_id = Some d /\ _request_from_snapshot (document c request_id, d) = Ok r /\
        found = Some r /\ fr_storage_id r = Some storage_id /\ ws = []) \/
     ws = ens \/
     exists d r new, s !! document c request_id = Some d /\ _request_from_snapshot (document c request_id, d) = Ok r /\
        is_terminal (fr_state r) = false /\ given (fr_storage_id r) = false /\
        candidate r ambiguous_failure = Ok new /\ found = Some new /\
        ws = ens ++ [WUpdate (document c request_id) (values (_request_data new))]))) in Hrun.
  - destruct Hrun as (ws & (c & receipt & ens & Hc & Hr & -> & Hws) & Hcommit).
    exists c, receipt. pose proof (collection_Ok _ _ Hc) as [-> _]. pose proof (orphan_Ok _ _ _ Hr) as ->.
    split_and!; [done|done| |].
    + intros q H1 H2. eapply commit_other; [done|]. destruct Hws as [(? & ? & _ & _ & _ & _ & ->)|[->|(? & ? & ? & _ & _ & _ & _ & _ & _ & ->)]].
      all: unfold ensured; repeat case_match; simpl; set_solver.
    + unfold ensured in Hws. destruct Hws as [(d & r & H1 & H2 & H3 & H4 & ->)|[->|(d & r & new & H1 & H2 & H3 & H4 & H5 & H6 & ->)]].
      * left. injection Hcommit as <-. eauto 10.
      * right. destruct (s !! _) eqn:E; simpl in *; injection Hcommit as <-; rewrite ?E; [by auto|].
        rewrite lookup_insert_eq, lookup_insert_ne by done. auto.
      * right. destruct (s !! [USERS_COLLECTION; strip uid; FRAME_UPLOAD_ORPHANS_COLLECTION; _]) eqn:E; simpl in *.
        -- rewrite H1 in Hcommit. injection Hcommit as <-. rewrite lookup_insert_ne, E by done. split; [done|].
           right. exists d, r, new. rewrite lookup_insert_eq. done.
        -- rewrite lookup_insert_ne, H1 in Hcommit by done. injection Hcommit as <-.
           rewrite lookup_insert_ne, !lookup_insert_eq by done. split; [done|]. right. exists d, r, new. done.
  - unfold _reconcile. repeat first [apply runs_ensure | frame_step]; found; simpl; do 3 eexists; split_and!; try done.
    all: first [by right; left | left; do 2 eexists; by split_and! | right; right; do 3 eexists; by split_and!].
Qed.

Lemma prune_spec ref now s b s' :
  run_txn (_prune_one ref now) s = Ok (b, s') ->
  (s' = s) \/
  exists d r new, _request_from_snapshot (ref, d) = Ok r /\ fr_state r <> attached /\ is_expired r now = true /\
    candidate r (prune_update r now) = Ok new /\ rewrites ref d new s s'.
Proof.
  intros Hrun. apply (run_txn_runs _ (fun _ ws => ws = [] \/
    exists d r new, s !! ref = Some d /\ _request_from_snapshot (ref, d) = Ok r /\ fr_state r <> attached /\
      is_expired r now = true /\ candidate r (prune_update r now) = Ok new /\
      ws = [WUpdate ref (values (_request_data new))])) in Hrun.
  - destruct Hrun as (ws & [->|(d & r & new & Hd & Hr & Ha & He & Hn & ->)] & Hcommit).
    + left. by injection Hcommit.
    + right. apply commit_update in Hcommit as (d' & Hd' & ->). rewrite Hd in Hd'. injection Hd' as <-.
      exists d, r, new. by split_and!.
  - unfold _prune_one. repeat frame_step; found; simpl; auto.
    right. do 3 eexists. by split_and!.
Qed.

Lemma delete_one_spec ref now s b s' :
  run_txn (_delete_one ref now) s = Ok (b, s') ->
  s' = s \/
  exists d, s !! ref = Some d /\ v_in (doc_get d "state") terminal_unattached = true /\
    v_in (doc_get d "cleanup_state") ["not_required"; "deleted"] = true /\ s' = delete ref s.
Proof.
  intros Hrun. apply (run_txn_runs _ (fun _ ws => ws = [] \/
    exists d, s !! ref = Some d /\ v_in (doc_get d "state") terminal_unattached = true /\
      v_in (doc_get d "cleanup_state") ["not_required"; "deleted"] = true /\ ws = [WDelete ref])) in Hrun.
  - destruct Hrun as (ws & [->|(d & Hd & H1 & H2 & ->)] & Hcommit); injection Hcommit as <-; eauto 10.
  - unfold _delete_one. repeat frame_step; found; auto.
    apply andb_true_iff in Hif as [[H1 H2]%andb_true_iff _]. right. eexists. by split_and!.
Qed.

Lemma strip_one_spec ref now s b s' :
  run_txn (_strip_one ref now) s = Ok (b, s') ->
  s' = s \/ exists d, s !! ref = Some d /\
    s' = <[ref := apply_ops false d [("state", FValue (VStr "payload_expired")); ("description", FDelete);
                                     ("completed_at", FDelete); ("output_expires_at", FDelete)]]> s.
Proof.
  intros Hrun. apply (run_txn_runs _ (fun _ ws => ws = [] \/
    ws = [WUpdate ref [("state", FValue (VStr "payload_expired")); ("description", FDelete);
                       ("completed_at", FDelete); ("output_expires_at", FDelete)]])) in Hrun.
  - destruct Hrun as (ws & [->| ->] & Hcommit); [left; by injection Hcommit|].
    right. apply commit_update in Hcommit. done.
  - unfold _strip_one. repeat frame_step; found; auto.
Qed.

(** ** Creation *)
Lemma requests_of_nil l : requests_of l = Ok [] -> l = [].
Proof.
  unfold requests_of. destruct l as [|r0 l]; [done|]. simpl. intros Hq.
  destruct (_request_from_snapshot r0); [|done]. simpl in Hq. by destruct (mapM _ l).
Qed.

Definition live_attempt (now : Z) (r : FrameRequest) : bool := is_active (fr_state r) && negb (is_expired r now).

Lemma create_spec c uid device identity conversation screenshot generation created expires s r b s' :
  run_txn (_create c uid device identity conversation screenshot generation created expires) s = Ok ((r, b), s') ->
  exists attempts, requests_of (attempts_query c device identity generation s) = Ok attempts /\
    ((b = true /\ s' = s /\ List.find (live_attempt created) attempts = Some r) \/
     (b = false /\ List.find (live_attempt created) attempts = None /\
      (given conversation = true -> conversation_query c (default "" conversation) s = []) /\
      (exists id window attempt, new_request id uid device identity generation window attempt conversation screenshot
                                   created expires = Ok r) /\
      (exists active, requests_of (active_query c device generation s) = Ok active /\
         qd_allowed (check_device_quota active uid device created 0) = true) /\
      s !! document c (fr_request_id r) = None /\
      s' = <[document c (fr_request_id r) := list_to_map (_request_data r)]> s)).
Proof.
  intros Hrun. apply (run_txn_runs _ (fun rb ws =>
   exists attempts, requests_of (attempts_query c device identity generation s) = Ok attempts /\
    ((rb.2 = true /\ ws = [] /\ List.find (live_attempt created) attempts = Some rb.1) \/
     (rb.2 = false /\ List.find (live_attempt created) attempts = None /\
      (given conversation = true -> conversation_query c (default "" conversation) s = []) /\
      (exists id window attempt, new_request id uid device identity generation window attempt conversation screenshot
                                   created expires = Ok rb.1) /\
      (exists active, requests_of (active_query c device generation s) = Ok active /\
         qd_allowed (check_device_quota active uid device created 0) = true) /\
      s !! document c (fr_request_id rb.1) = None /\
      ws = [WSet (document c (fr_request_id rb.1)) (list_to_map (_request_data rb.1))])))) in Hrun.
  - destruct Hrun as (ws & (attempts & Ha & Hws) & Hcommit). exists attempts. split; [done|]. simpl in Hws.
    destruct Hws as [(-> & -> & Hf)|(-> & Hf & H1 & H2 & H3 & H4 & ->)]; injection Hcommit as <-; [left|right]; by split_and!.
  - unfold _create. repeat frame_step; try match goal with H : Raise _ = Ok _ |- _ => discriminate H end.
    + eexists. split; [eassumption|]. left. by split; [|split].
    + eexists. split; [eassumption|]. right. apply negb_false_iff in Hif0. subst.
      split; [done|]. split; [assumption|]. split; [intros _; by apply requests_of_nil|].
      split; [do 3 eexists; eassumption|]. split; [eexists; split; eassumption|]. by split.
    + eexists. split; [eassumption|]. right. apply negb_false_iff in Hif0.
      split; [done|]. split; [assumption|]. split; [congruence|].
      split; [do 3 eexists; eassumption|]. split; [eexists; split; eassumption|]. by split.
Qed.
