(* ===== verification/FrameCalls.v ===== *)
(** * The life of a frame request

    A call of the Firestore adapter is a step of the store: a transaction, or one row of
    a page worker (the row as the page read it, and whether the storage erased its
    object).  [lifecycle] is what a call may do to one row: create it, move it along the
    policy, record a clean-up of its pixels, or delete it. *)

From S2P Require Import Prelude PyValue Firestore Sha256 MemoryText MemoryOperations MemoryRecords FrameRequests FrameStore FrameRows FrameProofs.
From Stdlib Require Import QArith_base Ascii.
Local Open Scope Z_scope.

(** ** Calls *)
Inductive frame_call :=
| Enqueue (uid device_id dedupe_key : string) (conversation_id screenshot_id : option string) (generation : Z)
    (requested_ttl device_retention : option Z) (now : Z)
| Transition (uid request_id : string) (next : FrameRequestState) (device_id : string) (generation : Z)
    (reason storage_id : option string) (byte_count : Z) (content_type : option string) (now : Z)
| Attach (uid request_id device_id : string) (generation : Z) (conversation_id permanent_id : string) (now : Z)
| Reconcile (uid request_id device_id : string) (generation : Z) (storage_id : string) (now : Z)
| PruneRow (uid request_id : string) (now : Z)
| CleanPixels (uid request_id : string) (page_row : fields) (erased : bool) (now : Z)
| DeleteMetadata (uid request_id : string) (now : Z)
| DeleteRow (uid request_id : string)
| ReservePromotion (uid request_id permanent_id : string) (now : Z)
| ReserveCleanup (uid request_id storage_id : string) (now : Z)
| AcknowledgeCleanup (uid storage_id : string)
| CleanOrphan (uid name : string) (page_row : fields) (erased : bool) (now : Z)
| ReserveVision (uid authority_key request_id : string) (generation now : Z)
| CompleteVision (uid authority_key request_id : string) (generation : Z) (description : string) (now : Z)
| StripVision (uid name : string) (now : Z)
| PersistDeletion (uid conversation_id : string) (storage_ids : list string) (now : Z)
| AcknowledgeDeletion (uid conversation_id storage_id : string)
| CleanDeletion (uid name : string) (page_row : fields) (erased : bool) (now : Z).

(** The store after a call: a transaction that raises leaves it as it was. *)
Definition after {A} (m : res (A * db)) (s : db) : db := match m with Ok (_, s') => s' | Raise _ => s end.
Definition in_rows (m : res path) (f : path -> db) (s : db) : db := match m with Ok c => f c | Raise _ => s end.

Section Exec.
Context `{PhotoEnv}.

Definition exec (c : frame_call) (s : db) : db :=
  match c with
  | Enqueue uid device key conversation screenshot generation ttl retention now =>
      after (enqueue_frame_request uid device key conversation screenshot generation ttl retention now s) s
  | Transition uid id next device generation reason storage bytes content now =>
      after (transition_frame_request uid id next device generation reason storage bytes content now s) s
  | Attach uid id device generation conversation object now =>
      after (attach_frame_request_to_conversation uid id device generation conversation object now s) s
  | Reconcile uid id device generation storage now =>
      after (reconcile_ambiguous_frame_upload uid id device generation storage now s) s
  | PruneRow uid id now =>
      in_rows (_collection uid) (fun c => after (run_txn (_prune_one (document c id) now) s) s) s
  | CleanPixels uid id d erased now =>
      in_rows (_collection uid) (fun c => (treat_pixels (fun _ => erased) now (document c id, d) s).2) s
  | DeleteMetadata uid id now =>
      in_rows (_collection uid) (fun c => after (run_txn (_delete_one (document c id) now) s) s) s
  | DeleteRow uid id => in_rows (_collection uid) (fun c => delete_rows [(document c id, ∅)] s) s
  | ReservePromotion uid id object now => after (reserve_frame_promotion_copy uid id object now s) s
  | ReserveCleanup uid id storage now => after (reserve_frame_storage_cleanup uid id storage now s) s
  | AcknowledgeCleanup uid storage => after (acknowledge_frame_storage_cleanup uid storage s) s
  | CleanOrphan uid name d erased now =>
      in_rows (_orphan_collection uid) (fun c => (treat_orphan (fun _ => erased) now (document c name, d) s).2) s
  | ReserveVision uid key id generation now => after (reserve_frame_vision_invocation uid key id generation now s) s
  | CompleteVision uid key id generation text now =>
      (complete_frame_vision_invocation uid key id generation text now s s).2
  | StripVision uid name now =>
      after (run_txn (_strip_one [USERS_COLLECTION; uid; FRAME_VISION_RECEIPTS_COLLECTION; name] now) s) s
  | PersistDeletion uid conversation ids now =>
      (persist_conversation_frame_deletion_outbox uid conversation ids now s).2
  | AcknowledgeDeletion uid conversation id => after (acknowledge_conversation_frame_deletion uid conversation id s) s
  | CleanDeletion uid name d erased now =>
      in_rows (_deletion_outbox_collection uid)
        (fun c => (treat_deletion_receipt (fun _ => erased) now (document c name, d) s).2) s
  end.

Definition run (cs : list frame_call) (s : db) : db := foldl (fun s c => exec c s) s cs.
End Exec.

(** ** Rows of the store *)
Definition row_at (s : db) (p : path) : option FrameRequest :=
  match s !! p with
  | Some d => match _request_from_snapshot (p, d) with Ok r => Some r | Raise _ => None end
  | None => None
  end.

(** ** The lifecycle of a row *)
Record same_request (r r' : FrameRequest) : Prop := {
  same_id : fr_request_id r' = fr_request_id r;
  same_uid : fr_uid r' = fr_uid r;
  same_device : fr_device_id r' = fr_device_id r;
  same_generation : fr_account_generation r' = fr_account_generation r;
  same_dedupe : fr_dedupe_key r' = fr_dedupe_key r;
  same_attempt : fr_attempt_number r' = fr_attempt_number r;
  same_conversation : fr_conversation_id r' = fr_conversation_id r;
  same_screenshot : fr_screenshot_id r' = fr_screenshot_id r;
  same_created : fr_created_at r' = fr_created_at r
}.

(** The pixels a row names are accounted for by its clean-up state. *)
Definition tidy (r : FrameRequest) : Prop :=
  match fr_state r with
  | requested | claimed =>
      fr_terminal_reason r = None /\ fr_content_type r = None /\ fr_storage_id r = None /\ fr_cleanup_state r = not_required
  | uploaded => fr_terminal_reason r = None /\ fr_cleanup_state r = pending
  | attached => fr_cleanup_state r = permanent
  | _ => match fr_cleanup_state r with
         | not_required => fr_storage_id r = None
         | permanent => False
         | _ => True
         end
  end.

Inductive lifecycle : option FrameRequest -> option FrameRequest -> Prop :=
| life_same o : lifecycle o o
| life_created r : fr_state r = requested -> lifecycle None (Some r)
| life_moved r r' :
    same_request r r' -> fr_state r' ∈ allowed_transitions (fr_state r) -> fr_cleanup_state r' <> deleted ->
    lifecycle (Some r) (Some r')
| life_cleaned r r' :
    same_request r r' -> fr_state r' = fr_state r -> is_terminal (fr_state r) = true -> fr_state r <> attached ->
    fr_storage_id r' = fr_storage_id r -> fr_cleanup_state r' ∈ [deleted; cleanup_failed] ->
    lifecycle (Some r) (Some r')
| life_deleted r : lifecycle (Some r) None.

(** ** The stored rows of frame requests

    [stored p d r]: the document [d] at the path [p] is the row [r] as the adapter
    writes it.  Every call keeps every row stored and moves it along its [lifecycle]. *)

(** ** A validated update of a row *)
Lemma parse_strict_Ok {A} (m : res A) a : parse_snapshot_strict m = Ok a <-> m = Ok a.
Proof. destruct m as [x|[]]; simpl; split; congruence. Qed.

Lemma dict_lookup_notin k (d : dict) : k ∉ d.*1 -> dict_lookup k d = None.
Proof.
  induction d as [|[k' v] d IH]; [done|]. simpl. rewrite not_elem_of_cons. intros [Hk Hd].
  rewrite decide_False by done. by apply IH.
Qed.

Definition update_doc (r : FrameRequest) (u : dict) : fields := list_to_map (dict_update (_request_data r) u).

Lemma candidate_reads r u new : candidate r u = Ok new -> reads_as (update_doc r u) new.
Proof. unfold candidate, _request_from_payload. by intros H%parse_strict_Ok%frame_request_iff. Qed.

Lemma update_kept r u k :
  k ∉ u.*1 -> update_doc r u !! k = (list_to_map (_request_data r) : fields) !! k.
Proof.
  intros Hk. unfold update_doc. rewrite !list_to_map_get, dict_lookup_update.
  rewrite (dict_lookup_notin k (rev u)); [done|]. rewrite rev_alt.
  change (rev_append u []) with (reverse u). by rewrite fmap_reverse, elem_of_reverse.
Qed.

Lemma update_wrote r u k v : dict_lookup k (rev u) = Some v -> update_doc r u !! k = Some v.
Proof. intros Hk. unfold update_doc. by rewrite list_to_map_get, dict_lookup_update, Hk. Qed.

Section Update.
Context (src0 : fields) (r new : FrameRequest) (u : dict).
Context (Hr : reads_as src0 r) (Hu : candidate r u = Ok new).

Definition keeps {A} (k : string) (f : FrameRequest -> A) : Prop := k ∉ u.*1 -> f new = f r.

Lemma update_keeps :
  keeps "request_id" fr_request_id /\ keeps "uid" fr_uid /\ keeps "device_id" fr_device_id /\
  keeps "account_generation" fr_account_generation /\ keeps "dedupe_key" fr_dedupe_key /\
  keeps "attempt_number" fr_attempt_number /\ keeps "conversation_id" fr_conversation_id /\
  keeps "screenshot_id" fr_screenshot_id /\ keeps "created_at" fr_created_at /\
  keeps "claimed_at" fr_claimed_at /\ keeps "uploaded_at" fr_uploaded_at /\ keeps "attached_at" fr_attached_at /\
  keeps "terminal_reason" fr_terminal_reason /\ keeps "content_type" fr_content_type /\
  keeps "storage_id" fr_storage_id /\ keeps "cleanup_state" fr_cleanup_state /\ keeps "byte_count" fr_byte_count.
Proof.
  pose proof (written_reads _ _ Hr) as []. pose proof (candidate_reads _ _ _ Hu) as [].
  unfold keeps, text_of, optional_of, time_of, maybe_time_of, required, defaulted in *.
  split_and!; intros Hk; apply (update_kept r) in Hk; rewrite Hk in *; congruence.
Qed.

Lemma update_same :
  Forall (.∉ u.*1) ["request_id"; "uid"; "device_id"; "account_generation"; "dedupe_key"; "attempt_number";
                    "conversation_id"; "screenshot_id"; "created_at"] -> same_request r new.
Proof.
  intros Hall. repeat (apply Forall_cons in Hall as [? Hall]). pose proof update_keeps as Hk. unfold keeps in Hk.
  constructor; naive_solver.
Qed.

Lemma update_state x : dict_lookup "state" (rev u) = Some (VStr (state_value x)) -> fr_state new = x.
Proof.
  intros Hx%(update_wrote r). pose proof (candidate_reads _ _ _ Hu) as []. unfold defaulted in *. rewrite Hx in *.
  assert (rd_enum state_value frame_states (VStr (state_value x)) = Ok x) as Hrd by by destruct x. congruence.
Qed.

Lemma update_cleanup x :
  dict_lookup "cleanup_state" (rev u) = Some (VStr (cleanup_value x)) -> fr_cleanup_state new = x.
Proof.
  intros Hx%(update_wrote r). pose proof (candidate_reads _ _ _ Hu) as []. unfold defaulted in *. rewrite Hx in *.
  assert (rd_enum cleanup_value cleanup_states (VStr (cleanup_value x)) = Ok x) as Hrd by by destruct x. congruence.
Qed.

(** A text that is written is stripped; one that is not given is none. *)
Lemma update_text k max o o' :
  optional_of max (update_doc r u) k o' -> dict_lookup k (rev u) = Some (opt_str o) -> o' = None -> given o = true ->
  strip (default "" o) = "".
Proof.
  unfold optional_of, defaulted. intros Ho Hk%(update_wrote r) -> Hg. rewrite Hk in Ho.
  destruct o as [t|]; [|done]. simpl in *.
  destruct (bool_decide (strip t = "")) eqn:E; [by apply bool_decide_eq_true in E|].
  destruct (max <? py_len (strip t)); discriminate Ho.
Qed.

Lemma update_text_none k max o' :
  optional_of max (update_doc r u) k o' -> dict_lookup k (rev u) = Some VNone -> o' = None.
Proof. unfold optional_of, defaulted. intros Ho Hk%(update_wrote r). rewrite Hk in Ho. by injection Ho. Qed.

Lemma update_time k t o :
  maybe_time_of (update_doc r u) k o -> dict_lookup k (rev u) = Some (instant t) -> o = Some t.
Proof. unfold maybe_time_of, defaulted. intros Ho Hk%(update_wrote r). rewrite Hk in Ho. by injection Ho. Qed.
End Update.

(** ** Stored rows *)
Record stored (p : path) (d : fields) (r : FrameRequest) : Prop := {
  stored_path : p = [USERS_COLLECTION; fr_uid r; FRAME_REQUESTS_COLLECTION; fr_request_id r];
  stored_reads : reads_as d r;
  stored_raw : forall k, k ∈ frame_names -> k <> "cleanup_next_attempt_at" -> d !! k = written_field r k None;
  stored_tidy : tidy r
}.

Definition rows_ok (s : db) : Prop := forall p d, frame_row p -> s !! p = Some d -> exists r, stored p d r.

Lemma stored_snapshot p d r : stored p d r -> _request_from_snapshot (p, d) = Ok r.
Proof.
  intros [Hp Hreads Hraw _]. unfold _request_from_snapshot. apply parse_strict_Ok, reads_frame_request. simpl.
  unfold with_default_id. rewrite (Hraw "request_id") by (done || by apply (bool_decide_eq_true_1 _)). done.
Qed.

Lemma stored_row s p d r : s !! p = Some d -> stored p d r -> row_at s p = Some r.
Proof. intros Hp Hs. unfold row_at. by rewrite Hp, (stored_snapshot _ _ _ Hs). Qed.

Lemma with_next_same r o : same_request r (with_next r o).
Proof. by constructor. Qed.

Definition stored_names : list string :=
  ["request_id"; "uid"; "device_id"; "account_generation"; "dedupe_key"; "dedupe_window"; "attempt_number";
   "conversation_id"; "screenshot_id"; "state"; "created_at"; "expires_at"; "claimed_at"; "uploaded_at"; "attached_at";
   "terminal_reason"; "byte_count"; "content_type"; "storage_id"; "cleanup_state"; "cleanup_attempts"].

Lemma not_next k : k ∈ frame_names -> k <> "cleanup_next_attempt_at" -> k ∈ stored_names.
Proof.
  change frame_names with (stored_names ++ ["cleanup_next_attempt_at"]).
  rewrite elem_of_app, list_elem_of_singleton. naive_solver.
Qed.

Definition merge (new old : value) : option value :=
  match new with VNone => match old with VNone => None | _ => Some old end | _ => Some new end.

Lemma merge_text (new old : option string) :
  (new = None -> old = None) ->
  merge (opt_str new) (opt_str old) = match opt_str new with VNone => None | _ => Some (opt_str new) end.
Proof. destruct new as [a|]; [done|]. by intros ->. Qed.

Lemma merge_time (new old : option Z) :
  (new = None -> old = None) ->
  merge (opt_time new) (opt_time old) = match opt_time new with VNone => None | _ => Some (opt_time new) end.
Proof. destruct new as [a|]; [done|]. by intros ->. Qed.

Lemma written_covers new old k :
  covers new old -> k ∈ frame_names -> k <> "cleanup_next_attempt_at" ->
  written_field new k (written_field old k None) = written_field new k None.
Proof.
  intros (C1 & C2 & C3 & C4 & C5 & C6 & C7 & C8) Hk Hne. pose proof (not_next _ Hk Hne) as Hin. clear Hk Hne.
  revert k Hin. apply Forall_forall. repeat (apply Forall_cons; split); [..|by apply Forall_nil].
  all: first [reflexivity | apply merge_text; assumption | apply merge_time; assumption].
Qed.

Lemma written_next r o k :
  k ∈ frame_names -> k <> "cleanup_next_attempt_at" -> written_field (with_next r o) k None = written_field r k None.
Proof.
  intros Hk Hne. pose proof (not_next _ Hk Hne) as Hin. clear Hk Hne. revert k Hin. apply Forall_forall.
  repeat (apply Forall_cons; split); [..|by apply Forall_nil]. all: reflexivity.
Qed.

Lemma stored_update p d old u new :
  stored p d old -> candidate old u = Ok new -> covers new old -> tidy new -> same_request old new ->
  stored p (apply_ops false d (values (_request_data new))) (with_next new (next_after new old)).
Proof.
  intros [Hp Hreads Hraw Ht] Hu Hc Htidy Hs. constructor.
  - destruct Hs. simpl. congruence.
  - eapply updated_reads; [done|by eapply candidate_reads|done].
  - intros k Hk Hne. rewrite updated_field, (Hraw k Hk Hne), (written_covers _ _ _ Hc Hk Hne) by done.
    by rewrite written_next.
  - done.
Qed.

(** ** What the updates of the adapter do to a stored row *)
Lemma lifecycle_uploaded r : _validate_lifecycle r = Ok r -> fr_state r = uploaded -> given (fr_storage_id r) = true.
Proof.
  unfold _validate_lifecycle. intros H Hs. rewrite Hs in H. destruct (given (fr_storage_id r)); [done|]. cbn in H.
  destruct (fr_expires_at r <? fr_created_at r); discriminate H.
Qed.

Lemma uploaded_storage p d r : stored p d r -> fr_state r = uploaded -> given (fr_storage_id r) = true.
Proof. intros [_ [] _ _]. by apply lifecycle_uploaded. Qed.

Lemma tidy_early r :
  tidy r -> fr_state r = requested \/ fr_state r = claimed ->
  fr_terminal_reason r = None /\ fr_content_type r = None /\ fr_storage_id r = None /\ fr_cleanup_state r = not_required.
Proof. unfold tidy. by intros H [Hs|Hs]; rewrite Hs in H. Qed.

(** [fits r new next]: [new] is [r] moved to the state [next]. *)
Definition fits (r new : FrameRequest) (next : FrameRequestState) : Prop :=
  covers new r /\ tidy new /\ same_request r new /\ fr_state new = next /\ fr_cleanup_state new <> deleted.

Ltac absent := apply (bool_decide_eq_true_1 _); vm_compute; reflexivity.
Ltac absent_all := repeat (apply Forall_cons; split); [absent..|by apply Forall_nil].

(** An update that writes a state and a reason, and nothing but what is listed. *)
Section Fits.
Context (p : path) (d : fields) (r new : FrameRequest).
Context (Hst : stored p d r).

Lemma reads_row : reads_as d r.
Proof. by destruct Hst. Qed.

(** [keeping Hu Hkeys]: the fields that an update with these keys leaves alone. *)
Ltac keeping Hu Hkeys :=
  let K := fresh "K" in
  pose proof (update_keeps _ _ _ _ reads_row Hu) as K; unfold keeps in K; rewrite Hkeys in K;
  repeat lazymatch type of K with _ /\ _ => let E := fresh "E" in destruct K as [E K] end;
  repeat match goal with E : _ ∉ _ -> _ |- _ => first [specialize (E ltac:(absent)) | clear E] end.

Ltac same Hu Hkeys := eapply update_same; [apply reads_row|exact Hu|rewrite Hkeys; absent_all].

Definition ended : list FrameRequestState := [offline; pruned; failed; expired; cancelled].

Lemma tidy_ended x : fr_state x ∈ ended ->
  (fr_cleanup_state x = not_required /\ fr_storage_id x = None \/ fr_cleanup_state x = pending) -> tidy x.
Proof.
  unfold tidy, ended. rewrite !elem_of_cons, elem_of_nil.
  intros [->|[->|[->|[->|[->|[]]]]]] [[-> H]| ->]; done.
Qed.

(** To the end, nothing uploaded yet. *)
Lemma fits_early_end u next :
  candidate r u = Ok new -> fr_state r = requested \/ fr_state r = claimed -> next ∈ ended ->
  u.*1 = ["state"; "terminal_reason"] -> dict_lookup "state" (rev u) = Some (VStr (state_value next)) ->
  fits r new next.
Proof.
  intros Hu Hs Hnext Hkeys Hstate. destruct (tidy_early _ (stored_tidy _ _ _ Hst) Hs) as (T1 & T2 & T3 & T4).
  pose proof (update_state _ _ _ Hu _ Hstate) as Hn. keeping Hu Hkeys.
  split; [split_and!; congruence|]. split; [|split; [by same Hu Hkeys|split; [done|congruence]]].
  apply tidy_ended; [by rewrite Hn|]. left. split; congruence.
Qed.

(** To the end, with the clean-up state that accounts for the pixels. *)
Lemma fits_end u next cleanup :
  candidate r u = Ok new -> is_terminal (fr_state r) = false -> next ∈ ended ->
  u.*1 = ["state"; "terminal_reason"; "cleanup_state"; "cleanup_next_attempt_at"] ->
  dict_lookup "state" (rev u) = Some (VStr (state_value next)) ->
  dict_lookup "cleanup_state" (rev u) = Some (VStr (cleanup_value cleanup)) ->
  (cleanup = not_required /\ fr_storage_id r = None \/ cleanup = pending) ->
  fits r new next.
Proof.
  intros Hu Hs Hnext Hkeys Hstate Hclean Hc.
  assert (T1 : fr_terminal_reason r = None).
  { pose proof (stored_tidy _ _ _ Hst) as Ht. unfold tidy in Ht. destruct (fr_state r); try done; tauto. }
  pose proof (update_state _ _ _ Hu _ Hstate) as Hn. pose proof (update_cleanup _ _ _ Hu _ Hclean) as Hcl.
  keeping Hu Hkeys.
  split; [split_and!; congruence|]. split; [|split; [by same Hu Hkeys|split; [done|rewrite Hcl; clear -Hc; by destruct Hc as [[-> _]| ->]]]].
  apply tidy_ended; [by rewrite Hn|]. destruct Hc as [[Hc Hc']|Hc]; [left; split|right]; congruence.
Qed.

Lemma fits_claimed u t :
  candidate r u = Ok new -> fr_state r = requested -> u.*1 = ["state"; "terminal_reason"; "claimed_at"] ->
  dict_lookup "state" (rev u) = Some (VStr (state_value claimed)) -> dict_lookup "claimed_at" (rev u) = Some (instant t) ->
  fr_terminal_reason new = None -> fits r new claimed.
Proof.
  intros Hu Hs Hkeys Hstate Htime Hr. destruct (tidy_early _ (stored_tidy _ _ _ Hst) (or_introl Hs)) as (T1 & T2 & T3 & T4).
  pose proof (update_state _ _ _ Hu _ Hstate) as Hn.
  pose proof (update_time _ _ _ _ _ (ra_claimed _ _ (candidate_reads _ _ _ Hu)) Htime) as Hc. keeping Hu Hkeys.
  split; [split_and!; congruence|]. split; [|split; [by same Hu Hkeys|split; [done|congruence]]].
  unfold tidy. rewrite Hn. split_and!; congruence.
Qed.

Lemma fits_uploaded u t :
  candidate r u = Ok new -> fr_state r = claimed ->
  u.*1 = ["state"; "terminal_reason"; "uploaded_at"; "storage_id"; "byte_count"; "content_type"; "cleanup_state";
          "cleanup_next_attempt_at"] ->
  dict_lookup "state" (rev u) = Some (VStr (state_value uploaded)) -> dict_lookup "uploaded_at" (rev u) = Some (instant t) ->
  dict_lookup "cleanup_state" (rev u) = Some (VStr (cleanup_value pending)) ->
  fr_terminal_reason new = None -> fits r new uploaded.
Proof.
  intros Hu Hs Hkeys Hstate Htime Hclean Hr.
  destruct (tidy_early _ (stored_tidy _ _ _ Hst) (or_intror Hs)) as (T1 & T2 & T3 & T4).
  pose proof (update_state _ _ _ Hu _ Hstate) as Hn. pose proof (update_cleanup _ _ _ Hu _ Hclean) as Hcl.
  pose proof (update_time _ _ _ _ _ (ra_uploaded _ _ (candidate_reads _ _ _ Hu)) Htime) as Hc. keeping Hu Hkeys.
  split; [split_and!; congruence|]. split; [|split; [by same Hu Hkeys|split; [done|congruence]]].
  unfold tidy. rewrite Hn. split_and!; congruence.
Qed.

Lemma fits_attached u t :
  candidate r u = Ok new -> fr_state r = uploaded ->
  Forall (.∈ ["state"; "terminal_reason"; "attached_at"; "expires_at"; "cleanup_state"; "cleanup_next_attempt_at";
              "storage_id"]) u.*1 ->
  dict_lookup "state" (rev u) = Some (VStr (state_value attached)) -> dict_lookup "attached_at" (rev u) = Some (instant t) ->
  dict_lookup "cleanup_state" (rev u) = Some (VStr (cleanup_value permanent)) ->
  (fr_storage_id new = None -> fr_storage_id r = None) -> fits r new attached.
Proof.
  intros Hu Hs Hkeys Hstate Htime Hclean Hx. rewrite Forall_forall in Hkeys.
  assert (T1 : fr_terminal_reason r = None).
  { pose proof (stored_tidy _ _ _ Hst) as Ht. unfold tidy in Ht. rewrite Hs in Ht. tauto. }
  pose proof (update_state _ _ _ Hu _ Hstate) as Hn. pose proof (update_cleanup _ _ _ Hu _ Hclean) as Hcl.
  pose proof (update_time _ _ _ _ _ (ra_attached _ _ (candidate_reads _ _ _ Hu)) Htime) as Hc.
  pose proof (update_keeps _ _ _ _ reads_row Hu) as K. unfold keeps in K.
  assert (Hno : forall k, bool_decide (k ∈ ["state"; "terminal_reason"; "attached_at"; "expires_at"; "cleanup_state";
      "cleanup_next_attempt_at"; "storage_id"]) = false -> k ∉ u.*1).
  { intros k Hk Hin. apply bool_decide_eq_false in Hk. by apply Hk, Hkeys. }
  destruct K as (K1 & K2 & K3 & K4 & K5 & K6 & K7 & K8 & K9 & K10 & K11 & _ & _ & K12 & _ & _ & _).
  assert (E1 := K7 (Hno "conversation_id" eq_refl)). assert (E2 := K8 (Hno "screenshot_id" eq_refl)). assert (E3 := K10 (Hno "claimed_at" eq_refl)).
  assert (E4 := K11 (Hno "uploaded_at" eq_refl)). assert (E5 := K12 (Hno "content_type" eq_refl)).
  split; [split_and!; first [exact Hx | congruence]|]. split; [|split; [|split; [done|congruence]]].
  - unfold tidy. by rewrite Hn.
  - eapply update_same; [apply reads_row|exact Hu|]. repeat (apply Forall_cons; split); [..|by apply Forall_nil].
    all: by apply Hno.
Qed.
End Fits.

(** ** The updates of the adapter *)
Lemma not_terminal_states x : is_terminal x = false -> x = requested \/ x = claimed \/ x = uploaded.
Proof. destruct x; vm_compute; auto; done. Qed.

Lemma ended_terminal x : x ∈ ended -> is_terminal x = true.
Proof. unfold ended. rewrite !elem_of_cons, elem_of_nil. by intros [->|[->|[->|[->|[->|[]]]]]]. Qed.

Lemma allowed_ended x next :
  next ∈ allowed_transitions x -> next <> claimed -> next <> uploaded -> next <> attached -> next ∈ ended.
Proof. destruct x, next; cbn; rewrite ?elem_of_cons, ?elem_of_nil; intros H ? ? ?;
  first [unfold ended; absent | exfalso; intuition congruence].
Qed.

Lemma validate_Ok r next uid device generation now :
  validate_transition r next uid device generation now = Ok tt ->
  fr_uid r = uid /\ fr_device_id r = device /\ fr_account_generation r = generation /\
  is_terminal (fr_state r) = false /\ is_expired r now = false /\ next ∈ allowed_transitions (fr_state r).
Proof.
  unfold validate_transition, owned_by. intros H. repeat (case_match; [discriminate H|]).
  repeat match goal with
  | E : negb _ = false |- _ => apply negb_false_iff in E
  | E : _ && _ = true |- _ => apply andb_true_iff in E as [? ?]
  | E : bool_decide _ = true |- _ => apply bool_decide_eq_true in E
  | E : bool_decide _ = false |- _ => apply bool_decide_eq_false in E
  | E : (_ =? _) = true |- _ => apply Z.eqb_eq in E
  end.
  split_and!; try done. by apply dec_stable.
Qed.

Lemma blank_reads_none r u k max o o' :
  optional_of max (update_doc r u) k o' -> dict_lookup k (rev u) = Some (opt_str o) -> given o = false -> o' = None.
Proof.
  unfold optional_of, defaulted. intros Ho Hk%(update_wrote r) Hg. rewrite Hk in Ho. destruct o as [t|]; simpl in *.
  - apply negb_false_iff, bool_decide_eq_true in Hg as ->. by injection Ho.
  - by injection Ho.
Qed.

(** [uploaded_at] and [storage_id] come before the clean-up in the update of an upload. *)
Lemma transition_fits p d r new next uid device generation reason storage bytes content now :
  stored p d r -> validate_transition r next uid device generation now = Ok tt ->
  check_transition_arguments r next reason storage bytes content = Ok tt ->
  candidate r (transition_update r next reason storage bytes content now) = Ok new -> fits r new next.
Proof.
  intros Hst Hv Ha Hu. apply validate_Ok in Hv as (_ & _ & _ & Ht & _ & Hnext).
  assert (Hreason : is_terminal next = false -> fr_terminal_reason new = None).
  { intros Hn. eapply blank_reads_none; [apply (ra_reason _ _ (candidate_reads _ _ _ Hu))| |].
    - unfold transition_update. rewrite Hn, andb_false_r. destruct next; try discriminate Hn; reflexivity.
    - unfold check_transition_arguments in Ha. rewrite Hn in Ha. destruct (given reason); [|done].
      exfalso. repeat case_match; simpl in *; congruence. }
  assert (Hearly : fr_state r = requested \/ fr_state r = claimed -> fr_storage_id r = None).
  { intros Hs. by destruct (tidy_early _ (stored_tidy _ _ _ Hst) Hs) as (_ & _ & ? & _). }
  destruct (decide (next = claimed)) as [->|N1]; [|destruct (decide (next = uploaded)) as [->|N2];
    [|destruct (decide (next = attached)) as [->|N3]]].
  - assert (Hs : fr_state r = requested) by (destruct (fr_state r); cbn in Hnext; try done; set_solver).
    unfold transition_update in Hu. rewrite (Hearly (or_introl Hs)) in Hu.
    eapply fits_claimed; [done|exact Hu|done|reflexivity|reflexivity|reflexivity|by apply Hreason].
  - assert (Hs : fr_state r = claimed) by (destruct (fr_state r); cbn in Hnext; try done; set_solver).
    unfold transition_update in Hu. rewrite (Hearly (or_intror Hs)) in Hu.
    eapply fits_uploaded; [done|exact Hu|done|reflexivity|reflexivity|reflexivity|reflexivity|by apply Hreason].
  - assert (Hs : fr_state r = uploaded) by (destruct (fr_state r); cbn in Hnext; try done; set_solver).
    eapply fits_attached; [done|exact Hu|done|absent_all|done|done|done|].
    pose proof (update_keeps _ _ _ _ (stored_reads _ _ _ Hst) Hu) as K. unfold keeps in K.
    destruct K as (_ & _ & _ & _ & _ & _ & _ & _ & _ & _ & _ & _ & _ & _ & K & _). rewrite K; [done|absent].
  - pose proof (allowed_ended _ _ Hnext N1 N2 N3) as He.
    destruct (not_terminal_states _ Ht) as [Hs|[Hs|Hs]].
    + unfold transition_update in Hu. rewrite (Hearly (or_introl Hs)) in Hu.
      eapply fits_early_end; [done|exact Hu|auto|done|..]; pose proof (ended_terminal _ He);
        destruct next; try done.
    + unfold transition_update in Hu. rewrite (Hearly (or_intror Hs)) in Hu.
      eapply fits_early_end; [done|exact Hu|auto|done|..]; pose proof (ended_terminal _ He);
        destruct next; try done.
    + unfold transition_update in Hu. rewrite (uploaded_storage _ _ _ Hst Hs) in Hu.
      assert (Hte : is_terminal next = true) by by apply ended_terminal. rewrite Hte in Hu.
      apply (fits_end p d r new Hst _ next pending Hu Ht He); [..|by right].
      all: destruct next; try discriminate Hte; try (by destruct N3); reflexivity.
Qed.

Lemma attachment_fits p d r new storage now :
  stored p d r -> fr_state r = uploaded -> strip storage <> "" -> candidate r (attachment r storage now) = Ok new ->
  fits r new attached.
Proof.
  intros Hst Hs Hstorage Hu. eapply fits_attached; [done|exact Hu|done|absent_all|done|done|done|].
  intros Hnone. exfalso. apply Hstorage.
  refine (update_text _ _ _ _ (Some storage) _ (ra_storage _ _ (candidate_reads _ _ _ Hu)) _ Hnone _); [done|].
  simpl. apply negb_true_iff, bool_decide_eq_false. by intros ->.
Qed.

Lemma ambiguous_fits p d r new :
  stored p d r -> is_terminal (fr_state r) = false -> given (fr_storage_id r) = false ->
  candidate r ambiguous_failure = Ok new -> fits r new failed.
Proof.
  intros Hst Ht Hg Hu. assert (Hs : fr_state r = requested \/ fr_state r = claimed).
  { destruct (not_terminal_states _ Ht) as [H|[H|H]]; auto. pose proof (uploaded_storage _ _ _ Hst H). congruence. }
  eapply fits_early_end; [done|exact Hu|done|unfold ended; absent|done|done].
Qed.

Lemma prune_fits p d r new now :
  stored p d r -> is_expired r now = true -> candidate r (prune_update r now) = Ok new -> fits r new pruned.
Proof.
  intros Hst He Hu. assert (Ht : is_terminal (fr_state r) = false).
  { unfold is_expired in He. destruct (given _ && _); [done|]. apply andb_true_iff in He as [_ He].
    by apply negb_true_iff. }
  unfold prune_update in Hu. destruct (given (fr_storage_id r)) eqn:Hg.
  - apply (fits_end p d r new Hst _ pruned pending Hu Ht); [unfold ended; absent|done|done|done|by right].
  - apply (fits_end p d r new Hst _ pruned not_required Hu Ht); [unfold ended; absent|done|done|done|left].
    split; [done|]. destruct (not_terminal_states _ Ht) as [H|[H|H]].
    + by destruct (tidy_early _ (stored_tidy _ _ _ Hst) (or_introl H)) as (_ & _ & ? & _).
    + by destruct (tidy_early _ (stored_tidy _ _ _ Hst) (or_intror H)) as (_ & _ & ? & _).
    + pose proof (uploaded_storage _ _ _ Hst H). congruence.
Qed.

(** ** The clean-up of the pixels of a row *)
Lemma stored_cleanup p d r st n o :
  stored p d r -> 0 <= n <= 1000 -> is_terminal (fr_state r) = true -> fr_state r <> attached ->
  st ∈ [deleted; cleanup_failed] ->
  stored p (apply_ops false d (values (cleanup_writes st n o))) (with_cleanup r st n o).
Proof.
  intros [Hp Hreads Hraw Ht] Hn Hs Ha Hst. constructor; [done|by apply cleanup_reads| |].
  - intros k Hk Hne. rewrite apply_ops_lookup. pose proof (not_next _ Hk Hne) as Hin. rewrite (Hraw k Hk Hne).
    clear Hk Hne. revert k Hin. apply Forall_forall.
    repeat (apply Forall_cons; split); [..|by apply Forall_nil]. all: reflexivity.
  - unfold tidy in *. simpl. revert Hst. rewrite !elem_of_cons, elem_of_nil.
    destruct (fr_state r); try discriminate Hs; try done; by intros [->|[->|[]]].
Qed.
