(* ===== verification/FrameSteps.v ===== *)
(** * Every call moves the rows along their lifecycle *)

From S2P Require Import Prelude PyValue Firestore Sha256 MemoryText MemoryOperations MemoryRecords FrameRequests FrameStore FrameRows FrameProofs FrameCalls.
From Stdlib Require Import QArith_base Ascii.
Local Open Scope Z_scope.

(** What a call may do besides moving rows: create one at a path, and record that the
    pixels of one are erased. *)
Record labels := Labels { new_at : path -> Prop; erased_at : path -> FrameRequest -> Prop }.
Definition quiet : labels := Labels (fun _ => False) (fun _ _ => False).

(** The rows stay stored and move along their lifecycle, within the labels. *)
Definition good_step (l : labels) (s s' : db) : Prop :=
  rows_ok s' /\ forall p, frame_row p ->
    lifecycle (row_at s p) (row_at s' p) /\ (row_at s p = None -> row_at s' p = None \/ new_at l p) /\
    forall r r', row_at s p = Some r -> row_at s' p = Some r' -> fr_cleanup_state r' = deleted ->
      r' = r \/ erased_at l p r'.

Lemma row_at_same s s' p : s' !! p = s !! p -> row_at s' p = row_at s p.
Proof. unfold row_at. by intros ->. Qed.

Lemma step_unchanged (l : labels) (o : option FrameRequest) (p : path) :
  lifecycle o o /\ (o = None -> o = None \/ new_at l p) /\
  forall r r', o = Some r -> o = Some r' -> fr_cleanup_state r' = deleted -> r' = r \/ erased_at l p r'.
Proof. split_and!; [constructor|auto|]. intros r r' H1 H2 _. left. congruence. Qed.

Lemma step_elsewhere (l : labels) s s' : rows_ok s -> (forall p, frame_row p -> s' !! p = s !! p) -> good_step l s s'.
Proof.
  intros Hok Hs. split.
  - intros p d Hp Hd. rewrite Hs in Hd by done. eauto.
  - intros p Hp. rewrite (row_at_same s s') by auto. apply step_unchanged.
Qed.

Lemma step_same (l : labels) s : rows_ok s -> good_step l s s.
Proof. intros. by apply step_elsewhere. Qed.

Lemma step_row (l : labels) s s' ref d r :
  rows_ok s -> (forall p, frame_row p -> p <> ref -> s' !! p = s !! p) -> s' !! ref = Some d -> stored ref d r ->
  lifecycle (row_at s ref) (Some r) -> (row_at s ref = None -> new_at l ref) ->
  (row_at s ref <> None -> fr_cleanup_state r = deleted -> erased_at l ref r) -> good_step l s s'.
Proof.
  intros Hok Hs Hd Hst Hl Hnew He. split.
  - intros p d' Hp Hd'. destruct (decide (p = ref)) as [->|Hne]; [rewrite Hd in Hd'; injection Hd' as <-; eauto|].
    rewrite Hs in Hd' by done. eauto.
  - intros p Hp. destruct (decide (p = ref)) as [->|Hne].
    + rewrite (stored_row s' _ _ _ Hd Hst). split_and!; [done|auto|]. intros r0 r' Hr [= <-] Hcl.
      right. apply He; [congruence|done].
    + rewrite (row_at_same s s') by auto. apply step_unchanged.
Qed.

Lemma step_deleted (l : labels) s s' ref :
  rows_ok s -> (forall p, p <> ref -> s' !! p = s !! p) -> s' !! ref = None -> good_step l s s'.
Proof.
  intros Hok Hs Hd. split.
  - intros p d Hp Hpd. rewrite Hs in Hpd; [eauto|]. intros ->. congruence.
  - intros p Hp. destruct (decide (p = ref)) as [->|Hne].
    + assert (Hn : row_at s' ref = None) by (unfold row_at; by rewrite Hd). rewrite Hn.
      split_and!; [destruct (row_at s ref); constructor|auto|done].
    + rewrite (row_at_same s s') by auto. apply step_unchanged.
Qed.

(** A row that fits its update. *)
Lemma step_fits s s' ref d r u new next :
  rows_ok s -> s !! ref = Some d -> stored ref d r -> candidate r u = Ok new -> fits r new next ->
  next ∈ allowed_transitions (fr_state r) -> (forall p, frame_row p -> p <> ref -> s' !! p = s !! p) ->
  s' !! ref = Some (apply_ops false d (values (_request_data new))) -> good_step quiet s s'.
Proof.
  intros Hok Hd Hst Hu (Hc & Ht & Hsame & Hn & Hcl) Hnext Hs Hd'.
  pose proof (stored_update _ _ _ _ _ Hst Hu Hc Ht Hsame) as Hst'.
  eapply step_row; [done|exact Hs|exact Hd'|exact Hst'| | |done]; rewrite (stored_row _ _ _ _ Hd Hst); [|done].
  apply life_moved; [destruct Hsame; by constructor|simpl; by rewrite Hn|done].
Qed.

(** ** Rows at the path of a request *)
Lemma ref_row uid c id : _collection uid = Ok c -> frame_row (document c id).
Proof. intros [-> _]%collection_Ok. by exists (strip uid), id. Qed.

Lemma read_stored s uid c id d r :
  rows_ok s -> _collection uid = Ok c -> s !! document c id = Some d -> _request_from_snapshot (document c id, d) = Ok r ->
  stored (document c id) d r.
Proof.
  intros Hok Hc Hd Hr. destruct (Hok _ _ (ref_row _ _ id Hc) Hd) as [r' Hst].
  rewrite (stored_snapshot _ _ _ Hst) in Hr. by injection Hr as <-.
Qed.

(** ** Creation *)
Section Lists.
Context {A : Type} (l : dict) (k : string) (rd : value -> res A).

Lemma required_list v : dict_lookup k l = Some v -> required (list_to_map l) k rd = rd v.
Proof. intros H. unfold required. by rewrite list_to_map_get, H. Qed.
Lemma defaulted_list a v : dict_lookup k l = Some v -> defaulted (list_to_map l) k rd a = rd v.
Proof. intros H. unfold defaulted. by rewrite list_to_map_get, H. Qed.
Lemma defaulted_absent a : dict_lookup k l = None -> defaulted (list_to_map l) k rd a = Ok a.
Proof. intros H. unfold defaulted. by rewrite list_to_map_get, H. Qed.
End Lists.

Lemma rd_required_strip max s s' : rd_required_text max (VStr s) = Ok s' -> s' = strip s.
Proof. simpl. case_match; [done|]. by intros [= <-]. Qed.

Lemma rd_optional_strip max o o' :
  rd_optional_text max (opt_str o) = Ok o' -> o' = match o with Some s => if decide (strip s = "") then None else Some (strip s) | None => None end.
Proof.
  destruct o as [s|]; simpl; [|by intros [= <-]]. case_decide as Hs.
  - rewrite bool_decide_true by done. by intros [= <-].
  - rewrite bool_decide_false by done. case_match; [done|]. by intros [= <-].
Qed.

Definition stripped (o : option string) : option string :=
  match o with Some s => if decide (strip s = "") then None else Some (strip s) | None => None end.

Lemma created_row id uid device identity generation window attempt conversation screenshot created expires r :
  new_request id uid device identity generation window attempt conversation screenshot created expires = Ok r ->
  fr_uid r = strip uid /\ fr_device_id r = strip device /\ fr_account_generation r = generation /\
  fr_state r = requested /\ tidy r /\ fr_conversation_id r = stripped conversation /\ fr_byte_count r = 0 /\
  reads_as (list_to_map (_request_data r)) r.
Proof.
  unfold new_request. intros H%frame_request_iff. pose proof (written_reads _ _ H) as Hw. destruct H.
  unfold text_of, optional_of in *.
  rewrite (required_list _ _ _ (VStr uid)) in ra_uid by reflexivity.
  rewrite (required_list _ _ _ (VStr device)) in ra_device by reflexivity.
  rewrite (defaulted_list _ _ _ _ (VInt generation)) in ra_generation by reflexivity.
  rewrite (defaulted_list _ _ _ _ (VStr "requested")) in ra_state by reflexivity.
  rewrite (defaulted_list _ _ _ _ (opt_str conversation)) in ra_conversation by reflexivity.
  rewrite defaulted_absent in ra_reason by reflexivity. rewrite defaulted_absent in ra_content by reflexivity.
  rewrite defaulted_absent in ra_storage by reflexivity. rewrite defaulted_absent in ra_bytes by reflexivity.
  rewrite (defaulted_absent _ "cleanup_state") in ra_cleanup by reflexivity.
  apply rd_required_strip in ra_uid, ra_device. apply rd_optional_strip in ra_conversation.
  unfold rd_count in ra_generation. simpl in ra_generation. destruct (0 <=? generation); [|done].
  assert (Hs : fr_state r = requested) by by injection ra_state.
  split_and!; try done; try congruence. unfold tidy. rewrite Hs. split_and!; congruence.
Qed.

Lemma created_stored id uid device identity generation window attempt conversation screenshot created expires r c :
  new_request id uid device identity generation window attempt conversation screenshot created expires = Ok r ->
  c = [USERS_COLLECTION; strip uid; FRAME_REQUESTS_COLLECTION] ->
  stored (document c (fr_request_id r)) (list_to_map (_request_data r)) r.
Proof.
  intros H ->. destruct (created_row _ _ _ _ _ _ _ _ _ _ _ _ H) as (Hu & _ & _ & _ & Ht & _ & _ & Hr).
  constructor; [by rewrite Hu|done| |done]. intros k Hk _. by apply data_lookup.
Qed.

(** ** The calls *)
Lemma other_rows (p q : path) (d : fields) (s : db) : ~ frame_row q -> frame_row p -> <[q := d]> s !! p = s !! p.
Proof. intros Hq Hp. apply lookup_insert_ne. by intros ->. Qed.

Lemma deleted_elsewhere (p q : path) (s : db) : ~ frame_row q -> frame_row p -> delete q s !! p = s !! p.
Proof. intros Hq Hp. apply lookup_delete_ne. by intros ->. Qed.

Lemma step_insert (s : db) (q : path) d : rows_ok s -> ~ frame_row q -> good_step quiet s (<[q := d]> s).
Proof. intros Hok Hq. apply step_elsewhere; [done|]. intros p Hp. by apply other_rows. Qed.

Lemma step_delete (s : db) (q : path) : rows_ok s -> ~ frame_row q -> good_step quiet s (delete q s).
Proof. intros Hok Hq. apply step_elsewhere; [done|]. intros p Hp. by apply deleted_elsewhere. Qed.

(** The path of the row that a call of [enqueue_frame_request] creates, and what the
    conversation held before. *)
Definition admits (c : path) (conversation : option string) (s : db) (r : FrameRequest) : Prop :=
  fr_conversation_id r = stripped conversation /\
  (given conversation = true -> conversation_query c (default "" conversation) s = []).

Lemma enqueue_step uid device key conversation screenshot generation ttl retention now s r b s' :
  rows_ok s ->
  enqueue_frame_request uid device key conversation screenshot generation ttl retention now s = Ok ((r, b), s') ->
  exists c, _collection uid = Ok c /\
    good_step (Labels (fun p => p = document c (fr_request_id r) /\ row_at s' p = Some r /\ admits c conversation s r)
                 (fun _ _ => False)) s s'.
Proof.
  intros Hok. unfold enqueue_frame_request. case_match; [done|]. case_match; [done|]. intros Hrun.
  apply res_bind_Ok in Hrun as (expires & _ & Hrun). apply res_bind_Ok in Hrun as (c & Hc & Hrun).
  exists c. split; [done|].
  apply create_spec in Hrun as (attempts & _ & [(_ & -> & _)|(_ & _ & Hq & (id & w & a & Hnew) & _ & Hd & ->)]).
  - by apply step_same.
  - apply collection_Ok in Hc as [-> _].
    assert (Hst := created_stored _ _ _ _ _ _ _ _ _ _ _ _ [USERS_COLLECTION; strip uid; FRAME_REQUESTS_COLLECTION] Hnew
                     ltac:(by rewrite strip_idem)).
    apply created_row in Hnew as (_ & _ & _ & Hs & _ & Hcv & _ & _).
    eapply step_row; [done| |by rewrite lookup_insert_eq|exact Hst| | |].
    + intros p _ Hp. by apply lookup_insert_ne.
    + unfold row_at. rewrite Hd. by apply life_created.
    + intros _. split; [done|]. split; [|done]. apply (stored_row _ _ _ _ (lookup_insert_eq _ _ _) Hst).
    + intros Hn. exfalso. apply Hn. unfold row_at. by rewrite Hd.
Qed.

Lemma transition_step uid id next device generation reason storage bytes content now s new s' :
  rows_ok s ->
  transition_frame_request uid id next device generation reason storage bytes content now s = Ok (new, s') ->
  good_step quiet s s'.
Proof.
  intros Hok H. apply transition_spec in H as (c & d & r & Hc & Hr & Hv & Ha & _ & Hu & Hd & ->).
  pose proof (read_stored _ _ _ _ _ _ Hok Hc Hd Hr) as Hst.
  eapply step_fits; [done|exact Hd|exact Hst|exact Hu|by eapply transition_fits|by apply validate_Ok in Hv as (_ & _ & _ & _ & _ & ?)| |].
  - intros p _ Hp. by apply lookup_insert_ne.
  - by rewrite lookup_insert_eq.
Qed.

Lemma attach_step `{PhotoEnv} uid id device generation conversation object now s new s' :
  rows_ok s ->
  attach_frame_request_to_conversation uid id device generation conversation object now s = Ok (new, s') ->
  good_step quiet s s'.
Proof.
  intros Hok Hrun. assert (Ho : strip object <> "").
  { intros Ho. unfold attach_frame_request_to_conversation in Hrun. by rewrite (bool_decide_true _ Ho), orb_true_r in Hrun. }
  apply attach_spec in Hrun as (c & receipt & d & r & Hc & Hrec & Hd & Hr & _ & _ & _ & [(_ & _ & _ & ->)|(Hm & Hu & Hd' & Hs)]).
  - apply step_delete; [done|]. by eapply orphan_not_row.
  - pose proof (read_stored _ _ _ _ _ _ Hok Hc Hd Hr) as Hst. destruct Hm as (Hup & _ & _).
    eapply step_fits; [done|exact Hd|exact Hst|exact Hu|by eapply attachment_fits|rewrite Hup; absent| |exact Hd'].
    intros p Hp Hne. apply Hs; [done|intros ->|intros ->|intros ->].
    + by eapply orphan_not_row.
    + by eapply conversation_not_row.
    + by eapply photo_not_row.
Qed.

Lemma reconcile_step uid id device generation storage now s found s' :
  rows_ok s -> reconcile_ambiguous_frame_upload uid id device generation storage now s = Ok (found, s') -> good_step quiet s s'.
Proof.
  intros Hok Hrun.
  apply reconcile_spec in Hrun as (c & receipt & Hc & Hrec & Hs & [(_ & _ & _ & _ & _ & _ & ->)|[_ Hd]]); [by apply step_same|].
  pose proof (orphan_not_row _ _ _ Hrec) as Hn.
  destruct Hd as [Hd|(d & r & new & Hd & Hr & Ht & Hg & Hu & _ & Hd')].
  - apply step_elsewhere; [done|]. intros p Hp. destruct (decide (p = document c id)) as [->|Hne]; [done|].
    apply Hs; [by intros ->|done].
  - pose proof (read_stored _ _ _ _ _ _ Hok Hc Hd Hr) as Hst.
    eapply step_fits; [done|exact Hd|exact Hst|exact Hu|by eapply ambiguous_fits| | |exact Hd'].
    + destruct (not_terminal_states _ Ht) as [Hx|[Hx|Hx]]; rewrite Hx; [absent|absent|].
      pose proof (uploaded_storage _ _ _ Hst Hx). congruence.
    + intros p Hp Hne. apply Hs; [by intros ->|done].
Qed.

Lemma prune_step uid c id now s b s' :
  rows_ok s -> _collection uid = Ok c -> run_txn (_prune_one (document c id) now) s = Ok (b, s') -> good_step quiet s s'.
Proof.
  intros Hok Hc Hrun. apply prune_spec in Hrun as [->|(d & r & new & Hr & _ & He & Hu & Hd & ->)]; [by apply step_same|].
  pose proof (read_stored _ _ _ _ _ _ Hok Hc Hd Hr) as Hst.
  eapply step_fits; [done|exact Hd|exact Hst|exact Hu|by eapply prune_fits| | |by rewrite lookup_insert_eq].
  - unfold is_expired in He. destruct (given _ && _); [done|]. apply andb_true_iff in He as [_ He].
    apply negb_true_iff in He. destruct (not_terminal_states _ He) as [Hx|[Hx|Hx]]; rewrite Hx; absent.
  - intros p _ Hp. by apply lookup_insert_ne.
Qed.

(** A row as a page of the pixel worker holds it: it is still the row of the store, or
    the row is gone. *)
Definition page_row (uid id : string) (d : fields) (s : db) : Prop :=
  forall c, _collection uid = Ok c ->
    (s !! document c id = Some d \/ s !! document c id = None) /\
    field_in "state" terminal_unattached (document c id, d) = true /\
    forall r, _request_from_snapshot (document c id, d) = Ok r -> fr_cleanup_attempts r < 1000.

Lemma raw_state p d r : stored p d r -> d !! "state" = Some (VStr (state_value (fr_state r))).
Proof. intros [_ _ Hraw _]. rewrite Hraw; [done|absent|done]. Qed.

Lemma unattached_state r p d :
  stored p d r -> field_in "state" terminal_unattached (p, d) = true ->
  is_terminal (fr_state r) = true /\ fr_state r <> attached.
Proof.
  intros Hst. unfold field_in. simpl. rewrite (raw_state _ _ _ Hst). intros Hin%bool_decide_eq_true.
  unfold terminal_unattached in Hin. rewrite !elem_of_cons, elem_of_nil in Hin.
  destruct (fr_state r); try (split; [reflexivity|discriminate]); simpl in Hin; intuition discriminate.
Qed.

(** The clean-up of a page row records the erasure of the object this row names. *)
Definition erasure (p : path) (d : fields) (erased : bool) : labels :=
  Labels (fun _ => False) (fun q r => p = q /\ erased = true /\
    exists r0, _request_from_snapshot (p, d) = Ok r0 /\ fr_storage_id r0 = fr_storage_id r).

Lemma pixels_step uid c id d erased now s :
  rows_ok s -> _collection uid = Ok c -> page_row uid id d s ->
  good_step (erasure (document c id) d erased) s (treat_pixels (fun _ => erased) now (document c id, d) s).2.
Proof.
  intros Hok Hc Hpage. destruct (Hpage c Hc) as (Hcur & Hstate & Hattempts). unfold treat_pixels.
  destruct (_request_from_snapshot (document c id, d)) as [q|] eqn:Hq; [|by apply step_same].
  destruct (negb (given (fr_storage_id q)) || _); [by apply step_same|].
  assert (Hwrite : forall st next, st ∈ [deleted; cleanup_failed] -> (st = deleted -> erased = true) ->
    good_step (erasure (document c id) d erased) s (plain (WUpdate (document c id) (values (cleanup_writes st (fr_cleanup_attempts q + 1) next))) s).2).
  { intros st next Hst He. unfold plain. simpl. destruct Hcur as [Hd|Hd]; rewrite Hd; simpl; [|by apply step_same].
    pose proof (read_stored _ _ _ _ _ _ Hok Hc Hd Hq) as Hs. destruct (unattached_state _ _ _ Hs Hstate) as [Ht Ha].
    assert (Hn : 0 <= fr_cleanup_attempts q + 1 <= 1000).
    { pose proof (Hattempts q eq_refl) as Hlt. pose proof (stored_reads _ _ _ Hs) as [].
      unfold defaulted, rd_bounded, rd_count in ra_attempts. case_match; [|by injection ra_attempts; lia].
      apply res_bind_Ok in ra_attempts as (n & Hn & ra_attempts). apply res_bind_Ok in Hn as (m & _ & Hn).
      destruct (0 <=? m) eqn:E; [|done]. injection Hn as ->. apply Z.leb_le in E. case_match; simplify_eq. lia. }
    pose proof (stored_cleanup _ _ _ st _ next Hs Hn Ht Ha Hst) as Hs'.
    eapply step_row; [done| |by rewrite lookup_insert_eq|exact Hs'| |by rewrite (stored_row _ _ _ _ Hd Hs)|].
    - intros p _ Hp. by apply lookup_insert_ne.
    - rewrite (stored_row _ _ _ _ Hd Hs). apply life_cleaned; [by constructor|done|done|done|done|done].
    - intros _ Hdel. split; [done|]. split; [by apply He|]. by exists q. }
  destruct erased.
  - unfold settled. pose proof (Hwrite deleted None ltac:(absent) ltac:(done)) as H. unfold cleanup_writes in H. simpl in H |- *.
    destruct (plain _ s) as [[] s']; exact H.
  - unfold settled. pose proof (Hwrite cleanup_failed (Some (retry_at now (fr_cleanup_attempts q))) ltac:(absent) ltac:(done)) as H.
    unfold cleanup_writes in H. simpl in H |- *. destruct (plain _ s) as [[] s']; exact H.
Qed.

Lemma plain_elsewhere w s p : write_path w <> p -> (plain w s).2 !! p = s !! p.
Proof.
  intros Hp. unfold plain. destruct (apply_write w s) as [s'|] eqn:E; [|done]. simpl.
  destruct w; simpl in E, Hp; [| |destruct (s !! r); [|done]|]; injection E as <-;
    by rewrite ?lookup_insert_ne, ?lookup_delete_ne.
Qed.

Lemma step_plain w s : rows_ok s -> ~ frame_row (write_path w) -> good_step quiet s (plain w s).2.
Proof. intros Hok Hw. apply step_elsewhere; [done|]. intros p Hp. apply plain_elsewhere. by intros <-. Qed.

Lemma settled_store (x : Z * Z) (m : res unit * db) : (settled x m).2 = m.2.
Proof. by destruct m as [[] s]. Qed.

Lemma named_not_row uid name c id :
  owner_collection uid name = Ok c -> name <> FRAME_REQUESTS_COLLECTION -> ~ frame_row (document c id).
Proof. intros [-> _]%owner_collection_Ok Hn (o & i & [= _ ? _]). done. Qed.

Lemma vision_not_row uid key : ~ frame_row (vision_ref uid key).
Proof. by intros (o & i & [=]). Qed.

Lemma vision_spec uid key id generation now s d s' :
  reserve_frame_vision_invocation uid key id generation now s = Ok (d, s') ->
  (s' = s /\ exists d0, s !! vision_ref uid key = Some d0 /\ d = d0) \/
  (s !! vision_ref uid key = None /\ s' = <[vision_ref uid key := new_vision_receipt id generation now]> s /\
   d = <["reserved" := VBool true]> (new_vision_receipt id generation now)).
Proof.
  unfold reserve_frame_vision_invocation. case_match; [done|]. intros Hrun.
  apply (run_txn_runs _ (fun d ws =>
    (ws = [] /\ exists d0, s !! vision_ref uid key = Some d0 /\ d = d0) \/
    (s !! vision_ref uid key = None /\ ws = [WSet (vision_ref uid key) (new_vision_receipt id generation now)] /\
     d = <["reserved" := VBool true]> (new_vision_receipt id generation now)))) in Hrun.
  - destruct Hrun as (ws & [[-> Hd]|(Hn & -> & Hd)] & Hcommit); injection Hcommit as <-; [left|right]; done.
  - unfold _reserve. repeat frame_step; [left; eauto|discriminate|by right].
Qed.

Lemma persist_elsewhere c conversation now ids s p :
  (forall id, document c id <> p) -> (persist_receipts c conversation now ids s).2 !! p = s !! p.
Proof.
  intros Hc. revert s. induction ids as [|id ids IH]; intros s; [done|].
  cbn [persist_receipts]. destruct (negb (opaque_storage_id id)); [done|].
  match goal with |- context [plain ?w s] => pose proof (plain_elsewhere w s p) as Hw; destruct (plain w s) as [[] s'] end;
    simpl in Hw |- *; rewrite ?IH; apply Hw; apply Hc.
Qed.

Lemma persist_step c conversation now ids s :
  rows_ok s -> (forall id, ~ frame_row (document c id)) -> good_step quiet s (persist_receipts c conversation now ids s).2.
Proof.
  intros Hok Hc. apply step_elsewhere; [done|]. intros p Hp. apply persist_elsewhere. intros id <-. by eapply Hc.
Qed.

(** ** All calls *)
Definition timely (c : frame_call) (s : db) : Prop :=
  match c with CleanPixels uid id d _ _ => page_row uid id d s | _ => True end.

(** The row that a call creates, where it does, and the row whose pixels it erases. *)
Definition creates `{PhotoEnv} (c : frame_call) (s : db) (p : path) : Prop :=
  match c with
  | Enqueue uid device key conversation screenshot generation ttl retention now =>
      exists col r b, _collection uid = Ok col /\ p = document col (fr_request_id r) /\
        enqueue_frame_request uid device key conversation screenshot generation ttl retention now s
        = Ok ((r, b), exec c s) /\
        row_at (exec c s) p = Some r /\ admits col conversation s r
  | _ => False
  end.

Definition erases (c : frame_call) (p : path) (r : FrameRequest) : Prop :=
  match c with
  | CleanPixels uid id d erased now =>
      exists col, _collection uid = Ok col /\ erased_at (erasure (document col id) d erased) p r
  | _ => False
  end.

Definition labels_of `{PhotoEnv} (c : frame_call) (s : db) : labels := Labels (creates c s) (erases c).

Lemma good_step_weaken (l l' : labels) s s' :
  good_step l s s' -> (forall p, new_at l p -> new_at l' p) -> (forall p r, erased_at l p r -> erased_at l' p r) ->
  good_step l' s s'.
Proof.
  intros [Hok Hs] Hn He. split; [done|]. intros p Hp. destruct (Hs p Hp) as (Hl & Hnew & Herased).
  split_and!; [done| |].
  - intros H. destruct (Hnew H); auto.
  - intros r r' H1 H2 H3. destruct (Herased r r' H1 H2 H3); auto.
Qed.

Lemma after_step {A} (l : labels) (m : res (A * db)) s :
  rows_ok s -> (forall a s', m = Ok (a, s') -> good_step l s s') -> good_step l s (after m s).
Proof. intros Hok Hm. unfold after. destruct m as [[a s']|]; [by eapply Hm|by apply step_same]. Qed.

Lemma in_rows_step (l : labels) m f s :
  rows_ok s -> (forall c, m = Ok c -> good_step l s (f c)) -> good_step l s (in_rows m f s).
Proof. intros Hok Hm. unfold in_rows. destruct m as [c|]; [by apply Hm|by apply step_same]. Qed.

Lemma other_calls_step `{PhotoEnv} c s :
  rows_ok s ->
  match c with Enqueue _ _ _ _ _ _ _ _ _ | CleanPixels _ _ _ _ _ => False | _ => True end ->
  good_step quiet s (exec c s).
Proof.
  intros Hok Hne. destruct c; simpl in Hne |- *; try done.
  - apply after_step; [done|]. intros. by eapply transition_step.
  - apply after_step; [done|]. intros. by eapply attach_step.
  - apply after_step; [done|]. intros. by eapply reconcile_step.
  - apply in_rows_step; [done|]. intros c Hc. apply after_step; [done|]. intros. by eapply prune_step.
  - apply in_rows_step; [done|]. intros c Hc. apply after_step; [done|].
    intros b s' [->|(d & Hd & _ & _ & ->)]%delete_one_spec; [by apply step_same|].
    eapply step_deleted; [done| |by rewrite lookup_delete_eq]. intros p Hp. by apply lookup_delete_ne.
  - apply in_rows_step; [done|]. intros c Hc. unfold delete_rows. simpl.
    eapply step_deleted; [done| |by rewrite lookup_delete_eq]. intros p Hp. by apply lookup_delete_ne.
  - apply after_step; [done|]. unfold reserve_frame_promotion_copy. intros [] s' Hm. case_match; [done|].
    inv_res. apply step_insert; [done|]. by eapply orphan_not_row.
  - apply after_step; [done|]. unfold reserve_frame_storage_cleanup. intros [] s' Hm.
    inv_res. apply step_insert; [done|]. by eapply orphan_not_row.
  - apply after_step; [done|]. unfold acknowledge_frame_storage_cleanup. intros [] s' Hm.
    inv_res. apply step_delete; [done|]. by eapply orphan_not_row.
  - apply in_rows_step; [done|]. intros c Hc.
    assert (Hn : ~ frame_row (document c name)) by (eapply named_not_row; [exact Hc|done]).
    unfold treat_orphan. cbv zeta. simpl.
    repeat case_match; try (by apply step_same); try (by apply step_delete); rewrite settled_store; by apply step_plain.
  - apply after_step; [done|]. intros d s' [[-> _]|(_ & -> & _)]%vision_spec; [by apply step_same|].
    apply step_insert; [done|apply vision_not_row].
  - unfold complete_frame_vision_invocation. case_match; [by apply step_same|]. apply step_plain; [done|apply vision_not_row].
  - apply after_step; [done|]. intros b s' [->|(d & Hd & ->)]%strip_one_spec; [by apply step_same|].
    apply step_insert; [done|]. by intros (o & i & [=]).
  - unfold persist_conversation_frame_deletion_outbox. case_match; [by apply step_same|].
    destruct (_deletion_outbox_collection uid) as [c|] eqn:Hc; [|by apply step_same].
    apply persist_step; [done|]. intros id. by eapply named_not_row.
  - apply after_step; [done|]. unfold acknowledge_conversation_frame_deletion. intros [] s' Hm.
    inv_res. apply step_delete; [done|]. by eapply named_not_row.
  - apply in_rows_step; [done|]. intros c Hc.
    assert (Hn : ~ frame_row (document c name)) by (eapply named_not_row; [exact Hc|done]).
    unfold treat_deletion_receipt. simpl.
    repeat case_match; try (by apply step_same); try (by apply step_delete); rewrite settled_store; by apply step_plain.
Qed.

Lemma exec_step `{PhotoEnv} c s : rows_ok s -> timely c s -> good_step (labels_of c s) s (exec c s).
Proof.
  intros Hok Ht.
  destruct c as [uid device key conversation screenshot generation ttl retention now| | | | |uid id d erased now| | | | | | | | | | | |].
  2-5,7-18: by (eapply good_step_weaken; [by apply other_calls_step|intros ? []|intros ? ? []]).
  - unfold labels_of, creates. cbn [exec]. unfold after.
    destruct (enqueue_frame_request uid device key conversation screenshot generation ttl retention now s)
      as [[[r b] s']|] eqn:E; [|by apply step_same].
    pose proof E as E'. apply enqueue_step in E as (c & Hc & Hs); [|done].
    eapply good_step_weaken; [exact Hs| |intros ? ? []]. simpl. intros p (-> & Hrow & Ha). exists c, r, b. done.
  - cbn [exec]. apply in_rows_step; [done|]. intros c Hc. eapply good_step_weaken; [by eapply pixels_step|intros ? []|].
    intros p r Hr. by exists c.
Qed.
