(* ===== verification/FrameTheorems.v ===== *)
(** * What the queue of frame requests guarantees

    Over every history of calls: rows stay readable and move along their lifecycle, a
    conversation has one frame at a time, and metadata outlives the pixels it names; then
    the quota of a device and what may happen only once. *)

From S2P Require Import Prelude PyValue Firestore Sha256 MemoryText MemoryOperations MemoryRecords FrameRequests FrameStore FrameRows FrameProofs FrameCalls FrameSteps.
From Stdlib Require Import QArith_base Ascii.
From stdpp Require Import sorting.
Local Open Scope Z_scope.

Section Histories.
Context `{PhotoEnv}.

(** The condition on a history under which rows stay readable: whenever the pixel worker
    treats a row of its page, the store still holds that row as the page does (or no
    longer holds it), in a terminal unattached state, and the clean-up of the row has
    failed less than 1000 times.  [last_failure_blocks_the_cleanup], below, shows what
    happens without the last of these. *)
Fixpoint timely_run (cs : list frame_call) (s : db) : Prop :=
  match cs with [] => True | c :: cs' => timely c s /\ timely_run cs' (exec c s) end.

Lemma run_app cs1 cs2 s : run (cs1 ++ cs2) s = run cs2 (run cs1 s).
Proof. apply foldl_app. Qed.

Lemma timely_run_app cs1 cs2 s : timely_run (cs1 ++ cs2) s <-> timely_run cs1 s /\ timely_run cs2 (run cs1 s).
Proof. revert s. induction cs1 as [|c cs1 IH]; intros s; simpl; [tauto|]. rewrite IH. tauto. Qed.

Lemma run_rows_ok cs s : rows_ok s -> timely_run cs s -> rows_ok (run cs s).
Proof.
  revert s. induction cs as [|c cs IH]; intros s Hok; [done|]. intros [Ht Hts]. simpl.
  apply IH; [|done]. by apply exec_step.
Qed.

(** An invariant of single steps holds along a history. *)
Lemma run_invariant (I : db -> Prop) (P : frame_call -> Prop) cs s :
  (forall c s, rows_ok s -> timely c s -> P c -> I s -> I (exec c s)) ->
  rows_ok s -> timely_run cs s -> Forall P cs -> I s -> I (run cs s).
Proof.
  intros Hstep. revert s. induction cs as [|c cs IH]; intros s Hok Ht HP HI; [done|]. simpl.
  destruct Ht as [Ht Hts]. apply Forall_cons in HP as [HPc HP]. apply IH; [by apply exec_step|done|done|auto].
Qed.

(** C16: From a store whose rows are readable, after any calls, the next call leaves every
    row of every frame queue readable and, for each row, does nothing, creates it as
    [requested], moves it along the policy (identity unchanged, no other transition,
    terminal states final), records a clean-up of the pixels of an unattached terminal
    row, or deletes it.  The calls, the next one included, satisfy [timely_run]: the
    pixel worker treats a page row that is still the stored one, and before its clean-up
    has failed a thousand times; the failure after that leaves the row unreadable
    ([last_failure_blocks_the_cleanup]).  Every other call is unrestricted. *)
Theorem frame_calls_refine_the_lifecycle cs c s :
  rows_ok s -> timely_run (cs ++ [c]) s ->
  rows_ok (exec c (run cs s)) /\
  forall p, frame_row p -> lifecycle (row_at (run cs s) p) (row_at (exec c (run cs s)) p).
Proof.
  intros Hok Hts. apply timely_run_app in Hts as [Hts [Ht _]].
  destruct (exec_step c (run cs s) (run_rows_ok cs s Hok Hts) Ht) as [Hok' Hl]. split; [done|].
  intros p Hp. by apply Hl.
Qed.

(** ** One frame per conversation *)
Definition holds_conversation (r : FrameRequest) (x : string) : Prop :=
  fr_conversation_id r = Some x /\ fr_state r ∈ [requested; claimed; uploaded; attached].

Definition single (s : db) : Prop := forall p q r r' x,
  frame_row p -> frame_row q -> row_at s p = Some r -> row_at s q = Some r' -> fr_uid r = fr_uid r' ->
  holds_conversation r x -> holds_conversation r' x -> p = q.

(** A call that names its conversation as the queue stores it. *)
Definition trimmed (c : frame_call) : Prop :=
  match c with Enqueue _ _ _ (Some x) _ _ _ _ _ => strip x = x | _ => True end.

Lemma lifecycle_holds r r' x :
  lifecycle (Some r) (Some r') -> holds_conversation r' x -> holds_conversation r x /\ fr_uid r' = fr_uid r.
Proof.
  intros Hl [Hc Hs]. inversion Hl as [o|?|? ? Hsame Hnext _|? ? Hsame Hst Ht Ha _ _|?]; subst.
  - by repeat split.
  - destruct Hsame. split; [|done]. split; [congruence|].
    destruct (fr_state r); simpl in Hnext; try (by apply not_elem_of_nil in Hnext); absent.
  - destruct Hsame. split; [|done]. split; [congruence|]. by rewrite <- Hst.
Qed.

Lemma row_stored s p r : rows_ok s -> frame_row p -> row_at s p = Some r -> exists d, s !! p = Some d /\ stored p d r.
Proof.
  intros Hok Hp Hr. unfold row_at in Hr. destruct (s !! p) as [d|] eqn:Hd; [|done].
  destruct (Hok p d Hp Hd) as [r' Hst]. rewrite (stored_snapshot _ _ _ Hst) in Hr. injection Hr as ->. eauto.
Qed.

Lemma in_collection_rows c s p d :
  in_collection c p = true -> s !! p = Some d -> (p, d) ∈ collection_rows c s.
Proof.
  intros Hc Hd. unfold collection_rows. rewrite merge_sort_Permutation. apply list_elem_of_In, List.filter_In.
  split; [|done]. by apply list_elem_of_In, elem_of_map_to_list.
Qed.

Lemma limited_nil n l : 0 < n -> limited n l = [] -> l = [].
Proof. unfold limited. intros Hn. destruct l as [|x l]; [done|]. by destruct (Z.to_nat n) eqn:E; [lia|]. Qed.

Lemma filter_nil {A} (f : A -> bool) l x : List.filter f l = [] -> x ∈ l -> f x = false.
Proof.
  intros Hf Hx. destruct (f x) eqn:E; [|done]. exfalso.
  assert (Hin : In x (List.filter f l)) by (apply List.filter_In; split; [by apply list_elem_of_In|done]).
  by rewrite Hf in Hin.
Qed.

Lemma conversation_free c x s q d r :
  conversation_query c x s = [] -> in_collection c q = true -> s !! q = Some d -> stored q d r ->
  ~ holds_conversation r x.
Proof.
  unfold conversation_query. intros Hq%limited_nil Hc Hd Hst [Hx Hs]; [|done].
  pose proof (filter_nil _ _ _ Hq (in_collection_rows _ _ _ _ Hc Hd)) as Hf. cbv beta in Hf.
  apply andb_false_iff in Hf as [Hf|Hf].
  - unfold field_is in Hf. apply bool_decide_eq_false in Hf. apply Hf. simpl.
    rewrite (stored_raw _ _ _ Hst "conversation_id") by (absent || done).
    change (match opt_str (fr_conversation_id r) with VNone => None | _ => Some (opt_str (fr_conversation_id r)) end
            = Some (VStr x)). by rewrite Hx.
  - unfold field_in in Hf. simpl in Hf. rewrite (raw_state _ _ _ Hst) in Hf. apply bool_decide_eq_false in Hf. apply Hf.
    revert Hs. rewrite !elem_of_cons, elem_of_nil. intros [->|[->|[->|[->|[]]]]]; absent.
Qed.

Lemma path_collection uid c id uid' id' :
  _collection uid = Ok c -> document c id = [USERS_COLLECTION; uid'; FRAME_REQUESTS_COLLECTION; id'] ->
  c = [USERS_COLLECTION; uid'; FRAME_REQUESTS_COLLECTION].
Proof. intros [-> _]%collection_Ok. unfold document. simpl. by intros [= -> _]. Qed.

Lemma single_new c s p q r r' x :
  rows_ok s -> rows_ok (exec c s) -> trimmed c -> creates c s p -> frame_row p -> frame_row q ->
  row_at (exec c s) p = Some r -> row_at s q = Some r' -> fr_uid r = fr_uid r' ->
  holds_conversation r x -> holds_conversation r' x -> False.
Proof.
  intros Hok Hok' Htrim Hnew Hp Hq Hr Hr' Hu Hx Hx'. destruct c; try done.
  destruct Hnew as (col & r0 & b & Hc & -> & _ & Hr0 & Hconv & Hfree). rewrite Hr in Hr0. injection Hr0 as <-.
  destruct (row_stored _ _ _ Hok' Hp Hr) as (d & _ & Hst). destruct (row_stored _ _ _ Hok Hq Hr') as (d' & Hd' & Hst').
  pose proof (path_collection _ _ _ _ _ Hc (stored_path _ _ _ Hst)) as Hcol.
  destruct Hx as [Hx _]. rewrite Hconv in Hx. destruct conversation_id as [y|]; [|done]. simpl in Hx, Htrim, Hfree.
  rewrite Htrim in Hx. case_decide as Hy; [done|]. injection Hx as ->.
  rewrite bool_decide_false in Hfree by done.
  eapply conversation_free; [by apply Hfree| |exact Hd'|exact Hst'|exact Hx'].
  rewrite (stored_path _ _ _ Hst'), Hcol, Hu. unfold in_collection. simpl. by rewrite bool_decide_true.
Qed.

Lemma single_step c s :
  rows_ok s -> timely c s -> trimmed c -> single s -> single (exec c s).
Proof.
  intros Hok Ht Htrim Hs p q r r' x Hp Hq Hr Hr' Hu Hx Hx'. destruct (exec_step c s Hok Ht) as [Hok' Hl].
  destruct (Hl p Hp) as (Lp & Np & _), (Hl q Hq) as (Lq & Nq & _). rewrite Hr in Lp, Np. rewrite Hr' in Lq, Nq.
  destruct (row_at s p) as [r0|] eqn:E, (row_at s q) as [r0'|] eqn:E'.
  - destruct (lifecycle_holds _ _ _ Lp Hx) as [H1 H2], (lifecycle_holds _ _ _ Lq Hx') as [H3 H4].
    eapply Hs; [exact Hp|exact Hq|exact E|exact E'|congruence|exact H1|exact H3].
  - destruct (lifecycle_holds _ _ _ Lp Hx) as [H1 H2]. destruct (Nq eq_refl) as [|Hnew]; [done|]. exfalso.
    eapply (single_new c s q p); [done|done|done|exact Hnew|done|done|exact Hr'|exact E|congruence|done|done].
  - destruct (lifecycle_holds _ _ _ Lq Hx') as [H1 H2]. destruct (Np eq_refl) as [|Hnew]; [done|]. exfalso.
    eapply (single_new c s p q); [done|done|done|exact Hnew|done|done|exact Hr|exact E'|congruence|done|done].
  - destruct (Np eq_refl) as [|Hp']; [done|]. destruct (Nq eq_refl) as [|Hq']; [done|].
    destruct c; try done. destruct Hp' as (c1 & r1 & b1 & Hc1 & -> & Ha1 & _), Hq' as (c2 & r2 & b2 & Hc2 & -> & Ha2 & _).
    congruence.
Qed.

(** C17: As long as callers name conversations without surrounding spaces, a conversation
    of a user never has two rows that are waiting, claimed, uploaded or attached,
    whatever calls run (the pixel worker's as [timely_run] says). *)
Theorem one_frame_per_conversation cs s :
  rows_ok s -> single s -> timely_run cs s -> Forall trimmed cs -> single (run cs s).
Proof. intros Hok Hs Ht Htrim. by eapply run_invariant; [intros; by apply single_step| | | |]. Qed.

(** ** Pixels before metadata *)
Definition erased_in (cs : list frame_call) (p : path) (r : FrameRequest) : Prop := exists c, c ∈ cs /\ erases c p r.

Definition accounted (cs : list frame_call) (s : db) : Prop := forall p r,
  frame_row p -> row_at s p = Some r -> fr_cleanup_state r = deleted -> erased_in cs p r.

Lemma accounted_run cs s :
  rows_ok s -> accounted [] s -> timely_run cs s -> accounted cs (run cs s).
Proof.
  intros Hok Hs. induction cs as [|c cs IH] using rev_ind; [by intros|]. intros Hts.
  apply timely_run_app in Hts as [Hts [Ht _]]. specialize (IH Hts). rewrite run_app. simpl.
  intros p r Hp Hr Hd. destruct (exec_step c (run cs s) (run_rows_ok cs s Hok Hts) Ht) as [_ Hl].
  destruct (Hl p Hp) as (Hlife & _ & He). destruct (row_at (run cs s) p) as [r0|] eqn:E.
  - destruct (He r0 r eq_refl Hr Hd) as [->|Her].
    + destruct (IH p r0 Hp E Hd) as (c' & Hin & Hc'). exists c'. split; [set_solver|done].
    + exists c. split; [set_solver|done].
  - rewrite Hr in Hlife. inversion Hlife as [|? Hreq| | |]; subst. exfalso.
    destruct (exec_step c (run cs s) (run_rows_ok cs s Hok Hts) Ht) as [Hok' _].
    destruct (row_stored _ _ _ Hok' Hp Hr) as (d & _ & Hst). pose proof (stored_tidy _ _ _ Hst) as Htidy.
    unfold tidy in Htidy. rewrite Hreq in Htidy. destruct Htidy as (_ & _ & _ & Htidy). congruence.
Qed.

Lemma raw_cleanup p d r : stored p d r -> doc_get d "cleanup_state" = VStr (cleanup_value (fr_cleanup_state r)).
Proof. intros [_ _ Hraw _]. unfold doc_get. rewrite Hraw; [done|absent|done]. Qed.

Lemma safe_states r :
  v_in (VStr (cleanup_value (fr_cleanup_state r))) ["not_required"; "deleted"] = true ->
  fr_cleanup_state r = not_required \/ fr_cleanup_state r = deleted.
Proof. destruct (fr_cleanup_state r); try (by auto); intros Hv; vm_compute in Hv; discriminate. Qed.

Lemma unattached_raw p d r :
  stored p d r -> v_in (doc_get d "state") terminal_unattached = true -> is_terminal (fr_state r) = true /\ fr_state r <> attached.
Proof.
  intros Hst Hv. apply (unattached_state r p d Hst). unfold field_in, doc_get in *. simpl.
  rewrite (raw_state _ _ _ Hst) in *. cbn [default] in Hv. unfold v_in in Hv.
  apply existsb_exists in Hv as (x & Hin & Hx). simpl in Hx. apply bool_decide_eq_true in Hx as <-.
  by apply bool_decide_eq_true, list_elem_of_In.
Qed.

(** C18: Metadata outlives the pixels it names: when the retention worker deletes the row
    of an expired request that names an object, the pixel worker has erased this very
    object for this row before (in a history of calls that [timely_run] admits). *)
Theorem metadata_outlives_pixels cs s uid id now col r x :
  rows_ok s -> accounted [] s -> timely_run cs s -> _collection uid = Ok col ->
  row_at (run cs s) (document col id) = Some r -> fr_storage_id r = Some x ->
  row_at (exec (DeleteMetadata uid id now) (run cs s)) (document col id) = None ->
  exists uid' d now' r', CleanPixels uid' id d true now' ∈ cs /\ strip uid' = strip uid /\
    _request_from_snapshot (document col id, d) = Ok r' /\ fr_storage_id r' = Some x.
Proof.
  intros Hok Ha Hts Hc Hr Hx Hgone. set (s1 := run cs s) in *. pose proof (ref_row _ _ id Hc) as Hp.
  destruct (row_stored s1 _ _ (run_rows_ok cs s Hok Hts) Hp Hr) as (d & Hd & Hst).
  simpl in Hgone. rewrite Hc in Hgone. unfold in_rows, after in Hgone.
  destruct (run_txn (_delete_one (document col id) now) s1) as [[b s2]|] eqn:E; [|congruence].
  apply delete_one_spec in E as [->|(d' & Hd' & Hs & Hcl & ->)]; [congruence|].
  rewrite Hd in Hd'. injection Hd' as <-. rewrite (raw_cleanup _ _ _ Hst) in Hcl.
  destruct (unattached_raw _ _ _ Hst Hs) as [Hterm Hatt]. destruct (safe_states _ Hcl) as [Hn|Hdel].
  - pose proof (stored_tidy _ _ _ Hst) as Ht. unfold tidy in Ht. rewrite Hn in Ht.
    destruct (fr_state r); try discriminate Hterm; try (by destruct Hatt); congruence.
  - destruct (accounted_run cs s Hok Ha Hts _ _ Hp Hr Hdel) as (c & Hin & Her).
    destruct c as [| | | | |uid' id' d' erased now'| | | | | | | | | | | |]; try done.
    destruct Her as (col' & Hc' & Hq & -> & r' & Hr' & Hsid). simpl in Hq.
    apply collection_Ok in Hc as [-> _], Hc' as [-> _]. unfold document in Hq, Hr'. simpl in Hq, Hr'.
    injection Hq as Hu ->. rewrite <- Hu in *. exists uid', d', now', r'. split_and!; [done|done|exact Hr'|congruence].
Qed.
End Histories.

(** ** Bounds and single use

    The quota of a device, the one paid call of a vision receipt, and the end of the
    clean-up attempts. *)

Lemma mapM_cons_Ok {A B} (f : A -> res B) x l y k : f x = Ok y -> mapM f l = Ok k -> mapM f (x :: l) = Ok (y :: k).
Proof. simpl. intros -> Hk. simpl. by rewrite Hk. Qed.

(** ** The active rows of a device *)
Definition all_active (c : path) (device_id : string) (generation : Z) (s : db) : list row :=
  List.filter (fun r => field_is "device_id" (VStr device_id) r && field_is "account_generation" (VInt generation) r
                        && field_in "state" active_states r) (collection_rows c s).

Lemma active_query_all c device generation s :
  Z.of_nat (length (all_active c device generation s)) <= FRAME_REQUEST_MAX_BATCH ->
  active_query c device generation s = all_active c device generation s.
Proof. intros Hn. unfold active_query, limited. apply take_ge. fold (all_active c device generation s). lia. Qed.

Lemma list_filter_Permutation {A} (f : A -> bool) l l' : l ≡ₚ l' -> List.filter f l ≡ₚ List.filter f l'.
Proof.
  induction 1 as [|x l l' _ IH|x y l|l l' l'' _ IH _ IH']; simpl; [done| | |by rewrite IH].
  - destruct (f x); by rewrite IH.
  - destruct (f x), (f y); try done. apply Permutation_swap.
Qed.

Lemma collection_rows_insert c p d s :
  s !! p = None -> in_collection c p = true -> collection_rows c (<[p := d]> s) ≡ₚ (p, d) :: collection_rows c s.
Proof.
  intros Hn Hc. unfold collection_rows. rewrite !merge_sort_Permutation.
  rewrite (list_filter_Permutation _ _ _ (map_to_list_insert s p d Hn)). simpl. by rewrite Hc.
Qed.

Lemma requests_of_Permutation l l' rows :
  l ≡ₚ l' -> requests_of l = Ok rows -> exists rows', requests_of l' = Ok rows' /\ rows ≡ₚ rows'.
Proof.
  unfold requests_of. intros Hp. revert rows. induction Hp as [|x l l' _ IH|x y l|l l' l'' _ IH _ IH']; intros rows.
  - intros [= <-]. by exists [].
  - simpl. destruct (_request_from_snapshot x) as [r|]; [|done]. simpl.
    destruct (mapM _ l) as [k|] eqn:E; [|done]. intros [= <-]. destruct (IH k eq_refl) as (k' & Hk & Hkp).
    rewrite Hk. simpl. exists (r :: k'). by rewrite Hkp.
  - simpl. destruct (_request_from_snapshot x) as [r|], (_request_from_snapshot y) as [r'|]; try done. simpl.
    destruct (mapM _ l) as [k|]; [|done]. intros [= <-]. simpl. eexists. split; [done|apply Permutation_swap].
  - intros Hr. destruct (IH rows Hr) as (k & Hk & H1). destruct (IH' k Hk) as (k' & Hk' & H2).
    exists k'. split; [done|by etrans].
Qed.

Lemma live_rows_Permutation l l' uid device now : l ≡ₚ l' -> live_rows l uid device now ≡ₚ live_rows l' uid device now.
Proof. apply list_filter_Permutation. Qed.

Lemma sum_bytes_Permutation l l' : l ≡ₚ l' -> sum_bytes l = sum_bytes l'.
Proof. unfold sum_bytes. induction 1; simpl; lia. Qed.

Lemma live_rows_cons r l uid device now :
  (length (live_rows (r :: l) uid device now) <= S (length (live_rows l uid device now)))%nat /\
  sum_bytes (live_rows (r :: l) uid device now) <= Z.max 0 (fr_byte_count r) + sum_bytes (live_rows l uid device now).
Proof. unfold live_rows. simpl. destruct (_ && _); simpl; lia. Qed.

Lemma quota_allowed rows uid device now :
  qd_allowed (check_device_quota rows uid device now 0) = true ->
  Z.of_nat (length (live_rows rows uid device now)) < FRAME_REQUEST_MAX_PENDING_PER_DEVICE /\
  sum_bytes (live_rows rows uid device now) <= FRAME_REQUEST_MAX_BYTES_PER_DEVICE.
Proof.
  unfold check_device_quota. case_match; [done|]. case_match eqn:E1; [done|]. case_match eqn:E2; [done|]. intros _.
  apply Z.leb_gt in E1. apply Z.ltb_ge in E2. lia.
Qed.

Lemma active_row p d r :
  stored p d r -> fr_state r = requested ->
  field_is "device_id" (VStr (fr_device_id r)) (p, d)
  && field_is "account_generation" (VInt (fr_account_generation r)) (p, d) && field_in "state" active_states (p, d) = true.
Proof.
  intros Hst Hs. unfold field_is, field_in. simpl. rewrite (raw_state _ _ _ Hst), Hs.
  rewrite (stored_raw _ _ _ Hst "device_id"), (stored_raw _ _ _ Hst "account_generation") by (absent || done).
  change (written_field r "device_id" None) with (Some (VStr (fr_device_id r))).
  change (written_field r "account_generation" None) with (Some (VInt (fr_account_generation r))).
  by rewrite !bool_decide_true by (done || absent).
Qed.

Lemma active_insert c p d r s :
  s !! p = None -> in_collection c p = true -> stored p d r -> fr_state r = requested ->
  (p, d) :: all_active c (fr_device_id r) (fr_account_generation r) s
  ≡ₚ all_active c (fr_device_id r) (fr_account_generation r) (<[p := d]> s).
Proof.
  intros Hn Hc Hst Hs. unfold all_active. rewrite (list_filter_Permutation _ _ _ (collection_rows_insert _ _ _ _ Hn Hc)).
  cbn [List.filter]. by rewrite (active_row _ _ _ Hst Hs).
Qed.

(** C22: A device never gets more than eight live requests, nor more than 50 MB of live
    pixels, from [enqueue_frame_request]: after a creation the live rows of the device
    are at most that many, provided the rows that the query of the quota can return
    (32, expired ones included) are all its active rows. *)
Theorem enqueue_keeps_the_quota uid device key conversation screenshot generation ttl retention now s r s' col :
  enqueue_frame_request uid device key conversation screenshot generation ttl retention now s = Ok ((r, false), s') ->
  _collection uid = Ok col ->
  Z.of_nat (length (all_active col (strip device) generation s)) <= FRAME_REQUEST_MAX_BATCH ->
  exists rows, requests_of (all_active col (strip device) generation s') = Ok rows /\ r ∈ rows /\
    Z.of_nat (length (live_rows rows (strip uid) (strip device) now)) <= FRAME_REQUEST_MAX_PENDING_PER_DEVICE /\
    sum_bytes (live_rows rows (strip uid) (strip device) now) <= FRAME_REQUEST_MAX_BYTES_PER_DEVICE.
Proof.
  unfold enqueue_frame_request. case_match; [done|]. case_match; [done|]. intros Hrun Hc Hn.
  apply res_bind_Ok in Hrun as (expires & _ & Hrun). rewrite Hc, ok_bind in Hrun.
  apply create_spec in Hrun as (attempts & _ & [(? & _)|(_ & _ & _ & (id & w & a & Hnew) & (active & Ha & Hq) & Hd & ->)]); [done|].
  rewrite (active_query_all _ _ _ _ Hn) in Ha. destruct (quota_allowed _ _ _ _ Hq) as [Hcount Hbytes].
  pose proof (collection_Ok _ _ Hc) as [Hcol _].
  assert (Hst := created_stored _ _ _ _ _ _ _ _ _ _ _ _ col Hnew ltac:(by rewrite strip_idem)).
  pose proof (created_row _ _ _ _ _ _ _ _ _ _ _ _ Hnew) as (Hu & Hdev & Hgen & Hs & _ & _ & Hb & _).
  set (p := document col (fr_request_id r)) in *.
  assert (Hcp : in_collection col p = true).
  { unfold p, document, in_collection. rewrite removelast_last. apply andb_true_iff.
    split; apply bool_decide_eq_true; [by destruct col|done]. }
  assert (Hperm := active_insert _ _ _ _ _ Hd Hcp Hst Hs). rewrite Hdev, strip_idem, Hgen in Hperm.
  assert (Hall : requests_of ((p, list_to_map (_request_data r)) :: all_active col (strip device) generation s) = Ok (r :: active)).
  { unfold requests_of in *. by apply mapM_cons_Ok; [apply stored_snapshot|]. }
  destruct (requests_of_Permutation _ _ _ Hperm Hall) as (rows & Hrows & Hp).
  exists rows. split; [done|]. split; [rewrite <- Hp; apply elem_of_cons; by left|].
  pose proof (live_rows_Permutation _ _ (strip uid) (strip device) now Hp) as Hlive.
  rewrite <- (Permutation_length Hlive), <- (sum_bytes_Permutation _ _ Hlive).
  destruct (live_rows_cons r active (strip uid) (strip device) now) as [H1 H2]. rewrite Hb in H2.
  unfold FRAME_REQUEST_MAX_PENDING_PER_DEVICE in *. lia.
Qed.

(** ** One paid call *)
Section Vision.
Context `{PhotoEnv} (uid key : string).

Definition unreserved (s : db) : Prop := exists d, s !! vision_ref uid key = Some d /\ d !! "reserved" = None.

Lemma row_not_vision p : frame_row p -> p <> vision_ref uid key.
Proof. by intros (o & i & ->). Qed.

Lemma named_not_vision uid' name c id :
  owner_collection uid' name = Ok c -> name <> FRAME_VISION_RECEIPTS_COLLECTION -> document c id <> vision_ref uid key.
Proof. intros [-> _]%owner_collection_Ok Hn. intros [= _ Hx _]. by apply Hn. Qed.

Lemma orphan_not_vision uid' id r : orphan_ref uid' id = Ok r -> r <> vision_ref uid key.
Proof. by intros ->%orphan_Ok. Qed.

Lemma unreserved_elsewhere s s' : unreserved s -> s' !! vision_ref uid key = s !! vision_ref uid key -> unreserved s'.
Proof. unfold unreserved. by intros H0 ->. Qed.

Lemma unreserved_insert s q d :
  unreserved s -> (q = vision_ref uid key -> d !! "reserved" = None) -> unreserved (<[q := d]> s).
Proof.
  intros (d0 & Hd0 & Hr) Hq. unfold unreserved. destruct (decide (q = vision_ref uid key)) as [->|Hne].
  - rewrite lookup_insert_eq. eauto.
  - rewrite lookup_insert_ne by done. eauto.
Qed.

Lemma unreserved_delete s q : unreserved s -> q <> vision_ref uid key -> unreserved (delete q s).
Proof. intros (d0 & Hd0 & Hr) Hq. exists d0. by rewrite lookup_delete_ne. Qed.

Lemma unreserved_plain s w : unreserved s -> write_path w <> vision_ref uid key -> unreserved (plain w s).2.
Proof. intros Hs Hw. eapply unreserved_elsewhere; [done|]. by apply plain_elsewhere. Qed.

Lemma unreserved_update s q u :
  unreserved s -> "reserved" ∉ u.*1 -> unreserved (plain (WUpdate q u) s).2.
Proof.
  intros Hs Hu. unfold plain. simpl. destruct (s !! q) as [d|] eqn:E; [|done]. simpl.
  apply unreserved_insert; [done|]. intros ->. destruct Hs as (d0 & Hd0 & Hr). rewrite Hd0 in E. injection E as <-.
  by rewrite apply_ops_notin.
Qed.

Lemma unreserved_after {A} (m : res (A * db)) s :
  unreserved s -> (forall a s', m = Ok (a, s') -> unreserved s') -> unreserved (after m s).
Proof. intros Hs Hm. unfold after. destruct m as [[a s']|]; [by eapply Hm|done]. Qed.

Lemma unreserved_rows m f s : unreserved s -> (forall c, m = Ok c -> unreserved (f c)) -> unreserved (in_rows m f s).
Proof. intros Hs Hm. unfold in_rows. destruct m; auto. Qed.

Lemma unreserved_exec c s : unreserved s -> unreserved (exec c s).
Proof.
  intros Hs. destruct c; simpl.
  - apply unreserved_after; [done|]. intros [r b] s'. unfold enqueue_frame_request. case_match; [done|]. case_match; [done|].
    intros Hrun. apply res_bind_Ok in Hrun as (? & _ & Hrun). apply res_bind_Ok in Hrun as (c & Hc & Hrun).
    apply create_spec in Hrun as (? & _ & [(_ & -> & _)|(_ & _ & _ & _ & _ & _ & ->)]); [done|].
    apply unreserved_insert; [done|]. intros Hv. exfalso. revert Hv. apply row_not_vision. by eapply ref_row.
  - apply unreserved_after; [done|]. intros new s' (c & d & r & Hc & _ & _ & _ & _ & _ & _ & ->)%transition_spec.
    apply unreserved_insert; [done|]. intros Hv. exfalso. revert Hv. apply row_not_vision. by eapply ref_row.
  - apply unreserved_after; [done|]. intros new s' Hrun.
    apply attach_spec in Hrun as (c & receipt & d & r & Hc & Hr & _ & _ & _ & _ & _ & [(_ & _ & _ & ->)|(_ & _ & _ & Hq)]).
    + apply unreserved_delete; [done|]. by eapply orphan_not_vision.
    + eapply unreserved_elsewhere; [done|]. apply Hq; [|by apply not_eq_sym; eapply orphan_not_vision|done|done].
      intros Hv. symmetry in Hv. revert Hv. apply row_not_vision. by eapply ref_row.
  - apply unreserved_after; [done|]. intros found s' (c & receipt & Hc & Hr & Hq & _)%reconcile_spec.
    eapply unreserved_elsewhere; [done|]. apply Hq; [by apply not_eq_sym; eapply orphan_not_vision|].
    intros Hv. symmetry in Hv. revert Hv. apply row_not_vision. by eapply ref_row.
  - apply unreserved_rows; [done|]. intros c Hc. apply unreserved_after; [done|].
    intros b s' [->|(d & r & new & _ & _ & _ & _ & _ & ->)]%prune_spec; [done|].
    apply unreserved_insert; [done|]. intros Hv. exfalso. revert Hv. apply row_not_vision. by eapply ref_row.
  - apply unreserved_rows; [done|]. intros c Hc. unfold treat_pixels.
    repeat case_match; try done; rewrite settled_store; apply unreserved_plain; try done;
      apply row_not_vision; by eapply ref_row.
  - apply unreserved_rows; [done|]. intros c Hc. apply unreserved_after; [done|].
    intros b s' [->|(d & _ & _ & _ & ->)]%delete_one_spec; [done|]. apply unreserved_delete; [done|].
    apply row_not_vision. by eapply ref_row.
  - apply unreserved_rows; [done|]. intros c Hc. unfold delete_rows. simpl. apply unreserved_delete; [done|].
    apply row_not_vision. by eapply ref_row.
  - apply unreserved_after; [done|]. unfold reserve_frame_promotion_copy. intros [] s' Hm. case_match; [done|].
    inv_res. apply unreserved_insert; [done|]. intros Hv. exfalso. revert Hv. by eapply orphan_not_vision.
  - apply unreserved_after; [done|]. unfold reserve_frame_storage_cleanup. intros [] s' Hm.
    inv_res. apply unreserved_insert; [done|]. intros Hv. exfalso. revert Hv. by eapply orphan_not_vision.
  - apply unreserved_after; [done|]. unfold acknowledge_frame_storage_cleanup. intros [] s' Hm.
    inv_res. apply unreserved_delete; [done|]. by eapply orphan_not_vision.
  - apply unreserved_rows; [done|]. intros c Hc.
    assert (Hn : document c name <> vision_ref uid key) by (eapply named_not_vision; [exact Hc|done]).
    unfold treat_orphan. cbv zeta. simpl.
    repeat case_match; try done; try (by apply unreserved_delete); rewrite settled_store; by apply unreserved_plain.
  - apply unreserved_after; [done|]. intros d s' [[-> _]|(_ & -> & _)]%vision_spec; [done|].
    by apply unreserved_insert.
  - unfold complete_frame_vision_invocation. case_match; [done|]. apply unreserved_update; [done|absent].
  - apply unreserved_after; [done|]. intros b s' [->|(d & Hd & ->)]%strip_one_spec; [done|].
    apply unreserved_insert; [done|]. intros Hv. rewrite Hv in Hd. destruct Hs as (d0 & Hd0 & Hr).
    rewrite Hd0 in Hd. injection Hd as <-. by rewrite apply_ops_notin by absent.
  - unfold persist_conversation_frame_deletion_outbox. case_match; [done|].
    destruct (_deletion_outbox_collection uid0) as [c|] eqn:Hc; [|done].
    eapply unreserved_elsewhere; [done|]. apply persist_elsewhere. intros id. by eapply named_not_vision.
  - apply unreserved_after; [done|]. unfold acknowledge_conversation_frame_deletion. intros [] s' Hm.
    inv_res. apply unreserved_delete; [done|]. by eapply named_not_vision.
  - apply unreserved_rows; [done|]. intros c Hc.
    assert (Hn : document c name <> vision_ref uid key) by (eapply named_not_vision; [exact Hc|done]).
    unfold treat_deletion_receipt. simpl.
    repeat case_match; try done; try (by apply unreserved_delete); rewrite settled_store; by apply unreserved_plain.
Qed.

Lemma unreserved_run cs s : unreserved s -> unreserved (run cs s).
Proof. revert s. induction cs as [|c cs IH]; intros s Hs; [done|]. simpl. by apply IH, unreserved_exec. Qed.

(** C21: A chat turn pays for one vision call: once a caller has been told that it holds
    the reservation of an authority key, no later caller of this key is told so,
    whatever calls run in between (completion, expiry of the output, clean-ups). *)
Theorem vision_is_paid_for_once request_id generation now s d s1 cs request_id' generation' now' d' s' :
  reserve_frame_vision_invocation uid key request_id generation now s = Ok (d, s1) ->
  d !! "reserved" = Some (VBool true) -> unreserved s \/ s !! vision_ref uid key = None ->
  reserve_frame_vision_invocation uid key request_id' generation' now' (run cs s1) = Ok (d', s') ->
  d' !! "reserved" = None.
Proof.
  intros Hr Hd Hs Hr'. apply vision_spec in Hr as [[-> (d0 & Hd0 & ->)]|(_ & -> & ->)].
  - exfalso. destruct Hs as [(d1 & Hd1 & Hn)|Hn]; congruence.
  - assert (Hu : unreserved (<[vision_ref uid key := new_vision_receipt request_id generation now]> s)).
    { exists (new_vision_receipt request_id generation now). by rewrite lookup_insert_eq. }
    destruct (unreserved_run cs _ Hu) as (d1 & Hd1 & Hn).
    apply vision_spec in Hr' as [[_ (d0 & Hd0 & ->)]|(Hnone & _)]; congruence.
Qed.
End Vision.

(** ** The end of the attempts *)
Lemma page_loop_raises treat rows page s x :
  x ∈ rows -> (forall s, exists e, (treat x s).1 = Raise e) -> exists e, (page_loop treat rows page s).1 = Raise e.
Proof.
  intros Hx Ht. revert page s. induction rows as [|y rows IH]; intros page s; [by apply not_elem_of_nil in Hx|].
  simpl. apply elem_of_cons in Hx as [<-|Hx].
  - destruct (Ht s) as [e He]. destruct (treat x s) as [[[? ?]|e'] s']; simpl in He; [done|]. by exists e'.
  - destruct (treat y s) as [[[? ?]|e'] s']; [by apply IH|]. by exists e'.
Qed.

(** The clean-up counts its failures without a bound, the model of a row accepts at
    most 1000: after the failure that follows the thousandth one the row cannot be read
    any more, and every later page of the pixel worker that holds the row raises instead
    of cleaning the other rows of the user. *)
Theorem last_failure_blocks_the_cleanup `{PhotoEnv} uid id now s d r col :
  _collection uid = Ok col -> s !! document col id = Some d -> stored (document col id) d r ->
  given (fr_storage_id r) = true -> fr_cleanup_state r ∈ [pending; cleanup_failed] -> fr_cleanup_attempts r = 1000 ->
  let s' := exec (CleanPixels uid id d false now) s in
  exists d', s' !! document col id = Some d' /\ row_at s' (document col id) = None /\
    forall erase later limit s2, (document col id, d') ∈ pixel_query col later limit s2 ->
      exists e, (cleanup_frame_request_pixels uid erase later limit s2).1 = Raise e.
Proof.
  intros Hc Hd Hst Hg Hcl Ha s'. set (p := document col id) in *.
  set (u := values (cleanup_writes cleanup_failed 1001 (Some (retry_at now 1000)))).
  assert (Hs' : s' = <[p := apply_ops false d u]> s).
  { unfold s'. cbn [exec]. rewrite Hc. unfold in_rows, treat_pixels. fold p. rewrite (stored_snapshot _ _ _ Hst), Hg.
    rewrite bool_decide_false by tauto. cbn [negb orb]. rewrite settled_store, Ha. unfold plain. cbn [apply_write fst].
    by rewrite Hd. }
  assert (Hunread : exists e, _request_from_snapshot (p, apply_ops false d u) = Raise e).
  { destruct (_request_from_snapshot (p, apply_ops false d u)) as [q|e] eqn:E; [|by exists e]. exfalso.
    apply parse_strict_Ok, frame_request_iff in E as []. clear - ra_attempts. unfold defaulted in ra_attempts.
    assert (Hk : with_default_id (List.last p "") (apply_ops false d u) !! "cleanup_attempts" = Some (VInt 1001)).
    { unfold with_default_id. destruct (apply_ops false d u !! "request_id"); [|rewrite lookup_insert_ne by done];
        unfold u; by rewrite apply_ops_lookup. }
    simpl in ra_attempts. rewrite Hk in ra_attempts. done. }
  destruct Hunread as [e He]. exists (apply_ops false d u). rewrite Hs', lookup_insert_eq. split; [done|]. split.
  - unfold row_at. by rewrite lookup_insert_eq, He.
  - intros erase later limit s2 Hin. unfold cleanup_frame_request_pixels. destruct (negb (window_ok limit)); [eauto|].
    rewrite Hc. eapply page_loop_raises; [exact Hin|]. intros s3. exists e. unfold treat_pixels. by rewrite He.
Qed.
