(* ===== verification/FrameStorage.v ===== *)
(** * The pixels of frame requests (backend/utils/retrieval/frame_request_storage.py)

    Two buckets, one whose objects expire and one whose objects live as long as their
    conversation.  A bucket is a finite map from object names to bytes and content type;
    [configured] says which of the two environment variables name a bucket.  A write is
    fenced against destructive operations on the account ([owner_storage_write_gate] of
    backend/utils/other/storage.py). *)

From S2P Require Import Prelude PyValue Firestore LegalHolds Sha256 MemoryText MemoryOperations MemoryRecords FrameRequests.
From Stdlib Require Import QArith_base Ascii.
Local Open Scope Z_scope.

Definition TEMPORARY_STORAGE_PREFIX : string := "temporary-".
Definition PERMANENT_STORAGE_PREFIX : string := "permanent-".

(** [permanent] and the name of the object. *)
Abbreviation pixels := (gmap (bool * string) (string * string)).

Record StorageEnv := Storage { configured : bool -> bool; local_provider : bool }.

(** [OMI_ENV_STAGE], [PROVIDER_MODE] or a bucket that is none of the cloud library make a
    local provider. *)
Definition owner_storage_write_gate (env : StorageEnv) (uid : string) (now : Z) (s : db) : res unit :=
  if bool_decide (uid = "") then Raise ValueError
  else if local_provider env then Ok tt else external_write_fence uid now s s.

Definition _bucket (env : StorageEnv) (permanent : bool) : res bool :=
  if configured env permanent then Ok permanent else Raise RuntimeError.

Definition _is_permanent (storage_id : string) : bool :=
  if starts_with storage_id PERMANENT_STORAGE_PREFIX then true
  else if starts_with storage_id TEMPORARY_STORAGE_PREFIX then false else true.

Definition _object_name (uid storage_id : string) : res string :=
  let owner := strip uid in
  let identifier := strip storage_id in
  if bool_decide (owner = "") || negb (one_segment owner) || bool_decide (identifier = "") || negb (one_segment identifier)
  then Raise ValueError
  else Ok ("frame-requests/" +:+ owner +:+ "/" +:+ text_digest identifier).

Definition located (env : StorageEnv) (uid storage_id : string) : res (bool * string) :=
  tier ← _bucket env (_is_permanent storage_id); name ← _object_name uid storage_id; Ok (tier, name).

Definition upload_frame_request_pixels (env : StorageEnv) (uid storage_id data content_type : string) (now : Z) (s : db)
    (o : pixels) : res (unit * pixels) :=
  if bool_decide (data = "") then Raise ValueError
  else if negb (starts_with storage_id TEMPORARY_STORAGE_PREFIX) then Raise ValueError
  else
    tier ← _bucket env false; name ← _object_name uid storage_id;
    _ ← owner_storage_write_gate env uid now s;
    Ok (tt, <[(tier, name) := (data, content_type)]> o).

(** A missing object is no error. *)
Definition delete_frame_request_pixels (env : StorageEnv) (uid storage_id : string) (o : pixels) : res (unit * pixels) :=
  place ← located env uid storage_id; Ok (tt, delete place o).

Definition download_frame_request_pixels (env : StorageEnv) (uid storage_id : string) (o : pixels) : res string :=
  place ← located env uid storage_id;
  match o !! place with Some (data, _) => Ok data | None => Raise NotFound end.

Definition copy_frame_request_pixels_to_permanent (env : StorageEnv) (uid temporary_id permanent_id : string) (now : Z)
    (s : db) (o : pixels) : res (unit * pixels) :=
  if negb (starts_with permanent_id PERMANENT_STORAGE_PREFIX) then Raise ValueError
  else
    source_tier ← _bucket env (_is_permanent temporary_id); target_tier ← _bucket env true;
    source ← _object_name uid temporary_id;
    _ ← owner_storage_write_gate env uid now s;
    target ← _object_name uid permanent_id;
    match o !! (source_tier, source) with
    | Some object => Ok (tt, <[(target_tier, target) := object]> o)
    | None => Raise NotFound
    end.

Fixpoint delete_frame_request_pixels_for_user (env : StorageEnv) (uid : string) (ids : list string) (deleted : Z)
    (o : pixels) : res Z * pixels :=
  match ids with
  | [] => (Ok deleted, o)
  | id :: ids' =>
      match delete_frame_request_pixels env uid id o with
      | Ok (_, o') => delete_frame_request_pixels_for_user env uid ids' (deleted + 1) o'
      | Raise e => (Raise e, o)
      end
  end.

(** The objects of a bucket under a prefix. *)
Definition under (tier : bool) (prefix : string) (k : bool * string) : bool :=
  bool_decide (k.1 = tier) && starts_with k.2 prefix.

Definition owner_prefix (uid : string) : string := "frame-requests/" +:+ uid +:+ "/".

Definition list_blobs (tier : bool) (prefix : string) (o : pixels) : list (bool * string) :=
  List.filter (under tier prefix) (map_to_list o).*1.

Definition purge_tier (env : StorageEnv) (uid : string) (tier : bool) (deleted : Z) (o : pixels) : res Z * pixels :=
  if configured env tier then
    let blobs := list_blobs tier (owner_prefix uid) o in
    let o' := foldl (fun o k => delete k o) o blobs in
    match list_blobs tier (owner_prefix uid) o' with
    | [] => (Ok (deleted + Z.of_nat (length blobs)), o')
    | _ :: _ => (Raise RuntimeError, o')
    end
  else (Ok deleted, o).

Definition delete_all_frame_request_pixels_for_user (env : StorageEnv) (uid : string) (o : pixels) : res Z * pixels :=
  if bool_decide (uid = "") then (Ok 0, o)
  else match purge_tier env uid false 0 o with
       | (Raise e, o1) => (Raise e, o1)
       | (Ok n, o1) => purge_tier env uid true n o1
       end.
