(* ===== verification/FrameRoutes.v ===== *)
(** * The routes of frame requests
    (backend/routers/frame_requests.py, utils/retrieval/frame_request_authority.py)

    A route works on the store and the pixels.  [fault] is what may go wrong with an
    external call: it raises before it did anything, or after it did everything (a commit
    whose answer is lost).  The answer is a row, an error of HTTP, or an exception the
    route does not handle.  Rate limits, image decoding and the JIT rollout are not of this
    file: [canonical] is what the image library makes of a payload, [permits] what the
    rollout decides. *)

From S2P Require Import Prelude PyValue Firestore LegalHolds Sha256 MemoryText MemoryOperations MemoryRecords AccountCutover CutoverCoordinator FrameRequests FrameStore FrameStorage.
From Stdlib Require Import QArith_base Ascii.
Local Open Scope Z_scope.

Inductive fault := NoFault | Before (e : exn) | After (e : exn).

Definition attempt {A} (f : fault) (m : res (A * db)) (s : db) : res A * db :=
  match f with
  | Before e => (Raise e, s)
  | NoFault => match m with Ok (a, s') => (Ok a, s') | Raise e => (Raise e, s) end
  | After e => match m with Ok (_, s') => (Raise e, s') | Raise e' => (Raise e', s) end
  end.

Definition attempt_pixels (f : fault) (m : res (unit * pixels)) (o : pixels) : res unit * pixels :=
  match f with
  | Before e => (Raise e, o)
  | NoFault => match m with Ok (a, o') => (Ok a, o') | Raise e => (Raise e, o) end
  | After e => match m with Ok (_, o') => (Raise e, o') | Raise e' => (Raise e', o) end
  end.

Inductive answer := Reply (r : FrameRequest) | Http (status : Z) | Escapes (e : exn).

(** ** Authority *)
Record FrameRequestAuthorityDecision := Authority {
  fa_enabled : bool;
  fa_account_generation : option Z;
  fa_kill_switch : bool
}.

(** [rollout] is the answer of the rollout: whether it permits work and whether its kill
    switch is on, or that it raised. *)
Definition resolve_frame_request_authority (uid : string) (rollout : res (bool * bool)) (s : db)
    : FrameRequestAuthorityDecision :=
  let owner := strip uid in
  if bool_decide (owner = "") then Authority false None false
  else match rollout with
       | Raise _ => Authority false None true
       | Ok (false, kill) => Authority false None kill
       | Ok (true, _) =>
           match get_account_cutover_record owner s with
           | Ok r => Authority true (Some (cr_account_generation r)) false
           | Raise _ => Authority false None true
           end
       end.

Definition authorize_frame_request (uid : string) (account_generation : Z) (rollout : res (bool * bool)) (s : db)
    : res FrameRequestAuthorityDecision :=
  let decision := resolve_frame_request_authority uid rollout s in
  if negb (fa_enabled decision) || negb (bool_decide (fa_account_generation decision = Some account_generation))
  then Raise PermissionError else Ok decision.

(** ** Upload *)
Record upload_faults := UploadFaults {
  uf_upload : fault;
  uf_discard : fault;
  uf_transition : fault;
  uf_reconcile : fault
}.

(** [_reconcile_uploaded_object]: a reconciliation that raises is no answer. *)
Definition _reconcile_uploaded_object (f : fault) (uid request_id device_id : string) (account_generation : Z)
    (storage_id : string) (now : Z) (s : db) : option FrameRequest * db :=
  match attempt f (reconcile_ambiguous_frame_upload uid request_id device_id account_generation storage_id now s) s with
  | (Ok found, s') => (found, s')
  | (Raise _, s') => (None, s')
  end.

Definition holds_upload (storage_id : string) (found : option FrameRequest) : option FrameRequest :=
  match found with
  | Some r => if bool_decide (fr_storage_id r = Some storage_id) && bool_decide (fr_state r ∈ [uploaded; attached])
              then Some r else None
  | None => None
  end.

(** The answer to an exception that the handlers of a route know. *)
Definition route_error (e : exn) : answer :=
  match e with KeyError => Http 404 | PermissionError => Http 403 | ValueError => Http 409 | _ => Escapes e end.

(** From the second authorization on: [data] is the canonical image, [storage_id] the new
    identifier of the object. *)
Definition store_upload (env : StorageEnv) (f : upload_faults) (uid request_id device_id : string)
    (account_generation : Z) (storage_id data : string) (now : Z) (s : db) (o : pixels) : answer * db * pixels :=
  match attempt_pixels (uf_upload f) (upload_frame_request_pixels env uid storage_id data "image/jpeg" now s o) o with
  | (Raise e, o1) =>
      match attempt_pixels (uf_discard f) (delete_frame_request_pixels env uid storage_id o1) o1 with
      | (Raise e', o2) => (Escapes e', s, o2)
      | (Ok _, o2) => (Escapes e, s, o2)
      end
  | (Ok _, o1) =>
      match attempt (uf_transition f)
              (transition_frame_request uid request_id uploaded device_id account_generation None (Some storage_id)
                 (Z.of_nat (String.length data)) (Some "image/jpeg") now s) s with
      | (Ok r, s1) => (Reply r, s1, o1)
      | (Raise e, s1) =>
          let (found, s2) := _reconcile_uploaded_object (uf_reconcile f) uid request_id device_id account_generation
                               storage_id now s1 in
          match holds_upload storage_id found with
          | Some r => (Reply r, s2, o1)
          | None => (route_error e, s2, o1)
          end
      end
  end.

Definition allowed_content_types : list string := ["image/jpeg"; "image/png"; "image/webp"].

(** [first] and [second] are the answers of the rollout to the two authorizations;
    [canonical] is the payload the image library accepted and rewrote, or a status. *)
Definition upload_frame_request (env : StorageEnv) (f : upload_faults) (first second : res (bool * bool))
    (canonical : string -> string + Z) (uid request_id device_id : string) (account_generation : Z)
    (declared_content_type : option string) (payload unique : string) (now : Z) (s : db) (o : pixels)
    : answer * db * pixels :=
  let stop status := (Http status, s, o) in
  match authorize_frame_request uid account_generation first s with
  | Raise _ => stop 404
  | Ok _ =>
      if negb (bool_decide (ascii_lower (default "" declared_content_type) ∈ allowed_content_types)) then stop 415
      else if MAX_BYTES <? Z.of_nat (String.length payload) then stop 413
      else match canonical payload with
           | inr status => stop status
           | inl data =>
               match authorize_frame_request uid account_generation second s with
               | Raise _ => stop 404
               | Ok _ => store_upload env f uid request_id device_id account_generation
                           (TEMPORARY_STORAGE_PREFIX +:+ unique) data now s o
               end
           end
  end.

(** ** Promotion *)
Record promote_faults := PromoteFaults {
  pf_get : fault;
  pf_acknowledge : fault;
  pf_reserve : fault;
  pf_copy : fault;
  pf_displaced : fault;
  pf_attach : fault;
  pf_delete : fault;
  pf_deleted : fault
}.

(** [id.removeprefix("frame-")] *)
Definition removeprefix (prefix s : string) : string :=
  if starts_with s prefix then String.string_of_list_ascii (drop (String.length prefix) (String.list_ascii_of_string s))
  else s.

Definition permanent_id_of (request_id : string) : string := PERMANENT_STORAGE_PREFIX +:+ removeprefix "frame-" request_id.

Section Promote.
Context `{PhotoEnv} (env : StorageEnv) (f : promote_faults).

(** After the attachment: the temporary object goes, then its receipt. *)
Definition drop_temporary (uid storage_id : string) (r : FrameRequest) (s : db) (o : pixels) : answer * db * pixels :=
  match attempt_pixels (pf_delete f) (delete_frame_request_pixels env uid storage_id o) o with
  | (Raise _, o1) => (Reply r, s, o1)
  | (Ok _, o1) =>
      match attempt (pf_deleted f) (acknowledge_frame_storage_cleanup uid storage_id s) s with
      | (Ok _, s1) => (Reply r, s1, o1)
      | (Raise e, s1) => (route_error e, s1, o1)
      end
  end.

Definition promote_uploaded (uid request_id device_id : string) (account_generation : Z) (conversation_id storage_id : string)
    (now : Z) (s : db) (o : pixels) : answer * db * pixels :=
  let permanent_id := permanent_id_of request_id in
  match attempt (pf_reserve f) (reserve_frame_promotion_copy uid request_id permanent_id now s) s with
  | (Raise e, s1) => (route_error e, s1, o)
  | (Ok _, s1) =>
      match attempt_pixels (pf_copy f) (copy_frame_request_pixels_to_permanent env uid storage_id permanent_id now s1 o) o with
      | (Raise e, o1) => (route_error e, s1, o1)
      | (Ok _, o1) =>
          match attempt (pf_displaced f) (reserve_frame_storage_cleanup uid request_id storage_id now s1) s1 with
          | (Raise e, s2) => (route_error e, s2, o1)
          | (Ok _, s2) =>
              match attempt (pf_attach f)
                      (attach_frame_request_to_conversation uid request_id device_id account_generation conversation_id
                         permanent_id now s2) s2 with
              | (Raise e, s3) => (route_error e, s3, o1)
              | (Ok r, s3) => drop_temporary uid storage_id r s3 o1
              end
          end
      end
  end.

Definition promote_frame_request (rollout : res (bool * bool)) (uid request_id device_id : string)
    (account_generation : Z) (conversation_id : string) (now : Z) (s : db) (o : pixels) : answer * db * pixels :=
  match authorize_frame_request uid account_generation rollout s with
  | Raise _ => (Http 404, s, o)
  | Ok _ =>
      match attempt (pf_get f) (r ← get_frame_request uid request_id s; Ok (r, s)) s with
      | (Raise e, _) => (route_error e, s, o)
      | (Ok r, _) =>
          if negb (fr_account_generation r =? account_generation) || negb (bool_decide (fr_device_id r = device_id))
          then (Http 403, s, o)
          else if negb (bool_decide (fr_conversation_id r = Some conversation_id)) then (Http 403, s, o)
          else if bool_decide (fr_state r = attached) then
            if given (fr_storage_id r) then
              match attempt (pf_acknowledge f) (acknowledge_frame_storage_cleanup uid (default "" (fr_storage_id r)) s) s with
              | (Ok _, s1) => (Reply r, s1, o)
              | (Raise e, s1) => (route_error e, s1, o)
              end
            else (Reply r, s, o)
          else if negb (bool_decide (fr_state r = uploaded)) || negb (given (fr_storage_id r)) then (Http 409, s, o)
          else promote_uploaded uid request_id device_id account_generation conversation_id
                 (default "" (fr_storage_id r)) now s o
      end
  end.
End Promote.

(** ** The other routes *)
Definition create_frame_request (rollout : res (bool * bool)) (uid device_id dedupe_key : string)
    (conversation_id screenshot_id : option string) (account_generation : Z) (requested_ttl_seconds : option Z) (now : Z)
    (s : db) : (answer * bool) * db :=
  match authorize_frame_request uid account_generation rollout s with
  | Raise _ => ((Http 404, false), s)
  | Ok _ =>
      match enqueue_frame_request uid device_id dedupe_key conversation_id screenshot_id account_generation
              requested_ttl_seconds None now s with
      | Ok ((r, deduplicated), s') => ((Reply r, deduplicated), s')
      | Raise ValueError => ((Http 400, false), s)
      | Raise e => ((Escapes e, false), s)
      end
  end.

Definition get_frame_request_status (rollout : res (bool * bool)) (uid request_id : string) (account_generation : Z)
    (s : db) : answer :=
  match authorize_frame_request uid account_generation rollout s with
  | Raise _ => Http 404
  | Ok _ =>
      match get_frame_request uid request_id s with
      | Ok r => if fr_account_generation r =? account_generation then Reply r else Http 404
      | Raise KeyError => Http 404
      | Raise e => Escapes e
      end
  end.

(** The bytes and the content type of a temporary image, or the answer that refuses it. *)
Definition consume_temporary_frame_request_image (env : StorageEnv) (first second : res (bool * bool))
    (uid request_id : string) (account_generation now : Z) (s : db) (o : pixels) : (string * string) + answer :=
  match authorize_frame_request uid account_generation first s with
  | Raise _ => inr (Http 404)
  | Ok _ =>
      match get_frame_request uid request_id s with
      | Raise KeyError => inr (Http 404)
      | Raise e => inr (Escapes e)
      | Ok r =>
          if negb (fr_account_generation r =? account_generation) || bool_decide (fr_conversation_id r <> None)
          then inr (Http 404)
          else if fr_expires_at r <=? now then inr (Http 410)
          else if negb (bool_decide (fr_state r = uploaded)) || negb (given (fr_storage_id r)) then inr (Http 409)
          else match authorize_frame_request uid account_generation second s with
               | Raise _ => inr (Http 404)
               | Ok _ =>
                   match download_frame_request_pixels env uid (default "" (fr_storage_id r)) o with
                   | Ok data => inl (data, if given (fr_content_type r) then default "" (fr_content_type r) else "image/jpeg")
                   | Raise _ => inr (Http 404)
                   end
               end
      end
  end.

Definition get_pending_frame_requests (rollout : res (bool * bool)) (uid device_id : string)
    (account_generation now limit : Z) (s : db) : (list FrameRequest + answer) * db :=
  match authorize_frame_request uid account_generation rollout s with
  | Raise _ => (inr (Http 404), s)
  | Ok _ =>
      match list_pending_frame_requests uid device_id account_generation now limit s with
      | (Ok rows, s') => (inl rows, s')
      | (Raise ValueError, s') => (inr (Http 400), s')
      | (Raise e, s') => (inr (Escapes e), s')
      end
  end.

Definition update_frame_request_state (rollout : res (bool * bool)) (uid request_id : string) (next : FrameRequestState)
    (device_id : string) (account_generation : Z) (terminal_reason storage_id : option string) (byte_count : Z)
    (content_type : option string) (now : Z) (s : db) : answer * db :=
  match authorize_frame_request uid account_generation rollout s with
  | Raise _ => (Http 404, s)
  | Ok _ =>
      match transition_frame_request uid request_id next device_id account_generation terminal_reason storage_id
              byte_count content_type now s with
      | Ok (r, s') => (Reply r, s')
      | Raise e => (route_error e, s)
      end
  end.
