(* ===== verification/FrameRouteTheorems.v ===== *)
(** * The routes never lose track of pixels

    After an upload or a promotion, whatever call failed on the way, a stored object is
    named by the row of its request or by a receipt that the retention worker cleans. *)

From S2P Require Import Prelude PyValue Firestore Sha256 MemoryText MemoryOperations MemoryRecords FrameRequests FrameStore FrameRows FrameProofs FrameCalls FrameSteps FrameTheorems FrameStorage FrameRoutes.
From Stdlib Require Import QArith_base Ascii.
From stdpp Require Import sorting.
Local Open Scope Z_scope.

(** ** An ambiguous upload can always be settled *)
Definition failed_row (r : FrameRequest) : FrameRequest :=
  Frame (fr_request_id r) (fr_uid r) (fr_device_id r) (fr_account_generation r) (fr_dedupe_key r) (fr_dedupe_window r)
    (fr_attempt_number r) (fr_conversation_id r) (fr_screenshot_id r) failed (fr_created_at r) (fr_expires_at r)
    (fr_claimed_at r) (fr_uploaded_at r) (fr_attached_at r) (Some "upload_commit_ambiguous") (fr_byte_count r)
    (fr_content_type r) (fr_storage_id r) (fr_cleanup_state r) (fr_cleanup_attempts r) (fr_cleanup_next_attempt_at r).

Lemma failed_reads d r : reads_as d r -> reads_as (update_doc r ambiguous_failure) (failed_row r).
Proof.
  intros Hr. pose proof (written_reads _ _ Hr) as []. set (d' := update_doc r ambiguous_failure).
  assert (Hk : forall k, bool_decide (k ∉ ["state"; "terminal_reason"]) = true ->
    d' !! k = (list_to_map (_request_data r) : fields) !! k).
  { intros k Hk. apply update_kept. by apply bool_decide_eq_true in Hk. }
  assert (Hs : d' !! "state" = Some (VStr "failed")) by by apply update_wrote.
  assert (Ha : d' !! "terminal_reason" = Some (VStr "upload_commit_ambiguous")) by by apply update_wrote.
  constructor; cbn [failed_row fr_request_id fr_uid fr_device_id fr_account_generation
    fr_dedupe_key fr_dedupe_window fr_attempt_number fr_conversation_id fr_screenshot_id fr_state fr_created_at
    fr_expires_at fr_claimed_at fr_uploaded_at fr_attached_at fr_terminal_reason fr_byte_count fr_content_type
    fr_storage_id fr_cleanup_state fr_cleanup_attempts fr_cleanup_next_attempt_at]; try done.
  { intros k Hd. destruct (decide (k ∈ ["state"; "terminal_reason"])) as [Hin|Hin].
    - revert Hin. rewrite !elem_of_cons, elem_of_nil. intros [->|[->|[]]]; by apply elem_of_list_to_set, (bool_decide_eq_true_1 _).
    - apply ra_fields. apply elem_of_dom. apply elem_of_dom in Hd. rewrite Hk in Hd; [done|by apply bool_decide_eq_true]. }
  all: unfold text_of, optional_of, time_of, maybe_time_of, required, defaulted in *.
  all: try (match goal with |- context [_ !! ?k] => rewrite (Hk k eq_refl) end; done).
  - by rewrite Hs.
  - by rewrite Ha.
  - clear - ra_lifecycle. unfold _validate_lifecycle in *. simpl.
    destruct (fr_expires_at r <? fr_created_at r); [discriminate ra_lifecycle|]. done.
Qed.

Lemma candidate_failed p d r : stored p d r -> candidate r ambiguous_failure = Ok (failed_row r).
Proof.
  intros Hst. unfold candidate, _request_from_payload. apply parse_strict_Ok, reads_frame_request.
  by apply (failed_reads d), (stored_reads _ _ _ Hst).
Qed.

Definition ref_of (uid request_id : string) : path := [USERS_COLLECTION; strip uid; FRAME_REQUESTS_COLLECTION; request_id].
Definition receipt_of (uid storage_id : string) : path :=
  [USERS_COLLECTION; strip uid; FRAME_UPLOAD_ORPHANS_COLLECTION; text_digest storage_id].

Lemma collection_total uid : strip uid <> "" -> _collection uid = Ok [USERS_COLLECTION; strip uid; FRAME_REQUESTS_COLLECTION].
Proof. intros H. unfold _collection, owner_collection. by rewrite bool_decide_false. Qed.

Lemma receipt_total uid id : strip uid <> "" -> orphan_ref uid id = Ok (receipt_of uid id).
Proof. intros H. unfold orphan_ref, _orphan_collection, owner_collection. by rewrite bool_decide_false. Qed.

Lemma ensure_orphan_ok receipt found id request_id now s ws :
  ensure_orphan_receipt receipt found id request_id now (TxnState s ws)
  = Ok (tt, TxnState s (ws ++ ensured receipt found id request_id now)).
Proof. destruct found; simpl; [by rewrite app_nil_r|done]. Qed.

(** A reconciliation of a user with stored rows never raises. *)
Lemma reconcile_total uid request_id device generation id now s :
  rows_ok s -> strip uid <> "" -> exists found s', reconcile_ambiguous_frame_upload uid request_id device generation id now s = Ok (found, s').
Proof.
  intros Hok Hu. unfold reconcile_ambiguous_frame_upload, run_txn, _reconcile.
  rewrite (collection_total _ Hu), (receipt_total _ id Hu).
  set (c := [USERS_COLLECTION; strip uid; FRAME_REQUESTS_COLLECTION]).
  ev (lift_ok (Ok c) c _ eq_refl). ev (lift_ok (Ok (receipt_of uid id)) _ _ eq_refl). ev (txn_get_ok _ s). ev (txn_get_ok _ s).
  assert (Hcommit : forall found : option FrameRequest, exists s',
    commit ([] ++ ensured (receipt_of uid id) (s !! receipt_of uid id) id request_id now) s = Some s').
  { intros _. unfold ensured. destruct (s !! receipt_of uid id); simpl; eauto. }
  destruct (s !! document c request_id) as [d|] eqn:Hd.
  - destruct (Hok _ d (ref_row uid _ request_id (collection_total _ Hu)) Hd) as [r Hst].
    ev (lift_ok _ _ _ (stored_snapshot _ _ _ Hst)).
    destruct (negb (owned_by r uid device generation)).
    { ev (ensure_orphan_ok (receipt_of uid id) (s !! receipt_of uid id) id request_id now s []). destruct (Hcommit None) as [s' Hs']. unfold mret, txn_ret. cbn [writes]. rewrite Hs'. eauto. }
    case_bool_decide; [unfold mret, txn_ret; simpl; eauto|].
    ev (ensure_orphan_ok (receipt_of uid id) (s !! receipt_of uid id) id request_id now s []). destruct (is_terminal (fr_state r) || given (fr_storage_id r)).
    { destruct (Hcommit None) as [s' Hs']. unfold mret, txn_ret. cbn [writes]. rewrite Hs'. eauto. }
    ev (lift_ok _ _ _ (candidate_failed _ _ _ Hst)). unfold txn_update. ev (txn_write_ok _ s _). unfold mret, txn_ret. cbn [writes].
    rewrite commit_app. destruct (Hcommit None) as [s' Hs']. rewrite Hs'. cbn [commit apply_write].
    assert (Hd' : s' !! document c request_id = Some d).
    { rewrite <- Hd. eapply commit_other; [exact Hs'|]. unfold ensured. destruct (s !! receipt_of uid id); simpl; [apply not_elem_of_nil|].
      by rewrite list_elem_of_singleton. }
    rewrite Hd'. eauto.
  - ev (ensure_orphan_ok (receipt_of uid id) (s !! receipt_of uid id) id request_id now s []). destruct (Hcommit None) as [s' Hs']. unfold mret, txn_ret. cbn [writes]. rewrite Hs'. eauto.
Qed.

(** ** An object is accounted for *)
Definition orphans (uid : string) : path := [USERS_COLLECTION; strip uid; FRAME_UPLOAD_ORPHANS_COLLECTION].

(** The receipt of an object waits for the clean-up: from [from] on, every page of the
    clean-up that is not cut off before the last receipt of the user holds it, and the
    worker that treats it asks for the erasure of this object, and counts it as cleaned
    exactly when the erasure worked. *)
Definition awaits_cleanup (uid id : string) (from : Z) (s : db) : Prop :=
  exists d, s !! receipt_of uid id = Some d /\
    (forall later limit, from <= later -> Z.of_nat (length (collection_rows (orphans uid) s)) <= limit ->
       (receipt_of uid id, d) ∈ due_rows (orphans uid) later limit s) /\
    forall erase later, (treat_orphan erase later (receipt_of uid id, d) s).1 = Ok (1, if erase id then 1 else 0).

(** What a receipt must say for that. *)
Record waiting_receipt (id : string) (from : Z) (d : fields) : Prop := {
  wt_names : d !! "storage_id" = Some (VStr id);
  wt_state : d !! "cleanup_state" = Some (VStr "pending");
  wt_attempts : d !! "cleanup_attempts" = Some (VInt 0);
  wt_due : d !! "cleanup_next_attempt_at" = Some (instant from)
}.

Lemma orphan_data_waits id request_id now : waiting_receipt id now (orphan_data id request_id now).
Proof. by split. Qed.

Lemma copy_receipt_waits request_id id kind now :
  waiting_receipt id (now + seconds (60 * 60)) (copy_receipt request_id id kind now).
Proof. by split. Qed.

Lemma in_page x l limit : x ∈ l -> Z.of_nat (length l) <= limit -> x ∈ limited limit l.
Proof. intros Hx Hl. unfold limited. by rewrite take_ge by lia. Qed.

Lemma due_listed c p d from later limit s :
  in_collection c p = true -> s !! p = Some d -> d !! "cleanup_next_attempt_at" = Some (instant from) ->
  from <= later -> Z.of_nat (length (collection_rows c s)) <= limit -> (p, d) ∈ due_rows c later limit s.
Proof.
  intros Hc Hd Hn Hl Hlim. unfold due_rows. set (due := List.filter _ (collection_rows c s)).
  assert (Hin : (p, d) ∈ due).
  { apply list_elem_of_In, List.filter_In. split; [by apply list_elem_of_In, in_collection_rows|].
    unfold time_at_most. simpl. rewrite Hn. by apply Z.leb_le. }
  assert (Hlen : (length due <= length (collection_rows c s))%nat) by apply List.filter_length_le.
  apply in_page; unfold order_by.
  - rewrite merge_sort_Permutation. apply list_elem_of_In, List.filter_In. split; [by apply list_elem_of_In|].
    unfold has_field. simpl. by rewrite Hn.
  - rewrite merge_sort_Permutation. pose proof (List.filter_length_le (has_field "cleanup_next_attempt_at") due). lia.
Qed.

Lemma waiting_treated id from d p s erase later :
  waiting_receipt id from d -> s !! p = Some d -> strip id <> "" -> one_segment id = true ->
  (treat_orphan erase later (p, d) s).1 = Ok (1, if erase id then 1 else 0).
Proof.
  intros [Hn Hst Ha _] Hd Hs Ho. unfold treat_orphan, attempts_of, plain. cbn [fst snd].
  assert (H1 : doc_get d "storage_id" = VStr id) by (unfold doc_get; by rewrite Hn).
  assert (H2 : doc_get d "cleanup_state" = VStr "pending") by (unfold doc_get; by rewrite Hst).
  assert (H3 : doc_get d "cleanup_attempts" = VInt 0) by (unfold doc_get; by rewrite Ha).
  rewrite H1, H2, H3, Ho, bool_decide_false by done. cbn -[values apply_ops]. rewrite Hd.
  by destruct (erase id).
Qed.

Lemma waiting_found uid id from d s :
  s !! receipt_of uid id = Some d -> waiting_receipt id from d -> strip id <> "" -> one_segment id = true ->
  awaits_cleanup uid id from s.
Proof.
  intros Hd Hw Hs Ho. exists d. split; [done|]. split.
  - intros later limit Hl Hlim. eapply due_listed; [|done|apply Hw|done|done].
    unfold in_collection, receipt_of, orphans. simpl. by rewrite bool_decide_true.
  - intros erase later. by eapply waiting_treated.
Qed.

(** The row of an uploaded object, or its receipt. *)
Definition accounted_for (uid request_id storage_id : string) (now : Z) (s : db) : Prop :=
  (exists r, row_at s (ref_of uid request_id) = Some r /\ fr_state r = uploaded /\
     fr_storage_id r = Some storage_id /\ fr_cleanup_state r = pending) \/
  awaits_cleanup uid storage_id now s.

(** Nothing names the object yet. *)
Definition unnamed (uid request_id storage_id : string) (s : db) : Prop :=
  s !! receipt_of uid storage_id = None /\
  forall r, row_at s (ref_of uid request_id) = Some r -> fr_storage_id r <> Some storage_id.

Lemma located_segment env uid id place : located env uid id = Ok place -> strip id = id -> id <> "" /\ one_segment id = true.
Proof.
  unfold located, _object_name. intros Hl Hs. rewrite Hs in Hl. destruct (_bucket _ _); [|done]. cbn in Hl.
  destruct (bool_decide (strip uid = "")); [done|]. destruct (one_segment (strip uid)); [|done]. cbn in Hl.
  case_bool_decide; [done|]. by destruct (one_segment id).
Qed.

(** What an update of the storage identifier leaves. *)
Lemma update_storage r u new id :
  candidate r u = Ok new -> dict_lookup "storage_id" (rev u) = Some (VStr id) -> strip id = id -> id <> "" ->
  fr_storage_id new = Some id.
Proof.
  intros Hu Hk Hs Hn. pose proof (ra_storage _ _ (candidate_reads _ _ _ Hu)) as Ho.
  apply (update_wrote r) in Hk. unfold optional_of, defaulted in Ho. rewrite Hk in Ho. simpl in Ho.
  rewrite Hs, bool_decide_false in Ho by done. destruct (256 <? py_len id); [done|]. by injection Ho.
Qed.

Lemma uploaded_update r reason id bytes content now :
  dict_lookup "storage_id" (rev (transition_update r uploaded reason (Some id) bytes content now)) = Some (VStr id).
Proof. unfold transition_update. simpl. by rewrite andb_false_r. Qed.

Lemma transition_accounts uid request_id device generation id bytes content now s new s' :
  rows_ok s -> strip id = id -> id <> "" ->
  transition_frame_request uid request_id uploaded device generation None (Some id) bytes content now s = Ok (new, s') ->
  s' !! receipt_of uid id = s !! receipt_of uid id /\
  exists r, row_at s' (ref_of uid request_id) = Some r /\ fr_state r = uploaded /\
     fr_storage_id r = Some id /\ fr_cleanup_state r = pending.
Proof.
  intros Hok Hs Hn H. apply transition_spec in H as (c & d & r & Hc & Hr & Hv & Ha & _ & Hu & Hd & ->).
  pose proof (read_stored _ _ _ _ _ _ Hok Hc Hd Hr) as Hst.
  pose proof (transition_fits _ _ _ _ _ _ _ _ _ _ _ _ _ Hst Hv Ha Hu) as (Hcov & Ht & Hsame & Hstate & _).
  pose proof (stored_update _ _ _ _ _ Hst Hu Hcov Ht Hsame) as Hst'. apply collection_Ok in Hc as [-> _].
  split; [by rewrite lookup_insert_ne|].
  eexists. split; [eapply stored_row; [|exact Hst']; apply lookup_insert_eq|].
  pose proof (stored_tidy _ _ _ Hst') as Htidy. unfold tidy in Htidy. simpl in *. rewrite Hstate in *.
  split_and!; [done| |apply Htidy]. eapply update_storage; [exact Hu|apply uploaded_update|done|done].
Qed.

Lemma reconcile_accounts uid request_id device generation id now s found s' :
  rows_ok s -> s !! receipt_of uid id = None -> id <> "" -> strip id = id -> one_segment id = true ->
  (forall r, row_at s (ref_of uid request_id) = Some r -> fr_storage_id r = Some id ->
     fr_state r = uploaded /\ fr_cleanup_state r = pending) ->
  reconcile_ambiguous_frame_upload uid request_id device generation id now s = Ok (found, s') ->
  accounted_for uid request_id id now s'.
Proof.
  intros Hok Hnone Hn Hs Ho Hnamed H.
  apply reconcile_spec in H as (c & receipt & Hc & Hr & _ & [(d & r & Hd & Hq & _ & Hid & ->)|[Hrec _]]).
  - pose proof (read_stored _ _ _ _ _ _ Hok Hc Hd Hq) as Hst. apply collection_Ok in Hc as [-> _].
    left. exists r. assert (Hrow : row_at s (ref_of uid request_id) = Some r) by by eapply stored_row.
    destruct (Hnamed r Hrow Hid). by split_and!.
  - right. apply orphan_Ok in Hr as ->. unfold receipt_of in Hnone. rewrite Hnone in Hrec.
    eapply waiting_found; [exact Hrec|apply orphan_data_waits|by rewrite Hs|done].
Qed.

(** The store after a faulty transition is one of the two. *)
Lemma attempt_raises {A} (f : fault) (m : res (A * db)) s e s' :
  attempt f m s = (Raise e, s') -> s' = s \/ exists a, m = Ok (a, s').
Proof. destruct f; simpl; destruct m as [[a s1]|]; intros [= <-]; subst; eauto. Qed.

Lemma attempt_Ok {A} (f : fault) (m : res (A * db)) s a s' : attempt f m s = (Ok a, s') -> m = Ok (a, s').
Proof. destruct f; simpl; destruct m as [[a' s1]|]; intros [=]; by subst. Qed.

Lemma attempt_pixels_raises (f : fault) (m : res (unit * pixels)) o e o' :
  attempt_pixels f m o = (Raise e, o') -> o' = o \/ m = Ok (tt, o').
Proof. destruct f; simpl; destruct m as [[[] o1]|]; intros [= <-]; subst; eauto. Qed.

Lemma attempt_pixels_Ok (f : fault) (m : res (unit * pixels)) o a o' : attempt_pixels f m o = (Ok a, o') -> m = Ok (tt, o').
Proof. destruct f; simpl; destruct m as [[[] o1]|]; intros [=]; by subst. Qed.

(** An external call whose effect takes place, whatever it answers. *)
Definition takes_effect (f : fault) : Prop := match f with Before _ => False | _ => True end.

Lemma attempt_pixels_effect f o o' : takes_effect f -> (attempt_pixels f (Ok (tt, o')) o).2 = o'.
Proof. by destruct f. Qed.

Lemma attempt_effect {A} f (a : A) s s' : takes_effect f -> (attempt f (Ok (a, s')) s).2 = s'.
Proof. by destruct f. Qed.

Lemma reconciled_store f uid request_id device generation id now s found s' :
  takes_effect f -> reconcile_ambiguous_frame_upload uid request_id device generation id now s = Ok (found, s') ->
  (_reconcile_uploaded_object f uid request_id device generation id now s).2 = s'.
Proof. intros Hf Hr. unfold _reconcile_uploaded_object. rewrite Hr. by destruct f. Qed.

(** C19: The route of an upload never loses pixels, under two conditions on its last
    resorts: the call that discards an object whose upload raised, and the final
    reconciliation, take their effect (they may still lose their answer).  Every other
    call may fail before or after its effect.  An object under a fresh identifier
    (stored nowhere, named by neither the row nor a receipt) that is in the temporary
    bucket afterwards is then named by the row of the request, which is [uploaded] with
    its clean-up pending, or by a receipt that is due at once: every page of the
    clean-up that reaches it holds it, and treating it erases this object.  Without the
    condition the object is lost ([FrameDemo.unreconciled_upload_is_lost]). *)
Theorem uploaded_pixels_are_accounted env f uid request_id device generation id data now s o place ans s' o' :
  rows_ok s -> strip uid <> "" -> strip id = id -> located env uid id = Ok place ->
  o !! place = None -> unnamed uid request_id id s ->
  takes_effect (uf_discard f) -> takes_effect (uf_reconcile f) ->
  store_upload env f uid request_id device generation id data now s o = (ans, s', o') ->
  o' !! place <> None -> accounted_for uid request_id id now s'.
Proof.
  intros Hok Hu Hs Hl Ho [Hnone Hfresh] Hdis Hrec. destruct (located_segment _ _ _ _ Hl Hs) as [Hn Hseg]. unfold store_upload.
  destruct (attempt_pixels (uf_upload f) _ o) as [[[]|e] o1] eqn:E1.
  - destruct (attempt (uf_transition f) _ s) as [[r|e] s1] eqn:E2.
    + intros [= <- <- <-] _. apply attempt_Ok in E2. left. by eapply transition_accounts.
    + assert (H1 : rows_ok s1 /\ s1 !! receipt_of uid id = None /\
        forall r, row_at s1 (ref_of uid request_id) = Some r -> fr_storage_id r = Some id ->
          fr_state r = uploaded /\ fr_cleanup_state r = pending).
      { apply attempt_raises in E2 as [->|[a Ha]]; [split_and!; [done|done|intros r Hr Hid; by destruct (Hfresh r Hr)]|].
        destruct (transition_accounts _ _ _ _ _ _ _ _ _ _ _ Hok Hs Hn Ha) as (Hsame & r1 & Hr1 & Hst & _ & Hcl).
        apply (transition_step _ _ _ _ _ _ _ _ _ _ _ _ _ Hok) in Ha as [? _].
        split_and!; [done|congruence|]. intros r Hr _. rewrite Hr1 in Hr. by injection Hr as <-. }
      destruct H1 as (Hok1 & Hnone1 & Hrow1).
      destruct (reconcile_total uid request_id device generation id now s1 Hok1 Hu) as (found & s2 & Hr).
      pose proof (reconcile_accounts _ _ _ _ _ _ _ _ _ Hok1 Hnone1 Hn Hs Hseg Hrow1 Hr) as Ha.
      pose proof (reconciled_store _ _ _ _ _ _ _ _ _ _ Hrec Hr) as Hs2.
      destruct (_reconcile_uploaded_object _ _ _ _ _ _ _ _) as [found' s2']. simpl in Hs2. subst s2'.
      destruct (holds_upload id found'); intros [= <- <- <-] _; exact Ha.
  - unfold delete_frame_request_pixels. rewrite Hl. cbn [mbind res_bind].
    pose proof (attempt_pixels_effect (uf_discard f) o1 (delete place o1) Hdis) as He.
    change (place ← Ok place; Ok (tt, delete place o1)) with (Ok (tt, delete place o1) : res (unit * pixels)).
    destruct (attempt_pixels (uf_discard f) _ o1) as [[[]|e'] o2]; simpl in He; subst o2; intros [= <- <- <-] Hin;
      by rewrite lookup_delete_eq in Hin.
Qed.

(** ** Promotion *)
Lemma attach_accounts `{PhotoEnv} uid request_id device generation conversation id now s new s' :
  rows_ok s -> strip id = id -> id <> "" ->
  attach_frame_request_to_conversation uid request_id device generation conversation id now s = Ok (new, s') ->
  exists r, row_at s' (ref_of uid request_id) = Some r /\ fr_state r = attached /\ fr_storage_id r = Some id.
Proof.
  intros Hok Hs Hn Hrun. assert (Hok' : rows_ok s') by (by apply (attach_step _ _ _ _ _ _ _ _ _ _ Hok) in Hrun as [? _]).
  apply attach_spec in Hrun as (c & receipt & d & r & Hc & Hr & Hd & Hq & _ & _ & _ & Hcase).
  pose proof (read_stored _ _ _ _ _ _ Hok Hc Hd Hq) as Hst.
  destruct Hcase as [(Hat & Hsid & _ & ->)|(Hm & Hu & Hd' & _)].
  - exists r. split; [|done]. pose proof (orphan_not_row _ _ _ Hr) as Hno. pose proof (ref_row _ _ request_id Hc) as Hrow.
    apply collection_Ok in Hc as [-> _]. eapply stored_row; [|exact Hst]. rewrite lookup_delete_ne; [done|].
    intros ->. done.
  - destruct Hm as (Hup & _ & _).
    destruct (attachment_fits _ _ _ _ _ _ Hst Hup ltac:(by rewrite Hs) Hu) as (Hcov & Ht & Hsame & Hstate & _).
    pose proof (stored_update _ _ _ _ _ Hst Hu Hcov Ht Hsame) as Hst'. apply collection_Ok in Hc as [-> _].
    eexists. split; [by eapply stored_row|]. simpl. split; [done|].
    eapply update_storage; [exact Hu|reflexivity|done|done].
Qed.

(** The receipt of a promotion, once written, is there until the attachment: the receipt
    of the displaced temporary object is another document, or says the same. *)
Definition reserved (uid request_id id : string) (now : Z) (s : db) : Prop :=
  exists kind, s !! receipt_of uid id = Some (copy_receipt request_id id kind now).

Definition distinct_receipts (temporary id : string) : Prop := text_digest temporary = text_digest id -> temporary = id.

Lemma receipt_written uid request_id id now s s' :
  strip uid <> "" -> reserve_frame_promotion_copy uid request_id id now s = Ok (tt, s') -> rows_ok s ->
  rows_ok s' /\ reserved uid request_id id now s'.
Proof.
  intros Hu H Hok. unfold reserve_frame_promotion_copy in H. case_match; [done|]. rewrite (receipt_total _ id Hu) in H.
  injection H as <-. split; [|exists "promotion_copy"; by rewrite lookup_insert_eq].
  apply (step_insert s _ _ Hok). by intros (o & i & [=]).
Qed.

Lemma receipt_kept uid request_id id temporary now s s' :
  strip uid <> "" -> distinct_receipts temporary id ->
  reserve_frame_storage_cleanup uid request_id temporary now s = Ok (tt, s') -> rows_ok s ->
  reserved uid request_id id now s -> rows_ok s' /\ reserved uid request_id id now s'.
Proof.
  intros Hu Hd H Hok [kind Hr]. unfold reserve_frame_storage_cleanup in H. rewrite (receipt_total _ temporary Hu) in H.
  injection H as <-. split; [apply (step_insert s _ _ Hok); by intros (o & i & [=])|].
  destruct (decide (text_digest temporary = text_digest id)) as [He|Hne].
  - rewrite (Hd He). exists "displaced_temporary". by rewrite lookup_insert_eq.
  - exists kind. rewrite lookup_insert_ne; [done|]. unfold receipt_of. by intros [= ?].
Qed.

Lemma acknowledged_row uid temporary s s' p :
  strip uid <> "" -> acknowledge_frame_storage_cleanup uid temporary s = Ok (tt, s') -> frame_row p ->
  row_at s' p = row_at s p.
Proof.
  intros Hu H Hp. unfold acknowledge_frame_storage_cleanup in H. rewrite (receipt_total _ temporary Hu) in H.
  injection H as <-. apply row_at_same. apply deleted_elsewhere; [|done]. by intros (o & i & [=]).
Qed.

(** Named by the attached row, or by a receipt that waits for the clean-up. *)
Definition promoted_or_due (uid request_id id : string) (now : Z) (s : db) : Prop :=
  (exists r, row_at s (ref_of uid request_id) = Some r /\ fr_state r = attached /\ fr_storage_id r = Some id) \/
  awaits_cleanup uid id (now + seconds (60 * 60)) s.

Lemma reserved_waits uid request_id id now s :
  strip id = id -> id <> "" -> one_segment id = true -> reserved uid request_id id now s ->
  promoted_or_due uid request_id id now s.
Proof.
  intros Hs Hn Ho [kind Hr]. right. eapply waiting_found; [exact Hr|apply copy_receipt_waits|by rewrite Hs|done].
Qed.

Lemma drop_temporary_keeps `{PhotoEnv} env f uid request_id temporary r s o ans s' o' id :
  strip uid <> "" ->
  (exists r0, row_at s (ref_of uid request_id) = Some r0 /\ fr_state r0 = attached /\ fr_storage_id r0 = Some id) ->
  drop_temporary env f uid temporary r s o = (ans, s', o') -> forall now, promoted_or_due uid request_id id now s'.
Proof.
  intros Hu Hrow. assert (Hp : frame_row (ref_of uid request_id)) by by exists (strip uid), request_id.
  unfold drop_temporary. destruct (attempt_pixels _ _ o) as [[[]|e] o1].
  - destruct (attempt _ _ s) as [[[]|e] s1] eqn:E.
    + intros [= <- <- <-] now. apply attempt_Ok in E. left. by rewrite (acknowledged_row _ _ _ _ _ Hu E Hp).
    + intros [= <- <- <-] now. apply attempt_raises in E as [->|[[] E]]; left; [done|].
      by rewrite (acknowledged_row _ _ _ _ _ Hu E Hp).
  - intros [= <- <- <-] now. by left.
Qed.

Lemma read_row uid request_id s s' r :
  strip uid <> "" -> (r ← get_frame_request uid request_id s; Ok (r, s)) = Ok (r, s') -> row_at s (ref_of uid request_id) = Some r.
Proof.
  intros Hu H. unfold get_frame_request, frame_ref in H. rewrite (collection_total _ Hu) in H. unfold row_at, ref_of.
  cbn in H. destruct (s !! _) as [d|]; [|done]. destruct (_request_from_snapshot _) as [r0|]; [|done].
  by injection H as ->.
Qed.

(** The part of a promotion that writes. *)
Lemma promote_uploaded_keeps `{PhotoEnv} env f uid request_id device generation conversation temporary now s o ans s' o' place :
  let id := permanent_id_of request_id in
  rows_ok s -> strip uid <> "" -> strip id = id -> one_segment id = true -> distinct_receipts temporary id -> o !! place = None ->
  promote_uploaded env f uid request_id device generation conversation temporary now s o = (ans, s', o') ->
  o' !! place <> None -> promoted_or_due uid request_id id now s'.
Proof.
  intros id Hok Hu Hs Hseg Hdist Ho. assert (Hn : id <> "") by done. unfold promote_uploaded. fold id.
  assert (Hwait : forall s, reserved uid request_id id now s -> promoted_or_due uid request_id id now s)
    by (intros; by apply reserved_waits).
  destruct (attempt (pf_reserve f) _ s) as [[[]|e] s1] eqn:E1; [|by intros [= <- <- <-] ?].
  apply attempt_Ok in E1. destruct (receipt_written _ _ _ _ _ _ Hu E1 Hok) as [Hok1 Hr1].
  destruct (attempt_pixels (pf_copy f) _ o) as [[[]|e] o1]; [|intros [= <- <- <-] _; auto].
  destruct (attempt (pf_displaced f) _ s1) as [[[]|e] s2] eqn:E2.
  - apply attempt_Ok in E2. destruct (receipt_kept _ _ _ _ _ _ _ Hu Hdist E2 Hok1 Hr1) as [Hok2 Hr2].
    destruct (attempt (pf_attach f) _ s2) as [[r|e] s3] eqn:E3.
    + apply attempt_Ok in E3. apply attach_accounts in E3; [|done|done|done].
      intros Hd _. by eapply drop_temporary_keeps.
    + intros [= <- <- <-] _. apply attempt_raises in E3 as [->|[r E3]]; [by apply Hwait|]. left. by eapply attach_accounts.
  - intros [= <- <- <-] _. apply Hwait. apply attempt_raises in E2 as [->|[[] E2]]; [done|].
    by apply (receipt_kept _ _ _ _ _ _ _ Hu Hdist E2 Hok1 Hr1).
Qed.

(** C20: A promotion that fails or whose answer is lost leaves, whichever of its calls
    went wrong before or after its effect, either no permanent object, or one that the
    attached row of the request names, or one whose receipt falls due an hour after the
    promotion: from then on every page of the clean-up that reaches the receipt holds it,
    and treating it erases this object.  The object was not there before, its identifier
    is one a clean-up accepts (no surrounding space, one path segment), and the digests
    of the temporary and of the permanent identifier, which name their receipts, do not
    collide. *)
Theorem promotion_leaves_no_orphan `{PhotoEnv} env f rollout uid request_id device generation conversation now s o ans s' o' place :
  let id := permanent_id_of request_id in
  rows_ok s -> strip uid <> "" -> strip id = id -> located env uid id = Ok place -> o !! place = None ->
  (forall r temporary, row_at s (ref_of uid request_id) = Some r -> fr_storage_id r = Some temporary ->
     distinct_receipts temporary id) ->
  promote_frame_request env f rollout uid request_id device generation conversation now s o = (ans, s', o') ->
  o' !! place <> None -> promoted_or_due uid request_id id now s'.
Proof.
  intros id Hok Hu Hs Hl Ho Hdist. destruct (located_segment _ _ _ _ Hl Hs) as [_ Hseg].
  unfold promote_frame_request. destruct (authorize_frame_request _ _ _ _); [|by intros [= <- <- <-] ?].
  destruct (attempt (pf_get f) _ s) as [[r|e] s0] eqn:Eg; [|by intros [= <- <- <-] ?].
  destruct (negb _ || negb _); [by intros [= <- <- <-] ?|]. destruct (negb _); [by intros [= <- <- <-] ?|].
  case_bool_decide.
  { destruct (given _); [|by intros [= <- <- <-] ?]. destruct (attempt (pf_acknowledge f) _ s) as [[? |e] s1]; by intros [= <- <- <-] ?. }
  destruct (negb _ || negb _) eqn:Eb; [by intros [= <- <- <-] ?|]. apply orb_false_iff in Eb as [_ Hg]. apply negb_false_iff in Hg.
  eapply promote_uploaded_keeps; [done|done|done|done| |done]. apply attempt_Ok, read_row in Eg; [|done].
  destruct (fr_storage_id r) as [t|] eqn:Et; [exact (Hdist r t Eg Et)|discriminate Hg].
Qed.
