(* ===== verification/FrameDemo.v ===== *)
(** * The theorems about frame requests at concrete histories

    One request of a device: queued, claimed, uploaded, failed, its pixels erased, its
    metadata deleted; a chat turn that asks twice for its paid call; a row whose pixels
    could not be erased a thousand times; two callers that promote the same frame; an
    upload and a promotion whose calls fail. *)

From S2P Require Import Prelude PyValue Firestore LegalHolds Sha256 MemoryText MemoryOperations MemoryRecords AccountCutover CutoverCoordinator FrameRequests FrameStore FrameRows FrameProofs FrameCalls FrameSteps FrameTheorems FrameStorage FrameRoutes FrameRouteTheorems.
From Stdlib Require Import QArith_base Ascii.
Local Open Scope Z_scope.

#[local] Instance plain_photos : PhotoEnv := {| encrypt text _ := text |}.

Definition t0 : Z := seconds 1700000000.
Definition demo_owner : string := "u1".

Definition demo_enqueue : frame_call := Enqueue demo_owner "dev" "key" (Some "c1") None 3 None None t0.
Definition demo_id : string := Eval vm_compute in
  match enqueue_frame_request demo_owner "dev" "key" (Some "c1") None 3 None None t0 ∅ with
  | Ok ((r, _), _) => fr_request_id r
  | Raise _ => ""
  end.
Definition demo_path : path := [USERS_COLLECTION; demo_owner; FRAME_REQUESTS_COLLECTION; demo_id].

Definition demo_collection : path := [USERS_COLLECTION; demo_owner; FRAME_REQUESTS_COLLECTION].

Definition move (next : FrameRequestState) (reason storage : option string) (bytes : Z) (content : option string) (now : Z)
  : frame_call := Transition demo_owner demo_id next "dev" 3 reason storage bytes content now.

Definition demo_moves : list frame_call :=
  [demo_enqueue; move claimed None None 0 None (t0 + seconds 1);
   move uploaded None (Some "temporary-a") 100 (Some "image/jpeg") (t0 + seconds 2);
   move failed (Some "device_gone") None 0 None (t0 + seconds 3)].

Definition demo_page : fields := Eval vm_compute in default ∅ (run demo_moves ∅ !! demo_path).
Definition demo_erase : frame_call := CleanPixels demo_owner demo_id demo_page true (t0 + seconds 4).
Definition demo_history : list frame_call := demo_moves ++ [demo_erase].
Definition demo_delete : frame_call := DeleteMetadata demo_owner demo_id (t0 + seconds (7 * 24 * 3600)).

Example demo_life :
  fr_state <$> row_at (run demo_history ∅) demo_path = Some failed /\
  fr_cleanup_state <$> row_at (run demo_history ∅) demo_path = Some deleted /\
  row_at (run (demo_history ++ [demo_delete]) ∅) demo_path = None.
Proof. vm_compute. done. Qed.

Lemma no_rows : rows_ok ∅.
Proof. intros p d _ Hd. by rewrite lookup_empty in Hd. Qed.

Lemma demo_timely : timely_run (demo_history ++ [demo_delete]) ∅.
Proof.
  assert (Hpage : page_row demo_owner demo_id demo_page (run demo_moves ∅)).
  { intros c [= <-]. change [USERS_COLLECTION; strip demo_owner; FRAME_REQUESTS_COLLECTION] with demo_collection. split; [left; apply (bool_decide_eq_true_1 _); vm_compute; reflexivity|].
    split; [vm_compute; reflexivity|].
    intros r Hr. assert (Ha : match _request_from_snapshot (demo_path, demo_page) with
      Ok q => bool_decide (fr_cleanup_attempts q < 1000) | Raise _ => true end = true) by (vm_compute; reflexivity).
    change (document demo_collection demo_id) with demo_path in Hr. rewrite Hr in Ha. by apply bool_decide_eq_true in Ha. }
  exact (conj I (conj I (conj I (conj I (conj Hpage (conj I I)))))).
Qed.

Lemma frame_calls_refine_the_lifecycle_witness :
  rows_ok (run (demo_history ++ [demo_delete]) ∅) /\
  lifecycle (row_at (run demo_history ∅) demo_path) (row_at (exec demo_delete (run demo_history ∅)) demo_path).
Proof.
  destruct (frame_calls_refine_the_lifecycle demo_history demo_delete ∅ no_rows demo_timely) as [H1 H2].
  split; [rewrite run_app; exact H1|]. apply H2. by exists demo_owner, demo_id.
Defined.

Lemma one_frame_per_conversation_witness :
  single (run demo_moves ∅) /\ exists r, row_at (run demo_moves ∅) demo_path = Some r.
Proof.
  split.
  - apply (one_frame_per_conversation demo_moves ∅ no_rows).
    + intros p q r r' x _ _ Hr. unfold row_at in Hr. by rewrite lookup_empty in Hr.
    + apply (proj1 (timely_run_app demo_moves [demo_erase; demo_delete] ∅) demo_timely).
    + repeat constructor.
  - eexists. vm_compute. reflexivity.
Defined.

Definition demo_row : FrameRequest := Eval vm_compute in
  match row_at (run demo_history ∅) demo_path with
  | Some r => r
  | None => Frame "" "" "" 0 "" 0 0 None None requested 0 0 None None None None 0 None None not_required 0 None
  end.

Lemma demo_row_at : row_at (run demo_history ∅) demo_path = Some demo_row.
Proof. vm_compute. reflexivity. Qed.

Lemma demo_gone : row_at (exec demo_delete (run demo_history ∅)) demo_path = None.
Proof. vm_compute. reflexivity. Qed.

Lemma metadata_outlives_pixels_witness :
  exists uid' d now' r', CleanPixels uid' demo_id d true now' ∈ demo_history /\ strip uid' = strip demo_owner /\
    _request_from_snapshot (demo_path, d) = Ok r' /\ fr_storage_id r' = Some "temporary-a".
Proof.
  refine (metadata_outlives_pixels demo_history ∅ demo_owner demo_id (t0 + seconds (7 * 24 * 3600))
            demo_collection demo_row "temporary-a" no_rows _ _ eq_refl demo_row_at eq_refl demo_gone).
  - intros p r0 _ Hr0. unfold row_at in Hr0. by rewrite lookup_empty in Hr0.
  - exact (proj1 (proj1 (timely_run_app demo_history [demo_delete] ∅) demo_timely)).
Defined.

Definition demo_created : FrameRequest := Eval vm_compute in
  match enqueue_frame_request demo_owner "dev" "key" (Some "c1") None 3 None None t0 ∅ with
  | Ok ((r, _), _) => r
  | Raise _ => demo_row
  end.

(** The row that the first call creates, with the store it leaves. *)
Lemma demo_enqueued :
  exists s, enqueue_frame_request demo_owner "dev" "key" (Some "c1") None 3 None None t0 ∅ = Ok ((demo_created, false), s).
Proof.
  assert (H : match enqueue_frame_request demo_owner "dev" "key" (Some "c1") None 3 None None t0 ∅ with
              | Ok ((r, b), _) => r = demo_created /\ b = false | Raise _ => False end) by (vm_compute; done).
  destruct (enqueue_frame_request _ _ _ _ _ _ _ _ _ _) as [[[r b] s]|]; [|done]. destruct H as [-> ->]. by exists s.
Qed.

Lemma enqueue_keeps_the_quota_witness :
  exists s rows, enqueue_frame_request demo_owner "dev" "key" (Some "c1") None 3 None None t0 ∅ = Ok ((demo_created, false), s) /\
    requests_of (all_active demo_collection "dev" 3 s) = Ok rows /\ demo_created ∈ rows.
Proof.
  destruct demo_enqueued as [s Hs].
  destruct (enqueue_keeps_the_quota demo_owner "dev" "key" (Some "c1") None 3 None None t0 ∅ demo_created s
              demo_collection Hs eq_refl ltac:(vm_compute; discriminate)) as (rows & H1 & H2 & _).
  exists s, rows. split; [exact Hs|]. split; [exact H1|exact H2].
Defined.

Definition demo_turn (id : string) (now : Z) (s : db) : res (fields * db) :=
  reserve_frame_vision_invocation demo_owner "turn-1" id 3 now s.

Definition demo_reserved : fields := <["reserved" := VBool true]> (new_vision_receipt "frame-a" 3 t0).

Lemma demo_first : exists s, demo_turn "frame-a" t0 ∅ = Ok (demo_reserved, s).
Proof.
  assert (H : match demo_turn "frame-a" t0 ∅ with Ok (d, _) => bool_decide (d = demo_reserved) | Raise _ => false end = true)
    by (vm_compute; reflexivity).
  destruct (demo_turn "frame-a" t0 ∅) as [[d s]|]; [|done]. apply bool_decide_eq_true in H as ->. by exists s.
Qed.

(** The second caller gets what the first one paid for. *)
Definition demo_answer : list frame_call := [CompleteVision demo_owner "turn-1" "frame-a" 3 "a desk" (t0 + seconds 10)].

Lemma demo_second s :
  demo_turn "frame-a" t0 ∅ = Ok (demo_reserved, s) ->
  exists d s', demo_turn "frame-a" (t0 + seconds 600) (run demo_answer s) = Ok (d, s') /\
    doc_get d "description" = VStr "a desk".
Proof.
  intros Hs. assert (H : match demo_turn "frame-a" t0 ∅ with
    | Ok (_, s) => match demo_turn "frame-a" (t0 + seconds 600) (run demo_answer s) with
                   | Ok (d, _) => bool_decide (doc_get d "description" = VStr "a desk") | Raise _ => false end
    | Raise _ => false end = true) by (vm_compute; reflexivity).
  rewrite Hs in H. destruct (demo_turn _ _ (run demo_answer s)) as [[d s']|]; [|done].
  apply bool_decide_eq_true in H. by exists d, s'.
Qed.

Lemma vision_is_paid_for_once_witness :
  exists d, doc_get d "description" = VStr "a desk" /\ d !! "reserved" = None.
Proof.
  destruct demo_first as [s Hs]. destruct (demo_second s Hs) as (d & s' & Hs' & Hd). exists d. split; [exact Hd|].
  exact (vision_is_paid_for_once demo_owner "turn-1" "frame-a" 3 t0 ∅ demo_reserved s demo_answer "frame-a" 3
           (t0 + seconds 600) d s' Hs eq_refl (or_intror eq_refl) Hs').
Defined.

(** ** A row after a thousand failures *)
Definition stuck_row : FrameRequest :=
  Frame "frame-x" demo_owner "dev" 3 "key" 0 0 None None failed t0 (t0 + seconds 60) None None None (Some "device_gone")
    0 None (Some "temporary-x") cleanup_failed 1000 (Some t0).

Definition stuck_doc : fields := list_to_map (_request_data stuck_row).
Definition stuck_path : path := document demo_collection "frame-x".

Lemma stuck_stored : stored stuck_path stuck_doc stuck_row.
Proof.
  assert (H : frame_request stuck_doc = Ok stuck_row) by (vm_compute; reflexivity). apply frame_request_iff in H.
  constructor; [done|done| |done]. intros k Hk _. by apply data_lookup.
Qed.

Lemma last_failure_blocks_the_cleanup_witness :
  exists d', forall erase later limit s2, (stuck_path, d') ∈ pixel_query demo_collection later limit s2 ->
    exists e, (cleanup_frame_request_pixels demo_owner erase later limit s2).1 = Raise e.
Proof.
  assert (Hd : (<[stuck_path := stuck_doc]> ∅ : db) !! document demo_collection "frame-x" = Some stuck_doc)
    by apply lookup_insert_eq.
  destruct (last_failure_blocks_the_cleanup demo_owner "frame-x" t0 _ stuck_doc stuck_row demo_collection eq_refl
              Hd stuck_stored eq_refl ltac:(apply (bool_decide_eq_true_1 _); vm_compute; reflexivity) eq_refl)
    as (d' & _ & _ & H).
  exists d'. exact H.
Defined.

(** ** Two callers promote the same frame

    The second caller read the row before the first one attached it; it reserves the
    receipt of the permanent copy after the attachment cleared it, its copy fails because
    the temporary object is gone, and an hour later the clean-up of ambiguous uploads
    erases the permanent object that the attached row and the photo name. *)
Definition promoted_moves : list frame_call :=
  [demo_enqueue; move claimed None None 0 None (t0 + seconds 1);
   move uploaded None (Some "temporary-a") 100 (Some "image/jpeg") (t0 + seconds 2)].

Definition conversation_store : db :=
  <[conversation_path demo_owner "c1" := list_to_map [("data_protection_level", VStr "standard")]]> ∅.

Definition promoted : db :=
  run (promoted_moves ++
       [ReservePromotion demo_owner demo_id "permanent-a" (t0 + seconds 3);
        ReserveCleanup demo_owner demo_id "temporary-a" (t0 + seconds 3);
        Attach demo_owner demo_id "dev" 3 "c1" "permanent-a" (t0 + seconds 4);
        AcknowledgeCleanup demo_owner "temporary-a";
        ReservePromotion demo_owner demo_id "permanent-a" (t0 + seconds 5)]) conversation_store.

Theorem second_promotion_erases_the_evidence :
  let result := cleanup_ambiguous_frame_upload_pixels demo_owner (fun id => bool_decide (id = "permanent-a"))
                  (t0 + seconds 3700) 32 promoted in
  result.1 = Ok (CleanupPage 1 1) /\
  fr_state <$> row_at result.2 demo_path = Some attached /\
  (fr_storage_id <$> row_at result.2 demo_path) = Some (Some "permanent-a").
Proof. vm_compute. done. Qed.

(** ** The routes at concrete requests

    An upload whose commit went through while its answer was lost, and a promotion whose
    copy worked and whose attachment was refused: the object is named by the row in the
    first case and by a receipt of the clean-up in the second. *)

Definition buckets : StorageEnv := Storage (fun _ => true) false.

Lemma demo_prefix_ok n : rows_ok (run (take n demo_history) ∅).
Proof.
  apply run_rows_ok; [exact no_rows|].
  assert (H : timely_run (take n demo_history ++ drop n demo_history) ∅).
  { rewrite take_drop. exact (proj1 (proj1 (timely_run_app demo_history [demo_delete] ∅) demo_timely)). }
  exact (proj1 (proj1 (timely_run_app _ _ ∅) H)).
Qed.

(** ** The lost answer of an upload *)
Definition claimed_store : db := run (take 2 demo_history) ∅.
Definition demo_upload_with (f : upload_faults) : answer * db * pixels :=
  store_upload buckets f demo_owner demo_id "dev" 3 "temporary-b" "pixels" (t0 + seconds 2) claimed_store ∅.

(** The commit of the row loses its answer. *)
Definition lost_answer : upload_faults := UploadFaults NoFault NoFault (After FirestoreContentionExhausted) NoFault.
Definition demo_upload : answer * db * pixels := demo_upload_with lost_answer.

(** The commit fails, and so does the answer of the reconciliation. *)
Definition lost_reconciliation : upload_faults :=
  UploadFaults NoFault NoFault (Before FirestoreContentionExhausted) (After FirestoreContentionExhausted).

(** The commit fails, and the reconciliation is never made. *)
Definition no_reconciliation : upload_faults :=
  UploadFaults NoFault NoFault (Before FirestoreContentionExhausted) (Before FirestoreContentionExhausted).

Definition demo_place (id : string) : bool * string := (_is_permanent id, "frame-requests/" +:+ demo_owner +:+ "/" +:+ text_digest id).

Example demo_upload_replies :
  match demo_upload.1.1 with Reply r => bool_decide (fr_state r = uploaded) | _ => false end = true.
Proof. vm_compute. reflexivity. Qed.

Lemma nothing_names_it : unnamed demo_owner demo_id "temporary-b" claimed_store.
Proof.
  split; [vm_compute; reflexivity|]. intros r Hr.
  assert (H : (fr_storage_id <$> row_at claimed_store (ref_of demo_owner demo_id)) = Some None) by (vm_compute; reflexivity).
  rewrite Hr in H. simpl in H. injection H as ->. done.
Qed.

Lemma triple_eta {A B C} (x : A * B * C) : x = (x.1.1, x.1.2, x.2).
Proof. by destruct x as [[a b] c]. Qed.

Lemma demo_upload_runs f :
  store_upload buckets f demo_owner demo_id "dev" 3 "temporary-b" "pixels" (t0 + seconds 2) claimed_store ∅
  = ((demo_upload_with f).1.1, (demo_upload_with f).1.2, (demo_upload_with f).2).
Proof. unfold demo_upload_with. apply triple_eta. Qed.

Lemma demo_object_stored f :
  bool_decide ((demo_upload_with f).2 !! demo_place "temporary-b" = None) = false ->
  (demo_upload_with f).2 !! demo_place "temporary-b" <> None.
Proof. by intros H%bool_decide_eq_false. Qed.

(** With [lost_answer] the row names the object, with [lost_reconciliation] its receipt. *)
Lemma uploaded_pixels_are_accounted_witness :
  accounted_for demo_owner demo_id "temporary-b" (t0 + seconds 2) (demo_upload_with lost_answer).1.2 /\
  accounted_for demo_owner demo_id "temporary-b" (t0 + seconds 2) (demo_upload_with lost_reconciliation).1.2.
Proof.
  split.
  - refine (uploaded_pixels_are_accounted buckets lost_answer demo_owner demo_id "dev" 3 "temporary-b" "pixels"
            (t0 + seconds 2) claimed_store ∅ (demo_place "temporary-b")
            (demo_upload_with lost_answer).1.1 (demo_upload_with lost_answer).1.2 (demo_upload_with lost_answer).2
            (demo_prefix_ok 2) _ _ _ _ nothing_names_it I I (demo_upload_runs lost_answer) _).
    + done.
    + vm_compute. reflexivity.
    + vm_compute. reflexivity.
    + apply lookup_empty.
    + apply demo_object_stored. vm_compute. reflexivity.
  - refine (uploaded_pixels_are_accounted buckets lost_reconciliation demo_owner demo_id "dev" 3 "temporary-b" "pixels"
            (t0 + seconds 2) claimed_store ∅ (demo_place "temporary-b")
            (demo_upload_with lost_reconciliation).1.1 (demo_upload_with lost_reconciliation).1.2 (demo_upload_with lost_reconciliation).2
            (demo_prefix_ok 2) _ _ _ _ nothing_names_it I I (demo_upload_runs lost_reconciliation) _).
    + done.
    + vm_compute. reflexivity.
    + vm_compute. reflexivity.
    + apply lookup_empty.
    + apply demo_object_stored. vm_compute. reflexivity.
Defined.

(** The receipt is the one the clean-up works on: a page two seconds later erases the
    object. *)
Example reconciled_upload_is_cleaned :
  (cleanup_ambiguous_frame_upload_pixels demo_owner (fun id => bool_decide (id = "temporary-b")) (t0 + seconds 4) 32
     (demo_upload_with lost_reconciliation).1.2).1 = Ok (CleanupPage 1 1).
Proof. vm_compute. reflexivity. Qed.

(** Where the reconciliation takes no effect, the object stays and nothing names it. *)
Theorem unreconciled_upload_is_lost :
  let result := demo_upload_with no_reconciliation in
  result.2 !! demo_place "temporary-b" <> None /\
  (fr_storage_id <$> row_at result.1.2 (ref_of demo_owner demo_id)) = Some None /\
  result.1.2 !! receipt_of demo_owner "temporary-b" = None.
Proof. split_and!; [apply demo_object_stored; vm_compute; reflexivity|vm_compute; reflexivity|vm_compute; reflexivity]. Qed.

(** ** A promotion whose attachment is refused *)
Definition control_record : AccountCutoverRecord :=
  CutoverRecord demo_owner legacy 3 0 0 false offline_none not_started None None false.

Definition base_store : db := <[_control_ref demo_owner := list_to_map (persisted_payload control_record)]> ∅.
Definition uploaded_store : db := run promoted_moves base_store.
Definition uploaded_objects : pixels := <[demo_place "temporary-a" := ("pixels", "image/jpeg")]> ∅.

Definition refused_attachment : promote_faults :=
  PromoteFaults NoFault NoFault NoFault NoFault NoFault (Before FirestoreContentionExhausted) NoFault NoFault.

Definition demo_promotion : answer * db * pixels :=
  promote_frame_request buckets refused_attachment (Ok (true, false)) demo_owner demo_id "dev" 3 "c1"
    (t0 + seconds 3) uploaded_store uploaded_objects.

Example demo_promotion_fails : demo_promotion.1.1 = Escapes FirestoreContentionExhausted.
Proof. vm_compute. reflexivity. Qed.

Lemma base_rows : rows_ok base_store.
Proof.
  intros p d (o & i & ->) Hd. unfold base_store in Hd. rewrite lookup_insert_ne in Hd by done.
  by rewrite lookup_empty in Hd.
Qed.

Lemma uploaded_rows : rows_ok uploaded_store.
Proof. apply run_rows_ok; [exact base_rows|]. exact (conj I (conj I (conj I I))). Qed.

Lemma demo_receipts r temporary :
  row_at uploaded_store (ref_of demo_owner demo_id) = Some r -> fr_storage_id r = Some temporary ->
  distinct_receipts temporary (permanent_id_of demo_id).
Proof.
  intros Hr Ht. assert (H : (fr_storage_id <$> row_at uploaded_store (ref_of demo_owner demo_id)) = Some (Some "temporary-a"))
    by (vm_compute; reflexivity).
  rewrite Hr in H. simpl in H. rewrite Ht in H. injection H as ->. intros Hd. exfalso. revert Hd.
  assert (Hb : bool_decide (text_digest "temporary-a" = text_digest (permanent_id_of demo_id)) = false) by (vm_compute; reflexivity).
  exact (bool_decide_eq_false_1 _ Hb).
Qed.

Lemma demo_promotion_runs :
  promote_frame_request buckets refused_attachment (Ok (true, false)) demo_owner demo_id "dev" 3 "c1"
    (t0 + seconds 3) uploaded_store uploaded_objects
  = (demo_promotion.1.1, demo_promotion.1.2, demo_promotion.2).
Proof. unfold demo_promotion. apply triple_eta. Qed.

Lemma promotion_leaves_no_orphan_witness :
  promoted_or_due demo_owner demo_id (permanent_id_of demo_id) (t0 + seconds 3) demo_promotion.1.2.
Proof.
  refine (promotion_leaves_no_orphan buckets refused_attachment (Ok (true, false)) demo_owner demo_id "dev" 3 "c1"
            (t0 + seconds 3) uploaded_store uploaded_objects demo_promotion.1.1 demo_promotion.1.2 demo_promotion.2
            (demo_place (permanent_id_of demo_id)) uploaded_rows _ _ _ _ demo_receipts demo_promotion_runs _).
  - done.
  - vm_compute. reflexivity.
  - vm_compute. reflexivity.
  - vm_compute. reflexivity.
  - assert (H : bool_decide (demo_promotion.2 !! demo_place (permanent_id_of demo_id) = None) = false) by (vm_compute; reflexivity).
    by apply bool_decide_eq_false in H.
Defined.
